(* ===== verification/_CoqProject ===== *)
-Q . S2P
Prelude.v
PyJson.v
Roles.v
RequestState.v
Dispatch.v
Codec.v
CodecFacts.v
Protocol.v
CoreProps.v
Orchestrator.v
OrchestratorFacts.v
OrchestratorSafety.v
OrchestratorProps.v
Buddy.v
BuddyFacts.v
BuddyOps.v
BuddyProps.v
PyValue.v
Buffer.v
BufferFacts.v
Manager.v
ManagerProps.v
Fields.v
FieldsFacts.v
FieldsProps.v
Metrics.v
Worker.v
WorkerProps.v
Admission.v
Batching.v
Scheduler.v
SchedulerFacts.v
SchedulerProps.v
RankGroups.v
Parallel.v
ParallelFacts.v
ParallelProps.v
ServerArgs.v
ServerArgsProps.v
CfgParallel.v
CfgParallelProps.v
Schedule.v
Efficiency.v
Techniques.v
TechniquesProps.v
Presets.v
Environ.v
Stage1Cache.v
Stage1CacheProps.v
ForwardContext.v
ResidualCache.v
Ltx2TeaCache.v
Ltx2TeaCacheProps.v
Cosmos3TeaCache.v
Ltx2Pab.v
Ltx2PabProps.v
TeaCacheMixin.v
TeaCacheMixinProps.v
RadixKey.v
RadixCache.v
RadixFacts.v
RadixSplit.v
RadixInv.v
RadixOps.v
RadixLocks.v
RadixApi.v
RadixReq.v
RadixReqFacts.v
RadixProps.v
RadixReqProps.v
KvPool.v
KvKernelFacts.v
KvPoolProps.v
KvAlloc.v
KvAllocFacts.v
KvAllocProps.v
SchedulePolicy.v
SchedulePolicyProps.v
Adder.v
AdderProps.v
