(* ===== verification/Prelude.v ===== *)
(** * Sol-Engine: a verified model of the diffusion serving runtime

    The program serves diffusion models. The modelled part is its serving core, under
    [python/sglang/multimodal_gen/runtime/]: the disaggregated deployment
    ([disaggregation/]), where a request travels through encoder, denoiser and decoder
    processes under one orchestrator; the monolithic scheduler with dynamic batching
    ([managers/]); the process groups of a multi-GPU instance and guidance across its
    ranks ([distributed/]); the arguments that set all of this up ([server_args.py],
    [launch_server.py]); the framework that composes acceleration techniques
    ([efficiency/]); and the caches that let a denoising step reuse the work of earlier ones
    ([cache/]). Of the language-model engine the repository also holds
    ([python/sglang/srt/]), the prefix cache, the pools of KV indices ([mem_cache/]), the
    order of the waiting queue and the admission of prefill batches ([managers/]) are
    modelled.

    ** How the parts interact

    A client sends a request to the orchestrator ([DiffusionServer]), which tracks its
    lifecycle, picks an instance of each role with a dispatch policy under a count of
    free slots, and drives the peer-to-peer transfer of tensors between instances with
    protocol messages. A role instance (the worker) stages tensors in a buffer whose
    memory a buddy allocator manages, pushes them to a peer's receive slot, rebuilds
    the request on the other side and runs its part of the model. In a monolithic
    deployment the scheduler keeps a waiting queue instead, merges compatible requests
    that the admission controller lets share a batch, and divides the merged output
    among the clients. An instance with several GPUs runs one worker per rank; its
    arguments are resolved to degrees of parallelism, from which every worker derives the
    process groups it joins. During denoising the branches of a guided prediction may be
    shared out among ranks, and a plan of acceleration techniques may replace steps,
    blocks or tokens. The caches are consulted inside the transformer (TeaCache, attention
    broadcast) or around the guided evaluation of a step (stage-1 cache); they learn stage,
    step and branch from the context of the forward pass, and their settings come from
    environment variables. A language-model request looks its prompt up in a radix tree,
    locks the path it found, and hands its KV indices to the tree as it runs and finishes;
    the indices come from pools of tokens or pages, and its row from a pool of rows. A policy
    orders the waiting requests, by what the tree holds of them or by other keys; the
    adder decides which waiting requests the next prefill batch takes, from what is free in
    the pool and evictable in the tree, and allocation evicts from the tree, takes the
    indices and writes them into the requests' rows.

    ** Files

    Shared:
    - [Prelude]: exceptions, the state-and-exception monad [M] with its notations and
      rules, tactics, the hint database, lemmas on lists, maps and integers;
    - [PyJson]: [json.dumps] and [json.loads]; [PyValue]: values held by a request.

    Control plane:
    - [Roles] ([roles.py]), [RequestState] ([request_state.py]), [Dispatch]
      ([dispatch_policy.py]; class [DispatchPolicy] with the laws [CapacityAware], an
      instance for each policy);
    - [Codec], [CodecFacts] ([transport/codec.py]), [Protocol]
      ([transport/protocol.py]); [CoreProps] has the properties of all of these;
    - [Orchestrator] ([orchestrator.py]: the record [Server] for the attributes of
      [DiffusionServer], a heap for its shared transfer objects, one definition per
      handler), [OrchestratorFacts], [OrchestratorSafety], [OrchestratorProps].

    Data plane:
    - [Buddy], [BuddyFacts], [BuddyOps], [BuddyProps] ([transport/allocator.py]);
    - [Buffer], [BufferFacts] ([transport/buffer.py]); [Manager], [ManagerProps]
      ([transport/manager.py]);
    - [Fields], [FieldsFacts], [FieldsProps] ([schedule_batch.py] and the field transfer
      of [scheduler_mixin.py]);
    - [Metrics] ([metrics.py]); [Worker], [WorkerProps] (rank 0 of
      [scheduler_mixin.py], and the loop of a receiver's other ranks).

    Monolithic scheduler:
    - [Admission] ([managers/dynamic_batch_admission.py]); [Batching], [Scheduler],
      [SchedulerFacts], [SchedulerProps] ([managers/scheduler.py]).

    Instances with several ranks:
    - [RankGroups] ([utils/distributed.py]); [Parallel], [ParallelFacts], [ParallelProps]
      ([distributed/parallel_state.py], [parallel_groups.py], the constructors of
      [group_coordinator.py]): the record [Dist] is the state of one process, and the
      groups it asks [torch.distributed] for are logged in order;
    - [ServerArgs], [ServerArgsProps] ([server_args.py]: degrees, ports;
      [disagg_args.py]; the endpoints of [launch_server.py]; the groups a [GPUWorker]
      asks for);
    - [CfgParallel], [CfgParallelProps] ([distributed/cfg_policy.py],
      [cfg_parallel_utils.py], [_predict_noise_with_cfg] of [stages/denoising.py]): a
      collective is a function of what all ranks pass to it.

    Acceleration framework:
    - [Schedule] ([efficiency/schedule.py]); [Efficiency] ([technique.py],
      [transform.py], [spec.py], [compose.py]); [Techniques],
      [TechniquesProps] ([techniques/]); [Presets] ([transforms/], [registry.py],
      [models/], [presets.py]).

    Caches of the denoising loop:
    - [Environ] (the helpers that read settings), [ForwardContext]
      ([managers/forward_context.py]);
    - [Stage1Cache], [Stage1CacheProps] ([cache/ltx2_stage1_cache_core.py] and its use in
      [stages/ltx_2_denoising.py]);
    - [ResidualCache] (entries and decisions the two TeaCache coordinators share),
      [Ltx2TeaCache], [Ltx2TeaCacheProps] ([cache/ltx2_teacache.py]), [Cosmos3TeaCache]
      ([cache/cosmos3_teacache.py]), with the calls in [models/dits/];
    - [Ltx2Pab], [Ltx2PabProps] ([cache/ltx2_pab.py]); [TeaCacheMixin],
      [TeaCacheMixinProps] ([cache/teacache.py], [configs/sample/teacache.py], the forward
      pass of [models/dits/wanvideo.py]).

    Memory and admission of the language-model engine:
    - [RadixKey], [RadixCache] ([srt/mem_cache/radix_cache.py], [evict_policy.py]): the
      tree is a store of nodes with parent and child pointers; [RadixFacts] (chains and
      paths, what a tree holds), [RadixSplit] (how it changes), [RadixInv] (the invariant),
      [RadixOps], [RadixLocks] (reference counts, eviction), [RadixApi] (the operations), [RadixProps];
    - [RadixReq], [RadixReqFacts], [RadixReqProps] (requests: [cache_finished_req],
      [cache_unfinished_req], parts of [schedule_batch.py], [mem_cache/common.py] and
      [batch_result_processor.py]: lookup, prefill, decoding, retraction, release);
    - [KvPool] ([srt/mem_cache/allocator.py], [get_num_new_pages], [ReqToTokenPool]): the
      pools and the kernels that place new tokens; [KvKernelFacts] (where the
      tokens of a batch lie), [KvPoolProps] (pages and tokens change hands);
    - [KvAlloc] ([srt/mem_cache/common.py]: the record [Kv] is tree, pool, rows and table of
      token locations), [KvAllocFacts] (the class [KvAllocator], what the tree needs of an
      allocator, with an instance for tokens and one for pages; the invariant [joint] of tree
      and pool), [KvAllocProps];
    - [SchedulePolicy] ([SchedulePolicy] of [srt/managers/schedule_policy.py]: the order of the
      waiting queue; the record [AReq] is a request of it), [SchedulePolicyProps];
    - [Adder] ([PrefillAdder] of [srt/managers/schedule_policy.py], [prefill_delayer.py], the
      loop of [_get_new_batch_prefill_raw] of [srt/managers/scheduler.py]), [AdderProps].

    ** What the theorems show

    - Orchestrator: an invariant of every run of the event loop (tracker and table of
      waiting clients agree, slot counters are sound, no dangling transfer object), every
      accepted request is answered exactly once or still waits, timed out requests are
      all answered, and the encoder queue is drained exactly as far as
      there are free slots.
    - Allocator and data plane: live blocks are disjoint, aligned and in bounds after
      any history; [allocate] fails only when no free block fits; [free] removes exactly
      its block; freeing everything restores the pool. A batch of tensors staged, pushed
      and loaded arrives unchanged, and nothing outside its slot is written.
    - Wire formats: the codec and protocol messages round trip through JSON text. What
      a request looks like on the next role is given attribute by attribute.
    - Workers: one reply per step, release of receive slots, soundness of the registered
      slots, and when each event loop ends by its error count: after so many failures in a
      row on rank 0, after so many in total on other ranks.
    - Scheduler: no request is answered twice, whatever happens, and while polls succeed
      every request received is answered once or still waits; a batch is
      a compatible, admitted subsequence of the queue starting at its head; a merged
      output is divided exactly. Admission decides exactly by its rules and limits.
    - Instances: orthogonal rank groups partition the ranks and two ranks share a group
      exactly when their other coordinates agree; every worker finds its groups, its
      positions in them are the digits of its rank, and all workers ask for the same
      groups in the same order; arguments accepted with automatic sequence parallelism
      fill the instance, so that every worker starts; the endpoints of roles and head node
      meet. Guidance shared out among ranks gives every rank the serial result.
    - Acceleration: an accepted composition has the capabilities it needs and no
      conflicting owner of an exclusive seam; token pruning keeps the tokens it says and
      restores the others; TeaCache refines a machine that reuses the last computed
      output for a bounded run of steps, wherever the pass signals.
    - Caches of the denoising loop: the stage-1 cache reuses outputs only inside its
      window and for a bounded row of calls, and each fixed preset skips exactly the calls
      it lists; a TeaCache replay adds the residual of the last computed call of the same
      key, at most as many times in a row and as far as the policy allows; an attention
      call that takes part in the broadcast returns what was stored for its place in the
      model less than a window of steps ago (since the cache was emptied), or computes,
      returns and stores its own, and every other call computes; Wan's passes return and
      its counters are given exactly.
    - Prefix cache: every history keeps the invariant (reference counts are the locked
      paths, sizes and evictable leaves are exact) and conserves indices; a lookup returns
      the longest cached prefix of whole pages; an insertion adds exactly the rest; eviction
      frees enough or everything evictable, in the order of its strategy, and spares locked
      paths; unlocking undoes locking. A request that holds its prefix hands over each of its
      own indices exactly once, when it is cached and when it finishes.
    - KV pools: the kernels place the tokens of a batch as the plain loop does, at places
      given in closed form and all different; after any history every page is free or live
      and never both, the reported size is exact, and an allocation gives fresh pages or
      fails because too few are left.
    - Allocation and admission: the kernel and the loop write the same table; allocation for
      a batch succeeds exactly when its new pages fit into what is free or evictable, and its
      indices are the places of its tokens in fresh pages and the old last pages
      ([KvAllocProps.allocated]); every policy gives back the waiting requests in its order,
      with their longest cached prefixes when it looks at the tree, and deprioritizes exactly
      those that share enough tokens with an earlier one; the batches the adder admits are
      always allocated, whatever is locked on the way, and no request is
      lost or doubled. Passes that only some ranks could use are refused a bounded number of
      times in a row.
    - A few theorems pin down behaviour that differs from what the code or its comments
      intend (slots kept after a role's error, a staging failure that leaks, a push
      reported after it failed, a step cache that goes stale, a poll that loses
      requests, counters of Wan's TeaCache that lag under guidance, outputs shared between
      requests of one step, indices given back while the tree holds them, estimates inserted
      out of order, an error count that is never reset, a recomputation one step later than
      documented).

    ** Conventions, bounds and fuel

    - Python integers are [Z]; instants, costs and other floats are exact rationals
      ([Qc], and [Q] in [SchedulePolicy] and [Adder]) or parameters. [_next_power_of_2] smears bits over 64 positions as the code
      does and is used for sizes up to [2^64]. Slot counters and sizes are unbounded, as
      in Python.
    - An exception is a value of [exc]; [M] keeps the state reached when it is raised.
      A handler that Python runs under a lock is one atomic step.
    - Loops are structural recursion over the list they consume. The loops that are not
      (draining a queue, receiving, splitting and merging buddy blocks, doubling a block
      size, parsing JSON) are bounded by the length of the queue or inbox, the number of
      orders, the bit length of the size, the length of the text, the length of a key or the
      number of nodes of a tree. A round of a queue's
      loop that does not stop takes one entry; for the others the lemmas that give the
      exact result show the bound to be enough.
    - Sums of predictions are exact, so the two formulas of guidance are one; in floating
      point they differ in rounding, as the code notes. Gathering through shared memory on
      a CPU is not modelled.
    - Strings hold code points below 256 and JSON numbers are integers. A JSON field of
      the wrong type raises [TypeError] where it is read. [int] of a string accepts
      an optional minus sign and digits.
    - One reading of the clock serves an iteration of an event loop or a step.
    - CUDA copies complete before the code goes on, as the code synchronises. The steps
      of a worker's threads are atomic; a put on a full queue happens when there is room.
    - A tensor compared with a dataclass default is unequal to it. The classifier-free
      guidance scale that [validate] reads is a number.
    - A node the radix tree no longer refers to leaves the store. The eviction heap is a list
      from which a smallest entry is taken; among entries that compare equal, the first.
    - The order in which a node lists its children, and the draws of [random], are
      parameters of the order of the waiting queue; sorting is stable. The walks over the
      tree need as much fuel as it has nodes; Python's limit on recursion is not modelled.
    - The programs of a kernel run one after the other; a tensor that is filled by them is a
      map from positions, and what it held before is a parameter.
    - The life of a request on its own ([RadixReq.prefill], [decode]) is given the row and the
      indices the scheduler allocates for it; a prefill is one chunk, without overlap.
    - What an operation of the tree gives back is handed to the pool call by call when the
      operation returns. The table of token locations is addressed flat, as the kernels do.
      Requests of a prefill pass are values that carry the number of their object.
    - Hidden states are lists of tokens along the sequence dimension, dimension 1 in
      every registered model.

    Parameters stand for code that is not in the repository or is numerical: pickle,
    ZeroMQ's acceptance of a reply, the creation of a group by [torch.distributed], the
    transfer engine's return code, the model's
    forward pass, defaults of sampling parameter classes, trace contexts,
    [tensor.tolist], [topk], [randperm], token scores and distances, printing of floats,
    spilling large arrays to files. Laws assumed of them are named hypotheses of a
    section or fields of a class, each with a concrete instance among the witnesses.

    ** Not modelled

    - sockets, polling, threads' start and stop, logs, tracing and socket send failures;
    - the collectives of a worker's ranks (a receiver's other ranks get what rank 0
      broadcast as inputs), the main loop of an encoder's other ranks, and the clean-up of a
      worker at exit;
    - the construction of warmup requests from configured resolutions, which the
      scheduler's constructor is given;
    - [transport/engine.py] (a binding to the Mooncake library), command-line parsing,
      starting and watching processes, HTTP entrypoints, and the server arguments about
      offloading, attention backends and quantisation;
    - the collectives that guidance does not use, pipeline communication and its buffers;
    - the diffusion pipelines, models, layers and kernels: numerical code on device
      tensors;
    - the glue to the external cache-dit library;
    - the language-model engine under [python/sglang/srt/], which the diffusion runtime
      is built beside, but for its radix cache, KV pools, allocation, the order of the waiting
      queue and the admission of prefill batches; of these, events, metrics, page
      hashes, the host copies of the hierarchical caches, the pools of sliding windows and
      state-space models, and the buffers themselves; preemption, LoRA, dynamic chunk
      sizes, the debugging switch that retracts, and mixing prefill with decode batches. The
      theorem on admission is for requests that are not served by a
      diffusion language model. *)

From Stdlib Require Export ZArith Lia Qcanon.
From stdpp Require Export base tactics option numbers gmap strings list_numbers list.

#[global] Open Scope Z_scope.
#[global] Coercion Z.of_nat : nat >-> Z.

(** ** Python exceptions *)

Inductive exc :=
  | ValueError
  | KeyError
  | IndexError
  | TypeError
  | AttributeError
  | RuntimeError
  | AssertionError
  | JSONDecodeError
  | CompositionError
  | ZeroDivisionError.

#[global] Instance exc_eq_dec : EqDecision exc.
Proof. solve_decision. Defined.

(** The outcome of a Python call: a value, or the exception it raises. *)
Inductive res (A : Type) :=
  | Ok (a : A)
  | Raise (e : exc).
Arguments Ok {A} _.
Arguments Raise {A} _.

#[global] Instance res_eq_dec `{EqDecision A} : EqDecision (res A).
Proof. solve_decision. Defined.

#[global] Instance res_ret : MRet res := λ A a, Ok a.
#[global] Instance res_bind : MBind res := λ A B f m,
  match m with Ok a => f a | Raise e => Raise e end.

(** A sequence that returns: both parts return. *)
Lemma res_bind_inv {A B} (m : res A) (f : A → res B) b :
  m ≫= f = Ok b → ∃ a, m = Ok a ∧ f a = Ok b.
Proof. destruct m; [|done]. eauto. Qed.

(** ** The state-and-exception monad

    A Python method that mutates [self] and may raise: mutations made before
    the exception persist, as in Python. *)
Definition M (S A : Type) : Type := S → res A * S.

#[global] Instance M_ret {S} : MRet (M S) := λ A a s, (Ok a, s).
#[global] Instance M_bind {S} : MBind (M S) := λ A B f m s,
  match m s with
  | (Ok a, s') => f a s'
  | (Raise e, s') => (Raise e, s')
  end.

Definition raise {S A} (e : exc) : M S A := λ s, (Raise e, s).
Definition get {S} : M S S := λ s, (Ok s, s).
Definition gets {S A} (f : S → A) : M S A := λ s, (Ok (f s), s).
Definition modify {S} (f : S → S) : M S unit := λ s, (Ok tt, f s).
Definition lift_res {S A} (r : res A) : M S A := λ s, (r, s).

(** [try m except es: h] *)
Definition try_except {S A} (m : M S A) (catches : exc → bool) (h : exc → M S A) : M S A :=
  λ s, match m s with
       | (Ok a, s') => (Ok a, s')
       | (Raise e, s') => if catches e then h e s' else (Raise e, s')
       end.

(** [try: m except ValueError: pass] *)
Definition ignore_ValueError {S A} (m : M S A) : M S unit :=
  try_except (m ≫= λ _, mret tt) (λ e, bool_decide (e = ValueError)) (λ _, mret tt).

Fixpoint for_each {S A} (l : list A) (f : A → M S unit) : M S unit :=
  match l with
  | [] => mret tt
  | x :: l => f x ≫= λ _, for_each l f
  end.

Definition when {S} (b : bool) (m : M S unit) : M S unit := if b then m else mret tt.

(** Sequencing after a computation that returns. *)
Lemma bind_Ok {S A B} (m : M S A) (k : A → M S B) s a s' :
  m s = (Ok a, s') → (m ≫= k) s = k a s'.
Proof. intros H. unfold mbind, M_bind. by rewrite H. Qed.

Lemma bind_inv {S A B} (m : M S A) (k : A → M S B) s b s' :
  (m ≫= k) s = (Ok b, s') → ∃ a s1, m s = (Ok a, s1) ∧ k a s1 = (Ok b, s').
Proof. unfold mbind, M_bind. destruct (m s) as [[a|e] s1]; [eauto|done]. Qed.

(** ** Relational reasoning on monadic code

    [steps R m]: whatever [m] does, with or without an exception, the states
    before and after are related by [R]. For a preorder [R] this is closed under
    sequencing, so an invariant or a monotone quantity of a whole handler follows
    from its primitive updates. *)
Definition steps {S A} (R : S → S → Prop) (m : M S A) : Prop := ∀ s, R s (m s).2.

Section Steps.
Context {S : Type} (R : S → S → Prop) `{!PreOrder R}.

Lemma steps_ret {A} (a : A) : steps R (mret a).
Proof. intros s. reflexivity. Qed.

Lemma steps_raise {A} e : steps R (raise (A:=A) e).
Proof. intros s. reflexivity. Qed.

Lemma steps_gets {A} (f : S → A) : steps R (gets f).
Proof. intros s. reflexivity. Qed.

Lemma steps_get : steps R get.
Proof. intros s. reflexivity. Qed.

Lemma steps_lift {A} (r : res A) : steps R (lift_res r).
Proof. intros s. reflexivity. Qed.

Lemma steps_bind {A B} (m : M S A) (f : A → M S B) :
  steps R m → (∀ a, steps R (f a)) → steps R (m ≫= f).
Proof.
  intros Hm Hf s. unfold mbind, M_bind. specialize (Hm s).
  destruct (m s) as [[a|e] s']; simpl in *; [|done].
  etrans; [exact Hm|apply Hf].
Qed.

Lemma steps_modify f : (∀ s, R s (f s)) → steps R (modify f).
Proof. intros H s. apply H. Qed.

Lemma steps_try {A} (m : M S A) c h :
  steps R m → (∀ e, steps R (h e)) → steps R (try_except m c h).
Proof.
  intros Hm Hh s. unfold try_except. specialize (Hm s).
  destruct (m s) as [[a|e] s']; simpl in *; [done|].
  destruct (c e); simpl; [|done]. etrans; [exact Hm|apply Hh].
Qed.

Lemma steps_ignore {A} (m : M S A) : steps R m → steps R (ignore_ValueError m).
Proof.
  intros Hm. apply steps_try; [apply steps_bind; [done|]|]; intros; apply steps_ret.
Qed.

Lemma steps_for_each {A} (l : list A) f :
  (∀ x, steps R (f x)) → steps R (for_each l f).
Proof.
  intros Hf. induction l as [|x l IH]; simpl; [apply steps_ret|].
  apply steps_bind; [apply Hf|done].
Qed.

Lemma steps_when b m : steps R m → steps R (when b m).
Proof. intros. destruct b; [done|apply steps_ret]. Qed.
End Steps.

Create HintDb steps discriminated.
#[export] Hint Resolve steps_ret steps_raise steps_gets steps_get steps_lift
  steps_bind steps_try steps_ignore steps_for_each steps_when : steps.

(** The preorder "if [P] holds before it holds after": [steps (keeps P) m] says
    that [P] is an invariant of [m]. *)
Definition keeps {S} (P : S → Prop) (s s' : S) : Prop := P s → P s'.

#[global] Instance keeps_preorder {S} (P : S → Prop) : PreOrder (keeps P).
Proof. split; unfold keeps; [intros s Hs|intros s1 s2 s3 H1 H2 Hs]; auto. Qed.

(** The preorder "the observation [f] does not change". *)
Definition frames {S A} (f : S → A) (s s' : S) : Prop := f s = f s'.

#[global] Instance frames_preorder {S A} (f : S → A) : PreOrder (frames f).
Proof. split; unfold frames; [intros s|intros s1 s2 s3]; congruence. Qed.

(** A [step_auto] proof walks the syntax of a handler, splitting its conditionals
    and matches, and leaves the primitive updates. *)
Ltac step_case :=
  match goal with
  | |- steps _ (match ?x with _ => _ end) => destruct x eqn:?
  | |- steps _ (if ?b then _ else _) => destruct b eqn:?
  | |- steps _ (let '(_, _) := ?x in _) => destruct x eqn:?
  end.
Ltac step_auto :=
  repeat first
    [ progress intros
    | apply steps_ret | apply steps_raise | apply steps_gets | apply steps_get
    | apply steps_lift | apply steps_ignore; [apply _|] | apply steps_when; [apply _|]
    | apply steps_for_each; [apply _|] | apply steps_try; [apply _| |]
    | apply steps_bind; [apply _| |] | step_case
    | solve [eauto with steps] ].

(** ** Ordered dictionaries

    A Python [dict] with string keys: iteration is in insertion order, and
    assigning to a present key keeps its position. *)
Definition dict (V : Type) : Type := list (string * V).

Section Dict.
Context {V : Type}.
Implicit Types (d : dict V) (k : string) (v : V).

Fixpoint dget k d : option V :=
  match d with
  | [] => None
  | (k', v) :: d => if decide (k = k') then Some v else dget k d
  end.

Fixpoint dset k v d : dict V :=
  match d with
  | [] => [(k, v)]
  | (k', v') :: d => if decide (k = k') then (k, v) :: d else (k', v') :: dset k v d
  end.

(** [d.pop(k, None)] without the value; a dictionary holds a key once. *)
Fixpoint ddel k d : dict V :=
  match d with
  | [] => []
  | (k', v') :: d => if decide (k = k') then ddel k d else (k', v') :: ddel k d
  end.

Definition dkeys d : list string := d.*1.
Definition dvals d : list V := d.*2.
Definition dmem k d : bool := bool_decide (is_Some (dget k d)).

Lemma dget_dset k k' v d :
  dget k' (dset k v d) = if decide (k' = k) then Some v else dget k' d.
Proof. induction d as [|[k1 v1] d IH]; repeat (case_decide || simplify_eq/=); auto. Qed.

Lemma dget_dset_eq k v d : dget k (dset k v d) = Some v.
Proof. rewrite dget_dset. by case_decide. Qed.

Lemma dget_dset_ne k k' v d : k ≠ k' → dget k' (dset k v d) = dget k' d.
Proof. intros. rewrite dget_dset. by case_decide. Qed.

Lemma dget_ddel k k' d :
  dget k' (ddel k d) = if decide (k' = k) then None else dget k' d.
Proof. induction d as [|[k1 v1] d IH]; repeat (case_decide || simplify_eq/=); auto. Qed.

Lemma dget_ddel_eq k d : dget k (ddel k d) = None.
Proof. rewrite dget_ddel. by case_decide. Qed.

Lemma dget_ddel_ne k k' d : k ≠ k' → dget k' (ddel k d) = dget k' d.
Proof. intros. rewrite dget_ddel. by case_decide. Qed.

Lemma dget_in k v d : dget k d = Some v → (k, v) ∈ d.
Proof.
  induction d as [|[k1 v1] d IH]; [done|]. simpl. case_decide; intros ?; simplify_eq.
  - left.
  - right. auto.
Qed.

Lemma dget_None k d : dget k d = None ↔ k ∉ dkeys d.
Proof.
  induction d as [|[k1 v1] d IH]; simpl; [by split; [intros _ ?%elem_of_nil|]|].
  rewrite not_elem_of_cons. case_decide; [by split; [|intros []]|]. rewrite IH. tauto.
Qed.

Lemma dget_is_Some k d : is_Some (dget k d) ↔ k ∈ dkeys d.
Proof.
  rewrite <-(not_eq_None_Some (dget k d)), dget_None.
  destruct (decide (k ∈ dkeys d)); naive_solver.
Qed.

Lemma in_dget k v d : NoDup (dkeys d) → (k, v) ∈ d → dget k d = Some v.
Proof.
  induction d as [|[k1 v1] d IH]; simpl; [by intros _ ?%elem_of_nil|].
  intros [Hk Hd]%NoDup_cons [?|Hin]%elem_of_cons; simplify_eq; [by case_decide|].
  case_decide; subst; [|by apply IH].
  exfalso. apply Hk. by apply (list_elem_of_fmap_2 fst) in Hin.
Qed.

Lemma dkeys_dset k v d :
  dkeys (dset k v d) = if decide (k ∈ dkeys d) then dkeys d else dkeys d ++ [k].
Proof.
  induction d as [|[k1 v1] d IH]; [done|]. change (dkeys ((k1, v1) :: d)) with (k1 :: dkeys d).
  cbn [dset]. destruct (decide (k = k1)) as [->|Hne].
  - by rewrite decide_True by left.
  - cbn [dkeys fmap list_fmap fst]. fold (dkeys (dset k v d)). rewrite IH.
    destruct (decide (k ∈ dkeys d)) as [Hin|Hnin].
    + by rewrite decide_True by by right.
    + rewrite decide_False; [done|]. intros [?|?]%elem_of_cons; done.
Qed.

Lemma dkeys_ddel k d : dkeys (ddel k d) = filter (.≠ k) (dkeys d).
Proof.
  induction d as [|[k1 v1] d IH]; [done|]. simpl. rewrite filter_cons.
  repeat case_decide; subst; simpl; congruence.
Qed.

Lemma NoDup_dset k v d : NoDup (dkeys d) → NoDup (dkeys (dset k v d)).
Proof.
  intros Hd. rewrite dkeys_dset. case_decide; [done|].
  apply NoDup_app. split_and!; [done| |apply NoDup_singleton]. set_solver.
Qed.

Lemma NoDup_ddel k d : NoDup (dkeys d) → NoDup (dkeys (ddel k d)).
Proof. intros. rewrite dkeys_ddel. by apply NoDup_filter. Qed.

Lemma ddel_notin k d : dget k d = None → ddel k d = d.
Proof.
  induction d as [|[k1 v1] d IH]; [done|]. simpl. case_decide; [done|]. intros.
  f_equal. auto.
Qed.

Lemma length_ddel k v d :
  NoDup (dkeys d) → dget k d = Some v → length d = S (length (ddel k d)).
Proof.
  induction d as [|[k1 v1] d IH]; simpl; [done|].
  intros [Hk Hd]%NoDup_cons Hg. case_decide; simplify_eq/=; [|by rewrite <-IH].
  by rewrite ddel_notin by by apply dget_None.
Qed.

Lemma dvals_ddel k v d :
  NoDup (dkeys d) → dget k d = Some v → dvals d ≡ₚ v :: dvals (ddel k d).
Proof.
  induction d as [|[k1 v1] d IH]; simpl; [done|].
  intros [Hk Hd]%NoDup_cons Hg. case_decide; simplify_eq/=.
  - by rewrite ddel_notin by by apply dget_None.
  - fold (dvals d) (dvals (ddel k d)). rewrite IH by done. apply Permutation_swap.
Qed.

Lemma dvals_dset_new k v d : dget k d = None → dvals (dset k v d) = dvals d ++ [v].
Proof.
  induction d as [|[k1 v1] d IH]; simpl; [done|]. case_decide; [done|]. intros.
  simpl. f_equal. by apply IH.
Qed.

Lemma length_dset_new k v d : dget k d = None → length (dset k v d) = S (length d).
Proof.
  induction d as [|[k1 v1] d IH]; simpl; [done|]. case_decide; [done|]. simpl. auto.
Qed.

Lemma length_dset_old k v d : is_Some (dget k d) → length (dset k v d) = length d.
Proof.
  induction d as [|[k1 v1] d IH]; simpl; [by intros [? ?]|].
  case_decide; simpl; [done|]. auto.
Qed.
End Dict.


Lemma dget_fmap {V W} (f : V → W) k (d : dict V) :
  dget k ((λ p, (p.1, f p.2)) <$> d) = f <$> dget k d.
Proof. induction d as [|[k1 v1] d IH]; [done|]. simpl. by case_decide. Qed.

(** A filter that keeps everything. *)
Lemma filter_all {A} (P : A → Prop) `{!∀ x, Decision (P x)} (l : list A) :
  Forall P l → filter P l = l.
Proof. induction 1 as [|x l Hx Hl IH]; [done|]. rewrite filter_cons_True by done. by rewrite IH. Qed.

(** ** Truthiness and small Python helpers *)

Definition truthy_str (o : option string) : bool :=
  match o with Some s => negb (bool_decide (s = ""%string)) | None => false end.

(** [l[i] = f(l[i])] for an in-range index; Python raises otherwise. *)
Definition list_update {A} (l : list A) (i : nat) (f : A → A) : res (list A) :=
  match l !! i with Some x => Ok (<[i := f x]> l) | None => Raise IndexError end.

Lemma list_update_Ok {A} (l : list A) i f l' :
  list_update l i f = Ok l' → ∃ x, l !! i = Some x ∧ l' = <[i := f x]> l.
Proof. unfold list_update. destruct (l !! i) eqn:E; intros; simplify_eq; eauto. Qed.

(** ** Sums *)

Definition Zsum (l : list Z) : Z := foldr Z.add 0 l.

Lemma Zsum_app l1 l2 : Zsum (l1 ++ l2) = Zsum l1 + Zsum l2.
Proof. induction l1 as [|x l1 IH]; simpl; [done|]. rewrite IH. lia. Qed.

Lemma Zsum_nonneg l : Forall (λ x, 0 ≤ x) l → 0 ≤ Zsum l.
Proof. induction 1; simpl; lia. Qed.

Lemma Zsum_perm l1 l2 : l1 ≡ₚ l2 → Zsum l1 = Zsum l2.
Proof. induction 1; simpl; lia. Qed.

(** ** Case analysis on the outcome of Python code *)

Ltac py_case :=
  match goal with
  | H : context [match ?x with _ => _ end] |- _ => destruct x eqn:?; simplify_eq/=
  | H : context [if ?b then _ else _] |- _ => destruct b eqn:?; simplify_eq/=
  | |- context [match ?x with _ => _ end] => destruct x eqn:?; simplify_eq/=
  end.

(** Turn boolean comparisons into propositions. *)
Ltac bool_to_prop :=
  repeat match goal with
  | H : bool_decide _ = true |- _ => apply bool_decide_eq_true_1 in H
  | H : bool_decide _ = false |- _ => apply bool_decide_eq_false_1 in H
  | H : (_ <? _) = true |- _ => apply Z.ltb_lt in H
  | H : (_ <? _) = false |- _ => apply Z.ltb_ge in H
  | H : (_ <=? _) = true |- _ => apply Z.leb_le in H
  | H : (_ <=? _) = false |- _ => apply Z.leb_gt in H
  | H : (_ =? _) = true |- _ => apply Z.eqb_eq in H
  | H : (_ =? _) = false |- _ => apply Z.eqb_neq in H
  | H : _ && _ = true |- _ => apply andb_true_iff in H as [? ?]
  | H : _ || _ = false |- _ => apply orb_false_iff in H as [? ?]
  | H : negb _ = true |- _ => apply negb_true_iff in H
  | H : negb _ = false |- _ => apply negb_false_iff in H
  end.

(** ** ASCII strings *)

Definition lower_ascii (c : Ascii.ascii) : Ascii.ascii :=
  let n := Ascii.nat_of_ascii c in
  if bool_decide (65 ≤ n)%nat && bool_decide (n ≤ 90)%nat
  then Ascii.ascii_of_nat (n + 32) else c.

(** [s.lower()] on ASCII text. *)
Fixpoint lower (s : string) : string :=
  match s with
  | EmptyString => EmptyString
  | String c s => String (lower_ascii c) (lower s)
  end.

(** [s.startswith(p)] *)
Definition startswith (s p : string) : bool := String.prefix p s.

Lemma startswith_spec s p : startswith s p = true ↔ ∃ t, s = (p +:+ t)%string.
Proof.
  unfold startswith. revert s. induction p as [|c p IH]; intros s; simpl.
  - split; [by eexists|]. by destruct s.
  - destruct s as [|c' s]; simpl; [split; [done|by intros [t ?]]|].
    destruct (Ascii.ascii_dec c c') as [->|Hne].
    + rewrite IH. split; intros [t Ht]; exists t; [by rewrite Ht|].
      unfold String.app in Ht. simpl in Ht. by simplify_eq.
    + split; [done|]. intros [t Ht]. unfold String.app in Ht. simpl in Ht. by simplify_eq.
Qed.

Lemma substring_all s : String.substring 0 (String.length s) s = s.
Proof. induction s as [|c s IH]; simpl; [done|]. by rewrite IH. Qed.

(** [s.split(chr(sep))] *)
Fixpoint split_on (sep : nat) (s : string) : list string :=
  match s with
  | EmptyString => [""%string]
  | String c s' =>
      if bool_decide (Ascii.nat_of_ascii c = sep) then ""%string :: split_on sep s'
      else match split_on sep s' with
           | t :: ts => String c t :: ts
           | [] => [String c ""%string]
           end
  end.

(** ** Integer division and list comprehensions that may raise *)

(** [a // b] and [a % b]: floor division, as [Z.div] and [Z.modulo]. *)
Definition floordiv (a b : Z) : res Z := if b =? 0 then Raise ZeroDivisionError else Ok (a / b).
Definition pymod (a b : Z) : res Z := if b =? 0 then Raise ZeroDivisionError else Ok (a mod b).

Lemma floordiv_Ok a b : b ≠ 0 → floordiv a b = Ok (a / b).
Proof. intros H. unfold floordiv. by rewrite (proj2 (Z.eqb_neq b 0) H). Qed.

Lemma pymod_Ok a b : b ≠ 0 → pymod a b = Ok (a mod b).
Proof. intros H. unfold pymod. by rewrite (proj2 (Z.eqb_neq b 0) H). Qed.

Lemma mapM_Ok {A B} (f : A → res B) (g : A → B) l :
  (∀ x, x ∈ l → f x = Ok (g x)) → mapM f l = Ok (g <$> l).
Proof.
  induction l as [|x l IH]; intros H; simpl; [done|].
  rewrite (H x) by left. simpl. rewrite IH; [done|]. intros y Hy. apply H. by right.
Qed.

Lemma mapM_Forall2 {A B} (f : A → res B) (P : A → B → Prop) l :
  (∀ x, x ∈ l → ∃ y, f x = Ok y ∧ P x y) → ∃ k, mapM f l = Ok k ∧ Forall2 P l k.
Proof.
  induction l as [|x l IH]; intros H; simpl; [eauto|].
  destruct (H x) as (y & Hy & HP); [left|]. destruct IH as (k & Hk & HF); [intros z Hz; apply H; by right|].
  exists (y :: k). rewrite Hy. simpl. rewrite Hk. auto.
Qed.
