(* ===== verification/PyJson.v ===== *)
(** * JSON values and text

    The part of Python's [json] module that the transfer protocol and the tensor
    codec use: [json.dumps(d, separators=(",", ":"))] with the default
    [ensure_ascii], and [json.loads]. A Python string is a [string] whose
    characters are code points below 256; numbers are integers. [json_loads] is a
    recursive-descent parser bounded by the length of its input, which
    [json_loads_dumps] shows to be enough. *)

From S2P Require Import Prelude.
From Stdlib Require Import Ascii DecimalString DecimalZ.
Local Open Scope string_scope.

#[local] Set Warnings "-register-all".
Inductive Json :=
  | JNull
  | JBool (b : bool)
  | JInt (z : Z)
  | JStr (s : string)
  | JList (l : list Json)
  | JObj (d : list (string * Json)).

(** Induction with the hypothesis on every element of a list and of an object. *)
Definition Json_nested_ind (P : Json → Prop)
    (Hnull : P JNull) (Hbool : ∀ b, P (JBool b)) (Hint : ∀ z, P (JInt z))
    (Hstr : ∀ s, P (JStr s)) (Hlist : ∀ l, Forall P l → P (JList l))
    (Hobj : ∀ d, Forall (λ kv, P kv.2) d → P (JObj d)) : ∀ j, P j :=
  fix go (j : Json) : P j :=
    match j with
    | JNull => Hnull
    | JBool b => Hbool b
    | JInt z => Hint z
    | JStr s => Hstr s
    | JList l => Hlist l
        ((fix gol (l : list Json) : Forall P l :=
            match l with
            | [] => Forall_nil_2 P
            | x :: l => Forall_cons_2 P x l (go x) (gol l)
            end) l)
    | JObj d => Hobj d
        ((fix god (d : list (string * Json)) : Forall (λ kv, P kv.2) d :=
            match d with
            | [] => Forall_nil_2 _
            | x :: d => Forall_cons_2 _ x d (go x.2) (god d)
            end) d)
    end.

(** A Python dict holds a key once, at every level. *)
Fixpoint json_wf (j : Json) : Prop :=
  match j with
  | JList l => foldr (λ x acc, json_wf x ∧ acc) True l
  | JObj d => NoDup (dkeys d) ∧ foldr (λ kv acc, json_wf kv.2 ∧ acc) True d
  | _ => True
  end.

(** Truthiness of a JSON value ([bool(v)]). *)
Definition json_truthy (j : Json) : bool :=
  match j with
  | JNull => false
  | JBool b => b
  | JInt z => negb (Z.eqb z 0)
  | JStr s => negb (bool_decide (s = ""))
  | JList l => match l with [] => false | _ => true end
  | JObj d => match d with [] => false | _ => true end
  end.

(** [v is None] and [v == s] for a string [s]. *)
Definition json_is_null (j : Json) : bool := match j with JNull => true | _ => false end.
Definition json_is_str (j : Json) (s : string) : bool :=
  match j with JStr t => bool_decide (t = s) | _ => false end.

(** ** Printing *)

Definition chr (n : nat) : Ascii.ascii := Ascii.ascii_of_nat n.
Definition ord (c : Ascii.ascii) : nat := Ascii.nat_of_ascii c.

Definition hex_digit (n : nat) : Ascii.ascii :=
  if decide (n < 10)%nat then chr (48 + n) else chr (87 + n).

(** Escape of one character, with [ensure_ascii]: the two-character escapes of
    [json.encoder.ESCAPE_DCT], [\u00XX] for anything else outside [' '..'~']. *)
Definition escape_char (c : Ascii.ascii) : string :=
  let n := ord c in
  if decide (n = 34)%nat then String (chr 92) (String (chr 34) "")
  else if decide (n = 92)%nat then String (chr 92) (String (chr 92) "")
  else if decide (n = 10)%nat then String (chr 92) "n"
  else if decide (n = 13)%nat then String (chr 92) "r"
  else if decide (n = 9)%nat then String (chr 92) "t"
  else if decide (n = 12)%nat then String (chr 92) "f"
  else if decide (n = 8)%nat then String (chr 92) "b"
  else if decide (32 ≤ n ∧ n ≤ 126)%nat then String c ""
  else String (chr 92) (String (chr 117) (String (chr 48) (String (chr 48)
         (String (hex_digit (n / 16)) (String (hex_digit (n mod 16)) ""))))).

Fixpoint escape (s : string) : string :=
  match s with
  | EmptyString => ""
  | String c s => escape_char c +:+ escape s
  end.

Definition quote : string := String (chr 34) "".

Definition dumps_str (s : string) : string := quote +:+ escape s +:+ quote.
Definition dumps_int (z : Z) : string := NilZero.string_of_int (Z.to_int z).

(** [sep.join(...)] *)
Fixpoint join (sep : string) (l : list string) : string :=
  match l with
  | [] => ""
  | [x] => x
  | x :: l => x +:+ sep +:+ join sep l
  end.

Fixpoint json_dumps (j : Json) : string :=
  match j with
  | JNull => "null"
  | JBool true => "true"
  | JBool false => "false"
  | JInt z => dumps_int z
  | JStr s => dumps_str s
  | JList l => "[" +:+ join "," (map json_dumps l) +:+ "]"
  | JObj d =>
      "{" +:+ join "," (map (λ kv, dumps_str kv.1 +:+ ":" +:+ json_dumps kv.2) d) +:+ "}"
  end.

(** ** Parsing *)

Fixpoint skip_ws (s : string) : string :=
  match s with
  | String c s' =>
      if decide (ord c ∈ [32; 9; 10; 13]%nat) then skip_ws s' else s
  | EmptyString => s
  end.

(** Drop an expected literal prefix. *)
Fixpoint drop_prefix (p s : string) : option string :=
  match p, s with
  | EmptyString, _ => Some s
  | String a p, String b s => if decide (a = b) then drop_prefix p s else None
  | String _ _, EmptyString => None
  end.

Definition hex_val (c : Ascii.ascii) : option nat :=
  let n := ord c in
  if decide (48 ≤ n ∧ n ≤ 57)%nat then Some (n - 48)%nat
  else if decide (97 ≤ n ∧ n ≤ 102)%nat then Some (n - 87)%nat
  else if decide (65 ≤ n ∧ n ≤ 70)%nat then Some (n - 55)%nat
  else None.

Definition hex4 (a b c d : Ascii.ascii) : option nat :=
  a ← hex_val a; b ← hex_val b; c ← hex_val c; d ← hex_val d;
  Some (((a * 16 + b) * 16 + c) * 16 + d)%nat.

Definition unescape_simple (c : Ascii.ascii) : option Ascii.ascii :=
  let n := ord c in
  if decide (n ∈ [34; 92; 47]%nat) then Some c
  else if decide (n = 110)%nat then Some (chr 10)
  else if decide (n = 114)%nat then Some (chr 13)
  else if decide (n = 116)%nat then Some (chr 9)
  else if decide (n = 102)%nat then Some (chr 12)
  else if decide (n = 98)%nat then Some (chr 8)
  else None.

(** The rest of a string literal after its opening quote. *)
Fixpoint parse_str (s : string) : option (string * string) :=
  match s with
  | EmptyString => None
  | String c s =>
      if decide (ord c = 34)%nat then Some ("", s)
      else if decide (ord c = 92)%nat then
        match s with
        | String e s' =>
            if decide (ord e = 117)%nat then
              match s' with
              | String a (String b (String c' (String d s''))) =>
                  n ← hex4 a b c' d;
                  if decide (n < 256)%nat then
                    '(t, r) ← parse_str s''; Some (String (chr n) t, r)
                  else None
              | _ => None
              end
            else
              u ← unescape_simple e; '(t, r) ← parse_str s'; Some (String u t, r)
        | EmptyString => None
        end
      else if decide (ord c < 32)%nat then None
      else '(t, r) ← parse_str s; Some (String c t, r)
  end.

Definition is_digit (c : Ascii.ascii) : bool := bool_decide (48 ≤ ord c ∧ ord c ≤ 57)%nat.

(** The longest prefix of digits. *)
Fixpoint digits (s : string) : string * string :=
  match s with
  | String c s' =>
      if is_digit c then let '(d, r) := digits s' in (String c d, r) else ("", s)
  | EmptyString => ("", s)
  end.

(** An optional minus sign and an integer without a leading zero, not followed by a
    fraction or an exponent. *)
Definition parse_int (s : string) : option (Json * string) :=
  let '(sign, s1) := match s with
                     | String c r => if decide (ord c = 45)%nat then ("-", r) else ("", s)
                     | EmptyString => ("", s)
                     end in
  let '(d, r) := digits s1 in
  match d with
  | EmptyString => None
  | String c d' =>
      if decide (ord c = 48%nat ∧ d' ≠ "") then None
      else
        match r with
        | String e _ => if decide (ord e ∈ [46; 101; 69]%nat) then None
                        else i ← NilZero.int_of_string (sign +:+ d);
                             Some (JInt (Z.of_int i), r)
        | EmptyString => i ← NilZero.int_of_string (sign +:+ d); Some (JInt (Z.of_int i), r)
        end
  end.

(** [parse_value n s]: the JSON value at the start of [s] and what follows it. *)
Fixpoint parse_value (n : nat) (s : string) {struct n} : option (Json * string) :=
  match n with
  | O => None
  | S n =>
      match skip_ws s with
      | EmptyString => None
      | String c r =>
          if decide (ord c = 34)%nat then '(t, r) ← parse_str r; Some (JStr t, r)
          else if decide (ord c = 91)%nat then
            match drop_prefix "]" (skip_ws r) with
            | Some r => Some (JList [], r)
            | None => '(l, r) ← parse_items n r; Some (JList l, r)
            end
          else if decide (ord c = 123)%nat then
            match drop_prefix "}" (skip_ws r) with
            | Some r => Some (JObj [], r)
            | None => '(d, r) ← parse_members n r; Some (JObj (foldl (λ a kv, dset kv.1 kv.2 a) [] d), r)
            end
          else if decide (ord c = 110)%nat then
            r ← drop_prefix "ull" r; Some (JNull, r)
          else if decide (ord c = 116)%nat then
            r ← drop_prefix "rue" r; Some (JBool true, r)
          else if decide (ord c = 102)%nat then
            r ← drop_prefix "alse" r; Some (JBool false, r)
          else parse_int (String c r)
      end
  end
with parse_items (n : nat) (s : string) {struct n} : option (list Json * string) :=
  match n with
  | O => None
  | S n =>
      '(v, r) ← parse_value n s;
      match skip_ws r with
      | String c r =>
          if decide (ord c = 93)%nat then Some ([v], r)
          else if decide (ord c = 44)%nat then '(l, r) ← parse_items n r; Some (v :: l, r)
          else None
      | EmptyString => None
      end
  end
with parse_members (n : nat) (s : string) {struct n} : option (list (string * Json) * string) :=
  match n with
  | O => None
  | S n =>
      match skip_ws s with
      | String c r =>
          if decide (ord c = 34)%nat then
            '(k, r) ← parse_str r;
            r ← drop_prefix ":" (skip_ws r);
            '(v, r) ← parse_value n r;
            match skip_ws r with
            | String c r =>
                if decide (ord c = 125)%nat then Some ([(k, v)], r)
                else if decide (ord c = 44)%nat then
                  '(l, r) ← parse_members n r; Some ((k, v) :: l, r)
                else None
            | EmptyString => None
            end
          else None
      | EmptyString => None
      end
  end.

(** [json.loads(s)]: one value, nothing but white space after it. *)
Definition json_loads (s : string) : res Json :=
  match parse_value (S (String.length s)) s with
  | Some (j, r) => match skip_ws r with EmptyString => Ok j | _ => Raise JSONDecodeError end
  | None => Raise JSONDecodeError
  end.

(** ** Typed reads of a decoded object

    [d.get(k, default)] and [d[k]] where the protocol fixes the type of the value.
    A value of another type raises [TypeError] at the read. *)
Definition as_dict (j : Json) : res (dict Json) :=
  match j with JObj d => Ok d | _ => Raise AttributeError end.
Definition as_str (j : Json) : res string :=
  match j with JStr s => Ok s | _ => Raise TypeError end.
Definition as_int (j : Json) : res Z :=
  match j with JInt z => Ok z | _ => Raise TypeError end.

Definition get_str (d : dict Json) (k : string) (default : string) : res string :=
  match dget k d with None => Ok default | Some j => as_str j end.
Definition get_int (d : dict Json) (k : string) (default : Z) : res Z :=
  match dget k d with None => Ok default | Some j => as_int j end.
(** [d.get(k, {})] passed through the [None -> {}] of the dataclasses'
    [__post_init__]. *)
Definition get_obj (d : dict Json) (k : string) : res (dict Json) :=
  match dget k d with
  | None | Some JNull => Ok []
  | Some (JObj o) => Ok o
  | Some _ => Raise TypeError
  end.
Definition get_json (d : dict Json) (k : string) : Json := default JNull (dget k d).
Definition req_str (d : dict Json) (k : string) : res string :=
  match dget k d with None => Raise KeyError | Some j => as_str j end.
Definition req_int (d : dict Json) (k : string) : res Z :=
  match dget k d with None => Raise KeyError | Some j => as_int j end.

(** ** The round trip *)

Lemma sapp_assoc (a b c : string) : (a +:+ b) +:+ c = a +:+ (b +:+ c).
Proof. induction a as [|x a IH]; [done|]. unfold String.app in *. simpl. by rewrite IH. Qed.

Lemma sapp_cons x (a b : string) : String x a +:+ b = String x (a +:+ b).
Proof. done. Qed.

Lemma sapp_length (a b : string) :
  String.length (a +:+ b) = (String.length a + String.length b)%nat.
Proof.
  induction a as [|x a IH]; [done|]. rewrite sapp_cons. simpl. by rewrite IH.
Qed.

Lemma parse_str_char c t :
  parse_str (escape_char c +:+ t) = '(x, r) ← parse_str t; Some (String c x, r).
Proof. destruct c as [[] [] [] [] [] [] [] []]; reflexivity. Qed.

Lemma parse_str_escape s r : parse_str (escape s +:+ quote +:+ r) = Some (s, r).
Proof.
  induction s as [|c s IH]; [done|]. simpl. rewrite sapp_assoc, parse_str_char, IH. done.
Qed.

(** What may follow a number: nothing, or a character that cannot extend it. *)
Definition ends_number (r : string) : Prop :=
  match r with
  | EmptyString => True
  | String c _ => is_digit c = false ∧ ord c ∉ [46; 101; 69]%nat
  end.

Lemma digits_uint d r :
  ends_number r → digits (NilEmpty.string_of_uint d +:+ r) = (NilEmpty.string_of_uint d, r).
Proof.
  intros Hr. induction d as [|d IH|d IH|d IH|d IH|d IH|d IH|d IH|d IH|d IH|d IH];
    simpl; rewrite ?sapp_cons; simpl; rewrite ?IH; try done.
  destruct r as [|c r]; [done|]. destruct Hr as [Hc _]. change ("" +:+ String c r) with (String c r).
  simpl. by rewrite Hc.
Qed.

(** Parsing the digits of a number without a leading zero. *)
Lemma parse_uint sign sg u r :
  (sg = "" ∧ sign = "" ∨ sg = "-" ∧ sign = "-") →
  Decimal.unorm u = u → ends_number r →
  parse_int (sg +:+ NilZero.string_of_uint u +:+ r) =
  i ← NilZero.int_of_string (sign +:+ NilZero.string_of_uint u); Some (JInt (Z.of_int i), r).
Proof.
  intros Hs Hu Hr.
  assert (NilZero.string_of_uint u = NilEmpty.string_of_uint u) as -> by (by destruct u).
  unfold parse_int.
  assert (match sg +:+ NilEmpty.string_of_uint u +:+ r with
          | String c r' => if decide (ord c = 45%nat) then ("-", r')
                           else ("", sg +:+ NilEmpty.string_of_uint u +:+ r)
          | EmptyString => ("", sg +:+ NilEmpty.string_of_uint u +:+ r)
          end = (sign, NilEmpty.string_of_uint u +:+ r)) as ->.
  { destruct Hs as [[-> ->]|[-> ->]]; [|done]. by destruct u. }
  rewrite digits_uint by done.
  destruct (NilEmpty.string_of_uint u) as [|c d'] eqn:E; [by destruct u|].
  assert (¬ (ord c = 48%nat ∧ d' ≠ "")) as Hz.
  { intros [Hc Hd]. destruct u as [|u|u|u|u|u|u|u|u|u|u]; simplify_eq/=.
    unfold Decimal.unorm in Hu. simpl in Hu.
    destruct (Decimal.nzhead u) eqn:Eu; simplify_eq/=.
    by apply DecimalFacts.nzhead_nonzero in Eu. }
  rewrite (decide_False _ _ Hz).
  destruct r as [|e r]; [done|]. destruct Hr as [_ Hr]. by rewrite (decide_False _ _ Hr).
Qed.

Lemma norm_to_int z : Decimal.norm (Z.to_int z) = Z.to_int z.
Proof. by rewrite <-DecimalZ.to_of, DecimalZ.of_to. Qed.

Lemma string_of_to_int z : NilZero.int_of_string (NilZero.string_of_int (Z.to_int z)) = Some (Z.to_int z).
Proof.
  apply NilZero.isi; intros H; pose proof (norm_to_int z) as Hn; rewrite H in Hn; done.
Qed.

Lemma parse_dumps_int z r : ends_number r → parse_int (dumps_int z +:+ r) = Some (JInt z, r).
Proof.
  intros Hr. pose proof (string_of_to_int z) as Hi. pose proof (norm_to_int z) as Hn.
  unfold dumps_int. rewrite <-(DecimalZ.of_to z) at 2. destruct (Z.to_int z) as [u|u] eqn:E.
  - simpl in *. assert (Decimal.unorm u = u) as Hu by congruence.
    pose proof (parse_uint "" "" u r ltac:(by left) Hu Hr) as Hp.
    change ("" +:+ NilZero.string_of_uint u +:+ r) with (NilZero.string_of_uint u +:+ r) in Hp.
    change ("" +:+ NilZero.string_of_uint u) with (NilZero.string_of_uint u) in Hp.
    by rewrite Hp, Hi.
  - assert (Decimal.unorm u = u) as Hu.
    { simpl in Hn. unfold Decimal.unorm. destruct (Decimal.nzhead u) eqn:En; congruence. }
    cbn [NilZero.string_of_int] in *.
    pose proof (parse_uint "-" "-" u r ltac:(by right) Hu Hr) as Hp.
    change ("-" +:+ NilZero.string_of_uint u +:+ r)
      with (String "-"%char (NilZero.string_of_uint u) +:+ r) in Hp.
    change ("-" +:+ NilZero.string_of_uint u) with (String "-"%char (NilZero.string_of_uint u)) in Hp.
    by rewrite Hp, Hi.
Qed.

Lemma drop_prefix_ne p x s t : drop_prefix (String x p) (String t s) = if decide (x = t) then drop_prefix p s else None.
Proof. done. Qed.

(** The first character of a printed value is neither white space nor a closing
    bracket. *)
Definition starts_value (s : string) : Prop :=
  match s with
  | EmptyString => False
  | String c _ => ord c ∉ [32; 9; 10; 13; 93; 125]%nat
  end.

Lemma starts_value_skip s : starts_value s → skip_ws s = s.
Proof.
  destruct s as [|c s]; [done|]. simpl. intros H.
  rewrite decide_False; [done|]. intros Hin. apply H. set_solver.
Qed.

Lemma starts_value_app s r : starts_value s → starts_value (s +:+ r).
Proof. by destruct s. Qed.

Lemma dumps_int_head z :
  ∃ c s, dumps_int z = String c s ∧ (ord c = 45%nat ∨ is_digit c = true).
Proof.
  unfold dumps_int. pose proof (norm_to_int z) as Hn.
  destruct (Z.to_int z) as [u|u]; simpl; [|by eexists _, _; split; [|left]].
  unfold NilZero.string_of_uint. destruct u; simpl; eexists _, _; (split; [done|by right]).
Qed.

Lemma dumps_starts_value j : starts_value (json_dumps j).
Proof.
  destruct j as [|[]|z| | |]; simpl; try (apply (bool_decide_unpack _); by vm_compute).
  destruct (dumps_int_head z) as (c & s & -> & Hc). simpl. unfold is_digit in Hc.
  rewrite bool_decide_eq_true in Hc. rewrite !not_elem_of_cons. 
  split_and!; try lia. apply not_elem_of_nil.
Qed.

Lemma skip_dumps j r : skip_ws (json_dumps j +:+ r) = json_dumps j +:+ r.
Proof. apply starts_value_skip, starts_value_app, dumps_starts_value. Qed.

(** The parser reads back a printed value and stops after it. *)
Definition parses (j : Json) : Prop := ∀ n r,
  (String.length (json_dumps j) ≤ n)%nat → ends_number r →
  parse_value n (json_dumps j +:+ r) = Some (j, r).

Lemma dumps_length j : (0 < String.length (json_dumps j))%nat.
Proof. pose proof (dumps_starts_value j). destruct (json_dumps j); [done|simpl; lia]. Qed.

Lemma parse_value_int z : parses (JInt z).
Proof.
  intros n r Hn Hr. pose proof (dumps_length (JInt z)). destruct n as [|n]; [lia|].
  pose proof (skip_dumps (JInt z) r) as Hw. pose proof (parse_dumps_int z r Hr) as Hi.
  cbn [json_dumps] in *. destruct (dumps_int_head z) as (c & s & Hs & Hc).
  rewrite Hs, sapp_cons in *. cbn [parse_value]. rewrite Hw. unfold is_digit in Hc. rewrite bool_decide_eq_true in Hc.
  repeat (rewrite decide_False by lia). done.
Qed.

Lemma parse_items_ok l n r :
  Forall parses l → l ≠ [] →
  (String.length (join "," (map json_dumps l)) < n)%nat →
  parse_items n (join "," (map json_dumps l) +:+ "]" +:+ r) = Some (l, r).
Proof.
  intros Hl. revert n. induction Hl as [|j l Hj Hl IH]; intros n Hne Hn; [done|].
  destruct n as [|n]; [lia|]. destruct l as [|j' l].
  - simpl in *. rewrite Hj; [done|lia|]. apply (bool_decide_unpack _). by vm_compute.
  - cbn [map join] in *. rewrite !sapp_length in Hn. simpl in Hn.
    rewrite !sapp_assoc. simpl parse_items. rewrite Hj; [|lia|]; last first.
    { apply (bool_decide_unpack _). by vm_compute. }
    simpl. change (skip_ws ("," +:+ ?x)) with ("," +:+ x).
    cbn [map join] in IH. rewrite IH; [done|done|lia].
Qed.

Definition dumps_member (kv : string * Json) : string :=
  dumps_str kv.1 +:+ ":" +:+ json_dumps kv.2.

Lemma join_cons2 sep x y l : join sep (x :: y :: l) = x +:+ sep +:+ join sep (y :: l).
Proof. done. Qed.

Lemma drop_colon s : drop_prefix ":" (skip_ws (":" +:+ s)) = Some s.
Proof. done. Qed.

Lemma parse_members_ok d n r :
  Forall (λ kv, parses kv.2) d → d ≠ [] →
  (String.length (join "," (map dumps_member d)) < n)%nat →
  parse_members n (join "," (map dumps_member d) +:+ "}" +:+ r) = Some (d, r).
Proof.
  assert (∀ k v n t, parses v → (String.length (dumps_member (k, v)) ≤ n)%nat → ends_number t →
    ∃ r', skip_ws (dumps_member (k, v) +:+ t) = String (chr 34) r' ∧
    parse_str r' = Some (k, ":" +:+ json_dumps v +:+ t) ∧
    parse_value n (json_dumps v +:+ t) = Some (v, t)) as Hm.
  { intros k v m t Hv Hm Ht. unfold dumps_member, dumps_str, quote in *. simpl in *.
    rewrite !sapp_assoc. eexists. split; [reflexivity|]. split; [apply parse_str_escape|].
    apply Hv; [|done].
    repeat (progress (rewrite ?sapp_length in Hm; simpl in Hm)). lia. }
  intros Hd. revert n. induction Hd as [|[k v] d Hv Hd IH]; intros n Hne Hn; [done|].
  destruct n as [|n]; [lia|]. destruct d as [|kv' d].
  - cbn [map join] in *.
    destruct (Hm k v n ("}" +:+ r) Hv) as (r' & H1 & H2 & H3); [lia|apply (bool_decide_unpack _); by vm_compute|].
    cbn [parse_members]. rewrite H1, decide_True by done. rewrite H2. cbn [mbind option_bind].
    rewrite drop_colon. cbn [mbind option_bind]. by rewrite H3.
  - change (map dumps_member ((k, v) :: kv' :: d))
      with (dumps_member (k, v) :: dumps_member kv' :: map dumps_member d) in *.
    change (map dumps_member (kv' :: d)) with (dumps_member kv' :: map dumps_member d) in IH.
    rewrite join_cons2 in *. rewrite !sapp_length in Hn. simpl String.length in Hn at 2.
    rewrite !sapp_assoc.
    destruct (Hm k v n ("," +:+ join "," (dumps_member kv' :: map dumps_member d) +:+ "}" +:+ r) Hv)
      as (r' & H1 & H2 & H3); [lia|apply (bool_decide_unpack _); by vm_compute|].
    cbn [parse_members]. rewrite H1, decide_True by done. rewrite H2. cbn [mbind option_bind].
    rewrite drop_colon. cbn [mbind option_bind]. rewrite H3. simpl.
    rewrite IH; [done|done|lia].
Qed.

Lemma foldl_dset_nodup {V} (d acc : dict V) :
  NoDup (dkeys acc ++ dkeys d)%list → foldl (λ a kv, dset kv.1 kv.2 a) acc d = (acc ++ d)%list.
Proof.
  revert acc. induction d as [|[k v] d IH]; intros acc Hn; simpl; [by rewrite app_nil_r|].
  assert (dset k v acc = (acc ++ [(k, v)])%list) as ->.
  { apply NoDup_app in Hn as (_ & Hn & _). clear IH.
    induction acc as [|[k' v'] acc IHa]; [done|]. simpl in *.
    rewrite decide_False; [|intros ->; apply (Hn k'); left].
    f_equal. apply IHa. intros x Hx. apply Hn. by right. }
  rewrite IH; [by rewrite <-app_assoc|].
  unfold dkeys in *. rewrite fmap_app, <-app_assoc. done.
Qed.

Lemma json_parses j : json_wf j → parses j.
Proof.
  induction j as [|b|z|s|l IH|d IH] using Json_nested_ind; intros Hwf n r Hn Hr;
    try (by apply parse_value_int);
    match goal with |- parse_value _ (json_dumps ?j +:+ _) = _ => pose proof (dumps_length j) end;
    (destruct n as [|n]; [lia|]).
  - done.
  - by destruct b.
  - cbn [json_dumps]. unfold dumps_str. rewrite !sapp_assoc.
    transitivity ('(t, r) ← parse_str (escape s +:+ quote +:+ r); Some (JStr t, r));
      [done|by rewrite parse_str_escape].
  - assert (Forall parses l) as Hl.
    { clear -IH Hwf. induction IH as [|j l Hj Hl IHl]; constructor; simpl in Hwf; naive_solver. }
    destruct l as [|j l]; [done|]. cbn [json_dumps] in *. rewrite !sapp_assoc.
    rewrite !sapp_length in Hn. simpl String.length in Hn at 1. simpl String.length in Hn at 2.
    pose proof (parse_items_ok (j :: l) n r Hl ltac:(done) ltac:(lia)) as Hp.
    change ("[" +:+ ?x) with (String (chr 91) x) in *. cbn [parse_value].
    rewrite (starts_value_skip (String (chr 91) _)) by (apply (bool_decide_unpack _); by vm_compute).
    repeat first [rewrite decide_True by done | rewrite decide_False by done].
    rewrite Hp.
    assert (starts_value (join "," (map json_dumps (j :: l)) +:+ "]" +:+ r)) as Hst.
    { pose proof (dumps_starts_value j). destruct l; cbn [map join]; rewrite ?sapp_assoc;
        by apply starts_value_app. }
    rewrite starts_value_skip by done.
    destruct (join "," (map json_dumps (j :: l)) +:+ "]" +:+ r) as [|c x]; [done|].
    rewrite drop_prefix_ne, decide_False; [done|]. intros <-. apply Hst. set_solver.
  - destruct Hwf as [Hnd Hwf].
    assert (Forall (λ kv, parses kv.2) d) as Hl.
    { clear -IH Hwf. induction IH as [|j l Hj Hl IHl]; constructor; simpl in Hwf; naive_solver. }
    destruct d as [|kv d]; [done|]. cbn [json_dumps] in *. rewrite !sapp_assoc.
    rewrite !sapp_length in Hn. simpl String.length in Hn at 1. simpl String.length in Hn at 2.
    pose proof (parse_members_ok (kv :: d) n r Hl ltac:(done) ltac:(unfold dumps_member; lia)) as Hp.
    unfold dumps_member in Hp.
    change ("{" +:+ ?x) with (String (chr 123) x) in *. cbn [parse_value].
    rewrite (starts_value_skip (String (chr 123) _)) by (apply (bool_decide_unpack _); by vm_compute).
    repeat first [rewrite decide_True by done | rewrite decide_False by done].
    rewrite Hp. cbn [mbind option_bind]. rewrite (foldl_dset_nodup _ []) by done.
    assert (∃ x, join "," (map (λ kv, dumps_str kv.1 +:+ ":" +:+ json_dumps kv.2) (kv :: d))
      +:+ "}" +:+ r = String (chr 34) x) as [x ->]; [|done].
    destruct d; cbn [map join]; unfold dumps_str, quote; rewrite !sapp_assoc; by eexists.
Qed.

(** [json.loads(json.dumps(j)) == j]; the parser's fuel, one more than the length
    of the text, is enough. *)
Lemma json_loads_dumps j : json_wf j → json_loads (json_dumps j) = Ok j.
Proof.
  intros Hwf. unfold json_loads. pose proof (json_parses j Hwf (S (String.length (json_dumps j))) "") as H.
  assert (json_dumps j +:+ "" = json_dumps j) as E.
  { generalize (json_dumps j). intros s. induction s as [|c s IH]; [done|]. by rewrite sapp_cons, IH. }
  rewrite E in H. by rewrite H by (done || lia).
Qed.
