(* ===== verification/Roles.v ===== *)
(** * Pipeline roles

    Models [disaggregation/roles.py]: the role enumeration, its parsing with the
    alias table, the classification of pipeline modules by role, and the filter
    that decides which modules a role instance loads. *)

From S2P Require Import Prelude.
Local Open Scope string_scope.
Local Open Scope Z_scope.

Inductive RoleType := MONOLITHIC | ENCODER | DENOISER | DECODER | SERVER.

#[global] Instance RoleType_eq_dec : EqDecision RoleType.
Proof. solve_decision. Defined.

(** [role.value] *)
Definition role_value (r : RoleType) : string :=
  match r with
  | MONOLITHIC => "monolithic"
  | ENCODER => "encoder"
  | DENOISER => "denoiser"
  | DECODER => "decoder"
  | SERVER => "server"
  end.

Definition all_roles : list RoleType := [MONOLITHIC; ENCODER; DENOISER; DECODER; SERVER].

Definition ROLE_ALIASES : dict string := [("denoising", "denoiser")].

(** The enum constructor [cls(v)]: the member whose value is [v]. *)
Definition role_of_value (v : string) : res RoleType :=
  match filter (λ r, role_value r = v) all_roles with
  | r :: _ => Ok r
  | [] => Raise ValueError
  end.

Definition from_string (value : string) : res RoleType :=
  role_of_value (default (lower value) (dget (lower value) ROLE_ALIASES)).

(** [choices()]: the member values and the aliases in sorted order; the alias
    table has one key. *)
Definition choices : list string := (role_value <$> all_roles) ++ dkeys ROLE_ALIASES.

(** The test both prefix loops use: [module_name == p or
    module_name.startswith(p + "_")] for some [p]. *)
Definition has_prefix (module_name : string) (prefixes : list string) : bool :=
  existsb (λ p, bool_decide (module_name = p) || startswith module_name (p +:+ "_")) prefixes.

Definition encoder_prefixes : list string :=
  ["text_encoder"; "tokenizer"; "image_encoder"; "image_processor"; "processor";
   "connectors"; "vision_language_encoder"].
Definition denoising_prefixes : list string :=
  ["transformer"; "video_dit"; "audio_dit"; "dual_tower_bridge"].
Definition decoder_prefixes : list string := ["vae"; "audio_vae"; "video_vae"; "vocoder"].

Definition get_module_role (module_name : string) : option RoleType :=
  if has_prefix module_name encoder_prefixes then Some ENCODER
  else if bool_decide (module_name ∈ ["hy3dshape_conditioner"; "hy3dshape_image_processor"])
  then Some ENCODER
  else if has_prefix module_name denoising_prefixes then Some DENOISER
  else if bool_decide (module_name = "hy3dshape_model") then Some DENOISER
  else if has_prefix module_name decoder_prefixes then Some DECODER
  else if bool_decide (module_name = "hy3dshape_vae") then Some DECODER
  else None.

(** The loop body of [filter_modules_for_role]. *)
Definition keeps_module (role : RoleType) (extra : list string) (name : string) : bool :=
  match get_module_role name with
  | None => true
  | Some r => bool_decide (r = role) || bool_decide (name ∈ extra)
  end.

Definition filter_modules_for_role (module_names : list string) (role : RoleType)
    (extra_allowed_modules : list string) : list string :=
  match role with
  | MONOLITHIC | SERVER => module_names
  | _ => filter (λ n, keeps_module role extra_allowed_modules n = true) module_names
  end.

(** ** Theorems *)

Lemma has_prefix_spec n ps :
  has_prefix n ps = true ↔ ∃ p, p ∈ ps ∧ (n = p ∨ ∃ t, n = (p +:+ "_") +:+ t).
Proof.
  unfold has_prefix. rewrite existsb_exists. split.
  - intros (p & Hp & [H%bool_decide_eq_true_1|H]%orb_true_iff); exists p;
      rewrite list_elem_of_In; (split; [done|]); [by left|right].
    by apply startswith_spec.
  - intros (p & Hp & H). exists p. rewrite <-list_elem_of_In. split; [done|].
    apply orb_true_iff. destruct H as [H|H]; [left; by apply bool_decide_eq_true_2|right].
    by apply startswith_spec.
Qed.

(** Every role parses back from its value, whatever the letter case, and every
    advertised CLI choice is accepted. *)
Lemma from_string_value r : from_string (role_value r) = Ok r.
Proof. by destruct r. Qed.

Lemma choices_accepted : Forall (λ s, ∃ r, from_string s = Ok r ∧ r ∈ all_roles) choices.
Proof.
  unfold choices. apply Forall_app. split.
  - apply Forall_fmap, Forall_forall. intros r Hr. exists r. split; [apply from_string_value|done].
  - repeat constructor. exists DENOISER. split; [reflexivity|]. set_solver.
Qed.

Lemma get_module_role_pipeline n r : get_module_role n = Some r → r ∈ [ENCODER; DENOISER; DECODER].
Proof. unfold get_module_role. repeat case_match; intros; simplify_eq; set_solver. Qed.

Lemma filter_modules_elem ms role extra n :
  n ∈ filter_modules_for_role ms role extra ↔
  n ∈ ms ∧ (role = MONOLITHIC ∨ role = SERVER ∨ get_module_role n = None ∨
            get_module_role n = Some role ∨ n ∈ extra).
Proof.
  unfold filter_modules_for_role.
  assert (keeps_module role extra n = true ↔
    get_module_role n = None ∨ get_module_role n = Some role ∨ n ∈ extra) as Hk.
  { unfold keeps_module. destruct (get_module_role n) as [r|]; [|naive_solver].
    rewrite orb_true_iff, !bool_decide_eq_true. naive_solver. }
  pose proof (get_module_role_pipeline n role).
  destruct role; rewrite ?list_elem_of_filter, ?Hk; naive_solver.
Qed.

Lemma filter_modules_sublist ms role extra :
  filter_modules_for_role ms role extra `sublist_of` ms.
Proof. destruct role; simpl; [done|by apply sublist_filter..|done]. Qed.
