(* ===== verification/RequestState.v ===== *)
(** * Request lifecycle

    Models [disaggregation/request_state.py]: the lifecycle states, the table of
    normal transitions, the request record and the [RequestTracker] operations.
    The tracker's [_requests] dictionary is the state of the monad; every
    operation runs under the tracker's lock, so it is one atomic step. Clock
    readings ([time.monotonic()]) are arguments, as exact rationals. *)

From S2P Require Import Prelude.

Inductive RequestState :=
  | PENDING
  | ENCODER_WAITING | ENCODER_RUNNING | ENCODER_DONE
  | DENOISING_WAITING | DENOISING_RUNNING | DENOISING_DONE
  | DECODER_WAITING | DECODER_RUNNING
  | DONE | FAILED | TIMED_OUT.

#[global] Instance RequestState_eq_dec : EqDecision RequestState.
Proof. solve_decision. Defined.

Definition all_states : list RequestState :=
  [PENDING; ENCODER_WAITING; ENCODER_RUNNING; ENCODER_DONE; DENOISING_WAITING;
   DENOISING_RUNNING; DENOISING_DONE; DECODER_WAITING; DECODER_RUNNING; DONE; FAILED;
   TIMED_OUT].

(** [state in _TERMINAL_STATES] *)
Definition is_terminal_state (s : RequestState) : bool :=
  match s with DONE | FAILED | TIMED_OUT => true | _ => false end.

(** [state in _ACTIVE_STATES] *)
Definition is_active_state (s : RequestState) : bool := negb (is_terminal_state s).

(** [_VALID_TRANSITIONS.get(s, set())] *)
Definition VALID_TRANSITIONS (s : RequestState) : list RequestState :=
  match s with
  | PENDING => [ENCODER_WAITING; ENCODER_RUNNING]
  | ENCODER_WAITING => [ENCODER_RUNNING]
  | ENCODER_RUNNING => [ENCODER_DONE]
  | ENCODER_DONE => [DENOISING_WAITING; DENOISING_RUNNING]
  | DENOISING_WAITING => [DENOISING_RUNNING]
  | DENOISING_RUNNING => [DENOISING_DONE]
  | DENOISING_DONE => [DECODER_WAITING; DECODER_RUNNING]
  | DECODER_WAITING => [DECODER_RUNNING]
  | DECODER_RUNNING => [DONE]
  | DONE | FAILED | TIMED_OUT => []
  end.

Record RequestRecord := mk_record {
  request_id : string;
  state : RequestState;
  submit_time : Qc;
  last_transition_time : Qc;
  encoder_instance : option nat;
  denoiser_instance : option nat;
  decoder_instance : option nat;
  error : option string;
}.

Definition is_terminal (r : RequestRecord) : bool := is_terminal_state (state r).
Definition elapsed_s (now : Qc) (r : RequestRecord) : Qc := (now - submit_time r)%Qc.

(** The keyword arguments of [transition]. *)
Record TransitionArgs := mk_targs {
  t_error : option string;
  t_encoder : option nat;
  t_denoiser : option nat;
  t_decoder : option nat;
}.
Definition no_args : TransitionArgs := mk_targs None None None None.
Definition with_error (e : string) : TransitionArgs := mk_targs (Some e) None None None.
Definition with_encoder (i : nat) : TransitionArgs := mk_targs None (Some i) None None.
Definition with_denoiser (i : nat) : TransitionArgs := mk_targs None None (Some i) None.
Definition with_decoder (i : nat) : TransitionArgs := mk_targs None None None (Some i).

(** [if x is not None: record.f = x] *)
Definition override {A} (new old : option A) : option A :=
  match new with Some _ => new | None => old end.

(** Whether the guard of [transition] lets the request go from [old] to [new]. *)
Definition transition_allowed (old new : RequestState) : bool :=
  if is_terminal_state new && bool_decide (new ≠ DONE) then is_active_state old
  else bool_decide (new ∈ VALID_TRANSITIONS old).

Module RequestTracker.
Definition t : Type := dict RequestRecord.

Definition init : t := [].

Definition submit (now : Qc) (rid : string) : M t RequestRecord :=
  reqs ← get;
  match dget rid reqs with
  | Some _ => raise ValueError
  | None =>
      let record := mk_record rid PENDING now now None None None None in
      modify (dset rid record) ≫= λ _, mret record
  end.

(** The record after the mutations of [transition]. *)
Definition apply_transition (now : Qc) (new_state : RequestState) (a : TransitionArgs)
    (r : RequestRecord) : RequestRecord :=
  mk_record (request_id r) new_state (submit_time r) now
    (override (t_encoder a) (encoder_instance r))
    (override (t_denoiser a) (denoiser_instance r))
    (override (t_decoder a) (decoder_instance r))
    (override (t_error a) (error r)).

Definition transition (now : Qc) (rid : string) (new_state : RequestState)
    (a : TransitionArgs) : M t RequestRecord :=
  reqs ← get;
  match dget rid reqs with
  | None => raise ValueError
  | Some record =>
      if transition_allowed (state record) new_state then
        let record' := apply_transition now new_state a record in
        modify (dset rid record') ≫= λ _, mret record'
      else raise ValueError
  end.

Definition get_record (rid : string) : M t (option RequestRecord) := gets (dget rid).

Definition remove (rid : string) : M t (option RequestRecord) :=
  r ← gets (dget rid); modify (ddel rid) ≫= λ _, mret r.

Definition timed_out_pred (now timeout_s : Qc) (r : RequestRecord) : Prop :=
  is_active_state (state r) = true ∧ (timeout_s < elapsed_s now r)%Qc.

#[global] Instance timed_out_dec now timeout_s r : Decision (timed_out_pred now timeout_s r).
Proof. apply _. Defined.

Definition find_timed_out (now timeout_s : Qc) (reqs : t) : list string :=
  request_id <$> filter (timed_out_pred now timeout_s) (dvals reqs).

(** [state_counts[v] = state_counts.get(v, 0) + 1] over the records, as a map
    from states. *)
Definition state_count (reqs : t) (s : RequestState) : nat :=
  length (filter (λ r, state r = s) (dvals reqs)).

Record Snapshot := mk_snapshot {
  total : nat;
  active : nat;
  by_state : list (RequestState * nat);
}.

Definition snapshot (reqs : t) : Snapshot :=
  mk_snapshot (length reqs)
    (length (filter (λ r, is_terminal r = false) (dvals reqs)))
    (filter (λ p, p.2 ≠ 0%nat) ((λ s, (s, state_count reqs s)) <$> all_states)).
End RequestTracker.

(** ** The lifecycle as a step relation

    [lifecycle tr s]: a request submitted in [PENDING] can be in state [s] after
    successful transitions through the states [tr], most recent first. *)
Inductive lifecycle : list RequestState → RequestState → Prop :=
  | life_start : lifecycle [] PENDING
  | life_step tr s s' :
      lifecycle tr s → transition_allowed s s' = true → lifecycle (s :: tr) s'.

(** Progress measure: every allowed transition increases it. *)
Definition state_rank (s : RequestState) : nat :=
  match s with
  | PENDING => 0 | ENCODER_WAITING => 1 | ENCODER_RUNNING => 2 | ENCODER_DONE => 3
  | DENOISING_WAITING => 4 | DENOISING_RUNNING => 5 | DENOISING_DONE => 6
  | DECODER_WAITING => 7 | DECODER_RUNNING => 8 | DONE | FAILED | TIMED_OUT => 9
  end.

(** The states a request must have been through before it can be in [s]. *)
Definition must_visit (s : RequestState) : list RequestState :=
  match s with
  | PENDING => []
  | ENCODER_WAITING | ENCODER_RUNNING => [PENDING]
  | ENCODER_DONE => [PENDING; ENCODER_RUNNING]
  | DENOISING_WAITING | DENOISING_RUNNING => [PENDING; ENCODER_RUNNING; ENCODER_DONE]
  | DENOISING_DONE => [PENDING; ENCODER_RUNNING; ENCODER_DONE; DENOISING_RUNNING]
  | DECODER_WAITING | DECODER_RUNNING =>
      [PENDING; ENCODER_RUNNING; ENCODER_DONE; DENOISING_RUNNING; DENOISING_DONE]
  | DONE => [PENDING; ENCODER_RUNNING; ENCODER_DONE; DENOISING_RUNNING; DENOISING_DONE;
             DECODER_RUNNING]
  | FAILED | TIMED_OUT => [PENDING]
  end.

Lemma transition_rank s s' : transition_allowed s s' = true → (state_rank s < state_rank s')%nat.
Proof. destruct s, s'; vm_compute; intros; solve [discriminate | lia]. Qed.

Lemma transition_terminal s s' : is_terminal_state s = true → transition_allowed s s' = false.
Proof. destruct s, s'; vm_compute; congruence. Qed.

Lemma must_visit_step s s' :
  transition_allowed s s' = true → Forall (λ x, x = s ∨ x ∈ must_visit s) (must_visit s').
Proof.
  intros H. apply (bool_decide_unpack _).
  destruct s, s'; first [discriminate H | by vm_compute].
Qed.

Lemma lifecycle_rank tr s : lifecycle tr s → (length tr ≤ state_rank s)%nat.
Proof. induction 1 as [|tr s s' ? IH Ht]; simpl; [lia|]. apply transition_rank in Ht. lia. Qed.

Lemma lifecycle_visits tr s : lifecycle tr s → ∀ x, x ∈ must_visit s → x ∈ tr.
Proof.
  induction 1 as [|tr s s' ? IH Ht]; intros x Hx; [by apply not_elem_of_nil in Hx|].
  apply must_visit_step in Ht. rewrite Forall_forall in Ht.
  destruct (Ht x Hx) as [->|?]; [left|right; auto].
Qed.

(** ** Tracker well-formedness *)

Record tracker_wf (reqs : RequestTracker.t) : Prop := {
  twf_nodup : NoDup (dkeys reqs);
  twf_id : ∀ k r, dget k reqs = Some r → request_id r = k;
}.

Module RequestTrackerFacts.
Import RequestTracker.

Lemma tracker_init_wf : tracker_wf init.
Proof. split; [constructor|done]. Qed.

Lemma dset_wf reqs k r : tracker_wf reqs → request_id r = k → tracker_wf (dset k r reqs).
Proof.
  intros [Hn Hi] Hr. split; [by apply NoDup_dset|]. intros k' r'.
  rewrite dget_dset. case_decide; naive_solver.
Qed.

Lemma ddel_wf reqs k : tracker_wf reqs → tracker_wf (ddel k reqs).
Proof.
  intros [Hn Hi]. split; [by apply NoDup_ddel|]. intros k' r'.
  rewrite dget_ddel. case_decide; naive_solver.
Qed.

Lemma submit_fresh now rid reqs :
  dget rid reqs = None →
  submit now rid reqs =
    (Ok (mk_record rid PENDING now now None None None None),
     dset rid (mk_record rid PENDING now now None None None None) reqs).
Proof. intros H. unfold submit, mbind, M_bind, get. by rewrite H. Qed.

Lemma submit_duplicate now rid reqs :
  is_Some (dget rid reqs) → submit now rid reqs = (Raise ValueError, reqs).
Proof. intros [r H]. unfold submit, mbind, M_bind, get. by rewrite H. Qed.

Lemma transition_ok now rid s a reqs r :
  dget rid reqs = Some r → transition_allowed (state r) s = true →
  transition now rid s a reqs =
    (Ok (apply_transition now s a r), dset rid (apply_transition now s a r) reqs).
Proof. intros H Ha. unfold transition, mbind, M_bind, get. by rewrite H, Ha. Qed.

Lemma transition_rejected now rid s a reqs r :
  dget rid reqs = Some r → transition_allowed (state r) s = false →
  transition now rid s a reqs = (Raise ValueError, reqs).
Proof. intros H Ha. unfold transition, mbind, M_bind, get. by rewrite H, Ha. Qed.

Lemma transition_unknown now rid s a reqs :
  dget rid reqs = None → transition now rid s a reqs = (Raise ValueError, reqs).
Proof. intros H. unfold transition, mbind, M_bind, get. by rewrite H. Qed.

(** Every outcome of [transition]: it leaves the dictionary alone and raises
    [ValueError], or it replaces the record of [rid]. *)
Lemma transition_cases now rid s a reqs :
  (transition now rid s a reqs = (Raise ValueError, reqs)) ∨
  (∃ r, dget rid reqs = Some r ∧ transition_allowed (state r) s = true ∧
     transition now rid s a reqs =
       (Ok (apply_transition now s a r), dset rid (apply_transition now s a r) reqs)).
Proof.
  destruct (dget rid reqs) as [r|] eqn:Hr.
  - destruct (transition_allowed (state r) s) eqn:Ha.
    + right. eauto using transition_ok.
    + left. by eapply transition_rejected.
  - left. by apply transition_unknown.
Qed.

Lemma submit_wf now rid reqs : tracker_wf reqs → tracker_wf (submit now rid reqs).2.
Proof.
  intros Hwf. destruct (dget rid reqs) eqn:E.
  - rewrite submit_duplicate by by eexists. done.
  - rewrite submit_fresh by done. by apply dset_wf.
Qed.

Lemma transition_wf now rid s a reqs :
  tracker_wf reqs → tracker_wf (transition now rid s a reqs).2.
Proof.
  intros Hwf. destruct (transition_cases now rid s a reqs) as [->|(r & Hr & _ & ->)]; [done|].
  apply dset_wf; [done|]. simpl. by eapply twf_id.
Qed.

Lemma remove_wf rid reqs : tracker_wf reqs → tracker_wf (remove rid reqs).2.
Proof. by apply ddel_wf. Qed.

Lemma find_timed_out_elem now timeout reqs rid :
  tracker_wf reqs →
  rid ∈ find_timed_out now timeout reqs ↔
  ∃ r, dget rid reqs = Some r ∧ is_active_state (state r) = true ∧
       (timeout < now - submit_time r)%Qc.
Proof.
  intros [Hn Hi]. unfold find_timed_out. rewrite list_elem_of_fmap. split.
  - intros (r & -> & [Ha Hin]%list_elem_of_filter).
    apply list_elem_of_fmap in Hin as ([k r'] & -> & Hin). simpl in *.
    pose proof (in_dget _ _ _ Hn Hin) as Hg. rewrite (Hi _ _ Hg). exists r'.
    split; [done|apply Ha].
  - intros (r & Hg & Ha). exists r. rewrite (Hi _ _ Hg). split; [done|].
    apply list_elem_of_filter. split; [done|].
    apply list_elem_of_fmap. exists (rid, r). split; [done|]. by apply dget_in.
Qed.

Lemma filter_partition {A} (P : A → Prop) `{!∀ x, Decision (P x)} (l : list A) :
  (length (filter P l) + length (filter (λ x, ¬ P x) l) = length l)%nat.
Proof.
  induction l as [|x l IH]; [done|]. rewrite !filter_cons.
  repeat case_decide; try done; simpl; lia.
Qed.
End RequestTrackerFacts.
