(* ===== verification/Dispatch.v ===== *)
(** * Dispatch policies

    Models [disaggregation/dispatch_policy.py]. The abstract class is the
    operational class [DispatchPolicy]; what the orchestrator relies on is the
    class of laws [CapacityAware], discharged by both policies. Each method runs
    under the policy's lock and is one atomic step on its fields. *)

From S2P Require Import Prelude.

(** The interface: construction and the two selection methods, in the
    state-and-exception monad over the policy's own fields. *)
Class DispatchPolicy (P : Type) := {
  num_instances : P → nat;
  select : option (list Z) → M P nat;
  select_with_capacity : list Z → M P (option nat);
}.

(** What a capacity-aware policy promises to its client, for states satisfying
    [policy_wf] and a free-slot list of the right length: it does not raise, it
    chooses an instance in range that has a free slot, and it answers [None] only
    when every instance is full. *)
Class CapacityAware (P : Type) `{DispatchPolicy P} := {
  policy_wf : P → Prop;
  swc_total : ∀ p free, policy_wf p → length free = num_instances p →
    ∃ o, (select_with_capacity free p).1 = Ok o;
  swc_wf : ∀ p free, policy_wf p → policy_wf (select_with_capacity free p).2;
  swc_num : ∀ p free, num_instances (select_with_capacity free p).2 = num_instances p;
  swc_sound : ∀ p free i, policy_wf p → (select_with_capacity free p).1 = Ok (Some i) →
    (i < num_instances p)%nat ∧ ∃ f, free !! i = Some f ∧ 0 < f;
  swc_complete : ∀ p free, policy_wf p → (select_with_capacity free p).1 = Ok None →
    ∀ i f, (i < num_instances p)%nat → free !! i = Some f → f ≤ 0;
}.

(** The default [DispatchPolicy.select_with_capacity] of the base class, which both
    concrete policies override. *)
Definition base_select_with_capacity `{DispatchPolicy P} (free_slots : list Z) :
    M P (option nat) :=
  if existsb (λ s, 0 <? s) free_slots then select None ≫= λ i, mret (Some i) else mret None.

Definition index_list (l : list Z) (i : nat) : res Z :=
  match l !! i with Some x => Ok x | None => Raise IndexError end.

(** ** Round robin *)
Module RoundRobin.
Record t := mk { rr_num : nat; rr_next : nat }.

Definition init (n : Z) : res t :=
  if n <? 1 then Raise ValueError else Ok (mk (Z.to_nat n) 0).

Definition advance (p : t) : t := mk (rr_num p) ((rr_next p + 1) mod rr_num p)%nat.

Definition select (active_counts : option (list Z)) : M t nat :=
  chosen ← gets rr_next; modify advance ≫= λ _, mret chosen.

(** The body of [for _ in range(self._num_instances)]. *)
Fixpoint scan (k : nat) (free_slots : list Z) : M t (option nat) :=
  match k with
  | O => mret None
  | S k =>
      idx ← gets rr_next;
      modify advance ≫= λ _,
      f ← lift_res (index_list free_slots idx);
      if 0 <? f then mret (Some idx) else scan k free_slots
  end.

Definition select_with_capacity (free_slots : list Z) : M t (option nat) :=
  λ p, scan (rr_num p) free_slots p.

#[global] Instance policy : DispatchPolicy t := {|
  num_instances := rr_num;
  Dispatch.select := select;
  Dispatch.select_with_capacity := select_with_capacity;
|}.

Definition wf (p : t) : Prop := (rr_next p < rr_num p)%nat.

Lemma rr_init_wf n p : init n = Ok p → wf p ∧ Z.of_nat (rr_num p) = n.
Proof. unfold init, wf. destruct (n <? 1) eqn:E; intros; bool_to_prop; simplify_eq/=. lia. Qed.

Lemma advance_wf p : wf p → wf (advance p).
Proof. unfold wf. intros. simpl. apply Nat.mod_upper_bound. lia. Qed.

(** The [j]-th instance the scan looks at. *)
Definition probe (p : t) (j : nat) : nat := ((rr_next p + j) mod rr_num p)%nat.

Lemma probe_0 p : wf p → probe p 0 = rr_next p.
Proof. intros. unfold probe. rewrite Nat.add_0_r. by apply Nat.mod_small. Qed.

Lemma probe_advance p j : wf p → probe (advance p) j = probe p (S j).
Proof.
  unfold wf, probe. intros. simpl. rewrite Nat.Div0.add_mod_idemp_l. f_equal. lia.
Qed.

Lemma probe_lt p j : wf p → (probe p j < rr_num p)%nat.
Proof. unfold wf, probe. intros. apply Nat.mod_upper_bound. lia. Qed.

(** Every instance is looked at within one round. *)
Lemma probe_cover p i : wf p → (i < rr_num p)%nat → ∃ j, (j < rr_num p)%nat ∧ probe p j = i.
Proof.
  unfold wf, probe. intros Hn Hi. destruct (decide (rr_next p ≤ i)%nat) as [Hle|Hgt].
  - exists (i - rr_next p)%nat. split; [lia|].
    replace (rr_next p + (i - rr_next p))%nat with i by lia. by apply Nat.mod_small.
  - exists (i + rr_num p - rr_next p)%nat. split; [lia|].
    replace (rr_next p + (i + rr_num p - rr_next p))%nat with (i + 1 * rr_num p)%nat by lia.
    rewrite Nat.Div0.mod_add. by apply Nat.mod_small.
Qed.

(** The scan returns the first instance in cyclic order with a free slot, and
    leaves the cursor just after it; after [k] full instances it gives up. *)
Lemma scan_spec k : ∀ free p, wf p → length free = rr_num p →
  (∃ j f, (j < k)%nat ∧ free !! probe p j = Some f ∧ 0 < f ∧
     (∀ j' f', (j' < j)%nat → free !! probe p j' = Some f' → f' ≤ 0) ∧
     scan k free p = (Ok (Some (probe p j)), mk (rr_num p) (probe p (S j)))) ∨
  ((∀ j f, (j < k)%nat → free !! probe p j = Some f → f ≤ 0) ∧
   scan k free p = (Ok None, mk (rr_num p) (probe p k))).
Proof.
  induction k as [|k IH]; intros free p Hp Hlen.
  { right. split; [lia|]. rewrite probe_0 by done. by destruct p. }
  destruct (lookup_lt_is_Some_2 free (rr_next p)) as [f Hf]; [unfold wf in Hp; lia|].
  assert (scan (S k) free p =
    if 0 <? f then (Ok (Some (rr_next p)), advance p) else scan k free (advance p)) as Hs.
  { simpl. unfold mbind, M_bind, gets, modify, lift_res, index_list. rewrite Hf.
    by destruct (0 <? f). }
  rewrite Hs. destruct (0 <? f) eqn:E; bool_to_prop.
  - left. exists 0%nat, f. rewrite probe_0 by done. split_and!; [lia|done|done|lia|].
    unfold advance, probe. do 3 f_equal. 
  - destruct (IH free (advance p)) as [(j & g & Hj & Hg & Hpos & Hmin & ->)|[Hall ->]];
      [by apply advance_wf|done| |].
    + left. exists (S j), g. rewrite !probe_advance in * by done.
      split_and!; [lia|done|done| |done].
      intros [|j'] f' Hj' Hf'; [rewrite probe_0 in Hf' by done; simplify_eq; lia|].
      apply (Hmin j' f'); [lia|]. by rewrite probe_advance.
    + right. rewrite probe_advance by done. split; [|done].
      intros [|j] g Hj Hg; [rewrite probe_0 in Hg by done; simplify_eq; lia|].
      apply (Hall j g); [lia|]. by rewrite probe_advance.
Qed.

Lemma scan_wf k free : ∀ p, wf p → wf (scan k free p).2 ∧ rr_num (scan k free p).2 = rr_num p.
Proof.
  induction k as [|k IH]; intros p Hp; [done|]. simpl.
  unfold mbind, M_bind, gets, modify, lift_res, index_list.
  destruct (free !! rr_next p) as [f|]; [|by split; [apply advance_wf|]].
  destruct (0 <? f); [by split; [apply advance_wf|]|].
  destruct (IH (advance p)); [by apply advance_wf|done].
Qed.

(** The scan never chooses a full instance, whatever the list it is given. *)
Lemma scan_sound k free : ∀ p i, wf p → (scan k free p).1 = Ok (Some i) →
  (i < rr_num p)%nat ∧ ∃ f, free !! i = Some f ∧ 0 < f.
Proof.
  induction k as [|k IH]; intros p i Hp; [done|]. simpl.
  unfold mbind, M_bind, gets, modify, lift_res, index_list.
  destruct (free !! rr_next p) as [f|] eqn:Hf; [|done].
  destruct (0 <? f) eqn:E; bool_to_prop; simpl; intros H.
  - simplify_eq. eauto.
  - apply (IH (advance p)); [by apply advance_wf|done].
Qed.

Lemma scan_complete k free : ∀ p, wf p → (scan k free p).1 = Ok None →
  ∀ j f, (j < k)%nat → free !! probe p j = Some f → f ≤ 0.
Proof.
  induction k as [|k IH]; intros p Hp; [lia|]. simpl.
  unfold mbind, M_bind, gets, modify, lift_res, index_list.
  destruct (free !! rr_next p) as [f|] eqn:Hf; [|done].
  destruct (0 <? f) eqn:E; bool_to_prop; simpl; intros H; [done|].
  intros [|j] g Hj Hg; [rewrite probe_0 in Hg by done; simplify_eq; lia|].
  apply (IH (advance p)) with (j:=j); [by apply advance_wf|done|lia|].
  by rewrite probe_advance.
Qed.

#[global] Program Instance capacity : CapacityAware t := {| policy_wf := wf |}.
Next Obligation.
  intros p free Hp Hlen. simpl in *. unfold select_with_capacity.
  destruct (scan_spec (rr_num p) free p) as [(j & f & _ & _ & _ & _ & ->)|[_ ->]]; eauto.
Qed.
Next Obligation. intros p free Hp. by apply scan_wf. Qed.
Next Obligation.
  intros p free. simpl. unfold select_with_capacity.
  generalize (rr_num p) at 1. intros k. revert p.
  induction k as [|k IH]; intros p; [done|]. simpl.
  unfold mbind, M_bind, gets, modify, lift_res, index_list.
  destruct (free !! rr_next p) as [f|]; [|done]. destruct (0 <? f); [done|]. by rewrite IH.
Qed.
Next Obligation. intros p free i Hp H. by apply scan_sound in H. Qed.
Next Obligation.
  intros p free Hp H i f Hi Hf. simpl in *.
  destruct (probe_cover p i) as (j & Hj & <-); [done..|].
  by eapply scan_complete.
Qed.
End RoundRobin.

(** ** Most free slots first *)
Module MaxFreeSlotsFirst.
Record t := mk { mf_num : nat; mf_max_slots : Z; mf_tiebreak : nat }.

Definition init (n : Z) (max_slots_per_instance : Z) : res t :=
  if n <? 1 then Raise ValueError else Ok (mk (Z.to_nat n) max_slots_per_instance 0).

Definition bump (p : t) : t := mk (mf_num p) (mf_max_slots p) (mf_tiebreak p + 1).
Definition tie (p : t) : nat := (mf_tiebreak p mod mf_num p)%nat.

(** One iteration of [select]'s loop: the best instance so far and its free
    slots, against instance [i] with [free] slots. *)
Definition select_better (tb : nat) (best : nat * Z) (i : nat) (free : Z) : nat * Z :=
  if best.2 <? free then (i, free)
  else if (free =? best.2) && bool_decide (i = tb) then (i, best.2) else best.

Fixpoint select_loop (tb : nat) (max_slots : Z) (active_counts : list Z)
    (i k : nat) (best : nat * Z) : res (nat * Z) :=
  match k with
  | O => Ok best
  | S k =>
      a ← index_list active_counts i;
      select_loop tb max_slots active_counts (S i) k
        (select_better tb best i (max_slots - a))
  end.

Definition select (active_counts : option (list Z)) : M t nat :=
  p ← get;
  match active_counts with
  | Some counts =>
      if bool_decide (length counts = mf_num p) then
        a0 ← lift_res (index_list counts 0);
        best ← lift_res (select_loop (tie p) (mf_max_slots p) counts 1 (mf_num p - 1)
                           (0%nat, mf_max_slots p - a0));
        modify bump ≫= λ _, mret best.1
      else modify bump ≫= λ _, mret (tie p)
  | None => modify bump ≫= λ _, mret (tie p)
  end.

(** One iteration of [select_with_capacity]'s loop; [best_id = -1] is [None]. *)
Definition capacity_better (tb : nat) (best : option nat * Z) (i : nat) (free : Z) :
    option nat * Z :=
  if best.2 <? free then (Some i, free)
  else if (free =? best.2) && (0 <? best.2) && bool_decide (i = tb)
  then (Some i, best.2) else best.

Fixpoint capacity_loop (tb : nat) (free_slots : list Z) (i k : nat)
    (best : option nat * Z) : res (option nat * Z) :=
  match k with
  | O => Ok best
  | S k =>
      f ← index_list free_slots i;
      capacity_loop tb free_slots (S i) k (capacity_better tb best i f)
  end.

Definition select_with_capacity (free_slots : list Z) : M t (option nat) :=
  p ← get;
  best ← lift_res (capacity_loop (tie p) free_slots 0 (mf_num p) (None, 0));
  modify bump ≫= λ _, mret best.1.

#[global] Instance policy : DispatchPolicy t := {|
  num_instances := mf_num;
  Dispatch.select := select;
  Dispatch.select_with_capacity := select_with_capacity;
|}.

Definition wf (p : t) : Prop := (0 < mf_num p)%nat.

Lemma mf_init_wf n m p : init n m = Ok p → wf p ∧ Z.of_nat (mf_num p) = n.
Proof. unfold init, wf. destruct (n <? 1) eqn:E; intros; bool_to_prop; simplify_eq/=. lia. Qed.

(** The loop state after the first [i] instances: the best free count seen, at
    least zero, and an instance that has it unless it is zero. *)
Definition best_inv (free : list Z) (i : nat) (best : option nat * Z) : Prop :=
  0 ≤ best.2 ∧
  (∀ j f, (j < i)%nat → free !! j = Some f → f ≤ best.2) ∧
  match best.1 with
  | Some b => (b < i)%nat ∧ free !! b = Some best.2 ∧ 0 < best.2
  | None => best.2 = 0
  end.

Lemma capacity_better_inv tb free i f best :
  best_inv free i best → free !! i = Some f →
  best_inv free (S i) (capacity_better tb best i f).
Proof.
  intros (H0 & Hmax & Hb) Hf. unfold capacity_better.
  assert (∀ j g, (j < S i)%nat → free !! j = Some g → g ≤ Z.max best.2 f) as Hmax'.
  { intros j g Hj Hg. destruct (decide (j = i)) as [->|]; [simplify_eq; lia|].
    pose proof (Hmax j g ltac:(lia) Hg). lia. }
  destruct (best.2 <? f) eqn:E; bool_to_prop.
  - unfold best_inv; simpl; split_and!; [lia| |lia|done|lia]. intros j g Hj Hg.
    pose proof (Hmax' j g Hj Hg). lia.
  - destruct ((f =? best.2) && (0 <? best.2) && bool_decide (i = tb)) eqn:E2; bool_to_prop.
    + unfold best_inv; simpl; split_and!; [lia| |lia|congruence|lia].
      intros j g Hj Hg. pose proof (Hmax' j g Hj Hg). lia.
    + unfold best_inv. split; [done|]. split.
      * intros j g Hj Hg. pose proof (Hmax' j g Hj Hg). lia.
      * destruct best as [[b|] bf]; simpl in *; [|done].
        destruct Hb as (? & ? & ?). split_and!; [lia|done|done].
Qed.

Lemma capacity_loop_inv tb free k : ∀ i best,
  best_inv free i best →
  match capacity_loop tb free i k best with
  | Ok best' => best_inv free (i + k) best'
  | Raise e => e = IndexError ∧ (length free < i + k)%nat
  end.
Proof.
  induction k as [|k IH]; intros i best Hb; simpl; [by rewrite Nat.add_0_r|].
  unfold index_list. destruct (free !! i) as [f|] eqn:Hf; simpl.
  - specialize (IH (S i) (capacity_better tb best i f) (capacity_better_inv _ _ _ _ _ Hb Hf)).
    rewrite <-Nat.add_succ_comm. done.
  - apply lookup_ge_None in Hf. split; [done|lia].
Qed.

Lemma best_inv_start free : best_inv free 0 (None, 0).
Proof. split; [done|]. split; [simpl; lia|done]. Qed.

Lemma swc_run p free :
  select_with_capacity free p =
  match capacity_loop (tie p) free 0 (mf_num p) (None, 0) with
  | Ok best => (Ok best.1, bump p)
  | Raise e => (Raise e, p)
  end.
Proof.
  unfold select_with_capacity, mbind, M_bind, get, lift_res.
  by destruct (capacity_loop _ _ _ _ _).
Qed.

(** The chosen instance has the most free slots of all. *)
Lemma swc_max p free i :
  (select_with_capacity free p).1 = Ok (Some i) →
  (i < mf_num p)%nat ∧ ∃ f, free !! i = Some f ∧ 0 < f ∧
    ∀ j g, (j < mf_num p)%nat → free !! j = Some g → g ≤ f.
Proof.
  rewrite swc_run. pose proof (capacity_loop_inv (tie p) free (mf_num p) 0 (None, 0)
    (best_inv_start free)) as H.
  destruct (capacity_loop _ _ _ _ _) as [[o bf]|e]; simpl; [|done].
  intros ?; simplify_eq. destruct H as (_ & Hmax & (? & ? & ?)). simpl in *. eauto 10.
Qed.

#[global] Program Instance capacity : CapacityAware t := {| policy_wf := wf |}.
Next Obligation.
  intros p free Hp Hlen. simpl in *. rewrite swc_run.
  pose proof (capacity_loop_inv (tie p) free (mf_num p) 0 (None, 0) (best_inv_start free)) as H.
  destruct (capacity_loop _ _ _ _ _) as [best|e]; simpl; [eauto|lia].
Qed.
Next Obligation.
  intros p free Hp. simpl in *. rewrite swc_run. by destruct (capacity_loop _ _ _ _ _).
Qed.
Next Obligation. intros p free. simpl. rewrite swc_run. by destruct (capacity_loop _ _ _ _ _). Qed.
Next Obligation.
  intros p free i Hp H. apply swc_max in H as (? & f & ? & ? & _). eauto.
Qed.
Next Obligation.
  intros p free Hp. simpl in *. rewrite swc_run.
  pose proof (capacity_loop_inv (tie p) free (mf_num p) 0 (None, 0) (best_inv_start free)) as H.
  destruct (capacity_loop _ _ _ _ _) as [[o bf]|e]; simpl; [|done].
  intros ? i f Hi Hf; simplify_eq. destruct H as (_ & Hmax & Hz). simpl in *.
  pose proof (Hmax i f Hi Hf). lia.
Qed.
End MaxFreeSlotsFirst.

(** ** Dynamic choice of the policy: [create_dispatch_policy] *)
Inductive AnyPolicy :=
  | RR (p : RoundRobin.t)
  | MF (p : MaxFreeSlotsFirst.t).

(** [create_dispatch_policy(name, num_instances)]; [MaxFreeSlotsFirst] takes its
    default [max_slots_per_instance = 1]. *)
Definition create_dispatch_policy (name : string) (n : Z) : res AnyPolicy :=
  if bool_decide (name = "round_robin"%string) then
    p ← RoundRobin.init n; mret (RR p)
  else if bool_decide (name = "max_free_slots"%string) then
    p ← MaxFreeSlotsFirst.init n 1; mret (MF p)
  else Raise ValueError.

(** Run a method of the wrapped policy on the wrapper's state. *)
Definition any_run {A} (fr : M RoundRobin.t A) (fm : M MaxFreeSlotsFirst.t A) : M AnyPolicy A :=
  λ p, match p with
       | RR p => (λ r, (r.1, RR r.2)) (fr p)
       | MF p => (λ r, (r.1, MF r.2)) (fm p)
       end.

#[global] Instance AnyPolicy_policy : DispatchPolicy AnyPolicy := {|
  num_instances p := match p with RR p => num_instances p | MF p => num_instances p end;
  select c := any_run (select c) (select c);
  select_with_capacity f := any_run (select_with_capacity f) (select_with_capacity f);
|}.

Definition any_wf (p : AnyPolicy) : Prop :=
  match p with RR p => policy_wf p | MF p => policy_wf p end.

#[global] Program Instance AnyPolicy_capacity : CapacityAware AnyPolicy := {|
  policy_wf := any_wf
|}.
Next Obligation.
  intros [p|p] free Hp Hlen;
    [apply (swc_total (P:=RoundRobin.t))|apply (swc_total (P:=MaxFreeSlotsFirst.t))]; done.
Qed.
Next Obligation.
  intros [p|p] free Hp;
    [apply (swc_wf (P:=RoundRobin.t))|apply (swc_wf (P:=MaxFreeSlotsFirst.t))]; done.
Qed.
Next Obligation.
  intros [p|p] free;
    [apply (swc_num (P:=RoundRobin.t))|apply (swc_num (P:=MaxFreeSlotsFirst.t))]; done.
Qed.
Next Obligation.
  intros [p|p] free i Hp H;
    [apply (swc_sound (P:=RoundRobin.t) p)|apply (swc_sound (P:=MaxFreeSlotsFirst.t) p)]; done.
Qed.
Next Obligation.
  intros [p|p] free Hp H;
    [apply (swc_complete (P:=RoundRobin.t) p)|apply (swc_complete (P:=MaxFreeSlotsFirst.t) p)];
    done.
Qed.

Lemma create_dispatch_policy_wf name n p :
  create_dispatch_policy name n = Ok p → policy_wf p ∧ Z.of_nat (num_instances p) = n.
Proof.
  unfold create_dispatch_policy. repeat case_bool_decide; simpl; [..|done].
  - destruct (RoundRobin.init n) eqn:E; simpl; [|done]. intros [= <-].
    by apply RoundRobin.rr_init_wf.
  - destruct (MaxFreeSlotsFirst.init n 1) eqn:E; simpl; [|done]. intros [= <-].
    by eapply MaxFreeSlotsFirst.mf_init_wf.
Qed.

(** ** The three pools *)
Record PoolDispatcher := mk_dispatcher {
  encoder_policy : AnyPolicy;
  denoiser_policy : AnyPolicy;
  decoder_policy : AnyPolicy;
}.

Definition create_pool_dispatcher (num_encoders num_denoisers num_decoders : Z)
    (policy_name : string) : res PoolDispatcher :=
  e ← create_dispatch_policy policy_name num_encoders;
  n ← create_dispatch_policy policy_name num_denoisers;
  d ← create_dispatch_policy policy_name num_decoders;
  mret (mk_dispatcher e n d).

Definition select_encoder_with_capacity (free : list Z) : M PoolDispatcher (option nat) :=
  λ d, let r := select_with_capacity free (encoder_policy d) in
       (r.1, mk_dispatcher r.2 (denoiser_policy d) (decoder_policy d)).
Definition select_denoiser_with_capacity (free : list Z) : M PoolDispatcher (option nat) :=
  λ d, let r := select_with_capacity free (denoiser_policy d) in
       (r.1, mk_dispatcher (encoder_policy d) r.2 (decoder_policy d)).
Definition select_decoder_with_capacity (free : list Z) : M PoolDispatcher (option nat) :=
  λ d, let r := select_with_capacity free (decoder_policy d) in
       (r.1, mk_dispatcher (encoder_policy d) (denoiser_policy d) r.2).

Definition select_encoder (counts : option (list Z)) : M PoolDispatcher nat :=
  λ d, let r := select counts (encoder_policy d) in
       (r.1, mk_dispatcher r.2 (denoiser_policy d) (decoder_policy d)).
Definition select_denoiser (counts : option (list Z)) : M PoolDispatcher nat :=
  λ d, let r := select counts (denoiser_policy d) in
       (r.1, mk_dispatcher (encoder_policy d) r.2 (decoder_policy d)).
Definition select_decoder (counts : option (list Z)) : M PoolDispatcher nat :=
  λ d, let r := select counts (decoder_policy d) in
       (r.1, mk_dispatcher (encoder_policy d) (denoiser_policy d) r.2).

(** The three policies are well formed and sized to the three pools. *)
Definition dispatcher_wf (ne nn nd : nat) (d : PoolDispatcher) : Prop :=
  (policy_wf (encoder_policy d) ∧ num_instances (encoder_policy d) = ne) ∧
  (policy_wf (denoiser_policy d) ∧ num_instances (denoiser_policy d) = nn) ∧
  (policy_wf (decoder_policy d) ∧ num_instances (decoder_policy d) = nd).

Lemma create_pool_dispatcher_wf ne nn nd name d :
  create_pool_dispatcher ne nn nd name = Ok d →
  dispatcher_wf (Z.to_nat ne) (Z.to_nat nn) (Z.to_nat nd) d.
Proof.
  unfold create_pool_dispatcher.
  destruct (create_dispatch_policy name ne) as [e|] eqn:He; simpl; [|done].
  destruct (create_dispatch_policy name nn) as [n|] eqn:Hn; simpl; [|done].
  destruct (create_dispatch_policy name nd) as [c|] eqn:Hc; simpl; [|done].
  intros [= <-].
  apply create_dispatch_policy_wf in He as [? <-], Hn as [? <-], Hc as [? <-].
  rewrite !Nat2Z.id. by split_and!.
Qed.
