(* ===== verification/Codec.v ===== *)
(** * The tensor codec

    Models [disaggregation/transport/codec.py]: dtype names, tensor descriptors,
    packing of tensor and scalar fields into message frames, and unpacking.

    A tensor is its shape, its dtype and the bytes of its contiguous storage; a
    frame is a string of bytes. Of PyTorch, the code uses [numel], [element_size],
    [frombuffer] and [reshape], whose documented conditions are written out in
    [frombuffer_reshape]. *)

From S2P Require Import Prelude PyJson.
Local Open Scope string_scope.
Local Open Scope Z_scope.

(** The dtypes of the table, and any other one with its printed name and size. *)
Inductive dtype :=
  | float16 | float32 | float64 | bfloat16
  | int8 | int16 | int32 | int64 | uint8 | bool_
  | other_dtype (name : string) (size : Z).

#[global] Instance dtype_eq_dec : EqDecision dtype.
Proof. solve_decision. Defined.

(** [str(dtype).replace("torch.", "")] *)
Definition dtype_name (d : dtype) : string :=
  match d with
  | float16 => "float16" | float32 => "float32" | float64 => "float64"
  | bfloat16 => "bfloat16" | int8 => "int8" | int16 => "int16" | int32 => "int32"
  | int64 => "int64" | uint8 => "uint8" | bool_ => "bool"
  | other_dtype n _ => n
  end.

Definition element_size (d : dtype) : Z :=
  match d with
  | float16 | bfloat16 | int16 => 2
  | float32 | int32 => 4
  | float64 | int64 => 8
  | int8 | uint8 | bool_ => 1
  | other_dtype _ n => n
  end.

Definition supported_dtypes : list dtype :=
  [float16; float32; float64; bfloat16; int8; int16; int32; int64; uint8; bool_].

(** [_DTYPE_TO_STR] and its inverse. *)
Definition DTYPE_TO_STR : list (dtype * string) := (λ d, (d, dtype_name d)) <$> supported_dtypes.

Definition dtype_to_str (d : dtype) : res string :=
  match filter (λ p, p.1 = d) DTYPE_TO_STR with
  | p :: _ => Ok p.2
  | [] => Raise ValueError
  end.

Definition str_to_dtype (s : string) : res dtype :=
  match filter (λ p, p.2 = s) DTYPE_TO_STR with
  | p :: _ => Ok p.1
  | [] => Raise ValueError
  end.

Record tensor := mk_tensor {
  t_shape : list Z;
  t_dtype : dtype;
  t_data : string;
}.

#[global] Instance tensor_eq_dec : EqDecision tensor.
Proof. solve_decision. Defined.

Definition numel (shape : list Z) : Z := foldr Z.mul 1 shape.

(** [t.numel() * t.element_size()] *)
Definition nbytes (t : tensor) : Z := numel (t_shape t) * element_size (t_dtype t).

(** What every PyTorch tensor satisfies: non-negative dimensions and a storage of
    the size its shape and dtype say. *)
Definition tensor_wf (t : tensor) : Prop :=
  Forall (λ n, 0 ≤ n) (t_shape t) ∧ 0 < element_size (t_dtype t) ∧
  Z.of_nat (String.length (t_data t)) = nbytes t.

(** A value of [tensor_fields]: a tensor, a list (whose items may be tensors, [None]
    or anything else), [None], or another object. *)
Inductive item := INone | ITensor (t : tensor) | IOther.
Inductive field := FNone | FTensor (t : tensor) | FList (l : list item) | FOther.

Record TensorDescriptor := mk_desc {
  field_name : string;
  shape : list Z;
  desc_dtype : string;
  list_index : Z;
}.

Definition to_dict (d : TensorDescriptor) : Json :=
  JObj [("field_name", JStr (field_name d)); ("shape", JList (JInt <$> shape d));
        ("dtype", JStr (desc_dtype d)); ("list_index", JInt (list_index d))].

(** [mapM] in the error monad, for the loops over JSON lists. *)
Fixpoint res_mapM {A B} (f : A → res B) (l : list A) : res (list B) :=
  match l with
  | [] => Ok []
  | x :: l => y ← f x; ys ← res_mapM f l; Ok (y :: ys)
  end.

(** A dict about to be subscripted. *)
Definition subscriptable (j : Json) : res (dict Json) :=
  match j with JObj d => Ok d | _ => Raise TypeError end.

Definition from_dict (j : Json) : res TensorDescriptor :=
  d ← subscriptable j;
  n ← req_str d "field_name";
  s ← match dget "shape" d with
      | None => Raise KeyError
      | Some (JList l) => res_mapM as_int l
      | Some _ => Raise TypeError
      end;
  t ← req_str d "dtype";
  i ← get_int d "list_index" (-1);
  Ok (mk_desc n s t i).

(** ** Packing *)

(** The descriptor and buffer of one tensor; [TensorWrapper] copies nothing but
    makes the storage contiguous. *)
Definition pack_one (name : string) (i : Z) (t : tensor) : res (TensorDescriptor * string) :=
  s ← dtype_to_str (t_dtype t);
  Ok (mk_desc name (t_shape t) s i, t_data t).

Fixpoint pack_items (name : string) (i : Z) (l : list item) :
    res (list (TensorDescriptor * string)) :=
  match l with
  | [] => Ok []
  | INone :: l => pack_items name (i + 1) l
  | IOther :: _ => Raise TypeError
  | ITensor t :: l =>
      p ← pack_one name i t; ps ← pack_items name (i + 1) l; Ok (p :: ps)
  end.

Definition pack_field (name : string) (v : field) : res (list (TensorDescriptor * string)) :=
  match v with
  | FNone | FOther => Ok []
  | FTensor t => p ← pack_one name (-1) t; Ok [p]
  | FList l => pack_items name 0 l
  end.

Fixpoint pack_fields (fs : dict field) : res (list (TensorDescriptor * string)) :=
  match fs with
  | [] => Ok []
  | (n, v) :: fs => p ← pack_field n v; ps ← pack_fields fs; Ok ((p ++ ps)%list)
  end.

Definition metadata_json (ds : list TensorDescriptor) (scalars : dict Json) : Json :=
  JObj [("tensor_descriptors", JList (to_dict <$> ds)); ("scalar_fields", JObj scalars)].

Definition pack_tensors (tensor_fields : dict field) (scalar_fields : dict Json) :
    res (string * list string) :=
  ps ← pack_fields tensor_fields;
  Ok (json_dumps (metadata_json ps.*1 scalar_fields), ps.*2).

(** [send_tensors] hands these frames to [send_multipart]. *)
Definition send_tensors_frames (tensor_fields : dict field) (scalar_fields : dict Json) :
    res (list string) :=
  '(m, bufs) ← pack_tensors tensor_fields scalar_fields; Ok (m :: bufs).

(** ** Unpacking *)

(** [x.reshape(sh)] for a tensor of [n] elements: the shape it gets, with one [-1]
    dimension inferred from the others. *)
Definition reshape (n : Z) (sh : list Z) : res (list Z) :=
  let known := filter (λ d, d ≠ -1) sh in
  if negb (bool_decide (Forall (λ d, 0 ≤ d) known)) then Raise RuntimeError
  else
    match length sh - length known with
    | 0 => if numel sh =? n then Ok sh else Raise RuntimeError
    | 1 => if (0 <? numel known) && (n mod numel known =? 0)
           then Ok ((λ d, if d =? -1 then n / numel known else d) <$> sh)
           else Raise RuntimeError
    | _ => Raise RuntimeError
    end.

(** [torch.frombuffer(buf, dtype=dtype).reshape(shape).clone()]: the buffer must be
    non-empty and a whole number of elements, the shape must have that many. *)
Definition frombuffer_reshape (buf : string) (dt : dtype) (sh : list Z) : res tensor :=
  let len := Z.of_nat (String.length buf) in
  if bool_decide (len = 0) then Raise ValueError
  else if negb (Z.eqb (len mod element_size dt) 0) then Raise ValueError
  else sh' ← reshape (len / element_size dt) sh; Ok (mk_tensor sh' dt buf).

(** The first pass: the length of each list field. *)
Definition list_sizes (ds : list TensorDescriptor) : dict Z :=
  foldl (λ acc d,
           if Z.leb 0 (list_index d)
           then dset (field_name d) (Z.max (default 0 (dget (field_name d) acc)) (list_index d + 1)) acc
           else acc) [] ds.

(** [tensor_fields[name][i] = t] *)
Definition set_item (fs : dict field) (name : string) (i : Z) (t : tensor) : res (dict field) :=
  match dget name fs with
  | Some (FList l) =>
      match l !! Z.to_nat i with
      | Some _ => Ok (dset name (FList (<[Z.to_nat i := ITensor t]> l)) fs)
      | None => Raise IndexError
      end
  | Some _ => Raise TypeError
  | None => Raise KeyError
  end.

Fixpoint unpack_loop (ds : list TensorDescriptor) (frames : list string) (fs : dict field) :
    res (dict field) :=
  match ds, frames with
  | d :: ds, buf :: frames =>
      dt ← str_to_dtype (desc_dtype d);
      t ← frombuffer_reshape buf dt (shape d);
      fs ← if Z.leb 0 (list_index d)
           then set_item fs (field_name d) (list_index d) t
           else Ok (dset (field_name d) (FTensor t) fs);
      unpack_loop ds frames fs
  | _, _ => Ok fs
  end.

(** [metadata[...]]: subscripting what is not a dict raises [TypeError]. The scalar
    fields are returned as decoded, whatever JSON value they are. *)
Definition unpack_tensors (parts : list string) : res (dict field * Json) :=
  match parts with
  | [] => Raise IndexError
  | meta :: frames =>
      j ← json_loads meta;
      d ← subscriptable j;
      ds ← match dget "tensor_descriptors" d with
           | None => Raise KeyError
           | Some (JList l) => res_mapM from_dict l
           | Some (JObj []) | Some (JStr "") => Ok []
           | Some _ => Raise TypeError
           end;
      let scalars := default (JObj []) (dget "scalar_fields" d) in
      if negb (bool_decide (length frames = length ds)) then Raise ValueError
      else
        fs ← unpack_loop ds frames
               ((λ p, (p.1, FList (replicate (Z.to_nat p.2) INone))) <$> list_sizes ds);
        Ok (fs, scalars)
  end.
