(* ===== verification/CodecFacts.v ===== *)
(** * The tensor codec round trip

    What [unpack_tensors] recovers from the frames [pack_tensors] makes. *)

From S2P Require Import Prelude PyJson Codec.
Local Open Scope string_scope.
Local Open Scope Z_scope.

(** ** Dtypes and descriptors *)

Lemma dtype_to_str_Ok d s : dtype_to_str d = Ok s → str_to_dtype s = Ok d.
Proof.
  destruct d; intros H; first [by injection H as <- | done].
Qed.

Lemma res_mapM_map {A B C} (f : B → res C) (g : A → B) (h : A → C) l :
  (∀ x, f (g x) = Ok (h x)) → res_mapM f (g <$> l) = Ok (h <$> l).
Proof.
  intros H. induction l as [|x l IH]; [done|].
  rewrite !fmap_cons. cbn [res_mapM]. by rewrite H, IH.
Qed.

Lemma from_to_dict d : from_dict (to_dict d) = Ok d.
Proof.
  destruct d as [n s t i]. unfold from_dict, to_dict. simpl.
  rewrite (res_mapM_map as_int JInt id) by done. simpl. by rewrite list_fmap_id.
Qed.

Lemma reshape_id sh : Forall (λ n, 0 ≤ n) sh → reshape (numel sh) sh = Ok sh.
Proof.
  intros Hsh. unfold reshape.
  rewrite filter_all by (eapply Forall_impl; [exact Hsh|simpl; lia]).
  rewrite bool_decide_true by done. by rewrite Z.sub_diag, Z.eqb_refl.
Qed.

(** Any tensor with at least one byte survives its buffer. *)
Lemma frombuffer_wf t :
  tensor_wf t → 0 < nbytes t → frombuffer_reshape (t_data t) (t_dtype t) (t_shape t) = Ok t.
Proof.
  intros (Hsh & Hel & Hlen) Hpos. unfold frombuffer_reshape. rewrite Hlen.
  rewrite bool_decide_false by lia. unfold nbytes. rewrite Z_mod_mult, Z_div_mult by lia. simpl.
  rewrite reshape_id by done. by destruct t.
Qed.

(** ** Lists with trailing [None]s *)

(** The list without its trailing [None]s. *)
Fixpoint trim (l : list item) : list item :=
  match l with
  | [] => []
  | x :: l =>
      match x, trim l with
      | INone, [] => []
      | _, l' => x :: l'
      end
  end.

(** What arrives for a field; [None] when nothing of it is sent. *)
Definition received (v : field) : option field :=
  match v with
  | FTensor t => Some (FTensor t)
  | FList l => match trim l with [] => None | l' => Some (FList l') end
  | FNone | FOther => None
  end.

(** The tensors of a field are well formed and have data. *)
Definition item_sendable (x : item) : Prop :=
  match x with ITensor t => tensor_wf t ∧ 0 < nbytes t | _ => True end.
Definition field_sendable (v : field) : Prop :=
  match v with
  | FTensor t => tensor_wf t ∧ 0 < nbytes t
  | FList l => Forall item_sendable l
  | _ => True
  end.

Lemma trim_nil_pack name i l ps : trim l = [] → pack_items name i l = Ok ps → ps = [].
Proof.
  revert i ps. induction l as [|x l IH]; intros i ps Ht Hp; simplify_eq/=; [done|].
  destruct x; try done; destruct (trim l) eqn:?; simplify_eq. eauto.
Qed.

(** ** One tensor *)

Lemma pack_one_Ok name i t p :
  pack_one name i t = Ok p →
  ∃ s, dtype_to_str (t_dtype t) = Ok s ∧ p = (mk_desc name (t_shape t) s i, t_data t).
Proof. unfold pack_one. destruct (dtype_to_str _) as [s|]; intros; simplify_eq/=; eauto. Qed.

Lemma unpack_loop_one name i t p ps fs :
  pack_one name i t = Ok p → tensor_wf t → 0 < nbytes t →
  unpack_loop (p :: ps).*1 (p :: ps).*2 fs =
    (fs ← (if Z.leb 0 i then set_item fs name i t else Ok (dset name (FTensor t) fs));
     unpack_loop ps.*1 ps.*2 fs).
Proof.
  intros (s & Hs & ->)%pack_one_Ok Hwf Hpos. simpl.
  rewrite (dtype_to_str_Ok _ _ Hs). simpl. by rewrite frombuffer_wf.
Qed.

Lemma unpack_loop_app ps1 ps2 fs :
  unpack_loop (ps1 ++ ps2)%list.*1 (ps1 ++ ps2)%list.*2 fs =
    (fs ← unpack_loop ps1.*1 ps1.*2 fs; unpack_loop ps2.*1 ps2.*2 fs).
Proof.
  revert fs. induction ps1 as [|[d b] ps1 IH]; intros fs; [done|]. simpl.
  destruct (str_to_dtype (desc_dtype d)); simpl; [|done].
  destruct (frombuffer_reshape b _ _); simpl; [|done].
  destruct (if Z.leb 0 (list_index d) then _ else _); simpl; [apply IH|done].
Qed.

(** ** One list field *)

Lemma set_item_at fs name pre x suf i t :
  dget name fs = Some (FList (pre ++ x :: suf)%list) → i = Z.of_nat (length pre) →
  set_item fs name i t = Ok (dset name (FList (pre ++ ITensor t :: suf)%list) fs).
Proof.
  intros Hg ->. unfold set_item. rewrite Hg, Nat2Z.id, list_lookup_middle by done.
  do 3 f_equal. replace (length pre) with (length pre + 0)%nat by lia. by rewrite insert_app_r.
Qed.

(** From slots filled with [None] the items are put back in place. *)
Lemma unpack_items name l pre i ps fs :
  pack_items name i l = Ok ps → Forall item_sendable l → i = Z.of_nat (length pre) →
  dget name fs = Some (FList (pre ++ replicate (length (trim l)) INone)%list) →
  ∃ fs', unpack_loop ps.*1 ps.*2 fs = Ok fs' ∧
    dget name fs' = Some (FList (pre ++ trim l)%list) ∧
    ∀ k, k ≠ name → dget k fs' = dget k fs.
Proof.
  revert pre i ps fs. induction l as [|x l IH]; intros pre i ps fs Hp Hs Hi Hg.
  { simplify_eq/=. by exists fs. }
  apply Forall_cons in Hs as [Hx Hs]. destruct x as [|t|]; simpl in Hp; [| |done].
  - destruct (trim l) as [|y l'] eqn:Ht; simpl in *; rewrite Ht in *.
    { apply trim_nil_pack in Hp as ->; [|done]. by exists fs. }
    edestruct (IH (pre ++ [INone])%list) as (fs' & H1 & H2 & H3); [exact Hp|done| | |].
    + rewrite length_app. simpl. lia.
    + rewrite <-app_assoc. exact Hg.
    + exists fs'. split_and!; [done| |done]. by rewrite <-app_assoc in H2.
  - destruct (pack_one name i t) as [p|] eqn:Hone; simpl in Hp; [|done].
    destruct (pack_items name (i + 1) l) as [ps'|] eqn:Hps; [|done].
    injection Hp as <-. destruct Hx as [Hwf Hpos].
    rewrite (unpack_loop_one _ _ _ _ ps' fs Hone Hwf Hpos). subst i. rewrite (proj2 (Z.leb_le 0 _)) by lia.
    erewrite set_item_at by (exact Hg || done). cbn [mbind res_bind].
    edestruct (IH (pre ++ [ITensor t])%list) as (fs' & H1 & H2 & H3); [exact Hps|done| | |].
    + rewrite length_app. simpl. lia.
    + rewrite dget_dset_eq, <-app_assoc. done.
    + exists fs'. split_and!; [done| |].
      * by rewrite <-app_assoc in H2.
      * intros k Hk. rewrite H3 by done. by apply dget_dset_ne.
Qed.

(** ** The first pass *)

(** One descriptor's contribution to [list_sizes]. *)
Definition note_size (acc : dict Z) (d : TensorDescriptor) : dict Z :=
  if Z.leb 0 (list_index d)
  then dset (field_name d) (Z.max (default 0 (dget (field_name d) acc)) (list_index d + 1)) acc
  else acc.

Lemma list_sizes_eq ds : list_sizes ds = foldl note_size [] ds.
Proof. done. Qed.

Lemma note_sizes_items name l i ps acc :
  pack_items name i l = Ok ps → 0 ≤ i → default 0 (dget name acc) ≤ i →
  (∀ k, k ≠ name → dget k (foldl note_size acc ps.*1) = dget k acc) ∧
  dget name (foldl note_size acc ps.*1) =
    match trim l with [] => dget name acc | l' => Some (i + length l') end.
Proof.
  revert i ps acc. induction l as [|x l IH]; intros i ps acc Hp Hi Hle; simpl in Hp.
  { by simplify_eq/=. }
  destruct x as [|t|]; [| |done].
  - destruct (IH (i + 1) ps acc Hp) as [H1 H2]; [lia..|]. split; [done|]. rewrite H2. simpl.
    destruct (trim l); [done|]. f_equal. simpl. lia.
  - destruct (pack_one name i t) as [p|] eqn:Hone; simpl in Hp; [|done].
    destruct (pack_items name (i + 1) l) as [ps'|] eqn:Hps; [|done]. injection Hp as <-.
    apply pack_one_Ok in Hone as (s & _ & ->). rewrite fmap_cons. cbn [foldl].
    unfold note_size at 2 4. simpl. rewrite (proj2 (Z.leb_le 0 i)) by done. rewrite Z.max_r by lia.
    destruct (IH (i + 1) ps' (dset name (i + 1) acc) Hps) as [H1 H2]; [lia| |].
    + rewrite dget_dset_eq. simpl. lia.
    + split.
      * intros k Hk. rewrite H1 by done. by apply dget_dset_ne.
      * rewrite H2. simpl. destruct (trim l); simpl; [rewrite dget_dset_eq|]; f_equal; lia.
Qed.

(** The size recorded for a field. *)
Definition size_of (v : field) : option Z :=
  match v with
  | FList l => match trim l with [] => None | l' => Some (Z.of_nat (length l')) end
  | _ => None
  end.

Lemma note_sizes_field name v ps acc :
  pack_field name v = Ok ps → dget name acc = None →
  (∀ k, k ≠ name → dget k (foldl note_size acc ps.*1) = dget k acc) ∧
  dget name (foldl note_size acc ps.*1) = size_of v.
Proof.
  intros Hp Hacc. destruct v as [|t|l|]; simplify_eq/=; try done.
  - destruct (pack_one name (-1) t) as [p|] eqn:Hone; simplify_eq/=.
    by apply pack_one_Ok in Hone as (s & _ & ->).
  - destruct (note_sizes_items name l 0 ps acc Hp) as [H1 H2]; [done|by rewrite Hacc|].
    split; [done|]. rewrite H2. by destruct (trim l).
Qed.

Lemma note_sizes_fields fs ps acc :
  pack_fields fs = Ok ps → NoDup (dkeys fs) → (∀ k, k ∈ dkeys fs → dget k acc = None) →
  ∀ k, dget k (foldl note_size acc ps.*1) =
       match dget k fs with Some v => size_of v | None => dget k acc end.
Proof.
  revert ps acc. induction fs as [|[n v] fs IH]; intros ps acc Hp Hnd Hacc k; simplify_eq/=; [done|].
  destruct (pack_field n v) as [p1|] eqn:H1; simplify_eq/=.
  destruct (pack_fields fs) as [p2|] eqn:H2; simplify_eq/=.
  apply NoDup_cons in Hnd as [Hn Hnd].
  destruct (note_sizes_field n v p1 acc H1) as [Ho Hm]; [apply Hacc; left|].
  rewrite fmap_app, foldl_app. rewrite (IH p2 _ eq_refl Hnd).
  - destruct (decide (k = n)) as [->|Hne].
    + apply dget_None in Hn. by rewrite Hn, Hm.
    + by rewrite Ho.
  - intros k' Hk'. rewrite Ho by (intros ->; done). apply Hacc. by right.
Qed.

(** ** All fields *)

Lemma unpack_fields fs ps st :
  pack_fields fs = Ok ps → NoDup (dkeys fs) → Forall (λ p, field_sendable p.2) fs →
  (∀ k v n, dget k fs = Some v → size_of v = Some n →
    dget k st = Some (FList (replicate (Z.to_nat n) INone))) →
  ∃ st', unpack_loop ps.*1 ps.*2 st = Ok st' ∧
    ∀ k, dget k st' = match dget k fs ≫= received with Some v => Some v | None => dget k st end.
Proof.
  revert ps st. induction fs as [|[n v] fs IH]; intros ps st Hp Hnd Hs Hst; simpl in Hp.
  { simplify_eq. by exists st. }
  destruct (pack_field n v) as [p1|] eqn:H1; [|done]. simpl in Hp.
  destruct (pack_fields fs) as [p2|] eqn:H2; [|done]. injection Hp as <-.
  apply NoDup_cons in Hnd as [Hn Hnd]. apply Forall_cons in Hs as [Hv Hs]. simpl in Hv, Hn.
  assert (∃ st1, unpack_loop p1.*1 p1.*2 st = Ok st1 ∧
    dget n st1 = (match received v with Some w => Some w | None => dget n st end) ∧
    ∀ k, k ≠ n → dget k st1 = dget k st) as (st1 & Hr1 & Hg1 & Ho1).
  { destruct v as [|t|l|]; simpl in H1; simplify_eq; try by exists st.
    - destruct (pack_one n (-1) t) as [p|] eqn:Hone; [|done]. injection H1 as <-.
      destruct Hv as [Hwf Hpos]. rewrite (unpack_loop_one _ _ _ _ [] st Hone Hwf Hpos).
      eexists. split; [done|]. split; [apply dget_dset_eq|]. intros. by apply dget_dset_ne.
    - specialize (Hst n (FList l)). simpl in *. rewrite decide_True in Hst by done.
      destruct (trim l) as [|y l'] eqn:Ht.
      { apply trim_nil_pack in H1 as ->; [|done]. by exists st. }
      specialize (Hst _ eq_refl eq_refl). rewrite Nat2Z.id in Hst.
      destruct (unpack_items n l [] 0 p1 st H1) as (st1 & Ha & Hb & Hc); [done..|by rewrite Ht|].
      exists st1. split_and!; [done| |done]. by rewrite Hb, Ht. }
  destruct (IH p2 st1 eq_refl Hnd Hs) as (st' & Hr & Hg).
  { intros k w m Hk Hm. assert (k ≠ n) as Hne.
    { intros ->. apply Hn. apply dget_is_Some. eauto. }
    rewrite Ho1 by done. eapply Hst; [|done]. simpl. by rewrite decide_False. }
  exists st'. rewrite unpack_loop_app, Hr1. split; [done|]. intros k. rewrite Hg. simpl.
  case_decide as Hk; subst; simpl.
  - apply dget_None in Hn. by rewrite Hn.
  - by rewrite Ho1.
Qed.

Lemma metadata_wf ds sc : json_wf (JObj sc) → json_wf (metadata_json ds sc).
Proof.
  intros Hsc. split; [by apply (bool_decide_unpack _)|].
  cbn [foldr snd]. split_and!; [|done..]. cbn [json_wf].
  induction ds as [|d ds IH]; [done|]. rewrite fmap_cons. cbn [foldr]. split; [|done].
  split; [by apply (bool_decide_unpack _)|]. simpl. split_and!; try done.
  induction (shape d); simpl; by split_and?.
Qed.

Lemma unpack_pack fs sc m bufs :
  pack_tensors fs sc = Ok (m, bufs) → NoDup (dkeys fs) →
  Forall (λ p, field_sendable p.2) fs → json_wf (JObj sc) →
  ∃ fs', unpack_tensors (m :: bufs) = Ok (fs', JObj sc) ∧
    ∀ k, dget k fs' = dget k fs ≫= received.
Proof.
  unfold pack_tensors. intros Hp Hnd Hs Hsc.
  destruct (pack_fields fs) as [ps|] eqn:Hps; [|done]. cbn [mbind res_bind] in Hp.
  assert (m = json_dumps (metadata_json ps.*1 sc) ∧ bufs = ps.*2) as [-> ->]
    by (split; congruence).
  set (st := (λ p, (p.1, FList (replicate (Z.to_nat p.2) INone))) <$> list_sizes ps.*1).
  assert (∀ k, dget k st = (λ n, FList (replicate (Z.to_nat n) INone)) <$>
            (dget k fs ≫= size_of)) as Hst.
  { intros k. unfold st. rewrite (dget_fmap (λ n, FList (replicate (Z.to_nat n) INone))).
    rewrite list_sizes_eq, (note_sizes_fields fs ps []) by done. by destruct (dget k fs). }
  destruct (unpack_fields fs ps st Hps Hnd Hs) as (fs' & Hr & Hg).
  { intros k v n Hk Hn. rewrite Hst, Hk. simpl. by rewrite Hn. }
  exists fs'. split.
  - cbv beta iota delta [unpack_tensors]. rewrite json_loads_dumps by by apply metadata_wf.
    cbn [mbind res_bind]. unfold metadata_json. cbn [subscriptable mbind res_bind].
    set (d := [(_, _); _]).
    assert (dget "tensor_descriptors" d = Some (JList (to_dict <$> ps.*1))) as -> by reflexivity.
    assert (dget "scalar_fields" d = Some (JObj sc)) as -> by reflexivity.
    rewrite (res_mapM_map from_dict to_dict id) by apply from_to_dict.
    cbn [mbind res_bind default]. rewrite list_fmap_id, !length_fmap, bool_decide_true by done.
    cbn [negb]. fold st. rewrite Hr. done.
  - intros k. rewrite Hg, Hst. destruct (dget k fs) as [v|]; [|done]. simpl.
    destruct v as [| |l|]; try done. simpl. by destruct (trim l).
Qed.
