(* ===== verification/Protocol.v ===== *)
(** * Transfer protocol messages

    Models [disaggregation/transport/protocol.py]: the message types as JSON
    objects with the dataclasses' fields in declaration order, and the two-frame
    encoding with its discriminator. *)

From S2P Require Import Prelude PyJson.
Local Open Scope string_scope.
Local Open Scope Z_scope.

Definition TRANSFER_MAGIC : string := "__transfer__".

Module TransferMsgType.
Definition STAGED := "transfer_staged".
Definition ALLOCATED := "transfer_allocated".
Definition PUSHED := "transfer_pushed".
Definition DONE := "transfer_done".
Definition ALLOC := "transfer_alloc".
Definition PUSH := "transfer_push".
Definition READY := "transfer_ready".
Definition REGISTER := "transfer_register".
Definition REGISTER_ACK := "transfer_register_ack".
End TransferMsgType.

(** [asdict] of the message dataclasses. *)
Definition TransferStagedMsg (request_id : string) (data_size : Z) (manifest : dict Json)
    (session_id : string) (pool_ptr slot_offset : Z) : dict Json :=
  [("msg_type", JStr TransferMsgType.STAGED); ("request_id", JStr request_id);
   ("data_size", JInt data_size); ("manifest", JObj manifest);
   ("session_id", JStr session_id); ("pool_ptr", JInt pool_ptr);
   ("slot_offset", JInt slot_offset)].

Definition TransferAllocMsg (request_id : string) (data_size : Z) (source_role : string) :
    dict Json :=
  [("msg_type", JStr TransferMsgType.ALLOC); ("request_id", JStr request_id);
   ("data_size", JInt data_size); ("source_role", JStr source_role)].

Definition TransferAllocatedMsg (request_id session_id : string)
    (pool_ptr slot_offset slot_size : Z) : dict Json :=
  [("msg_type", JStr TransferMsgType.ALLOCATED); ("request_id", JStr request_id);
   ("session_id", JStr session_id); ("pool_ptr", JInt pool_ptr);
   ("slot_offset", JInt slot_offset); ("slot_size", JInt slot_size)].

Definition TransferPushMsg (request_id dest_session_id : string) (dest_addr transfer_size : Z) :
    dict Json :=
  [("msg_type", JStr TransferMsgType.PUSH); ("request_id", JStr request_id);
   ("dest_session_id", JStr dest_session_id); ("dest_addr", JInt dest_addr);
   ("transfer_size", JInt transfer_size)].

Definition TransferPushedMsg (request_id : string) : dict Json :=
  [("msg_type", JStr TransferMsgType.PUSHED); ("request_id", JStr request_id)].

Definition TransferReadyMsg (request_id : string) (manifest : dict Json) (slot_offset : Z)
    (scalar_fields : dict Json) : dict Json :=
  [("msg_type", JStr TransferMsgType.READY); ("request_id", JStr request_id);
   ("manifest", JObj manifest); ("slot_offset", JInt slot_offset);
   ("scalar_fields", JObj scalar_fields)].

Definition TransferDoneMsg (request_id : string) (error : option string) : dict Json :=
  [("msg_type", JStr TransferMsgType.DONE); ("request_id", JStr request_id);
   ("error", from_option JStr JNull error)].

Definition TransferRegisterMsg (role session_id : string) (pool_ptr pool_size : Z)
    (work_endpoint : string) (preallocated_slots : list (dict Json)) : dict Json :=
  [("msg_type", JStr TransferMsgType.REGISTER); ("role", JStr role);
   ("session_id", JStr session_id); ("pool_ptr", JInt pool_ptr);
   ("pool_size", JInt pool_size); ("work_endpoint", JStr work_endpoint);
   ("preallocated_slots", JList (JObj <$> preallocated_slots))].

(** One entry of [preallocated_slots]. *)
Definition prealloc_slot_info (offset size slot_id addr : Z) : dict Json :=
  [("offset", JInt offset); ("size", JInt size); ("slot_id", JInt slot_id);
   ("addr", JInt addr)].

Definition encode_transfer_msg (msg : dict Json) : list string :=
  [TRANSFER_MAGIC; json_dumps (JObj msg)].

(** The error message formats [frames[0]], so an empty frame list raises
    [IndexError]. *)
Definition decode_transfer_msg (frames : list string) : res Json :=
  match frames with
  | [] => Raise IndexError
  | magic :: payload :: _ =>
      if decide (magic = TRANSFER_MAGIC) then json_loads payload else Raise ValueError
  | [_] => Raise ValueError
  end.

(** The three tests on [frames[0]] compare the same bytes under three buffer types. *)
Definition is_transfer_message (frames : list string) : bool :=
  match frames with
  | magic :: _ :: _ => bool_decide (magic = TRANSFER_MAGIC)
  | _ => false
  end.

(** ** Theorems *)

Lemma encode_is_transfer msg : is_transfer_message (encode_transfer_msg msg) = true.
Proof. done. Qed.

Lemma decode_encode msg :
  json_wf (JObj msg) → decode_transfer_msg (encode_transfer_msg msg) = Ok (JObj msg).
Proof. intros Hwf. unfold decode_transfer_msg, encode_transfer_msg.
  rewrite decide_True by done. by apply json_loads_dumps. Qed.

Lemma decode_needs_magic frames j :
  decode_transfer_msg frames = Ok j → is_transfer_message frames = true.
Proof. destruct frames as [|m [|p fs]]; simpl; try done. by case_decide; case_bool_decide. Qed.
