(* ===== verification/CoreProps.v ===== *)
(** * Properties of the request tracker, the policies and the wire formats

    The theorems on roles, request lifecycle, dispatch policies, protocol messages and
    the tensor codec, each from the lemmas of its component. *)

From S2P Require Import Prelude PyJson Roles RequestState Dispatch Codec CodecFacts Protocol.
Local Open Scope string_scope.
Local Open Scope Z_scope.

(** ** Request lifecycle *)

(** Calls of [transition] on one request, as the orchestrator makes them: a rejected
    one raises [ValueError] and is ignored. The result lists the states entered. *)
Fixpoint run_calls (now : Qc) (rid : string) (calls : list (RequestState * TransitionArgs))
    (t : RequestTracker.t) : list RequestState * RequestTracker.t :=
  match calls with
  | [] => ([], t)
  | (st, a) :: calls =>
      match RequestTracker.transition now rid st a t with
      | (Ok _, t') => let r := run_calls now rid calls t' in (st :: r.1, r.2)
      | (Raise _, t') => run_calls now rid calls t'
      end
  end.

Lemma run_calls_lifecycle now rid calls t r tr :
  dget rid t = Some r → lifecycle tr (state r) →
  ∃ r' tr', dget rid (run_calls now rid calls t).2 = Some r' ∧ lifecycle tr' (state r') ∧
    state r' :: tr' = (rev (run_calls now rid calls t).1 ++ state r :: tr)%list.
Proof.
  revert t r tr. induction calls as [|[st a] calls IH]; intros t r tr Hr Hl; simpl.
  { by exists r, tr. }
  destruct (RequestTrackerFacts.transition_cases now rid st a t) as [E|(r0 & Hr0 & Hal & E)];
    rewrite E; simpl; [by apply IH|]. simplify_eq.
  destruct (IH _ (RequestTracker.apply_transition now st a r) (state r :: tr)
    (dget_dset_eq rid _ t)) as (r' & tr' & H1 & H2 & H3); [by eapply life_step|].
  exists r', tr'. split_and!; [done..|]. rewrite H3. by rewrite <-app_assoc.
Qed.

Lemma lifecycle_NoDup tr s :
  lifecycle tr s → NoDup (s :: tr) ∧ ∀ x, x ∈ tr → (state_rank x < state_rank s)%nat.
Proof.
  induction 1 as [|tr s s' _ [Hnd Hlt] Hal]; [split; [apply NoDup_singleton|set_solver]|].
  apply transition_rank in Hal.
  assert (∀ x, x ∈ s :: tr → (state_rank x < state_rank s')%nat) as H.
  { intros x [->|Hx]%elem_of_cons; [done|]. specialize (Hlt x Hx). lia. }
  split; [|done]. apply NoDup_cons. split; [|done]. intros Hin. specialize (H _ Hin). lia.
Qed.

(** A request's states form a simple forward path: from submission, whatever
    transitions are attempted in whatever order, the tracker keeps the request in the
    state entered last, no state is entered twice, at most nine transitions succeed,
    and a request that is DONE has been through the encoder, the denoiser and the
    decoder (and generally through every state that must precede its own). *)
Theorem tracker_lifecycle now rid calls t r :
  dget rid t = Some r → state r = PENDING →
  let entered := (run_calls now rid calls t).1 in
  ∃ r', dget rid (run_calls now rid calls t).2 = Some r' ∧
    state r' = List.last entered PENDING ∧ NoDup (PENDING :: entered) ∧
    (length entered ≤ 9)%nat ∧
    (∀ x, x ∈ must_visit (state r') → x ∈ PENDING :: entered).
Proof.
  intros Hr Hp entered.
  destruct (run_calls_lifecycle now rid calls t r [] Hr) as (r' & tr & H1 & H2 & H3);
    [rewrite Hp; constructor|]. fold entered in H3. rewrite Hp in H3.
  assert (state r' :: tr = rev (PENDING :: entered)) as H4 by by rewrite H3.
  destruct (lifecycle_NoDup _ _ H2) as [Hnd _].
  exists r'. split_and!; [done| | | |].
  - clear -H4. apply (f_equal (λ l, List.last (rev l) PENDING)) in H4.
    rewrite rev_involutive in H4. cbn [rev] in H4. rewrite last_last in H4.
    rewrite H4. by destruct entered.
  - rewrite H4 in Hnd. apply NoDup_ListNoDup in Hnd. apply NoDup_ListNoDup.
    rewrite <-(rev_involutive (PENDING :: entered)). by apply NoDup_rev.
  - apply (f_equal length) in H4. rewrite length_rev in H4. simpl in H4.
    apply lifecycle_rank in H2. assert (state_rank (state r') ≤ 9)%nat by (destruct (state r'); simpl; lia).
    lia.
  - intros x Hx. apply (lifecycle_visits _ _ H2) in Hx.
    assert (x ∈ state r' :: tr) as Hin by by right. rewrite H4 in Hin.
    apply list_elem_of_In, in_rev, list_elem_of_In in Hin. done.
Qed.

Lemma tracker_lifecycle_witness :
  ∃ r', dget "r" (run_calls (Qc_of_Z 1) "r" [(DONE, no_args); (ENCODER_RUNNING, with_encoder 0)]
          (RequestTracker.submit (Qc_of_Z 0) "r" []).2).2 = Some r' ∧ state r' = ENCODER_RUNNING.
Proof.
  edestruct (tracker_lifecycle (Qc_of_Z 1) "r" [(DONE, no_args); (ENCODER_RUNNING, with_encoder 0)]
    (RequestTracker.submit (Qc_of_Z 0) "r" []).2) as (r' & H1 & H2 & _); [reflexivity..|].
  exists r'. split; [exact H1|]. rewrite H2. reflexivity.
Defined.

(** ** Dispatch policies *)

(** Whichever policy [create_dispatch_policy] builds, [select_with_capacity] on
    the free slots of its pool never raises: it returns an instance of the pool that
    has a free slot, or [None], and [None] only when every instance is full; the
    policy stays well formed for the next call. *)
Theorem dispatch_capacity name n p free :
  create_dispatch_policy name n = Ok p → Z.of_nat (length free) = n →
  let r := select_with_capacity free p in
  match r.1 with
  | Ok (Some i) => ∃ f, free !! i = Some f ∧ 0 < f
  | Ok None => Forall (λ f, f ≤ 0) free
  | Raise _ => False
  end ∧ policy_wf r.2 ∧ num_instances r.2 = length free.
Proof.
  intros [Hwf Hn]%create_dispatch_policy_wf Hlen r.
  assert (num_instances p = length free) as Hnum by lia.
  split_and!; [|by apply swc_wf|unfold r; by rewrite swc_num].
  destruct (swc_total p free Hwf) as [[i|] H]; [done| |]; unfold r; rewrite H; simpl.
  - by apply swc_sound in H as [_ ?].
  - apply Forall_lookup. intros i f Hf.
    eapply swc_complete; [done..| |done]. rewrite Hnum. by apply lookup_lt_Some in Hf.
Qed.

Lemma dispatch_capacity_witness :
  ∃ p, create_dispatch_policy "max_free_slots" 3 = Ok p ∧
    num_instances (select_with_capacity [0; 2; 1] p).2 = 3%nat.
Proof.
  eexists. split; [reflexivity|].
  exact (proj2 (proj2 (dispatch_capacity "max_free_slots" 3 _ [0; 2; 1] eq_refl eq_refl))).
Defined.

(** Round robin is fair: it takes the first instance with a free slot in cyclic
    order from its cursor and leaves the cursor just behind it, skipping only full
    instances; when all are full the cursor is back where it was. *)
Theorem round_robin_cyclic p free :
  RoundRobin.wf p → length free = RoundRobin.rr_num p →
  let n := RoundRobin.rr_num p in
  let probe j := ((RoundRobin.rr_next p + j) mod n)%nat in
  (∃ j f, (j < n)%nat ∧ free !! probe j = Some f ∧ 0 < f ∧
     (∀ j' f', (j' < j)%nat → free !! probe j' = Some f' → f' ≤ 0) ∧
     RoundRobin.select_with_capacity free p =
       (Ok (Some (probe j)), RoundRobin.mk n (probe (S j)))) ∨
  (Forall (λ f, f ≤ 0) free ∧ RoundRobin.select_with_capacity free p = (Ok None, p)).
Proof.
  intros Hwf Hlen n probe.
  destruct (RoundRobin.scan_spec n free p Hwf Hlen) as [H|[Hall Hrun]]; [by left|right].
  split.
  - apply Forall_lookup. intros i f Hf.
    destruct (RoundRobin.probe_cover p i Hwf) as (j & Hj & <-); [|by eapply Hall].
    rewrite <-Hlen. by apply lookup_lt_Some in Hf.
  - unfold RoundRobin.select_with_capacity. etrans; [exact Hrun|]. f_equal.
    unfold RoundRobin.wf in Hwf. destruct p as [m k]. simpl in *. f_equal.
    unfold n, RoundRobin.probe. simpl. replace (k + m)%nat with (k + 1 * m)%nat by lia.
    rewrite Nat.Div0.mod_add. by apply Nat.mod_small.
Qed.

Lemma round_robin_cyclic_witness :
  RoundRobin.select_with_capacity [1; 0; 0] (RoundRobin.mk 3 1) =
    (Ok (Some 0%nat), RoundRobin.mk 3 1).
Proof.
  destruct (round_robin_cyclic (RoundRobin.mk 3 1) [1; 0; 0])
    as [(j & f & Hj & Hf & Hpos & Hmin & H)|[H _]];
    [unfold RoundRobin.wf; simpl; lia|reflexivity| |].
  - vm_compute. reflexivity.
  - apply (Forall_lookup_1 _ _ 0%nat 1) in H; [simpl in H; lia|done].
Defined.

(** The most-free-slots policy returns an instance with at least as many free
    slots as every other one, or [None] exactly when no instance has a free slot. *)
Theorem max_free_slots_maximal p free :
  (0 < MaxFreeSlotsFirst.mf_num p)%nat → length free = MaxFreeSlotsFirst.mf_num p →
  match (MaxFreeSlotsFirst.select_with_capacity free p).1 with
  | Ok (Some i) => ∃ f, free !! i = Some f ∧ 0 < f ∧ Forall (λ g, g ≤ f) free
  | Ok None => Forall (λ g, g ≤ 0) free
  | Raise _ => False
  end.
Proof.
  intros Hwf Hlen.
  destruct (swc_total (P:=MaxFreeSlotsFirst.t) p free) as [o Ho]; [done..|]. simpl in Ho.
  rewrite Ho. destruct o as [i|].
  - apply MaxFreeSlotsFirst.swc_max in Ho as (Hi & f & Hf & Hpos & Hmax).
    exists f. split_and!; [done..|]. apply Forall_lookup. intros j g Hg. eapply Hmax; [|done].
    rewrite <-Hlen. by apply lookup_lt_Some in Hg.
  - apply Forall_lookup. intros j g Hg.
    apply (swc_complete (P:=MaxFreeSlotsFirst.t) p free) with (i := j); [done|done| |done].
    simpl. rewrite <-Hlen. by apply lookup_lt_Some in Hg.
Qed.

Lemma max_free_slots_maximal_witness :
  match (MaxFreeSlotsFirst.select_with_capacity [1; 3; 2] (MaxFreeSlotsFirst.mk 3 1 0)).1 with
  | Ok (Some i) => ∃ f, [1; 3; 2] !! i = Some f ∧ 0 < f ∧ Forall (λ g, g ≤ f) [1; 3; 2]
  | Ok None => Forall (λ g, g ≤ 0) [1; 3; 2]
  | Raise _ => False
  end.
Proof.
  apply (max_free_slots_maximal (MaxFreeSlotsFirst.mk 3 1 0) [1; 3; 2]); [simpl; lia|reflexivity].
Defined.

(** ** Wire formats *)

(** Every protocol message survives the wire: its frames are recognised as a
    transfer message and decode to the message itself, whatever strings, integers and
    nested values it carries (dicts hold a key once). *)
Theorem transfer_msg_roundtrip msg :
  json_wf (JObj msg) →
  is_transfer_message (encode_transfer_msg msg) = true ∧
  decode_transfer_msg (encode_transfer_msg msg) = Ok (JObj msg).
Proof. intros. split; [apply encode_is_transfer|by apply decode_encode]. Qed.

Lemma transfer_msg_roundtrip_witness :
  decode_transfer_msg (encode_transfer_msg (TransferPushMsg "r" "s" 64 (-1))) =
    Ok (JObj (TransferPushMsg "r" "s" 64 (-1))).
Proof.
  apply transfer_msg_roundtrip. split; [by apply (bool_decide_unpack _)|done].
Defined.

(** C35 - What [send_tensors] sends, [unpack_tensors] recovers: the scalar fields
    exactly, and every tensor field with its shape, dtype and bytes; a list field comes
    back with its items in place, less trailing [None]s, and a field without any tensor
    does not come back at all. Tensors are assumed to have data. *)
Theorem codec_roundtrip fs sc frames :
  send_tensors_frames fs sc = Ok frames →
  NoDup (dkeys fs) → Forall (λ p, field_sendable p.2) fs → json_wf (JObj sc) →
  ∃ fs', unpack_tensors frames = Ok (fs', JObj sc) ∧
    ∀ name, dget name fs' = dget name fs ≫= received.
Proof.
  unfold send_tensors_frames. intros H. destruct (pack_tensors fs sc) as [[m bufs]|] eqn:E; [|done].
  injection H as <-. intros. by apply unpack_pack.
Qed.

Lemma codec_roundtrip_witness :
  let t := mk_tensor [2] uint8 "ab" in
  let fs := [("x", FList [INone; ITensor t; INone]); ("y", FTensor t)] in
  ∃ frames fs', send_tensors_frames fs [("k", JInt 1)] = Ok frames ∧
    unpack_tensors frames = Ok (fs', JObj [("k", JInt 1)]) ∧
    dget "x" fs' = Some (FList [INone; ITensor t]).
Proof.
  intros t fs.
  assert (tensor_wf t ∧ 0 < nbytes t) as Ht by (split; [split_and!; [repeat constructor; lia|done|done]|done]).
  eexists. edestruct (codec_roundtrip fs [("k", JInt 1)]) as (fs' & H1 & H2);
    [reflexivity|by apply (bool_decide_unpack _)|by repeat constructor
    |split; [by apply (bool_decide_unpack _)|done]|].
  exists fs'. split_and!; [reflexivity|exact H1|rewrite H2; reflexivity].
Defined.

(** ** Roles *)

(** The modules of a pipeline are divided among the three roles: each instance
    loads a sublist of the modules, in order; every module is loaded by some role; and
    a module loaded by two different roles is shared on purpose, being outside the
    classification or explicitly allowed for one of them. *)
Theorem module_partition ms extra :
  (∀ role, filter_modules_for_role ms role (extra role) `sublist_of` ms) ∧
  (∀ n, n ∈ ms → ∃ role, role ∈ [ENCODER; DENOISER; DECODER] ∧
     n ∈ filter_modules_for_role ms role (extra role)) ∧
  (∀ n r1 r2, r1 ∈ [ENCODER; DENOISER; DECODER] → r2 ∈ [ENCODER; DENOISER; DECODER] → r1 ≠ r2 →
     n ∈ filter_modules_for_role ms r1 (extra r1) →
     n ∈ filter_modules_for_role ms r2 (extra r2) →
     get_module_role n = None ∨ n ∈ extra r1 ∨ n ∈ extra r2).
Proof.
  split_and!.
  - intros role. apply filter_modules_sublist.
  - intros n Hn. destruct (get_module_role n) as [r|] eqn:Hr.
    + exists r. split; [by eapply get_module_role_pipeline|]. apply filter_modules_elem. auto 8.
    + exists ENCODER. split; [set_solver|]. apply filter_modules_elem. auto 8.
  - intros n r1 r2 H1 H2 Hne [_ F1]%filter_modules_elem [_ F2]%filter_modules_elem.
    assert (r1 ≠ MONOLITHIC ∧ r1 ≠ SERVER ∧ r2 ≠ MONOLITHIC ∧ r2 ≠ SERVER) by set_solver.
    naive_solver congruence.
Qed.
