(* ===== verification/Orchestrator.v ===== *)
(** * The DiffusionServer orchestrator

    Models [disaggregation/orchestrator.py]: the state of [DiffusionServer], every
    handler of its event loop, and the loop itself. The event loop is a single
    thread, so a handler is one atomic step in the state-and-exception monad; what
    it sends is appended to [outbox]. The mutable [_TransferRequestState] objects,
    which [_transfer_state] and the TTA queues share, live in a [heap] and are
    referred to by location.

    ZeroMQ and pickle are parameters: [pickle_loads] gives the object a client
    payload holds, [frontend_accepts] whether the ROUTER socket takes a reply for an
    identity, [format_time] the printed clock in a generated request id. One reading
    [now] of the monotonic clock serves a whole loop iteration. *)

From S2P Require Import Prelude PyJson Codec Protocol Roles RequestState Dispatch.
Local Open Scope string_scope.
Local Open Scope Z_scope.

(** ** State *)

Record EncoderTTAEntry := mk_etta {
  ee_request_id : string;
  ee_client_identity : string;
  ee_payload : string;
}.

(** [_TransferRequestState]; [sender_instance] can be Python's [None], and the
    instances start at [-1]. *)
Record TransferRequestState := mk_p2p {
  sender_session_id : string;
  sender_pool_ptr : Z;
  sender_slot_offset : Z;
  data_size : Z;
  manifest : dict Json;
  scalar_fields : dict Json;
  receiver_session_id : string;
  receiver_pool_ptr : Z;
  receiver_slot_offset : Z;
  sender_instance : option Z;
  receiver_instance : Z;
  prealloc_slot_id : option Z;
}.

(** A reference to a [_TransferRequestState] object. *)
Definition loc : Type := positive.

Record RoleTTAEntry := mk_rtta { re_request_id : string; re_transfer_state : loc }.

(** An entry of [_encoder_peers], [_denoiser_peers] or [_decoder_peers]. *)
Record PeerInfo := mk_peer {
  peer_session_id : string;
  peer_pool_ptr : Z;
  peer_pool_size : Z;
  peer_work_endpoint : string;
  free_preallocated_slots : list (dict Json);
}.

(** [OutputBatch] as the orchestrator fills it. *)
Record OutputBatch := mk_output {
  ob_output : option field;
  ob_audio : option field;
  ob_audio_sample_rate : Json;
  ob_error : Json;
}.
Definition error_batch (e : Json) : OutputBatch := mk_output None None JNull e.

Inductive Reply := Ignored | Result (b : OutputBatch).

(** What the server sends. A reply to a client names the request it answers. *)
Inductive Out :=
  | ToEncoder (i : nat) (frames : list string)
  | ToDenoiser (i : nat) (frames : list string)
  | ToDecoder (i : nat) (frames : list string)
  | ToClient (identity : string) (r : Reply)
  | ClientSendFailed (identity : string) (r : Reply).

Record Server := mk_server {
  timeout_s : Qc;
  tracker : RequestTracker.t;
  dispatcher : PoolDispatcher;
  pending : dict string;
  encoder_free_slots : list Z;
  denoiser_free_slots : list Z;
  decoder_free_slots : list Z;
  encoder_tta : list EncoderTTAEntry;
  denoiser_tta : list RoleTTAEntry;
  decoder_tta : list RoleTTAEntry;
  transfer_state : dict loc;
  heap : gmap loc TransferRequestState;
  encoder_peers : gmap Z PeerInfo;
  denoiser_peers : gmap Z PeerInfo;
  decoder_peers : gmap Z PeerInfo;
  encoder_endpoint_to_idx : dict nat;
  denoiser_endpoint_to_idx : dict nat;
  decoder_endpoint_to_idx : dict nat;
  outbox : list Out;
}.

Definition num_encoders (s : Server) : nat := length (encoder_free_slots s).
Definition num_denoisers (s : Server) : nat := length (denoiser_free_slots s).
Definition num_decoders (s : Server) : nat := length (decoder_free_slots s).

(** Field updates. *)
Definition set_tracker (f : RequestTracker.t → RequestTracker.t) (s : Server) : Server :=
  mk_server (timeout_s s) (f (tracker s)) (dispatcher s) (pending s) (encoder_free_slots s)
    (denoiser_free_slots s) (decoder_free_slots s) (encoder_tta s) (denoiser_tta s)
    (decoder_tta s) (transfer_state s) (heap s) (encoder_peers s) (denoiser_peers s)
    (decoder_peers s) (encoder_endpoint_to_idx s) (denoiser_endpoint_to_idx s)
    (decoder_endpoint_to_idx s) (outbox s).
Definition set_dispatcher (f : PoolDispatcher → PoolDispatcher) (s : Server) : Server :=
  mk_server (timeout_s s) (tracker s) (f (dispatcher s)) (pending s) (encoder_free_slots s)
    (denoiser_free_slots s) (decoder_free_slots s) (encoder_tta s) (denoiser_tta s)
    (decoder_tta s) (transfer_state s) (heap s) (encoder_peers s) (denoiser_peers s)
    (decoder_peers s) (encoder_endpoint_to_idx s) (denoiser_endpoint_to_idx s)
    (decoder_endpoint_to_idx s) (outbox s).
Definition set_pending (f : dict string → dict string) (s : Server) : Server :=
  mk_server (timeout_s s) (tracker s) (dispatcher s) (f (pending s)) (encoder_free_slots s)
    (denoiser_free_slots s) (decoder_free_slots s) (encoder_tta s) (denoiser_tta s)
    (decoder_tta s) (transfer_state s) (heap s) (encoder_peers s) (denoiser_peers s)
    (decoder_peers s) (encoder_endpoint_to_idx s) (denoiser_endpoint_to_idx s)
    (decoder_endpoint_to_idx s) (outbox s).
Definition set_encoder_free_slots (f : list Z → list Z) (s : Server) : Server :=
  mk_server (timeout_s s) (tracker s) (dispatcher s) (pending s) (f (encoder_free_slots s))
    (denoiser_free_slots s) (decoder_free_slots s) (encoder_tta s) (denoiser_tta s)
    (decoder_tta s) (transfer_state s) (heap s) (encoder_peers s) (denoiser_peers s)
    (decoder_peers s) (encoder_endpoint_to_idx s) (denoiser_endpoint_to_idx s)
    (decoder_endpoint_to_idx s) (outbox s).
Definition set_denoiser_free_slots (f : list Z → list Z) (s : Server) : Server :=
  mk_server (timeout_s s) (tracker s) (dispatcher s) (pending s) (encoder_free_slots s) (f
    (denoiser_free_slots s)) (decoder_free_slots s) (encoder_tta s) (denoiser_tta s)
    (decoder_tta s) (transfer_state s) (heap s) (encoder_peers s) (denoiser_peers s)
    (decoder_peers s) (encoder_endpoint_to_idx s) (denoiser_endpoint_to_idx s)
    (decoder_endpoint_to_idx s) (outbox s).
Definition set_decoder_free_slots (f : list Z → list Z) (s : Server) : Server :=
  mk_server (timeout_s s) (tracker s) (dispatcher s) (pending s) (encoder_free_slots s)
    (denoiser_free_slots s) (f (decoder_free_slots s)) (encoder_tta s) (denoiser_tta s)
    (decoder_tta s) (transfer_state s) (heap s) (encoder_peers s) (denoiser_peers s)
    (decoder_peers s) (encoder_endpoint_to_idx s) (denoiser_endpoint_to_idx s)
    (decoder_endpoint_to_idx s) (outbox s).
Definition set_encoder_tta (f : list EncoderTTAEntry → list EncoderTTAEntry) (s : Server) : Server :=
  mk_server (timeout_s s) (tracker s) (dispatcher s) (pending s) (encoder_free_slots s)
    (denoiser_free_slots s) (decoder_free_slots s) (f (encoder_tta s)) (denoiser_tta s)
    (decoder_tta s) (transfer_state s) (heap s) (encoder_peers s) (denoiser_peers s)
    (decoder_peers s) (encoder_endpoint_to_idx s) (denoiser_endpoint_to_idx s)
    (decoder_endpoint_to_idx s) (outbox s).
Definition set_denoiser_tta (f : list RoleTTAEntry → list RoleTTAEntry) (s : Server) : Server :=
  mk_server (timeout_s s) (tracker s) (dispatcher s) (pending s) (encoder_free_slots s)
    (denoiser_free_slots s) (decoder_free_slots s) (encoder_tta s) (f (denoiser_tta s))
    (decoder_tta s) (transfer_state s) (heap s) (encoder_peers s) (denoiser_peers s)
    (decoder_peers s) (encoder_endpoint_to_idx s) (denoiser_endpoint_to_idx s)
    (decoder_endpoint_to_idx s) (outbox s).
Definition set_decoder_tta (f : list RoleTTAEntry → list RoleTTAEntry) (s : Server) : Server :=
  mk_server (timeout_s s) (tracker s) (dispatcher s) (pending s) (encoder_free_slots s)
    (denoiser_free_slots s) (decoder_free_slots s) (encoder_tta s) (denoiser_tta s) (f
    (decoder_tta s)) (transfer_state s) (heap s) (encoder_peers s) (denoiser_peers s)
    (decoder_peers s) (encoder_endpoint_to_idx s) (denoiser_endpoint_to_idx s)
    (decoder_endpoint_to_idx s) (outbox s).
Definition set_transfer_state (f : dict loc → dict loc) (s : Server) : Server :=
  mk_server (timeout_s s) (tracker s) (dispatcher s) (pending s) (encoder_free_slots s)
    (denoiser_free_slots s) (decoder_free_slots s) (encoder_tta s) (denoiser_tta s)
    (decoder_tta s) (f (transfer_state s)) (heap s) (encoder_peers s) (denoiser_peers s)
    (decoder_peers s) (encoder_endpoint_to_idx s) (denoiser_endpoint_to_idx s)
    (decoder_endpoint_to_idx s) (outbox s).
Definition set_heap (f : gmap loc TransferRequestState → gmap loc TransferRequestState) (s : Server) : Server :=
  mk_server (timeout_s s) (tracker s) (dispatcher s) (pending s) (encoder_free_slots s)
    (denoiser_free_slots s) (decoder_free_slots s) (encoder_tta s) (denoiser_tta s)
    (decoder_tta s) (transfer_state s) (f (heap s)) (encoder_peers s) (denoiser_peers s)
    (decoder_peers s) (encoder_endpoint_to_idx s) (denoiser_endpoint_to_idx s)
    (decoder_endpoint_to_idx s) (outbox s).
Definition set_encoder_peers (f : gmap Z PeerInfo → gmap Z PeerInfo) (s : Server) : Server :=
  mk_server (timeout_s s) (tracker s) (dispatcher s) (pending s) (encoder_free_slots s)
    (denoiser_free_slots s) (decoder_free_slots s) (encoder_tta s) (denoiser_tta s)
    (decoder_tta s) (transfer_state s) (heap s) (f (encoder_peers s)) (denoiser_peers s)
    (decoder_peers s) (encoder_endpoint_to_idx s) (denoiser_endpoint_to_idx s)
    (decoder_endpoint_to_idx s) (outbox s).
Definition set_denoiser_peers (f : gmap Z PeerInfo → gmap Z PeerInfo) (s : Server) : Server :=
  mk_server (timeout_s s) (tracker s) (dispatcher s) (pending s) (encoder_free_slots s)
    (denoiser_free_slots s) (decoder_free_slots s) (encoder_tta s) (denoiser_tta s)
    (decoder_tta s) (transfer_state s) (heap s) (encoder_peers s) (f (denoiser_peers s))
    (decoder_peers s) (encoder_endpoint_to_idx s) (denoiser_endpoint_to_idx s)
    (decoder_endpoint_to_idx s) (outbox s).
Definition set_decoder_peers (f : gmap Z PeerInfo → gmap Z PeerInfo) (s : Server) : Server :=
  mk_server (timeout_s s) (tracker s) (dispatcher s) (pending s) (encoder_free_slots s)
    (denoiser_free_slots s) (decoder_free_slots s) (encoder_tta s) (denoiser_tta s)
    (decoder_tta s) (transfer_state s) (heap s) (encoder_peers s) (denoiser_peers s) (f
    (decoder_peers s)) (encoder_endpoint_to_idx s) (denoiser_endpoint_to_idx s)
    (decoder_endpoint_to_idx s) (outbox s).
Definition set_outbox (f : list Out → list Out) (s : Server) : Server :=
  mk_server (timeout_s s) (tracker s) (dispatcher s) (pending s) (encoder_free_slots s)
    (denoiser_free_slots s) (decoder_free_slots s) (encoder_tta s) (denoiser_tta s)
    (decoder_tta s) (transfer_state s) (heap s) (encoder_peers s) (denoiser_peers s)
    (decoder_peers s) (encoder_endpoint_to_idx s) (denoiser_endpoint_to_idx s)
    (decoder_endpoint_to_idx s) (f (outbox s)).

(** The object a client payload unpickles to: a list or a single object, which is a
    dict, an object without [request_id], or a request with its id (or [None]). *)
Inductive PyReq := PyDict | PyNoId | PyReqId (rid : option string).
Inductive Pickled :=
  | UnpicklingError
  | PickleRaises (e : exc)
  | PickleOne (r : PyReq)
  | PickleList (l : list PyReq).

Record Env := mk_env {
  pickle_loads : string → Pickled;
  frontend_accepts : string → bool;
  format_time : Qc → string;
  py_str : Json → string;
}.

(** ** Initialisation *)

(** [{ep: i for i, ep in enumerate(endpoints)}] *)
Definition endpoint_index (eps : list string) : dict nat :=
  foldl (λ d p, dset p.2 p.1 d) [] (imap (λ i ep, (i, ep)) eps).

Definition init_server (enc_eps den_eps dec_eps : list string) (policy_name : string)
    (timeout : Qc) (encoder_capacity denoiser_capacity decoder_capacity : Z) : res Server :=
  d ← create_pool_dispatcher (length enc_eps) (length den_eps) (length dec_eps) policy_name;
  Ok (mk_server timeout RequestTracker.init d []
        (replicate (length enc_eps) encoder_capacity)
        (replicate (length den_eps) denoiser_capacity)
        (replicate (length dec_eps) decoder_capacity)
        [] [] [] [] ∅ ∅ ∅ ∅
        (endpoint_index enc_eps) (endpoint_index den_eps) (endpoint_index dec_eps) []).

(** ** Primitive accesses *)

Definition on_tracker {A} (m : M RequestTracker.t A) : M Server A :=
  λ s, let r := m (tracker s) in (r.1, set_tracker (λ _, r.2) s).
Definition on_dispatcher {A} (m : M PoolDispatcher A) : M Server A :=
  λ s, let r := m (dispatcher s) in (r.1, set_dispatcher (λ _, r.2) s).

Definition emit (o : Out) : M Server unit := modify (set_outbox (λ l, l ++ [o])%list).

(** [self._encoder_free_slots[i] += d] and the two others. *)
Definition add_encoder_slots (i : nat) (d : Z) : M Server unit :=
  l ← gets encoder_free_slots;
  l' ← lift_res (list_update l i (λ x, x + d));
  modify (set_encoder_free_slots (λ _, l')).
Definition add_denoiser_slots (i : nat) (d : Z) : M Server unit :=
  l ← gets denoiser_free_slots;
  l' ← lift_res (list_update l i (λ x, x + d));
  modify (set_denoiser_free_slots (λ _, l')).
Definition add_decoder_slots (i : nat) (d : Z) : M Server unit :=
  l ← gets decoder_free_slots;
  l' ← lift_res (list_update l i (λ x, x + d));
  modify (set_decoder_free_slots (λ _, l')).

(** Python list indexing: a negative index counts from the end. *)
Definition py_index (n : nat) (i : Z) : option nat :=
  if (0 <=? i) && (i <? n) then Some (Z.to_nat i)
  else if (- n <=? i) && (i <? 0) then Some (Z.to_nat (n + i)) else None.

(** [self._encoder_pushes[i].send_multipart(frames)] and the two others. *)
Definition push_encoder (i : Z) (frames : list string) : M Server unit :=
  n ← gets num_encoders;
  match py_index n i with Some k => emit (ToEncoder k frames) | None => raise IndexError end.
Definition push_denoiser (i : Z) (frames : list string) : M Server unit :=
  n ← gets num_denoisers;
  match py_index n i with Some k => emit (ToDenoiser k frames) | None => raise IndexError end.
Definition push_decoder (i : Z) (frames : list string) : M Server unit :=
  n ← gets num_decoders;
  match py_index n i with Some k => emit (ToDecoder k frames) | None => raise IndexError end.

(** Indexing a socket list with [None] raises [TypeError]. *)
Definition index_of (o : option Z) : M Server Z :=
  match o with Some i => mret i | None => raise TypeError end.

(** Dictionary lookup by a decoded JSON value: a list or an object is unhashable;
    any other value that is not a string is a key no string-keyed dict holds. *)
Definition key_of (j : Json) : res (option string) :=
  match j with
  | JStr s => Ok (Some s)
  | JList _ | JObj _ => Raise TypeError
  | _ => Ok None
  end.

Definition deref (l : loc) : M Server TransferRequestState :=
  h ← gets heap; match h !! l with Some p => mret p | None => raise RuntimeError end.
Definition store (l : loc) (p : TransferRequestState) : M Server unit :=
  modify (set_heap (λ h, <[l := p]> h)).
Definition alloc_p2p (p : TransferRequestState) : M Server loc :=
  h ← gets heap;
  let l := fresh (dom h : gset positive) in
  store l p ≫= λ _, mret l.

(** Field assignments of a [_TransferRequestState]. *)
Definition set_receiver_instance (i : Z) (p : TransferRequestState) : TransferRequestState :=
  mk_p2p (sender_session_id p) (sender_pool_ptr p) (sender_slot_offset p) (data_size p)
    (manifest p) (scalar_fields p) (receiver_session_id p) (receiver_pool_ptr p)
    (receiver_slot_offset p) (sender_instance p) i (prealloc_slot_id p).
Definition set_receiver (session : string) (ptr off : Z) (p : TransferRequestState) :
    TransferRequestState :=
  mk_p2p (sender_session_id p) (sender_pool_ptr p) (sender_slot_offset p) (data_size p)
    (manifest p) (scalar_fields p) session ptr off (sender_instance p) (receiver_instance p)
    (prealloc_slot_id p).
Definition set_prealloc_slot_id (o : option Z) (p : TransferRequestState) : TransferRequestState :=
  mk_p2p (sender_session_id p) (sender_pool_ptr p) (sender_slot_offset p) (data_size p)
    (manifest p) (scalar_fields p) (receiver_session_id p) (receiver_pool_ptr p)
    (receiver_slot_offset p) (sender_instance p) (receiver_instance p) o.
Definition set_sender (session : string) (ptr off size : Z) (man sc : dict Json)
    (inst : option Z) (p : TransferRequestState) : TransferRequestState :=
  mk_p2p session ptr off size man sc (receiver_session_id p) (receiver_pool_ptr p)
    (receiver_slot_offset p) inst (receiver_instance p) (prealloc_slot_id p).

(** ** Handlers *)
Section Handlers.
Context (env : Env) (now : Qc).

Definition transition (rid : string) (st : RequestState) (a : TransitionArgs) :
    M Server unit :=
  on_tracker (RequestTracker.transition now rid st a) ≫= λ _, mret tt.
Definition try_transition (rid : string) (st : RequestState) (a : TransitionArgs) :
    M Server unit := ignore_ValueError (transition rid st a).
Definition get_record (rid : string) : M Server (option RequestRecord) :=
  gets (λ s, dget rid (tracker s)).
Definition tracker_remove (rid : string) : M Server unit :=
  modify (set_tracker (ddel rid)).
(** [client_identity = self._pending.pop(request_id, None)] *)
Definition pop_pending (rid : string) : M Server (option string) :=
  c ← gets (λ s, dget rid (pending s));
  modify (set_pending (ddel rid)) ≫= λ _, mret c.
Definition pop_transfer_state (rid : string) : M Server unit :=
  modify (set_transfer_state (ddel rid)).
Definition send_to_client (identity : string) (r : Reply) : M Server unit :=
  emit (if frontend_accepts env identity then ToClient identity r
        else ClientSendFailed identity r).

Definition complete_with_error (rid : string) (error_msg : string) : M Server unit :=
  try_transition rid FAILED (with_error error_msg) ≫= λ _,
  c ← pop_pending rid;
  match c with
  | None => tracker_remove rid
  | Some client_identity =>
      send_to_client client_identity (Result (error_batch (JStr error_msg))) ≫= λ _,
      tracker_remove rid
  end.

Definition handle_role_error_frames (frames : list string) (role : RoleType) :
    M Server unit :=
  match unpack_tensors frames with
  | Raise _ => mret tt
  | Ok (_, scalar_fields) =>
      sf ← lift_res (as_dict scalar_fields);
      let rid := get_json sf "request_id" in
      let err := get_json sf "_disagg_error" in
      if json_truthy rid && json_truthy err then
        k ← lift_res (key_of rid);
        match k with
        | Some rid =>
            complete_with_error rid (role_value role +:+ " error: " +:+ py_str env err)
        | None => mret tt
        end
      else mret tt
  end.

Definition handle_client_request (parts : list string) : M Server unit :=
  match parts with
  | client_identity :: _ :: _ :: _ =>
      let payload := List.last parts "" in
      let with_reqs (reqs : list PyReq) : M Server unit :=
        match reqs with
        | [] => raise IndexError
        | PyDict :: _ | PyNoId :: _ => send_to_client client_identity Ignored
        | PyReqId o :: _ =>
            let rid := default ("ds-" +:+ format_time env now) o in
            try_except
              (on_tracker (RequestTracker.submit now rid) ≫= λ _, mret true)
              (λ e, bool_decide (e = ValueError)) (λ _, mret false) ≫= λ fresh,
            if fresh : bool then
              modify (set_pending (dset rid client_identity)) ≫= λ _,
              try_transition rid ENCODER_WAITING no_args ≫= λ _,
              modify (set_encoder_tta (λ q, q ++ [mk_etta rid client_identity payload])%list)
            else mret tt
        end in
      match pickle_loads env payload with
      | UnpicklingError => mret tt
      | PickleRaises e => raise e
      | PickleOne r => with_reqs [r]
      | PickleList l => with_reqs l
      end
  | _ => mret tt
  end.

(** [_extract_request_id]; [JNull] for [None]. *)
Definition extract_request_id (frames : list string) : res Json :=
  match frames with
  | [] => Ok JNull
  | meta :: _ =>
      match json_loads meta with
      | Raise _ => Ok JNull
      | Ok j =>
          d ← as_dict j;
          sf ← match dget "scalar_fields" d with None => Ok [] | Some o => as_dict o end;
          Ok (get_json sf "request_id")
      end
  end.

Definition handle_decoder_result_frames (frames : list string) : M Server unit :=
  j ← lift_res (extract_request_id frames);
  if json_is_null j then mret tt
  else
    k ← lift_res (key_of j);
    match k with
    | None =>
        fields ← lift_res (unpack_tensors frames);
        lift_res (as_dict (snd fields)) ≫= λ _, mret tt
    | Some rid =>
        record ← get_record rid;
        match record ≫= decoder_instance with
        | Some i => add_decoder_slots i 1
        | None => mret tt
        end ≫= λ _,
        fields ← lift_res (unpack_tensors frames);
        sf ← lift_res (as_dict (snd fields));
        let output_batch :=
          mk_output (dget "output" (fst fields)) (dget "audio" (fst fields))
            (get_json sf "audio_sample_rate") (get_json sf "error") in
        (if json_truthy (ob_error output_batch)
         then try_transition rid FAILED (with_error (py_str env (ob_error output_batch)))
         else try_transition rid DONE no_args) ≫= λ _,
        c ← pop_pending rid;
        match c with
        | None => tracker_remove rid
        | Some client_identity =>
            send_to_client client_identity (Result output_batch) ≫= λ _,
            pop_transfer_state rid ≫= λ _,
            tracker_remove rid
        end
    end.

Definition dispatch_to_encoder (rid payload : string) (encoder_idx : nat) : M Server unit :=
  add_encoder_slots encoder_idx (-1) ≫= λ _,
  try_transition rid ENCODER_RUNNING (with_encoder encoder_idx) ≫= λ _,
  push_encoder encoder_idx [rid; payload].

(** [record.state in (...)] guards of [_free_slot_for_record]. *)
Definition free_slot_for_record (record : RequestRecord) : M Server unit :=
  match encoder_instance record with
  | Some i => when (bool_decide (state record ∈ [ENCODER_RUNNING; ENCODER_DONE]))
                (add_encoder_slots i 1)
  | None => mret tt
  end ≫= λ _,
  match denoiser_instance record with
  | Some i => when (bool_decide (state record ∈ [DENOISING_RUNNING; DENOISING_DONE]))
                (add_denoiser_slots i 1)
  | None => mret tt
  end ≫= λ _,
  match decoder_instance record with
  | Some i => when (bool_decide (state record = DECODER_RUNNING)) (add_decoder_slots i 1)
  | None => mret tt
  end.

Definition timeout_message (rid : string) (timeout : Qc) : string :=
  "DiffusionServer timeout: request " +:+ rid +:+ " not completed within "
    +:+ format_time env timeout +:+ "s".

Definition handle_timeouts : M Server unit :=
  timeout ← gets timeout_s;
  timed_out ← gets (λ s, RequestTracker.find_timed_out now timeout (tracker s));
  for_each timed_out (λ rid,
    record ← get_record rid;
    match record with Some r => free_slot_for_record r | None => mret tt end ≫= λ _,
    complete_with_error rid (timeout_message rid timeout)) ≫= λ _,
  when (negb (bool_decide (timed_out = [])))
    (modify (set_encoder_tta (filter (λ e, ee_request_id e ∉ timed_out))) ≫= λ _,
     modify (set_denoiser_tta (filter (λ e, re_request_id e ∉ timed_out))) ≫= λ _,
     modify (set_decoder_tta (filter (λ e, re_request_id e ∉ timed_out)))).

Definition handle_transfer_register (msg : dict Json) : M Server unit :=
  role_str ← lift_res (get_str msg "role" "");
  match from_string role_str with
  | Raise _ => mret tt
  | Ok role =>
      work_endpoint ← lift_res (get_str msg "work_endpoint" "");
      let register (table : Server → dict nat)
          (set_peers : (gmap Z PeerInfo → gmap Z PeerInfo) → Server → Server) : M Server unit :=
        tbl ← gets table;
        match dget work_endpoint tbl with
        | None => mret tt
        | Some idx =>
            session_id ← lift_res (get_str msg "session_id" "");
            pool_ptr ← lift_res (get_int msg "pool_ptr" 0);
            pool_size ← lift_res (get_int msg "pool_size" 0);
            prealloc ← lift_res (match dget "preallocated_slots" msg with
                                 | None => Ok []
                                 | Some (JList l) => res_mapM as_dict l
                                 | Some _ => Raise TypeError
                                 end);
            modify (set_peers (λ ps, <[Z.of_nat idx :=
              mk_peer session_id pool_ptr pool_size work_endpoint prealloc]> ps))
        end in
      match role with
      | ENCODER => register encoder_endpoint_to_idx set_encoder_peers
      | DENOISER => register denoiser_endpoint_to_idx set_denoiser_peers
      | DECODER => register decoder_endpoint_to_idx set_decoder_peers
      | _ => mret tt
      end
  end.

Definition handle_transfer_staged (msg : dict Json) : M Server unit :=
  rid ← lift_res (req_str msg "request_id");
  record ← get_record rid;
  let encoder_idx := match record with
                     | Some r => Z.of_nat <$> encoder_instance r
                     | None => Some 0
                     end in
  session_id ← lift_res (get_str msg "session_id" "");
  pool_ptr ← lift_res (get_int msg "pool_ptr" 0);
  slot_offset ← lift_res (get_int msg "slot_offset" 0);
  size ← lift_res (get_int msg "data_size" 0);
  man ← lift_res (get_obj msg "manifest");
  sc ← lift_res (get_obj msg "scalar_fields");
  l ← alloc_p2p (mk_p2p session_id pool_ptr slot_offset size man sc "" 0 0 encoder_idx (-1) None);
  modify (set_transfer_state (dset rid l)) ≫= λ _,
  try_transition rid ENCODER_DONE no_args ≫= λ _,
  try_transition rid DENOISING_WAITING no_args ≫= λ _,
  modify (set_denoiser_tta (λ q, q ++ [mk_rtta rid l])%list).

(** [_try_fast_path_push], given the peer table of the receiving role and the
    push sockets of the sending one. *)
Definition try_fast_path_push (rid : string) (l : loc) (receiver_idx : Z)
    (peers : Server → gmap Z PeerInfo)
    (set_peers : (gmap Z PeerInfo → gmap Z PeerInfo) → Server → Server)
    (sender_push : Z → list string → M Server unit) : M Server bool :=
  ps ← gets peers;
  match ps !! receiver_idx with
  | None => mret false
  | Some peer =>
      match free_preallocated_slots peer with
      | [] => mret false
      | slot_info :: rest =>
          p2p ← deref l;
          size ← lift_res (get_int slot_info "size" 0);
          if size <? data_size p2p then mret false
          else
            modify (set_peers (λ ps, <[receiver_idx :=
              mk_peer (peer_session_id peer) (peer_pool_ptr peer) (peer_pool_size peer)
                (peer_work_endpoint peer) rest]> ps)) ≫= λ _,
            store l (set_receiver (peer_session_id peer) (peer_pool_ptr peer)
                       (receiver_slot_offset p2p) p2p) ≫= λ _,
            off ← lift_res (req_int slot_info "offset");
            slot_id ← lift_res (match get_json slot_info "slot_id" with
                                | JNull => Ok None
                                | j => z ← as_int j; Ok (Some z)
                                end);
            store l (set_prealloc_slot_id slot_id
              (set_receiver (peer_session_id peer) (peer_pool_ptr peer) off p2p)) ≫= λ _,
            addr ← lift_res (req_int slot_info "addr");
            i ← index_of (sender_instance p2p);
            sender_push i (encode_transfer_msg
              (TransferPushMsg rid (peer_session_id peer) addr (data_size p2p))) ≫= λ _,
            mret true
      end
  end.

Definition send_slow_path_alloc (rid : string) (l : loc)
    (receiver_push : Z → list string → M Server unit) (receiver_idx : Z)
    (source_role : string) : M Server unit :=
  p2p ← deref l;
  receiver_push receiver_idx
    (encode_transfer_msg (TransferAllocMsg rid (data_size p2p) source_role)).

Definition transfer_dispatch_to_denoiser (rid : string) (l : loc) (denoiser_idx : nat) :
    M Server unit :=
  add_denoiser_slots denoiser_idx (-1) ≫= λ _,
  p2p ← deref l;
  store l (set_receiver_instance denoiser_idx p2p) ≫= λ _,
  try_transition rid DENOISING_RUNNING (with_denoiser denoiser_idx) ≫= λ _,
  fast ← try_fast_path_push rid l denoiser_idx denoiser_peers set_denoiser_peers push_encoder;
  if fast : bool then mret tt
  else send_slow_path_alloc rid l push_denoiser denoiser_idx "encoder".

Definition transfer_dispatch_to_decoder (rid : string) (l : loc) (decoder_idx : nat) :
    M Server unit :=
  add_decoder_slots decoder_idx (-1) ≫= λ _,
  p2p ← deref l;
  store l (set_receiver_instance decoder_idx p2p) ≫= λ _,
  try_transition rid DECODER_RUNNING (with_decoder decoder_idx) ≫= λ _,
  fast ← try_fast_path_push rid l decoder_idx decoder_peers set_decoder_peers push_denoiser;
  if fast : bool then mret tt
  else send_slow_path_alloc rid l push_decoder decoder_idx "denoiser".

(** The draining loops; each iteration that does not stop takes one entry off the
    queue, so the queue length bounds them. *)
Fixpoint drain_encoder_loop (n : nat) : M Server unit :=
  match n with
  | O => mret tt
  | S n =>
      q ← gets encoder_tta;
      match q with
      | [] => mret tt
      | entry :: q' =>
          free ← gets encoder_free_slots;
          idx ← on_dispatcher (select_encoder_with_capacity free);
          match idx with
          | None => mret tt
          | Some i =>
              modify (set_encoder_tta (λ _, q')) ≫= λ _,
              dispatch_to_encoder (ee_request_id entry) (ee_payload entry) i ≫= λ _,
              drain_encoder_loop n
          end
      end
  end.
Definition drain_encoder_tta : M Server unit :=
  λ s, drain_encoder_loop (length (encoder_tta s)) s.

Fixpoint drain_denoiser_loop (n : nat) : M Server unit :=
  match n with
  | O => mret tt
  | S n =>
      q ← gets denoiser_tta;
      match q with
      | [] => mret tt
      | entry :: q' =>
          free ← gets denoiser_free_slots;
          idx ← on_dispatcher (select_denoiser_with_capacity free);
          match idx with
          | None => mret tt
          | Some i =>
              modify (set_denoiser_tta (λ _, q')) ≫= λ _,
              transfer_dispatch_to_denoiser (re_request_id entry) (re_transfer_state entry) i
                ≫= λ _,
              drain_denoiser_loop n
          end
      end
  end.
Definition drain_denoiser_tta : M Server unit :=
  λ s, drain_denoiser_loop (length (denoiser_tta s)) s.

Fixpoint drain_decoder_loop (n : nat) : M Server unit :=
  match n with
  | O => mret tt
  | S n =>
      q ← gets decoder_tta;
      match q with
      | [] => mret tt
      | entry :: q' =>
          free ← gets decoder_free_slots;
          idx ← on_dispatcher (select_decoder_with_capacity free);
          match idx with
          | None => mret tt
          | Some i =>
              modify (set_decoder_tta (λ _, q')) ≫= λ _,
              transfer_dispatch_to_decoder (re_request_id entry) (re_transfer_state entry) i
                ≫= λ _,
              drain_decoder_loop n
          end
      end
  end.
Definition drain_decoder_tta : M Server unit :=
  λ s, drain_decoder_loop (length (decoder_tta s)) s.

Definition drain_all_queues : M Server unit :=
  drain_encoder_tta ≫= λ _, drain_denoiser_tta ≫= λ _, drain_decoder_tta.

(** [record and record.state in sts] *)
Definition record_in (record : option RequestRecord) (sts : list RequestState) : bool :=
  match record with Some r => bool_decide (state r ∈ sts) | None => false end.

Definition handle_transfer_allocated (msg : dict Json) : M Server unit :=
  rid ← lift_res (req_str msg "request_id");
  ts ← gets transfer_state;
  match dget rid ts with
  | None => mret tt
  | Some l =>
      p2p ← deref l;
      session_id ← lift_res (get_str msg "session_id" "");
      pool_ptr ← lift_res (get_int msg "pool_ptr" 0);
      slot_offset ← lift_res (get_int msg "slot_offset" 0);
      store l (set_receiver session_id pool_ptr slot_offset p2p) ≫= λ _,
      let push_msg := encode_transfer_msg
        (TransferPushMsg rid session_id (pool_ptr + slot_offset) (data_size p2p)) in
      record ← get_record rid;
      i ← index_of (sender_instance p2p);
      if record_in record [DECODER_RUNNING; DECODER_WAITING]
      then push_denoiser i push_msg
      else push_encoder i push_msg
  end.

Definition handle_transfer_pushed (msg : dict Json) : M Server unit :=
  rid ← lift_res (req_str msg "request_id");
  ts ← gets transfer_state;
  match dget rid ts with
  | None => mret tt
  | Some l =>
      p2p ← deref l;
      record ← get_record rid;
      (if record_in record [DENOISING_RUNNING; DENOISING_WAITING; DENOISING_DONE] then
         match record ≫= encoder_instance with
         | Some i => add_encoder_slots i 1
         | None => mret tt
         end
       else if record_in record [DECODER_RUNNING; DECODER_WAITING] then
         match record ≫= denoiser_instance with
         | Some i => add_denoiser_slots i 1
         | None => mret tt
         end
       else mret tt) ≫= λ _,
      let sc := match prealloc_slot_id p2p with
                | Some id => dset "_prealloc_slot_id" (JInt id) (scalar_fields p2p)
                | None => scalar_fields p2p
                end in
      let ready_msg := encode_transfer_msg
        (TransferReadyMsg rid (manifest p2p) (receiver_slot_offset p2p) sc) in
      if record_in record [DENOISING_RUNNING; DENOISING_WAITING]
      then push_denoiser (receiver_instance p2p) ready_msg
      else if record_in record [DECODER_RUNNING; DECODER_WAITING]
      then push_decoder (receiver_instance p2p) ready_msg
      else mret tt
  end.

(** The free list is appended to in place; for an unregistered peer the default
    [{}] receives it and is dropped. *)
Definition recycle_prealloc_slot (l : loc) (role : RoleType) : M Server unit :=
  p2p ← deref l;
  match prealloc_slot_id p2p with
  | None => mret tt
  | Some id =>
      let slot := prealloc_slot_info (receiver_slot_offset p2p) (data_size p2p) id
                    (receiver_pool_ptr p2p + receiver_slot_offset p2p) in
      let give_back (peer : PeerInfo) :=
        mk_peer (peer_session_id peer) (peer_pool_ptr peer) (peer_pool_size peer)
          (peer_work_endpoint peer) (free_preallocated_slots peer ++ [slot])%list in
      match role with
      | DENOISER =>
          modify (set_denoiser_peers (alter give_back (receiver_instance p2p))) ≫= λ _,
          store l (set_prealloc_slot_id None p2p)
      | DECODER =>
          modify (set_decoder_peers (alter give_back (receiver_instance p2p))) ≫= λ _,
          store l (set_prealloc_slot_id None p2p)
      | _ => mret tt
      end
  end.

Definition transfer_return_to_client_from_msg (rid : string) (msg : dict Json) :
    M Server unit :=
  c ← pop_pending rid;
  match c with
  | None => tracker_remove rid
  | Some client_identity =>
      send_to_client client_identity (Result (error_batch (get_json msg "error"))) ≫= λ _,
      tracker_remove rid
  end.

Definition free_denoiser_of (record : option RequestRecord) : M Server unit :=
  match record ≫= denoiser_instance with
  | Some i => add_denoiser_slots i 1
  | None => mret tt
  end.

Definition handle_transfer_done (msg : dict Json) (role : RoleType) : M Server unit :=
  rid ← lift_res (get_str msg "request_id" "");
  let error := get_json msg "error" in
  ts ← gets transfer_state;
  let p2p := dget rid ts in
  match role with
  | DENOISER =>
      record ← get_record rid;
      match p2p with Some l => recycle_prealloc_slot l DENOISER | None => mret tt end ≫= λ _,
      if json_truthy error then
        free_denoiser_of record ≫= λ _,
        complete_with_error rid ("Denoiser error: " +:+ py_str env error)
      else
        try_transition rid DENOISING_DONE no_args ≫= λ _,
        match p2p with
        | Some l =>
            if json_truthy (get_json msg "staged_for_decoder") then
              p ← deref l;
              session_id ← lift_res (get_str msg "session_id" "");
              pool_ptr ← lift_res (get_int msg "pool_ptr" 0);
              slot_offset ← lift_res (get_int msg "slot_offset" 0);
              size ← lift_res (get_int msg "data_size" 0);
              man ← lift_res (get_obj msg "manifest");
              sc ← lift_res (get_obj msg "scalar_fields");
              let inst := match record with
                          | Some r => Z.of_nat <$> denoiser_instance r
                          | None => Some 0
                          end in
              store l (set_sender session_id pool_ptr slot_offset size man sc inst p) ≫= λ _,
              try_transition rid DECODER_WAITING no_args ≫= λ _,
              modify (set_decoder_tta (λ q, q ++ [mk_rtta rid l])%list)
            else free_denoiser_of record
        | None => free_denoiser_of record
        end
  | DECODER =>
      match p2p with Some l => recycle_prealloc_slot l DECODER | None => mret tt end ≫= λ _,
      record ← get_record rid;
      match record ≫= decoder_instance with
      | Some i => add_decoder_slots i 1
      | None => mret tt
      end ≫= λ _,
      (if json_truthy error then
         complete_with_error rid ("Decoder error: " +:+ py_str env error)
       else
         try_transition rid DONE no_args ≫= λ _,
         transfer_return_to_client_from_msg rid msg) ≫= λ _,
      pop_transfer_state rid
  | _ => mret tt
  end.

Definition handle_transfer_result (frames : list string) (role : RoleType) : M Server unit :=
  match decode_transfer_msg frames with
  | Raise _ => mret tt
  | Ok j =>
      msg ← lift_res (as_dict j);
      let msg_type := get_json msg "msg_type" in
      if json_is_str msg_type TransferMsgType.REGISTER then handle_transfer_register msg
      else if json_is_str msg_type TransferMsgType.STAGED then handle_transfer_staged msg
      else if json_is_str msg_type TransferMsgType.ALLOCATED
      then handle_transfer_allocated msg
      else if json_is_str msg_type TransferMsgType.PUSHED then handle_transfer_pushed msg
      else if json_is_str msg_type TransferMsgType.DONE then handle_transfer_done msg role
      else mret tt
  end.

Definition handle_role_result (frames : list string) (role : RoleType) : M Server unit :=
  if is_transfer_message frames then handle_transfer_result frames role
  else match role with
       | DECODER => handle_decoder_result_frames frames
       | _ => handle_role_error_frames frames role
       end.

(** ** The event loop *)

(** What one [poller.poll] makes readable: at most one message per socket. *)
Record Poll := mk_poll {
  from_frontend : option (list string);
  from_encoders : option (list string);
  from_denoisers : option (list string);
  from_decoders : option (list string);
}.

Definition on_message {A} (o : option A) (h : A → M Server unit) : M Server unit :=
  match o with Some x => h x | None => mret tt end.

Definition loop_iteration (ev : Poll) : M Server unit :=
  handle_timeouts ≫= λ _,
  on_message (from_frontend ev) handle_client_request ≫= λ _,
  on_message (from_encoders ev) (λ f, handle_role_result f ENCODER) ≫= λ _,
  on_message (from_denoisers ev) (λ f, handle_role_result f DENOISER) ≫= λ _,
  on_message (from_decoders ev) (λ f, handle_role_result f DECODER) ≫= λ _,
  drain_all_queues.
End Handlers.

(** The loop over a sequence of polls, each with its clock reading. An exception
    that escapes an iteration ends the loop; the flag says whether it still runs. *)
Fixpoint event_loop (env : Env) (evs : list (Qc * Poll)) (s : Server) : bool * Server :=
  match evs with
  | [] => (true, s)
  | (now, ev) :: evs =>
      match loop_iteration env now ev s with
      | (Ok _, s') => event_loop env evs s'
      | (Raise _, s') => (false, s')
      end
  end.
