(* ===== verification/OrchestratorFacts.v ===== *)
(** * Invariants of the orchestrator

    Properties of every handler of [Orchestrator.v] and of its event loop. *)

From S2P Require Import Prelude PyJson Codec Protocol Roles RequestState Dispatch Orchestrator.
Local Open Scope string_scope.
Local Open Scope Z_scope.

(** ** Closed forms of the blocks that finish a request *)

Lemma ddel_dset {V} k (v : V) (d : dict V) : ddel k (dset k v d) = ddel k d.
Proof.
  induction d as [|[k1 v1] d IH]; repeat (case_decide || simplify_eq/=); try done.
  by rewrite IH.
Qed.

Lemma dset_dset {V} k (v w : V) (d : dict V) : dset k w (dset k v d) = dset k w d.
Proof.
  induction d as [|[k1 v1] d IH]; repeat (case_decide || simplify_eq/=); try done.
  by rewrite IH.
Qed.

(** [try_transition] never raises and touches the tracker only. *)
Lemma try_transition_eq now rid st a s :
  try_transition now rid st a s =
    (Ok tt, set_tracker (λ t, (RequestTracker.transition now rid st a t).2) s).
Proof.
  unfold try_transition, ignore_ValueError, try_except, transition, on_tracker, mbind, M_bind,
    mret, M_ret, set_tracker. simpl.
  destruct (RequestTrackerFacts.transition_cases now rid st a (tracker s)) as [->|(r & _ & _ & ->)];
    done.
Qed.

Lemma transition_then_del now rid st a t :
  ddel rid (RequestTracker.transition now rid st a t).2 = ddel rid t.
Proof.
  destruct (RequestTrackerFacts.transition_cases now rid st a t) as [->|(r & _ & _ & ->)];
    [done|]. apply ddel_dset.
Qed.

(** The reply to the client of [rid], if it is still waiting. *)
Definition reply_out (env : Env) (r : Reply) (rid : string) (s : Server) : list Out :=
  match dget rid (pending s) with
  | Some c => [if frontend_accepts env c then ToClient c r else ClientSendFailed c r]
  | None => []
  end.

(** The state after request [rid] is answered with [r] and forgotten. *)
Definition finish (env : Env) (r : Reply) (rid : string) (s : Server) : Server :=
  set_tracker (ddel rid) (set_pending (ddel rid)
    (set_outbox (λ o, o ++ reply_out env r rid s)%list s)).

Lemma server_eta s : set_outbox (λ o, o ++ [])%list s = s.
Proof. destruct s. unfold set_outbox. simpl. by rewrite app_nil_r. Qed.

Lemma complete_with_error_eq env now rid msg s :
  complete_with_error env now rid msg s =
    (Ok tt, finish env (Result (error_batch (JStr msg))) rid s).
Proof.
  unfold complete_with_error, mbind, M_bind. rewrite try_transition_eq.
  unfold pop_pending, mbind, M_bind, gets, modify, mret, M_ret. simpl.
  unfold finish, reply_out. destruct (dget rid (pending s)) as [c|] eqn:Hc; simpl.
  - unfold send_to_client, emit, tracker_remove, modify, set_tracker, set_outbox, set_pending.
    simpl. by rewrite transition_then_del.
  - rewrite server_eta. unfold tracker_remove, modify, set_tracker, set_pending. simpl.
    by rewrite transition_then_del.
Qed.

(** ** The orchestrator as a transition system

    [sstep env s s']: one elementary change of the server's state, with the guard
    under which the handlers make it. Every handler refines sequences of these
    ([refines] below), so an invariant of the server is one case analysis. *)

(** The arguments the handlers give a transition to [st]: instances that exist, and
    an instance whenever a request starts running. *)
Definition args_ok (s : Server) (st : RequestState) (a : TransitionArgs) : Prop :=
  (∀ i, t_encoder a = Some i → (i < num_encoders s)%nat) ∧
  (∀ i, t_denoiser a = Some i → (i < num_denoisers s)%nat) ∧
  (∀ i, t_decoder a = Some i → (i < num_decoders s)%nat) ∧
  (st = ENCODER_RUNNING → is_Some (t_encoder a)) ∧
  (st = DENOISING_RUNNING → is_Some (t_denoiser a)) ∧
  (st = DECODER_RUNNING → is_Some (t_decoder a)).

(** A message to a role instance that exists. *)
Definition work_out (s : Server) (o : Out) : Prop :=
  match o with
  | ToEncoder i _ => (i < num_encoders s)%nat
  | ToDenoiser i _ => (i < num_denoisers s)%nat
  | ToDecoder i _ => (i < num_decoders s)%nat
  | _ => False
  end.

(** The three policies are well formed and sized to the three pools. *)
Definition disp_ok (s : Server) : Prop :=
  dispatcher_wf (num_encoders s) (num_denoisers s) (num_decoders s) (dispatcher s).

(** The state after a fresh request is accepted. *)
Definition submitted (now : Qc) (rid client payload : string) (s : Server) : Server :=
  set_encoder_tta (λ q, q ++ [mk_etta rid client payload])%list
    (set_tracker (dset rid (mk_record rid ENCODER_WAITING now now None None None None))
      (set_pending (dset rid client) s)).

Inductive sstep (env : Env) : Server → Server → Prop :=
  | st_transition s now rid st a :
      is_active_state st = true → args_ok s st a →
      sstep env s (set_tracker (λ t, (RequestTracker.transition now rid st a t).2) s)
  | st_finish s b rid : sstep env s (finish env (Result b) rid s)
  | st_ignored s c :
      sstep env s (set_outbox (λ o, o ++ [if frontend_accepts env c then ToClient c Ignored
                                          else ClientSendFailed c Ignored])%list s)
  | st_work s o : work_out s o → sstep env s (set_outbox (λ l, l ++ [o])%list s)
  | st_encoder_slot s i f d :
      encoder_free_slots s !! i = Some f → d = 1 ∨ d = -1 ∧ 0 < f →
      sstep env s (set_encoder_free_slots (λ l, <[i := f + d]> l) s)
  | st_denoiser_slot s i f d :
      denoiser_free_slots s !! i = Some f → d = 1 ∨ d = -1 ∧ 0 < f →
      sstep env s (set_denoiser_free_slots (λ l, <[i := f + d]> l) s)
  | st_decoder_slot s i f d :
      decoder_free_slots s !! i = Some f → d = 1 ∨ d = -1 ∧ 0 < f →
      sstep env s (set_decoder_free_slots (λ l, <[i := f + d]> l) s)
  | st_policy s d :
      disp_ok (set_dispatcher (λ _, d) s) → sstep env s (set_dispatcher (λ _, d) s)
  | st_encoder_queue s q : q ⊆ encoder_tta s → sstep env s (set_encoder_tta (λ _, q) s)
  | st_denoiser_queue s q :
      (∀ e, e ∈ q → e ∈ denoiser_tta s ∨ is_Some (heap s !! re_transfer_state e)) →
      sstep env s (set_denoiser_tta (λ _, q) s)
  | st_decoder_queue s q :
      (∀ e, e ∈ q → e ∈ decoder_tta s ∨ is_Some (heap s !! re_transfer_state e)) →
      sstep env s (set_decoder_tta (λ _, q) s)
  | st_transfer_set s rid l :
      is_Some (heap s !! l) → sstep env s (set_transfer_state (dset rid l) s)
  | st_transfer_pop s rid : sstep env s (set_transfer_state (ddel rid) s)
  | st_heap s l p : sstep env s (set_heap (λ h, <[l := p]> h) s)
  | st_encoder_peers s f : sstep env s (set_encoder_peers f s)
  | st_denoiser_peers s f : sstep env s (set_denoiser_peers f s)
  | st_decoder_peers s f : sstep env s (set_decoder_peers f s).

Lemma sstep_sizes env s s' : sstep env s s' →
  num_encoders s' = num_encoders s ∧ num_denoisers s' = num_denoisers s ∧
  num_decoders s' = num_decoders s.
Proof.
  unfold num_encoders, num_denoisers, num_decoders.
  by destruct 1; simpl; rewrite ?length_insert.
Qed.

Lemma sstep_disp_ok env s s' : sstep env s s' → disp_ok s → disp_ok s'.
Proof.
  intros Hst. pose proof (sstep_sizes _ _ _ Hst) as (He & Hn & Hd). unfold disp_ok.
  rewrite He, Hn, Hd. by destruct Hst.
Qed.

(** From a state with well-formed policies, the result is reached by elementary
    steps. *)
Definition refines (env : Env) (s s' : Server) : Prop := disp_ok s → rtc (sstep env) s s'.

Lemma rtc_disp_ok env s s' : rtc (sstep env) s s' → disp_ok s → disp_ok s'.
Proof. induction 1; eauto using sstep_disp_ok. Qed.

#[global] Instance refines_preorder env : PreOrder (refines env).
Proof.
  split; unfold refines; [intros s Hs; constructor|].
  intros s1 s2 s3 H12 H23 H1. etrans; [by apply H12|].
  apply H23. by eapply rtc_disp_ok; [apply H12|].
Qed.

Lemma refines_once env s s' : sstep env s s' → refines env s s'.
Proof. intros H _. by apply rtc_once. Qed.

(** ** Every handler refines the transition system *)

Create HintDb srv discriminated.
#[export] Hint Constants Opaque : srv.

(** Walk a handler: known lemmas first, then its monadic structure. *)
Ltac srv_step :=
  first
    [ solve [auto 2 with srv]
    | match goal with
      | |- steps _ (mret _) => apply steps_ret; apply _
      | |- steps _ (raise _) => apply steps_raise; apply _
      | |- steps _ (gets _) => apply steps_gets; apply _
      | |- steps _ get => apply steps_get; apply _
      | |- steps _ (lift_res _) => apply steps_lift; apply _
      | |- steps _ (mbind _ _) => apply steps_bind; [apply _| |]
      | |- steps _ (when _ _) => apply steps_when; [apply _|]
      | |- steps _ (for_each _ _) => apply steps_for_each; [apply _|]
      end
    | step_case
    | progress intros ].
Ltac srv := repeat srv_step.

Section Refine.
Context (env : Env) (now : Qc).
Local Abbreviation ok := (steps (refines env)).

Lemma ok_modify f : (∀ s, sstep env s (f s)) → ok (modify f).
Proof. intros H s. apply refines_once, H. Qed.

Lemma ok_modify_heap f l p : (∀ s, f s = set_heap (λ h, <[l := p]> h) s) → ok (modify f).
Proof. intros H s. simpl. rewrite H. apply refines_once. constructor. Qed.

Lemma args_none s st :
  st ∈ [ENCODER_WAITING; ENCODER_DONE; DENOISING_WAITING; DENOISING_DONE; DECODER_WAITING] →
  args_ok s st no_args.
Proof. intros H. split_and!; try done; intros ->; set_solver. Qed.

Lemma ok_try_transition rid st a :
  is_active_state st = true → (∀ s, args_ok s st a) → ok (try_transition now rid st a).
Proof.
  intros Hst Ha s. rewrite try_transition_eq. apply refines_once. by constructor.
Qed.

Lemma ok_complete rid msg : ok (complete_with_error env now rid msg).
Proof. intros s. rewrite complete_with_error_eq. apply refines_once. constructor. Qed.

Lemma ok_add_encoder i : ok (add_encoder_slots i 1).
Proof.
  intros s. unfold add_encoder_slots, mbind, M_bind, gets, lift_res, list_update.
  destruct (encoder_free_slots s !! i) as [f|] eqn:Hf; simpl; [|reflexivity].
  apply refines_once, (st_encoder_slot env s i f 1); auto.
Qed.
Lemma ok_add_denoiser i : ok (add_denoiser_slots i 1).
Proof.
  intros s. unfold add_denoiser_slots, mbind, M_bind, gets, lift_res, list_update.
  destruct (denoiser_free_slots s !! i) as [f|] eqn:Hf; simpl; [|reflexivity].
  apply refines_once, (st_denoiser_slot env s i f 1); auto.
Qed.
Lemma ok_add_decoder i : ok (add_decoder_slots i 1).
Proof.
  intros s. unfold add_decoder_slots, mbind, M_bind, gets, lift_res, list_update.
  destruct (decoder_free_slots s !! i) as [f|] eqn:Hf; simpl; [|reflexivity].
  apply refines_once, (st_decoder_slot env s i f 1); auto.
Qed.

Lemma py_index_lt n i k : py_index n i = Some k → (k < n)%nat.
Proof. unfold py_index. intros. repeat case_match; bool_to_prop; simplify_eq; lia. Qed.

Lemma ok_push_encoder i f : ok (push_encoder i f).
Proof.
  intros s. unfold push_encoder, mbind, M_bind, gets.
  destruct (py_index (num_encoders s) i) eqn:E; [|reflexivity].
  apply refines_once. constructor. by apply py_index_lt in E.
Qed.
Lemma ok_push_denoiser i f : ok (push_denoiser i f).
Proof.
  intros s. unfold push_denoiser, mbind, M_bind, gets.
  destruct (py_index (num_denoisers s) i) eqn:E; [|reflexivity].
  apply refines_once. constructor. by apply py_index_lt in E.
Qed.
Lemma ok_push_decoder i f : ok (push_decoder i f).
Proof.
  intros s. unfold push_decoder, mbind, M_bind, gets.
  destruct (py_index (num_decoders s) i) eqn:E; [|reflexivity].
  apply refines_once. constructor. by apply py_index_lt in E.
Qed.

Lemma ok_send_ignored c : ok (send_to_client env c Ignored).
Proof. intros s. apply refines_once. constructor. Qed.

Lemma ok_index_of o : ok (index_of o).
Proof. unfold index_of. srv. Qed.
Lemma ok_deref l : ok (deref l).
Proof. unfold deref. srv. Qed.
Lemma ok_store l p : ok (store l p).
Proof. apply ok_modify. intros. constructor. Qed.
Lemma ok_get_record rid : ok (get_record rid).
Proof. unfold get_record. srv. Qed.
Lemma ok_pop_transfer rid : ok (pop_transfer_state rid).
Proof. apply ok_modify. intros. constructor. Qed.
End Refine.

#[export] Hint Resolve ok_complete ok_add_encoder ok_add_denoiser ok_add_decoder
  ok_push_encoder ok_push_denoiser ok_push_decoder ok_send_ignored ok_index_of ok_deref ok_store
  ok_get_record ok_pop_transfer : srv.
#[export] Hint Extern 1 (steps (refines _) (try_transition _ _ _ _)) =>
  apply ok_try_transition; [reflexivity|intros; apply args_none; set_solver] : srv.
#[export] Hint Extern 1 (steps (refines _) (modify _)) =>
  apply ok_modify; intros; constructor : srv.

(** Any transition of [rid] followed by its removal is its removal. *)
Lemma finish_after_transition now rid st a env r s :
  finish env r rid (set_tracker (λ t, (RequestTracker.transition now rid st a t).2) s) =
  finish env r rid s.
Proof.
  unfold finish, reply_out, set_tracker, set_pending, set_outbox. simpl.
  by rewrite transition_then_del.
Qed.

(** Answering the client of [rid] and forgetting the request, as
    [_handle_decoder_result_frames] does it. *)
Definition return_block (env : Env) (rid : string) (b : OutputBatch) : M Server unit :=
  c ← pop_pending rid;
  match c with
  | None => tracker_remove rid
  | Some client_identity =>
      send_to_client env client_identity (Result b) ≫= λ _,
      pop_transfer_state rid ≫= λ _,
      tracker_remove rid
  end.

Lemma return_block_eq env rid b s :
  return_block env rid b s =
  (Ok tt, (match dget rid (pending s) with
           | Some _ => set_transfer_state (ddel rid)
           | None => id
           end) (finish env (Result b) rid s)).
Proof.
  unfold return_block, pop_pending, finish, reply_out, mbind, M_bind, gets, modify, mret, M_ret.
  simpl. destruct (dget rid (pending s)); simpl; [done|]. by rewrite server_eta.
Qed.

Lemma return_from_msg_eq env rid msg s :
  transfer_return_to_client_from_msg env rid msg s =
  (Ok tt, finish env (Result (error_batch (get_json msg "error"))) rid s).
Proof.
  unfold transfer_return_to_client_from_msg, pop_pending, finish, reply_out, mbind, M_bind, gets,
    modify, mret, M_ret.
  simpl. destruct (dget rid (pending s)); simpl; [done|]. by rewrite server_eta.
Qed.

(** The accepted branch of [_handle_client_request]. *)
Definition accept_block (now : Qc) (rid client payload : string) : M Server unit :=
  fresh ← try_except (on_tracker (RequestTracker.submit now rid) ≫= λ _, mret true)
            (λ e, bool_decide (e = ValueError)) (λ _, mret false);
  if fresh : bool then
    modify (set_pending (dset rid client)) ≫= λ _,
    try_transition now rid ENCODER_WAITING no_args ≫= λ _,
    modify (set_encoder_tta (λ q, q ++ [mk_etta rid client payload])%list)
  else mret tt.

Lemma set_tracker_id s : set_tracker (λ _, tracker s) s = s.
Proof. by destruct s. Qed.

Lemma accept_block_eq now rid client payload s :
  accept_block now rid client payload s =
  (Ok tt, match dget rid (tracker s) with
          | Some _ => s
          | None => submitted now rid client payload s
          end).
Proof.
  unfold accept_block, try_except, on_tracker, mbind, M_bind.
  destruct (dget rid (tracker s)) as [r|] eqn:Hr.
  - rewrite RequestTrackerFacts.submit_duplicate by by eexists. simpl.
    by rewrite set_tracker_id.
  - rewrite RequestTrackerFacts.submit_fresh by done. simpl. unfold modify.
    rewrite try_transition_eq. simpl. do 2 f_equal.
    unfold submitted, set_tracker, set_pending, set_encoder_tta. simpl. do 3 f_equal.
    erewrite RequestTrackerFacts.transition_ok; [|apply dget_dset_eq|done]. simpl.
    by rewrite dset_dset.
Qed.

Section RefineBlocks.
Context (env : Env) (now : Qc).
Local Abbreviation ok := (steps (refines env)).

Lemma ok_return_block rid b : ok (return_block env rid b).
Proof.
  intros s. rewrite return_block_eq. simpl. destruct (dget rid (pending s)).
  - etrans; [apply refines_once, (st_finish env s b rid)|]. apply refines_once. constructor.
  - apply refines_once. constructor.
Qed.

Lemma ok_finish_with rid st a (k : M Server unit) :
  (∀ s, ∃ b f, (k s).2 = f (finish env (Result b) rid s) ∧
     ∀ s', sstep env s' (f s') ∨ f s' = s') →
  ok (try_transition now rid st a ≫= λ _, k).
Proof.
  intros Hk s. unfold mbind, M_bind. rewrite try_transition_eq. simpl.
  destruct (Hk (set_tracker (λ t, (RequestTracker.transition now rid st a t).2) s))
    as (b & f & -> & Hf).
  rewrite finish_after_transition.
  etrans; [apply refines_once, (st_finish env s b rid)|].
  destruct (Hf (finish env (Result b) rid s)) as [H| ->]; [by apply refines_once|reflexivity].
Qed.

Lemma ok_return_after rid st a b :
  ok (try_transition now rid st a ≫= λ _, return_block env rid b).
Proof.
  apply ok_finish_with. intros s. rewrite return_block_eq. simpl.
  eexists _, _. split; [done|]. intros s'.
  destruct (dget rid (pending s)); [left; constructor|by right].
Qed.

Lemma ok_return_from_msg rid st a msg :
  ok (try_transition now rid st a ≫= λ _, transfer_return_to_client_from_msg env rid msg).
Proof.
  apply ok_finish_with. intros s. rewrite return_from_msg_eq. simpl.
  exists (error_batch (get_json msg "error")), id. split; [done|]. by right.
Qed.

End RefineBlocks.

#[export] Hint Extern 0 (steps _ (mbind (λ _, mbind _ (pop_pending _)) (try_transition _ _ _ _))) =>
  apply ok_return_after : srv.
#[export] Hint Extern 0 (steps _ (mbind (λ _, mbind _ (pop_pending _)) (if ?b then _ else _))) =>
  destruct b; apply ok_return_after : srv.
#[export] Hint Extern 0
  (steps _ (mbind (λ _, transfer_return_to_client_from_msg _ _ _) (try_transition _ _ _ _))) =>
  apply ok_return_from_msg : srv.

Section RefineHandlers.
Context (env : Env) (now : Qc).
Local Abbreviation ok := (steps (refines env)).

Lemma ok_handle_role_error_frames frames role :
  ok (handle_role_error_frames env now frames role).
Proof. unfold handle_role_error_frames. srv. Qed.

Lemma ok_handle_decoder_result_frames frames :
  ok (handle_decoder_result_frames env now frames).
Proof. unfold handle_decoder_result_frames. srv. Qed.

Lemma ok_free_slot_for_record r : ok (free_slot_for_record r).
Proof. unfold free_slot_for_record. srv. Qed.

Lemma ok_register msg : ok (handle_transfer_register msg).
Proof. unfold handle_transfer_register. srv. Qed.

Lemma ok_fast_path rid l i :
  ok (try_fast_path_push rid l i denoiser_peers set_denoiser_peers push_encoder) ∧
  ok (try_fast_path_push rid l i decoder_peers set_decoder_peers push_denoiser).
Proof. unfold try_fast_path_push. split; srv. Qed.

Lemma ok_slow_path rid l i src :
  ok (send_slow_path_alloc rid l push_denoiser i src) ∧
  ok (send_slow_path_alloc rid l push_decoder i src).
Proof. unfold send_slow_path_alloc. split; srv. Qed.

Lemma ok_allocated msg : ok (handle_transfer_allocated msg).
Proof. unfold handle_transfer_allocated. srv. Qed.

Lemma ok_pushed msg : ok (handle_transfer_pushed msg).
Proof. unfold handle_transfer_pushed. srv. Qed.

Lemma ok_recycle l role : ok (recycle_prealloc_slot l role).
Proof. unfold recycle_prealloc_slot. srv. Qed.

Lemma ok_free_denoiser r : ok (free_denoiser_of r).
Proof. unfold free_denoiser_of. srv. Qed.
End RefineHandlers.

#[export] Hint Resolve ok_handle_role_error_frames
  ok_handle_decoder_result_frames ok_free_slot_for_record ok_register ok_allocated ok_pushed
  ok_recycle ok_free_denoiser : srv.
#[export] Hint Extern 1 (steps (refines _) (try_fast_path_push _ _ _ _ _ _)) =>
  first [apply ok_fast_path | eapply ok_fast_path] : srv.
#[export] Hint Extern 1 (steps (refines _) (send_slow_path_alloc _ _ _ _ _)) =>
  first [apply ok_slow_path | eapply ok_slow_path] : srv.

(** Sequencing at a given state, when the first part needs a fact about it. *)
Lemma refines_bind_at {A B} env (m : M Server A) (k : A → M Server B) s :
  refines env s (m s).2 → (∀ a, steps (refines env) (k a)) → refines env s ((m ≫= k) s).2.
Proof.
  intros Hm Hk. unfold mbind, M_bind. destruct (m s) as [[a|e] s']; simpl in *; [|done].
  etrans; [exact Hm|apply Hk].
Qed.

Lemma add_encoder_eq i d f s : encoder_free_slots s !! i = Some f →
  add_encoder_slots i d s = (Ok tt, set_encoder_free_slots (λ l, <[i := f + d]> l) s).
Proof.
  intros Hf. unfold add_encoder_slots, mbind, M_bind, gets, lift_res, list_update. by rewrite Hf.
Qed.
Lemma add_denoiser_eq i d f s : denoiser_free_slots s !! i = Some f →
  add_denoiser_slots i d s = (Ok tt, set_denoiser_free_slots (λ l, <[i := f + d]> l) s).
Proof.
  intros Hf. unfold add_denoiser_slots, mbind, M_bind, gets, lift_res, list_update. by rewrite Hf.
Qed.
Lemma add_decoder_eq i d f s : decoder_free_slots s !! i = Some f →
  add_decoder_slots i d s = (Ok tt, set_decoder_free_slots (λ l, <[i := f + d]> l) s).
Proof.
  intros Hf. unfold add_decoder_slots, mbind, M_bind, gets, lift_res, list_update. by rewrite Hf.
Qed.

Lemma deref_eq l s :
  deref l s = (match heap s !! l with Some p => Ok p | None => Raise RuntimeError end, s).
Proof. unfold deref, mbind, M_bind, gets. by destruct (heap s !! l). Qed.

Lemma alloc_p2p_eq p s :
  let l := fresh (dom (heap s) : gset positive) in
  alloc_p2p p s = (Ok l, set_heap (λ h, <[l := p]> h) s).
Proof. done. Qed.

(** The part the two transfer dispatches share: the receiver is recorded in the
    transfer object and the request moves on, then the rest of the handler runs. *)
Lemma refines_assign {A} env now rid l (i : nat) st a (k : M Server A) s :
  is_active_state st = true →
  (∀ p, args_ok (set_heap (λ h, <[l := set_receiver_instance i p]> h) s) st a) →
  steps (refines env) k →
  refines env s ((p2p ← deref l; store l (set_receiver_instance i p2p) ≫= λ _,
    try_transition now rid st a ≫= λ _, k) s).2.
Proof.
  intros Hst Ha Hk. pose proof (deref_eq l s) as Hl. destruct (heap s !! l) as [p|].
  2:{ unfold mbind at 1, M_bind at 1. rewrite Hl. reflexivity. }
  erewrite bind_Ok by exact Hl. erewrite bind_Ok by reflexivity.
  erewrite bind_Ok by apply try_transition_eq.
  etrans; [apply refines_once, (st_heap env _ l (set_receiver_instance i p))|].
  etrans; [apply refines_once, (st_transition env _ now rid st a); [done|apply Ha]|]. apply Hk.
Qed.

(** What the dispatcher answers for each pool. *)
Definition selects (free : list Z) (r : res (option nat)) : Prop :=
  match r with
  | Ok (Some i) => ∃ f, free !! i = Some f ∧ 0 < f
  | Ok None => ∀ i f, free !! i = Some f → f ≤ 0
  | Raise _ => False
  end.

Lemma policy_selects (p : AnyPolicy) free :
  policy_wf p → num_instances p = length free →
  selects free (select_with_capacity free p).1 ∧
  policy_wf (select_with_capacity free p).2 ∧
  num_instances (select_with_capacity free p).2 = length free.
Proof.
  intros Hp Hn. split_and!; [|by apply swc_wf|by rewrite swc_num].
  destruct (swc_total p free Hp) as [[i|] H]; [done| |]; rewrite H; simpl.
  - by apply swc_sound in H as [_ ?].
  - intros i f Hf. eapply swc_complete; [done..| |done]. rewrite Hn. by apply lookup_lt_Some in Hf.
Qed.

Section RefineDispatch.
Context (env : Env) (now : Qc).
Local Abbreviation ok := (steps (refines env)).

Lemma select_encoder_ok s : disp_ok s →
  let r := on_dispatcher (select_encoder_with_capacity (encoder_free_slots s)) s in
  sstep env s r.2 ∧ selects (encoder_free_slots s) r.1.
Proof.
  intros (Hd1 & Hd2 & Hd3).
  destruct (policy_selects _ (encoder_free_slots s) (proj1 Hd1) (proj2 Hd1)) as (? & ? & ?).
  split; [|done]. apply st_policy. unfold disp_ok, dispatcher_wf. simpl. destruct_and!. by split_and!.
Qed.
Lemma select_denoiser_ok s : disp_ok s →
  let r := on_dispatcher (select_denoiser_with_capacity (denoiser_free_slots s)) s in
  sstep env s r.2 ∧ selects (denoiser_free_slots s) r.1.
Proof.
  intros (Hd1 & Hd2 & Hd3).
  destruct (policy_selects _ (denoiser_free_slots s) (proj1 Hd2) (proj2 Hd2)) as (? & ? & ?).
  split; [|done]. apply st_policy. unfold disp_ok, dispatcher_wf. simpl. destruct_and!. by split_and!.
Qed.
Lemma select_decoder_ok s : disp_ok s →
  let r := on_dispatcher (select_decoder_with_capacity (decoder_free_slots s)) s in
  sstep env s r.2 ∧ selects (decoder_free_slots s) r.1.
Proof.
  intros (Hd1 & Hd2 & Hd3).
  destruct (policy_selects _ (decoder_free_slots s) (proj1 Hd3) (proj2 Hd3)) as (? & ? & ?).
  split; [|done]. apply st_policy. unfold disp_ok, dispatcher_wf. simpl. destruct_and!. by split_and!.
Qed.

(** Taking a slot of an instance that has one, then assigning it to the request. *)
Lemma ok_dispatch_encoder rid payload s i f :
  encoder_free_slots s !! i = Some f → 0 < f →
  refines env s (dispatch_to_encoder now rid payload i s).2.
Proof.
  intros Hf Hpos. unfold dispatch_to_encoder. erewrite bind_Ok by by apply add_encoder_eq.
  etrans; [apply refines_once, (st_encoder_slot env s i f (-1)); auto|].
  erewrite bind_Ok by apply try_transition_eq.
  etrans; [|apply ok_push_encoder]. apply refines_once, st_transition; [done|].
  split_and!; simpl; try (done || eauto). intros ? [= <-]. unfold num_encoders. simpl.
  rewrite length_insert. by apply lookup_lt_Some in Hf.
Qed.

Lemma ok_dispatch_denoiser rid l s i f :
  denoiser_free_slots s !! i = Some f → 0 < f →
  refines env s (transfer_dispatch_to_denoiser now rid l i s).2.
Proof.
  intros Hf Hpos. unfold transfer_dispatch_to_denoiser.
  erewrite bind_Ok by by apply add_denoiser_eq.
  etrans; [apply refines_once, (st_denoiser_slot env s i f (-1)); auto|].
  apply refines_assign; [done| |srv]. intros p.
  split_and!; simpl; try (done || eauto). intros ? [= <-]. unfold num_denoisers. simpl.
  rewrite length_insert. by apply lookup_lt_Some in Hf.
Qed.

Lemma ok_dispatch_decoder rid l s i f :
  decoder_free_slots s !! i = Some f → 0 < f →
  refines env s (transfer_dispatch_to_decoder now rid l i s).2.
Proof.
  intros Hf Hpos. unfold transfer_dispatch_to_decoder.
  erewrite bind_Ok by by apply add_decoder_eq.
  etrans; [apply refines_once, (st_decoder_slot env s i f (-1)); auto|].
  apply refines_assign; [done| |srv]. intros p.
  split_and!; simpl; try (done || eauto). intros ? [= <-]. unfold num_decoders. simpl.
  rewrite length_insert. by apply lookup_lt_Some in Hf.
Qed.

(** One round of a draining loop: the policy is asked, and the head of the queue
    leaves it for an instance with a free slot. *)
Lemma drain_encoder_S n s :
  drain_encoder_loop now (S n) s =
  match encoder_tta s with
  | [] => (Ok tt, s)
  | e :: q =>
      let r := on_dispatcher (select_encoder_with_capacity (encoder_free_slots s)) s in
      match r.1 with
      | Ok None => (Ok tt, r.2)
      | Ok (Some i) =>
          (dispatch_to_encoder now (ee_request_id e) (ee_payload e) i
             ≫= λ _, drain_encoder_loop now n) (set_encoder_tta (λ _, q) r.2)
      | Raise ex => (Raise ex, r.2)
      end
  end.
Proof.
  cbn [drain_encoder_loop]. unfold gets. unfold mbind at 1, M_bind at 1.
  destruct (encoder_tta s) as [|e q]; [done|]. unfold mbind at 1 2, M_bind at 1 2.
  by destruct (on_dispatcher _ s) as [[[i|]|ex] s1].
Qed.
Lemma drain_denoiser_S n s :
  drain_denoiser_loop now (S n) s =
  match denoiser_tta s with
  | [] => (Ok tt, s)
  | e :: q =>
      let r := on_dispatcher (select_denoiser_with_capacity (denoiser_free_slots s)) s in
      match r.1 with
      | Ok None => (Ok tt, r.2)
      | Ok (Some i) =>
          (transfer_dispatch_to_denoiser now (re_request_id e) (re_transfer_state e) i
             ≫= λ _, drain_denoiser_loop now n) (set_denoiser_tta (λ _, q) r.2)
      | Raise ex => (Raise ex, r.2)
      end
  end.
Proof.
  cbn [drain_denoiser_loop]. unfold gets. unfold mbind at 1, M_bind at 1.
  destruct (denoiser_tta s) as [|e q]; [done|]. unfold mbind at 1 2, M_bind at 1 2.
  by destruct (on_dispatcher _ s) as [[[i|]|ex] s1].
Qed.
Lemma drain_decoder_S n s :
  drain_decoder_loop now (S n) s =
  match decoder_tta s with
  | [] => (Ok tt, s)
  | e :: q =>
      let r := on_dispatcher (select_decoder_with_capacity (decoder_free_slots s)) s in
      match r.1 with
      | Ok None => (Ok tt, r.2)
      | Ok (Some i) =>
          (transfer_dispatch_to_decoder now (re_request_id e) (re_transfer_state e) i
             ≫= λ _, drain_decoder_loop now n) (set_decoder_tta (λ _, q) r.2)
      | Raise ex => (Raise ex, r.2)
      end
  end.
Proof.
  cbn [drain_decoder_loop]. unfold gets. unfold mbind at 1, M_bind at 1.
  destruct (decoder_tta s) as [|e q]; [done|]. unfold mbind at 1 2, M_bind at 1 2.
  by destruct (on_dispatcher _ s) as [[[i|]|ex] s1].
Qed.
Lemma ok_drain_encoder n : ok (drain_encoder_loop now n).
Proof.
  induction n as [|n IH]; [apply steps_ret, _|]. intros s Hd. rewrite drain_encoder_S.
  destruct (encoder_tta s) as [|e q] eqn:Hq; [constructor|].
  destruct (select_encoder_ok s Hd) as [Hst Hsel]. cbv zeta in *.
  set (r := on_dispatcher _ s) in *.
  destruct r.1 as [[i|]|ex]; [|by apply rtc_once..]. destruct Hsel as (f & Hf & Hpos).
  revert Hd. change (refines env s ((
    dispatch_to_encoder now (ee_request_id e) (ee_payload e) i
      ≫= λ _, drain_encoder_loop now n) (set_encoder_tta (λ _, q) r.2)).2).
  etrans; [by apply refines_once|].
  etrans; [apply refines_once, (st_encoder_queue env r.2 q); simpl; rewrite Hq; set_solver|].
  apply refines_bind_at; [|done]. by eapply ok_dispatch_encoder.
Qed.
Lemma ok_drain_denoiser n : ok (drain_denoiser_loop now n).
Proof.
  induction n as [|n IH]; [apply steps_ret, _|]. intros s Hd. rewrite drain_denoiser_S.
  destruct (denoiser_tta s) as [|e q] eqn:Hq; [constructor|].
  destruct (select_denoiser_ok s Hd) as [Hst Hsel]. cbv zeta in *.
  set (r := on_dispatcher _ s) in *.
  destruct r.1 as [[i|]|ex]; [|by apply rtc_once..]. destruct Hsel as (f & Hf & Hpos).
  revert Hd. change (refines env s ((
    transfer_dispatch_to_denoiser now (re_request_id e) (re_transfer_state e) i
      ≫= λ _, drain_denoiser_loop now n) (set_denoiser_tta (λ _, q) r.2)).2).
  etrans; [by apply refines_once|].
  etrans; [apply refines_once, (st_denoiser_queue env r.2 q); simpl; rewrite Hq; set_solver|].
  apply refines_bind_at; [|done]. by eapply ok_dispatch_denoiser.
Qed.
Lemma ok_drain_decoder n : ok (drain_decoder_loop now n).
Proof.
  induction n as [|n IH]; [apply steps_ret, _|]. intros s Hd. rewrite drain_decoder_S.
  destruct (decoder_tta s) as [|e q] eqn:Hq; [constructor|].
  destruct (select_decoder_ok s Hd) as [Hst Hsel]. cbv zeta in *.
  set (r := on_dispatcher _ s) in *.
  destruct r.1 as [[i|]|ex]; [|by apply rtc_once..]. destruct Hsel as (f & Hf & Hpos).
  revert Hd. change (refines env s ((
    transfer_dispatch_to_decoder now (re_request_id e) (re_transfer_state e) i
      ≫= λ _, drain_decoder_loop now n) (set_decoder_tta (λ _, q) r.2)).2).
  etrans; [by apply refines_once|].
  etrans; [apply refines_once, (st_decoder_queue env r.2 q); simpl; rewrite Hq; set_solver|].
  apply refines_bind_at; [|done]. by eapply ok_dispatch_decoder.
Qed.
End RefineDispatch.

#[export] Hint Resolve ok_drain_encoder ok_drain_denoiser ok_drain_decoder : srv.

Section RefineLoop.
Context (env : Env) (now : Qc).
Local Abbreviation ok := (steps (refines env)).

Lemma ok_filter_encoder P `{∀ e, Decision (P e)} : ok (modify (set_encoder_tta (filter P))).
Proof.
  intros s. apply refines_once, (st_encoder_queue env s (filter P (encoder_tta s))).
  intros e. rewrite list_elem_of_filter. tauto.
Qed.
Lemma ok_filter_denoiser P `{∀ e, Decision (P e)} : ok (modify (set_denoiser_tta (filter P))).
Proof.
  intros s. apply refines_once, (st_denoiser_queue env s (filter P (denoiser_tta s))).
  intros e. rewrite list_elem_of_filter. tauto.
Qed.
Lemma ok_filter_decoder P `{∀ e, Decision (P e)} : ok (modify (set_decoder_tta (filter P))).
Proof.
  intros s. apply refines_once, (st_decoder_queue env s (filter P (decoder_tta s))).
  intros e. rewrite list_elem_of_filter. tauto.
Qed.
Hint Resolve ok_filter_encoder ok_filter_denoiser ok_filter_decoder : srv.

Lemma ok_handle_timeouts : ok (handle_timeouts env now).
Proof. unfold handle_timeouts. srv. Qed.

(** A fresh transfer object is entered in [_transfer_state] and queued. *)
Lemma ok_stage rid p :
  ok (l ← alloc_p2p p;
      modify (set_transfer_state (dset rid l)) ≫= λ _,
      try_transition now rid ENCODER_DONE no_args ≫= λ _,
      try_transition now rid DENOISING_WAITING no_args ≫= λ _,
      modify (set_denoiser_tta (λ q, q ++ [mk_rtta rid l])%list)).
Proof.
  intros s. erewrite bind_Ok by apply alloc_p2p_eq. erewrite bind_Ok by reflexivity.
  erewrite bind_Ok by apply try_transition_eq. erewrite bind_Ok by apply try_transition_eq.
  set (l := fresh _).
  etrans; [apply refines_once, (st_heap env s l p)|].
  etrans; [apply refines_once, (st_transfer_set env _ rid l); simpl;
    rewrite lookup_insert_eq; eauto|].
  etrans; [apply refines_once, (st_transition env _ now rid ENCODER_DONE no_args); [done|];
    apply args_none; set_solver|].
  etrans; [apply refines_once, (st_transition env _ now rid DENOISING_WAITING no_args); [done|];
    apply args_none; set_solver|].
  apply refines_once, st_denoiser_queue. intros e [?|He%list_elem_of_singleton]%elem_of_app;
    [by left|right; subst e]. simpl. rewrite lookup_insert_eq. eauto.
Qed.

Lemma ok_handle_transfer_staged msg : ok (handle_transfer_staged now msg).
Proof.
  unfold handle_transfer_staged. repeat first
    [ match goal with |- steps _ (mbind _ (alloc_p2p _)) => apply ok_stage end | srv_step ].
Qed.

Lemma ok_requeue rid l p :
  ok (store l p ≫= λ _, try_transition now rid DECODER_WAITING no_args ≫= λ _,
      modify (set_decoder_tta (λ q, q ++ [mk_rtta rid l])%list)).
Proof.
  intros s. erewrite bind_Ok by reflexivity. erewrite bind_Ok by apply try_transition_eq.
  etrans; [apply refines_once, (st_heap env s l p)|].
  etrans; [apply refines_once, (st_transition env _ now rid DECODER_WAITING no_args); [done|];
    apply args_none; set_solver|].
  apply refines_once, st_decoder_queue. intros e [?|He%list_elem_of_singleton]%elem_of_app;
    [by left|right; subst e]. simpl. rewrite lookup_insert_eq. eauto.
Qed.

Lemma ok_handle_transfer_done msg role : ok (handle_transfer_done env now msg role).
Proof.
  unfold handle_transfer_done. repeat first
    [ match goal with |- steps _ (mbind _ (store _ _)) => apply ok_requeue end | srv_step ].
Qed.
Hint Resolve ok_handle_timeouts ok_handle_transfer_staged ok_handle_transfer_done : srv.

Lemma ok_handle_role_result frames role : ok (handle_role_result env now frames role).
Proof. unfold handle_role_result, handle_transfer_result. srv. Qed.
Hint Resolve ok_handle_role_result : srv.

Lemma ok_drain_all : ok (drain_all_queues now).
Proof.
  assert (∀ (f : Server → nat) (m : nat → M Server unit),
    (∀ n, ok (m n)) → ok (λ s, m (f s) s)) as H by (intros f m Hm s; apply Hm).
  unfold drain_all_queues, drain_encoder_tta, drain_denoiser_tta, drain_decoder_tta.
  apply steps_bind; [apply _|apply H; srv|intros _].
  apply steps_bind; [apply _|apply H; srv|intros _; apply H; srv].
Qed.
Hint Resolve ok_drain_all : srv.

End RefineLoop.

(** ** Client requests *)

(** What [_handle_client_request] makes of a message, before it consults the tracker. *)
Inductive ClientMsg := Nothing | NotARequest (c : string) | Request (rid c payload : string).

Definition classify_request (env : Env) (now : Qc) (parts : list string) : ClientMsg :=
  match parts with
  | c :: _ :: _ :: _ =>
      let payload := List.last parts "" in
      match pickle_loads env payload with
      | PickleOne r | PickleList (r :: _) =>
          match r with
          | PyReqId o => Request (default ("ds-" +:+ format_time env now) o) c payload
          | _ => NotARequest c
          end
      | _ => Nothing
      end
  | _ => Nothing
  end.

(** The client whose message starts a new request, if it does. *)
Definition accepts (env : Env) (now : Qc) (parts : list string) (s : Server) : list string :=
  match classify_request env now parts with
  | Request rid c _ => if decide (dget rid (tracker s) = None) then [c] else []
  | _ => []
  end.

Lemma handle_client_request_state env now parts s :
  (handle_client_request env now parts s).2 =
  match classify_request env now parts with
  | Nothing => s
  | NotARequest c => (send_to_client env c Ignored s).2
  | Request rid c payload =>
      match dget rid (tracker s) with
      | Some _ => s
      | None => submitted now rid c payload s
      end
  end.
Proof.
  unfold handle_client_request, classify_request. destruct parts as [|c [|x [|y parts]]]; try done.
  destruct (pickle_loads _ _) as [|e|[]|[|[] ?]]; try done; apply (f_equal snd (accept_block_eq _ _ _ _ _)).
Qed.

(** ** The event loop as a path

    [path env cs s s']: [s'] is reached from [s] by elementary steps and the
    acceptance of new requests from the clients [cs], in this order. *)
Inductive path (env : Env) : list string → Server → Server → Prop :=
  | path_nil s : path env [] s s
  | path_step cs s s1 s2 : sstep env s s1 → path env cs s1 s2 → path env cs s s2
  | path_submit cs s s2 now rid client payload :
      dget rid (tracker s) = None →
      path env cs (submitted now rid client payload s) s2 → path env (client :: cs) s s2.

Lemma path_rtc env n s s1 s2 : rtc (sstep env) s s1 → path env n s1 s2 → path env n s s2.
Proof. induction 1; eauto using path_step. Qed.

Lemma path_of_rtc env s s' : rtc (sstep env) s s' → path env [] s s'.
Proof. intros H. eapply path_rtc; [done|constructor]. Qed.

Lemma path_trans env n m s s1 s2 :
  path env n s s1 → path env m s1 s2 → path env (n ++ m)%list s s2.
Proof. induction 1; simpl; eauto using path_step, path_submit. Qed.

Lemma path_disp_ok env n s s' : path env n s s' → disp_ok s → disp_ok s'.
Proof. induction 1; eauto using sstep_disp_ok. Qed.

(** The messages of one iteration after the client's. *)
Definition rest_of_iteration (env : Env) (now : Qc) (ev : Poll) : M Server unit :=
  on_message (from_encoders ev) (λ f, handle_role_result env now f ENCODER) ≫= λ _,
  on_message (from_denoisers ev) (λ f, handle_role_result env now f DENOISER) ≫= λ _,
  on_message (from_decoders ev) (λ f, handle_role_result env now f DECODER) ≫= λ _,
  drain_all_queues now.

(** The clients an iteration accepts a request from: at most one, once timeouts are
    handled. *)
Definition iteration_accepts (env : Env) (now : Qc) (ev : Poll) (s : Server) : list string :=
  match handle_timeouts env now s with
  | (Ok _, s1) =>
      match from_frontend ev with
      | Some parts => accepts env now parts s1
      | None => []
      end
  | (Raise _, _) => []
  end.

Lemma client_path env now parts s :
  path env (accepts env now parts s) s (handle_client_request env now parts s).2.
Proof.
  rewrite handle_client_request_state. unfold accepts.
  destruct (classify_request env now parts) as [|c|rid c payload]; [constructor| |].
  - eapply path_step; [apply st_ignored|constructor].
  - destruct (dget rid (tracker s)) eqn:E; rewrite ?decide_True, ?decide_False by done;
      [constructor|]. eapply path_submit; [done|constructor].
Qed.

Lemma rest_ok env now ev : steps (refines env) (rest_of_iteration env now ev).
Proof.
  unfold rest_of_iteration, on_message.
  repeat first [apply ok_drain_all | apply ok_handle_role_result | srv_step].
Qed.

Lemma iteration_path env now ev s :
  disp_ok s → path env (iteration_accepts env now ev s) s (loop_iteration env now ev s).2.
Proof.
  intros Hd. pose proof (ok_handle_timeouts env now s Hd) as Ht.
  change (loop_iteration env now ev) with
    (handle_timeouts env now ≫= λ _, on_message (from_frontend ev) (handle_client_request env now)
       ≫= λ _, rest_of_iteration env now ev).
  unfold iteration_accepts. unfold mbind at 1, M_bind at 1.
  destruct (handle_timeouts env now s) as [[[]|e] s1]; simpl in *; [|by apply path_of_rtc].
  eapply path_rtc; [exact Ht|]. apply rtc_disp_ok in Ht; [|done].
  destruct (from_frontend ev) as [parts|]; simpl.
  2:{ apply path_of_rtc. by apply rest_ok. }
  pose proof (client_path env now parts s1) as Hc. unfold mbind, M_bind.
  destruct (handle_client_request env now parts s1) as [[[]|e] s2]; simpl in *; [|done].
  rewrite <-(app_nil_r (accepts _ _ _ _)). eapply path_trans; [exact Hc|].
  apply path_of_rtc, rest_ok. by eapply path_disp_ok.
Qed.

(** The clients a run of the event loop accepts requests from. *)
Fixpoint accepted (env : Env) (evs : list (Qc * Poll)) (s : Server) : list string :=
  match evs with
  | [] => []
  | (now, ev) :: evs =>
      (iteration_accepts env now ev s ++
       match loop_iteration env now ev s with
       | (Ok _, s') => accepted env evs s'
       | (Raise _, _) => []
       end)%list
  end.

Lemma event_loop_path env evs s :
  disp_ok s → path env (accepted env evs s) s (event_loop env evs s).2.
Proof.
  revert s. induction evs as [|[now ev] evs IH]; intros s Hd; simpl; [constructor|].
  pose proof (iteration_path env now ev s Hd) as H.
  destruct (loop_iteration env now ev s) as [[u|e] s1]; simpl in *.
  - eapply path_trans; [exact H|]. apply IH. by eapply path_disp_ok.
  - by rewrite app_nil_r.
Qed.
