(* ===== verification/OrchestratorSafety.v ===== *)
(** * Safety of the orchestrator

    The invariant of [DiffusionServer]'s state and what follows from it for every
    run of the event loop: consistency of the tracker with the table of waiting
    clients, sound slot counters, no dangling transfer object, and exactly one
    result per accepted request. *)

From S2P Require Import Prelude PyJson Codec Protocol Roles RequestState Dispatch Orchestrator OrchestratorFacts.
Local Open Scope string_scope.
Local Open Scope Z_scope.


(** ** The invariant *)

(** The instances a record names exist, and a request that has reached a running
    state of a role knows the instance it was given to. *)
Definition record_ok (ne nn nd : nat) (r : RequestRecord) : Prop :=
  is_active_state (state r) = true ∧
  (∀ i, encoder_instance r = Some i → (i < ne)%nat) ∧
  (∀ i, denoiser_instance r = Some i → (i < nn)%nat) ∧
  (∀ i, decoder_instance r = Some i → (i < nd)%nat) ∧
  ((2 ≤ state_rank (state r))%nat → is_Some (encoder_instance r)) ∧
  ((5 ≤ state_rank (state r))%nat → is_Some (denoiser_instance r)) ∧
  ((8 ≤ state_rank (state r))%nat → is_Some (decoder_instance r)).

Record server_inv (s : Server) : Prop := {
  inv_disp : disp_ok s;
  inv_tracker : tracker_wf (tracker s);
  inv_pending : NoDup (dkeys (pending s));
  inv_same : ∀ rid, is_Some (dget rid (pending s)) ↔ is_Some (dget rid (tracker s));
  inv_records : ∀ rid r, dget rid (tracker s) = Some r →
    record_ok (num_encoders s) (num_denoisers s) (num_decoders s) r;
  inv_encoder_slots : Forall (Z.le 0) (encoder_free_slots s);
  inv_denoiser_slots : Forall (Z.le 0) (denoiser_free_slots s);
  inv_decoder_slots : Forall (Z.le 0) (decoder_free_slots s);
  inv_transfer : ∀ rid l, dget rid (transfer_state s) = Some l → is_Some (heap s !! l);
  inv_denoiser_q : ∀ e, e ∈ denoiser_tta s → is_Some (heap s !! re_transfer_state e);
  inv_decoder_q : ∀ e, e ∈ decoder_tta s → is_Some (heap s !! re_transfer_state e);
}.

(** ** Preservation *)

Lemma override_lt {A} (P : A → Prop) (new old : option A) :
  (∀ i, new = Some i → P i) → (∀ i, old = Some i → P i) →
  ∀ i, override new old = Some i → P i.
Proof. destruct new; simpl; eauto. Qed.

Lemma override_Some {A} (new old : option A) :
  is_Some new ∨ is_Some old → is_Some (override new old).
Proof. intros [[x ->]|[x ->]]; [by eexists|]. destruct new; by eexists. Qed.

(** A state at or past a running state is that state, or was reached from one that is
    already at or past it. *)
Lemma rank_from s s' : transition_allowed s s' = true → is_active_state s' = true →
  ((2 ≤ state_rank s')%nat → s' = ENCODER_RUNNING ∨ (2 ≤ state_rank s)%nat) ∧
  ((5 ≤ state_rank s')%nat → s' = DENOISING_RUNNING ∨ (5 ≤ state_rank s)%nat) ∧
  ((8 ≤ state_rank s')%nat → s' = DECODER_RUNNING ∨ (8 ≤ state_rank s)%nat).
Proof.
  destruct s, s'; try discriminate; intros _ _; simpl; split_and!; intros; auto; try lia;
    right; lia.
Qed.

Lemma apply_transition_ok s now st a r :
  record_ok (num_encoders s) (num_denoisers s) (num_decoders s) r →
  transition_allowed (state r) st = true → is_active_state st = true → args_ok s st a →
  record_ok (num_encoders s) (num_denoisers s) (num_decoders s)
    (RequestTracker.apply_transition now st a r).
Proof.
  intros (_ & He & Hn & Hd & Re & Rn & Rd) Hal Hst (Ae & An & Ad & Ie & In & Id).
  destruct (rank_from _ _ Hal Hst) as (F1 & F2 & F3). unfold record_ok. simpl.
  split_and!; [done|by apply override_lt..| | |]; intros Hr; apply override_Some.
  - destruct (F1 Hr); auto.
  - destruct (F2 Hr); auto.
  - destruct (F3 Hr); auto.
Qed.

Lemma transition_inv_records s now rid st a :
  (∀ k r, dget k (tracker s) = Some r →
    record_ok (num_encoders s) (num_denoisers s) (num_decoders s) r) →
  is_active_state st = true → args_ok s st a →
  ∀ k r, dget k (RequestTracker.transition now rid st a (tracker s)).2 = Some r →
    record_ok (num_encoders s) (num_denoisers s) (num_decoders s) r.
Proof.
  intros Hinv Hst Ha k r.
  destruct (RequestTrackerFacts.transition_cases now rid st a (tracker s))
    as [->|(r0 & Hr0 & Hal & ->)]; [apply Hinv|]. simpl. rewrite dget_dset.
  case_decide; [|apply Hinv]. intros [= <-]. by eapply apply_transition_ok; eauto.
Qed.

Lemma transition_dom now rid st a t k :
  is_Some (dget k (RequestTracker.transition now rid st a t).2) ↔ is_Some (dget k t).
Proof.
  destruct (RequestTrackerFacts.transition_cases now rid st a t) as [->|(r & Hr & _ & ->)]; [done|].
  simpl. rewrite dget_dset. case_decide; [|done]. subst. rewrite Hr. by split; eexists.
Qed.

Lemma slots_insert (l : list Z) i f d :
  Forall (Z.le 0) l → l !! i = Some f → d = 1 ∨ d = -1 ∧ 0 < f → Forall (Z.le 0) (<[i:=f + d]> l).
Proof.
  intros Hl Hf Hd. apply Forall_insert; [done|].
  pose proof (Forall_lookup_1 _ _ _ _ Hl Hf). simpl in *. lia.
Qed.

Lemma insert_heap_Some (h : gmap loc TransferRequestState) l p k :
  is_Some (h !! k) → is_Some (<[l := p]> h !! k).
Proof. intros. destruct (decide (l = k)); subst; simplify_map_eq; eauto. Qed.

Lemma sstep_inv env s s' : sstep env s s' → server_inv s → server_inv s'.
Proof.
  intros Hst [Hd Ht Hp Hsame Hrec He Hn Hc Htr Hdq Hcq].
  pose proof (sstep_disp_ok _ _ _ Hst Hd) as Hd'.
  unfold num_encoders, num_denoisers, num_decoders in Hrec.
  destruct Hst; split; unfold finish, num_encoders, num_denoisers, num_decoders; simpl;
    try done; try (intros; rewrite ?length_insert; by eauto using slots_insert, insert_heap_Some).
  - by apply RequestTrackerFacts.transition_wf.
  - intros k. by rewrite transition_dom.
  - by apply transition_inv_records.
  - by apply RequestTrackerFacts.ddel_wf.
  - by apply NoDup_ddel.
  - intros k. rewrite !dget_ddel. case_decide; [|done]. by split; intros [].
  - intros k r. rewrite dget_ddel. case_decide; [done|]. eauto.
  - intros e Hin. destruct (H e Hin); eauto.
  - intros e Hin. destruct (H e Hin); eauto.
  - intros k l'. rewrite dget_dset. case_decide; [by intros [= <-]|eauto].
  - intros k l'. rewrite dget_ddel. case_decide; [done|eauto].
Qed.

Lemma submitted_inv now rid c payload s :
  server_inv s → dget rid (tracker s) = None → server_inv (submitted now rid c payload s).
Proof.
  intros [Hd Ht Hp Hsame Hrec He Hn Hc Htr Hdq Hcq] Hfresh. split; simpl; try done.
  - by apply RequestTrackerFacts.dset_wf.
  - by apply NoDup_dset.
  - intros k. rewrite !dget_dset. case_decide; [by split; eexists|done].
  - intros k r. rewrite dget_dset. case_decide; [|apply Hrec]. intros [= <-].
    unfold record_ok. simpl. split_and!; try done; lia.
Qed.

Lemma path_inv env n s s' : path env n s s' → server_inv s → server_inv s'.
Proof. induction 1; eauto using sstep_inv, submitted_inv. Qed.

Lemma init_inv ee de ce policy timeout ec dc cc s :
  0 ≤ ec → 0 ≤ dc → 0 ≤ cc →
  init_server ee de ce policy timeout ec dc cc = Ok s → server_inv s.
Proof.
  unfold init_server. intros He Hd Hc H.
  destruct (create_pool_dispatcher _ _ _ _) as [d|] eqn:Hp; simplify_eq/=.
  apply create_pool_dispatcher_wf in Hp. rewrite !Nat2Z.id in Hp.
  split; simpl; try done; try by apply Forall_replicate.
  - unfold disp_ok, num_encoders, num_denoisers, num_decoders. simpl.
    by rewrite !length_replicate.
  - apply RequestTrackerFacts.tracker_init_wf.
  - constructor.
  - set_solver.
  - set_solver.
Qed.

(** ** Results and waiting clients *)

(** The client a result was sent to. *)
Definition result_client (o : Out) : option string :=
  match o with
  | ToClient c (Result _) | ClientSendFailed c (Result _) => Some c
  | _ => None
  end.

(** The clients that were sent a result so far, in order. *)
Definition answered (s : Server) : list string := omap result_client (outbox s).

(** The clients owed exactly one result: those answered and those still waiting. *)
Definition owed (s : Server) : list string := (answered s ++ dvals (pending s))%list.

Lemma answered_app s l :
  answered (set_outbox (λ o, o ++ l)%list s) = (answered s ++ omap result_client l)%list.
Proof. unfold answered. simpl. apply omap_app. Qed.

Lemma finish_owed env b rid s :
  server_inv s → owed (finish env (Result b) rid s) ≡ₚ owed s.
Proof.
  intros Hinv. unfold owed, finish, answered, reply_out. simpl. rewrite omap_app.
  destruct (dget rid (pending s)) as [c|] eqn:Hc.
  - rewrite (dvals_ddel _ _ _ (inv_pending _ Hinv) Hc), <-app_assoc.
    by destruct (frontend_accepts env c).
  - rewrite ddel_notin by done. simpl. by rewrite app_nil_r.
Qed.

Lemma sstep_owed env s s' : sstep env s s' → server_inv s → owed s' ≡ₚ owed s.
Proof.
  intros Hst Hinv. destruct Hst; try done; try by apply finish_owed.
  - unfold owed. rewrite answered_app. destruct (frontend_accepts env c); simpl;
      by rewrite app_nil_r.
  - unfold owed. rewrite answered_app. destruct o; try done; simpl; by rewrite app_nil_r.
Qed.

Lemma submitted_owed now rid c payload s :
  server_inv s → dget rid (tracker s) = None →
  owed (submitted now rid c payload s) ≡ₚ c :: owed s.
Proof.
  intros Hinv Hf. unfold owed, submitted, answered. simpl. rewrite dvals_dset_new.
  - by rewrite app_assoc, <-Permutation_cons_append.
  - apply eq_None_not_Some. rewrite (inv_same _ Hinv), Hf. by intros [].
Qed.

Lemma path_owed env cs s s' :
  path env cs s s' → server_inv s → owed s' ≡ₚ (cs ++ owed s)%list.
Proof.
  induction 1 as [|cs s s1 s2 Hst _ IH|cs s s2 now rid c p Hf _ IH]; intros Hinv; [done| |].
  - rewrite IH by eauto using sstep_inv. by erewrite sstep_owed.
  - rewrite IH by eauto using submitted_inv. rewrite submitted_owed by done.
    by rewrite <-Permutation_middle.
Qed.

(** ** Timeouts and dispatch of the orchestrator

    What [_handle_timeouts] and the draining of the encoder queue do to a state that
    satisfies the invariant: both return, and their effect is given exactly. *)

(** ** One timed-out request *)

(** Everything of the state but the slot counters. *)
Definition except_slots (s : Server) :
    (RequestTracker.t * dict string * list Out) *
    (list EncoderTTAEntry * list RoleTTAEntry * list RoleTTAEntry) :=
  ((tracker s, pending s, outbox s), (encoder_tta s, denoiser_tta s, decoder_tta s)).

Definition slot_counts (s : Server) : nat * nat * nat :=
  (num_encoders s, num_denoisers s, num_decoders s).

(** A computation that returns and touches slot counters only. *)
Definition slots_only (m : M Server unit) (s : Server) : Prop :=
  ∃ s', m s = (Ok tt, s') ∧ except_slots s' = except_slots s ∧ slot_counts s' = slot_counts s.

Lemma slots_only_ret s : slots_only (mret tt) s.
Proof. by exists s. Qed.

Lemma slots_only_bind m1 m2 s :
  slots_only m1 s → (∀ s', slot_counts s' = slot_counts s → slots_only m2 s') →
  slots_only (m1 ≫= λ _, m2) s.
Proof.
  intros (s1 & H1 & E1 & C1) H2. destruct (H2 s1 C1) as (s2 & H2' & E2 & C2).
  exists s2. split_and!; [|congruence..]. by rewrite (bind_Ok _ _ _ _ _ H1).
Qed.

Lemma slots_only_encoder s i d : (i < num_encoders s)%nat → slots_only (add_encoder_slots i d) s.
Proof.
  intros [f Hf]%lookup_lt_is_Some_2. eexists. rewrite (add_encoder_eq _ _ _ _ Hf).
  split_and!; try done. unfold slot_counts, num_encoders. simpl. by rewrite length_insert.
Qed.
Lemma slots_only_denoiser s i d : (i < num_denoisers s)%nat → slots_only (add_denoiser_slots i d) s.
Proof.
  intros [f Hf]%lookup_lt_is_Some_2. eexists. rewrite (add_denoiser_eq _ _ _ _ Hf).
  split_and!; try done. unfold slot_counts, num_denoisers. simpl. by rewrite length_insert.
Qed.
Lemma slots_only_decoder s i d : (i < num_decoders s)%nat → slots_only (add_decoder_slots i d) s.
Proof.
  intros [f Hf]%lookup_lt_is_Some_2. eexists. rewrite (add_decoder_eq _ _ _ _ Hf).
  split_and!; try done. unfold slot_counts, num_decoders. simpl. by rewrite length_insert.
Qed.

Lemma slots_only_when b m s : slots_only m s → slots_only (when b m) s.
Proof. destruct b; [done|]. intros _. apply slots_only_ret. Qed.

(** Freeing the slot of a record whose instances exist returns. *)
Lemma free_slot_total s r :
  record_ok (num_encoders s) (num_denoisers s) (num_decoders s) r →
  slots_only (free_slot_for_record r) s.
Proof.
  intros (_ & He & Hn & Hd & _). unfold free_slot_for_record.
  apply slots_only_bind; [|intros s1 C1; apply slots_only_bind; [|intros s2 C2]].
  - destruct (encoder_instance r); [|apply slots_only_ret].
    apply slots_only_when, slots_only_encoder. auto.
  - destruct (denoiser_instance r); [|apply slots_only_ret].
    apply slots_only_when, slots_only_denoiser. unfold slot_counts in *.
    replace (num_denoisers s1) with (num_denoisers s) by congruence. auto.
  - destruct (decoder_instance r); [|apply slots_only_ret].
    apply slots_only_when, slots_only_decoder. unfold slot_counts in *.
    replace (num_decoders s2) with (num_decoders s) by congruence. auto.
Qed.

Section Timeouts.
Context (env : Env) (now timeout : Qc).

(** The reply to the client of a timed-out request. *)
Definition timeout_reply (rid : string) : Reply :=
  Result (error_batch (JStr (timeout_message env rid timeout))).

(** The body of the loop of [_handle_timeouts]. *)
Definition timeout_one (rid : string) : M Server unit :=
  record ← get_record rid;
  match record with Some r => free_slot_for_record r | None => mret tt end ≫= λ _,
  complete_with_error env now rid (timeout_message env rid timeout).

Lemma timeout_one_spec rid s :
  server_inv s →
  ∃ s', timeout_one rid s = (Ok tt, s') ∧ server_inv s' ∧
    except_slots s' =
      ((ddel rid (tracker s), ddel rid (pending s),
        (outbox s ++ reply_out env (timeout_reply rid) rid s)%list),
       (encoder_tta s, denoiser_tta s, decoder_tta s)).
Proof.
  intros Hinv.
  assert (∃ s1, (match dget rid (tracker s) with
                 | Some r => free_slot_for_record r | None => mret tt end) s = (Ok tt, s1) ∧
                except_slots s1 = except_slots s ∧ server_inv s1) as (s1 & H1 & E1 & I1).
  { destruct (dget rid (tracker s)) as [r|] eqn:Hr; [|by exists s].
    destruct (free_slot_total s r) as (s1 & H1 & E1 & _); [by eapply inv_records|].
    exists s1. split_and!; [done..|]. eapply (path_inv env []); [|exact Hinv].
    apply path_of_rtc. pose proof (ok_free_slot_for_record env r s) as Hok. rewrite H1 in Hok.
    apply Hok, inv_disp, Hinv. }
  exists (finish env (timeout_reply rid) rid s1). split_and!.
  - unfold timeout_one, get_record. erewrite bind_Ok by reflexivity.
    rewrite (bind_Ok _ _ _ _ _ H1). apply complete_with_error_eq.
  - eapply sstep_inv; [apply st_finish|done].
  - injection E1 as Et Ep Eo E1 E2 E3. unfold except_slots, finish, reply_out. simpl.
    by rewrite Et, Ep, Eo, E1, E2, E3.
Qed.

(** The replies to the timed-out requests, in the order of the table. *)
Definition timeout_replies (p : dict string) (rids : list string) : list Out :=
  rids ≫= λ rid,
    match dget rid p with
    | Some c => [if frontend_accepts env c then ToClient c (timeout_reply rid)
                 else ClientSendFailed c (timeout_reply rid)]
    | None => []
    end.

Definition remove_all {V} (rids : list string) (d : dict V) : dict V :=
  foldl (λ d rid, ddel rid d) d rids.

Lemma timeout_replies_ddel p rid rids :
  rid ∉ rids → timeout_replies (ddel rid p) rids = timeout_replies p rids.
Proof.
  unfold timeout_replies. induction rids as [|x rids IH]; [done|].
  rewrite not_elem_of_cons. intros [Hne Hnin]. rewrite !bind_cons, IH by done.
  by rewrite dget_ddel_ne.
Qed.

Lemma timeout_loop_spec rids s :
  server_inv s → NoDup rids →
  ∃ s', for_each rids timeout_one s = (Ok tt, s') ∧ server_inv s' ∧
    except_slots s' =
      ((remove_all rids (tracker s), remove_all rids (pending s),
        (outbox s ++ timeout_replies (pending s) rids)%list),
       (encoder_tta s, denoiser_tta s, decoder_tta s)).
Proof.
  revert s. induction rids as [|rid rids IH]; intros s Hinv Hnd.
  - exists s. split_and!; try done. unfold except_slots, timeout_replies. simpl.
    by rewrite app_nil_r.
  - apply NoDup_cons in Hnd as [Hnin Hnd].
    destruct (timeout_one_spec rid s Hinv) as (s1 & H1 & I1 & E1).
    destruct (IH s1 I1 Hnd) as (s2 & H2 & I2 & E2). exists s2. split_and!; [|done|].
    + cbn [for_each]. by rewrite (bind_Ok _ _ _ _ _ H1).
    + rewrite E2. injection E1 as -> -> -> -> -> ->.
      rewrite timeout_replies_ddel by done. unfold timeout_replies at 2.
      by rewrite bind_cons, app_assoc.
Qed.
End Timeouts.

Lemma dget_remove_all {V} rids (d : dict V) k :
  dget k (remove_all rids d) = if decide (k ∈ rids) then None else dget k d.
Proof.
  unfold remove_all. revert d. induction rids as [|x rids IH]; intros d; cbn [foldl].
  - by rewrite decide_False by apply not_elem_of_nil.
  - rewrite IH, dget_ddel. repeat case_decide; set_solver.
Qed.

Lemma find_timed_out_NoDup now timeout t :
  tracker_wf t → NoDup (RequestTracker.find_timed_out now timeout t).
Proof.
  intros [Hn Hi]. unfold RequestTracker.find_timed_out, dvals, dkeys in *.
  assert (Hk : ∀ k r, (k, r) ∈ t → request_id r = k)
    by (intros k r Hin; apply Hi; by apply in_dget).
  clear Hi. induction t as [|[k r] t IH]; [constructor|]. simpl in *.
  apply NoDup_cons in Hn as [Hnin Hn].
  assert (NoDup (request_id <$> filter (RequestTracker.timed_out_pred now timeout) t.*2)) as IH'
    by (apply IH; [done|]; intros; apply Hk; by right).
  rewrite filter_cons. case_decide; [|done]. simpl. apply NoDup_cons. split; [|done].
  rewrite (Hk k r) by left. intros (r' & -> & [_ Hin]%list_elem_of_filter)%list_elem_of_fmap.
  apply list_elem_of_fmap in Hin as ([k' r''] & -> & Hin). simpl in *. apply Hnin.
  rewrite (Hk k' r'') by by right. by apply (list_elem_of_fmap_2 fst) in Hin.
Qed.

(** The queue sweep at the end of [_handle_timeouts]. *)
Definition purge (rids : list string) (s : Server) : Server :=
  set_decoder_tta (filter (λ e, re_request_id e ∉ rids))
    (set_denoiser_tta (filter (λ e, re_request_id e ∉ rids))
      (set_encoder_tta (filter (λ e, ee_request_id e ∉ rids)) s)).

Lemma purge_nil s : purge [] s = s.
Proof.
  destruct s. unfold purge, set_decoder_tta, set_denoiser_tta, set_encoder_tta. simpl.
  by rewrite !filter_all by (apply Forall_true; intros; apply not_elem_of_nil).
Qed.

Lemma handle_timeouts_spec env now s :
  server_inv s →
  let rids := RequestTracker.find_timed_out now (timeout_s s) (tracker s) in
  ∃ s1, for_each rids (timeout_one env now (timeout_s s)) s = (Ok tt, s1) ∧
        handle_timeouts env now s = (Ok tt, purge rids s1) ∧
        except_slots s1 =
        ((remove_all rids (tracker s), remove_all rids (pending s),
          (outbox s ++ timeout_replies env (timeout_s s) (pending s) rids)%list),
         (encoder_tta s, denoiser_tta s, decoder_tta s)).
Proof.
  intros Hinv rids.
  destruct (timeout_loop_spec env now (timeout_s s) rids s) as (s1 & H1 & _ & E1);
    [done|by apply find_timed_out_NoDup, inv_tracker|].
  exists s1. split_and!; [done| |done].
  unfold handle_timeouts. erewrite bind_Ok by reflexivity. erewrite bind_Ok by reflexivity.
  fold rids. rewrite (bind_Ok _ _ _ _ _ H1). unfold when.
  destruct (bool_decide (rids = [])) eqn:E; simpl; bool_to_prop; [|done].
  by rewrite E, purge_nil.
Qed.

(** ** Draining the encoder queue *)

Lemma Zsum_insert l i f d : l !! i = Some f → Zsum (<[i := f + d]> l) = Zsum l + d.
Proof.
  revert i. induction l as [|x l IH]; intros [|i] Hi; simplify_eq/=; [lia|].
  rewrite (IH i Hi). lia.
Qed.

Lemma Zsum_pos l i f : Forall (Z.le 0) l → l !! i = Some f → 0 < f → 0 < Zsum l.
Proof.
  intros Hl. revert i. induction Hl as [|x l Hx Hl IH]; intros [|i] Hi Hf; simplify_eq/=.
  - pose proof (Zsum_nonneg l Hl). lia.
  - specialize (IH i Hi Hf). lia.
Qed.

Lemma Zsum_zero l : Forall (Z.le 0) l → (∀ i f, l !! i = Some f → f ≤ 0) → Zsum l = 0.
Proof.
  induction 1 as [|x l Hx Hl IH]; intros Hle; simpl; [done|].
  rewrite IH by (intros i f Hi; by apply (Hle (S i))). specialize (Hle 0%nat x eq_refl). lia.
Qed.

Lemma py_index_nat n i : (i < n)%nat → py_index n (Z.of_nat i) = Some i.
Proof.
  intros. unfold py_index.
  rewrite (proj2 (Z.leb_le 0 i)), (proj2 (Z.ltb_lt i n)) by lia. simpl. by rewrite Nat2Z.id.
Qed.

(** The message that hands an entry to encoder [i]. *)
Definition encoder_msg (i : nat) (e : EncoderTTAEntry) : Out :=
  ToEncoder i [ee_request_id e; ee_payload e].

Lemma dispatch_to_encoder_eq now e i f s :
  encoder_free_slots s !! i = Some f →
  dispatch_to_encoder now (ee_request_id e) (ee_payload e) i s =
  (Ok tt, set_outbox (λ o, o ++ [encoder_msg i e])%list
    (set_tracker (λ t, (RequestTracker.transition now (ee_request_id e) ENCODER_RUNNING
                          (with_encoder i) t).2)
      (set_encoder_free_slots (λ l, <[i := f + -1]> l) s))).
Proof.
  intros Hf. unfold dispatch_to_encoder.
  erewrite bind_Ok by by apply add_encoder_eq. erewrite bind_Ok by apply try_transition_eq.
  unfold push_encoder. erewrite bind_Ok by reflexivity. rewrite py_index_nat; [done|].
  unfold num_encoders. simpl. rewrite length_insert. by apply lookup_lt_Some in Hf.
Qed.

(** What draining does: [k] entries leave the head of the queue in order for the
    instances [idxs], each of which had enough free slots. *)
Record drained (s s' : Server) (k : nat) (idxs : list nat) : Prop := {
  dr_count : k = length idxs;
  dr_queue : encoder_tta s' = drop k (encoder_tta s);
  dr_out : outbox s' = (outbox s ++ zip_with encoder_msg idxs (take k (encoder_tta s)))%list;
  dr_free : ∀ i f, encoder_free_slots s !! i = Some f →
    encoder_free_slots s' !! i = Some (f - length (filter (λ j, j = i) idxs));
  dr_range : Forall (λ i, i < num_encoders s)%nat idxs;
}.

Lemma drained_refl s s' :
  encoder_tta s' = encoder_tta s → outbox s' = outbox s →
  encoder_free_slots s' = encoder_free_slots s → drained s s' 0 [].
Proof.
  intros Hq Ho Hf. split; [done|done|by rewrite app_nil_r| |done].
  intros i f Hi. rewrite Hf, Hi. f_equal. simpl. lia.
Qed.

Lemma drained_cons s s1 s' k idxs e q i f :
  encoder_tta s = e :: q → encoder_free_slots s !! i = Some f →
  encoder_tta s1 = q → outbox s1 = (outbox s ++ [encoder_msg i e])%list →
  encoder_free_slots s1 = <[i := f + -1]> (encoder_free_slots s) →
  drained s1 s' k idxs → drained s s' (S k) (i :: idxs).
Proof.
  intros Hq Hi Hq1 Ho1 Hf1 [Hk Hq' Ho' Hf' Hr']. pose proof (lookup_lt_Some _ _ _ Hi) as Hlt.
  split.
  - simpl. by rewrite Hk.
  - by rewrite Hq', Hq1, Hq.
  - rewrite Ho', Ho1, Hq1, Hq, <-app_assoc. done.
  - intros j g Hj. rewrite Hf1 in Hf'. rewrite filter_cons.
    destruct (decide (i = j)) as [<-|Hne].
    + assert (g = f) as -> by congruence.
      rewrite (Hf' i (f + -1)) by by rewrite list_lookup_insert_eq. simpl. f_equal. lia.
    + apply Hf'. by rewrite list_lookup_insert_ne.
  - constructor; [done|]. revert Hr'. unfold num_encoders. by rewrite Hf1, length_insert.
Qed.

Lemma drain_encoder_loop_spec now n s :
  disp_ok s → Forall (Z.le 0) (encoder_free_slots s) → (length (encoder_tta s) ≤ n)%nat →
  ∃ s' idxs, drain_encoder_loop now n s = (Ok tt, s') ∧
    drained s s' (length (encoder_tta s) `min` Z.to_nat (Zsum (encoder_free_slots s))) idxs.
Proof.
  revert s. induction n as [|n IH]; intros s Hd Hpos Hlen.
  - exists s, []. split; [done|]. replace (length (encoder_tta s)) with 0%nat by lia. by apply drained_refl.
  - rewrite drain_encoder_S. destruct (encoder_tta s) as [|e q] eqn:Hq.
    { exists s, []. split; [done|]. by apply drained_refl. }
    destruct (select_encoder_ok (mk_env (λ _, UnpicklingError) (λ _, true) (λ _, "") (λ _, "")) s Hd)
      as [Hst Hsel]. cbv zeta in *.
    set (r := on_dispatcher _ s) in *. destruct r.1 as [[i|]|ex]; [| |done].
    + destruct Hsel as (f & Hf & Hfpos).
      assert (Hfr : encoder_free_slots (set_encoder_tta (λ _, q) r.2) !! i = Some f) by done.
      rewrite (bind_Ok _ _ _ _ _ (dispatch_to_encoder_eq now e i f _ Hfr)).
      set (s1 := set_outbox _ _).
      destruct (IH s1) as (s' & idxs & Hrun & Hdr).
      * apply (sstep_disp_ok _ _ _ Hst) in Hd. unfold disp_ok, num_encoders in *. simpl in *.
        by rewrite length_insert.
      * simpl. eapply slots_insert; eauto.
      * simpl in *. lia.
      * exists s', (i :: idxs). split; [done|].
        assert (0 < Zsum (encoder_free_slots s)) by by eapply Zsum_pos.
        eapply drained_cons in Hdr; [|exact Hq|exact Hf|done..].
        revert Hdr. simpl. rewrite (Zsum_insert _ _ _ _ Hf).
        replace (Z.to_nat (Zsum (encoder_free_slots s)))
          with (S (Z.to_nat (Zsum (encoder_free_slots s) + -1))) by lia. done.
    + exists r.2, []. split; [done|]. rewrite (Zsum_zero _ Hpos Hsel), Nat.min_0_r.
      by apply drained_refl.
Qed.
