(* ===== verification/OrchestratorProps.v ===== *)
(** * Correctness of the orchestrator

    The properties of [DiffusionServer] that the lemmas of [OrchestratorFacts.v],
    [OrchestratorSafety.v] establishes, with a concrete
    deployment of one encoder, one denoiser and one decoder as their witness. *)

From S2P Require Import Prelude PyJson Codec Protocol Roles RequestState Dispatch Orchestrator OrchestratorFacts OrchestratorSafety.
Local Open Scope string_scope.
Local Open Scope Z_scope.

(** ** A concrete deployment *)

Module Demo.
Definition env : Env :=
  mk_env (λ p, PickleOne (PyReqId (Some p))) (λ _, true) (λ _, "t") json_dumps.

Definition from_client (c rid : string) : Poll := mk_poll (Some [c; ""; rid]) None None None.
Definition from_enc (m : dict Json) : Poll :=
  mk_poll None (Some (encode_transfer_msg m)) None None.
Definition from_den (m : dict Json) : Poll :=
  mk_poll None None (Some (encode_transfer_msg m)) None.
Definition from_dec (m : dict Json) : Poll :=
  mk_poll None None None (Some (encode_transfer_msg m)).
Definition idle : Poll := mk_poll None None None None.

Definition init : res Server :=
  init_server ["e0"] ["n0"] ["d0"] "round_robin" (Qc_of_Z 600) 4 2 4.
Definition server : Server :=
  let rr := RR (RoundRobin.mk 1 0) in
  mk_server (Qc_of_Z 600) [] (mk_dispatcher rr rr rr) [] [4] [2] [4] [] [] [] [] ∅ ∅ ∅ ∅
    [("e0", 0%nat)] [("n0", 0%nat)] [("d0", 0%nat)] [].

(** The frames of a decoder result for [rid]. *)
Definition result_frames (rid : string) : list string :=
  match send_tensors_frames [("output", FTensor (mk_tensor [1] uint8 "x"))]
          [("request_id", JStr rid)] with
  | Ok f => f
  | Raise _ => []
  end.

(** A request from its submission to its result, through a preallocated denoiser
    slot and a decoder slot allocated on demand. *)
Definition serve : list (Qc * Poll) := (λ p, (Qc_of_Z 0, p)) <$> [
  from_den (TransferRegisterMsg "denoiser" "sN" 1000 4096 "n0"
              [prealloc_slot_info 0 1024 0 1000]);
  from_client "c1" "r1";
  from_enc (TransferStagedMsg "r1" 512 [] "sE" 5000 64);
  from_enc (TransferPushedMsg "r1");
  from_den (TransferDoneMsg "r1" None ++
              [("staged_for_decoder", JBool true); ("data_size", JInt 256)])%list;
  from_dec (TransferAllocatedMsg "r1" "sD" 9000 128 256);
  from_den (TransferPushedMsg "r1");
  mk_poll None None None (Some (result_frames "r1"))].

Lemma init_ok : init = Ok server.
Proof. reflexivity. Qed.

(** The run answers the client once and returns every slot. *)
Example serve_answers :
  let (alive, s) := event_loop env serve server in
  alive = true ∧ answered s = ["c1"] ∧ pending s = [] ∧ tracker s = [] ∧
  (encoder_free_slots s, denoiser_free_slots s, decoder_free_slots s) = ([4], [2], [4]) ∧
  transfer_state s = [].
Proof. vm_compute. by split_and!. Qed.
End Demo.

(** ** Properties *)

(** C1 - From construction with capacities that are not negative, whatever messages
    arrive in whatever order (malformed ones that end the loop included), every state
    of the event loop satisfies [server_inv]: the clients waiting are exactly those
    of the tracked requests, every tracked request is active and knows the instance
    of each role it has reached, instances exist, slot counters never go below zero,
    policies stay sized to their pools, and no queue or table holds a dangling
    transfer object. *)
Theorem event_loop_invariant env evs ee de ce policy timeout ec dc cc s :
  0 ≤ ec → 0 ≤ dc → 0 ≤ cc →
  init_server ee de ce policy timeout ec dc cc = Ok s →
  server_inv (event_loop env evs s).2.
Proof.
  intros He Hd Hc Hs. apply init_inv in Hs as Hinv; [|done..].
  eapply path_inv; [|exact Hinv]. apply event_loop_path, inv_disp, Hinv.
Qed.

Lemma event_loop_invariant_witness :
  Demo.init = Ok Demo.server ∧ server_inv (event_loop Demo.env Demo.serve Demo.server).2.
Proof.
  split; [reflexivity|].
  apply (event_loop_invariant Demo.env Demo.serve ["e0"] ["n0"] ["d0"] "round_robin"
    (Qc_of_Z 600) 4 2 4); [lia..|reflexivity].
Defined.

(** C2 - Every accepted request is answered exactly once or still waits: after any run
    of the event loop the clients sent a result, together with the clients still
    waiting, are, up to order, the clients whose requests were accepted. *)
Theorem one_result_per_request env evs ee de ce policy timeout ec dc cc s :
  0 ≤ ec → 0 ≤ dc → 0 ≤ cc →
  init_server ee de ce policy timeout ec dc cc = Ok s →
  let s' := (event_loop env evs s).2 in
  (answered s' ++ dvals (pending s'))%list ≡ₚ accepted env evs s.
Proof.
  intros He Hd Hc Hs s'. apply init_inv in Hs as Hinv; [|done..].
  assert (owed s = []) as Howed.
  { unfold init_server in Hs. by destruct (create_pool_dispatcher _ _ _ _); simplify_eq/=. }
  pose proof (path_owed env _ s _ (event_loop_path env evs s (inv_disp _ Hinv)) Hinv) as Hp.
  by rewrite Howed, app_nil_r in Hp.
Qed.

Lemma one_result_per_request_witness :
  (answered (event_loop Demo.env Demo.serve Demo.server).2 ++
   dvals (pending (event_loop Demo.env Demo.serve Demo.server).2))%list ≡ₚ ["c1"].
Proof.
  exact (one_result_per_request Demo.env Demo.serve ["e0"] ["n0"] ["d0"] "round_robin"
    (Qc_of_Z 600) 4 2 4 Demo.server ltac:(lia) ltac:(lia) ltac:(lia) eq_refl).
Defined.

(** C3 - [_handle_timeouts] returns, and removes exactly the requests older than the
    timeout: they leave the tracker, the table of waiting clients and all three
    queues, each of their clients is sent one error naming the request, everything
    else of those tables is kept in order, and no request is over age afterwards. *)
Theorem timeouts_complete env now s :
  server_inv s →
  let rids := RequestTracker.find_timed_out now (timeout_s s) (tracker s) in
  ∃ s', handle_timeouts env now s = (Ok tt, s') ∧
    (∀ rid, dget rid (tracker s') = if decide (rid ∈ rids) then None else dget rid (tracker s)) ∧
    (∀ rid, dget rid (pending s') = if decide (rid ∈ rids) then None else dget rid (pending s)) ∧
    encoder_tta s' = filter (λ e, ee_request_id e ∉ rids) (encoder_tta s) ∧
    denoiser_tta s' = filter (λ e, re_request_id e ∉ rids) (denoiser_tta s) ∧
    decoder_tta s' = filter (λ e, re_request_id e ∉ rids) (decoder_tta s) ∧
    outbox s' = (outbox s ++ timeout_replies env (timeout_s s) (pending s) rids)%list ∧
    RequestTracker.find_timed_out now (timeout_s s) (tracker s') = [].
Proof.
  intros Hinv rids. destruct (handle_timeouts_spec env now s Hinv) as (s1 & _ & H & E).
  fold rids in H, E. injection E as Et Ep Eo Eq1 Eq2 Eq3.
  pose proof (inv_tracker s Hinv) as Hwf.
  assert (tracker_wf (remove_all rids (tracker s))) as Hwf'.
  { unfold remove_all. generalize rids. clear -Hwf. intros l. revert Hwf. generalize (tracker s).
    induction l as [|x l IH]; intros t Ht; simpl; [done|].
    by apply IH, RequestTrackerFacts.ddel_wf. }
  eexists. split; [exact H|]. unfold purge. simpl. rewrite Et, Ep, Eo, Eq1, Eq2, Eq3.
  split_and!; try done; try (intros; apply dget_remove_all).
  destruct (RequestTracker.find_timed_out _ _ (remove_all _ _)) as [|x l] eqn:Hx; [done|].
  assert (x ∈ x :: l) as Hin by left. rewrite <-Hx in Hin.
  apply RequestTrackerFacts.find_timed_out_elem in Hin as (r & Hr & Hact & Hage); [|done].
  rewrite dget_remove_all in Hr. case_decide as Hd; [done|]. destruct Hd.
  apply RequestTrackerFacts.find_timed_out_elem; eauto.
Qed.

(** A server whose only request has waited 700 seconds. *)
Lemma timeouts_complete_witness :
  ∃ s', handle_timeouts Demo.env (Qc_of_Z 700)
          (submitted (Qc_of_Z 0) "r1" "c1" "p" Demo.server) = (Ok tt, s') ∧
        pending s' = [] ∧ encoder_tta s' = [] ∧ answered s' = ["c1"].
Proof.
  assert (server_inv Demo.server) as Hinv
    by (eapply (init_inv ["e0"] ["n0"] ["d0"] "round_robin" (Qc_of_Z 600) 4 2 4);
        [lia..|reflexivity]).
  destruct (timeouts_complete Demo.env (Qc_of_Z 700)
    (submitted (Qc_of_Z 0) "r1" "c1" "p" Demo.server)
    (submitted_inv _ _ _ _ _ Hinv eq_refl)) as (s' & H & _).
  exists s'. split; [exact H|]. vm_compute in H. by simplify_eq.
Defined.

(** C4 - Draining the encoder queue is work conserving, first in first out and never
    overcommits: exactly as many requests leave the head of the queue as there are
    free slots (or the whole queue), each is sent in queue order to an existing
    instance, and every instance's counter drops by the number it received without
    going below zero. *)
Theorem drain_encoder_exact now s :
  server_inv s →
  let k := (length (encoder_tta s) `min` Z.to_nat (Zsum (encoder_free_slots s)))%nat in
  ∃ s' idxs, drain_encoder_tta now s = (Ok tt, s') ∧ length idxs = k ∧
    encoder_tta s' = drop k (encoder_tta s) ∧
    outbox s' = (outbox s ++ zip_with encoder_msg idxs (take k (encoder_tta s)))%list ∧
    Forall (λ i, i < num_encoders s)%nat idxs ∧
    (∀ i f, encoder_free_slots s !! i = Some f →
      0 ≤ f - length (filter (λ j, j = i) idxs) ∧
      encoder_free_slots s' !! i = Some (f - length (filter (λ j, j = i) idxs))).
Proof.
  intros Hinv k.
  destruct (drain_encoder_loop_spec now (length (encoder_tta s)) s) as (s' & idxs & H & Hdr);
    [by apply inv_disp|by apply inv_encoder_slots|done|].
  assert (Forall (Z.le 0) (encoder_free_slots s')) as Hpos.
  { pose proof (ok_drain_encoder Demo.env now (length (encoder_tta s)) s (inv_disp _ Hinv)) as Hok.
    rewrite H in Hok. eapply inv_encoder_slots, path_inv, Hinv. by apply path_of_rtc. }
  destruct Hdr as [Hk Hq Ho Hf Hr]. exists s', idxs. split_and!; try done.
  intros i f Hi. split; [|by apply Hf].
  exact (Forall_lookup_1 _ _ _ _ Hpos (Hf i f Hi)).
Qed.

Lemma drain_encoder_exact_witness :
  ∃ s', drain_encoder_tta (Qc_of_Z 1) (submitted (Qc_of_Z 0) "r1" "c1" "p" Demo.server)
          = (Ok tt, s') ∧
        encoder_tta s' = [] ∧ encoder_free_slots s' = [3].
Proof.
  assert (server_inv Demo.server) as Hinv
    by (eapply (init_inv ["e0"] ["n0"] ["d0"] "round_robin" (Qc_of_Z 600) 4 2 4);
        [lia..|reflexivity]).
  destruct (drain_encoder_exact (Qc_of_Z 1)
    (submitted (Qc_of_Z 0) "r1" "c1" "p" Demo.server)
    (submitted_inv _ _ _ _ _ Hinv eq_refl)) as (s' & idxs & H & _ & Hq & _).
  exists s'. split; [exact H|]. vm_compute in H. by simplify_eq.
Defined.

(** A request whose id is already tracked is dropped: the handler returns without
    changing anything, so the second client is sent no reply at all. *)
Theorem duplicate_request_dropped env now parts s rid c payload :
  classify_request env now parts = Request rid c payload →
  is_Some (dget rid (tracker s)) →
  handle_client_request env now parts s = (Ok tt, s).
Proof.
  unfold handle_client_request, classify_request. intros H [r Hr].
  destruct parts as [|c' [|x [|y parts]]]; try done.
  destruct (pickle_loads _ _) as [|e|[]|[|[] ?]]; try done; simplify_eq;
    (etrans; [apply accept_block_eq|]); by rewrite Hr.
Qed.

Lemma duplicate_request_dropped_witness :
  handle_client_request Demo.env (Qc_of_Z 1) ["c2"; ""; "r1"]
    (submitted (Qc_of_Z 0) "r1" "c1" "p" Demo.server) =
  (Ok tt, submitted (Qc_of_Z 0) "r1" "c1" "p" Demo.server).
Proof. eapply duplicate_request_dropped; [reflexivity|by eexists]. Defined.

(** An error reported by an encoder or a denoiser outside the transfer protocol
    ends the request (tracker and waiting client forget it) but returns no slot: all
    three lists of counters are as before, so the instance's slot is lost. *)
Theorem role_error_keeps_slots env now frames role s tf sf rid :
  unpack_tensors frames = Ok (tf, JObj sf) →
  get_json sf "request_id" = JStr rid → rid ≠ "" →
  json_truthy (get_json sf "_disagg_error") = true →
  ∃ s', handle_role_error_frames env now frames role s = (Ok tt, s') ∧
    dget rid (tracker s') = None ∧ dget rid (pending s') = None ∧
    encoder_free_slots s' = encoder_free_slots s ∧
    denoiser_free_slots s' = denoiser_free_slots s ∧
    decoder_free_slots s' = decoder_free_slots s.
Proof.
  intros Hu Hrid Hne Herr. unfold handle_role_error_frames. rewrite Hu.
  erewrite bind_Ok by reflexivity. rewrite Hrid, Herr.
  assert (json_truthy (JStr rid) = true) as -> by by simpl; case_bool_decide.
  cbn [andb]. erewrite bind_Ok by reflexivity. cbv beta iota.
  rewrite complete_with_error_eq.
  eexists. split; [done|]. unfold finish. simpl. by rewrite !dget_ddel_eq.
Qed.

Lemma role_error_keeps_slots_witness :
  let s := (loop_iteration Demo.env (Qc_of_Z 0) (Demo.from_client "c1" "r1") Demo.server).2 in
  ∃ s', encoder_free_slots s = [3] ∧
    handle_role_error_frames Demo.env (Qc_of_Z 1)
      (match send_tensors_frames [] [("request_id", JStr "r1"); ("_disagg_error", JStr "oom")] with
       | Ok f => f | Raise _ => [] end) ENCODER s = (Ok tt, s') ∧
    pending s' = [] ∧ encoder_free_slots s' = [3].
Proof.
  intros s. edestruct (role_error_keeps_slots Demo.env (Qc_of_Z 1)
    (match send_tensors_frames [] [("request_id", JStr "r1"); ("_disagg_error", JStr "oom")] with
     | Ok f => f | Raise _ => [] end) ENCODER s) as (s' & H & _ & _ & He & _);
    [vm_compute; reflexivity|reflexivity|done|reflexivity|].
  exists s'. split_and!; [vm_compute; reflexivity|exact H| |rewrite He; vm_compute; reflexivity].
  vm_compute in H. by simplify_eq.
Defined.

(** A second PUSHED message for a request that is being denoised frees the
    encoder slot a second time: the handler does not record that the slot was
    returned, so the counter of the encoder instance grows with every repetition. *)
Theorem pushed_not_idempotent msg rid l p r i f j s :
  req_str msg "request_id" = Ok rid →
  dget rid (transfer_state s) = Some l → heap s !! l = Some p →
  dget rid (tracker s) = Some r → state r = DENOISING_RUNNING →
  encoder_instance r = Some i → encoder_free_slots s !! i = Some f →
  receiver_instance p = Z.of_nat j → (j < num_denoisers s)%nat →
  ∃ s1 s2, handle_transfer_pushed msg s = (Ok tt, s1) ∧
    handle_transfer_pushed msg s1 = (Ok tt, s2) ∧
    encoder_free_slots s2 !! i = Some (f + 2).
Proof.
  assert (∀ s f, req_str msg "request_id" = Ok rid →
    dget rid (transfer_state s) = Some l → heap s !! l = Some p →
    dget rid (tracker s) = Some r → state r = DENOISING_RUNNING →
    encoder_instance r = Some i → encoder_free_slots s !! i = Some f →
    receiver_instance p = Z.of_nat j → (j < num_denoisers s)%nat →
    ∃ o, handle_transfer_pushed msg s =
      (Ok tt, set_outbox (λ l, l ++ [o])%list
                (set_encoder_free_slots (λ l, <[i := f + 1]> l) s))) as Hone.
  { clear. intros s f Hm Ht Hl Hr Hst Hi Hf Hp Hj. eexists. unfold handle_transfer_pushed.
    rewrite Hm. erewrite bind_Ok by reflexivity. erewrite bind_Ok by reflexivity. rewrite Ht.
    erewrite bind_Ok by by rewrite deref_eq, Hl. erewrite bind_Ok by reflexivity.
    rewrite Hr. cbv beta iota delta [record_in]. rewrite Hst. simpl. rewrite Hi.
    rewrite (bind_Ok _ _ _ _ _ (add_encoder_eq _ _ _ _ Hf)), Hp. unfold push_denoiser.
    erewrite bind_Ok by reflexivity. by rewrite py_index_nat. }
  intros Hm Ht Hl Hr Hst Hi Hf Hp Hj.
  destruct (Hone s f Hm Ht Hl Hr Hst Hi Hf Hp Hj) as [o1 H1]. eexists _.
  match type of H1 with _ = (_, ?s1) => edestruct (Hone s1 (f + 1)) as [o2 H2] end; try done.
  { simpl. rewrite list_lookup_insert_eq; [done|]. by apply lookup_lt_Some in Hf. }
  eexists. split; [exact H1|]. split; [exact H2|]. simpl.
  rewrite list_insert_insert_eq, list_lookup_insert_eq; [f_equal; lia|].
  by apply lookup_lt_Some in Hf.
Qed.

(** The deployment after its encoder has staged a request and the denoiser was given it. *)
Definition staged_server : Server := (event_loop Demo.env (take 3 Demo.serve) Demo.server).2.

Lemma pushed_not_idempotent_witness :
  ∃ s1 s2, handle_transfer_pushed (TransferPushedMsg "r1") staged_server = (Ok tt, s1) ∧
    handle_transfer_pushed (TransferPushedMsg "r1") s1 = (Ok tt, s2) ∧
    encoder_free_slots staged_server = [3] ∧ encoder_free_slots s2 !! 0%nat = Some 5.
Proof.
  edestruct (pushed_not_idempotent (TransferPushedMsg "r1") "r1")
    with (s := staged_server) as (s1 & s2 & H1 & H2 & H3);
    [reflexivity|vm_compute; reflexivity|vm_compute; reflexivity|vm_compute; reflexivity
    |reflexivity|reflexivity|vm_compute; reflexivity|instantiate (1 := 0%nat); reflexivity
    |vm_compute; lia|].
  exists s1, s2. split_and!; [exact H1|exact H2|vm_compute; reflexivity|exact H3].
Defined.

(** Giving back a preallocated slot records the size of the data it carried, not
    the size it was registered with: the slot is appended to the receiver's free list
    as [data_size] bytes, so a slot only ever shrinks. *)
Theorem recycled_slot_shrinks l p id peer s :
  heap s !! l = Some p → prealloc_slot_id p = Some id →
  denoiser_peers s !! receiver_instance p = Some peer →
  ∃ s' peer', recycle_prealloc_slot l DENOISER s = (Ok tt, s') ∧
    denoiser_peers s' !! receiver_instance p = Some peer' ∧
    free_preallocated_slots peer' =
      (free_preallocated_slots peer ++
        [prealloc_slot_info (receiver_slot_offset p) (data_size p) id
           (receiver_pool_ptr p + receiver_slot_offset p)])%list.
Proof.
  intros Hl Hid Hpeer. unfold recycle_prealloc_slot.
  erewrite bind_Ok by by rewrite deref_eq, Hl. rewrite Hid.
  erewrite bind_Ok by reflexivity. eexists _, _. split; [done|]. simpl.
  rewrite lookup_alter_eq, Hpeer. done.
Qed.

Lemma recycled_slot_shrinks_witness :
  ∃ l s' peer', recycle_prealloc_slot l DENOISER staged_server = (Ok tt, s') ∧
    denoiser_peers s' !! 0 = Some peer' ∧
    free_preallocated_slots peer' = [prealloc_slot_info 0 512 0 1000].
Proof.
  exists 1%positive. edestruct (recycled_slot_shrinks 1%positive)
    with (s := staged_server) as (s' & peer' & H1 & H2 & H3);
    [vm_compute; reflexivity|reflexivity|vm_compute; reflexivity|].
  exists s', peer'. split_and!; [exact H1|exact H2|exact H3].
Defined.
