(* ===== verification/Buddy.v ===== *)
(** * The buddy allocator

    Models [disaggregation/transport/allocator.py]: [BuddyAllocator], the power-of-two
    allocator behind the transfer buffer. Blocks are Python objects reachable only
    through [_blocks], under their own offset, so the dictionary of blocks is a map
    from offsets and mutating a block replaces its entry. The methods run under the
    allocator's lock, one at a time.

    [_next_power_of_2] smears bits over 64 positions; it is stated and used for sizes
    up to [2^64]. *)

From S2P Require Import Prelude.
Local Open Scope Z_scope.

Record Block := mk_block {
  b_offset : Z;
  b_size : Z;
  b_allocated : bool;
  b_request_id : option string;
}.

Record BuddyAllocator := mk_buddy {
  min_block_size : Z;
  pool_size : Z;
  max_order : nat;
  free_lists : list (list Z);
  blocks : gmap Z Block;
  allocated_bytes : Z;
  num_allocations : Z;
}.

Definition set_free_lists (f : list (list Z) → list (list Z)) (s : BuddyAllocator) :=
  mk_buddy (min_block_size s) (pool_size s) (max_order s) (f (free_lists s)) (blocks s)
    (allocated_bytes s) (num_allocations s).
Definition set_blocks (f : gmap Z Block → gmap Z Block) (s : BuddyAllocator) :=
  mk_buddy (min_block_size s) (pool_size s) (max_order s) (free_lists s) (f (blocks s))
    (allocated_bytes s) (num_allocations s).
(** [_allocated_bytes += bytes; _num_allocations += n] *)
Definition add_usage (bytes n : Z) (s : BuddyAllocator) :=
  mk_buddy (min_block_size s) (pool_size s) (max_order s) (free_lists s) (blocks s)
    (allocated_bytes s + bytes) (num_allocations s + n).

Definition with_size (z : Z) (b : Block) : Block :=
  mk_block (b_offset b) z (b_allocated b) (b_request_id b).
Definition with_owner (a : bool) (rid : option string) (b : Block) : Block :=
  mk_block (b_offset b) (b_size b) a rid.

(** ** Sizes and orders *)

Definition next_power_of_2 (n : Z) : Z :=
  if n <=? 0 then 1
  else
    let n := n - 1 in
    let n := Z.lor n (Z.shiftr n 1) in
    let n := Z.lor n (Z.shiftr n 2) in
    let n := Z.lor n (Z.shiftr n 4) in
    let n := Z.lor n (Z.shiftr n 8) in
    let n := Z.lor n (Z.shiftr n 16) in
    let n := Z.lor n (Z.shiftr n 32) in
    n + 1.

(** The loop doubles [s], so the bit length of [size] bounds its rounds. *)
Fixpoint size_to_order_loop (fuel : nat) (s size : Z) (order : nat) : nat :=
  match fuel with
  | O => order
  | S fuel =>
      if s <? size then size_to_order_loop fuel (Z.shiftl s 1) size (S order) else order
  end.
Definition size_to_order (min_block size : Z) : nat :=
  size_to_order_loop (Z.to_nat (Z.log2_up size)) min_block size 0.

Definition init (pool_size_arg min_block : Z) : res BuddyAllocator :=
  if (min_block <=? 0) || negb (Z.land min_block (min_block - 1) =? 0) then Raise ValueError
  else
    let pool := next_power_of_2 (Z.max pool_size_arg min_block) in
    let mo := size_to_order min_block pool in
    Ok (mk_buddy min_block pool mo (<[mo := [0]]> (replicate (S mo) []))
          {[ 0 := mk_block 0 pool false None ]} 0 0).

(** ** Free lists *)

(** [self._free_lists[order].append(o)], [.pop(0)] and [.remove(o)]. *)
Definition free_list_append (order : nat) (o : Z) : M BuddyAllocator unit :=
  fl ← gets free_lists;
  match fl !! order with
  | None => raise IndexError
  | Some l => modify (set_free_lists (λ _, <[order := (l ++ [o])%list]> fl))
  end.
Definition free_list_pop (order : nat) : M BuddyAllocator Z :=
  fl ← gets free_lists;
  match fl !! order with
  | Some (o :: l) => modify (set_free_lists (λ _, <[order := l]> fl)) ≫= λ _, mret o
  | _ => raise IndexError
  end.
Fixpoint list_remove_first (o : Z) (l : list Z) : list Z :=
  match l with
  | [] => []
  | x :: l => if o =? x then l else x :: list_remove_first o l
  end.
Definition free_list_remove (order : nat) (o : Z) : M BuddyAllocator unit :=
  fl ← gets free_lists;
  match fl !! order with
  | None => raise IndexError
  | Some l =>
      if bool_decide (o ∈ l)
      then modify (set_free_lists (λ _, <[order := list_remove_first o l]> fl))
      else raise ValueError
  end.

(** [self._blocks[o]] *)
Definition get_block (o : Z) : M BuddyAllocator Block :=
  bs ← gets blocks; match bs !! o with Some b => mret b | None => raise KeyError end.

(** ** Allocation *)

(** The first order from [order] on whose free list is not empty. *)
Fixpoint find_order (fl : list (list Z)) (order : nat) : option nat :=
  match fl with
  | [] => None
  | [] :: fl => find_order fl (S order)
  | (_ :: _) :: _ => Some order
  end.

(** The splitting loop, [n] orders above the target. *)
Fixpoint split_down (n target_order : nat) (offset : Z) : M BuddyAllocator unit :=
  match n with
  | O => mret tt
  | S n =>
      m ← gets min_block_size;
      let found_order := (target_order + n)%nat in
      let buddy_size := Z.shiftl m found_order in
      let buddy_offset := offset + buddy_size in
      modify (set_blocks (<[buddy_offset := mk_block buddy_offset buddy_size false None]>))
        ≫= λ _,
      free_list_append found_order buddy_offset ≫= λ _,
      modify (set_blocks (alter (with_size buddy_size) offset)) ≫= λ _,
      split_down n target_order offset
  end.

Definition allocate_locked (target_order : nat) (rid : option string) :
    M BuddyAllocator (option Z) :=
  fl ← gets free_lists;
  match find_order (drop target_order fl) target_order with
  | None => mret None
  | Some found_order =>
      offset ← free_list_pop found_order;
      get_block offset ≫= λ _,
      split_down (found_order - target_order) target_order offset ≫= λ _,
      modify (set_blocks (alter (with_owner true rid) offset)) ≫= λ _,
      b ← get_block offset;
      modify (add_usage (b_size b) 1) ≫= λ _,
      mret (Some offset)
  end.

(** [max(self._next_power_of_2(size), self._min_block_size)] *)
Definition alloc_size (m size : Z) : Z := Z.max (next_power_of_2 size) m.

Definition allocate (size : Z) (rid : option string) : M BuddyAllocator (option Z) :=
  if size <=? 0 then raise ValueError
  else
    m ← gets min_block_size;
    mo ← gets max_order;
    let target_order := size_to_order m (alloc_size m size) in
    if (mo <? target_order)%nat then mret None
    else allocate_locked target_order rid.

(** ** Release *)

(** The merging loop from the block at [o]; it returns the offset of the merged
    block. Each round doubles the block, so [max_order] rounds are enough. *)
Fixpoint coalesce_loop (n : nat) (o : Z) : M BuddyAllocator Z :=
  match n with
  | O => mret o
  | S n =>
      b ← get_block o;
      s ← get;
      if b_size b <? pool_size s then
        let buddy_offset := Z.lxor (b_offset b) (b_size b) in
        match blocks s !! buddy_offset with
        | None => mret o
        | Some buddy =>
            if b_allocated buddy || negb (b_size buddy =? b_size b) then mret o
            else
              free_list_remove (size_to_order (min_block_size s) (b_size buddy)) buddy_offset
                ≫= λ _,
              if buddy_offset <? b_offset b then
                modify (set_blocks (λ bs,
                  alter (with_size (b_size buddy * 2)) buddy_offset (delete (b_offset b) bs)))
                  ≫= λ _,
                coalesce_loop n buddy_offset
              else
                modify (set_blocks (λ bs,
                  alter (with_size (b_size b * 2)) o (delete buddy_offset bs))) ≫= λ _,
                coalesce_loop n o
        end
      else mret o
  end.

Definition coalesce (o : Z) : M BuddyAllocator unit :=
  mo ← gets max_order;
  o' ← coalesce_loop mo o;
  b ← get_block o';
  m ← gets min_block_size;
  free_list_append (size_to_order m (b_size b)) (b_offset b).

Definition free_locked (offset : Z) : M BuddyAllocator bool :=
  bs ← gets blocks;
  match bs !! offset with
  | None => mret false
  | Some b =>
      if negb (b_allocated b) then mret false
      else
        modify (set_blocks (alter (with_owner false None) offset)) ≫= λ _,
        modify (add_usage (- b_size b) (-1)) ≫= λ _,
        coalesce offset ≫= λ _,
        mret true
  end.
Definition free (offset : Z) : M BuddyAllocator bool := free_locked offset.

Definition get_block_info (offset : Z) : M BuddyAllocator (option Block) :=
  gets (λ s, blocks s !! offset).

(** ** Reports *)

(** The loop over [range(first, max_order + 1)] of [count_free_slots]. *)
Fixpoint count_slots (fl : list (list Z)) (order : nat) (m size : Z) : Z :=
  match fl with
  | [] => 0
  | l :: fl => length l * (Z.shiftl m order / size) + count_slots fl (S order) m size
  end.
Definition count_free_slots (slot_size : Z) (s : BuddyAllocator) : Z :=
  if slot_size <=? 0 then 0
  else
    let size := alloc_size (min_block_size s) slot_size in
    let first := size_to_order (min_block_size s) size in
    count_slots (drop first (free_lists s)) first (min_block_size s) size.

Record Stats := mk_stats {
  st_pool_size : Z;
  st_min_block_size : Z;
  st_allocated_bytes : Z;
  st_free_bytes : Z;
  st_num_allocations : Z;
  st_num_blocks : nat;
  st_free_blocks_by_size : list (Z * nat);
}.

Definition get_stats (s : BuddyAllocator) : Stats :=
  mk_stats (pool_size s) (min_block_size s) (allocated_bytes s)
    (pool_size s - allocated_bytes s) (num_allocations s) (size (blocks s))
    (filter (λ p, p.2 ≠ 0%nat)
       (imap (λ order l, (Z.shiftl (min_block_size s) order, length l)) (free_lists s))).
