(* ===== verification/BuddyFacts.v ===== *)
(** * Correctness of the buddy allocator

    Arithmetic of powers of two, the allocator's invariant, and its preservation by
    splitting, merging, [allocate] and [free]. *)

From S2P Require Import Prelude Buddy.
Local Open Scope Z_scope.

(** ** Powers of two *)

Section Smear.
(** [window w n x]: bit [i] of [x] is set when one of the [w] bits of [n] from [i]
    on is. *)
Definition window (w : Z) (n x : Z) : Prop :=
  ∀ i, 0 ≤ i → (Z.testbit x i = true ↔ ∃ d, 0 ≤ d < w ∧ Z.testbit n (i + d) = true).

Lemma window_one n : window 1 n n.
Proof.
  intros i Hi. split; [intros; exists 0; by rewrite Z.add_0_r|].
  intros (d & Hd & Hb). by replace (i + d) with i in Hb by lia.
Qed.

Lemma window_double w n x :
  0 < w → window w n x → window (2 * w) n (Z.lor x (Z.shiftr x w)).
Proof.
  intros Hw Hx i Hi. rewrite Z.lor_spec, Z.shiftr_spec, orb_true_iff by done.
  rewrite (Hx i), (Hx (i + w)) by lia. split.
  - intros [(d & Hd & Hb)|(d & Hd & Hb)]; [exists d; split; [lia|done]|].
    exists (w + d). split; [lia|]. by rewrite Z.add_assoc.
  - intros (d & Hd & Hb). destruct (decide (d < w)); [left; exists d; split; [lia|done]|].
    right. exists (d - w). split; [lia|]. by replace (i + w + (d - w)) with (i + d) by lia.
Qed.

Lemma window_ones n x :
  0 < n < 2 ^ 64 → 0 ≤ x → window 64 n x → x = 2 ^ (Z.log2 n + 1) - 1.
Proof.
  intros Hn Hx Hw. pose proof (Z.log2_nonneg n).
  assert (Z.log2 n < 64) by (apply Z.log2_lt_pow2; lia).
  rewrite Z.sub_1_r, <-Z.ones_equiv.
  apply Z.bits_inj'. intros i Hi. rewrite Z.testbit_ones_nonneg by lia.
  destruct (i <? Z.log2 n + 1) eqn:E; bool_to_prop.
  - apply Hw; [done|]. exists (Z.log2 n - i). split; [lia|].
    replace (i + (Z.log2 n - i)) with (Z.log2 n) by lia. apply Z.bit_log2. lia.
  - apply not_true_iff_false. rewrite (Hw i Hi). intros (d & Hd & Hb).
    rewrite Z.bits_above_log2 in Hb by lia. done.
Qed.
End Smear.

(** [_next_power_of_2] rounds up to a power of two. *)
Lemma next_power_of_2_log n :
  1 ≤ n ≤ 2 ^ 64 → next_power_of_2 n = 2 ^ Z.log2_up n.
Proof.
  intros Hn. unfold next_power_of_2. rewrite (proj2 (Z.leb_gt n 0)) by lia. cbv zeta.
  destruct (decide (n = 1)) as [->|Hne]; [done|].
  rewrite Z.log2_up_eqn by lia. rewrite Z.sub_1_r, <-Z.add_1_r.
  set (m := Z.pred n). assert (Hm : 0 < m < 2 ^ 64) by lia.
  match goal with |- ?x + 1 = _ => rewrite (window_ones m x); [lia|done| |] end.
  - repeat first [apply Z.lor_nonneg; split | apply Z.shiftr_nonneg]; lia.
  - apply (window_double 32), (window_double 16), (window_double 8), (window_double 4),
      (window_double 2), (window_double 1), window_one; lia.
Qed.

Lemma next_power_of_2_le n : 1 ≤ n ≤ 2 ^ 64 → n ≤ next_power_of_2 n.
Proof.
  intros Hn. rewrite next_power_of_2_log by done.
  destruct (decide (n = 1)) as [->|]; [done|]. apply Z.log2_up_spec. lia.
Qed.

(** A positive integer without two set bits is a power of two. *)
Lemma land_pred_pow2 m : 0 < m → Z.land m (m - 1) = 0 → m = 2 ^ Z.log2 m.
Proof.
  intros Hm Hl. destruct (Z.log2_spec m Hm) as [Hlo Hhi]. rewrite Z.pow_succ_r in Hhi
    by apply Z.log2_nonneg. destruct (decide (m = 2 ^ Z.log2 m)) as [|Hne]; [done|].
  exfalso. assert (Z.testbit (Z.land m (m - 1)) (Z.log2 m) = true) as Hb.
  { rewrite Z.land_spec, Z.bit_log2 by done. simpl.
    replace (Z.log2 m) with (Z.log2 (m - 1)); [apply Z.bit_log2; lia|].
    apply Z.log2_unique; [apply Z.log2_nonneg|]. rewrite Z.pow_succ_r by apply Z.log2_nonneg. lia. }
  by rewrite Hl, Z.bits_0 in Hb.
Qed.

(** The buddy of an aligned offset. *)
Lemma lxor_pow2 o j :
  0 ≤ j → Z.lxor o (2 ^ j) = if Z.testbit o j then o - 2 ^ j else o + 2 ^ j.
Proof.
  intros Hj. assert (∀ x, Z.testbit x j = false → Z.lxor x (2 ^ j) = x + 2 ^ j) as Hclear.
  { intros x Hx. symmetry. apply Z.add_nocarry_lxor. apply Z.bits_inj'. intros i Hi.
    rewrite Z.land_spec, Z.bits_0, Z.pow2_bits_eqb by done.
    destruct (Z.eqb_spec j i) as [<-|]; [by rewrite Hx|by rewrite andb_false_r]. }
  destruct (Z.testbit o j) eqn:E; [|by apply Hclear].
  assert (o = Z.lxor o (2 ^ j) + 2 ^ j) as Ho.
  { rewrite <-Hclear.
    - by rewrite Z.lxor_assoc, Z.lxor_nilpotent, Z.lxor_0_r.
    - by rewrite Z.lxor_spec, E, Z.pow2_bits_true. }
  lia.
Qed.

Lemma lxor_lxor x s : Z.lxor (Z.lxor x s) s = x.
Proof. by rewrite Z.lxor_assoc, Z.lxor_nilpotent, Z.lxor_0_r. Qed.

(** Bit [j] of a multiple of [2^j] decides whether it is a multiple of [2^(j+1)]. *)
Lemma testbit_divide o j :
  0 ≤ j → (2 ^ j | o) →
  if Z.testbit o j then (2 ^ (j + 1) | o - 2 ^ j) else (2 ^ (j + 1) | o).
Proof.
  intros Hj [q ->]. replace (Z.testbit (q * 2 ^ j) j) with (Z.odd q).
  2:{ rewrite <-Z.shiftl_mul_pow2, Z.shiftl_spec, Z.sub_diag by done. by rewrite Z.bit0_odd. }
  rewrite Z.pow_add_r, Z.pow_1_r by lia.
  destruct (Z.odd q) eqn:E.
  - apply Z.odd_spec in E as [p ->]. exists p. lia.
  - rewrite <-Z.negb_even in E. apply negb_false_iff, Z.even_spec in E as [p ->]. exists p. lia.
Qed.

(** ** Orders *)

Lemma size_to_order_loop_pow fuel m i k :
  0 < m → (i ≤ k)%nat → (k - i ≤ fuel)%nat →
  size_to_order_loop fuel (m * 2 ^ i) (m * 2 ^ k) i = k.
Proof.
  intros Hm. revert i. induction fuel as [|fuel IH]; intros i Hi Hf; simpl; [lia|].
  destruct (decide (i = k)) as [->|Hne]; [by rewrite Z.ltb_irrefl|].
  rewrite (proj2 (Z.ltb_lt _ _)).
  2:{ apply Z.mul_lt_mono_pos_l; [done|]. apply Z.pow_lt_mono_r; lia. }
  rewrite Z.shiftl_mul_pow2, <-Z.mul_assoc, <-Z.pow_add_r by lia.
  replace (i + 1) with (Z.of_nat (S i)) by lia. apply IH; lia.
Qed.

Lemma size_to_order_pow m (k : nat) : 0 < m → size_to_order m (m * 2 ^ k) = k.
Proof.
  intros Hm. unfold size_to_order.
  pose proof (size_to_order_loop_pow (Z.to_nat (Z.log2_up (m * 2 ^ k))) m 0 k Hm) as H.
  rewrite Z.mul_1_r in H. apply H; [lia|].
  enough (Z.of_nat k ≤ Z.log2_up (m * 2 ^ k)) by lia.
  rewrite <-(Z.log2_up_pow2 k) at 1 by lia. apply Z.log2_up_le_mono.
  assert (0 < 2 ^ k) by (apply Z.pow_pos_nonneg; lia). nia.
Qed.

(** ** Sums over the blocks *)

Definition map_sum (f : Block → Z) (m : gmap Z Block) : Z :=
  Zsum ((λ p, f p.2) <$> map_to_list m).

Lemma map_sum_insert f m o b : m !! o = None → map_sum f (<[o := b]> m) = f b + map_sum f m.
Proof.
  intros Hn. unfold map_sum.
  by rewrite (Zsum_perm _ _ (fmap_Permutation _ _ _ (map_to_list_insert m o b Hn))).
Qed.

Lemma map_sum_delete f m o b : m !! o = Some b → map_sum f (delete o m) = map_sum f m - f b.
Proof.
  intros Hs. rewrite <-(insert_delete_id m o b Hs) at 2.
  rewrite map_sum_insert by apply lookup_delete_eq. lia.
Qed.

Lemma map_sum_replace f m o b b' :
  m !! o = Some b → map_sum f (<[o := b']> m) = map_sum f m - f b + f b'.
Proof.
  intros Hs. rewrite <-insert_delete_eq, map_sum_insert by apply lookup_delete_eq.
  rewrite (map_sum_delete _ _ _ _ Hs). lia.
Qed.

Lemma map_sum_alter f m o b g :
  m !! o = Some b → map_sum f (alter g o m) = map_sum f m - f b + f (g b).
Proof.
  intros Hs. replace (alter g o m) with (<[o := g b]> m); [by apply map_sum_replace|].
  apply map_eq. intros k. destruct (decide (k = o)) as [->|]; by simplify_map_eq.
Qed.

(** ** The invariant

    [inv hole s]: the blocks tile the pool, each a power-of-two multiple of the
    smallest block, aligned to its size; the free lists hold exactly the free blocks
    by order, except the block at [hole], which an operation has in hand; the counters
    are right; and no two free buddies are left unmerged outside [hole]. *)

Definition used_bytes (b : Block) : Z := if b_allocated b then b_size b else 0.
Definition used_count (b : Block) : Z := if b_allocated b then 1 else 0.

Definition ord (s : BuddyAllocator) (k : nat) : Z := min_block_size s * 2 ^ k.

Definition block_ok (s : BuddyAllocator) (o : Z) (b : Block) : Prop :=
  b_offset b = o ∧ 0 ≤ o ∧ o + b_size b ≤ pool_size s ∧
  ∃ k : nat, (k ≤ max_order s)%nat ∧ b_size b = ord s k ∧ (ord s k | o).

Definition free_at (s : BuddyAllocator) (k : nat) (o : Z) : Prop :=
  ∃ b, blocks s !! o = Some b ∧ b_allocated b = false ∧ b_size b = ord s k.

Record geometry (s : BuddyAllocator) : Prop := {
  g_min : ∃ a, 0 ≤ a ∧ min_block_size s = 2 ^ a;
  g_pool : pool_size s = ord s (max_order s);
  g_block : ∀ o b, blocks s !! o = Some b → block_ok s o b;
  g_disj : ∀ o1 b1 o2 b2, blocks s !! o1 = Some b1 → blocks s !! o2 = Some b2 →
    o1 < o2 → o1 + b_size b1 ≤ o2;
  g_cover : ∀ x, 0 ≤ x < pool_size s →
    ∃ o b, blocks s !! o = Some b ∧ o ≤ x < o + b_size b;
  g_total : map_sum b_size (blocks s) = pool_size s;
}.

Record inv (hole : option Z) (s : BuddyAllocator) : Prop := {
  i_geo : geometry s;
  i_len : length (free_lists s) = S (max_order s);
  i_free : ∀ k l, free_lists s !! k = Some l →
    NoDup l ∧ ∀ o, o ∈ l ↔ hole ≠ Some o ∧ free_at s k o;
  i_bytes : allocated_bytes s = map_sum used_bytes (blocks s);
  i_num : num_allocations s = map_sum used_count (blocks s);
  i_merged : ∀ o b b', blocks s !! o = Some b → b_allocated b = false → hole ≠ Some o →
    blocks s !! Z.lxor o (b_size b) = Some b' → b_allocated b' = false →
    hole ≠ Some (Z.lxor o (b_size b)) → b_size b' ≠ b_size b;
}.

Lemma min_pos s : geometry s → 0 < min_block_size s.
Proof. intros Hs. destruct (g_min _ Hs) as (a & Ha & ->). by apply Z.pow_pos_nonneg. Qed.

Lemma ord_pos s k : geometry s → 0 < ord s k.
Proof.
  intros Hs. apply Z.mul_pos_pos; [by eapply min_pos|]. apply Z.pow_pos_nonneg; lia.
Qed.

Lemma ord_inj s k k' : geometry s → ord s k = ord s k' → k = k'.
Proof.
  intros Hs. pose proof (min_pos _ Hs). unfold ord. intros E.
  apply Z.mul_reg_l in E; [|lia]. apply Z.pow_inj_r in E; lia.
Qed.

Lemma ord_S s k : ord s (S k) = 2 * ord s k.
Proof. unfold ord. rewrite Nat2Z.inj_succ, Z.pow_succ_r by lia. lia. Qed.

Lemma ord_order s k : geometry s → size_to_order (min_block_size s) (ord s k) = k.
Proof. intros Hs. apply size_to_order_pow. by eapply min_pos. Qed.

Lemma ord_pow s k : geometry s → ∃ j, 0 ≤ j ∧ ord s k = 2 ^ j ∧ ord s (S k) = 2 ^ (j + 1).
Proof.
  intros Hs. destruct (g_min _ Hs) as (a & Ha & E). exists (a + k).
  unfold ord. rewrite E, <-!Z.pow_add_r by lia. split_and!; [lia|done|f_equal; lia].
Qed.

(** The buddy of an aligned block, and the larger block the two make. *)
Lemma buddy_cases s k o :
  geometry s → (ord s k | o) →
  (Z.lxor o (ord s k) = o + ord s k ∧ (ord s (S k) | o)) ∨
  (Z.lxor o (ord s k) = o - ord s k ∧ (ord s (S k) | o - ord s k)).
Proof.
  intros Hs Hd. destruct (ord_pow _ k Hs) as (j & Hj & E1 & E2). rewrite E1, E2 in *.
  rewrite lxor_pow2 by done. pose proof (testbit_divide o j Hj Hd) as H.
  destruct (Z.testbit o j); [right|left]; done.
Qed.

(** The two halves of an aligned cell are buddies. *)
Lemma split_buddy_at s k o :
  geometry s → (ord s (S k) | o) → Z.lxor (o + ord s k) (ord s k) = o.
Proof.
  intros Hgeo Hdiv.
  assert ((ord s k | o)) as Hdk by (destruct Hdiv as [q ->]; exists (2 * q); rewrite ord_S; lia).
  assert (Z.lxor o (ord s k) = o + ord s k) as <-; [|apply lxor_lxor].
  destruct (buddy_cases s k o Hgeo Hdk) as [[H _]|[_ H]]; [done|]. exfalso.
  apply (Z.divide_sub_r _ _ _ Hdiv) in H. replace (o - (o - ord s k)) with (ord s k) in H by lia.
  pose proof (ord_pos _ k Hgeo). apply Z.divide_pos_le in H; [|done]. rewrite ord_S in H. lia.
Qed.

(** ** Elementary updates *)

(** Lookups in the updated maps, as case distinctions. *)
Lemma lookup_alter_case (m : gmap Z Block) f o b x :
  m !! o = Some b → alter f o m !! x = if decide (x = o) then Some (f b) else m !! x.
Proof. intros. case_decide; subst; by simplify_map_eq. Qed.

Lemma lookup_insert_case (m : gmap Z Block) o b x :
  <[o := b]> m !! x = if decide (x = o) then Some b else m !! x.
Proof. case_decide; subst; by simplify_map_eq. Qed.

Lemma lookup_delete_case (m : gmap Z Block) o x :
  delete o m !! x = if decide (x = o) then None else m !! x.
Proof. case_decide; subst; by simplify_map_eq. Qed.

Ltac map_cases := repeat (case_decide; simplify_eq/=).

(** An offset strictly inside a block starts no block. *)
Lemma inside_None s o b x :
  geometry s → blocks s !! o = Some b → o < x < o + b_size b → blocks s !! x = None.
Proof.
  intros Hs Hb Hx. destruct (blocks s !! x) as [b'|] eqn:E; [|done].
  pose proof (g_disj _ Hs o b x b' Hb E). lia.
Qed.

(** Free lists that hold exactly the offsets of [P] by order. *)
Definition lists_ok (fl : list (list Z)) (P : nat → Z → Prop) : Prop :=
  ∀ k l, fl !! k = Some l → NoDup l ∧ ∀ o, o ∈ l ↔ P k o.

Lemma lists_ok_insert fl (P Q : nat → Z → Prop) k l :
  lists_ok fl P → (∀ j o, j ≠ k → Q j o ↔ P j o) → NoDup l → (∀ o, o ∈ l ↔ Q k o) →
  lists_ok (<[k := l]> fl) Q.
Proof.
  intros Hfl Hne Hnd Hin j l' Hl'.
  apply list_lookup_insert_Some in Hl' as [(<- & <- & _)|[Hjk Hl']]; [done|].
  destruct (Hfl _ _ Hl') as [Hn Hi]. split; [done|]. intros o. by rewrite Hne.
Qed.

Lemma free_at_inj s j k o : geometry s → free_at s j o → free_at s k o → j = k.
Proof.
  intros Hs (b & Hb & _ & Hj) (b' & Hb' & _ & Hk). simplify_eq. eapply ord_inj; [done|]. congruence.
Qed.

Lemma pop_inv s k o l :
  inv None s → free_lists s !! k = Some (o :: l) →
  inv (Some o) (set_free_lists (λ _, <[k := l]> (free_lists s)) s) ∧ free_at s k o.
Proof.
  intros Hs Hk. destruct (i_free _ _ Hs _ _ Hk) as [Hnd Hin].
  apply NoDup_cons in Hnd as [Hnin Hnd].
  assert (free_at s k o) as Hat by (apply Hin; left). split; [|done].
  pose proof (λ j, free_at_inj s j k o (i_geo _ _ Hs)) as Hinj.
  destruct Hs as [Hgeo Hlen Hfree Hbytes Hnum Hmerged].
  split; simpl; try done; [by destruct Hgeo|by rewrite length_insert| |].
  - eapply lists_ok_insert; [exact Hfree| |done|].
    + intros j x Hj. split; intros [H1 H2]; (split; [|exact H2]); [done|].
      intros [= <-]. by apply Hj, Hinj.
    + intros x. specialize (Hin x). rewrite elem_of_cons in Hin. split.
      * intros Hx. split; [intros [= <-]; done|]. by apply Hin; right.
      * intros [H1 H2]. destruct (proj2 Hin) as [->|]; [by split|by destruct H1|done].
  - intros o1 b b' H1 H2 _ H3 H4 _. by eapply Hmerged.
Qed.

(** Putting the block in hand on its free list, once it cannot be merged. *)
Lemma append_inv s k o b l :
  inv (Some o) s → blocks s !! o = Some b → b_allocated b = false → b_size b = ord s k →
  free_lists s !! k = Some l →
  (∀ b', blocks s !! Z.lxor o (b_size b) = Some b' → b_allocated b' = false →
    b_size b' ≠ b_size b) →
  inv None (set_free_lists (λ _, <[k := (l ++ [o])%list]> (free_lists s)) s).
Proof.
  intros Hs Hb Ha Hk Hl Hno. assert (free_at s k o) as Hat by by exists b.
  pose proof (λ j, free_at_inj s j k o (i_geo _ _ Hs)) as Hinj.
  destruct (i_free _ _ Hs _ _ Hl) as [Hnd Hin].
  destruct Hs as [Hgeo Hlen Hfree Hbytes Hnum Hmerged].
  split; simpl; try done; [by destruct Hgeo|by rewrite length_insert| |].
  - eapply lists_ok_insert; [exact Hfree| | |].
    + intros j x Hj. split; intros [H1 H2]; (split; [|exact H2]); [|done].
      intros [= <-]. by apply Hj, Hinj.
    + apply NoDup_app. split_and!; [done| |apply NoDup_singleton].
      intros x Hx ->%list_elem_of_singleton. by apply Hin in Hx as [[] _].
    + intros x. rewrite elem_of_app, list_elem_of_singleton, Hin. split.
      * intros [[_ H]| ->]; by split.
      * intros [_ H]. destruct (decide (x = o)) as [->|]; [by right|left].
        split; [congruence|done].
  - intros o1 b1 b' H1 H2 _ H3 H4 _ Heq.
    destruct (decide (o1 = o)) as [->|Hne]; [simplify_eq; by eapply Hno|].
    destruct (decide (Z.lxor o1 (b_size b1) = o)) as [E|Hne'].
    + rewrite E in H3. simplify_eq. eapply (Hno b1); [|done|done].
      rewrite Heq in *. by rewrite lxor_lxor.
    + eapply (Hmerged o1 b1 b'); try done; congruence.
Qed.

(** Ownership does not change the geometry. *)
Lemma owner_geometry s o b a rid :
  geometry s → blocks s !! o = Some b → geometry (set_blocks (alter (with_owner a rid) o) s).
Proof.
  intros [Hmin Hpool Hblock Hdisj Hcover Htot] Hb.
  pose proof (λ x, lookup_alter_case (blocks s) (with_owner a rid) o b x Hb) as Hlk.
  split; simpl; try done.
  - intros x bx. rewrite Hlk. case_decide as E; [|apply Hblock]. intros [= <-]. subst x.
    by apply (Hblock o b).
  - intros o1 b1 o2 b2. rewrite !Hlk. intros H1 H2 Hlt. map_cases; try lia; eauto.
  - intros x Hx. destruct (Hcover x Hx) as (o1 & b1 & H1 & H2).
    destruct (decide (o1 = o)) as [->|Hne].
    + assert (b1 = b) as -> by congruence. exists o, (with_owner a rid b). rewrite Hlk, decide_True by done. done.
    + exists o1, b1. rewrite Hlk, decide_False by done. done.
  - rewrite (map_sum_alter _ _ _ _ _ Hb), Htot. simpl. lia.
Qed.

(** Handing the block in hand to a request. *)
Lemma take_inv s o b rid :
  inv (Some o) s → blocks s !! o = Some b → b_allocated b = false →
  inv None (add_usage (b_size b) 1 (set_blocks (alter (with_owner true rid) o) s)).
Proof.
  intros [Hgeo Hlen Hfree Hbytes Hnum Hmerged] Hb Ha.
  pose proof (λ x, lookup_alter_case (blocks s) (with_owner true rid) o b x Hb) as Hlk.
  split; simpl; try done.
  - by destruct (owner_geometry s o b true rid).
  - intros k l Hl. destruct (Hfree k l Hl) as [Hnd Hin]. split; [done|]. intros x. rewrite Hin.
    unfold free_at. simpl. split.
    + intros [H1 (b' & H2 & H3)]. split; [done|]. exists b'. rewrite Hlk.
      rewrite decide_False by congruence. done.
    + intros [_ (b' & H2 & H3 & H4)]. rewrite Hlk in H2. map_cases.
      split; [congruence|]. by exists b'.
  - rewrite (map_sum_alter _ _ _ _ _ Hb), Hbytes. unfold used_bytes. simpl. rewrite Ha. lia.
  - rewrite (map_sum_alter _ _ _ _ _ Hb), Hnum. unfold used_count. simpl. rewrite Ha. lia.
  - intros o1 b1 b'. rewrite !Hlk. intros H1 H2 _ H3 H4 _. map_cases.
    eapply Hmerged; try done; congruence.
Qed.

(** Taking an allocated block back in hand. *)
Lemma release_inv s o b :
  inv None s → blocks s !! o = Some b → b_allocated b = true →
  inv (Some o) (add_usage (- b_size b) (-1) (set_blocks (alter (with_owner false None) o) s)).
Proof.
  intros [Hgeo Hlen Hfree Hbytes Hnum Hmerged] Hb Ha.
  pose proof (λ x, lookup_alter_case (blocks s) (with_owner false None) o b x Hb) as Hlk.
  split; simpl; try done.
  - by destruct (owner_geometry s o b false None).
  - intros k l Hl. destruct (Hfree k l Hl) as [Hnd Hin]. split; [done|]. intros x. rewrite Hin.
    unfold free_at. simpl. split.
    + intros [_ (b' & H2 & H3 & H4)]. assert (x ≠ o) by (intros ->; congruence).
      split; [congruence|]. exists b'. rewrite Hlk. rewrite decide_False by done. done.
    + intros [H1 (b' & H2 & H3)]. split; [done|]. rewrite Hlk in H2.
      rewrite decide_False in H2 by congruence. by exists b'.
  - rewrite (map_sum_alter _ _ _ _ _ Hb), Hbytes. unfold used_bytes. simpl. rewrite Ha. lia.
  - rewrite (map_sum_alter _ _ _ _ _ Hb), Hnum. unfold used_count. simpl. rewrite Ha. lia.
  - intros o1 b1 b'. rewrite !Hlk. intros H1 H2 H3 H4 H5 H6. map_cases.
    eapply Hmerged; try done; congruence.
Qed.

(** ** Splitting *)

(** The block at [o] of order [k + 1] becomes two of order [k]; the upper one is free. *)
Definition split_blocks (s : BuddyAllocator) (k : nat) (o : Z) (m : gmap Z Block) : gmap Z Block :=
  alter (with_size (ord s k)) o
    (<[o + ord s k := mk_block (o + ord s k) (ord s k) false None]> m).

Section Split.
Context (s : BuddyAllocator) (o : Z) (b : Block) (k : nat).
Context (Hgeo : geometry s) (Hb : blocks s !! o = Some b) (Hk : b_size b = ord s (S k)).

Let upper := mk_block (o + ord s k) (ord s k) false None.

Lemma split_upper_None : blocks s !! (o + ord s k) = None.
Proof.
  pose proof (ord_pos _ k Hgeo). eapply inside_None; [done..|]. rewrite Hk, ord_S. lia.
Qed.

Lemma split_lookup x :
  split_blocks s k o (blocks s) !! x =
  if decide (x = o) then Some (with_size (ord s k) b)
  else if decide (x = o + ord s k) then Some upper else blocks s !! x.
Proof.
  pose proof (ord_pos _ k Hgeo). unfold split_blocks.
  erewrite lookup_alter_case; [|rewrite lookup_insert_ne by lia; exact Hb].
  by rewrite lookup_insert_case.
Qed.

Lemma split_sum f :
  map_sum f (split_blocks s k o (blocks s)) =
    map_sum f (blocks s) - f b + f (with_size (ord s k) b) + f upper.
Proof.
  pose proof (ord_pos _ k Hgeo). unfold split_blocks.
  erewrite map_sum_alter by (rewrite lookup_insert_ne by lia; exact Hb).
  rewrite map_sum_insert by apply split_upper_None. fold upper. lia.
Qed.

Lemma split_buddy : Z.lxor (o + ord s k) (ord s k) = o.
Proof.
  destruct (g_block _ Hgeo o b Hb) as (_ & _ & _ & j & _ & Hsz & Hdiv).
  assert (j = S k) as -> by (apply (ord_inj s); [done|congruence]). by apply split_buddy_at.
Qed.

Lemma split_geometry : geometry (set_blocks (split_blocks s k o) s).
Proof.
  pose proof (ord_pos _ k Hgeo) as Hpos. pose proof (ord_S s k) as HS.
  pose proof split_sum as Hsum. pose proof split_lookup as Hlk.
  destruct Hgeo as [Hmin Hpool Hblock Hdisj Hcover Htot].
  destruct (Hblock o b Hb) as (Hoff & Ho & Hend & j & Hj & Hsz & Hdiv).
  assert (j = S k) as -> by (eapply ord_inj; [by split|congruence]).
  assert ((ord s k | o)) as Hdk by (destruct Hdiv as [q ->]; exists (2 * q); lia).
  split; simpl; try done.
  - intros x bx. rewrite Hlk. intros H. map_cases; [| |by apply Hblock].
    + unfold block_ok. simpl. split_and!; [done|done|lia|]. exists k. split_and!; [lia|done|done].
    + unfold block_ok. simpl. split_and!; [done|lia|lia|]. exists k. split_and!; [lia|done|].
      apply Z.divide_add_r; [done|]. apply Z.divide_refl.
  - assert (∀ x bx, blocks s !! x = Some bx → x ≠ o →
      (x < o ∧ x + b_size bx ≤ o) ∨ (o < x ∧ o + b_size b ≤ x)) as Hsep.
    { intros x bx H Hne. destruct (decide (x < o)); [left|right]; (split; [lia|]);
        eapply Hdisj; eauto; lia. }
    intros o1 b1 o2 b2. rewrite !Hlk. intros H1 H2 Hlt.
    pose proof (Hsep o1 b1). pose proof (Hsep o2 b2).
    map_cases; try lia; try (by eapply Hdisj); intuition lia.
  - intros x Hx. destruct (Hcover x Hx) as (o1 & b1 & H1 & H2).
    destruct (decide (o1 = o)) as [->|Hne].
    + assert (b1 = b) as -> by congruence. destruct (decide (x < o + ord s k)).
      * exists o, (with_size (ord s k) b). rewrite Hlk, decide_True by done. simpl. split; [done|lia].
      * exists (o + ord s k), upper. rewrite Hlk, decide_False, decide_True by lia. simpl.
        split; [done|lia].
    + exists o1, b1. rewrite Hlk, !decide_False; [done| |done].
      intros ->. pose proof split_upper_None. congruence.
  - rewrite Hsum, Htot, Hk. simpl. lia.
Qed.

Lemma split_inv l :
  inv (Some o) s → b_allocated b = false → free_lists s !! k = Some l →
  inv (Some o) (set_free_lists (λ _, <[k := (l ++ [o + ord s k])%list]> (free_lists s))
    (set_blocks (split_blocks s k o) s)).
Proof.
  pose proof (ord_pos _ k Hgeo) as Hpos. pose proof split_geometry as Hgeo'.
  pose proof split_sum as Hsum. pose proof split_lookup as Hlk.
  pose proof split_upper_None as Hup.
  intros [_ Hlen Hfree Hbytes Hnum Hmerged] Ha Hl. destruct (Hfree k l Hl) as [Hnd Hin].
  set (s' := set_blocks (split_blocks s k o) s) in *.
  assert (∀ j x, x ≠ o → free_at s' j x ↔ free_at s j x ∨ (j = k ∧ x = o + ord s k)) as Hat.
  { intros j x Hx. unfold free_at. simpl. rewrite Hlk, decide_False by done. split.
    - intros (b' & H1 & H2 & H3). map_cases; [|by left; exists b'].
      right. split; [|done]. by eapply ord_inj.
    - intros [(b' & H1 & H2)|[-> ->]]; [|rewrite decide_True by done; by exists upper].
      exists b'. rewrite decide_False; [done|]. intros ->. congruence. }
  assert (∀ j, ¬ free_at s j (o + ord s k)) as Hno
    by (intros j (b' & H1 & _); congruence).
  split; simpl; [by destruct Hgeo'|by rewrite length_insert| | | |].
  - eapply lists_ok_insert; [exact Hfree| | |].
    + intros j x Hj. split; intros [H1 H2]; (split; [done|]);
        apply (Hat j x) in H2 || apply (Hat j x); try congruence; [|by left].
      destruct H2 as [|[]]; done.
    + apply NoDup_app. split_and!; [done| |apply NoDup_singleton].
      intros x Hx ->%list_elem_of_singleton. apply Hin in Hx as [_ Hx]. by eapply Hno.
    + intros x. rewrite elem_of_app, list_elem_of_singleton, Hin. split.
      * intros [[H1 H2]| ->]; (split; [intros ?; simplify_eq; lia || done|]); apply Hat;
          by (congruence || lia || auto).
      * intros [H1 H2]. apply Hat in H2; [|congruence]. destruct H2 as [|[_ ->]]; auto.
  - rewrite Hsum, Hbytes. unfold used_bytes. simpl. rewrite Ha. lia.
  - rewrite Hsum, Hnum. unfold used_count. simpl. rewrite Ha. lia.
  - pose proof split_buddy as Hbud. intros o1 b1 b' H1 H2 H3 H4 H5 H6 Heq.
    rewrite Hlk, decide_False in H1 by congruence.
    rewrite Hlk, decide_False in H4 by congruence.
    destruct (decide (o1 = o + ord s k)) as [->|Hne1]; simplify_eq/=.
    { by rewrite Hbud in H6. }
    destruct (decide (Z.lxor o1 (b_size b1) = _)) as [E|Hne2]; simplify_eq/=.
    { rewrite <-Heq in E. rewrite <-(lxor_lxor o1 (ord s k)), E, Hbud in H3. done. }
    by apply (Hmerged o1 b1 b' H1 H2 H3 H4 H5 H6).
Qed.
End Split.

(** ** Merging *)

(** The blocks at [lo] and [lo + ord k] become one of order [k + 1] at [lo]. *)
Definition merge_blocks (s : BuddyAllocator) (k : nat) (lo : Z) (m : gmap Z Block) : gmap Z Block :=
  alter (with_size (ord s k * 2)) lo (delete (lo + ord s k) m).

Lemma list_remove_first_elem o l :
  NoDup l → NoDup (list_remove_first o l) ∧ ∀ x, x ∈ list_remove_first o l ↔ x ∈ l ∧ x ≠ o.
Proof.
  induction l as [|y l IH]; intros Hnd; simpl; [split; [constructor|set_solver]|].
  apply NoDup_cons in Hnd as [Hy Hnd]. destruct (IH Hnd) as [H1 H2].
  destruct (Z.eqb_spec o y) as [->|Hne].
  - split; [done|]. intros x. rewrite elem_of_cons. split; [|set_solver].
    intros Hx. split; [by right|]. by intros ->.
  - split.
    + apply NoDup_cons. split; [|done]. rewrite H2. naive_solver.
    + intros x. rewrite !elem_of_cons, H2. split; [|set_solver].
      intros [->|[? ?]]; split; auto.
Qed.

Section Merge.
Context (s : BuddyAllocator) (lo : Z) (b1 b2 : Block) (k : nat).
Context (Hgeo : geometry s) (H1 : blocks s !! lo = Some b1)
  (H2 : blocks s !! (lo + ord s k) = Some b2)
  (Hs1 : b_size b1 = ord s k) (Hs2 : b_size b2 = ord s k)
  (Ha1 : b_allocated b1 = false) (Ha2 : b_allocated b2 = false)
  (Hal : (ord s (S k) | lo)) (Hlt : (k < max_order s)%nat).

Let merged := with_size (ord s k * 2) b1.

Lemma merge_lookup x :
  merge_blocks s k lo (blocks s) !! x =
  if decide (x = lo) then Some merged
  else if decide (x = lo + ord s k) then None else blocks s !! x.
Proof.
  pose proof (ord_pos _ k Hgeo). unfold merge_blocks.
  erewrite lookup_alter_case; [|rewrite lookup_delete_ne by lia; exact H1].
  by rewrite lookup_delete_case.
Qed.

Lemma merge_sum f :
  map_sum f (merge_blocks s k lo (blocks s)) = map_sum f (blocks s) - f b2 - f b1 + f merged.
Proof.
  pose proof (ord_pos _ k Hgeo). unfold merge_blocks.
  erewrite map_sum_alter by (rewrite lookup_delete_ne by lia; exact H1).
  by rewrite (map_sum_delete _ _ _ _ H2).
Qed.

Lemma merge_geometry : geometry (set_blocks (merge_blocks s k lo) s).
Proof.
  pose proof (ord_pos _ k Hgeo) as Hpos. pose proof (ord_S s k) as HS.
  pose proof merge_sum as Hsum. pose proof merge_lookup as Hlk.
  destruct Hgeo as [Hmin Hpool Hblock Hdisj Hcover Htot].
  destruct (Hblock _ _ H1) as (Hoff & Ho & Hend & _).
  destruct (Hblock _ _ H2) as (Hoff2 & Ho2 & Hend2 & _).
  split; simpl; try done.
  - intros x bx. rewrite Hlk. intros H. map_cases; [|by apply Hblock].
    unfold block_ok. simpl. split_and!; [done|done|lia|]. exists (S k).
    split_and!; [lia|rewrite Z.mul_comm; symmetry; exact HS|done].
  - assert (∀ x bx, blocks s !! x = Some bx → x ≠ lo → x ≠ lo + ord s k →
      (x < lo ∧ x + b_size bx ≤ lo) ∨ (lo < x ∧ lo + ord s k * 2 ≤ x)) as Hsep.
    { intros x bx H Hn1 Hn2. destruct (decide (x < lo)).
      - left. split; [done|]. eapply Hdisj; eauto.
      - right. assert (lo < x) as Hlo by lia. split; [done|].
        pose proof (Hdisj _ _ _ _ H1 H Hlo). assert (lo + ord s k < x) as Hhi by lia.
        pose proof (Hdisj _ _ _ _ H2 H Hhi). lia. }
    intros o1 c1 o2 c2. rewrite !Hlk. intros E1 E2 Hl.
    pose proof (Hsep o1 c1). pose proof (Hsep o2 c2).
    map_cases; try lia; try (by eapply Hdisj); intuition lia.
  - intros x Hx. destruct (Hcover x Hx) as (o & b & Ho' & Hr).
    destruct (decide (lo ≤ x < lo + ord s k * 2)) as [Hin|Hout].
    + exists lo, merged. rewrite Hlk, decide_True by done. done.
    + exists o, b. rewrite Hlk, !decide_False; [done|intros ->|intros ->];
        simplify_eq; destruct Hout; lia.
  - rewrite Hsum, Htot, Hs1, Hs2. simpl. lia.
Qed.

(** [c] is the one in hand, [other] the one on the free list. *)
Lemma merge_inv c other l :
  inv (Some c) s → (c = lo ∧ other = lo + ord s k) ∨ (c = lo + ord s k ∧ other = lo) →
  free_lists s !! k = Some l →
  inv (Some lo) (set_blocks (merge_blocks s k lo)
    (set_free_lists (λ _, <[k := list_remove_first other l]> (free_lists s)) s)).
Proof.
  pose proof (ord_pos _ k Hgeo) as Hpos. pose proof merge_geometry as Hgeo'.
  pose proof merge_sum as Hsum. pose proof merge_lookup as Hlk.
  intros [_ Hlen Hfree Hbytes Hnum Hmerged] Hc Hl. destruct (Hfree k l Hl) as [Hnd Hin].
  destruct (list_remove_first_elem other l Hnd) as [Hnd' Hin'].
  assert (∀ j x, x ≠ lo → free_at (set_blocks (merge_blocks s k lo) s) j x ↔
    free_at s j x ∧ x ≠ lo + ord s k) as Hat.
  { intros j x Hx. unfold free_at. simpl. rewrite Hlk, decide_False by done. split.
    - intros (b' & E1 & E2). map_cases. split; [by exists b'|done].
    - intros [(b' & E1 & E2) Hne]. rewrite decide_False by done. by exists b'. }
  assert (∀ j x, x = lo ∨ x = lo + ord s k → free_at s j x → j = k) as Hord.
  { intros j x Hx (b' & E1 & _ & E3). apply (ord_inj s); [done|]. rewrite <-E3.
    destruct Hx as [->| ->]; [rewrite H1 in E1|rewrite H2 in E1]; by injection E1 as <-. }
  split; simpl; [by destruct Hgeo'|by rewrite length_insert| | | |].
  - eapply lists_ok_insert; [exact Hfree| |done|].
    + intros j x Hj. split.
      * intros [E1 E2]. apply Hat in E2 as [E2 E3]; [|congruence]. split; [|done].
        intros [= ->]. destruct Hc as [[-> ->]|[-> ->]]; congruence.
      * intros [E1 E2]. assert (x ≠ lo ∧ x ≠ lo + ord s k) as [? ?].
        { split; intros E; apply Hj; (eapply Hord; [|exact E2]); auto. }
        split; [congruence|]. apply Hat; [done|]. done.
    + intros x. rewrite Hin', Hin. split.
      * intros [[E1 E2] E3]. assert (x ≠ lo ∧ x ≠ lo + ord s k) as [? ?]
          by (destruct Hc as [[-> ->]|[-> ->]]; split; congruence).
        split; [congruence|]. by apply Hat.
      * intros [E1 E2]. apply Hat in E2 as [E2 E3]; [|congruence].
        destruct Hc as [[-> ->]|[-> ->]]; split_and!; congruence.
  - rewrite Hsum, Hbytes. unfold used_bytes. simpl. rewrite Ha1, Ha2. lia.
  - rewrite Hsum, Hnum. unfold used_count. simpl. rewrite Ha1, Ha2. lia.
  - intros o1 c1 c2 E1 E2 E3 E4 E5 E6. rewrite Hlk, decide_False in E1 by congruence.
    rewrite Hlk, decide_False in E4 by congruence.
    destruct (decide (o1 = _)); [done|]. destruct (decide (Z.lxor o1 (b_size c1) = _)); [done|].
    eapply Hmerged; try done; destruct Hc as [[-> ->]|[-> ->]]; congruence.
Qed.
End Merge.
