(* ===== verification/BuddyOps.v ===== *)
(** * Operations of the buddy allocator

    [init], [allocate] and [free] against the map of live allocations: the abstract
    view of the allocator, to which [allocate] adds a block and from which [free]
    removes one. *)

From S2P Require Import Prelude Buddy BuddyFacts.
Local Open Scope Z_scope.

(** ** The abstract view *)

(** The blocks in use, by offset. *)
Definition live (s : BuddyAllocator) : gmap Z Block :=
  filter (λ p, b_allocated p.2 = true) (blocks s).

Lemma live_Some s o b : live s !! o = Some b ↔ blocks s !! o = Some b ∧ b_allocated b = true.
Proof. unfold live. by rewrite map_lookup_filter_Some. Qed.

Lemma live_eq s s' :
  (∀ o b, b_allocated b = true → blocks s' !! o = Some b ↔ blocks s !! o = Some b) →
  live s' = live s.
Proof.
  intros H. apply map_eq. intros o. apply option_eq. intros b. rewrite !live_Some. naive_solver.
Qed.

Definition same_shape (s s' : BuddyAllocator) : Prop :=
  min_block_size s' = min_block_size s ∧ pool_size s' = pool_size s ∧ max_order s' = max_order s.

#[global] Instance same_shape_preorder : PreOrder same_shape.
Proof. split; [by intros s|]. intros s1 s2 s3 (?&?&?) (?&?&?). split_and!; congruence. Qed.

Lemma same_shape_ord s s' k : same_shape s s' → ord s' k = ord s k.
Proof. intros (E & _). unfold ord. by rewrite E. Qed.

Lemma get_block_ok o b s : blocks s !! o = Some b → get_block o s = (Ok b, s).
Proof. intros H. unfold get_block. erewrite bind_Ok by reflexivity. by rewrite H. Qed.

Lemma free_list_append_ok k o l s :
  free_lists s !! k = Some l →
  free_list_append k o s =
    (Ok tt, set_free_lists (λ _, <[k := (l ++ [o])%list]> (free_lists s)) s).
Proof. intros H. unfold free_list_append. erewrite bind_Ok by reflexivity. by rewrite H. Qed.

Lemma free_list_lookup h s k :
  inv h s → (k ≤ max_order s)%nat → ∃ l, free_lists s !! k = Some l.
Proof. intros Hs Hk. apply lookup_lt_is_Some_2. rewrite (i_len _ _ Hs). lia. Qed.

(** ** Splitting down *)

Lemma shiftl_ord s k : Z.shiftl (min_block_size s) (Z.of_nat k) = ord s k.
Proof. unfold ord. by rewrite Z.shiftl_mul_pow2 by lia. Qed.

Lemma split_down_spec n t o b s :
  inv (Some o) s → blocks s !! o = Some b → b_allocated b = false →
  b_size b = ord s (t + n) → (t + n ≤ max_order s)%nat →
  ∃ s', split_down n t o s = (Ok tt, s') ∧ inv (Some o) s' ∧ same_shape s s' ∧
    blocks s' !! o = Some (with_size (ord s t) b) ∧ live s' = live s.
Proof.
  revert b s. induction n as [|n IH]; intros b s Hs Hb Ha Hk Hmax.
  { exists s. rewrite Nat.add_0_r in Hk. split_and!; try done. rewrite Hb, <-Hk. by destruct b. }
  rewrite Nat.add_succ_r in Hk, Hmax. pose proof (i_geo _ _ Hs) as Hgeo.
  destruct (free_list_lookup _ s (t + n) Hs) as [l Hl]; [lia|].
  pose proof (split_inv s o b (t + n) Hgeo Hb Hk l Hs Ha Hl) as Hs1.
  pose proof (split_lookup s o b (t + n) Hgeo Hb) as Hlk.
  set (s1 := set_free_lists _ _) in Hs1.
  destruct (IH (with_size (ord s (t + n)) b) s1) as (s' & Hrun & Hs' & Hsh & Hb' & Hlive).
  - done.
  - simpl. by rewrite Hlk, decide_True.
  - done.
  - done.
  - simpl. lia.
  - exists s'. split_and!; try done.
    + cbn [split_down]. erewrite bind_Ok by reflexivity. rewrite shiftl_ord.
      erewrite bind_Ok by reflexivity. erewrite bind_Ok by by apply free_list_append_ok.
      erewrite bind_Ok by reflexivity. exact Hrun.
    + rewrite Hlive. apply live_eq. intros x bx Hx. simpl. rewrite Hlk.
      pose proof (split_upper_None s o b (t + n) Hgeo Hb Hk) as Hup.
      destruct (decide (x = o)) as [->|]; [|destruct (decide (x = _)) as [->|]]; [| |done].
      * split; intros ?; simplify_eq/=; congruence.
      * split; intros ?; simplify_eq/=; congruence.
Qed.

(** ** Allocation *)

Lemma find_order_Some fl k j :
  find_order fl k = Some j → ∃ i o l, j = (k + i)%nat ∧ fl !! i = Some (o :: l).
Proof.
  revert k. induction fl as [|[|o l] fl IH]; intros k; simpl; [done| |].
  - intros (i & o & l & -> & H)%IH. exists (S i), o, l. split; [lia|done].
  - intros [= <-]. exists 0%nat, o, l. split; [lia|done].
Qed.

Lemma find_order_None fl k : find_order fl k = None → Forall (λ l, l = []) fl.
Proof. revert k. induction fl as [|[|o l] fl IH]; intros k; simpl; try done; eauto. Qed.

Lemma allocate_locked_spec t rid s :
  inv None s → (t ≤ max_order s)%nat →
  (∃ o s', allocate_locked t rid s = (Ok (Some o), s') ∧ inv None s' ∧ same_shape s s' ∧
     live s !! o = None ∧ live s' = <[o := mk_block o (ord s t) true rid]> (live s)) ∨
  (allocate_locked t rid s = (Ok None, s) ∧
   ∀ k o, (t ≤ k)%nat → ¬ free_at s k o).
Proof.
  intros Hs Ht. pose proof (i_geo _ _ Hs) as Hgeo. unfold allocate_locked.
  erewrite bind_Ok by reflexivity.
  destruct (find_order (drop t (free_lists s)) t) as [f|] eqn:Hf; [left|right].
  - apply find_order_Some in Hf as (i & o & l & -> & Hl). rewrite lookup_drop in Hl.
    destruct (pop_inv s (t + i) o l Hs Hl) as [Hs1 (b & Hb & Ha & Hk)].
    destruct (g_block _ Hgeo o b Hb) as (Hoff & _).
    pose proof (lookup_lt_Some _ _ _ Hl) as Hlt. rewrite (i_len _ _ Hs) in Hlt.
    destruct (split_down_spec i t o b _ Hs1 Hb Ha Hk) as (s2 & Hrun & Hs2 & Hsh & Hb2 & Hlive);
      [simpl; lia|].
    pose proof (take_inv s2 o _ rid Hs2 Hb2 Ha) as Hs3.
    exists o. eexists. split; [|split; [exact Hs3|split_and!]].
    + unfold free_list_pop. erewrite bind_Ok.
      2:{ erewrite bind_Ok by reflexivity. by rewrite Hl. }
      erewrite bind_Ok by by apply get_block_ok. replace (t + i - t)%nat with i by lia.
      erewrite bind_Ok by exact Hrun. erewrite bind_Ok by reflexivity.
      erewrite bind_Ok.
      2:{ apply get_block_ok. simpl. by rewrite (lookup_alter_case _ _ _ _ _ Hb2), decide_True. }
      done.
    + by etrans; [|exact Hsh].
    + apply eq_None_not_Some. intros [b' [? ?]%live_Some]. congruence.
    + apply map_eq. intros x. apply option_eq. intros bx. rewrite live_Some. simpl.
      rewrite (lookup_alter_case _ _ _ _ _ Hb2).
      destruct (decide (x = o)) as [->|Hne].
      * rewrite lookup_insert_eq. unfold with_owner, with_size. simpl. rewrite Hoff.
        split; [by intros [[= <-] _]|]. by intros [= <-].
      * rewrite lookup_insert_ne by done. by rewrite <-live_Some, Hlive, !live_Some.
  - apply find_order_None in Hf. split; [done|]. intros k o Hk Hat.
    assert (k ≤ max_order s)%nat as Hkm.
    { destruct Hat as (b & Hb & _ & Hsz).
      destruct (g_block _ Hgeo o b Hb) as (_ & _ & _ & j & Hj & Hszj & _).
      assert (k = j) as -> by (apply (ord_inj s); [done|congruence]). done. }
    destruct (free_list_lookup _ s k Hs Hkm) as [l Hl].
    assert (o ∈ l) as Hin by by apply (i_free _ _ Hs _ _ Hl).
    assert (l = []) as ->; [|by apply not_elem_of_nil in Hin].
    rewrite Forall_lookup in Hf. apply (Hf (k - t)%nat). rewrite lookup_drop.
    by replace (t + (k - t))%nat with k by lia.
Qed.

(** The size class of a request is the order it is rounded to. *)
Lemma alloc_size_ord h s size :
  inv h s → 1 ≤ size ≤ 2 ^ 64 →
  size ≤ alloc_size (min_block_size s) size ∧
  alloc_size (min_block_size s) size =
    ord s (size_to_order (min_block_size s) (alloc_size (min_block_size s) size)).
Proof.
  intros Hs Hsize. split; [unfold alloc_size; pose proof (next_power_of_2_le _ Hsize); lia|].
  destruct (g_min _ (i_geo _ _ Hs)) as (a & Ha & Hm).
  assert (∃ k : nat, alloc_size (min_block_size s) size = ord s k) as [k ->].
  { unfold alloc_size, ord. rewrite next_power_of_2_log, Hm by done.
    pose proof (Z.log2_up_nonneg size). destruct (decide (Z.log2_up size ≤ a)).
    - exists 0%nat. rewrite Z.max_r; [lia|]. apply Z.pow_le_mono_r; lia.
    - exists (Z.to_nat (Z.log2_up size - a)). rewrite Z.max_l by (apply Z.pow_le_mono_r; lia).
      rewrite <-Z.pow_add_r by lia. f_equal. lia. }
  by rewrite (ord_order s k (i_geo _ _ Hs)).
Qed.

Lemma allocate_spec size rid s :
  inv None s → 1 ≤ size ≤ 2 ^ 64 →
  let need := alloc_size (min_block_size s) size in
  (∃ o s', allocate size rid s = (Ok (Some o), s') ∧ inv None s' ∧ same_shape s s' ∧
     live s !! o = None ∧ live s' = <[o := mk_block o need true rid]> (live s)) ∨
  (allocate size rid s = (Ok None, s) ∧
   ∀ o b, blocks s !! o = Some b → b_allocated b = false → b_size b < need).
Proof.
  intros Hs Hsize need. pose proof (i_geo _ _ Hs) as Hgeo.
  destruct (alloc_size_ord _ _ _ Hs Hsize) as [_ Hneed]. fold need in Hneed.
  set (t := size_to_order (min_block_size s) need) in *.
  unfold allocate. rewrite (proj2 (Z.leb_gt size 0)) by lia.
  erewrite bind_Ok by reflexivity. erewrite bind_Ok by reflexivity. fold need t.
  assert (∀ k, (k < t)%nat → ord s k < need) as Hsmall.
  { intros k Hk. rewrite Hneed. unfold ord. apply Z.mul_lt_mono_pos_l; [by apply min_pos|].
    apply Z.pow_lt_mono_r; lia. }
  destruct (max_order s <? t)%nat eqn:E.
  - right. apply Nat.ltb_lt in E. split; [done|]. intros o b Hb _.
    destruct (g_block _ Hgeo o b Hb) as (_ & _ & _ & k & Hk & -> & _). apply Hsmall. lia.
  - apply Nat.ltb_ge in E.
    destruct (allocate_locked_spec t rid s Hs E) as [H|[H Hno]]; [left; by rewrite Hneed|right].
    split; [done|]. intros o b Hb Ha.
    destruct (g_block _ Hgeo o b Hb) as (_ & _ & _ & k & Hk & Hsz & _). rewrite Hsz.
    apply Hsmall. destruct (decide (k < t)%nat); [done|]. exfalso. apply (Hno k o); [lia|].
    by exists b.
Qed.

(** ** Merging up *)

(** A merge as the two branches of [_coalesce] perform it. *)
Lemma merge_step_spec s k c b buddy :
  inv (Some c) s → blocks s !! c = Some b → b_allocated b = false → b_size b = ord s k →
  (k < max_order s)%nat → blocks s !! Z.lxor c (ord s k) = Some buddy →
  b_allocated buddy = false → b_size buddy = ord s k →
  let bo := Z.lxor c (ord s k) in
  let lo := Z.min c bo in
  ∃ l s', free_lists s !! k = Some l ∧ bo ∈ l ∧
    s' = set_blocks (λ bs, alter (with_size (ord s k * 2)) lo (delete (Z.max c bo) bs))
           (set_free_lists (λ _, <[k := list_remove_first bo l]> (free_lists s)) s) ∧
    inv (Some lo) s' ∧ live s' = live s ∧
    ∃ b', blocks s' !! lo = Some b' ∧ b_allocated b' = false ∧ b_size b' = ord s (S k).
Proof.
  intros Hs Hb Ha Hk Hlt Hbud Hab Hkb bo lo. pose proof (i_geo _ _ Hs) as Hgeo.
  pose proof (ord_pos _ k Hgeo) as Hpos.
  destruct (g_block _ Hgeo c b Hb) as (_ & _ & _ & j & _ & Hj & Hdiv).
  assert (j = k) as -> by (apply (ord_inj s); [done|congruence]).
  destruct (free_list_lookup _ s k Hs) as [l Hl]; [lia|].
  assert (∃ b1 b2 other, blocks s !! lo = Some b1 ∧ blocks s !! (lo + ord s k) = Some b2 ∧
    b_size b1 = ord s k ∧ b_size b2 = ord s k ∧ b_allocated b1 = false ∧ b_allocated b2 = false ∧
    (ord s (S k) | lo) ∧ Z.max c bo = lo + ord s k ∧ other = bo ∧
    ((c = lo ∧ other = lo + ord s k) ∨ (c = lo + ord s k ∧ other = lo)))
    as (b1 & b2 & other & H1 & H2 & S1 & S2 & A1 & A2 & Hal & Hmx & -> & Hc).
  { destruct (buddy_cases s k c Hgeo Hdiv) as [[E Hd]|[E Hd]]; fold bo in E, Hbud.
    - exists b, buddy, bo. assert (lo = c) as -> by lia. rewrite <-E. split_and!; try done; [lia|].
      left. by split.
    - exists buddy, b, bo. assert (lo = bo) as -> by lia.
      assert (bo + ord s k = c) as -> by lia. split_and!; try done; [by rewrite E|lia|].
      right. by split. }
  pose proof (merge_inv s lo b1 b2 k Hgeo H1 H2 S1 S2 A1 A2 Hal Hlt c bo l Hs Hc Hl) as Hinv.
  pose proof (merge_lookup s lo b1 k Hgeo H1 Hlt) as Hlk.
  exists l. eexists. split_and!; [done| |reflexivity| | |].
  - apply (i_free _ _ Hs _ _ Hl). split; [|by exists buddy]. intros [= E].
    destruct Hc as [[? ?]|[? ?]]; lia.
  - by rewrite Hmx.
  - apply live_eq. intros x bx Hx. simpl. rewrite Hmx.
    change (alter _ lo _) with (merge_blocks s k lo (blocks s)). rewrite Hlk.
    destruct (decide (x = lo)) as [->|]; [split; intros ?; simplify_eq/=; congruence|].
    destruct (decide (x = lo + ord s k)) as [->|]; [|done].
    split; intros ?; simplify_eq/=; congruence.
  - exists (with_size (ord s k * 2) b1). simpl. rewrite Hmx.
    change (alter _ lo _) with (merge_blocks s k lo (blocks s)).
    rewrite Hlk, decide_True by done. split_and!; [done..|]. simpl. rewrite ord_S. lia.
Qed.

(** A block of the size of the pool has no buddy. *)
Lemma top_no_buddy s c b bb :
  geometry s → blocks s !! c = Some b → b_size b = pool_size s →
  blocks s !! Z.lxor c (b_size b) = Some bb → False.
Proof.
  intros Hgeo Hb Hsz Hbb. destruct (g_block _ Hgeo c b Hb) as (_ & Hc & Hend & _).
  destruct (g_block _ Hgeo _ _ Hbb) as (_ & _ & Hbend & j & _ & Hj & _).
  assert (c = 0) as -> by lia. rewrite Z.lxor_0_l in Hbend.
  pose proof (ord_pos _ j Hgeo). lia.
Qed.

Lemma ord_lt_pool s k : geometry s → (k < max_order s)%nat → ord s k < pool_size s.
Proof.
  intros Hgeo Hk. rewrite (g_pool _ Hgeo). unfold ord.
  apply Z.mul_lt_mono_pos_l; [by apply min_pos|]. apply Z.pow_lt_mono_r; lia.
Qed.

(** The loop merges until the block in hand has no free buddy of its size. *)
Lemma coalesce_loop_spec n k c b s :
  inv (Some c) s → blocks s !! c = Some b → b_allocated b = false → b_size b = ord s k →
  (k ≤ max_order s ≤ k + n)%nat →
  ∃ c' s' b' k', coalesce_loop n c s = (Ok c', s') ∧ inv (Some c') s' ∧ same_shape s s' ∧
    live s' = live s ∧ blocks s' !! c' = Some b' ∧ b_allocated b' = false ∧
    (k' ≤ max_order s)%nat ∧ b_size b' = ord s k' ∧
    ∀ bb, blocks s' !! Z.lxor c' (b_size b') = Some bb → b_allocated bb = false →
      b_size bb ≠ b_size b'.
Proof.
  revert k c b s. induction n as [|n IH]; intros k c b s Hs Hb Ha Hk Hn;
    pose proof (i_geo _ _ Hs) as Hgeo.
  { exists c, s, b, k. split_and!; try done; [lia|]. intros bb Hbb. exfalso.
    apply (top_no_buddy s c b bb Hgeo Hb); [|done]. rewrite Hk, (g_pool _ Hgeo). f_equal. lia. }
  destruct (g_block _ Hgeo c b Hb) as (Hoff & _). cbn [coalesce_loop].
  erewrite bind_Ok by by apply get_block_ok. erewrite bind_Ok by reflexivity. rewrite Hoff, Hk.
  destruct (decide (k = max_order s)) as [->|Hlt].
  { rewrite <-(g_pool _ Hgeo), Z.ltb_irrefl. exists c, s, b, (max_order s). split_and!; try done.
    intros bb Hbb. exfalso. apply (top_no_buddy s c b bb Hgeo Hb); [|done].
    by rewrite Hk, (g_pool _ Hgeo). }
  rewrite (proj2 (Z.ltb_lt _ _) (ord_lt_pool s k Hgeo ltac:(lia))).
  destruct (blocks s !! Z.lxor c (ord s k)) as [buddy|] eqn:Hbud.
  2:{ exists c, s, b, k. split_and!; try done; [lia|]. rewrite Hk, Hbud. done. }
  destruct (b_allocated buddy || negb (b_size buddy =? ord s k)) eqn:Hcase.
  { exists c, s, b, k. split_and!; try done; [lia|]. rewrite Hk, Hbud. intros bb [= <-] Hf.
    rewrite Hf in Hcase. simpl in Hcase. by apply negb_true_iff, Z.eqb_neq in Hcase. }
  apply orb_false_iff in Hcase as [Hab Hkb]. apply negb_false_iff, Z.eqb_eq in Hkb.
  destruct (merge_step_spec s k c b buddy)
    as (l & s1 & Hl & Hin & Es1 & Hs1 & Hlive1 & b1 & Hb1 & Ha1 & Hk1); try done; [lia|].
  assert (same_shape s s1) as Hsh1 by by subst s1.
  destruct (IH (S k) _ b1 s1 Hs1 Hb1 Ha1)
    as (c' & s' & b' & k' & Hrun & Hs' & Hsh & Hlive & Hb' & Ha' & Hk' & Hsz' & Hno);
    [by rewrite (same_shape_ord s s1)|destruct Hsh1 as (_ & _ & ->); lia|].
  exists c', s', b', k'. split_and!; try done; [|by etrans|congruence
    |by destruct Hsh1 as (_ & _ & <-)|by rewrite <-(same_shape_ord s s1)].
  rewrite Hkb, (ord_order s k Hgeo). erewrite bind_Ok.
  2:{ unfold free_list_remove. erewrite bind_Ok by reflexivity. rewrite Hl.
      by rewrite bool_decide_true by done. }
  destruct (Z.lxor c (ord s k) <? c) eqn:E; bool_to_prop; (erewrite bind_Ok by reflexivity).
  - rewrite Z.min_r in * by lia. rewrite Z.max_l in Es1 by lia. rewrite <-Hrun. by subst s1.
  - rewrite Z.min_l in * by lia. rewrite Z.max_r in Es1 by lia. rewrite <-Hrun. by subst s1.
Qed.

(** ** Release *)

Lemma coalesce_spec c b k s :
  inv (Some c) s → blocks s !! c = Some b → b_allocated b = false → b_size b = ord s k →
  (k ≤ max_order s)%nat →
  ∃ s', coalesce c s = (Ok tt, s') ∧ inv None s' ∧ same_shape s s' ∧ live s' = live s.
Proof.
  intros Hs Hb Ha Hk Hkm.
  destruct (coalesce_loop_spec (max_order s) k c b s Hs Hb Ha Hk)
    as (c' & s' & b' & k' & Hrun & Hs' & Hsh & Hlive & Hb' & Ha' & Hk' & Hsz' & Hno); [lia|].
  rewrite <-(same_shape_ord s s') in Hsz' by done.
  destruct (free_list_lookup _ s' k' Hs') as [l Hl]; [by destruct Hsh as (_ & _ & ->)|].
  destruct (g_block _ (i_geo _ _ Hs') _ _ Hb') as (Hoff & _).
  eexists. split; [|split; [exact (append_inv s' k' c' b' l Hs' Hb' Ha' Hsz' Hl Hno)|done]].
  unfold coalesce. erewrite bind_Ok by reflexivity. erewrite bind_Ok by exact Hrun.
  erewrite bind_Ok by by apply get_block_ok. erewrite bind_Ok by reflexivity.
  rewrite Hsz', (ord_order s' k' (i_geo _ _ Hs')), Hoff. by apply free_list_append_ok.
Qed.

Lemma free_spec o s :
  inv None s →
  (∃ b s', live s !! o = Some b ∧ free o s = (Ok true, s') ∧ inv None s' ∧ same_shape s s' ∧
     live s' = delete o (live s)) ∨
  (live s !! o = None ∧ free o s = (Ok false, s)).
Proof.
  intros Hs. pose proof (i_geo _ _ Hs) as Hgeo. unfold free, free_locked.
  erewrite bind_Ok by reflexivity.
  destruct (blocks s !! o) as [b|] eqn:Hb.
  2:{ right. split; [|done]. apply eq_None_not_Some. intros [b [? _]%live_Some]. congruence. }
  destruct (b_allocated b) eqn:Ha; simpl.
  2:{ right. split; [|done]. apply eq_None_not_Some. intros [b' [? ?]%live_Some]. congruence. }
  left. pose proof (release_inv s o b Hs Hb Ha) as Hs1.
  pose proof (λ x, lookup_alter_case (blocks s) (with_owner false None) o b x Hb) as Hlk.
  destruct (g_block _ Hgeo o b Hb) as (_ & _ & _ & k & Hk & Hsz & _).
  destruct (coalesce_spec o (with_owner false None b) k _ Hs1)
    as (s2 & Hrun & Hs2 & Hsh & Hlive); [by simpl; rewrite Hlk, decide_True|done..|].
  exists b, s2. split_and!; [by apply live_Some| |done| |].
  - erewrite bind_Ok by reflexivity. erewrite bind_Ok by reflexivity.
    by erewrite bind_Ok by exact Hrun.
  - by etrans; [|exact Hsh].
  - rewrite Hlive. apply map_eq. intros x. apply option_eq. intros bx. rewrite live_Some. simpl.
    rewrite Hlk. destruct (decide (x = o)) as [->|Hne].
    + rewrite lookup_delete_eq. split; [by intros [[= <-] ?]|done].
    + rewrite lookup_delete_ne by done. by rewrite live_Some.
Qed.

(** ** Construction *)

Lemma map_sum_singleton f o b : map_sum f {[ o := b ]} = f b.
Proof.
  rewrite <-insert_empty, map_sum_insert by apply lookup_empty. unfold map_sum.
  rewrite map_to_list_empty. simpl. lia.
Qed.

Lemma buddy_init_inv pool m s :
  init pool m = Ok s → Z.max pool m ≤ 2 ^ 64 →
  inv None s ∧ min_block_size s = m ∧ pool ≤ pool_size s ∧ live s = ∅.
Proof.
  unfold init. intros H Hmax. destruct ((m <=? 0) || _) eqn:E; [done|]. bool_to_prop.
  pose proof (land_pred_pow2 m ltac:(lia) ltac:(done)) as Hm. set (a := Z.log2 m) in *.
  assert (0 ≤ a) by apply Z.log2_nonneg.
  set (n := Z.max pool m) in *. assert (1 ≤ n ≤ 2 ^ 64) as Hn by lia.
  pose proof (next_power_of_2_le n Hn) as Hle.
  assert (∃ k : nat, next_power_of_2 n = m * 2 ^ k) as [k Hk].
  { rewrite next_power_of_2_log by done. exists (Z.to_nat (Z.log2_up n - a)).
    assert (a ≤ Z.log2_up n).
    { rewrite <-(Z.log2_up_pow2 a) by done. apply Z.log2_up_le_mono. lia. }
    rewrite Hm at 1. rewrite <-Z.pow_add_r by lia. f_equal. lia. }
  rewrite Hk in *. rewrite size_to_order_pow in H by lia.
  assert (s = mk_buddy m (m * 2 ^ k) k (<[k := [0]]> (replicate (S k) []))
    {[ 0 := mk_block 0 (m * 2 ^ k) false None ]} 0 0) as -> by congruence. clear H.
  assert (0 < m * 2 ^ k) by (apply Z.mul_pos_pos; [lia|]; apply Z.pow_pos_nonneg; lia).
  split; [|split_and!; simpl; [done|lia|]].
  - split; cbn [free_lists blocks allocated_bytes num_allocations max_order].
    + split; simpl; [by exists a|done| | | |by rewrite map_sum_singleton].
      * intros o b [<- <-]%lookup_singleton_Some. unfold block_ok. simpl.
        split_and!; [done|done|lia|]. exists k. split_and!; [done|done|]. apply Z.divide_0_r.
      * intros o1 b1 o2 b2 [<- <-]%lookup_singleton_Some [<- <-]%lookup_singleton_Some. lia.
      * intros x Hx. eexists 0, _. rewrite lookup_singleton_eq. split; [done|]. simpl. lia.
    + by rewrite length_insert, length_replicate.
    + apply (lists_ok_insert _ (λ _ _, False)).
      * intros j l [-> _]%lookup_replicate. split; [constructor|]. set_solver.
      * intros j o Hj. split; [|done]. intros [_ (b & Hb & _ & Hsz)]. simpl in Hb.
        apply lookup_singleton_Some in Hb as [<- <-]. apply Hj. unfold ord in Hsz. simpl in Hsz. apply Z.mul_reg_l in Hsz; [|lia].
        apply Z.pow_inj_r in Hsz; lia.
      * apply NoDup_singleton.
      * intros o. rewrite list_elem_of_singleton. split.
        -- intros ->. split; [done|]. unfold free_at. simpl. eexists. by rewrite lookup_singleton_eq.
        -- intros [_ (b & Hb & _)]. simpl in Hb. by apply lookup_singleton_Some in Hb as [<- _].
    + by rewrite map_sum_singleton.
    + by rewrite map_sum_singleton.
    + intros o b b' [<- <-]%lookup_singleton_Some _ _ [E <-]%lookup_singleton_Some. simpl in E.
      rewrite Z.lxor_0_l in E. lia.
  - apply map_empty. intros o. apply eq_None_not_Some. intros [b [Hb Hlive]%live_Some].
    simpl in Hb. by apply lookup_singleton_Some in Hb as [_ <-].
Qed.

(** ** Free regions *)

(** A block of order [j] that holds an aligned point of a smaller order holds the
    whole cell of that order. *)
Lemma ord_multiple s j k : (k ≤ j)%nat → ord s j = 2 ^ (j - k)%nat * ord s k.
Proof.
  intros Hkj. unfold ord. rewrite (Z.mul_comm (2 ^ _)), <-Z.mul_assoc, <-Z.pow_add_r by lia.
  do 2 f_equal. lia.
Qed.

Lemma cell_inside s j k o x :
  geometry s → (k ≤ j)%nat → (ord s j | o) → (ord s k | x) → o ≤ x < o + ord s j →
  x + ord s k ≤ o + ord s j.
Proof.
  intros Hgeo Hkj [p ->] [q ->] Hx. pose proof (ord_pos _ k Hgeo).
  rewrite (ord_multiple s j k Hkj) in *. generalize dependent (2 ^ (j - k)%nat).
  generalize dependent (ord s k). intros u Hu n Hx.
  assert (q < p * n + n) by (apply (Z.mul_lt_mono_pos_r u); lia).
  assert ((q + 1) * u ≤ (p * n + n) * u) by (apply Z.mul_le_mono_nonneg_r; lia). lia.
Qed.

(** An aligned cell all of whose blocks are free lies inside one free block: merging
    is complete. *)
Lemma free_region s k x :
  inv None s → 0 ≤ x → x + ord s k ≤ pool_size s → (ord s k | x) →
  (∀ o b, blocks s !! o = Some b → o < x + ord s k → x < o + b_size b → b_allocated b = false) →
  ∃ o b, blocks s !! o = Some b ∧ b_allocated b = false ∧ o ≤ x ∧ x + ord s k ≤ o + b_size b.
Proof.
  intros Hs. pose proof (i_geo _ _ Hs) as Hgeo. revert x.
  induction k as [|k IH]; intros x Hx Hend Hdiv Hfree.
  { pose proof (ord_pos _ 0 Hgeo). destruct (g_cover _ Hgeo x) as (o & b & Hb & Hr); [lia|].
    destruct (g_block _ Hgeo o b Hb) as (_ & _ & _ & j & _ & Hj & Hdj). rewrite Hj in Hr.
    exists o, b. split_and!; [done|apply (Hfree o b Hb); lia|lia|]. rewrite Hj.
    apply cell_inside; auto; lia. }
  rewrite ord_S in Hend, Hfree. pose proof (ord_pos _ k Hgeo) as Hpos.
  assert ((ord s k | x)) as Hdk by (destruct Hdiv as [q ->]; exists (2 * q); rewrite ord_S; lia).
  destruct (IH x) as (o1 & b1 & Hb1 & Ha1 & Hlo1 & Hhi1); [lia|lia|done| |].
  { intros o b Hb H1 H2. eapply Hfree; eauto; lia. }
  destruct (IH (x + ord s k)) as (o2 & b2 & Hb2 & Ha2 & Hlo2 & Hhi2);
    [lia|lia|by apply Z.divide_add_r; [|apply Z.divide_refl]| |].
  { intros o b Hb H1 H2. eapply Hfree; eauto; lia. }
  destruct (g_block _ Hgeo _ _ Hb1) as (_ & _ & _ & j1 & _ & Hj1 & Hd1).
  destruct (g_block _ Hgeo _ _ Hb2) as (_ & _ & _ & j2 & _ & Hj2 & Hd2).
  assert (∀ j, ord s k ≤ ord s j → (k ≤ j)%nat) as Hmono.
  { intros j Hj. destruct (decide (k ≤ j)%nat); [done|]. exfalso.
    assert (ord s j < ord s k); [|lia]. unfold ord.
    apply Z.mul_lt_mono_pos_l; [by apply min_pos|]. apply Z.pow_lt_mono_r; lia. }
  destruct (decide (S k ≤ j1)%nat) as [Hbig|Hk1].
  { exists o1, b1. split_and!; [done..|]. rewrite Hj1 in *.
    apply (cell_inside s j1 (S k)); auto; lia. }
  destruct (decide (S k ≤ j2)%nat) as [Hbig|Hk2].
  { exists o2, b2. rewrite Hj2 in *. assert (o2 ≤ x) as Hle.
    { rewrite (ord_multiple s j2 (S k) Hbig), ord_S in Hd2. rewrite ord_S in Hdiv.
      destruct Hd2 as [p ->], Hdiv as [q ->].
      set (n := 2 ^ (j2 - S k)%nat) in *. set (u := ord s k) in *.
      assert (p * n < q + 1) by (apply (Z.mul_lt_mono_pos_r (2 * u)); lia).
      assert (p * n * (2 * u) ≤ q * (2 * u)) by (apply Z.mul_le_mono_nonneg_r; lia). lia. }
    split_and!; [done..|]. apply (cell_inside s j2 (S k)); auto; lia. }
  assert (j1 = k) as -> by (pose proof (Hmono j1); lia).
  assert (j2 = k) as -> by (pose proof (Hmono j2); lia).
  assert (o1 = x) as -> by lia. assert (o2 = x + ord s k) as -> by lia. exfalso.
  assert (Z.lxor x (ord s k) = x + ord s k) as Hbud.
  { rewrite <-(split_buddy_at s k x Hgeo Hdiv) at 1. apply lxor_lxor. }
  apply (i_merged _ _ Hs x b1 b2); rewrite ?Hj1, ?Hbud; done.
Qed.
