(* ===== verification/BuddyProps.v ===== *)
(** * Properties of the buddy allocator

    Safety of every history of allocations and releases, the exact outcome of
    [allocate] and [free], completeness of merging, and the restoration of the pool. *)

From S2P Require Import Prelude Buddy BuddyFacts BuddyOps.
Local Open Scope Z_scope.

(** ** Histories *)

(** The calls a client makes; a call that raises leaves the allocator as it is. *)
Inductive op := OpAllocate (size : Z) (rid : option string) | OpFree (offset : Z).

Definition run_op (s : BuddyAllocator) (o : op) : BuddyAllocator :=
  match o with
  | OpAllocate size rid => (allocate size rid s).2
  | OpFree offset => (free offset s).2
  end.
Definition run_ops (ops : list op) (s : BuddyAllocator) : BuddyAllocator := foldl run_op s ops.

Lemma run_op_inv s o : inv None s → inv None (run_op s o) ∧ same_shape s (run_op s o).
Proof.
  intros Hs. destruct o as [size rid|offset]; simpl.
  - unfold allocate. destruct (size <=? 0); [done|]. erewrite bind_Ok by reflexivity.
    erewrite bind_Ok by reflexivity. destruct (_ <? _)%nat eqn:E; [done|].
    apply Nat.ltb_ge in E. set (t := size_to_order _ _) in *.
    destruct (allocate_locked_spec t rid s Hs E) as [(o & s' & -> & ? & ? & _)|[-> _]]; done.
  - destruct (free_spec offset s Hs) as [(b & s' & _ & -> & ? & ? & _)|[_ ->]]; done.
Qed.

Lemma run_ops_inv ops s : inv None s → inv None (run_ops ops s) ∧ same_shape s (run_ops ops s).
Proof.
  revert s. induction ops as [|o ops IH]; intros s Hs; simpl; [done|].
  destruct (run_op_inv s o Hs) as [Hs1 Hsh1]. destruct (IH _ Hs1) as [Hs2 Hsh2].
  split; [done|by etrans].
Qed.

(** Sum of the sizes of the blocks in use. *)
Lemma map_sum_live f g s :
  (∀ b, g b = if b_allocated b then f b else 0) → map_sum g (blocks s) = map_sum f (live s).
Proof.
  intros Hg. unfold live. induction (blocks s) as [|o b m Hm IH] using map_ind.
  - by rewrite map_filter_empty.
  - rewrite map_sum_insert, Hg by done. destruct (b_allocated b) eqn:E.
    + rewrite map_filter_insert_True by done. rewrite map_sum_insert, IH; [done|].
      rewrite map_lookup_filter, Hm. done.
    + rewrite map_filter_insert_False, delete_id by (simpl; congruence || done).
      rewrite IH. lia.
Qed.

(** ** Theorems *)

(** C7 - Whatever the history of allocations and releases, the blocks in use are
    pairwise disjoint, lie inside the pool, have power-of-two sizes no smaller than
    the smallest block and are aligned to their size, and the two counters are their
    total size and their number. *)
Theorem buddy_safety pool m s0 ops :
  init pool m = Ok s0 → Z.max pool m ≤ 2 ^ 64 →
  let s := run_ops ops s0 in
  (∀ o1 b1 o2 b2, live s !! o1 = Some b1 → live s !! o2 = Some b2 → o1 ≠ o2 →
     o1 + b_size b1 ≤ o2 ∨ o2 + b_size b2 ≤ o1) ∧
  (∀ o b, live s !! o = Some b →
     0 ≤ o ∧ o + b_size b ≤ pool_size s0 ∧ (b_size b | o) ∧ ∃ k : nat, b_size b = m * 2 ^ k) ∧
  allocated_bytes s = map_sum b_size (live s) ∧
  num_allocations s = map_sum (λ _, 1) (live s).
Proof.
  intros Hinit Hmax s. destruct (buddy_init_inv _ _ _ Hinit Hmax) as (Hs0 & Hm & _).
  destruct (run_ops_inv ops s0 Hs0) as [Hs (Em & Ep & _)]. fold s in Hs, Em, Ep.
  pose proof (i_geo _ _ Hs) as Hgeo. split_and!.
  - intros o1 b1 o2 b2 [H1 _]%live_Some [H2 _]%live_Some Hne.
    destruct (decide (o1 < o2)); [left; by eapply g_disj|right].
    eapply (g_disj s Hgeo o2 b2 o1 b1); [done..|]. lia.
  - intros o b [Hb _]%live_Some.
    destruct (g_block _ Hgeo o b Hb) as (_ & H1 & H2 & k & _ & Hsz & H4). rewrite <-Ep.
    rewrite Hsz in *. split_and!; [done..|]. exists k. unfold ord. by rewrite Em, Hm.
  - rewrite (i_bytes _ _ Hs). by apply map_sum_live.
  - rewrite (i_num _ _ Hs). by apply map_sum_live.
Qed.

Lemma buddy_safety_witness :
  ∃ s0, init 1000 64 = Ok s0 ∧
    num_allocations (run_ops [OpAllocate 100 None; OpAllocate 65 None; OpFree 0] s0) =
    map_sum (λ _, 1) (live (run_ops [OpAllocate 100 None; OpAllocate 65 None; OpFree 0] s0)).
Proof.
  eexists. split; [reflexivity|].
  exact (proj2 (proj2 (proj2 (buddy_safety 1000 64 _
    [OpAllocate 100 None; OpAllocate 65 None; OpFree 0] eq_refl ltac:(done))))).
Defined.

(** C8 - [allocate] of a positive size up to [2^64] has exactly two outcomes. Either it
    returns an offset that was not in use, and the map of blocks in use gains exactly
    that block, owned by the request and large enough; or it returns [None], changes
    nothing, and no aligned cell of the rounded size is free: every such cell of the
    pool overlaps a block in use. *)
Theorem allocate_sound_and_complete size rid s :
  inv None s → 1 ≤ size ≤ 2 ^ 64 →
  let need := alloc_size (min_block_size s) size in
  size ≤ need ∧
  ((∃ o s', allocate size rid s = (Ok (Some o), s') ∧ inv None s' ∧ live s !! o = None ∧
      live s' = <[o := mk_block o need true rid]> (live s)) ∨
   (allocate size rid s = (Ok None, s) ∧
    ∀ x, 0 ≤ x → x + need ≤ pool_size s → (need | x) →
      ∃ o b, live s !! o = Some b ∧ o < x + need ∧ x < o + b_size b)).
Proof.
  intros Hs Hsize need. destruct (alloc_size_ord _ _ _ Hs Hsize) as [Hle Hneed].
  fold need in Hneed, Hle. split; [done|].
  destruct (allocate_spec size rid s Hs Hsize) as [(o & s' & H1 & H2 & _ & H3 & H4)|[H1 H2]];
    [left; by exists o, s'|right].
  split; [done|]. intros x Hx Hend Hdiv. fold need in H2.
  destruct (decide (Exists (λ p, p.1 < x + need ∧ x < p.1 + b_size p.2) (map_to_list (live s))))
    as [([o b] & Hin & Hr)%Exists_exists|Hno].
  { apply elem_of_map_to_list in Hin. by exists o, b. }
  exfalso. set (t := size_to_order _ _) in *. rewrite Hneed in *.
  destruct (free_region s t x Hs Hx Hend Hdiv) as (o & b & Hb & Ha & Hlo & Hhi).
  - intros o b Hb H3 H4. apply not_true_iff_false. intros Ha. apply Hno, Exists_exists.
    exists (o, b). split; [|done]. apply elem_of_map_to_list, live_Some. done.
  - specialize (H2 o b Hb Ha). lia.
Qed.

Lemma allocate_sound_and_complete_witness :
  ∃ s, init 128 64 = Ok s ∧ 100 ≤ 128 ∧
    ∃ o s', allocate 100 (Some "r"%string) s = (Ok (Some o), s') ∧
      live s' = {[ 0 := mk_block 0 128 true (Some "r"%string) ]}.
Proof.
  eexists. split; [reflexivity|].
  edestruct (allocate_sound_and_complete 100 (Some "r"%string)) as [H1 H2];
    [apply (buddy_init_inv 128 64); [reflexivity|done]|lia|].
  split; [exact H1|]. destruct H2 as [(o & s' & H & _)|[H _]]; [|by vm_compute in H].
  exists o, s'. split; [exact H|]. vm_compute in H. by simplify_eq.
Defined.

(** C9 - [free] returns true exactly for the offset of a block in use, which it removes
    from the map of blocks in use; any other offset, one freed before included, gives
    false and changes nothing. *)
Theorem free_exact o s :
  inv None s →
  (∃ b s', live s !! o = Some b ∧ free o s = (Ok true, s') ∧ inv None s' ∧
     live s' = delete o (live s) ∧ free o s' = (Ok false, s')) ∨
  (live s !! o = None ∧ free o s = (Ok false, s)).
Proof.
  intros Hs. destruct (free_spec o s Hs) as [(b & s' & H1 & H2 & H3 & _ & H4)|H]; [left|by right].
  exists b, s'. split_and!; try done.
  destruct (free_spec o s' H3) as [(b' & s2 & H & _)|[_ H]]; [|done].
  rewrite H4, lookup_delete_eq in H. done.
Qed.

Lemma free_exact_witness :
  ∃ s s', init 128 64 = Ok s ∧ free 0 (run_ops [OpAllocate 100 None] s) = (Ok true, s') ∧
    free 0 s' = (Ok false, s').
Proof.
  eexists. edestruct (free_exact 0) as [(b & s' & H1 & H2 & _ & _ & H5)|[H _]];
    [apply (run_ops_inv [OpAllocate 100 None]), (buddy_init_inv 128 64); [reflexivity|done]| |].
  - exists s'. split_and!; [reflexivity|exact H2|exact H5].
  - by vm_compute in H.
Defined.

(** C10 - Nothing is lost to fragmentation for good: once no block is in use, merging
    has restored the single free block that spans the pool, and the counters are
    zero, whatever the history. *)
Theorem buddy_restored pool m s0 ops :
  init pool m = Ok s0 → Z.max pool m ≤ 2 ^ 64 → live (run_ops ops s0) = ∅ →
  let s := run_ops ops s0 in
  (∃ rid, blocks s = {[ 0 := mk_block 0 (pool_size s0) false rid ]}) ∧
  allocated_bytes s = 0 ∧ num_allocations s = 0 ∧
  free_lists s !! max_order s = Some [0].
Proof.
  intros Hinit Hmax Hempty s. destruct (buddy_init_inv _ _ _ Hinit Hmax) as (Hs0 & _).
  destruct (run_ops_inv ops s0 Hs0) as [Hs (_ & Ep & _)]. fold s in Hs, Ep, Hempty.
  pose proof (i_geo _ _ Hs) as Hgeo. pose proof (ord_pos s (max_order s) Hgeo) as Hpos.
  assert (∀ o b, blocks s !! o = Some b → b_allocated b = false) as Hfree.
  { intros o b Hb. apply not_true_iff_false. intros Ha.
    assert (live s !! o = Some b) as H by by apply live_Some. by rewrite Hempty in H. }
  destruct (free_region s (max_order s) 0 Hs) as (o & b & Hb & _ & Hlo & Hhi);
    [done|rewrite (g_pool _ Hgeo); lia|apply Z.divide_0_r|by intros; eapply Hfree|].
  destruct (g_block _ Hgeo o b Hb) as (Hoff & H0 & Hend & _). rewrite (g_pool _ Hgeo) in Hend.
  assert (o = 0) as -> by lia. assert (b_size b = ord s (max_order s)) as Hsz by lia.
  assert (blocks s = {[ 0 := b ]}) as Hblocks.
  { apply map_eq. intros x. destruct (decide (x = 0)) as [->|Hne]; [by rewrite lookup_singleton_eq|].
    rewrite lookup_singleton_ne by done. destruct (blocks s !! x) as [bx|] eqn:Hx; [|done].
    destruct (g_block _ Hgeo x bx Hx) as (_ & Hx0 & Hxe & j & _ & Hj & _).
    pose proof (g_disj _ Hgeo 0 b x bx Hb Hx ltac:(lia)). rewrite (g_pool _ Hgeo) in Hxe.
    pose proof (ord_pos s j Hgeo). lia. }
  assert (b_allocated b = false) as Hbf by by eapply Hfree. split_and!.
  - exists (b_request_id b). rewrite Hblocks, <-Ep, (g_pool _ Hgeo), <-Hsz, <-Hbf, <-Hoff.
    by destruct b.
  - rewrite (i_bytes _ _ Hs), (map_sum_live b_size) by done. by rewrite Hempty.
  - rewrite (i_num _ _ Hs), (map_sum_live (λ _, 1)) by done. by rewrite Hempty.
  - destruct (free_list_lookup _ s (max_order s) Hs) as [l Hl]; [done|].
    destruct (i_free _ _ Hs _ _ Hl) as [Hnd Hin]. rewrite Hl. f_equal.
    assert (∀ x, x ∈ l ↔ x = 0) as Hx.
    { intros x. rewrite Hin. unfold free_at. rewrite Hblocks. split.
      - by intros [_ (b' & [<- _]%lookup_singleton_Some & _)].
      - intros ->. split; [done|]. exists b. by rewrite lookup_singleton_eq. }
    symmetry. apply Permutation_singleton_l, NoDup_Permutation; [apply NoDup_singleton|done|].
    intros x. by rewrite Hx, list_elem_of_singleton.
Qed.

Lemma buddy_restored_witness :
  ∃ s0, init 1000 64 = Ok s0 ∧
    num_allocations (run_ops [OpAllocate 100 None; OpAllocate 65 None; OpFree 0; OpFree 128] s0) = 0.
Proof.
  eexists. split; [reflexivity|].
  exact (proj1 (proj2 (proj2 (buddy_restored 1000 64 _
    [OpAllocate 100 None; OpAllocate 65 None; OpFree 0; OpFree 128]
    eq_refl ltac:(done) ltac:(vm_compute; reflexivity))))).
Defined.
