(* ===== verification/PyValue.v ===== *)
(** * Python values that are attributes of a request

    A request holds JSON values, tensors, lists and tuples that mix them, dictionaries,
    random generators, and objects whose inside no code modelled here looks at. *)

From Stdlib Require Import DecimalString DecimalZ.
From S2P Require Import Prelude PyJson Codec.
Local Open Scope string_scope.
Local Open Scope Z_scope.

Inductive pyval :=
  | PJson (j : Json)
  | PTensor (t : tensor)
  | PList (l : list pyval)
  | PTuple (l : list pyval)
  | PDict (d : list (string * pyval))
  | PGenerator (seed : Z)
  | PObject (kind : string).

Abbreviation PNone := (PJson JNull).

Definition is_none (v : pyval) : bool :=
  match v with PNone => true | _ => false end.

Lemma is_none_false v : is_none v = false ↔ v ≠ PNone.
Proof. destruct v as [[]| | | | | |]; naive_solver. Qed.

(** [bool(v)]; an object is true, a tensor is not asked. *)
Definition py_truthy (v : pyval) : bool :=
  match v with
  | PJson j => json_truthy j
  | PList [] | PTuple [] | PDict [] => false
  | _ => true
  end.

(** The number a JSON scalar is in a comparison: [True == 1]. *)
Definition json_num (j : Json) : option Z :=
  match j with
  | JBool b => Some (if b then 1 else 0)
  | JInt z => Some z
  | _ => None
  end.

(** [v == d] for a default [d] that is a scalar. *)
Definition py_eq (v : pyval) (d : Json) : bool :=
  match v with
  | PJson j =>
      match json_num j, json_num d with
      | Some a, Some b => a =? b
      | None, None =>
          match j, d with
          | JNull, JNull => true
          | JStr a, JStr b => bool_decide (a = b)
          | _, _ => false
          end
      | _, _ => false
      end
  | _ => false
  end.

(** ** [json.dumps] of a value

    What serialising a value and parsing it again gives; [TypeError] where it holds
    something JSON has no form for. *)
Fixpoint json_of (v : pyval) : res Json :=
  match v with
  | PJson j => Ok j
  | PList l | PTuple l =>
      js ← (fix go (l : list pyval) : res (list Json) :=
        match l with
        | [] => Ok []
        | v :: l => j ← json_of v; js ← go l; Ok (j :: js)
        end) l;
      Ok (JList js)
  | PDict d =>
      js ← (fix go (d : list (string * pyval)) : res (dict Json) :=
        match d with
        | [] => Ok []
        | (k, v) :: d => j ← json_of v; js ← go d; Ok ((k, j) :: js)
        end) d;
      Ok (JObj js)
  | PTensor _ | PGenerator _ | PObject _ => Raise TypeError
  end.

Fixpoint json_of_dict (d : dict pyval) : res (dict Json) :=
  match d with
  | [] => Ok []
  | (k, v) :: d => j ← json_of v; js ← json_of_dict d; Ok ((k, j) :: js)
  end.

Lemma json_of_dict_get d js :
  json_of_dict d = Ok js →
  dkeys js = dkeys d ∧
  ∀ k, match dget k d with
       | Some v => ∃ j, json_of v = Ok j ∧ dget k js = Some j
       | None => dget k js = None
       end.
Proof.
  revert js. induction d as [|[k1 v1] d IH]; intros js H; simpl in H; [by simplify_eq|].
  destruct (json_of v1) as [j1|] eqn:E1; [|done]. simpl in H.
  destruct (json_of_dict d) as [js1|] eqn:E2; [|done]. simpl in H. injection H as <-.
  destruct (IH _ eq_refl) as [Hk Hg]. split; [simpl; by rewrite <-Hk|].
  intros k. simpl. case_decide; [eauto|]. apply Hg.
Qed.

(** [int(v)] of a JSON value; a string is an optional minus sign and decimal digits
    (surrounding blanks, a plus sign and underscores, which Python takes too, are not
    modelled). *)
Definition py_int (j : Json) : res Z :=
  match j with
  | JInt z => Ok z
  | JBool b => Ok (if b then 1 else 0)
  | JStr s => match NilZero.int_of_string s with
              | Some i => Ok (Z.of_int i)
              | None => Raise ValueError
              end
  | JNull | JList _ | JObj _ => Raise TypeError
  end.

Lemma py_int_str z : py_int (JStr (dumps_int z)) = Ok z.
Proof.
  unfold py_int, dumps_int. rewrite string_of_to_int. f_equal. apply DecimalZ.of_to.
Qed.

(** ** Tensor fields as the transfer layer sees them *)

Definition item_of (v : pyval) : item :=
  match v with PTensor t => ITensor t | PNone => INone | _ => IOther end.
Definition field_of (v : pyval) : field :=
  match v with
  | PTensor t => FTensor t
  | PList l => FList (item_of <$> l)
  | PNone => FNone
  | _ => FOther
  end.
Definition val_of_item (i : item) : pyval :=
  match i with ITensor t => PTensor t | INone => PNone | IOther => PObject "" end.
Definition val_of_field (f : field) : pyval :=
  match f with
  | FTensor t => PTensor t
  | FList l => PList (val_of_item <$> l)
  | FNone => PNone
  | FOther => PObject ""
  end.
