(* ===== verification/Buffer.v ===== *)
(** * The transfer tensor buffer

    Models [disaggregation/transport/buffer.py]: [TransferTensorBuffer], a pool of
    bytes with a buddy allocator, slots in it, and the batch writing and reading of
    tensor fields through a manifest. The pool is a list of bytes; CUDA streams order
    copies that the manager waits for before it goes on, so a copy is one step here.
    A manifest is the JSON value that travels in protocol messages. *)

From S2P Require Import Prelude PyJson Codec.
From S2P Require Import Buddy.
Local Open Scope string_scope.
Local Open Scope Z_scope.

Abbreviation byte := Ascii.ascii.

Record SlotHandle := mk_slot {
  slot_request_id : string;
  slot_offset : Z;
  slot_size : Z;
}.

Record TransferTensorBuffer := mk_buffer {
  role_name : string;
  allocator : BuddyAllocator;
  pool : list byte;
  pool_data_ptr : Z;
}.

Definition set_allocator (a : BuddyAllocator) (s : TransferTensorBuffer) : TransferTensorBuffer :=
  mk_buffer (role_name s) a (pool s) (pool_data_ptr s).
Definition set_pool (p : list byte) (s : TransferTensorBuffer) : TransferTensorBuffer :=
  mk_buffer (role_name s) (allocator s) p (pool_data_ptr s).

(** The pool is [torch.empty]: its contents are whatever [fill] is, its address what
    the runtime gives. *)
Definition init_buffer (pool_size_arg min_block : Z) (role : string) (ptr : Z)
    (fill : nat → byte) : res TransferTensorBuffer :=
  a ← Buddy.init pool_size_arg min_block;
  Ok (mk_buffer role a (fill <$> seq 0 (Z.to_nat (Buddy.pool_size a))) ptr).

Definition on_allocator {A} (m : M BuddyAllocator A) : M TransferTensorBuffer A :=
  λ s, let r := m (allocator s) in (r.1, set_allocator r.2 s).

Definition buffer_allocate (size : Z) (rid : string) : M TransferTensorBuffer (option SlotHandle) :=
  o ← on_allocator (Buddy.allocate size (Some rid));
  match o with
  | None => mret None
  | Some offset =>
      block ← on_allocator (Buddy.get_block_info offset);
      mret (Some (mk_slot rid offset (from_option Buddy.b_size size block)))
  end.

Definition buffer_free (h : SlotHandle) : M TransferTensorBuffer bool :=
  on_allocator (Buddy.free (slot_offset h)).

(** ** Byte ranges *)

Definition bytes_of (s : string) : list byte := String.list_ascii_of_string s.
Definition string_of (l : list byte) : string := String.string_of_list_ascii l.

(** The bounds of [x[a:b]] for a sequence of [n] elements. *)
Definition slice_bound (n : nat) (x : Z) : nat :=
  if x <? 0 then Z.to_nat (x + n) else Nat.min (Z.to_nat x) n.
Definition py_slice {A} (l : list A) (a b : Z) : list A :=
  let i := slice_bound (length l) a in
  let j := slice_bound (length l) b in
  take (j - i) (drop i l).

(** [dst = l[a:b]; dst.copy_(src)]: the sizes agree, or the source is broadcast. *)
Definition write_slice (l : list byte) (a b : Z) (src : list byte) : res (list byte) :=
  let i := slice_bound (length l) a in
  let n := (slice_bound (length l) b - i)%nat in
  if bool_decide (length src = n) then Ok ((take i l ++ src ++ drop (i + n) l)%list)
  else match src with
       | [c] => Ok ((take i l ++ replicate n c ++ drop (i + n) l)%list)
       | _ => Raise RuntimeError
       end.

(** ** One tensor *)

(** [tensor.view(torch.uint8)] needs a dimension to reinterpret unless elements are
    bytes already. *)
Definition viewable_as_bytes (t : tensor) : bool :=
  negb (bool_decide (t_shape t = [])) || (element_size (t_dtype t) =? 1).

Definition write_tensor (h : SlotHandle) (t : tensor) (byte_offset : Z) :
    M TransferTensorBuffer Z :=
  let n := nbytes t in
  if slot_size h <? byte_offset + n then raise ValueError
  else if negb (viewable_as_bytes t) then raise RuntimeError
  else
    p ← gets pool;
    let a := slot_offset h + byte_offset in
    p' ← lift_res (write_slice p a (a + n) (bytes_of (t_data t)));
    modify (set_pool p') ≫= λ _, mret n.

(** [raw.view(dtype).reshape(shape)]: the start and the length of the raw bytes must
    be whole elements. *)
Definition read_tensor (h : SlotHandle) (shape : list Z) (dt : dtype) (byte_offset : Z)
    (s : TransferTensorBuffer) : res tensor :=
  let n := numel shape * element_size dt in
  let a := slot_offset h + byte_offset in
  let raw := py_slice (pool s) a (a + n) in
  let e := element_size dt in
  if negb (Z.of_nat (slice_bound (length (pool s)) a) mod e =? 0)
     || negb (Z.of_nat (length raw) mod e =? 0) then Raise RuntimeError
  else
    sh ← reshape (length raw / e) shape;
    Ok (mk_tensor sh dt (string_of raw)).

(** ** Batches *)

(** [(byte_offset + 511) & ~511] *)
Definition align512 (x : Z) : Z := Z.land (x + 511) (Z.lnot 511).

Definition manifest_entry (off : Z) (t : tensor) (list_index : option Z) : Json :=
  JObj ([("offset", JInt off); ("shape", JList (JInt <$> t_shape t));
         ("dtype", JStr (dtype_name (t_dtype t)))] ++
        match list_index with Some i => [("list_index", JInt i)] | None => [] end)%list.

(** The loop over a list value; returns its entries and the next offset. *)
Fixpoint write_items (h : SlotHandle) (i : Z) (l : list item) (off : Z) :
    M TransferTensorBuffer (list Json * Z) :=
  match l with
  | [] => mret ([], off)
  | INone :: l => write_items h (i + 1) l off
  | IOther :: _ => raise AttributeError
  | ITensor t :: l =>
      n ← write_tensor h t off;
      r ← write_items h (i + 1) l (align512 (off + n));
      mret (manifest_entry off t (Some i) :: r.1, r.2)
  end.

Definition write_field (h : SlotHandle) (v : field) (off : Z) :
    M TransferTensorBuffer (list Json * Z) :=
  match v with
  | FNone | FOther => mret ([], off)
  | FTensor t =>
      n ← write_tensor h t off;
      mret ([manifest_entry off t None], align512 (off + n))
  | FList l => write_items h 0 l off
  end.

Fixpoint write_fields (h : SlotHandle) (fs : dict field) (off : Z) (manifest : dict Json) :
    M TransferTensorBuffer (dict Json) :=
  match fs with
  | [] => mret manifest
  | (name, v) :: fs =>
      r ← write_field h v off;
      write_fields h fs r.2
        (if bool_decide (r.1 = []) then manifest else dset name (JList r.1) manifest)
  end.
Definition write_tensors_from_gpu (h : SlotHandle) (tensors : dict field) :
    M TransferTensorBuffer (dict Json) := write_fields h tensors 0 [].

(** Reading the tensor an entry describes. *)
Definition read_entry (h : SlotHandle) (e : dict Json) (s : TransferTensorBuffer) : res tensor :=
  sh ← match dget "shape" e with
       | None => Raise KeyError
       | Some (JList l) => res_mapM as_int l
       | Some _ => Raise TypeError
       end;
  d ← req_str e "dtype";
  dt ← str_to_dtype d;
  off ← req_int e "offset";
  read_tensor h sh dt off s.

(** [tensors[i] = t] on a list of [None]s and tensors. *)
Definition set_at (l : list item) (i : Z) (t : tensor) : res (list item) :=
  if (0 <=? i) && (i <? length l) then Ok (<[Z.to_nat i := ITensor t]> l)
  else if (- length l <=? i) && (i <? 0) then Ok (<[Z.to_nat (i + length l) := ITensor t]> l)
  else Raise IndexError.

Fixpoint read_items (h : SlotHandle) (es : list (dict Json)) (s : TransferTensorBuffer)
    (acc : list item) : res (list item) :=
  match es with
  | [] => Ok acc
  | e :: es =>
      t ← read_entry h e s;
      i ← req_int e "list_index";
      acc ← set_at acc i t;
      read_items h es s acc
  end.

(** [max(e.get("list_index", 0) for e in entries)] *)
Fixpoint max_index (es : list (dict Json)) : res (option Z) :=
  match es with
  | [] => Ok None
  | e :: es =>
      i ← get_int e "list_index" 0;
      m ← max_index es;
      Ok (Some (from_option (Z.max i) i m))
  end.

Definition read_field (h : SlotHandle) (es : list (dict Json)) (s : TransferTensorBuffer) :
    res (option field) :=
  match es with
  | [] => Ok None
  | e0 :: _ =>
      if existsb (λ e, dmem "list_index" e) es then
        m ← max_index es;
        l ← read_items h es s (replicate (Z.to_nat (default 0 m + 1)) INone);
        Ok (Some (FList l))
      else
        t ← read_entry h e0 s; Ok (Some (FTensor t))
  end.

Fixpoint read_fields (h : SlotHandle) (manifest : dict Json) (s : TransferTensorBuffer)
    (acc : dict field) : res (dict field) :=
  match manifest with
  | [] => Ok acc
  | (name, v) :: manifest =>
      es ← match v with
           | JList l => res_mapM subscriptable l
           | JNull | JObj [] | JStr "" | JBool false => Ok []
           | _ => Raise TypeError
           end;
      f ← read_field h es s;
      read_fields h manifest s (from_option (λ f, dset name f acc) acc f)
  end.
Definition read_tensors_from_manifest (h : SlotHandle) (manifest : dict Json) :
    M TransferTensorBuffer (dict field) :=
  λ s, (read_fields h manifest s [], s).

Definition free_slots_count (typical_request_size : Z) (s : TransferTensorBuffer) : Z :=
  Buddy.count_free_slots typical_request_size (allocator s).
Definition buffer_stats (s : TransferTensorBuffer) : Buddy.Stats * string :=
  (Buddy.get_stats (allocator s), role_name s).
