(* ===== verification/BufferFacts.v ===== *)
(** * Correctness of the transfer tensor buffer

    Writing fields into a slot and reading them back through the manifest, and the
    isolation of a slot from the rest of the pool. *)

From S2P Require Import Prelude PyJson Codec CodecFacts.
From S2P Require Import Buddy Buffer.
Local Open Scope string_scope.
Local Open Scope Z_scope.

#[local] Arguments manifest_entry : simpl never.

(** ** Byte ranges *)

Lemma string_of_bytes_of s : string_of (bytes_of s) = s.
Proof. apply String.string_of_list_ascii_of_string. Qed.

Lemma length_bytes_of s : length (bytes_of s) = String.length s.
Proof. induction s as [|c s IH]; simpl; [done|]. by rewrite IH. Qed.

(** [bs] written at [i]. *)
Definition put (i : nat) (bs l : list byte) : list byte :=
  (take i l ++ bs ++ drop (i + length bs) l)%list.

Lemma length_put i bs l : (i + length bs ≤ length l)%nat → length (put i bs l) = length l.
Proof. intros. unfold put. rewrite !length_app, length_take, length_drop. lia. Qed.

Lemma put_outside i bs l x :
  (i + length bs ≤ length l)%nat → (x < i ∨ i + length bs ≤ x)%nat → put i bs l !! x = l !! x.
Proof.
  intros Hl Hx. unfold put. destruct (decide (x < i)%nat) as [Hlt|Hge].
  - rewrite lookup_app_l by (rewrite length_take; lia). by rewrite lookup_take_lt by lia.
  - rewrite lookup_app_r, length_take by (rewrite length_take; lia).
    rewrite lookup_app_r by lia. rewrite lookup_drop. f_equal. lia.
Qed.

Lemma put_inside i bs l :
  (i + length bs ≤ length l)%nat → take (length bs) (drop i (put i bs l)) = bs.
Proof.
  intros Hl. unfold put. rewrite drop_app_length' by (rewrite length_take; lia).
  by rewrite take_app_length.
Qed.

Lemma slice_bound_in (n : nat) (x : Z) : 0 ≤ x ≤ n → slice_bound n x = Z.to_nat x.
Proof. intros. unfold slice_bound. rewrite (proj2 (Z.ltb_ge x 0)) by lia. lia. Qed.

Lemma py_slice_in {A} (l : list A) a n :
  0 ≤ a → 0 ≤ n → a + n ≤ length l →
  py_slice l a (a + n) = take (Z.to_nat n) (drop (Z.to_nat a) l).
Proof. intros. unfold py_slice. rewrite !slice_bound_in by lia. f_equal. lia. Qed.

Lemma write_slice_in l a src :
  0 ≤ a → a + length src ≤ length l →
  write_slice l a (a + length src) src = Ok (put (Z.to_nat a) src l).
Proof.
  intros. unfold write_slice. rewrite !slice_bound_in by lia.
  rewrite bool_decide_true by lia. unfold put. do 4 f_equal. lia.
Qed.

Lemma align512_spec x : x ≤ align512 x ∧ (512 | align512 x) ∧ align512 x < x + 512.
Proof.
  unfold align512. change (Z.lnot 511) with (- 2 ^ 9).
  assert (Z.land (x + 511) (- 2 ^ 9) = (x + 511) / 512 * 512) as ->.
  { change 512 with (2 ^ 9). rewrite <-Z.shiftl_mul_pow2, <-Z.shiftr_div_pow2 by lia.
    apply Z.bits_inj'. intros i Hi. rewrite Z.land_spec, Z.shiftl_spec by done.
    replace (- 2 ^ 9) with (Z.lnot (Z.ones 9)) by done. rewrite Z.lnot_spec by done.
    destruct (decide (i < 9)).
    - rewrite Z.ones_spec_low by lia. simpl. rewrite andb_false_r.
      by rewrite Z.testbit_neg_r by lia.
    - rewrite Z.ones_spec_high by lia. simpl. rewrite andb_true_r, Z.shiftr_spec by lia.
      f_equal. lia. }
  pose proof (Z.div_mod (x + 511) 512). pose proof (Z.mod_pos_bound (x + 511) 512).
  split_and!; [lia|by exists ((x + 511) / 512)|lia].
Qed.

(** ** One tensor *)

(** A slot inside the pool, at an offset that suits every element size. *)
Definition slot_ok (h : SlotHandle) (s : TransferTensorBuffer) : Prop :=
  0 ≤ slot_offset h ∧ 0 ≤ slot_size h ∧ slot_offset h + slot_size h ≤ length (pool s) ∧
  (8 | slot_offset h).

(** Bytes [a, b) of slot [h] are also at [a, b) of slot [h2], possibly in another
    buffer. *)
Definition copied (a b : Z) (h : SlotHandle) (s : TransferTensorBuffer)
    (h2 : SlotHandle) (s2 : TransferTensorBuffer) : Prop :=
  ∀ x, a ≤ x < b →
    pool s !! Z.to_nat (slot_offset h + x) = pool s2 !! Z.to_nat (slot_offset h2 + x).

Lemma copied_sub a b a' b' h s h2 s2 :
  copied a b h s h2 s2 → a ≤ a' → b' ≤ b → copied a' b' h s h2 s2.
Proof. intros H Ha Hb x Hx. apply H. lia. Qed.

Lemma copied_trans a b h1 s1 h2 s2 h3 s3 :
  copied a b h1 s1 h2 s2 → copied a b h2 s2 h3 s3 → copied a b h1 s1 h3 s3.
Proof. intros H1 H2 x Hx. by rewrite H1, H2. Qed.

Lemma copied_slice a n h s h2 s2 :
  0 ≤ slot_offset h → 0 ≤ slot_offset h2 → 0 ≤ a → copied a (a + n) h s h2 s2 →
  take (Z.to_nat n) (drop (Z.to_nat (slot_offset h + a)) (pool s)) =
  take (Z.to_nat n) (drop (Z.to_nat (slot_offset h2 + a)) (pool s2)).
Proof.
  intros Hh Hh2 Ha H. apply list_eq. intros x. destruct (decide (x < Z.to_nat n)%nat).
  - rewrite !lookup_take_lt, !lookup_drop by done. specialize (H (a + x)).
    replace (Z.to_nat (slot_offset h + a) + x)%nat with (Z.to_nat (slot_offset h + (a + x))) by lia.
    replace (Z.to_nat (slot_offset h2 + a) + x)%nat with (Z.to_nat (slot_offset h2 + (a + x))) by lia.
    apply H. lia.
  - by rewrite !lookup_take_ge by lia.
Qed.

(** A tensor the buffer can hold and give back. *)
Definition storable (t : tensor) : Prop := tensor_wf t ∧ t_dtype t ∈ supported_dtypes.
Definition item_storable (x : item) : Prop :=
  match x with ITensor t => storable t | _ => True end.
Definition field_storable (v : field) : Prop :=
  match v with FTensor t => storable t | FList l => Forall item_storable l | _ => True end.

Lemma supported_size d : d ∈ supported_dtypes → (element_size d | 8) ∧ 0 < element_size d.
Proof.
  intros H. assert (Forall (λ d, (element_size d | 8) ∧ 0 < element_size d) supported_dtypes) as HF.
  { repeat constructor; try lia; simpl;
      first [by exists 1|by exists 2|by exists 4|by exists 8]. }
  rewrite Forall_forall in HF. by apply HF.
Qed.

Lemma supported_name d : d ∈ supported_dtypes → str_to_dtype (dtype_name d) = Ok d.
Proof.
  intros H. assert (Forall (λ d, str_to_dtype (dtype_name d) = Ok d) supported_dtypes) as HF
    by repeat constructor.
  rewrite Forall_forall in HF. by apply HF.
Qed.

Lemma nbytes_nonneg t : tensor_wf t → 0 ≤ nbytes t.
Proof. intros (_ & _ & <-). lia. Qed.

(** What a successful [write_tensor] does. *)
Lemma write_tensor_Ok h t off s n s' :
  slot_ok h s → tensor_wf t → 0 ≤ off → write_tensor h t off s = (Ok n, s') →
  n = nbytes t ∧ off + nbytes t ≤ slot_size h ∧
  s' = set_pool (put (Z.to_nat (slot_offset h + off)) (bytes_of (t_data t)) (pool s)) s.
Proof.
  intros (H1 & H2 & H3 & _) Hwf Hoff. pose proof (nbytes_nonneg t Hwf) as Hn.
  destruct Hwf as (_ & _ & Hlen). unfold write_tensor.
  destruct (slot_size h <? off + nbytes t) eqn:E; [done|]. bool_to_prop.
  destruct (viewable_as_bytes t); simpl; [|done].
  unfold mbind at 1, M_bind at 1, gets, lift_res, mbind, M_bind, modify, mret, M_ret. simpl.
  rewrite <-Hlen, <-length_bytes_of. rewrite write_slice_in by (rewrite ?length_bytes_of; lia).
  simpl. intros [= <- <-]. rewrite length_bytes_of. split_and!; [done|lia|done].
Qed.

(** A tensor found at its place is read back. *)
Lemma read_tensor_back h t off s :
  slot_ok h s → storable t → 0 ≤ off → (8 | off) → off + nbytes t ≤ slot_size h →
  take (Z.to_nat (nbytes t)) (drop (Z.to_nat (slot_offset h + off)) (pool s)) =
    bytes_of (t_data t) →
  read_tensor h (t_shape t) (t_dtype t) off s = Ok t.
Proof.
  intros (H1 & H2 & H3 & H4) [Hwf Hd] Hoff Hdiv Hle Hbytes.
  pose proof (nbytes_nonneg t Hwf) as Hn. destruct Hwf as (Hsh & Hel & Hlen).
  destruct (supported_size _ Hd) as [He _]. unfold read_tensor. fold (nbytes t).
  rewrite py_slice_in, Hbytes by lia. rewrite slice_bound_in by lia.
  rewrite Z2Nat.id by lia.
  rewrite (proj2 (Z.mod_divide (slot_offset h + off) (element_size (t_dtype t)) ltac:(lia))).
  2:{ etrans; [exact He|]. by apply Z.divide_add_r. }
  rewrite length_bytes_of, Hlen. unfold nbytes. rewrite Z_mod_mult, Z_div_mult by lia. simpl.
  rewrite reshape_id by done. simpl. rewrite string_of_bytes_of. by destruct t.
Qed.

Lemma read_entry_back h t off i s :
  slot_ok h s → storable t → 0 ≤ off → (8 | off) → off + nbytes t ≤ slot_size h →
  take (Z.to_nat (nbytes t)) (drop (Z.to_nat (slot_offset h + off)) (pool s)) =
    bytes_of (t_data t) →
  ∃ d, manifest_entry off t i = JObj d ∧ read_entry h d s = Ok t ∧
    dget "list_index" d = JInt <$> i.
Proof.
  intros. eexists. split; [reflexivity|]. split; [|by destruct i].
  unfold read_entry.
  assert (∀ (d : dict Json), dget "shape" ([("offset", JInt off);
    ("shape", JList (JInt <$> t_shape t)); ("dtype", JStr (dtype_name (t_dtype t)))] ++ d)%list =
    Some (JList (JInt <$> t_shape t))) as -> by done.
  rewrite (res_mapM_map as_int JInt id) by done. cbn [mbind res_bind].
  rewrite list_fmap_id. unfold req_str, req_int. simpl.
  destruct H0. rewrite supported_name by done. simpl. by apply read_tensor_back.
Qed.

(** ** Batches *)

(** The effect of writing from byte offset [off] of the slot: everything before that
    point and outside the slot is untouched. *)
Record wrote (h : SlotHandle) (off off' : Z) (s s' : TransferTensorBuffer) : Prop := {
  w_frame : role_name s' = role_name s ∧ allocator s' = allocator s ∧
    pool_data_ptr s' = pool_data_ptr s;
  w_length : length (pool s') = length (pool s);
  w_next : off ≤ off' ∧ (8 | off');
  w_outside : ∀ x : nat, x < slot_offset h + off ∨ slot_offset h + slot_size h ≤ x →
    pool s' !! x = pool s !! x;
}.

Lemma wrote_refl h off s : (8 | off) → wrote h off off s s.
Proof. by split. Qed.

Lemma wrote_trans h o1 o2 o3 s1 s2 s3 :
  wrote h o1 o2 s1 s2 → wrote h o2 o3 s2 s3 → wrote h o1 o3 s1 s3.
Proof.
  intros [(?&?&?) L1 [N1 _] O1] [(?&?&?) L2 [N2 ?] O2].
  split; [split_and!; congruence|congruence|split; [lia|done]|].
  intros x Hx. rewrite O2, O1 by lia. done.
Qed.

Lemma wrote_slot h off off' s s' : wrote h off off' s s' → slot_ok h s → slot_ok h s'.
Proof. intros [_ L _ _] (?&?&?&?). split_and!; try done. by rewrite L. Qed.

Lemma wrote_copied h o1 o2 s s' :
  0 ≤ slot_offset h → wrote h o1 o2 s s' → copied 0 o1 h s h s'.
Proof. intros Hh [_ L _ O] x Hx. symmetry. apply O. lia. Qed.

Lemma write_tensor_wrote h t off s n s' :
  slot_ok h s → storable t → 0 ≤ off → (8 | off) → write_tensor h t off s = (Ok n, s') →
  wrote h off (align512 (off + n)) s s' ∧
  ∀ h2 s2 i, slot_ok h2 s2 → slot_size h ≤ slot_size h2 →
    copied off (Z.min (align512 (off + n)) (slot_size h)) h s' h2 s2 →
    ∃ d, manifest_entry off t i = JObj d ∧ read_entry h2 d s2 = Ok t ∧
      dget "list_index" d = JInt <$> i.
Proof.
  intros Hs Ht Hoff Hdiv Hrun. pose proof (proj1 Ht) as Hwf.
  destruct (write_tensor_Ok h t off s n s' Hs Hwf Hoff Hrun) as (-> & Hle & ->).
  destruct Hs as (H1 & H2 & H3 & H4). pose proof (nbytes_nonneg t Hwf) as Hn.
  destruct (align512_spec (off + nbytes t)) as (A1 & A2 & A3).
  assert (length (bytes_of (t_data t)) = Z.to_nat (nbytes t)) as Hlen.
  { rewrite length_bytes_of. destruct Hwf as (_ & _ & <-). lia. }
  split.
  - split; simpl; [done| | |].
    + apply length_put. lia.
    + split; [lia|]. etrans; [|exact A2]. by exists 64.
    + intros x Hx. apply put_outside; lia.
  - intros h2 s2 i Hs2 Hsz Hag. apply read_entry_back; try done; [lia|].
    erewrite <-copied_slice; [| | | |eapply copied_sub; [exact Hag|..]]; try lia;
      [|by destruct Hs2]. simpl. rewrite <-Hlen. apply put_inside. lia.
Qed.

(** The entries [es] give back the items of [l] from index [i] on. *)
Fixpoint items_read (h : SlotHandle) (s : TransferTensorBuffer) (i : Z) (l : list item)
    (es : list Json) : Prop :=
  match l with
  | [] => es = []
  | INone :: l => items_read h s (i + 1) l es
  | ITensor t :: l =>
      match es with
      | JObj d :: es =>
          read_entry h d s = Ok t ∧ dget "list_index" d = Some (JInt i) ∧
          items_read h s (i + 1) l es
      | _ => False
      end
  | IOther :: _ => False
  end.

Lemma write_items_spec h l : ∀ i off s es off' s',
  slot_ok h s → Forall item_storable l → 0 ≤ off → (8 | off) →
  write_items h i l off s = (Ok (es, off'), s') →
  wrote h off off' s s' ∧
  ∀ h2 s2, slot_ok h2 s2 → slot_size h ≤ slot_size h2 →
    copied off (Z.min off' (slot_size h)) h s' h2 s2 → items_read h2 s2 i l es.
Proof.
  induction l as [|x l IH]; intros i off s es off' s' Hs Hl Hoff Hdiv Hrun.
  { injection Hrun as <- <- <-. split; [by apply wrote_refl|done]. }
  apply Forall_cons in Hl as [Hx Hl]. destruct x as [|t|]; [by eapply IH| |done].
  cbn [write_items] in Hrun. unfold mbind at 1, M_bind at 1 in Hrun.
  destruct (write_tensor h t off s) as [[n|] s1] eqn:H1; [|done].
  destruct (write_tensor_wrote h t off s n s1 Hs Hx Hoff Hdiv H1) as [W1 R1].
  unfold mbind at 1, M_bind at 1 in Hrun.
  destruct (write_items h (i + 1) l (align512 (off + n)) s1) as [[[es1 off1]|] s2] eqn:H2; [|done].
  injection Hrun as <- <- <-.
  destruct (w_next _ _ _ _ _ W1) as [N1 D1].
  assert (0 ≤ align512 (off + n)) as Hp by lia.
  destruct (IH _ _ _ _ _ _ (wrote_slot _ _ _ _ _ W1 Hs) Hl Hp D1 H2) as [W2 R2].
  destruct (w_next _ _ _ _ _ W2) as [N2 _].
  split; [by eapply wrote_trans|]. intros h3 s3 Hs3 Hsz Hag.
  destruct (R1 h3 s3 (Some i) Hs3 Hsz) as (d & Hd & Hrd & Hix).
  - eapply copied_trans; [|eapply copied_sub; [exact Hag|lia|lia]].
    eapply copied_sub; [eapply wrote_copied; [|done]; by destruct Hs|lia|lia].
  - cbn [items_read]. rewrite Hd. split_and!; [done..|]. apply R2; [done..|].
    eapply copied_sub; [exact Hag|lia|lia].
Qed.

(** ** Reading a list back *)

Lemma items_read_objs h s i l es :
  items_read h s i l es → ∃ ds, es = JObj <$> ds.
Proof.
  revert i es. induction l as [|[|t|] l IH]; intros i es H; simpl in H; [by exists []|by eapply IH| |done].
  destruct es as [|[| | | | |d] es]; try done. destruct H as (_ & _ & H).
  destruct (IH _ _ H) as [ds ->]. by exists (d :: ds).
Qed.

Lemma items_read_none h s i l es : items_read h s i l es → trim l = [] → es = [].
Proof.
  revert i. induction l as [|[|t|] l IH]; intros i H Ht; simpl in *; try done.
  destruct (trim l); [by eapply IH|done].
Qed.

Lemma items_read_max h s i l ds :
  0 ≤ i → items_read h s i l (JObj <$> ds) →
  max_index ds = Ok (match trim l with [] => None | l' => Some (i + length l' - 1) end).
Proof.
  revert i ds. induction l as [|[|t|] l IH]; intros i ds Hi H; simpl in H; [| | |done].
  - by apply fmap_nil_inv in H as ->.
  - rewrite (IH (i + 1) ds) by (done || lia). simpl. destruct (trim l); [done|].
    do 2 f_equal. simpl. lia.
  - destruct ds as [|d ds]; [done|]. simpl in H. destruct H as (_ & Hix & H). simpl.
    unfold get_int. rewrite Hix. simpl. rewrite (IH (i + 1) ds) by (done || lia). simpl.
    destruct (trim l) as [|y l']; simpl; do 2 f_equal; simpl; lia.
Qed.

Lemma items_read_list h s l : ∀ pre i ds,
  i = Z.of_nat (length pre) → items_read h s i l (JObj <$> ds) →
  read_items h ds s (pre ++ replicate (length (trim l)) INone)%list = Ok (pre ++ trim l)%list.
Proof.
  induction l as [|[|t|] l IH]; intros pre i ds Hi H; simpl in H; [| | |done].
  - by apply fmap_nil_inv in H as ->.
  - destruct (trim l) as [|y l'] eqn:Ht; simpl; rewrite Ht.
    + apply items_read_none, fmap_nil_inv in H as ->; done.
    + specialize (IH (pre ++ [INone])%list (i + 1) ds). rewrite <-!app_assoc in IH.
      apply IH; [|done]. rewrite length_app. simpl. lia.
  - destruct ds as [|d ds]; [done|]. simpl in H. destruct H as (Hr & Hix & H). simpl.
    rewrite Hr. simpl. unfold req_int. rewrite Hix. simpl.
    unfold set_at. rewrite length_app. simpl.
    rewrite (proj2 (Z.leb_le 0 i)), (proj2 (Z.ltb_lt i _)) by lia. simpl.
    specialize (IH (pre ++ [ITensor t])%list (i + 1) ds). rewrite <-!app_assoc in IH.
    etrans; [|apply IH; [rewrite length_app; simpl; lia|exact H]]. f_equal.
    rewrite Hi, Nat2Z.id. replace (length pre) with (length pre + 0)%nat by lia.
    by rewrite insert_app_r.
Qed.

(** ** Fields *)

(** The entries [es] of a field give back what is received of it. *)
Definition field_reads (h : SlotHandle) (s : TransferTensorBuffer) (v : field) (es : list Json) :
    Prop :=
  match received v with
  | None => es = []
  | Some w => es ≠ [] ∧ ∃ ds, es = JObj <$> ds ∧ read_field h ds s = Ok (Some w)
  end.

Lemma items_read_field h s l es : items_read h s 0 l es → field_reads h s (FList l) es.
Proof.
  intros H. unfold field_reads. simpl. destruct (trim l) as [|y l'] eqn:Ht.
  { by eapply items_read_none. }
  destruct (items_read_objs _ _ _ _ _ H) as [ds ->].
  pose proof (items_read_max h s 0 l ds ltac:(done) H) as Hmax.
  pose proof (items_read_list h s l [] 0 ds eq_refl H) as Hl. rewrite Ht in Hmax, Hl. rewrite !app_nil_l in Hl.
  destruct ds as [|d ds]; [done|]. split; [done|]. exists (d :: ds). split; [done|].
  unfold read_field.
  assert (existsb (λ e, dmem "list_index" e) (d :: ds) = true) as ->.
  { assert (is_Some (dget "list_index" d)) as Hd.
    { clear -H. revert H. generalize 0. induction l as [|[|t|] l IH]; intros i H; simpl in H;
        [done|by eapply IH| |done]. destruct H as (_ & -> & _). by eexists. }
    simpl. unfold dmem. by rewrite bool_decide_true. }
  rewrite Hmax. cbn [mbind res_bind].
  assert (Z.to_nat (default 0 (Some (0 + length (y :: l') - 1)) + 1) = length (y :: l')) as ->
    by (simpl; lia).
  by rewrite Hl.
Qed.

Lemma write_field_spec h v off s es off' s' :
  slot_ok h s → field_storable v → 0 ≤ off → (8 | off) →
  write_field h v off s = (Ok (es, off'), s') →
  wrote h off off' s s' ∧
  ∀ h2 s2, slot_ok h2 s2 → slot_size h ≤ slot_size h2 →
    copied off (Z.min off' (slot_size h)) h s' h2 s2 → field_reads h2 s2 v es.
Proof.
  intros Hs Hv Hoff Hdiv Hrun. destruct v as [|t|l|]; simpl in Hrun.
  - injection Hrun as <- <- <-. split; [by apply wrote_refl|done].
  - unfold mbind, M_bind in Hrun.
    destruct (write_tensor h t off s) as [[n|] s1] eqn:H1; [|done].
    injection Hrun as <- <- <-.
    destruct (write_tensor_wrote h t off s n s1 Hs Hv Hoff Hdiv H1) as [W R].
    split; [done|]. intros h2 s2 Hs2 Hsz Hag.
    destruct (R h2 s2 None Hs2 Hsz Hag) as (d & Hd & Hr & Hix).
    unfold field_reads. simpl. split; [done|]. exists [d]. rewrite Hd. split; [done|].
    unfold read_field. simpl. unfold dmem. rewrite Hix. simpl. by rewrite Hr.
  - destruct (write_items_spec h l 0 off s es off' s' Hs Hv Hoff Hdiv Hrun) as [W R].
    split; [done|]. intros h2 s2 Hs2 Hsz Hag. by apply items_read_field, R.
  - injection Hrun as <- <- <-. split; [by apply wrote_refl|done].
Qed.

(** What reading a manifest recovers of the fields. *)
Fixpoint expected (fs : dict field) (acc : dict field) : dict field :=
  match fs with
  | [] => acc
  | (n, v) :: fs => expected fs (from_option (λ w, dset n w acc) acc (received v))
  end.

Lemma read_fields_app h m1 m2 s acc :
  read_fields h (m1 ++ m2)%list s acc = (acc ← read_fields h m1 s acc; read_fields h m2 s acc).
Proof.
  revert acc. induction m1 as [|[n v] m1 IH]; intros acc; [done|]. simpl.
  destruct v as [|[]| |[]|l|[]]; simpl; try done; try apply IH.
  destruct (res_mapM subscriptable l) as [es|]; simpl; [|done].
  destruct (read_field h es s) as [f|]; simpl; [apply IH|done].
Qed.

Lemma dset_fresh {V} k (v : V) d : dget k d = None → dset k v d = (d ++ [(k, v)])%list.
Proof.
  induction d as [|[k1 v1] d IH]; simpl; [done|]. case_decide; [done|]. intros. by rewrite IH.
Qed.

Lemma read_fields_one h n v es s acc :
  field_reads h s v es → es ≠ [] →
  read_fields h [(n, JList es)] s acc = Ok (from_option (λ w, dset n w acc) acc (received v)).
Proof.
  unfold field_reads. intros H Hne. destruct (received v) as [w|]; [|done].
  destruct H as (_ & ds & -> & Hr). simpl.
  rewrite (res_mapM_map subscriptable JObj id), list_fmap_id by done. simpl. by rewrite Hr.
Qed.

Lemma write_fields_spec h fs : ∀ off m s m' s',
  slot_ok h s → NoDup (dkeys fs) → Forall (λ p, field_storable p.2) fs → 0 ≤ off → (8 | off) →
  (∀ k, k ∈ dkeys fs → dget k m = None) →
  write_fields h fs off m s = (Ok m', s') →
  ∃ off' mm, m' = (m ++ mm)%list ∧ wrote h off off' s s' ∧
  ∀ h2 s2 acc, slot_ok h2 s2 → slot_size h ≤ slot_size h2 →
    copied off (Z.min off' (slot_size h)) h s' h2 s2 →
    read_fields h2 mm s2 acc = Ok (expected fs acc).
Proof.
  induction fs as [|[n v] fs IH]; intros off m s m' s' Hs Hnd Hf Hoff Hdiv Hm Hrun.
  { injection Hrun as <- <-. exists off, []. rewrite app_nil_r. split_and!; [done|by apply wrote_refl|done]. }
  apply NoDup_cons in Hnd as [Hn Hnd]. apply Forall_cons in Hf as [Hv Hf]. simpl in Hv, Hn.
  cbn [write_fields] in Hrun. unfold mbind, M_bind in Hrun.
  destruct (write_field h v off s) as [[[es o1]|] s1] eqn:H1; [|done]. cbn [fst snd] in Hrun.
  destruct (write_field_spec h v off s es o1 s1 Hs Hv Hoff Hdiv H1) as [W1 R1].
  destruct (w_next _ _ _ _ _ W1) as [N1 D1]. assert (0 ≤ o1) as Hp by lia.
  assert (dget n m = None) as Hnm by (apply Hm; left).
  set (m1 := if bool_decide (es = []) then m else dset n (JList es) m) in Hrun.
  destruct (IH o1 m1 s1 m' s' (wrote_slot _ _ _ _ _ W1 Hs) Hnd Hf Hp D1) as (o2 & mm & -> & W2 & R2);
    [|exact Hrun|].
  { intros k Hk. unfold m1. case_bool_decide; [apply Hm; by right|].
    rewrite dget_dset_ne by (intros ->; done). apply Hm. by right. }
  destruct (w_next _ _ _ _ _ W2) as [N2 _].
  assert (∀ h2 s2, slot_ok h2 s2 → slot_size h ≤ slot_size h2 →
    copied off (Z.min o2 (slot_size h)) h s' h2 s2 → field_reads h2 s2 v es) as R1'.
  { intros h2 s2 Hs2 Hsz Hag. apply R1; [done..|].
    eapply copied_trans; [|eapply copied_sub; [exact Hag|lia|lia]].
    eapply copied_sub; [eapply wrote_copied; [|done]; by destruct Hs|lia|lia]. }
  exists o2, (if bool_decide (es = []) then mm else (n, JList es) :: mm).
  split; [|split; [by eapply wrote_trans|]].
  - unfold m1. case_bool_decide; [done|]. rewrite dset_fresh by done. by rewrite <-app_assoc.
  - intros h2 s2 acc Hs2 Hsz Hag. specialize (R1' h2 s2 Hs2 Hsz Hag).
    assert (∀ a, read_fields h2 mm s2 a = Ok (expected fs a)) as R2'.
    { intros a. apply R2; [done..|]. eapply copied_sub; [exact Hag|lia|lia]. }
    cbn [expected]. case_bool_decide as He.
    + rewrite R2'. unfold field_reads in R1'. destruct (received v); [|done]. by destruct R1'.
    + change ((n, JList es) :: mm) with ([(n, JList es)] ++ mm)%list.
      rewrite read_fields_app, (read_fields_one h2 n v es s2 acc R1' He). apply R2'.
Qed.

Lemma dget_expected fs acc k :
  NoDup (dkeys fs) →
  dget k (expected fs acc) =
    match dget k fs ≫= received with Some w => Some w | None => dget k acc end.
Proof.
  revert acc. induction fs as [|[n v] fs IH]; intros acc Hnd; [done|].
  apply NoDup_cons in Hnd as [Hn Hnd]. simpl in Hn. cbn [expected]. rewrite IH by done. simpl.
  case_decide as E; subst; simpl.
  - apply dget_None in Hn. rewrite Hn. simpl.
    destruct (received v); simpl; [by rewrite dget_dset_eq|done].
  - destruct (received v); simpl; [|done]. by rewrite dget_dset_ne.
Qed.

(** Writing a batch into a slot, then reading it back through the manifest from any
    slot, of this buffer or another, that holds the same bytes. *)
Lemma manifest_roundtrip h fs s man s' :
  slot_ok h s → NoDup (dkeys fs) → Forall (λ p, field_storable p.2) fs →
  write_tensors_from_gpu h fs s = (Ok man, s') →
  (∃ off', wrote h 0 off' s s') ∧
  ∀ h2 s2, slot_ok h2 s2 → slot_size h ≤ slot_size h2 → copied 0 (slot_size h) h s' h2 s2 →
    ∃ fs', read_tensors_from_manifest h2 man s2 = (Ok fs', s2) ∧
      ∀ k, dget k fs' = dget k fs ≫= received.
Proof.
  intros Hs Hnd Hf Hrun.
  destruct (write_fields_spec h fs 0 [] s man s' Hs Hnd Hf) as (off' & mm & -> & W & R);
    [done|by exists 0|done|exact Hrun|].
  split; [by exists off'|]. intros h2 s2 Hs2 Hsz Hag. exists (expected fs []). split.
  - unfold read_tensors_from_manifest. rewrite app_nil_l, R; [done..|].
    eapply copied_sub; [exact Hag|lia|lia].
  - intros k. rewrite dget_expected by done. by destruct (dget k fs ≫= received).
Qed.
