(* ===== verification/Manager.v ===== *)
(** * The transfer manager

    Models [disaggregation/transport/manager.py]: [DiffusionTransferManager] over the
    buffer, staging tensors to send, slots to receive into, and the push to a peer.
    The transfer engine (Mooncake, behind [transport/engine.py]) is a parameter: the
    return code of [transfer_sync]; the transfers asked of it are logged in order. *)

From S2P Require Import Prelude PyJson Codec PyValue Buffer.
Local Open Scope string_scope.
Local Open Scope Z_scope.

Record StagedTransfer := mk_staged {
  st_request_id : string;
  st_slot : option SlotHandle;
  st_manifest : dict Json;
  st_scalar_fields : dict pyval;
}.

Record PendingReceive := mk_pending {
  pr_request_id : string;
  pr_slot : SlotHandle;
}.

(** A call of [engine.transfer_sync]. *)
Record TransferOp := mk_transfer {
  dst_session_id : string;
  src_addr : Z;
  dst_addr : Z;
  transfer_length : Z;
}.

Record TransferManager := mk_manager {
  buffer : TransferTensorBuffer;
  staged : dict StagedTransfer;
  pending_receives : dict PendingReceive;
  transfers : list TransferOp;
}.

Definition set_buffer (b : TransferTensorBuffer) (s : TransferManager) : TransferManager :=
  mk_manager b (staged s) (pending_receives s) (transfers s).
Definition set_staged (f : dict StagedTransfer → dict StagedTransfer) (s : TransferManager) :=
  mk_manager (buffer s) (f (staged s)) (pending_receives s) (transfers s).
Definition set_pending_receives (f : dict PendingReceive → dict PendingReceive)
    (s : TransferManager) :=
  mk_manager (buffer s) (staged s) (f (pending_receives s)) (transfers s).
Definition log_transfer (t : TransferOp) (s : TransferManager) : TransferManager :=
  mk_manager (buffer s) (staged s) (pending_receives s) (transfers s ++ [t])%list.

Definition init_manager (b : TransferTensorBuffer) : TransferManager := mk_manager b [] [] [].

Definition on_buffer {A} (m : M TransferTensorBuffer A) : M TransferManager A :=
  λ s, let r := m (buffer s) in (r.1, set_buffer r.2 s).

(** ** Staging *)

(** [ti.nelement() * ti.element_size()] summed over a list; [None] has no
    [nelement]. *)
Fixpoint items_size (l : list item) : res Z :=
  match l with
  | [] => Ok 0
  | ITensor t :: l => n ← items_size l; Ok (nbytes t + n)
  | _ :: _ => Raise AttributeError
  end.

Fixpoint total_size (fs : dict field) : res Z :=
  match fs with
  | [] => Ok 0
  | (_, v) :: fs =>
      n ← match v with
          | FNone => Ok 0
          | FTensor t => Ok (nbytes t)
          | FList l => items_size l
          | FOther => Raise AttributeError
          end;
      m ← total_size fs;
      Ok (n + m)
  end.

(** The body [stage_tensors] and [stage_tensors_async] share. *)
Definition stage_core (rid : string) (fs : dict field) (scalars : dict pyval) :
    M TransferManager (option StagedTransfer) :=
  size ← lift_res (total_size fs);
  if size =? 0 then
    let st := mk_staged rid None [] scalars in
    modify (set_staged (dset rid st)) ≫= λ _, mret (Some st)
  else
    slot ← on_buffer (buffer_allocate size rid);
    match slot with
    | None => mret None
    | Some h =>
        man ← on_buffer (write_tensors_from_gpu h fs);
        let st := mk_staged rid (Some h) man scalars in
        modify (set_staged (dset rid st)) ≫= λ _, mret (Some st)
    end.

Definition stage_tensors := stage_core.

(** The event is recorded on the given stream, or on the current one where CUDA is
    available; [true] stands for the event. *)
Definition stage_tensors_async (cuda : bool) (rid : string) (fs : dict field)
    (scalars : dict pyval) : M TransferManager (option StagedTransfer * bool) :=
  st ← stage_core rid fs scalars;
  mret (st, match st with Some x => bool_decide (is_Some (st_slot x)) && cuda | None => false end).

Definition get_staged_info (rid : string) : M TransferManager (option StagedTransfer) :=
  gets (λ s, dget rid (staged s)).

(** ** Pushing *)

Section Push.
Context (transfer_sync : TransferOp → Z).

Definition push_to_peer (rid dest_session : string) (dest_addr size : Z) :
    M TransferManager bool :=
  s ← get;
  match dget rid (staged s) with
  | None => mret false
  | Some st =>
      match st_slot st with
      | None => mret true
      | Some h =>
          let op := mk_transfer dest_session (pool_data_ptr (buffer s) + slot_offset h)
                      dest_addr size in
          modify (log_transfer op) ≫= λ _, mret (transfer_sync op =? 0)
      end
  end.
End Push.

Definition free_staged (rid : string) : M TransferManager unit :=
  s ← get;
  modify (set_staged (ddel rid)) ≫= λ _,
  match dget rid (staged s) ≫= st_slot with
  | Some h => on_buffer (buffer_free h) ≫= λ _, mret tt
  | None => mret tt
  end.

(** ** Receiving *)

Definition allocate_receive_slot (rid : string) (size : Z) :
    M TransferManager (option PendingReceive) :=
  slot ← on_buffer (buffer_allocate size rid);
  match slot with
  | None => mret None
  | Some h =>
      let p := mk_pending rid h in
      modify (set_pending_receives (dset rid p)) ≫= λ _, mret (Some p)
  end.

Definition register_prealloc_as_receive (rid : string) (h : SlotHandle) :
    M TransferManager PendingReceive :=
  let p := mk_pending rid h in
  modify (set_pending_receives (dset rid p)) ≫= λ _, mret p.

Definition load_tensors (rid : string) (manifest : dict Json) : M TransferManager (dict field) :=
  s ← get;
  match dget rid (pending_receives s) with
  | None => raise ValueError
  | Some p => on_buffer (read_tensors_from_manifest (pr_slot p) manifest)
  end.

Definition load_tensors_async (cuda : bool) (rid : string) (manifest : dict Json) :
    M TransferManager (dict field * bool) :=
  fs ← load_tensors rid manifest; mret (fs, cuda).

Definition free_receive_slot (rid : string) : M TransferManager unit :=
  s ← get;
  modify (set_pending_receives (ddel rid)) ≫= λ _,
  match dget rid (pending_receives s) with
  | Some p => on_buffer (buffer_free (pr_slot p)) ≫= λ _, mret tt
  | None => mret tt
  end.

Definition get_receive_slot_addr (rid : string) : M TransferManager (option Z) :=
  gets (λ s, (λ p, pool_data_ptr (buffer s) + slot_offset (pr_slot p)) <$>
             dget rid (pending_receives s)).
Definition get_receive_slot_offset (rid : string) : M TransferManager (option Z) :=
  gets (λ s, (λ p, slot_offset (pr_slot p)) <$> dget rid (pending_receives s)).
Definition manager_free_slots_count (typical_size : Z) (s : TransferManager) : Z :=
  free_slots_count typical_size (buffer s).
