(* ===== verification/ManagerProps.v ===== *)
(** * Correctness of the transfer manager

    The buffer's invariant, what staging does on each of its outcomes, and the transfer
    of a batch of tensors from one instance to another. *)

From S2P Require Import Prelude PyJson Codec CodecFacts Buddy BuddyFacts BuddyOps Buffer BufferFacts Manager.
Local Open Scope string_scope.
Local Open Scope Z_scope.


(** ** The buffer's invariant *)

Record buffer_ok (b : TransferTensorBuffer) : Prop := {
  bo_alloc : inv None (allocator b);
  bo_pool : Z.of_nat (length (pool b)) = pool_size (allocator b);
  bo_align : (8 | min_block_size (allocator b));
}.

(** The slot of a block in use. *)
Definition slot_live (h : SlotHandle) (b : TransferTensorBuffer) : Prop :=
  live (allocator b) !! slot_offset h =
    Some (mk_block (slot_offset h) (slot_size h) true (Some (slot_request_id h))).

Lemma slot_live_ok h b : buffer_ok b → slot_live h b → slot_ok h b.
Proof.
  intros [Ha Hp Hal] [Hb _]%live_Some.
  destruct (g_block _ (i_geo _ _ Ha) _ _ Hb) as (_ & H1 & H2 & k & _ & H4 & H5). simpl in *.
  pose proof (ord_pos _ k (i_geo _ _ Ha)).
  split_and!; [done|lia|lia|]. etrans; [|exact H5]. unfold ord. by apply Z.divide_mul_l.
Qed.

(** Two slots in use do not overlap. *)
Lemma slot_live_disjoint h h2 b :
  buffer_ok b → slot_live h b → slot_live h2 b → slot_offset h ≠ slot_offset h2 →
  slot_offset h + slot_size h ≤ slot_offset h2 ∨ slot_offset h2 + slot_size h2 ≤ slot_offset h.
Proof.
  intros [Ha _ _] [H1 _]%live_Some [H2 _]%live_Some Hne.
  pose proof (g_disj _ (i_geo _ _ Ha)) as Hd. destruct (decide (slot_offset h < slot_offset h2)).
  - left. by apply (Hd _ _ _ _ H1 H2).
  - right. apply (Hd _ _ _ _ H2 H1). lia.
Qed.

Lemma init_buffer_ok size m role ptr fill b :
  init_buffer size m role ptr fill = Ok b → Z.max size m ≤ 2 ^ 64 → (8 | m) →
  buffer_ok b ∧ live (allocator b) = ∅ ∧ pool_data_ptr b = ptr.
Proof.
  unfold init_buffer. intros H Hmax Hm. destruct (Buddy.init size m) as [a|] eqn:Ha; [|done].
  destruct (buddy_init_inv _ _ _ Ha Hmax) as (Hi & Em & _ & Hl). injection H as <-.
  split_and!; [|done|done]. split; simpl; [done| |by rewrite Em].
  rewrite length_fmap, length_seq. pose proof (ord_pos _ (max_order a) (i_geo _ _ Hi)).
  rewrite <-(g_pool _ (i_geo _ _ Hi)) in *. lia.
Qed.

(** Allocating a slot: a block not in use before, of at least the size asked for; the
    bytes of the pool do not change. *)
Lemma buffer_allocate_spec size rid b :
  buffer_ok b → 1 ≤ size ≤ 2 ^ 64 →
  (∃ h b', buffer_allocate size rid b = (Ok (Some h), b') ∧ buffer_ok b' ∧
     slot_request_id h = rid ∧ size ≤ slot_size h ∧ slot_live h b' ∧
     live (allocator b) !! slot_offset h = None ∧
     live (allocator b') = <[slot_offset h :=
       mk_block (slot_offset h) (slot_size h) true (Some rid)]> (live (allocator b)) ∧
     pool b' = pool b ∧ pool_data_ptr b' = pool_data_ptr b) ∨
  buffer_allocate size rid b = (Ok None, b).
Proof.
  intros [Ha Hp Hal] Hsize. unfold buffer_allocate.
  destruct (alloc_size_ord _ _ _ Ha Hsize) as [Hle _].
  destruct (allocate_spec size (Some rid) (allocator b) Ha Hsize)
    as [(o & a' & E & Ha' & (Em & Ep & _) & Hfresh & Hlive)|[E _]]; [left|right].
  2:{ erewrite bind_Ok by (unfold on_allocator; rewrite E; reflexivity). by destruct b. }
  set (need := alloc_size (min_block_size (allocator b)) size) in *.
  assert (blocks a' !! o = Some (mk_block o need true (Some rid))) as Hb.
  { apply live_Some. rewrite Hlive. apply lookup_insert_eq. }
  erewrite bind_Ok by (unfold on_allocator; rewrite E; reflexivity). cbv beta iota.
  erewrite bind_Ok by (unfold on_allocator; simpl; rewrite Hb; reflexivity).
  eexists _, _. split; [reflexivity|]. simpl. split_and!; try done.
  - split; simpl; [done|by rewrite Ep|by rewrite Em].
  - unfold slot_live. simpl. rewrite Hlive. apply lookup_insert_eq.
Qed.

Lemma buffer_free_spec h b :
  buffer_ok b →
  ∃ r b', buffer_free h b = (Ok r, b') ∧ buffer_ok b' ∧ pool b' = pool b ∧
    pool_data_ptr b' = pool_data_ptr b ∧
    live (allocator b') = delete (slot_offset h) (live (allocator b)).
Proof.
  intros [Ha Hp Hal]. unfold buffer_free, on_allocator.
  destruct (free_spec (slot_offset h) (allocator b) Ha)
    as [(bl & a' & _ & -> & Ha' & (Em & Ep & _) & Hlive)|[Hnone ->]]; simpl.
  - eexists _, _. split; [reflexivity|]. simpl. split_and!; try done.
    split; simpl; [done|by rewrite Ep|by rewrite Em].
  - eexists _, _. split; [reflexivity|]. simpl. split_and!; [done..|]. by rewrite delete_id.
Qed.

Lemma wrote_buffer_ok h off off' b b' : wrote h off off' b b' → buffer_ok b → buffer_ok b'.
Proof.
  intros [(_ & Ea & _) Hl _ _] [Ha Hp Hal]. split; rewrite Ea; [done| |done]. by rewrite Hl.
Qed.

(** Writing a batch leaves the bytes of every other slot in use alone. *)
Lemma wrote_other h h2 off' b b' :
  buffer_ok b → slot_live h b → slot_live h2 b → slot_offset h ≠ slot_offset h2 →
  wrote h 0 off' b b' → copied 0 (slot_size h2) h2 b h2 b'.
Proof.
  intros Hb H1 H2 Hne W x Hx. symmetry. destruct (slot_live_ok h2 b Hb H2) as (H20 & _).
  apply (w_outside _ _ _ _ _ W). destruct (slot_live_disjoint h h2 b Hb H1 H2 Hne); lia.
Qed.

(** ** Staging *)

(** The tensors a list or a batch holds are storable, and nothing else is in it. *)
Definition batch_storable (fs : dict field) : Prop :=
  NoDup (dkeys fs) ∧ Forall (λ p, field_storable p.2) fs.

(** A successful staging: the batch is in a fresh slot of its request, readable there
    or wherever the slot's bytes are copied to, and the other slots are as before. *)
Lemma stage_core_Ok rid fs sc s st s' n :
  buffer_ok (buffer s) → batch_storable fs → total_size fs = Ok n → 1 ≤ n ≤ 2 ^ 64 →
  stage_core rid fs sc s = (Ok (Some st), s') →
  ∃ h, st = mk_staged rid (Some h) (st_manifest st) sc ∧ slot_request_id h = rid ∧
    n ≤ slot_size h ∧ staged s' = dset rid st (staged s) ∧
    pending_receives s' = pending_receives s ∧
    buffer_ok (buffer s') ∧ slot_live h (buffer s') ∧
    live (allocator (buffer s)) !! slot_offset h = None ∧
    pool_data_ptr (buffer s') = pool_data_ptr (buffer s) ∧
    (∀ h2, slot_live h2 (buffer s) →
      slot_live h2 (buffer s') ∧ copied 0 (slot_size h2) h2 (buffer s) h2 (buffer s')) ∧
    (∀ h2 b2, slot_ok h2 b2 → slot_size h ≤ slot_size h2 →
      copied 0 (slot_size h) h (buffer s') h2 b2 →
      ∃ fs', read_tensors_from_manifest h2 (st_manifest st) b2 = (Ok fs', b2) ∧
        ∀ k, dget k fs' = dget k fs ≫= received).
Proof.
  intros Hb [Hnd Hst] Hn Hsize Hrun. unfold stage_core in Hrun.
  unfold mbind at 1, M_bind at 1, lift_res in Hrun. rewrite Hn in Hrun.
  rewrite (proj2 (Z.eqb_neq n 0)) in Hrun by lia.
  unfold mbind at 1, M_bind at 1, on_buffer at 1 in Hrun.
  destruct (buffer_allocate_spec n rid (buffer s) Hb Hsize)
    as [(h & b1 & E & Hb1 & Hrid & Hle & Hlive & Hfresh & Hmap & Hpool & Hptr)|E];
    rewrite E in Hrun; simpl in Hrun; [|done].
  unfold mbind at 1, M_bind at 1, on_buffer in Hrun. simpl in Hrun.
  destruct (write_tensors_from_gpu h fs b1) as [[man|] b2] eqn:Hw; simpl in Hrun; [|done].
  injection Hrun as <- <-. simpl.
  destruct (manifest_roundtrip h fs b1 man b2) as [[off' W] R];
    [by apply slot_live_ok|done|done|done|].
  pose proof (w_frame _ _ _ _ _ W) as (_ & Ea & Ep).
  exists h. split_and!; try done.
  - by eapply wrote_buffer_ok.
  - unfold slot_live. by rewrite Ea.
  - by rewrite Ep.
  - intros h2 H2. assert (slot_offset h ≠ slot_offset h2) as Hne.
    { intros Eo. unfold slot_live in H2. rewrite <-Eo in H2. congruence. }
    assert (slot_live h2 b1) as H2'.
    { unfold slot_live. rewrite Hmap, lookup_insert_ne by done. exact H2. }
    split; [unfold slot_live; by rewrite Ea|].
    intros x Hx. rewrite <-Hpool. by apply (wrote_other h h2 off' b1 b2).
Qed.

(** Reserving a slot to receive into. *)
Lemma allocate_receive_Ok rid size s p s' :
  buffer_ok (buffer s) → 1 ≤ size ≤ 2 ^ 64 →
  allocate_receive_slot rid size s = (Ok (Some p), s') →
  pr_request_id p = rid ∧ size ≤ slot_size (pr_slot p) ∧
  pending_receives s' = dset rid p (pending_receives s) ∧ staged s' = staged s ∧
  buffer_ok (buffer s') ∧ slot_live (pr_slot p) (buffer s') ∧
  live (allocator (buffer s)) !! slot_offset (pr_slot p) = None ∧
  pool (buffer s') = pool (buffer s) ∧ pool_data_ptr (buffer s') = pool_data_ptr (buffer s) ∧
  (∀ h2, slot_live h2 (buffer s) → slot_live h2 (buffer s')).
Proof.
  intros Hb Hsize Hrun. unfold allocate_receive_slot in Hrun.
  unfold mbind at 1, M_bind at 1, on_buffer in Hrun.
  destruct (buffer_allocate_spec size rid (buffer s) Hb Hsize)
    as [(h & b1 & E & Hb1 & Hrid & Hle & Hlive & Hfresh & Hmap & Hpool & Hptr)|E];
    rewrite E in Hrun; simpl in Hrun; [|done].
  injection Hrun as <- <-. simpl. split_and!; try done.
  intros h2 H2. unfold slot_live. rewrite Hmap, lookup_insert_ne; [exact H2|].
  intros Eo. unfold slot_live in H2. rewrite <-Eo in H2. congruence.
Qed.

(** ** Properties of the data plane

    The transfer of a batch of tensors between two instances, end to end, and the
    outcomes of staging. *)

(** ** A push delivers the slot's bytes *)

(** [len] bytes from [i] of [src] written at [j] of [dst]. *)
Definition copy_bytes (src : list byte) (i : nat) (dst : list byte) (j len : nat) : list byte :=
  put j (take len (drop i src)) dst.

Lemma copy_bytes_lookup src i dst j len x :
  (i + len ≤ length src)%nat → (j + len ≤ length dst)%nat →
  copy_bytes src i dst j len !! x =
    if decide (j ≤ x < j + len)%nat then src !! (i + (x - j))%nat else dst !! x.
Proof.
  intros Hs Hd. unfold copy_bytes.
  assert (length (take len (drop i src)) = len) as Hlen
    by (rewrite length_take, length_drop; lia).
  case_decide as Hx.
  - pose proof (put_inside j (take len (drop i src)) dst) as Hp. rewrite Hlen in Hp.
    specialize (Hp Hd). apply (f_equal (λ l, l !! (x - j)%nat)) in Hp.
    rewrite !lookup_take_lt, !lookup_drop in Hp by lia.
    by replace (j + (x - j))%nat with x in Hp by lia.
  - apply put_outside; rewrite Hlen; [done|lia].
Qed.

Lemma length_copy_bytes src i dst j len :
  (i + len ≤ length src)%nat → (j + len ≤ length dst)%nat →
  length (copy_bytes src i dst j len) = length dst.
Proof.
  intros. apply length_put. rewrite length_take, length_drop. lia.
Qed.

Section EndToEnd.
(** The engine: the return code of a transfer and the receiver's memory after it,
    from the two registered pools with their addresses. *)
Context (transfer_sync : TransferOp → Z).
Context (deliver : TransferOp → Z * list byte → Z * list byte → list byte).

(** A transfer that reports success has copied the bytes between the registered
    ranges and touched nothing else. *)
Definition engine_copies : Prop :=
  ∀ op sp src dp dst, transfer_sync op = 0 → 0 ≤ transfer_length op →
    0 ≤ src_addr op - sp → src_addr op - sp + transfer_length op ≤ length src →
    0 ≤ dst_addr op - dp → dst_addr op - dp + transfer_length op ≤ length dst →
    deliver op (sp, src) (dp, dst) =
      copy_bytes src (Z.to_nat (src_addr op - sp)) dst (Z.to_nat (dst_addr op - dp))
        (Z.to_nat (transfer_length op)).

(** The receiver once the last transfer the sender asked for is delivered. *)
Definition after_push (sender receiver : TransferManager) : TransferManager :=
  match last (transfers sender) with
  | Some op => set_buffer (set_pool (deliver op
      (pool_data_ptr (buffer sender), pool (buffer sender))
      (pool_data_ptr (buffer receiver), pool (buffer receiver))) (buffer receiver)) receiver
  | None => receiver
  end.

(** The bytes of the source slot arrive in the destination slot, and the receiver's
    other slots keep theirs. *)
Lemma push_delivers h h2 b1 b2 dest op :
  engine_copies → transfer_sync op = 0 →
  buffer_ok b1 → buffer_ok b2 → slot_live h b1 → slot_live h2 b2 →
  slot_size h ≤ slot_size h2 →
  op = mk_transfer dest (pool_data_ptr b1 + slot_offset h) (pool_data_ptr b2 + slot_offset h2)
         (slot_size h) →
  let b2' := set_pool (deliver op (pool_data_ptr b1, pool b1) (pool_data_ptr b2, pool b2)) b2 in
  buffer_ok b2' ∧ slot_ok h2 b2' ∧ copied 0 (slot_size h) h b1 h2 b2' ∧
  ∀ h3, slot_live h3 b2 → slot_offset h3 ≠ slot_offset h2 →
    copied 0 (slot_size h3) h3 b2 h3 b2'.
Proof.
  intros Heng Hok Hb1 Hb2 Hl1 Hl2 Hsz Eop b2'.
  destruct (slot_live_ok h b1 Hb1 Hl1) as (A1 & A2 & A3 & A4).
  destruct (slot_live_ok h2 b2 Hb2 Hl2) as (B1 & B2 & B3 & B4).
  unfold b2'. rewrite (Heng op) by (subst op; simpl; lia || done). subst op. simpl.
  replace (pool_data_ptr b1 + slot_offset h - pool_data_ptr b1) with (slot_offset h) by lia.
  replace (pool_data_ptr b2 + slot_offset h2 - pool_data_ptr b2) with (slot_offset h2) by lia.
  assert (Z.to_nat (slot_offset h) + Z.to_nat (slot_size h) ≤ length (pool b1))%nat as R1 by lia.
  assert (Z.to_nat (slot_offset h2) + Z.to_nat (slot_size h) ≤ length (pool b2))%nat as R2 by lia.
  pose proof (length_copy_bytes _ _ _ _ _ R1 R2) as Hlen.
  pose proof (λ x, copy_bytes_lookup _ _ _ _ _ x R1 R2) as Hlk.
  split_and!.
  - destruct Hb2 as [Ha Hp Hal]. split; simpl; [done| |done]. by rewrite Hlen.
  - split_and!; simpl; try done. by rewrite Hlen.
  - intros x Hx. simpl. rewrite Hlk, decide_True by lia. f_equal. lia.
  - intros h3 H3 Hne x Hx. simpl. rewrite Hlk, decide_False; [done|].
    pose proof (slot_live_disjoint h3 h2 b2 Hb2 H3 Hl2 Hne).
    destruct (slot_live_ok h3 b2 Hb2 H3) as (C1 & _). lia.
Qed.
End EndToEnd.

(** C11 - A batch of tensors staged by one instance, pushed into a slot reserved for it
    by another and loaded there through the manifest arrives intact: every field has
    its tensors with their shapes, dtypes and bytes (lists less trailing [None]s), the
    scalar fields travel in the staged record, and on both sides the bytes of every
    other slot in use are untouched. *)
Theorem transfer_end_to_end transfer_sync deliver rid fs sc n s1 st s1' s2 p s2' dest h :
  engine_copies transfer_sync deliver → (∀ op, transfer_sync op = 0) →
  buffer_ok (buffer s1) → buffer_ok (buffer s2) → batch_storable fs →
  total_size fs = Ok n → 1 ≤ n ≤ 2 ^ 64 →
  stage_tensors rid fs sc s1 = (Ok (Some st), s1') → st_slot st = Some h →
  1 ≤ slot_size h ≤ 2 ^ 64 →
  allocate_receive_slot rid (slot_size h) s2 = (Ok (Some p), s2') →
  ∃ s1'' fs',
    push_to_peer transfer_sync rid dest (pool_data_ptr (buffer s2') + slot_offset (pr_slot p))
      (slot_size h) s1' = (Ok true, s1'') ∧
    let s2'' := after_push deliver s1'' s2' in
    load_tensors rid (st_manifest st) s2'' = (Ok fs', s2'') ∧
    (∀ k, dget k fs' = dget k fs ≫= received) ∧ st_scalar_fields st = sc ∧
    (∀ h3, slot_live h3 (buffer s1) → copied 0 (slot_size h3) h3 (buffer s1) h3 (buffer s1'')) ∧
    (∀ h3, slot_live h3 (buffer s2) → copied 0 (slot_size h3) h3 (buffer s2) h3 (buffer s2'')).
Proof.
  intros Heng Hcode Hb1 Hb2 Hfs Hn Hsize Hstage Hslot Hsz Hrecv.
  destruct (stage_core_Ok rid fs sc s1 st s1' n Hb1 Hfs Hn Hsize Hstage)
    as (h0 & Est & Hrid & Hle & Hstaged & Hpr & Hb1' & Hl1 & _ & Hptr1 & Hkeep1 & Hread).
  assert (h0 = h) as -> by (rewrite Est in Hslot; by injection Hslot).
  destruct (allocate_receive_Ok rid (slot_size h) s2 p s2' Hb2 Hsz Hrecv)
    as (_ & Hle2 & Hpend & _ & Hb2' & Hl2 & Hfresh & Hpool2 & Hptr2 & Hkeep2).
  set (op := mk_transfer dest (pool_data_ptr (buffer s1') + slot_offset h)
               (pool_data_ptr (buffer s2') + slot_offset (pr_slot p)) (slot_size h)).
  destruct (push_delivers transfer_sync deliver h (pr_slot p) (buffer s1') (buffer s2') dest op
    Heng (Hcode op) Hb1' Hb2' Hl1 Hl2 Hle2 eq_refl) as (Hb2'' & Hok2 & Hcopy & Hothers).
  destruct (Hread (pr_slot p) _ Hok2 Hle2 Hcopy) as (fs' & Hload & Hfields).
  exists (log_transfer op s1'), fs'. split; [|split; [|split_and!; [done| | |]]].
  - unfold push_to_peer. erewrite bind_Ok by reflexivity. rewrite Hstaged, dget_dset_eq, Hslot.
    erewrite bind_Ok by reflexivity. unfold mret, M_ret. by rewrite Hcode.
  - unfold after_push, load_tensors. simpl. rewrite last_snoc.
    erewrite bind_Ok by reflexivity. simpl. rewrite Hpend, dget_dset_eq.
    injection Hload as Hload. unfold on_buffer. simpl. by rewrite Hload.
  - by rewrite Est.
  - intros h3 H3. by apply Hkeep1.
  - intros h3 H3. unfold after_push. simpl. rewrite last_snoc. simpl.
    intros x Hx. rewrite <-Hpool2. apply Hothers; [by apply Hkeep2| |done].
    intros Eo. unfold slot_live in H3. rewrite Eo in H3. congruence.
Qed.

(** ** A concrete pair of instances *)

Module DataPlane.
Definition mk_instance (ptr : Z) : TransferManager :=
  match init_buffer 4096 1024 "r" ptr (λ _, Ascii.zero) with
  | Ok b => init_manager b
  | Raise _ => init_manager (mk_buffer "" (Buddy.mk_buddy 1 1 0 [] ∅ 0 0) [] 0)
  end.

Lemma instance_ok ptr : buffer_ok (buffer (mk_instance ptr)).
Proof.
  apply (init_buffer_ok 4096 1024 "r" ptr (λ _, Ascii.zero)); [reflexivity|done|by exists 128].
Qed.

Definition code (op : TransferOp) : Z := 0.
Definition deliver (op : TransferOp) (a b : Z * list byte) : list byte :=
  copy_bytes (snd a) (Z.to_nat (src_addr op - fst a)) (snd b) (Z.to_nat (dst_addr op - fst b))
    (Z.to_nat (transfer_length op)).

Definition t : tensor := mk_tensor [2; 2] int16 "abcdefgh".
Definition fields : dict field := [("latents", FTensor t); ("embeds", FList [ITensor t])].
End DataPlane.

Lemma transfer_end_to_end_witness :
  ∃ st p s1' s2' s1'' fs',
    stage_tensors "r1" DataPlane.fields [] (DataPlane.mk_instance 1000) = (Ok (Some st), s1') ∧
    allocate_receive_slot "r1" 1024 (DataPlane.mk_instance 9000) = (Ok (Some p), s2') ∧
    push_to_peer DataPlane.code "r1" "peer"
      (pool_data_ptr (buffer s2') + slot_offset (pr_slot p)) 1024 s1' = (Ok true, s1'') ∧
    load_tensors "r1" (st_manifest st) (after_push DataPlane.deliver s1'' s2') =
      (Ok fs', after_push DataPlane.deliver s1'' s2') ∧
    dget "latents" fs' = Some (FTensor DataPlane.t).
Proof.
  assert (storable DataPlane.t) as Ht
    by (split; [split_and!; [repeat constructor; lia|done|done]|by apply (bool_decide_unpack _)]).
  eexists _, _, _, _.
  edestruct (transfer_end_to_end DataPlane.code DataPlane.deliver "r1" DataPlane.fields [] 16
    (DataPlane.mk_instance 1000)) with (s2 := DataPlane.mk_instance 9000) (dest := "peer")
    as (s1'' & fs' & H1 & H2 & H3 & _).
  - intros op sp src dp dst _ _ _ _ _ _. reflexivity.
  - intros op. reflexivity.
  - apply DataPlane.instance_ok.
  - apply DataPlane.instance_ok.
  - split; [by apply (bool_decide_unpack _)|]. by repeat constructor.
  - reflexivity.
  - lia.
  - vm_compute; reflexivity.
  - reflexivity.
  - vm_compute; split; discriminate.
  - vm_compute; reflexivity.
  - exists s1'', fs'. split_and!; [vm_compute; reflexivity|vm_compute; reflexivity|exact H1|exact H2|].
    rewrite H3. reflexivity.
Defined.

(** ** Staging that fails *)

(** Writing never touches the allocator, whether it returns or raises. *)
Lemma write_tensor_frames h t off : steps (frames allocator) (write_tensor h t off).
Proof.
  unfold write_tensor. repeat (case_match; [apply steps_raise; apply _|]).
  intros s. unfold mbind, M_bind, gets, lift_res. by destruct (write_slice _ _ _ _).
Qed.

Lemma write_items_frames h l : ∀ i off, steps (frames allocator) (write_items h i l off).
Proof.
  induction l as [|[|t|] l IH]; intros i off; simpl;
    [apply steps_ret; apply _|apply IH| |apply steps_raise; apply _].
  apply steps_bind; [apply _|apply write_tensor_frames|intros n].
  apply steps_bind; [apply _|apply IH|intros r; apply steps_ret; apply _].
Qed.

Lemma write_fields_frames h fs : ∀ off m, steps (frames allocator) (write_fields h fs off m).
Proof.
  induction fs as [|[k v] fs IH]; intros off m; simpl; [apply steps_ret; apply _|].
  apply steps_bind; [apply _| |intros r; apply IH].
  destruct v as [|t|l|]; simpl; [apply steps_ret; apply _| |apply write_items_frames
    |apply steps_ret; apply _].
  apply steps_bind; [apply _|apply write_tensor_frames|intros n; apply steps_ret; apply _].
Qed.

(** Staging that raises while it writes loses its slot: the block it took stays
    in use in the allocator, owned by the request, and no staged record holds it, so
    nothing can free it. This happens when the 512-byte alignment between tensors needs
    more room than the sum of their sizes, which is what the slot was sized for. *)
Theorem stage_failure_leaks rid fs sc s n e s' :
  buffer_ok (buffer s) → total_size fs = Ok n → 1 ≤ n ≤ 2 ^ 64 →
  stage_tensors rid fs sc s = (Raise e, s') →
  staged s' = staged s ∧
  ∃ h, live (allocator (buffer s)) !! slot_offset h = None ∧ slot_live h (buffer s') ∧
    slot_request_id h = rid ∧ n ≤ slot_size h.
Proof.
  intros Hb Hn Hsize Hrun. unfold stage_tensors, stage_core in Hrun.
  unfold mbind at 1, M_bind at 1, lift_res in Hrun. rewrite Hn in Hrun.
  rewrite (proj2 (Z.eqb_neq n 0)) in Hrun by lia.
  unfold mbind at 1, M_bind at 1, on_buffer at 1 in Hrun.
  destruct (buffer_allocate_spec n rid (buffer s) Hb Hsize)
    as [(h & b1 & E & Hb1 & Hrid & Hle & Hlive & Hfresh & _)|E]; rewrite E in Hrun; simpl in Hrun;
    [|done].
  unfold mbind at 1, M_bind at 1, on_buffer in Hrun. simpl in Hrun.
  pose proof (write_fields_frames h fs 0 [] b1) as Hfr. unfold frames in Hfr.
  fold (write_tensors_from_gpu h fs) in Hfr.
  destruct (write_tensors_from_gpu h fs b1) as [[man|e'] b2] eqn:Hw; simpl in Hrun, Hfr; [done|].
  injection Hrun as _ <-. simpl. split; [done|]. exists h. split_and!; try done.
  unfold slot_live. by rewrite <-Hfr.
Qed.

Lemma stage_failure_leaks_witness :
  let t := mk_tensor [2] uint8 "ab" in
  ∃ h s', stage_tensors "r1" [("a", FTensor t); ("b", FTensor t); ("c", FTensor t)] []
            (DataPlane.mk_instance 0) = (Raise ValueError, s') ∧
    staged s' = [] ∧ slot_live h (buffer s').
Proof.
  intros t. edestruct (stage_failure_leaks "r1" [("a", FTensor t); ("b", FTensor t); ("c", FTensor t)]
    [] (DataPlane.mk_instance 0) 6) as (H1 & h & _ & H2 & _);
    [apply DataPlane.instance_ok|reflexivity|lia|vm_compute; reflexivity|].
  eexists h, _. split_and!; [vm_compute; reflexivity|exact H1|exact H2].
Defined.
