(* ===== verification/Fields.v ===== *)
(** * Requests across roles: extracting and rebuilding the fields of a request

    Models the data of a request ([Req] of [pipelines_core/schedule_batch.py]: its
    dataclass fields, attribute delegation to its sampling parameters, [validate]) and
    the part of [disaggregation/scheduler_mixin.py] that moves it from one role to the
    next: [extract_transfer_fields] splits a request into tensors and JSON scalars,
    [_build_disagg_req] rebuilds one, and the broadcast packing carries the tensors to
    the other ranks of a role.

    The sampling parameters of the sender may be of any subclass, so the attributes of a
    fresh [SamplingParams()] and its dataclass defaults are parameters, as are
    [tensor.tolist()] and the exported state of a trace context. *)

From S2P Require Import Prelude PyJson Codec PyValue.
Local Open Scope string_scope.
Local Open Scope Z_scope.

(** ** The dataclass fields of [Req] *)

(** [f.default] and [f.default_factory()]; [None] is [dataclasses.MISSING]. *)
Record FieldInfo := mk_field {
  f_name : string;
  f_default : option Json;
  f_factory : option pyval;
}.

Definition by_default (name : string) (d : Json) : FieldInfo := mk_field name (Some d) None.
Definition by_factory (name : string) (v : pyval) : FieldInfo := mk_field name None (Some v).

Definition REQ_FIELDS : list FieldInfo :=
  [by_default "sampling_params" JNull;
   by_default "generator" JNull;
   by_factory "image_embeds" (PList []);
   by_default "original_condition_image_size" JNull;
   by_default "condition_image" JNull;
   by_default "vae_image" JNull;
   by_default "pixel_values" JNull;
   by_default "preprocessed_image" JNull;
   by_default "output_file_ext" JNull;
   by_factory "prompt_embeds" (PList []);
   by_default "negative_prompt_embeds" JNull;
   by_default "prompt_attention_mask" JNull;
   by_default "negative_attention_mask" JNull;
   by_default "prompt_embeds_mask" JNull;
   by_default "negative_prompt_embeds_mask" JNull;
   by_default "prompt_seq_lens" JNull;
   by_default "negative_prompt_seq_lens" JNull;
   by_default "clip_embedding_pos" JNull;
   by_default "clip_embedding_neg" JNull;
   by_factory "pooled_embeds" (PList []);
   by_factory "neg_pooled_embeds" (PList []);
   by_default "max_sequence_length" JNull;
   by_default "prompt_template" JNull;
   by_default "do_classifier_free_guidance" (JBool false);
   by_default "seeds" JNull;
   by_default "is_prompt_processed" (JBool false);
   by_factory "audio_prompt_embeds" (PList []);
   by_factory "negative_audio_prompt_embeds" (PList []);
   by_default "latents" JNull;
   by_default "y" JNull;
   by_default "latent_ids" JNull;
   by_default "audio_latents" JNull;
   by_default "audio_noise" JNull;
   by_default "raw_audio_latent_shape" JNull;
   by_default "did_sp_shard_audio_latents" (JBool false);
   by_default "sp_audio_start_frame" (JInt 0);
   by_default "sp_audio_orig_num_frames" (JInt 0);
   by_default "generate_audio" (JBool true);
   by_default "raw_latent_shape" JNull;
   by_default "did_sp_shard_latents" (JBool false);
   by_default "sp_video_start_frame" (JInt 0);
   by_default "noise_pred" JNull;
   by_default "image_latent" JNull;
   by_default "condition_image_latent_ids" JNull;
   by_default "vae_image_sizes" JNull;
   by_default "height_latents" JNull;
   by_default "width_latents" JNull;
   by_default "timesteps" JNull;
   by_default "paired_timesteps" JNull;
   by_default "timestep" JNull;
   by_default "step_index" JNull;
   by_default "scheduler" JNull;
   by_default "eta" (JInt 0);
   by_default "sigmas" JNull;
   by_default "n_tokens" JNull;
   by_factory "extra_step_kwargs" (PDict []);
   by_factory "modules" (PDict []);
   by_default "trajectory_timesteps" JNull;
   by_default "trajectory_latents" JNull;
   by_default "rollout_trajectory_data" JNull;
   by_default "trajectory_audio_latents" JNull;
   by_factory "extra" (PDict []);
   by_default "is_warmup" (JBool false);
   by_default "STA_param" JNull;
   by_default "is_cfg_negative" (JBool false);
   by_default "mask_search_final_result_pos" JNull;
   by_default "mask_search_final_result_neg" JNull;
   by_default "VSA_sparsity" (JInt 0);
   by_default "metrics" JNull;
   by_factory "trace_ctx" (PObject "TraceNullContext");
   by_default "output" JNull;
   by_default "audio" JNull;
   by_default "audio_sample_rate" JNull].

(** The attributes of a request but [sampling_params], in the order they were set, and
    [sampling_params]: a [PDict] is a [SamplingParams] object with its fields. *)
Record Req := mk_req {
  attrs : dict pyval;
  sampling_params : pyval;
}.

Definition is_req_field (name : string) : bool :=
  bool_decide (name ∈ f_name <$> REQ_FIELDS).

(** [hasattr(sampling_params, name)] and [getattr]. *)
Definition sp_getattr (r : Req) (name : string) : option pyval :=
  match sampling_params r with PDict d => dget name d | _ => None end.

(** [Req.__getattr__] *)
Definition req_getattr (r : Req) (name : string) : option pyval :=
  match dget name (attrs r) with
  | Some v => Some v
  | None => sp_getattr r name
  end.
Definition getattr_or_None (r : Req) (name : string) : pyval := default PNone (req_getattr r name).
Definition req_attr (r : Req) (name : string) : res pyval :=
  match req_getattr r name with Some v => Ok v | None => Raise AttributeError end.

Definition set_attr (name : string) (v : pyval) (r : Req) : Req :=
  mk_req (dset name v (attrs r)) (sampling_params r).

(** [Req.__setattr__] where [sampling_params] is set. *)
Definition req_setattr (name : string) (v : pyval) (r : Req) : Req :=
  if bool_decide (name = "sampling_params") then mk_req (attrs r) v
  else if is_req_field name then set_attr name v r
  else
    match sampling_params r with
    | PDict d =>
        if dmem name d then mk_req (attrs r) (PDict (dset name v d)) else set_attr name v r
    | _ => set_attr name v r
    end.

Definition set_attrs (l : dict pyval) (r : Req) : Req :=
  foldl (λ r kv, req_setattr kv.1 kv.2 r) r l.

(** [cfg_scale > 1.0] *)
Definition above_one (v : pyval) : res bool :=
  match v with
  | PJson j => match json_num j with Some z => Ok (1 <? z) | None => Raise TypeError end
  | _ => Raise TypeError
  end.

(** [Req.validate] *)
Definition validate (r : Req) : res Req :=
  true_cfg ← req_attr r "true_cfg_scale";
  scale ← (if is_none true_cfg then req_attr r "guidance_scale" else Ok true_cfg);
  cfg ← above_one scale;
  r ← (if cfg : bool then
         neg ← req_attr r "negative_prompt";
         Ok (if is_none neg then r
             else req_setattr "do_classifier_free_guidance" (PJson (JBool true)) r)
       else Ok r);
  embeds ← req_attr r "negative_prompt_embeds";
  let r := if is_none embeds then req_setattr "negative_prompt_embeds" (PList []) r else r in
  g2 ← req_attr r "guidance_scale_2";
  r ← (if is_none g2 then
         guidance ← req_attr r "guidance_scale"; Ok (req_setattr "guidance_scale_2" guidance r)
       else Ok r);
  _ ← req_attr r "request_id";
  Ok (req_setattr "metrics" (PObject "RequestMetrics") r).

(** ** Extraction *)

Definition EXCLUDE_FIELDS : list string :=
  ["sampling_params"; "generator"; "modules"; "metrics"; "extra_step_kwargs"; "extra";
   "condition_image"; "vae_image"; "pixel_values"; "preprocessed_image"; "image_embeds";
   "original_condition_image_size"; "vae_image_sizes"; "output"; "audio"; "audio_sample_rate";
   "trajectory_timesteps"; "trajectory_latents"; "trajectory_audio_latents"; "timestep";
   "step_index"; "scheduler"; "prompt_template"; "max_sequence_length"; "trace_ctx"].

Definition SAMPLING_PARAMS_EXCLUDE_FIELDS : list string :=
  ["data_type"; "supported_resolutions"; "teacache_params"].

Definition is_tensor_like (v : pyval) : bool :=
  match v with PTensor _ | PList (PTensor _ :: _) => true | _ => false end.

Definition is_default (v : pyval) (f : FieldInfo) : bool :=
  match f_default f with
  | Some d => py_eq v d
  | None =>
      match f_factory f, v with
      | Some _, (PList [] | PDict [] | PJson (JList []) | PJson (JObj [])) => true
      | _, _ => false
      end
  end.

(** [extra.items()], for an [extra] that is true. *)
Definition dict_items (v : pyval) : res (dict pyval) :=
  match v with
  | PDict d => Ok d
  | PJson (JObj d) => Ok ((λ kv, (kv.1, PJson kv.2)) <$> d)
  | _ => Raise AttributeError
  end.

Fixpoint extract_extra_fields (extra : dict pyval) (sf : dict pyval) : dict pyval :=
  match extra with
  | [] => sf
  | (key, value) :: extra =>
      extract_extra_fields extra
        (if startswith key "_" then sf
         else match json_of value with
              | Ok _ => dset ("_extra_" +:+ key) value sf
              | Raise _ => sf
              end)
  end.

Section Extract.
Context (tolist : tensor → Json).
Context (base_sp_defaults : dict Json).
(** [Some] for a context with tracing on, with what [__getstate__] gives. *)
Context (trace_getstate : pyval → option (res (dict pyval))).

Definition to_json_item (v : pyval) : pyval :=
  match v with PTensor t => PJson (tolist t) | _ => v end.

Definition to_json_serializable (v : pyval) : pyval :=
  match v with
  | PTensor t => PJson (tolist t)
  | PList l | PTuple l => PList (to_json_item <$> l)
  | _ => v
  end.

Definition extract_field (r : Req) (st : dict pyval * dict pyval) (f : FieldInfo) :
    dict pyval * dict pyval :=
  if bool_decide (f_name f ∈ EXCLUDE_FIELDS) then st
  else
    let value := getattr_or_None r (f_name f) in
    if is_none value || is_default value f then st
    else if is_tensor_like value then (dset (f_name f) value st.1, st.2)
    else (st.1, dset (f_name f) (to_json_serializable value) st.2).

Definition extract_sp_field (sf : dict pyval) (nv : string * pyval) : dict pyval :=
  let '(name, value) := nv in
  if bool_decide (name ∈ SAMPLING_PARAMS_EXCLUDE_FIELDS) || dmem name sf || is_none value then sf
  else
    match dget name base_sp_defaults with
    | Some d => if py_eq value d then sf else dset name (to_json_serializable value) sf
    | None => dset name (to_json_serializable value) sf
    end.

(** [dataclasses.fields(sp)] raises unless [sp] is a dataclass. *)
Definition extract_sampling_params (sp : pyval) (sf : dict pyval) : res (dict pyval) :=
  match sp with
  | PNone => Ok sf
  | PDict d => Ok (foldl extract_sp_field sf d)
  | _ => Raise TypeError
  end.

Definition extract_seed (r : Req) (sf : dict pyval) : dict pyval :=
  if is_none (getattr_or_None r "generator") then sf
  else
    let seed := getattr_or_None r "seed" in
    if is_none seed then sf else dset "seed" (to_json_serializable seed) sf.

Definition extract_trace (r : Req) (sf : dict pyval) : dict pyval :=
  match trace_getstate (getattr_or_None r "trace_ctx") with
  | Some (Ok st) =>
      if py_truthy (default PNone (dget "tracing_enable" st))
      then dset "_trace_state" (PDict st) sf else sf
  | _ => sf
  end.

Definition extract_transfer_fields (r : Req) : res (dict pyval * dict pyval) :=
  let st := foldl (extract_field r) ([], []) REQ_FIELDS in
  let extra := getattr_or_None r "extra" in
  sf ← (if py_truthy extra then
          items ← dict_items extra; Ok (extract_extra_fields items st.2)
        else Ok st.2);
  sf ← extract_sampling_params (sampling_params r) sf;
  Ok (st.1, extract_trace r (extract_seed r sf)).
End Extract.

(** ** Rebuilding *)

(** [torch.Generator().manual_seed(n)] accepts the 64-bit range. *)
Definition manual_seed (n : Z) : res pyval :=
  if (- 2 ^ 63 <=? n) && (n <? 2 ^ 64) then Ok (PGenerator n) else Raise RuntimeError.

Definition generator_of_seed (seed : Json) : res (option pyval) :=
  match seed with
  | JNull => Ok None
  | JList l => gs ← res_mapM (λ j, n ← py_int j; manual_seed n) l; Ok (Some (PList gs))
  | j => n ← py_int j; g ← manual_seed n; Ok (Some g)
  end.

(** The fields with their defaults, in order. *)
Definition default_attrs : dict pyval :=
  omap (λ f, match f_default f, f_factory f with
             | Some d, _ => Some (f_name f, PJson d)
             | None, Some v => Some (f_name f, v)
             | None, None => None
             end) (filter (λ f, f_name f ≠ "sampling_params") REQ_FIELDS).

Definition extra_prefix : string := "_extra_".

(** [key[len("_extra_"):]] *)
Definition strip_extra (key : string) : string :=
  String.substring 7 (String.length key - 7) key.

Section Build.
Context (new_sampling_params : dict pyval).
Context (trace_setstate : dict Json → res pyval).

(** The scalars that are attributes, and those that go to [req.extra]. *)
Definition plain_scalars (sf : dict Json) : dict Json :=
  filter (λ kv, startswith kv.1 extra_prefix = false) (ddel "_trace_state" sf).
Definition plain_values (sf : dict Json) : dict pyval :=
  (λ kv, (kv.1, PJson kv.2)) <$> plain_scalars sf.
Definition extra_scalars (sf : dict Json) : dict pyval :=
  foldl (λ d kv, dset (strip_extra kv.1) (PJson kv.2) d) []
    (filter (λ kv, startswith kv.1 extra_prefix = true) (ddel "_trace_state" sf)).

Definition set_trace (state : Json) (r : Req) : res Req :=
  if json_truthy state then
    d ← as_dict state;
    Ok (if json_truthy (get_json d "tracing_enable") then
          match trace_setstate d with
          | Ok ctx => req_setattr "trace_ctx" ctx r
          | Raise _ => r
          end
        else r)
  else Ok r.

Definition build_disagg_req (sf : dict Json) (tensors : dict pyval) : res Req :=
  let r := mk_req default_attrs (PDict new_sampling_params) in
  let r := set_attr "extra" (PDict (extra_scalars sf)) r in
  let r := set_attrs (plain_values sf) r in
  let r := set_attrs tensors r in
  g ← generator_of_seed (get_json (plain_scalars sf) "seed");
  let r := from_option (λ v, req_setattr "generator" v r) r g in
  r ← set_trace (get_json sf "_trace_state") r;
  validate r.
End Build.

(** ** Carrying tensors to the other ranks *)

Definition LIST_MARKER_KEY : string := "__is_list__".

(** The tensors of a list under their index. *)
Fixpoint pack_list (i : Z) (l : list pyval) (sub : dict pyval) : dict pyval :=
  match l with
  | [] => sub
  | PTensor t :: l => pack_list (i + 1) l (dset (dumps_int i) (PTensor t) sub)
  | _ :: l => pack_list (i + 1) l sub
  end.

Fixpoint pack_tensor_fields (fs : dict pyval) (packed : dict pyval) : dict pyval :=
  match fs with
  | [] => packed
  | (key, PTensor t) :: fs => pack_tensor_fields fs (dset key (PTensor t) packed)
  | (key, PList l) :: fs =>
      pack_tensor_fields fs
        (dset key (PDict (pack_list 0 l [(LIST_MARKER_KEY, PJson (JBool true))])) packed)
  | _ :: fs => pack_tensor_fields fs packed
  end.
Definition pack_tensor_fields_for_broadcast (fs : dict pyval) : dict pyval :=
  pack_tensor_fields fs [].

(** [indexed.sort(key=lambda kv: kv[0])]: a stable sort. *)
Fixpoint sort_insert (kv : Z * pyval) (l : list (Z * pyval)) : list (Z * pyval) :=
  match l with
  | [] => [kv]
  | kv' :: l' => if fst kv <=? fst kv' then kv :: l else kv' :: sort_insert kv l'
  end.
Definition sort_by_index (l : list (Z * pyval)) : list (Z * pyval) := foldr sort_insert [] l.

Definition is_packed_list (d : dict pyval) : bool :=
  match dget LIST_MARKER_KEY d with Some (PJson (JBool true)) => true | _ => false end.

(** [(int(k), v)] *)
Definition indexed_entry (kv : string * pyval) : res (Z * pyval) :=
  i ← py_int (JStr kv.1); Ok (i, kv.2).

Definition unpack_value (v : pyval) : res pyval :=
  match v with
  | PDict d =>
      if is_packed_list d then
        indexed ← res_mapM indexed_entry (filter (λ kv, kv.1 ≠ LIST_MARKER_KEY) d);
        Ok (PList (snd <$> sort_by_index indexed))
      else Ok v
  | _ => Ok v
  end.

Fixpoint unpack_tensor_fields_from_broadcast (packed : dict pyval) : res (dict pyval) :=
  match packed with
  | [] => Ok []
  | (key, v) :: packed =>
      v ← unpack_value v;
      out ← unpack_tensor_fields_from_broadcast packed;
      Ok ((key, v) :: out)
  end.
