(* ===== verification/FieldsFacts.v ===== *)
(** * What a rebuilt request has

    Lemmas on the loops of extraction and rebuilding, and the value every field of a
    request has on the other side of a transfer. *)

From S2P Require Import Prelude PyJson Codec PyValue Fields.
Local Open Scope string_scope.
Local Open Scope Z_scope.

(** ** The extraction loop *)

Section Loop.
Context (tolist : tensor → Json).

(** Whether the loop skips the field, sends it as tensors, or as a scalar. *)
Definition skips (r : Req) (f : FieldInfo) : bool :=
  bool_decide (f_name f ∈ EXCLUDE_FIELDS) ||
  (is_none (getattr_or_None r (f_name f)) || is_default (getattr_or_None r (f_name f)) f).

Lemma extract_field_get r st f k :
  let v := getattr_or_None r (f_name f) in
  dget k (extract_field tolist r st f).1 =
    (if decide (k = f_name f ∧ skips r f = false ∧ is_tensor_like v = true) then Some v
     else dget k st.1) ∧
  dget k (extract_field tolist r st f).2 =
    (if decide (k = f_name f ∧ skips r f = false ∧ is_tensor_like v = false)
     then Some (to_json_serializable tolist v) else dget k st.2).
Proof.
  intros v. unfold extract_field, skips. fold v.
  destruct (bool_decide (f_name f ∈ EXCLUDE_FIELDS)); simpl; [by rewrite !decide_False by naive_solver|].
  destruct (is_none v || is_default v f); [by rewrite !decide_False by naive_solver|].
  destruct (is_tensor_like v); simpl; rewrite dget_dset.
  - split; [|by rewrite decide_False by naive_solver].
    by destruct (decide (k = f_name f)); case_decide; naive_solver.
  - split; [by rewrite decide_False by naive_solver|].
    by destruct (decide (k = f_name f)); case_decide; naive_solver.
Qed.

Lemma extract_fold_other r fs st k :
  k ∉ f_name <$> fs →
  dget k (foldl (extract_field tolist r) st fs).1 = dget k st.1 ∧
  dget k (foldl (extract_field tolist r) st fs).2 = dget k st.2.
Proof.
  revert st. induction fs as [|f fs IH]; intros st Hk; [done|]. simpl.
  rewrite fmap_cons, not_elem_of_cons in Hk. destruct Hk as [Hne Hk].
  destruct (IH (extract_field tolist r st f) Hk) as [-> ->].
  destruct (extract_field_get r st f k) as [-> ->].
  by rewrite !decide_False by naive_solver.
Qed.

Lemma extract_fold_in r fs st f :
  NoDup (f_name <$> fs) → f ∈ fs →
  let v := getattr_or_None r (f_name f) in
  dget (f_name f) (foldl (extract_field tolist r) st fs).1 =
    (if decide (skips r f = false ∧ is_tensor_like v = true) then Some v
     else dget (f_name f) st.1) ∧
  dget (f_name f) (foldl (extract_field tolist r) st fs).2 =
    (if decide (skips r f = false ∧ is_tensor_like v = false)
     then Some (to_json_serializable tolist v) else dget (f_name f) st.2).
Proof.
  intros Hnd Hin v. revert st Hnd Hin. induction fs as [|g fs IH]; intros st Hnd Hin.
  { by apply elem_of_nil in Hin. }
  rewrite fmap_cons, NoDup_cons in Hnd. destruct Hnd as [Hg Hnd]. simpl.
  apply elem_of_cons in Hin as [<-|Hin].
  - destruct (extract_fold_other r fs (extract_field tolist r st f) _ Hg) as [-> ->].
    destruct (extract_field_get r st f (f_name f)) as [-> ->].
    split; apply decide_ext; naive_solver.
  - assert (f_name f ≠ f_name g) as Hne.
    { intros E. apply Hg. rewrite <-E. by apply list_elem_of_fmap_2. }
    destruct (IH (extract_field tolist r st g) Hnd Hin) as [-> ->].
    destruct (extract_field_get r st g (f_name f)) as [-> ->].
    by rewrite !(decide_False (P := f_name f = f_name g ∧ _)) by naive_solver.
Qed.

End Loop.

Section Extraction.
Context (tolist : tensor → Json) (base : dict Json)
        (getstate : pyval → option (res (dict pyval))).

(** Whether a sampling parameter is worth sending. *)
Definition sends_param (name : string) (v : pyval) : bool :=
  negb (bool_decide (name ∈ SAMPLING_PARAMS_EXCLUDE_FIELDS)) && negb (is_none v) &&
  negb (from_option (py_eq v) false (dget name base)).

(** ** The other sources of scalars *)

Lemma extract_extra_other items sf k :
  startswith k extra_prefix = false → dget k (extract_extra_fields items sf) = dget k sf.
Proof.
  intros Hk. revert sf. induction items as [|[key v] items IH]; intros sf; [done|].
  cbn [extract_extra_fields]. rewrite IH. destruct (startswith key "_"); [done|].
  destruct (json_of v); [|done]. apply dget_dset_ne. intros <-.
  apply not_true_iff_false in Hk. destruct Hk. apply startswith_spec. by eexists.
Qed.

Lemma extract_sp_field_get sf name v k :
  dget k (extract_sp_field tolist base sf (name, v)) =
    if decide (k = name ∧ dget name sf = None ∧ sends_param name v = true)
    then Some (to_json_serializable tolist v) else dget k sf.
Proof.
  unfold extract_sp_field, dmem, sends_param.
  destruct (bool_decide (name ∈ SAMPLING_PARAMS_EXCLUDE_FIELDS)); simpl;
    [by rewrite decide_False by naive_solver|].
  destruct (bool_decide_reflect (is_Some (dget name sf))) as [[? Hs]|Hs]; simpl.
  { by rewrite decide_False by (rewrite Hs; naive_solver). }
  assert (dget name sf = None) as Hn by (by apply eq_None_not_Some).
  destruct (is_none v); [by rewrite decide_False by naive_solver|].
  destruct (dget name base) as [d|]; simpl; [destruct (py_eq v d); simpl|];
    [by rewrite decide_False by naive_solver| |];
    rewrite dget_dset; by destruct (decide (k = name)); case_decide; naive_solver.
Qed.

Lemma extract_sp_other sp sf k :
  k ∉ dkeys sp → dget k (foldl (extract_sp_field tolist base) sf sp) = dget k sf.
Proof.
  revert sf. induction sp as [|[name v] sp IH]; intros sf Hk; [done|].
  apply not_elem_of_cons in Hk as [Hne Hk]. cbn [foldl]. rewrite IH by done.
  rewrite extract_sp_field_get, decide_False by naive_solver. done.
Qed.

Lemma extract_sp_in sp sf name v :
  NoDup (dkeys sp) → dget name sp = Some v →
  dget name (foldl (extract_sp_field tolist base) sf sp) =
    if decide (dget name sf = None ∧ sends_param name v = true)
    then Some (to_json_serializable tolist v) else dget name sf.
Proof.
  revert sf. induction sp as [|[n1 v1] sp IH]; intros sf Hnd Hg; [done|].
  apply NoDup_cons in Hnd as [Hn Hnd]. cbn [foldl]. simpl in Hg. case_decide as E; simplify_eq.
  - rewrite extract_sp_other by done. rewrite extract_sp_field_get.
    apply decide_ext; naive_solver.
  - rewrite IH by done. rewrite extract_sp_field_get.
    rewrite (decide_False (P := name = n1 ∧ _)) by naive_solver. done.
Qed.

(** Every step adds keys one at a time. *)
Lemma extract_fold_NoDup r fs st :
  NoDup (dkeys st.1) → NoDup (dkeys st.2) →
  NoDup (dkeys (foldl (extract_field tolist r) st fs).1) ∧
  NoDup (dkeys (foldl (extract_field tolist r) st fs).2).
Proof.
  revert st. induction fs as [|f fs IH]; intros st H1 H2; [done|]. simpl.
  apply IH; unfold extract_field; repeat case_match; try done; by apply NoDup_dset.
Qed.

Lemma extract_extra_NoDup items sf :
  NoDup (dkeys sf) → NoDup (dkeys (extract_extra_fields items sf)).
Proof.
  revert sf. induction items as [|[key v] items IH]; intros sf Hsf; [done|].
  cbn [extract_extra_fields]. apply IH. repeat case_match; try done. by apply NoDup_dset.
Qed.

Lemma extract_sp_NoDup sp sf :
  NoDup (dkeys sf) → NoDup (dkeys (foldl (extract_sp_field tolist base) sf sp)).
Proof.
  revert sf. induction sp as [|[name v] sp IH]; intros sf Hsf; [done|]. cbn [foldl]. apply IH.
  unfold extract_sp_field. repeat case_match; try done; by apply NoDup_dset.
Qed.

Lemma extract_seed_other r sf k : k ≠ "seed" → dget k (extract_seed tolist r sf) = dget k sf.
Proof.
  intros. unfold extract_seed. repeat case_match; try done. by apply dget_dset_ne.
Qed.

Lemma extract_trace_other r sf k :
  k ≠ "_trace_state" → dget k (extract_trace getstate r sf) = dget k sf.
Proof.
  intros. unfold extract_trace. repeat case_match; try done. by apply dget_dset_ne.
Qed.

Lemma extract_sampling_params_Ok sp sf sf' :
  extract_sampling_params tolist base sp sf = Ok sf' →
  (sp = PNone ∧ sf' = sf) ∨
  ∃ d, sp = PDict d ∧ sf' = foldl (extract_sp_field tolist base) sf d.
Proof. destruct sp as [[]| | | |d| |]; intros H; simplify_eq/=; eauto. Qed.

(** ** The whole extraction *)

Definition param_names (r : Req) : list string :=
  match sampling_params r with PDict sp => dkeys sp | _ => [] end.

Lemma extract_Ok r tf sf :
  extract_transfer_fields tolist base getstate r = Ok (tf, sf) →
  let st := foldl (extract_field tolist r) ([], []) REQ_FIELDS in
  tf = st.1 ∧ NoDup (dkeys tf) ∧ NoDup (dkeys sf) ∧
  ∀ k, k ≠ "seed" → k ≠ "_trace_state" → startswith k extra_prefix = false →
    (k ∉ param_names r → dget k sf = dget k st.2) ∧
    (∀ v, NoDup (param_names r) → sp_getattr r k = Some v → dget k st.2 = None →
      dget k sf = if sends_param k v then Some (to_json_serializable tolist v) else None).
Proof.
  intros H st. unfold extract_transfer_fields in H. fold st in H. unfold param_names, sp_getattr.
  destruct (extract_fold_NoDup r REQ_FIELDS ([], [])) as [Htf Hst]; [constructor..|].
  fold st in Htf, Hst.
  destruct (if py_truthy _ then _ else _) as [sf1|] eqn:E1; simpl in H; [|done].
  assert (NoDup (dkeys sf1) ∧ ∀ k, startswith k extra_prefix = false → dget k sf1 = dget k st.2)
    as [Hnd1 Hg1].
  { destruct (py_truthy _); [|by simplify_eq]. destruct (dict_items _) as [items|]; [|done].
    simpl in E1. injection E1 as <-. split; [by apply extract_extra_NoDup|].
    intros. by apply extract_extra_other. }
  destruct (extract_sampling_params _ _ _ sf1) as [sf2|] eqn:E2; simpl in H; [|done].
  injection H as <- <-. split_and!; [done|done| |].
  - assert (NoDup (dkeys sf2)) as Hnd2.
    { apply extract_sampling_params_Ok in E2 as [[_ ->]|(d & _ & ->)]; [done|].
      by apply extract_sp_NoDup. }
    unfold extract_trace, extract_seed. repeat case_match; try done; by repeat apply NoDup_dset.
  - intros k Hseed Htr Hex. rewrite extract_trace_other, extract_seed_other by done.
    rewrite <-(Hg1 k Hex).
    apply extract_sampling_params_Ok in E2 as [[-> ->]|(d & -> & ->)]; [done|]. split.
    + intros Hk. by apply extract_sp_other.
    + intros v Hnd Hv Hnone. rewrite (extract_sp_in _ _ _ v) by done. rewrite Hnone.
      destruct (sends_param k v); [by rewrite decide_True|by rewrite decide_False by (intros []; done)].
Qed.
End Extraction.

(** ** Where an attribute lives

    A field of [Req] lives in the request; another name lives in the sampling
    parameters when they have it. *)
Definition home (r : Req) (k : string) : option pyval :=
  if is_req_field k then dget k (attrs r) else sp_getattr r k.
Definition homed (k : string) (r : Req) : Prop :=
  is_req_field k = true ∨ is_Some (sp_getattr r k).

Lemma home_setattr n v r k :
  n ≠ "sampling_params" → homed k r →
  homed k (req_setattr n v r) ∧
  home (req_setattr n v r) k = if decide (k = n) then Some v else home r k.
Proof.
  intros Hn Hk. unfold homed, home in *. unfold req_setattr. rewrite bool_decide_eq_false_2 by done.
  destruct (is_req_field n) eqn:En.
  { unfold sp_getattr in *. simpl. split; [done|]. destruct (is_req_field k) eqn:Ek.
    - by rewrite dget_dset.
    - rewrite decide_False by congruence. done. }
  unfold sp_getattr in *. destruct (sampling_params r) as [| | | |d| |] eqn:Esp;
    try (destruct Hk as [Hk|[? ?]]; [|done]; rewrite Hk; simpl; split; [by left|];
         rewrite dget_dset; by case_decide).
  unfold dmem. destruct (bool_decide_reflect (is_Some (dget n d))) as [Hs|Hs]; simpl.
  - split.
    + destruct Hk as [Hk|Hk]; [by left|right]. rewrite dget_dset. by case_decide; [eexists|].
    + destruct (is_req_field k) eqn:Ek; [by rewrite decide_False by congruence|].
      apply dget_dset.
  - rewrite Esp. split; [done|]. destruct (is_req_field k) eqn:Ek.
    + rewrite dget_dset. done.
    + destruct Hk as [?|Hk]; [done|]. rewrite decide_False by (intros <-; done). done.
Qed.

Lemma home_set_attrs l r k :
  "sampling_params" ∉ dkeys l → NoDup (dkeys l) → homed k r →
  homed k (set_attrs l r) ∧
  home (set_attrs l r) k = match dget k l with Some v => Some v | None => home r k end.
Proof.
  unfold set_attrs. revert r. induction l as [|[n v] l IH]; intros r Hsp Hnd Hk; [done|].
  apply not_elem_of_cons in Hsp as [Hne Hsp]. apply NoDup_cons in Hnd as [Hn Hnd].
  simpl in Hn. cbn [foldl fst snd].
  destruct (home_setattr n v r k) as [Hk' E]; [by intros ->; simpl in Hne|done|].
  destruct (IH _ Hsp Hnd Hk') as [Hk'' ->]. split; [done|]. rewrite E. simpl.
  case_decide; subst; [|done]. by rewrite (proj2 (dget_None n l)).
Qed.

(** [r'] differs from [r] in the attributes [ks] only. *)
Definition changes (ks : list string) (r r' : Req) : Prop :=
  ∀ k, k ∉ ks → homed k r → homed k r' ∧ home r' k = home r k.

#[global] Instance changes_preorder ks : PreOrder (changes ks).
Proof.
  split; [by intros r k|]. intros r1 r2 r3 H1 H2 k Hk Hh.
  destruct (H1 k Hk Hh) as [Hh2 <-]. by apply H2.
Qed.

Lemma changes_setattr ks n v r :
  n ≠ "sampling_params" → n ∈ ks → changes ks r (req_setattr n v r).
Proof.
  intros Hn Hin k Hk Hh. destruct (home_setattr n v r k Hn Hh) as [? ->].
  by rewrite decide_False by (intros ->; done).
Qed.

(** What [validate] and the generator and trace steps write. *)
Definition derived : list string :=
  ["generator"; "trace_ctx"; "do_classifier_free_guidance"; "negative_prompt_embeds";
   "guidance_scale_2"; "metrics"].

Lemma validate_changes r r' : validate r = Ok r' → changes derived r r'.
Proof.
  unfold validate. intros (t & _ & (sc & _ & (cfg & _ & (r1 & H1 & H)%res_bind_inv)%res_bind_inv)
    %res_bind_inv)%res_bind_inv.
  apply res_bind_inv in H as (em & _ & (g2 & _ & (r2 & H2 & (rid & _ & H)%res_bind_inv)
    %res_bind_inv)%res_bind_inv).
  injection H as <-. etrans; [|apply changes_setattr; [done|by apply (bool_decide_unpack _)]].
  assert (changes derived r r1) as ->.
  { destruct cfg; [|by injection H1 as ->]. apply res_bind_inv in H1 as (neg & _ & H1).
    injection H1 as <-. destruct (is_none neg); [done|].
    apply changes_setattr; [done|by apply (bool_decide_unpack _)]. }
  set (r3 := if is_none em then _ else _) in H2.
  assert (changes derived r1 r3) as ->.
  { unfold r3. destruct (is_none em); [|done].
    apply changes_setattr; [done|by apply (bool_decide_unpack _)]. }
  destruct (is_none g2); [|by injection H2 as ->].
  apply res_bind_inv in H2 as (gd & _ & H2). injection H2 as <-.
  apply changes_setattr; [done|by apply (bool_decide_unpack _)].
Qed.

Lemma set_trace_changes setstate j r r' :
  set_trace setstate j r = Ok r' → changes derived r r'.
Proof.
  unfold set_trace. intros H. destruct (json_truthy j); [|by injection H as ->].
  apply res_bind_inv in H as (d & _ & H). injection H as <-.
  destruct (json_truthy _); [|done]. destruct (setstate d); [|done].
  apply changes_setattr; [done|by apply (bool_decide_unpack _)].
Qed.

(** ** The rebuilt request *)

Lemma dget_plain_scalars sf k :
  k ≠ "_trace_state" → startswith k extra_prefix = false →
  dget k (plain_scalars sf) = dget k sf.
Proof.
  intros Hk Hp. unfold plain_scalars. rewrite <-(dget_ddel_ne "_trace_state" k sf) by done.
  generalize (ddel "_trace_state" sf). intros l. induction l as [|[k1 v1] l IH]; [done|].
  rewrite (filter_cons _ (k1, v1) l). simpl. case_decide as E.
  - simpl. case_decide; [done|]. apply IH.
  - rewrite decide_False; [apply IH|]. intros ->. done.
Qed.

Lemma dkeys_plain_scalars sf : dkeys (plain_scalars sf) ⊆ dkeys sf.
Proof.
  intros k. unfold plain_scalars, dkeys. intros ([k1 v1] & -> & [_ H]%list_elem_of_filter)%list_elem_of_fmap.
  simpl. assert (k1 ∈ dkeys (ddel "_trace_state" sf)) as Hk
    by (apply list_elem_of_fmap; by exists (k1, v1)).
  rewrite dkeys_ddel in Hk. by apply list_elem_of_filter in Hk as [_ Hk].
Qed.

Lemma NoDup_plain_scalars sf : NoDup (dkeys sf) → NoDup (dkeys (plain_scalars sf)).
Proof.
  intros H%(NoDup_ddel "_trace_state"). unfold plain_scalars.
  revert H. generalize (ddel "_trace_state" sf). intros l. induction l as [|[k v] l IH]; [done|].
  intros [Hk Hl]%NoDup_cons. rewrite (filter_cons _ (k, v) l). case_decide; [|by apply IH].
  apply NoDup_cons. split; [|by apply IH]. intros Hin. apply Hk.
  apply list_elem_of_fmap in Hin as (p & -> & [_ Hp]%list_elem_of_filter).
  by apply list_elem_of_fmap_2.
Qed.

Section Rebuilt.
Context (new_sp : dict pyval) (setstate : dict Json → res pyval).

(** The attribute before anything arrives. *)
Definition fresh_attr (k : string) : option pyval :=
  if is_req_field k then dget k default_attrs else dget k new_sp.

Lemma build_Ok js tensors r k :
  build_disagg_req new_sp setstate js tensors = Ok r →
  NoDup (dkeys js) → NoDup (dkeys tensors) →
  "sampling_params" ∉ dkeys js → "sampling_params" ∉ dkeys tensors →
  k ∉ derived → k ≠ "extra" → k ≠ "_trace_state" → startswith k extra_prefix = false →
  (is_req_field k = true ∨ is_Some (dget k new_sp)) →
  home r k = match dget k tensors with
             | Some v => Some v
             | None => match dget k js with Some j => Some (PJson j) | None => fresh_attr k end
             end.
Proof.
  unfold build_disagg_req. intros H Hnj Hnt Hsj Hst Hd He Htr Hex Hhome.
  set (r0 := set_attr "extra" _ _) in H. set (sc := plain_values js) in H.
  apply res_bind_inv in H as (g & _ & (r1 & Ht%set_trace_changes & Hv%validate_changes)%res_bind_inv).
  assert (homed k r0 ∧ home r0 k = fresh_attr k) as [Hh0 E0].
  { unfold homed, home, fresh_attr, sp_getattr, r0, set_attr.
    cbn [attrs sampling_params]. split; [done|].
    destruct (is_req_field k); [|done]. by rewrite dget_dset_ne by done. }
  clearbody r0. assert (dkeys sc = dkeys (plain_scalars js)) as Ek.
  { unfold sc, plain_values, dkeys. by rewrite <-list_fmap_compose. }
  destruct (home_set_attrs sc r0 k) as [Hh1 E1];
    [rewrite Ek; intros ?%dkeys_plain_scalars; done|rewrite Ek; by apply NoDup_plain_scalars|done|].
  destruct (home_set_attrs tensors (set_attrs sc r0) k Hst Hnt Hh1) as [Hh2 E2].
  assert (changes derived (set_attrs tensors (set_attrs sc r0))
    (from_option (λ v, req_setattr "generator" v (set_attrs tensors (set_attrs sc r0)))
      (set_attrs tensors (set_attrs sc r0)) g)) as Hg.
  { destruct g; [|done]. apply changes_setattr; [done|by apply (bool_decide_unpack _)]. }
  rewrite <-Ht in Hv. rewrite <-Hg in Hv. destruct (Hv k Hd Hh2) as [_ ->].
  rewrite E2, E1, E0. destruct (dget k tensors); [done|]. unfold sc, plain_values.
  rewrite (dget_fmap PJson), dget_plain_scalars by done. by destruct (dget k js).
Qed.
End Rebuilt.

(** ** End to end *)

Lemma REQ_FIELDS_NoDup : NoDup (f_name <$> REQ_FIELDS).
Proof. apply (bool_decide_unpack _). vm_compute. exact I. Qed.

(** The value an attribute has before anything arrives. *)
Definition initial (f : FieldInfo) : option pyval :=
  match f_default f with Some d => Some (PJson d) | None => f_factory f end.

(** What arrives of the value [v] of a field [f]: the default in place of [None] and of
    a default, tensors as they are, anything else as its JSON form. *)
Definition arrives (tolist : tensor → Json) (f : FieldInfo) (v : pyval) (o : option pyval) : Prop :=
  if is_none v || is_default v f then o = initial f
  else if is_tensor_like v then o = Some v
  else ∃ j, json_of (to_json_serializable tolist v) = Ok j ∧ o = Some (PJson j).

Lemma initial_default f :
  f ∈ REQ_FIELDS → f_name f ≠ "sampling_params" → dget (f_name f) default_attrs = initial f.
Proof.
  assert (Forall (λ f, f_name f ≠ "sampling_params" → dget (f_name f) default_attrs = initial f)
    REQ_FIELDS) as H; [|rewrite Forall_forall in H; auto].
  unfold REQ_FIELDS at 1. apply Forall_cons. split; [done|].
  repeat (apply Forall_cons; split; [intros _; vm_compute; reflexivity|]). constructor.
Qed.

(** The names of the fields clash with no special key. *)
Definition plain_name (k : string) : bool :=
  bool_decide (k ≠ "seed") && bool_decide (k ≠ "_trace_state") &&
  negb (startswith k extra_prefix) && is_req_field k.

Lemma REQ_FIELDS_plain f :
  f ∈ REQ_FIELDS → f_name f ≠ "seed" ∧ f_name f ≠ "_trace_state" ∧
    startswith (f_name f) extra_prefix = false ∧ is_req_field (f_name f) = true.
Proof.
  intros Hf. assert (forallb (λ f, plain_name (f_name f)) REQ_FIELDS = true) as H
    by (vm_compute; reflexivity).
  rewrite forallb_forall in H. specialize (H f (proj1 (list_elem_of_In _ _) Hf)).
  unfold plain_name in H. by bool_to_prop.
Qed.

(** The key [sampling_params] never travels. *)
Lemma sampling_params_stays tolist base getstate r tf sf :
  extract_transfer_fields tolist base getstate r = Ok (tf, sf) →
  "sampling_params" ∉ param_names r →
  ("sampling_params" ∉ dkeys tf) ∧ ("sampling_params" ∉ dkeys sf).
Proof.
  intros He Hp. destruct (extract_Ok _ _ _ _ _ _ He) as (Etf & _ & _ & Hsf).
  destruct (extract_fold_in tolist r REQ_FIELDS ([], []) (by_default "sampling_params" JNull)
    REQ_FIELDS_NoDup) as [H1 H2]; [unfold REQ_FIELDS; by left|].
  cbn [f_name by_default] in H1, H2.
  destruct (Hsf "sampling_params") as [H3 _]; [done..|].
  split; apply dget_None; [by rewrite Etf, H1|by rewrite (H3 Hp), H2].
Qed.

(** ** The broadcast of tensor fields *)

Definition is_tensor (v : pyval) : bool := match v with PTensor _ => true | _ => false end.

(** What a rank other than 0 gets of a field. *)
Definition broadcast_value (v : pyval) : option pyval :=
  match v with
  | PTensor t => Some (PTensor t)
  | PList l => Some (PList (List.filter is_tensor l))
  | _ => None
  end.

(** The tensors of a list with their indices. *)
Fixpoint indexed (i : Z) (l : list pyval) : list (Z * pyval) :=
  match l with
  | [] => []
  | v :: l => if is_tensor v then (i, v) :: indexed (i + 1) l else indexed (i + 1) l
  end.

Lemma dumps_int_inj i j : dumps_int i = dumps_int j → i = j.
Proof. intros E. apply (f_equal (λ s, py_int (JStr s))) in E. rewrite !py_int_str in E. by simplify_eq. Qed.

Lemma dumps_int_not_marker i : dumps_int i ≠ LIST_MARKER_KEY.
Proof. intros E. apply (f_equal (λ s, py_int (JStr s))) in E. by rewrite py_int_str in E. Qed.

Lemma dset_new {V} k v (d : dict V) : dget k d = None → dset k v d = (d ++ [(k, v)])%list.
Proof.
  induction d as [|[k1 v1] d IH]; simpl; [done|]. case_decide; [done|]. intros. f_equal. auto.
Qed.

Lemma pack_list_indexed l : ∀ i sub,
  (∀ j, i ≤ j → dget (dumps_int j) sub = None) →
  pack_list i l sub = (sub ++ ((λ p, (dumps_int p.1, p.2)) <$> indexed i l))%list.
Proof.
  induction l as [|v l IH]; intros i sub Hsub; simpl; [by rewrite app_nil_r|].
  assert (∀ j, i + 1 ≤ j → dget (dumps_int j) sub = None) as Hs by (intros; apply Hsub; lia).
  destruct v; simpl; try by apply IH.
  rewrite IH.
  - rewrite dset_new by (apply Hsub; lia). by rewrite <-(assoc_L (++)).
  - intros j Hj. rewrite dget_dset_ne; [by apply Hs|]. intros E%dumps_int_inj. lia.
Qed.

Lemma indexed_ge l : ∀ i p, p ∈ indexed i l → i ≤ p.1.
Proof.
  induction l as [|v l IH]; intros i p; simpl; [by intros ?%elem_of_nil|].
  destruct (is_tensor v).
  - intros [->|Hp]%elem_of_cons; [done|]. specialize (IH _ _ Hp). lia.
  - intros Hp. specialize (IH _ _ Hp). lia.
Qed.

Lemma sort_indexed l : ∀ i, sort_by_index (indexed i l) = indexed i l.
Proof.
  induction l as [|v l IH]; intros i; simpl; [done|]. destruct (is_tensor v); [|apply IH].
  simpl. rewrite IH. destruct (indexed (i + 1) l) as [|p ps] eqn:E; [done|]. simpl.
  assert (i + 1 ≤ p.1) as Hp by (apply (indexed_ge l); rewrite E; left).
  by rewrite (proj2 (Z.leb_le _ _)) by lia.
Qed.

Lemma indexed_values l : ∀ i, snd <$> indexed i l = List.filter is_tensor l.
Proof.
  induction l as [|v l IH]; intros i; simpl; [done|]. destruct (is_tensor v); [|apply IH].
  rewrite fmap_cons. by rewrite IH.
Qed.

Lemma indexed_entry_dumps z v : indexed_entry (dumps_int z, v) = Ok (z, v).
Proof. unfold indexed_entry, fst, snd. by rewrite py_int_str. Qed.

Lemma unpack_packed_list l :
  unpack_value (PDict (pack_list 0 l [(LIST_MARKER_KEY, PJson (JBool true))])) =
    Ok (PList (List.filter is_tensor l)).
Proof.
  rewrite pack_list_indexed.
  2:{ intros j _. simpl. rewrite decide_False; [done|]. apply dumps_int_not_marker. }
  set (ps := _ <$> indexed 0 l). unfold unpack_value.
  rewrite (eq_refl : is_packed_list ([(LIST_MARKER_KEY, PJson (JBool true))] ++ ps)%list = true).
  rewrite filter_app, filter_cons_False, filter_nil by (by intros []). rewrite app_nil_l.
  unfold ps. clear ps.
  rewrite filter_all.
  2:{ apply Forall_forall. intros kv (p & -> & _)%list_elem_of_fmap. apply dumps_int_not_marker. }
  assert (∀ ps : list (Z * pyval),
    res_mapM indexed_entry ((λ p, (dumps_int p.1, p.2)) <$> ps) = Ok ps) as Hm.
  { induction ps as [|[z v] ps IH]; [done|]. rewrite fmap_cons. cbn [res_mapM fst snd].
    rewrite indexed_entry_dumps. simpl. by rewrite IH. }
  rewrite Hm. simpl. by rewrite sort_indexed, indexed_values.
Qed.

Lemma pack_fields_indexed fs : ∀ packed,
  NoDup (dkeys fs) → (∀ k, k ∈ dkeys fs → dget k packed = None) →
  unpack_tensor_fields_from_broadcast (pack_tensor_fields fs packed) =
    (a ← unpack_tensor_fields_from_broadcast packed;
     Ok (a ++ omap (λ kv, pair kv.1 <$> broadcast_value kv.2) fs)%list).
Proof.
  assert (∀ p1 p2, unpack_tensor_fields_from_broadcast (p1 ++ p2)%list =
    (a ← unpack_tensor_fields_from_broadcast p1; b ← unpack_tensor_fields_from_broadcast p2;
     Ok (a ++ b)%list)) as Happ.
  { induction p1 as [|[k v] p1 IH]; intros p2; simpl; [by destruct (unpack_tensor_fields_from_broadcast p2)|].
    destruct (unpack_value v); [|done]. simpl. rewrite IH.
    destruct (unpack_tensor_fields_from_broadcast p1); [|done]. simpl.
    by destruct (unpack_tensor_fields_from_broadcast p2). }
  induction fs as [|[key v] fs IH]; intros packed Hnd Hnew.
  { simpl. destruct (unpack_tensor_fields_from_broadcast packed); [|done]. simpl. by rewrite app_nil_r. }
  apply NoDup_cons in Hnd as [Hk Hnd].
  assert (dget key packed = None) as Hkey by (apply Hnew; left).
  assert (∀ w k, k ∈ dkeys fs → dget k (dset key w packed) = None) as Hstep.
  { intros w k Hin. rewrite dget_dset_ne; [|by intros ->]. apply Hnew. by right. }
  assert (∀ k, k ∈ dkeys fs → dget k packed = None) as Hrest by (intros; apply Hnew; by right).
  destruct v; simpl; rewrite IH by eauto;
    try (destruct (unpack_tensor_fields_from_broadcast packed); done);
    rewrite dset_new, Happ by done;
    destruct (unpack_tensor_fields_from_broadcast packed); try done; cbn [mbind res_bind].
  - simpl. by rewrite <-(assoc_L (++)).
  - cbn [unpack_tensor_fields_from_broadcast]. rewrite unpack_packed_list. simpl.
    by rewrite <-(assoc_L (++)).
Qed.
