(* ===== verification/FieldsProps.v ===== *)
(** * Properties of the request transfer

    Which attributes of a request survive the hop from one role to the next, and the
    broadcast of its tensors to the other ranks. *)

From S2P Require Import Prelude PyJson Codec PyValue Fields FieldsFacts.
Local Open Scope string_scope.
Local Open Scope Z_scope.

(** The value every transferred field of a request has on the next role: a field
    that is [None] or at its default arrives as the default, a tensor or a list of
    tensors arrives unchanged, and any other value arrives as its JSON form. *)
Theorem request_fields_survive tolist base getstate new_sp setstate r tf sf js r' f v :
  extract_transfer_fields tolist base getstate r = Ok (tf, sf) →
  json_of_dict sf = Ok js →
  build_disagg_req new_sp setstate js tf = Ok r' →
  "sampling_params" ∉ param_names r →
  f ∈ REQ_FIELDS → f_name f ∉ EXCLUDE_FIELDS → f_name f ∉ derived → f_name f ∉ param_names r →
  dget (f_name f) (attrs r) = Some v →
  arrives tolist f v (dget (f_name f) (attrs r')).
Proof.
  intros He Hj Hb Hsp Hf Hx Hd Hp Hv.
  destruct (sampling_params_stays _ _ _ _ _ _ He Hsp) as [Hs1 Hs2].
  destruct (json_of_dict_get _ _ Hj) as [Hk Hg].
  destruct (extract_Ok _ _ _ _ _ _ He) as (Etf & Hn1 & Hn2 & Hsf).
  destruct (REQ_FIELDS_plain f Hf) as (P1 & P2 & P3 & P4).
  destruct (extract_fold_in tolist r REQ_FIELDS ([], []) f REQ_FIELDS_NoDup Hf) as [H1 H2].
  assert (getattr_or_None r (f_name f) = v) as Ev.
  { unfold getattr_or_None, req_getattr. by rewrite Hv. }
  assert (skips r f = is_none v || is_default v f) as Esk.
  { unfold skips. rewrite Ev. by rewrite bool_decide_eq_false_2. }
  destruct (Hsf (f_name f) P1 P2 P3) as [Hscalar _]. specialize (Hscalar Hp).
  pose proof (build_Ok new_sp setstate js tf r' (f_name f) Hb) as B.
  unfold home, fresh_attr in B. rewrite P4 in B.
  rewrite B; [|by rewrite Hk|done|by rewrite Hk|done|done| |done|done|by left];
    [|intros E; apply Hx; rewrite E; by apply (bool_decide_unpack _)]. clear B.
  rewrite initial_default by (done || (intros E; apply Hx; rewrite E; by left)).
  rewrite Etf, H1. specialize (Hg (f_name f)). rewrite Hscalar, H2 in Hg.
  rewrite Ev, Esk in *. unfold arrives. destruct (is_none v || is_default v f).
  - rewrite decide_False in Hg by (by intros [? _]). rewrite decide_False by (by intros [? _]).
    simpl in *. by rewrite Hg.
  - destruct (is_tensor_like v).
    + by rewrite decide_True.
    + rewrite decide_True in Hg by done. rewrite decide_False by (by intros [_ ?]). simpl.
      destruct Hg as (j & Hj1 & ->). eauto.
Qed.

(** The value every sampling parameter has on the next role: its JSON form if it
    is neither [None] nor equal to the dataclass default, and what a fresh
    [SamplingParams()] has otherwise. *)
Theorem sampling_params_survive tolist base getstate new_sp setstate r tf sf js r' name v v0 :
  extract_transfer_fields tolist base getstate r = Ok (tf, sf) →
  json_of_dict sf = Ok js →
  build_disagg_req new_sp setstate js tf = Ok r' →
  NoDup (param_names r) → "sampling_params" ∉ param_names r →
  sp_getattr r name = Some v → dget name new_sp = Some v0 → is_req_field name = false →
  name ∉ derived → name ≠ "seed" → name ≠ "_trace_state" → startswith name extra_prefix = false →
  if sends_param base name v
  then ∃ j, json_of (to_json_serializable tolist v) = Ok j ∧ sp_getattr r' name = Some (PJson j)
  else sp_getattr r' name = Some v0.
Proof.
  intros He Hj Hb Hnd Hsp Hv Hv0 Hreq Hd N1 N2 N3.
  destruct (sampling_params_stays _ _ _ _ _ _ He Hsp) as [Hs1 Hs2].
  destruct (json_of_dict_get _ _ Hj) as [Hk Hg].
  destruct (extract_Ok _ _ _ _ _ _ He) as (Etf & Hn1 & Hn2 & Hsf).
  assert (name ∉ f_name <$> REQ_FIELDS) as Hout by (by apply bool_decide_eq_false_1 in Hreq).
  destruct (extract_fold_other tolist r REQ_FIELDS ([], []) name Hout) as [H1 H2].
  destruct (Hsf name N1 N2 N3) as [_ Hscalar]. specialize (Hscalar v Hnd Hv H2).
  pose proof (build_Ok new_sp setstate js tf r' name Hb) as B.
  unfold home, fresh_attr in B. rewrite Hreq in B.
  rewrite B; [|by rewrite Hk|done|by rewrite Hk|done|done| |done|done|right; by eexists];
    [|intros ->; by vm_compute in Hreq]. clear B.
  rewrite Etf, H1. simpl. specialize (Hg name). rewrite Hscalar in Hg.
  destruct (sends_param base name v); simpl in Hg.
  - destruct Hg as (j & Hj1 & ->). eauto.
  - by rewrite Hg.
Qed.

(** ** A concrete request *)

Module Hop.
Definition tolist (t : tensor) : Json := JList [].
Definition getstate (v : pyval) : option (res (dict pyval)) := None.
Definition setstate (d : dict Json) : res pyval := Raise ValueError.

(** A fresh [SamplingParams()], the attributes that matter here. *)
Definition new_params : dict pyval :=
  [("request_id", PNone); ("negative_prompt", PJson (JStr "Bright tones")); ("seed", PJson (JInt 42));
   ("guidance_scale", PJson (JInt 1)); ("guidance_scale_2", PNone); ("true_cfg_scale", PNone)].
Definition base : dict Json :=
  [("request_id", JNull); ("negative_prompt", JStr "Bright tones"); ("seed", JInt 42);
   ("guidance_scale", JInt 1); ("guidance_scale_2", JNull); ("true_cfg_scale", JNull)].

Definition latents : tensor := mk_tensor [2] uint8 "ab".

(** A model without a negative prompt. *)
Definition params : dict pyval :=
  [("request_id", PJson (JStr "r1")); ("negative_prompt", PNone); ("seed", PJson (JInt 42));
   ("guidance_scale", PJson (JInt 4)); ("guidance_scale_2", PNone); ("true_cfg_scale", PNone)].
Definition req : Req :=
  match validate (mk_req (dset "latents" (PTensor latents) (dset "n_tokens" (PJson (JInt 7))
                            default_attrs)) (PDict params)) with
  | Ok r => r
  | Raise _ => mk_req [] PNone
  end.

Definition sent : dict pyval * dict pyval :=
  match extract_transfer_fields tolist base getstate req with
  | Ok p => p
  | Raise _ => ([], [])
  end.
Definition scalars : dict Json :=
  match json_of_dict sent.2 with Ok js => js | Raise _ => [] end.
Definition rebuilt : Req :=
  match build_disagg_req new_params setstate scalars sent.1 with
  | Ok r => r
  | Raise _ => mk_req [] PNone
  end.
End Hop.

Lemma hop_extract :
  extract_transfer_fields Hop.tolist Hop.base Hop.getstate Hop.req = Ok (Hop.sent.1, Hop.sent.2).
Proof. vm_compute. reflexivity. Qed.

Lemma hop_json : json_of_dict Hop.sent.2 = Ok Hop.scalars.
Proof. vm_compute. reflexivity. Qed.

Lemma hop_build :
  build_disagg_req Hop.new_params Hop.setstate Hop.scalars Hop.sent.1 = Ok Hop.rebuilt.
Proof. vm_compute. reflexivity. Qed.

Lemma hop_names :
  param_names Hop.req =
    ["request_id"; "negative_prompt"; "seed"; "guidance_scale"; "guidance_scale_2"; "true_cfg_scale"].
Proof. vm_compute. reflexivity. Qed.

Lemma request_fields_survive_witness :
  dget "latents" (attrs Hop.rebuilt) = Some (PTensor Hop.latents).
Proof.
  pose (f := by_default "latents" JNull).
  assert (f ∈ REQ_FIELDS) as Hf by (unfold REQ_FIELDS; do 28 right; left).
  assert (f_name f ∉ EXCLUDE_FIELDS) as H1 by (by apply (bool_decide_unpack _)).
  assert (f_name f ∉ derived) as H2 by (by apply (bool_decide_unpack _)).
  assert (f_name f ∉ param_names Hop.req) as H3 by (rewrite hop_names; by apply (bool_decide_unpack _)).
  assert ("sampling_params" ∉ param_names Hop.req) as H4
    by (rewrite hop_names; by apply (bool_decide_unpack _)).
  assert (dget (f_name f) (attrs Hop.req) = Some (PTensor Hop.latents)) as H5
    by (vm_compute; reflexivity).
  exact (request_fields_survive _ _ _ _ _ _ _ _ _ _ f _ hop_extract hop_json hop_build H4 Hf H1 H2 H3 H5).
Defined.

Lemma sampling_params_survive_witness :
  sp_getattr Hop.rebuilt "guidance_scale" = Some (PJson (JInt 4)).
Proof.
  assert (NoDup (param_names Hop.req)) as H1 by (rewrite hop_names; by apply (bool_decide_unpack _)).
  assert ("sampling_params" ∉ param_names Hop.req) as H2
    by (rewrite hop_names; by apply (bool_decide_unpack _)).
  assert (sp_getattr Hop.req "guidance_scale" = Some (PJson (JInt 4))) as H3
    by (vm_compute; reflexivity).
  assert ("guidance_scale" ∉ derived) as H4 by (by apply (bool_decide_unpack _)).
  destruct (sampling_params_survive _ _ _ _ _ _ _ _ _ _ "guidance_scale" _ (PJson (JInt 1))
    hop_extract hop_json hop_build H1 H2 H3 eq_refl eq_refl H4) as (j & Hj & E);
    [done|done|reflexivity|].
  rewrite E. by injection Hj as <-.
Defined.

(** A sampling parameter set to [None] does not survive when its dataclass default
    is not [None]: the next role has the default. Here a request of a model without a
    negative prompt, not under classifier-free guidance, is rebuilt with the default
    negative prompt and with classifier-free guidance on. *)
Theorem none_prompt_enables_guidance :
  extract_transfer_fields Hop.tolist Hop.base Hop.getstate Hop.req = Ok Hop.sent ∧
  json_of_dict Hop.sent.2 = Ok Hop.scalars ∧
  build_disagg_req Hop.new_params Hop.setstate Hop.scalars Hop.sent.1 = Ok Hop.rebuilt ∧
  req_getattr Hop.req "negative_prompt" = Some PNone ∧
  req_getattr Hop.req "do_classifier_free_guidance" = Some (PJson (JBool false)) ∧
  req_getattr Hop.rebuilt "negative_prompt" = Some (PJson (JStr "Bright tones")) ∧
  req_getattr Hop.rebuilt "do_classifier_free_guidance" = Some (PJson (JBool true)).
Proof. vm_compute. split_and!; reflexivity. Qed.

(** What the other ranks of a role get of the tensor fields that rank 0
    broadcasts: tensors as they are, lists with their tensors in order. The unpacking is
    the inverse of the packing on lists of tensors only: a [None] in a list is dropped
    and what follows it moves up. *)
Theorem broadcast_roundtrip fs :
  NoDup (dkeys fs) →
  unpack_tensor_fields_from_broadcast (pack_tensor_fields_for_broadcast fs) =
    Ok (omap (λ kv, pair kv.1 <$> broadcast_value kv.2) fs).
Proof. intros Hnd. unfold pack_tensor_fields_for_broadcast. by rewrite pack_fields_indexed. Qed.

Lemma broadcast_roundtrip_witness :
  unpack_tensor_fields_from_broadcast (pack_tensor_fields_for_broadcast
    [("masks", PList [PNone; PTensor Hop.latents]); ("latents", PTensor Hop.latents)]) =
  Ok [("masks", PList [PTensor Hop.latents]); ("latents", PTensor Hop.latents)].
Proof.
  rewrite (broadcast_roundtrip [("masks", PList [PNone; PTensor Hop.latents]);
    ("latents", PTensor Hop.latents)]); [reflexivity|by apply (bool_decide_unpack _)].
Defined.
