(* ===== verification/Metrics.v ===== *)
(** * Metrics of a role

    Models [disaggregation/metrics.py]: the counters and latencies [DisaggMetrics]
    keeps for one role, and what [snapshot] reports. Instants and durations in seconds
    are rationals; each operation is given the clock reading it makes. *)

From Stdlib Require Import Sorting.Sorted Field.
From S2P Require Import Prelude.
Local Open Scope string_scope.
Local Open Scope Z_scope.

Definition qc (z : Z) : Qc := Qc_of_Z z.

Record DisaggMetrics := mk_metrics {
  m_role : string;
  m_start_time : Qc;
  m_completed : Z;
  m_failed : Z;
  m_timed_out : Z;
  m_in_flight : dict Qc;
  m_last_latency : Qc;
  m_max_latency : Qc;
  m_total_latency : Qc;
  m_completion_times : list Qc;
  m_queue_depth : Z;
}.

Definition throughput_window_s : Qc := qc 60.

Definition init_metrics (role : string) (now : Qc) : DisaggMetrics :=
  mk_metrics role now 0 0 0 [] 0 0 0 [] 0.

Definition record_request_start (now : Qc) (rid : string) (s : DisaggMetrics) : DisaggMetrics :=
  mk_metrics (m_role s) (m_start_time s) (m_completed s) (m_failed s) (m_timed_out s)
    (dset rid now (m_in_flight s)) (m_last_latency s) (m_max_latency s) (m_total_latency s)
    (m_completion_times s) (m_queue_depth s).

(** [max(a, b)] *)
Definition qc_max (a b : Qc) : Qc := if decide (a < b)%Qc then b else a.

(** [while times and times[0] < cutoff: times.pop(0)] *)
Fixpoint drop_older (cutoff : Qc) (times : list Qc) : list Qc :=
  match times with
  | [] => []
  | t :: times' => if decide (t < cutoff)%Qc then drop_older cutoff times' else times
  end.
Definition prune_completion_times (now : Qc) (times : list Qc) : list Qc :=
  drop_older (now - throughput_window_s)%Qc times.

Definition record_request_complete (now : Qc) (rid : string) (s : DisaggMetrics) : DisaggMetrics :=
  let timing := dget rid (m_in_flight s) in
  mk_metrics (m_role s) (m_start_time s) (m_completed s + 1) (m_failed s) (m_timed_out s)
    (ddel rid (m_in_flight s))
    (from_option (λ t0, now - t0)%Qc (m_last_latency s) timing)
    (from_option (λ t0, qc_max (m_max_latency s) (now - t0)%Qc) (m_max_latency s) timing)
    (from_option (λ t0, m_total_latency s + (now - t0))%Qc (m_total_latency s) timing)
    (prune_completion_times now (m_completion_times s ++ [now])%list) (m_queue_depth s).

Definition record_request_failed (rid : string) (s : DisaggMetrics) : DisaggMetrics :=
  mk_metrics (m_role s) (m_start_time s) (m_completed s) (m_failed s + 1) (m_timed_out s)
    (ddel rid (m_in_flight s)) (m_last_latency s) (m_max_latency s) (m_total_latency s)
    (m_completion_times s) (m_queue_depth s).

Definition record_request_timeout (rid : string) (s : DisaggMetrics) : DisaggMetrics :=
  mk_metrics (m_role s) (m_start_time s) (m_completed s) (m_failed s) (m_timed_out s + 1)
    (ddel rid (m_in_flight s)) (m_last_latency s) (m_max_latency s) (m_total_latency s)
    (m_completion_times s) (m_queue_depth s).

Definition update_queue_depth (depth : Z) (s : DisaggMetrics) : DisaggMetrics :=
  mk_metrics (m_role s) (m_start_time s) (m_completed s) (m_failed s) (m_timed_out s)
    (m_in_flight s) (m_last_latency s) (m_max_latency s) (m_total_latency s)
    (m_completion_times s) depth.

Definition set_completion_times (l : list Qc) (s : DisaggMetrics) : DisaggMetrics :=
  mk_metrics (m_role s) (m_start_time s) (m_completed s) (m_failed s) (m_timed_out s)
    (m_in_flight s) (m_last_latency s) (m_max_latency s) (m_total_latency s) l (m_queue_depth s).

Record RoleStats := mk_role_stats {
  rs_role : string;
  requests_completed : Z;
  requests_failed : Z;
  requests_in_flight : Z;
  requests_timed_out : Z;
  queue_depth : Z;
  last_latency_s : Qc;
  avg_latency_s : Qc;
  max_latency_s : Qc;
  throughput_rps : Qc;
  uptime_s : Qc;
}.

Definition metrics_snapshot (now : Qc) (s : DisaggMetrics) : RoleStats * DisaggMetrics :=
  let s := set_completion_times (prune_completion_times now (m_completion_times s)) s in
  let total := m_completed s + m_failed s in
  (mk_role_stats (m_role s) (m_completed s) (m_failed s) (length (m_in_flight s)) (m_timed_out s)
     (m_queue_depth s) (m_last_latency s)
     (if 0 <? total then m_total_latency s / qc total else 0)%Qc
     (m_max_latency s)
     (match m_completion_times s with
      | [] => 0
      | l => qc (length l) / throughput_window_s
      end)%Qc
     (now - m_start_time s)%Qc, s).

(** ** Histories *)

Inductive mevent :=
  | EStart (rid : string)
  | EComplete (rid : string)
  | EFailed (rid : string)
  | ETimeout (rid : string)
  | EDepth (n : Z).

Definition mstep (s : DisaggMetrics) (e : Qc * mevent) : DisaggMetrics :=
  match e.2 with
  | EStart rid => record_request_start e.1 rid s
  | EComplete rid => record_request_complete e.1 rid s
  | EFailed rid => record_request_failed rid s
  | ETimeout rid => record_request_timeout rid s
  | EDepth n => update_queue_depth n s
  end.
Definition mrun (evs : list (Qc * mevent)) (s : DisaggMetrics) : DisaggMetrics := foldl mstep s evs.

(** The instants at which requests completed. *)
Definition completions (evs : list (Qc * mevent)) : list Qc :=
  omap (λ e, match e.2 with EComplete _ => Some e.1 | _ => None end) evs.

(** A clock that does not run backwards. *)
Fixpoint monotone (t : Qc) (evs : list (Qc * mevent)) : Prop :=
  match evs with
  | [] => True
  | e :: evs => (t ≤ e.1)%Qc ∧ monotone e.1 evs
  end.

(** ** The window *)

Definition recent (cutoff : Qc) (t : Qc) : Prop := ¬ (t < cutoff)%Qc.
#[global] Instance recent_dec cutoff t : Decision (recent cutoff t) := _.

Lemma recent_weaken c c' t : (c ≤ c')%Qc → recent c' t → recent c t.
Proof.
  unfold recent. intros Hc Ht H. apply Ht. by eapply Qclt_le_trans.
Qed.

(** On a sorted list, dropping from the front is filtering. *)
Lemma drop_older_filter cutoff l :
  Sorted Qcle l → drop_older cutoff l = filter (recent cutoff) l.
Proof.
  intros Hs%Sorted_StronglySorted; [|intros a b c; apply Qcle_trans].
  induction Hs as [|t l Hs IH Hle]; [done|]. simpl. rewrite filter_cons.
  destruct (decide (t < cutoff)%Qc) as [Hlt|Hge].
  - rewrite decide_False by (unfold recent; tauto). exact IH.
  - rewrite decide_True by exact Hge. f_equal. symmetry. apply filter_all.
    eapply Forall_impl; [exact Hle|]. intros u Hu. simpl in Hu. unfold recent. intros H.
    apply Hge. by eapply Qcle_lt_trans.
Qed.

Lemma Sorted_filter_recent c l : Sorted Qcle l → Sorted Qcle (filter (recent c) l).
Proof.
  intros Hs%Sorted_StronglySorted; [|intros x y z; apply Qcle_trans].
  apply StronglySorted_Sorted. induction Hs as [|t l Hs IH Hle]; [constructor|].
  rewrite filter_cons. case_decide; [|done]. constructor; [done|].
  apply Forall_forall. intros u [_ Hu]%list_elem_of_filter. by rewrite Forall_forall in Hle; apply Hle.
Qed.

Lemma filter_recent_twice c c' (l : list Qc) :
  (c ≤ c')%Qc → filter (recent c') (filter (recent c) l) = filter (recent c') l.
Proof.
  intros Hc. rewrite list_filter_filter_l; [done|]. intros t Ht. by eapply recent_weaken.
Qed.

Lemma window_mono t t' : (t ≤ t')%Qc → (t - throughput_window_s ≤ t' - throughput_window_s)%Qc.
Proof. intros. unfold Qcminus. by apply Qcplus_le_compat; [|apply Qcle_refl]. Qed.

(** ** Histories and their counts *)

Definition clock_end (t : Qc) (evs : list (Qc * mevent)) : Qc := foldl (λ _ e, e.1) t evs.

Definition count_events (f : mevent → bool) (evs : list (Qc * mevent)) : Z :=
  length (List.filter (λ e, f e.2) evs).
Definition is_failed (e : mevent) : bool := match e with EFailed _ => true | _ => false end.
Definition is_timeout (e : mevent) : bool := match e with ETimeout _ => true | _ => false end.

(** The state after the completions [cs], with the clock at [t]. *)
Record metrics_ok (cs : list Qc) (t : Qc) (s : DisaggMetrics) : Prop := {
  mo_sorted : Sorted Qcle cs;
  mo_past : Forall (λ c, c ≤ t)%Qc cs;
  mo_completed : m_completed s = length cs;
  mo_window : ∃ c, (c ≤ t - throughput_window_s)%Qc ∧
    m_completion_times s = filter (recent c) cs;
  mo_max : (0 ≤ m_max_latency s)%Qc;
  mo_latency : (m_total_latency s ≤ m_max_latency s * qc (m_completed s))%Qc;
}.

Lemma qc_succ z : qc (z + 1) = (qc z + 1)%Qc.
Proof. unfold qc. by rewrite Z2Qc_inj_add. Qed.

Lemma qc_nonneg z : 0 ≤ z → (0 ≤ qc z)%Qc.
Proof. intros H. exact (proj1 (Z2Qc_inj_le 0 z) H). Qed.
Lemma qc_pos z : 0 < z → (0 < qc z)%Qc.
Proof. intros H. exact (proj1 (Z2Qc_inj_lt 0 z) H). Qed.

Lemma qc_max_l a b : (a ≤ qc_max a b)%Qc.
Proof. unfold qc_max. case_decide; [by apply Qclt_le_weak|apply Qcle_refl]. Qed.
Lemma qc_max_r a b : (b ≤ qc_max a b)%Qc.
Proof. unfold qc_max. case_decide as H; [apply Qcle_refl|by apply Qcnot_lt_le]. Qed.

Lemma Sorted_snoc_le cs t : Sorted Qcle cs → Forall (λ c, c ≤ t)%Qc cs → Sorted Qcle (cs ++ [t])%list.
Proof.
  induction 1 as [|c cs Hs IH Hh]; intros Hall; simpl; [by repeat constructor|].
  apply Forall_cons in Hall as [Hc Hall]. constructor; [by apply IH|].
  destruct Hh; simpl; by constructor.
Qed.

Lemma metrics_ok_later cs t t' s : (t ≤ t')%Qc → metrics_ok cs t s → metrics_ok cs t' s.
Proof.
  intros Ht [H1 H2 H3 (c & Hc & H4) Hm H5]. split; try done.
  - eapply Forall_impl; [exact H2|]. intros c' Hc'. simpl in *. by eapply Qcle_trans.
  - exists c. split; [|done]. eapply Qcle_trans; [exact Hc|by apply window_mono].
Qed.

Lemma complete_ok cs t rid s :
  metrics_ok cs t s → metrics_ok (cs ++ [t])%list t (record_request_complete t rid s).
Proof.
  intros [H1 H2 H3 (c & Hc & H4) Hm H5]. split; simpl.
  - by apply Sorted_snoc_le.
  - apply Forall_app. split; [done|]. by repeat constructor; apply Qcle_refl.
  - rewrite length_app, H3. simpl. lia.
  - exists (t - throughput_window_s)%Qc. split; [apply Qcle_refl|]. unfold prune_completion_times.
    assert (recent c t) as Hrec.
    { unfold recent. apply Qcle_not_lt. eapply Qcle_trans; [exact Hc|].
      unfold Qcminus. rewrite <-(Qcplus_0_r t) at 2. apply Qcplus_le_compat; [apply Qcle_refl|done]. }
    assert (m_completion_times s ++ [t] = filter (recent c) (cs ++ [t]))%list as ->.
    { by rewrite filter_app, filter_cons_True, H4. }
    rewrite drop_older_filter; [by apply filter_recent_twice|].
    by apply Sorted_filter_recent, Sorted_snoc_le.
  - destruct (dget rid (m_in_flight s)); [|done]. eapply Qcle_trans; [exact Hm|apply qc_max_l].
  - rewrite qc_succ. destruct (dget rid (m_in_flight s)) as [t0|]; simpl.
    + rewrite Qcmult_plus_distr_r, Qcmult_1_r. apply Qcplus_le_compat; [|apply qc_max_r].
      eapply Qcle_trans; [exact H5|]. apply Qcmult_le_compat_r; [apply qc_max_l|].
      apply qc_nonneg. lia.
    + rewrite Qcmult_plus_distr_r, Qcmult_1_r, <-(Qcplus_0_r (m_total_latency s)).
      by apply Qcplus_le_compat.
Qed.

Lemma mstep_ok cs t s e :
  metrics_ok cs t s → (t ≤ e.1)%Qc →
  metrics_ok (cs ++ completions [e])%list e.1 (mstep s e).
Proof.
  intros Hok Ht. apply (metrics_ok_later _ _ e.1) in Hok; [|exact Ht]. destruct e as [t' [rid|rid|rid|rid|n]];
    unfold mstep, completions; simpl in *; rewrite ?app_nil_r; [|by apply complete_ok| | |];
    destruct Hok as [H1 H2 H3 H4 H5 H6]; by split.
Qed.

Lemma mrun_ok evs : ∀ cs t s,
  metrics_ok cs t s → monotone t evs →
  metrics_ok (cs ++ completions evs)%list (clock_end t evs) (mrun evs s).
Proof.
  induction evs as [|e evs IH]; intros cs t s Hok Hm; [by rewrite app_nil_r|].
  destruct Hm as [Ht Hm].
  assert (completions (e :: evs) = completions [e] ++ completions evs)%list as ->
    by (unfold completions; destruct e as [? []]; done).
  rewrite (assoc_L (++)). apply (IH _ e.1); [|done]. by apply (mstep_ok cs t).
Qed.

Lemma mrun_counts evs : ∀ s,
  m_failed (mrun evs s) = m_failed s + count_events is_failed evs ∧
  m_timed_out (mrun evs s) = m_timed_out s + count_events is_timeout evs.
Proof.
  unfold count_events. induction evs as [|[t e] evs IH]; intros s; [split; simpl; lia|].
  simpl. destruct (IH (mstep s (t, e))) as [-> ->]. destruct e; simpl; lia.
Qed.

Lemma init_metrics_ok role t : metrics_ok [] t (init_metrics role t).
Proof.
  split; simpl; [constructor|constructor|done| | |].
  - exists (t - throughput_window_s)%Qc. by split; [apply Qcle_refl|].
  - apply Qcle_refl.
  - apply Qcle_refl.
Qed.

(** What a snapshot reports after any history of a role, under a clock that does
    not run backwards: the counters are the numbers of completed, failed and timed-out
    requests, the throughput counts exactly the completions of the last 60 seconds,
    and the latencies add up to no more than the largest one per completed request. *)
Theorem metrics_report role t0 evs now :
  monotone t0 evs → (clock_end t0 evs ≤ now)%Qc →
  let s := mrun evs (init_metrics role t0) in
  let '(st, s') := metrics_snapshot now s in
  requests_completed st = length (completions evs) ∧
  requests_failed st = count_events is_failed evs ∧
  requests_timed_out st = count_events is_timeout evs ∧
  m_completion_times s' = filter (recent (now - throughput_window_s)) (completions evs) ∧
  throughput_rps st =
    (qc (length (filter (recent (now - throughput_window_s)) (completions evs))) /
       throughput_window_s)%Qc ∧
  (m_total_latency s ≤ max_latency_s st * qc (requests_completed st))%Qc.
Proof.
  intros Hm Hnow s. simpl.
  destruct (mrun_ok evs [] t0 _ (init_metrics_ok role t0) Hm) as [H1 H2 H3 (c & Hc & H4) _ H6].
  fold s in H3, H4, H6. simpl in H1, H4.
  destruct (mrun_counts evs (init_metrics role t0)) as [H7 H8]. fold s in H7, H8.
  assert (prune_completion_times now (m_completion_times s) =
    filter (recent (now - throughput_window_s)) (completions evs)) as E.
  { unfold prune_completion_times. rewrite H4, drop_older_filter by by apply Sorted_filter_recent.
    apply filter_recent_twice. eapply Qcle_trans; [exact Hc|by apply window_mono]. }
  rewrite E. split_and!; try done.
  clear E. destruct (filter (recent (now - throughput_window_s)) (completions evs)) as [|t l];
    [by apply Qc_is_canon|reflexivity].
Qed.

Module History.
Definition evs : list (Qc * mevent) :=
  [(qc 1, EStart "a"); (qc 5, EComplete "a"); (qc 6, EStart "b"); (qc 70, EComplete "b");
   (qc 71, EFailed "c")].
End History.

Lemma metrics_report_witness :
  let s := mrun History.evs (init_metrics "encoder" (qc 0)) in
  requests_completed (metrics_snapshot (qc 80) s).1 = 2 ∧
  m_completion_times (metrics_snapshot (qc 80) s).2 =
    filter (recent (qc 80 - throughput_window_s)) [qc 5; qc 70].
Proof.
  destruct (metrics_report "encoder" (qc 0) History.evs (qc 80)) as (H1 & _ & _ & H2 & _).
  - repeat (split; [vm_compute; discriminate|]). exact I.
  - vm_compute. discriminate.
  - split; [exact H1|exact H2].
Defined.

(** The reported average latency divides by failed requests too, which add no
    latency: recording a failure strictly lowers a positive average. *)
Theorem failure_lowers_average now rid s :
  0 < m_completed s + m_failed s → (0 < m_total_latency s)%Qc →
  (avg_latency_s (metrics_snapshot now (record_request_failed rid s)).1 <
   avg_latency_s (metrics_snapshot now s).1)%Qc.
Proof.
  intros Hn Ha. simpl. set (n := m_completed s + m_failed s) in *.
  replace (m_completed s + (m_failed s + 1)) with (n + 1) by lia.
  rewrite (proj2 (Z.ltb_lt 0 n)), (proj2 (Z.ltb_lt 0 (n + 1))) by lia.
  pose proof (qc_pos n Hn) as Hq. assert (0 < qc (n + 1))%Qc as Hq1 by (apply qc_pos; lia).
  set (a := m_total_latency s) in *. apply Qcnot_le_lt. intros Hle.
  apply (Qcmult_le_compat_r _ _ (qc n * qc (n + 1))%Qc) in Hle;
    [|apply Qclt_le_weak; rewrite <-(Qcmult_0_l (qc (n + 1))); by apply Qcmult_lt_compat_r].
  assert (a / qc n * (qc n * qc (n + 1)) = a * qc n + a)%Qc as E1
    by (rewrite qc_succ; field; by apply Qclt_not_eq, not_eq_sym in Hq).
  assert (a / qc (n + 1) * (qc n * qc (n + 1)) = a * qc n)%Qc as E2
    by (field; by apply Qclt_not_eq, not_eq_sym in Hq1).
  rewrite E1, E2 in Hle. apply (Qcle_not_lt _ _ Hle).
  rewrite <-(Qcplus_0_r (a * qc n)) at 1. by apply Qcplus_lt_mono_l.
Qed.

Lemma failure_lowers_average_witness :
  let s := mrun History.evs (init_metrics "encoder" (qc 0)) in
  (avg_latency_s (metrics_snapshot (qc 80) (record_request_failed "d" s)).1 <
   avg_latency_s (metrics_snapshot (qc 80) s).1)%Qc.
Proof.
  apply (failure_lowers_average (qc 80) "d"); [vm_compute; reflexivity|vm_compute; reflexivity].
Defined.
