(* ===== verification/Worker.v ===== *)
(** * The role workers

    Models the rank-0 side of [disaggregation/scheduler_mixin.py]
    ([SchedulerDisaggMixin]): set-up with its preallocated receive slots, the transfer
    message handlers, the compute steps of the three roles, the RDMA push thread, the
    receive-prefetch thread and the event loops with their error counting; of the other
    ranks the loop of a receiver.

    A step of a thread is one computation on the worker's state; the threads share the
    transfer manager, whose operations are atomic under its lock, and the two queues.
    [queue.put] on a full queue waits, so a step that enqueues happens when there is
    room. The model forward pass, unpickling, the per-request scheduler set-up and the
    transfer engine are parameters. *)

From S2P Require Import Prelude PyJson Roles Codec PyValue Fields Protocol Metrics.
From S2P Require Import Buddy Buffer Manager.
Local Open Scope string_scope.
Local Open Scope Z_scope.

(** An entry of [_rdma_push_queue]. *)
Record PushItem := mk_push {
  pi_request_id : string;
  pi_dest_session_id : string;
  pi_dest_addr : Z;
  pi_transfer_size : Z;
}.

(** An entry of [_compute_ready_queue]. *)
Inductive ReadyItem :=
  | TransferCompute (r : Req) (rid : string) (prealloc_slot_id : Json)
  | TransferControl (frames : list string).

(** What rank 0 broadcasts to the other ranks. *)
Inductive Broadcast :=
  | BSkip
  | BCompute
  | BReq (scalars : dict pyval) (packed : dict pyval).

Record Worker := mk_worker {
  w_role : RoleType;
  w_multi_rank : bool;
  w_manager : option TransferManager;
  w_preallocated_slots : gmap Z SlotHandle;
  w_metrics : option DisaggMetrics;
  w_push_queue : option (list PushItem);
  w_ready_queue : list ReadyItem;
  w_outbox : list (list string);
  w_broadcasts : list Broadcast;
  w_error_count : Z;
}.

Definition set_manager (x : option TransferManager) (s : Worker) : Worker :=
  mk_worker (w_role s) (w_multi_rank s) x (w_preallocated_slots s) (w_metrics s)
    (w_push_queue s) (w_ready_queue s) (w_outbox s) (w_broadcasts s) (w_error_count s).
Definition set_metrics (f : DisaggMetrics → DisaggMetrics) (s : Worker) : Worker :=
  mk_worker (w_role s) (w_multi_rank s) (w_manager s) (w_preallocated_slots s)
    (f <$> w_metrics s) (w_push_queue s) (w_ready_queue s) (w_outbox s) (w_broadcasts s)
    (w_error_count s).
Definition set_push_queue (f : list PushItem → list PushItem) (s : Worker) : Worker :=
  mk_worker (w_role s) (w_multi_rank s) (w_manager s) (w_preallocated_slots s) (w_metrics s)
    (f <$> w_push_queue s) (w_ready_queue s) (w_outbox s) (w_broadcasts s) (w_error_count s).
Definition set_ready_queue (f : list ReadyItem → list ReadyItem) (s : Worker) : Worker :=
  mk_worker (w_role s) (w_multi_rank s) (w_manager s) (w_preallocated_slots s) (w_metrics s)
    (w_push_queue s) (f (w_ready_queue s)) (w_outbox s) (w_broadcasts s) (w_error_count s).
Definition set_outbox (f : list (list string) → list (list string)) (s : Worker) : Worker :=
  mk_worker (w_role s) (w_multi_rank s) (w_manager s) (w_preallocated_slots s) (w_metrics s)
    (w_push_queue s) (w_ready_queue s) (f (w_outbox s)) (w_broadcasts s) (w_error_count s).
Definition set_broadcasts (f : list Broadcast → list Broadcast) (s : Worker) : Worker :=
  mk_worker (w_role s) (w_multi_rank s) (w_manager s) (w_preallocated_slots s) (w_metrics s)
    (w_push_queue s) (w_ready_queue s) (w_outbox s) (f (w_broadcasts s)) (w_error_count s).
Definition set_error_count (f : Z → Z) (s : Worker) : Worker :=
  mk_worker (w_role s) (w_multi_rank s) (w_manager s) (w_preallocated_slots s) (w_metrics s)
    (w_push_queue s) (w_ready_queue s) (w_outbox s) (w_broadcasts s) (f (w_error_count s)).

(** [execute_forward(..., return_req=True)]: the request, or an object with an [error]
    ([str(error)]). *)
Inductive Forwarded :=
  | ForwardReq (r : Req)
  | ForwardError (error : string).

(** The attributes of the decoder's [OutputBatch] that are read. *)
Record DecoderOutput := mk_decoder_output {
  out_output : pyval;
  out_audio : pyval;
  out_audio_sample_rate : Json;
  out_error : Json;
}.

Record WEnv := mk_wenv {
  now : Qc;
  cuda : bool;
  transfer_sync : TransferOp → Z;
  session_id : string;
  tolist : tensor → Json;
  base_sp_defaults : dict Json;
  trace_getstate : pyval → option (res (dict pyval));
  new_sampling_params : dict pyval;
  trace_setstate : dict Json → res pyval;
  pickle_reqs : string → res (list Req);
  init_request_scheduler : Req → res Req;
  forward : list Req → res Forwarded;
  decode_forward : Req → res DecoderOutput;
}.

(** ** Primitive accesses *)

(** [self._transfer_manager.op(...)]: [None] has no methods. *)
Definition on_manager {A} (m : M TransferManager A) : M Worker A :=
  λ s, match w_manager s with
       | Some g => let r := m g in (r.1, set_manager (Some r.2) s)
       | None => (Raise AttributeError, s)
       end.

(** [self._pool_result_push.send_multipart(frames)] *)
Definition send (frames : list string) : M Worker unit :=
  modify (set_outbox (λ o, o ++ [frames])%list).
Definition send_msg (msg : dict Json) : M Worker unit := send (encode_transfer_msg msg).
(** [send_tensors(self._pool_result_push, ...)] *)
Definition send_tensors (fs : dict field) (scalars : dict Json) : M Worker unit :=
  frames ← lift_res (send_tensors_frames fs scalars); send frames.

Definition broadcast (b : Broadcast) : M Worker unit :=
  modify (set_broadcasts (λ l, l ++ [b])%list).

(** [d.get(k, {})] of a decoded message, used as a dictionary. *)
Definition get_dict (d : dict Json) (k : string) : res (dict Json) :=
  match dget k d with None => Ok [] | Some j => as_dict j end.

(** [k in self._preallocated_slots], with the slot. *)
Definition prealloc_slot (j : Json) (slots : gmap Z SlotHandle) : res (option SlotHandle) :=
  match j with
  | JNull => Ok None
  | JList _ | JObj _ => Raise TypeError
  | _ => Ok (json_num j ≫= λ i, slots !! i)
  end.

Definition slot_offset_of (st : StagedTransfer) : Z := from_option slot_offset 0 (st_slot st).
Definition slot_size_of (st : StagedTransfer) : Z := from_option slot_size 0 (st_slot st).

Section Worker.
Context (env : WEnv).

Definition metrics_start (rid : string) : M Worker unit :=
  modify (set_metrics (record_request_start (now env) rid)).
Definition metrics_complete (rid : string) : M Worker unit :=
  modify (set_metrics (record_request_complete (now env) rid)).
Definition metrics_failed (rid : string) : M Worker unit :=
  modify (set_metrics (record_request_failed rid)).

Definition extract (r : Req) : M Worker (dict pyval * dict pyval) :=
  lift_res (extract_transfer_fields (tolist env) (base_sp_defaults env) (trace_getstate env) r).
Definition build (sf : dict Json) (tensors : dict pyval) : M Worker Req :=
  lift_res (build_disagg_req (new_sampling_params env) (trace_setstate env) sf tensors).

(** ** Encoder *)

Definition encoder_transfer_stage (rid : string) (tf sf : dict pyval) : M Worker unit :=
  r ← on_manager (stage_tensors_async (cuda env) rid ((λ kv, (kv.1, field_of kv.2)) <$> tf) sf);
  match r.1 with
  | None =>
      send_tensors [] [("request_id", JStr rid); ("_disagg_error", JStr "Transfer staging failed")]
        ≫= λ _, metrics_failed rid
  | Some st =>
      ptr ← on_manager (gets (λ g, pool_data_ptr (buffer g)));
      scalars ← lift_res (json_of_dict (st_scalar_fields st));
      send_msg [("msg_type", JStr "transfer_staged"); ("request_id", JStr rid);
                ("data_size", JInt (slot_size_of st)); ("manifest", JObj (st_manifest st));
                ("session_id", JStr (session_id env)); ("pool_ptr", JInt ptr);
                ("slot_offset", JInt (slot_offset_of st)); ("scalar_fields", JObj scalars)]
  end.

Definition request_id_of (r : Req) : res string :=
  match req_getattr r "request_id" with
  | None => Ok "unknown"
  | Some (PJson (JStr s)) => Ok s
  | Some _ => Raise TypeError
  end.

Definition encoder_step (frames : list string) : M Worker unit :=
  match last frames with
  | None => raise IndexError
  | Some pickled =>
      reqs ← lift_res (pickle_reqs env pickled);
      match reqs with
      | [] => raise IndexError
      | req :: _ =>
          rid ← lift_res (request_id_of req);
          metrics_start rid ≫= λ _,
          result ← lift_res (forward env reqs);
          match result with
          | ForwardError e =>
              send_tensors [] [("request_id", JStr rid); ("_disagg_error", JStr e)] ≫= λ _,
              metrics_failed rid
          | ForwardReq r =>
              p ← extract r;
              g ← gets w_manager;
              match g with
              | Some _ => encoder_transfer_stage rid p.1 p.2
              | None => send_tensors [] [("request_id", JStr rid);
                                         ("_disagg_error", JStr "No transfer manager")]
              end ≫= λ _,
              metrics_complete rid
          end
      end
  end.

(** ** Denoiser and decoder *)

Definition denoiser_compute (r : Req) (rid : string) : M Worker unit :=
  result ← lift_res (forward env [r]);
  match result with
  | ForwardError e =>
      send_msg (TransferDoneMsg rid (Some e)) ≫= λ _, metrics_failed rid
  | ForwardReq r' =>
      p ← extract r';
      st ← on_manager (stage_tensors_async (cuda env) rid
             ((λ kv, (kv.1, field_of kv.2)) <$> p.1) p.2);
      match st.1 with
      | None =>
          send_msg (TransferDoneMsg rid (Some "Failed to stage denoiser output for decoder"))
            ≫= λ _, metrics_failed rid
      | Some st =>
          ptr ← on_manager (gets (λ g, pool_data_ptr (buffer g)));
          scalars ← lift_res (json_of_dict (st_scalar_fields st));
          send_msg [("msg_type", JStr "transfer_done"); ("request_id", JStr rid);
                    ("staged_for_decoder", JBool true); ("session_id", JStr (session_id env));
                    ("pool_ptr", JInt ptr); ("slot_offset", JInt (slot_offset_of st));
                    ("data_size", JInt (slot_size_of st)); ("manifest", JObj (st_manifest st));
                    ("scalar_fields", JObj scalars)] ≫= λ _,
          metrics_complete rid
      end
  end.

(** [f"{v}"] of the error a request carries. *)
Context (format_error : pyval → string).

Definition decoder_compute (r : Req) (rid : string) : M Worker unit :=
  let disagg_error := getattr_or_None r "_disagg_error" in
  if py_truthy disagg_error then
    send_tensors [] [("request_id", JStr rid);
                     ("error", JStr ("Upstream error: " +:+ format_error disagg_error))]
  else
    let r := req_setattr "save_output" (PJson (JBool false)) r in
    let r := req_setattr "return_file_paths_only" (PJson (JBool false)) r in
    out ← lift_res (decode_forward env r);
    let tensors :=
      ((if is_none (out_output out) then [] else [("output", field_of (out_output out))]) ++
       (if is_none (out_audio out) then [] else [("audio", field_of (out_audio out))]))%list in
    let scalars :=
      ([("request_id", JStr rid)] ++
       (if json_is_null (out_audio_sample_rate out) then []
        else [("audio_sample_rate", out_audio_sample_rate out)]) ++
       (if json_is_null (out_error out) then [] else [("error", out_error out)]))%list in
    send_tensors tensors scalars ≫= λ _,
    (if json_truthy (out_error out) then metrics_failed rid else metrics_complete rid).

Definition role_compute (r : Req) (rid : string) : M Worker unit :=
  role ← gets w_role;
  match role with
  | DENOISER => denoiser_compute r rid
  | DECODER => decoder_compute r rid
  | _ => mret tt
  end.

Definition init_disagg_request_scheduler (r : Req) : M Worker Req :=
  role ← gets w_role;
  match role with
  | DENOISER => lift_res (init_request_scheduler env r)
  | _ => mret r
  end.

(** ** Transfer messages *)

Definition handle_transfer_alloc (msg : dict Json) : M Worker unit :=
  rid ← lift_res (req_str msg "request_id");
  size ← lift_res (get_int msg "data_size" 0);
  pending ← on_manager (allocate_receive_slot rid size);
  match pending with
  | None => mret tt
  | Some p =>
      ptr ← on_manager (gets (λ g, pool_data_ptr (buffer g)));
      send_msg (TransferAllocatedMsg rid (session_id env) ptr (slot_offset (pr_slot p))
                  (slot_size (pr_slot p)))
  end.

(** Pushing and reporting, on the push thread or, without one, on the main thread. *)
Definition push_and_report (rid dest : string) (addr size : Z) : M Worker unit :=
  success ← on_manager (push_to_peer (transfer_sync env) rid dest addr size);
  when success (on_manager (free_staged rid)) ≫= λ _,
  send_msg (TransferPushedMsg rid).

Definition handle_transfer_push (msg : dict Json) : M Worker unit :=
  rid ← lift_res (req_str msg "request_id");
  dest ← lift_res (get_str msg "dest_session_id" "");
  addr ← lift_res (get_int msg "dest_addr" 0);
  size ← lift_res (get_int msg "transfer_size" 0);
  q ← gets w_push_queue;
  match q with
  | Some _ => modify (set_push_queue (λ l, l ++ [mk_push rid dest addr size])%list)
  | None => push_and_report rid dest addr size
  end.

(** Registering the preallocated slot a message names, and loading its tensors. *)
Definition load_request (msg : dict Json) : M Worker (Req * string * Json) :=
  rid ← lift_res (req_str msg "request_id");
  manifest ← lift_res (get_dict msg "manifest");
  scalars ← lift_res (get_dict msg "scalar_fields");
  metrics_start rid ≫= λ _,
  let slot_id := get_json scalars "_prealloc_slot_id" in
  slots ← gets w_preallocated_slots;
  slot ← lift_res (prealloc_slot slot_id slots);
  match slot with
  | Some h => on_manager (register_prealloc_as_receive rid h) ≫= λ _, mret tt
  | None => mret tt
  end ≫= λ _,
  tensors ← on_manager (load_tensors_async (cuda env) rid manifest);
  r ← build (ddel "_prealloc_slot_id" scalars) ((λ kv, (kv.1, val_of_field kv.2)) <$> tensors.1);
  mret (r, rid, slot_id).

(** After the load: a preallocated slot stays allocated. *)
Definition release_receive (rid : string) (slot_id : Json) : M Worker unit :=
  if json_is_null slot_id then on_manager (free_receive_slot rid)
  else on_manager (modify (set_pending_receives (ddel rid))).

(** The rank-0 half of [_broadcast_req_to_all_ranks]. *)
Definition broadcast_req (r : Req) : M Worker unit :=
  multi ← gets w_multi_rank;
  when multi (p ← extract r; broadcast (BReq p.2 (pack_tensor_fields_for_broadcast p.1))).

Definition handle_transfer_ready (msg : dict Json) : M Worker unit :=
  x ← load_request msg;
  let '(r, rid, slot_id) := x in
  r ← init_disagg_request_scheduler r;
  release_receive rid slot_id ≫= λ _,
  broadcast_req r ≫= λ _,
  role_compute r rid.

Definition handle_transfer_msg (frames : list string) : M Worker unit :=
  j ← lift_res (decode_transfer_msg frames);
  msg ← lift_res (as_dict j);
  let msg_type := get_json msg "msg_type" in
  if json_is_str msg_type TransferMsgType.ALLOC then handle_transfer_alloc msg
  else if json_is_str msg_type TransferMsgType.PUSH then handle_transfer_push msg
  else if json_is_str msg_type TransferMsgType.READY then handle_transfer_ready msg
  else mret tt.

(** ** Threads *)

(** One item of [_rdma_push_loop]; an exception is logged. *)
Definition rdma_push_step : M Worker unit :=
  q ← gets w_push_queue;
  match q with
  | Some (i :: _) =>
      modify (set_push_queue tail) ≫= λ _,
      try_except (push_and_report (pi_request_id i) (pi_dest_session_id i) (pi_dest_addr i)
                    (pi_transfer_size i)) (λ _, true) (λ _, mret tt)
  | _ => mret tt
  end.

(** One message of [_recv_prefetch_loop]; an exception is logged. *)
Definition recv_prefetch_step (frames : list string) : M Worker unit :=
  try_except
    (j ← lift_res (decode_transfer_msg frames);
     msg ← lift_res (as_dict j);
     let msg_type := get_json msg "msg_type" in
     if json_is_str msg_type TransferMsgType.READY then
       x ← load_request msg;
       let '(r, rid, slot_id) := x in
       modify (set_ready_queue (λ l, l ++ [TransferCompute r rid slot_id])%list)
     else if json_is_str msg_type TransferMsgType.PUSH then handle_transfer_push msg
     else modify (set_ready_queue (λ l, l ++ [TransferControl frames])%list))
    (λ _, true) (λ _, mret tt).

(** The body of [_disagg_prefetch_event_loop] on an item of the ready queue. *)
Definition prefetch_body (i : ReadyItem) : M Worker unit :=
  multi ← gets w_multi_rank;
  match i with
  | TransferCompute r rid slot_id =>
      release_receive rid slot_id ≫= λ _,
      when multi (broadcast BCompute) ≫= λ _,
      broadcast_req r ≫= λ _,
      r ← init_disagg_request_scheduler r;
      role_compute r rid
  | TransferControl frames =>
      when multi (broadcast BSkip) ≫= λ _,
      handle_transfer_msg frames
  end.

(** The body of [_disagg_event_loop] on received frames (the encoder's loop). *)
Definition encoder_body (frames : list string) : M Worker unit :=
  if is_transfer_message frames then handle_transfer_msg frames
  else
    role ← gets w_role;
    match role with
    | ENCODER => encoder_step frames
    | _ => mret tt
    end.

(** *** The event loops *)

(** One pass of a loop: [body] says whether it gets to the reset of the error count; one
    that raises adds to the count, and the loop ends with [RuntimeError] when the count
    reaches [_max_consecutive_errors]. *)
Definition guarded {A} (max_errors : Z) (body : A → M Worker bool) (x : A) : M Worker unit :=
  try_except (reset ← body x; when reset (modify (set_error_count (λ _, 0)))) (λ _, true)
    (λ _, modify (set_error_count (λ n, n + 1)) ≫= λ _,
          n ← gets w_error_count;
          if max_errors <=? n then raise RuntimeError else mret tt).

Definition event_loop {A} (max_errors : Z) (body : A → M Worker bool) (xs : list A) :
    M Worker unit := for_each xs (guarded max_errors body).

(** [_disagg_event_loop]: what each pass receives, which may fail, is handled, and the count
    reset. *)
Definition main_pass (received : res (list string)) : M Worker bool :=
  frames ← lift_res received;
  encoder_body frames ≫= λ _,
  mret true.
Definition disagg_event_loop (max_errors : Z) (inputs : list (res (list string))) : M Worker unit :=
  event_loop max_errors main_pass inputs.

(** [_disagg_prefetch_event_loop]: the queue may be empty ([continue], no reset). *)
Definition prefetch_pass (i : option ReadyItem) : M Worker bool :=
  match i with
  | None => multi ← gets w_multi_rank; when multi (broadcast BSkip) ≫= λ _, mret false
  | Some i => prefetch_body i ≫= λ _, mret true
  end.
Definition prefetch_event_loop (max_errors : Z) (items : list (option ReadyItem)) : M Worker unit :=
  event_loop max_errors prefetch_pass items.

(** What another rank receives from rank 0; after [("compute",)] the request comes, or its
    broadcast fails. *)
Inductive RankMessage :=
  | RShutdown
  | RCompute (req : res Req)
  | RSkip.

Definition compute_non_rank0 (r : Req) : M Worker unit :=
  role ← gets w_role;
  match role with
  | DENOISER =>
      r ← init_disagg_request_scheduler r;
      _ ← lift_res (forward env [r]);
      mret tt
  | DECODER =>
      let r := req_setattr "save_output" (PJson (JBool false)) r in
      let r := req_setattr "return_file_paths_only" (PJson (JBool false)) r in
      _ ← lift_res (decode_forward env r);
      mret tt
  | _ => mret tt
  end.

(** [_disagg_non_rank0_event_loop]: nothing resets the count. *)
Definition non_rank0_pass (received : res RankMessage) : M Worker bool :=
  msg ← lift_res received;
  match msg with
  | RCompute req => r ← lift_res req; compute_non_rank0 r ≫= λ _, mret false
  | _ => mret false
  end.
Fixpoint non_rank0_event_loop (max_errors : Z) (received : list (res RankMessage)) : M Worker unit :=
  match received with
  | [] | Ok RShutdown :: _ => mret tt
  | m :: received => guarded max_errors non_rank0_pass m ≫= λ _, non_rank0_event_loop max_errors received
  end.
End Worker.

(** ** Set-up *)

Definition prealloc_typical_size : Z := 64 * 1024 * 1024.

Definition prealloc_name (i : nat) : string := "prealloc_" +:+ dumps_int i.

(** The loop over [range(capacity)], from [i]: the slots and their descriptions. *)
Fixpoint preallocate (n i : nat) : M TransferTensorBuffer (list (Z * SlotHandle)) :=
  match n with
  | O => mret []
  | S n =>
      slot ← buffer_allocate prealloc_typical_size (prealloc_name i);
      rest ← preallocate n (S i);
      mret (match slot with Some h => (Z.of_nat i, h) :: rest | None => rest end)
  end.

Definition slot_description (ptr : Z) (p : Z * SlotHandle) : dict Json :=
  prealloc_slot_info (slot_offset p.2) (slot_size p.2) p.1 (ptr + slot_offset p.2).

Definition is_receiver (role : RoleType) : bool :=
  match role with DENOISER | DECODER => true | _ => false end.
Definition is_sender (role : RoleType) : bool :=
  match role with ENCODER | DENOISER => true | _ => false end.

(** [_init_disagg_state] and [_init_disagg_transfer_manager] on rank 0. *)
Definition init_worker (role : RoleType) (multi_rank : bool) (pool_size_arg ptr : Z)
    (fill : nat → byte) (session work_endpoint : string) (capacity : Z) (t : Qc) : res Worker :=
  b ← init_buffer pool_size_arg (2 ^ 20) (role_value role) ptr fill;
  let '(r, b') := (if is_receiver role then preallocate (Z.to_nat capacity) 0 else mret []) b in
  slots ← r;
  Ok (mk_worker role multi_rank (Some (init_manager b')) (list_to_map slots)
        (Some (init_metrics (role_value role) t))
        (if is_sender role then Some [] else None) []
        [encode_transfer_msg (TransferRegisterMsg (role_value role) session (pool_data_ptr b')
           (Buddy.pool_size (allocator b')) work_endpoint
           (slot_description (pool_data_ptr b') <$> slots))]
        [] 0).
