(* ===== verification/WorkerProps.v ===== *)
(** * Properties of the role workers

    Replies, the life of receive and staged slots, the error counting of the loops and
    the set-up. *)

From S2P Require Import Prelude PyJson Roles Codec PyValue Fields Protocol Metrics.
From S2P Require Import Buddy BuddyFacts BuddyOps Buffer BufferFacts Manager ManagerProps.
From S2P Require Import ManagerProps FieldsProps Worker.
Local Open Scope string_scope.
Local Open Scope Z_scope.

(** ** A concrete worker *)

Module Shop.
Definition forward_ok (l : list Req) : res Forwarded :=
  match l with r :: _ => Ok (ForwardReq r) | [] => Raise IndexError end.
Definition decode (r : Req) : res DecoderOutput :=
  Ok (mk_decoder_output (PTensor Hop.latents) PNone JNull JNull).
Definition show (v : pyval) : string := "error".

(** [code] is what the engine returns, [reqs] what a payload unpickles to. *)
Definition env (code : Z) (reqs : list Req) : WEnv :=
  mk_wenv 0 false (λ _, code) "session" Hop.tolist Hop.base Hop.getstate Hop.new_params
    Hop.setstate (λ _, Ok reqs) (λ r, Ok r) forward_ok decode.

Definition worker (role : RoleType) (g : TransferManager) : Worker :=
  mk_worker role false (Some g) ∅ (Some (init_metrics "role" 0)) (Some []) [] [] [] 0.

Definition slot : SlotHandle := mk_slot "r1" 0 1024.
Definition receiving : TransferManager :=
  set_pending_receives (dset "r1" (mk_pending "r1" slot)) (DataPlane.mk_instance 0).
Definition holding : TransferManager :=
  set_staged (dset "r1" (mk_staged "r1" (Some slot) [] [])) (DataPlane.mk_instance 0).
Definition full : TransferManager :=
  set_buffer (buffer_allocate 4096 "x" (buffer (DataPlane.mk_instance 0))).2
    (DataPlane.mk_instance 0).

Definition ready : dict Json :=
  [("request_id", JStr "r1"); ("manifest", JObj []); ("scalar_fields", JObj [])].

(** A request with an attribute JSON cannot express. *)
Definition odd_req : Req := set_attr "rollout_trajectory_data" (PObject "data") Hop.req.
End Shop.

(** ** Replies *)

(** The frames answer request [rid]. *)
Definition reply_for (rid : string) (f : list string) : Prop :=
  (∃ msg, f = encode_transfer_msg msg ∧ dget "request_id" msg = Some (JStr rid)) ∨
  (∃ fs sc, send_tensors_frames fs sc = Ok f ∧ dget "request_id" sc = Some (JStr rid)).

(** The code sends nothing. *)
Abbreviation quiet m := (steps (frames w_outbox) m).

(** The code sends one reply to [rid] if it returns, and nothing if it raises. *)
Definition answers (rid : string) (m : M Worker unit) : Prop :=
  ∀ s, match m s with
       | (Ok _, s') => ∃ f, reply_for rid f ∧ w_outbox s' = (w_outbox s ++ [f])%list
       | (Raise _, s') => w_outbox s' = w_outbox s
       end.

Lemma answers_after {A} rid (m : M Worker A) k :
  quiet m → (∀ a, answers rid (k a)) → answers rid (m ≫= k).
Proof.
  intros Hm Hk s. unfold mbind, M_bind. specialize (Hm s). unfold frames in Hm.
  destruct (m s) as [[a|e] s']; simpl in Hm; [|done]. specialize (Hk a s').
  rewrite Hm. by destruct (k a s') as [[]].
Qed.

(** Bookkeeping after a reply. *)
Lemma answers_then rid (m : M Worker unit) f :
  answers rid m → (∀ s, w_outbox (f s) = w_outbox s) → answers rid (m ≫= λ _, modify f).
Proof.
  intros Hm Hf s. unfold mbind, M_bind. specialize (Hm s).
  destruct (m s) as [[a|e] s']; [|done]. simpl. by rewrite Hf.
Qed.

Lemma answers_raise rid e : answers rid (raise e).
Proof. by intros s. Qed.

Lemma answers_msg rid msg : dget "request_id" msg = Some (JStr rid) → answers rid (send_msg msg).
Proof. intros H s. simpl. eexists. split; [|done]. left. eauto. Qed.

Lemma answers_tensors rid fs sc :
  dget "request_id" sc = Some (JStr rid) → answers rid (send_tensors fs sc).
Proof.
  intros H s. unfold send_tensors, mbind, M_bind, lift_res.
  destruct (send_tensors_frames fs sc) as [f|] eqn:E; [|done]. simpl. exists f.
  split; [|done]. right. eauto.
Qed.

Lemma quiet_manager {A} (m : M TransferManager A) : quiet (on_manager m).
Proof. intros s. unfold on_manager, frames. by destruct (w_manager s). Qed.

Lemma role_manager {A} (m : M TransferManager A) : steps (frames w_role) (on_manager m).
Proof. intros s. unfold on_manager, frames. by destruct (w_manager s). Qed.

Lemma quiet_modify f : (∀ s, w_outbox (f s) = w_outbox s) → quiet (modify f).
Proof. intros H s. unfold frames. simpl. by rewrite H. Qed.

#[export] Hint Resolve quiet_manager : steps.

(** Discharges [quiet] goals for code made of reads, manager calls and bookkeeping. *)
Ltac quiet_auto :=
  step_auto; first [apply _ | by apply quiet_modify | apply quiet_manager | idtac].

Section Replies.
Context (env : WEnv) (format_error : pyval → string).

Lemma encoder_transfer_stage_answers rid tf sf :
  answers rid (encoder_transfer_stage env rid tf sf).
Proof.
  unfold encoder_transfer_stage. apply answers_after; [quiet_auto|]. intros r.
  destruct r.1 as [st|].
  - apply answers_after; [quiet_auto|intros ptr]. apply answers_after; [quiet_auto|intros js].
    by apply answers_msg.
  - apply answers_then; [|done]. by apply answers_tensors.
Qed.

Lemma denoiser_compute_answers r rid : answers rid (denoiser_compute env r rid).
Proof.
  unfold denoiser_compute. apply answers_after; [quiet_auto|]. intros [r'|e].
  - apply answers_after; [quiet_auto|intros p]. apply answers_after; [quiet_auto|intros st].
    destruct st.1 as [st'|].
    + apply answers_after; [quiet_auto|intros ptr]. apply answers_after; [quiet_auto|intros js].
      apply answers_then; [|done]. by apply answers_msg.
    + apply answers_then; [|done]. by apply answers_msg.
  - apply answers_then; [|done]. by apply answers_msg.
Qed.

Lemma decoder_compute_answers r rid : answers rid (decoder_compute env format_error r rid).
Proof.
  unfold decoder_compute. destruct (py_truthy _); [by apply answers_tensors|].
  apply answers_after; [quiet_auto|intros out].
  destruct (json_truthy (out_error out)); apply answers_then; try done; by apply answers_tensors.
Qed.

Lemma load_request_quiet msg : quiet (load_request env msg).
Proof. unfold load_request, metrics_start, build. quiet_auto. Qed.

Lemma load_request_role msg : steps (frames w_role) (load_request env msg).
Proof.
  unfold load_request, metrics_start, build.
  step_auto; first [apply _ | apply role_manager | by intros ?].
Qed.

Lemma load_request_rid msg s r rid slot s' :
  load_request env msg s = (Ok (r, rid, slot), s') → req_str msg "request_id" = Ok rid.
Proof.
  unfold load_request. intros (rid0 & s1 & H1 & H)%bind_inv.
  unfold lift_res in H1. injection H1 as H1 <-. rewrite H1. f_equal.
  repeat (apply bind_inv in H as (? & ? & _ & H)). by injection H.
Qed.

(** Between the load and the compute nothing is sent and the role stays. *)
Lemma release_quiet rid slot : steps (frames (λ s, (w_outbox s, w_role s))) (release_receive rid slot).
Proof.
  unfold release_receive. destruct (json_is_null slot); intros s;
    unfold on_manager, frames; by destruct (w_manager s).
Qed.

Lemma broadcast_quiet r : steps (frames (λ s, (w_outbox s, w_role s))) (broadcast_req env r).
Proof. unfold broadcast_req, extract. step_auto; first [apply _|by intros s]. Qed.

Lemma init_scheduler_quiet r :
  steps (frames (λ s, (w_outbox s, w_role s))) (init_disagg_request_scheduler env r).
Proof. unfold init_disagg_request_scheduler. step_auto; apply _. Qed.

(** The reply of a handler run in a state with the role of a receiver. *)
Definition answers_in (s : Worker) (rid : string) (m : M Worker unit) : Prop :=
  match m s with
  | (Ok _, s') => ∃ f, reply_for rid f ∧ w_outbox s' = (w_outbox s ++ [f])%list
  | (Raise _, s') => w_outbox s' = w_outbox s
  end.

Lemma answers_in_after {A} s rid (m : M Worker A) k :
  is_receiver (w_role s) = true → steps (frames (λ s, (w_outbox s, w_role s))) m →
  (∀ a s', m s = (Ok a, s') → is_receiver (w_role s') = true → answers_in s' rid (k a)) →
  answers_in s rid (m ≫= k).
Proof.
  intros Hr Hm Hk. unfold answers_in, mbind, M_bind. specialize (Hm s). unfold frames in Hm.
  destruct (m s) as [[a|e] s']; simpl in Hm; injection Hm as Ho Hrole; [|done].
  specialize (Hk a s' eq_refl). rewrite <-Hrole in Hk. specialize (Hk Hr).
  unfold answers_in in Hk. rewrite Ho. by destruct (k a s') as [[]].
Qed.

Lemma role_compute_answers s r rid :
  is_receiver (w_role s) = true → answers_in s rid (role_compute env format_error r rid).
Proof.
  intros Hr. unfold answers_in, role_compute, mbind, M_bind, gets. destruct (w_role s); try done.
  - apply denoiser_compute_answers.
  - apply decoder_compute_answers.
Qed.

Lemma handle_ready_answers s msg rid :
  is_receiver (w_role s) = true → req_str msg "request_id" = Ok rid →
  answers_in s rid (handle_transfer_ready env format_error msg).
Proof.
  intros Hr Hrid. apply answers_in_after; [done| |].
  { intros s0. pose proof (load_request_quiet msg s0) as H1.
    pose proof (load_request_role msg s0) as H2. unfold frames in *. congruence. }
  intros [[r rid'] slot] s1 H1 Hr1. apply load_request_rid in H1. assert (rid' = rid) as -> by congruence.
  apply answers_in_after; [done|apply init_scheduler_quiet|intros r1 s2 _ Hr2].
  apply answers_in_after; [done|apply release_quiet|intros _ s3 _ Hr3].
  apply answers_in_after; [done|apply broadcast_quiet|intros _ s4 _ Hr4].
  by apply role_compute_answers.
Qed.

Lemma prefetch_compute_answers s r rid slot :
  is_receiver (w_role s) = true →
  answers_in s rid (prefetch_body env format_error (TransferCompute r rid slot)).
Proof.
  intros Hr. apply answers_in_after; [done|intros s0; done|intros multi s0 _ Hr0].
  apply answers_in_after; [done|apply release_quiet|intros _ s1 _ Hr1].
  apply answers_in_after; [done|by destruct multi; intros s'|intros _ s2 _ Hr2].
  apply answers_in_after; [done|apply broadcast_quiet|intros _ s3 _ Hr3].
  apply answers_in_after; [done|apply init_scheduler_quiet|intros r1 s4 _ Hr4].
  by apply role_compute_answers.
Qed.

Lemma encoder_step_answers frames s :
  match encoder_step env frames s with
  | (Ok _, s') => ∃ rid f, reply_for rid f ∧ w_outbox s' = (w_outbox s ++ [f])%list
  | (Raise _, s') => w_outbox s' = w_outbox s
  end.
Proof.
  unfold encoder_step. destruct (last frames) as [pk|]; [|done].
  unfold mbind at 1, M_bind at 1, lift_res at 1. destruct (pickle_reqs env pk) as [[|r rs]|]; [done| |done].
  unfold mbind at 1, M_bind at 1, lift_res at 1. destruct (request_id_of r) as [rid|]; [|done].
  assert (∀ m, answers rid m → match m s with
    | (Ok _, s') => ∃ rid f, reply_for rid f ∧ w_outbox s' = (w_outbox s ++ [f])%list
    | (Raise _, s') => w_outbox s' = w_outbox s end) as Hgo.
  { intros m Hm. specialize (Hm s). destruct (m s) as [[]]; naive_solver. }
  apply Hgo. apply answers_after; [by apply quiet_modify|intros _].
  apply answers_after; [quiet_auto|intros [r'|e]].
  - apply answers_after; [quiet_auto|intros p]. apply answers_after; [quiet_auto|intros g].
    apply answers_then; [|done]. destruct g; [apply encoder_transfer_stage_answers|].
    by apply answers_tensors.
  - apply answers_then; [|done]. by apply answers_tensors.
Qed.
End Replies.

(** Every work item a worker takes is answered once: an encoder step that returns
    sends one message, and a receiver that handles [transfer_ready], on either path,
    sends one message for that request; a step that raises sends none, and leaves the
    request to the server's timeout. *)
Theorem one_reply_per_step env format_error s :
  (∀ frames,
     match encoder_step env frames s with
     | (Ok _, s') => ∃ rid f, reply_for rid f ∧ w_outbox s' = (w_outbox s ++ [f])%list
     | (Raise _, s') => w_outbox s' = w_outbox s
     end) ∧
  (∀ msg rid, is_receiver (w_role s) = true → req_str msg "request_id" = Ok rid →
     match handle_transfer_ready env format_error msg s with
     | (Ok _, s') => ∃ f, reply_for rid f ∧ w_outbox s' = (w_outbox s ++ [f])%list
     | (Raise _, s') => w_outbox s' = w_outbox s
     end) ∧
  (∀ r rid slot, is_receiver (w_role s) = true →
     match prefetch_body env format_error (TransferCompute r rid slot) s with
     | (Ok _, s') => ∃ f, reply_for rid f ∧ w_outbox s' = (w_outbox s ++ [f])%list
     | (Raise _, s') => w_outbox s' = w_outbox s
     end).
Proof.
  split_and!; [intros fr; apply encoder_step_answers|intros msg rid; apply handle_ready_answers|].
  intros r rid slot. apply prefetch_compute_answers.
Qed.

Lemma one_reply_per_step_witness :
  match handle_transfer_ready (Shop.env 0 []) Shop.show Shop.ready
          (Shop.worker DECODER Shop.receiving) with
  | (Ok _, s') => ∃ f, reply_for "r1" f ∧ w_outbox s' = [f]
  | (Raise _, s') => w_outbox s' = []
  end.
Proof.
  destruct (one_reply_per_step (Shop.env 0 []) Shop.show (Shop.worker DECODER Shop.receiving))
    as (_ & H & _).
  exact (H Shop.ready "r1" eq_refl eq_refl).
Defined.

(** ** Staged slots *)

Lemma on_manager_Ok {A} (m : M TransferManager A) s g a g' :
  w_manager s = Some g → m g = (Ok a, g') → on_manager m s = (Ok a, set_manager (Some g') s).
Proof. intros Hs Hm. unfold on_manager. by rewrite Hs, Hm. Qed.

Lemma on_buffer_Ok {A} (m : M TransferTensorBuffer A) g b a b' :
  buffer g = b → m b = (Ok a, b') → on_buffer m g = (Ok a, set_buffer b' g).
Proof. intros <- Hm. unfold on_buffer. by rewrite Hm. Qed.

Lemma free_staged_spec rid g st h :
  buffer_ok (buffer g) → dget rid (staged g) = Some st → st_slot st = Some h →
  ∃ g', free_staged rid g = (Ok tt, g') ∧ buffer_ok (buffer g') ∧
    staged g' = ddel rid (staged g) ∧ pending_receives g' = pending_receives g ∧
    transfers g' = transfers g ∧
    live (allocator (buffer g')) = delete (slot_offset h) (live (allocator (buffer g))).
Proof.
  intros Hb Hst Hh. unfold free_staged. erewrite bind_Ok by reflexivity.
  erewrite bind_Ok by reflexivity. rewrite Hst. simpl. rewrite Hh.
  destruct (buffer_free_spec h (buffer g) Hb) as (r & b' & E & Hb' & _ & _ & Hl).
  erewrite bind_Ok by (by apply (on_buffer_Ok _ _ (buffer g))).
  eexists. split; [reflexivity|]. done.
Qed.

(** A push of staged tensors is reported as done whether or not it succeeded. The
    push thread asks the engine for one transfer of the staged slot; when it succeeds
    the slot is freed and the staged record removed; when it fails both stay as they
    are, and nothing will free them. The server gets the same [transfer_pushed] message
    in both cases. *)
Theorem push_always_reported env s g i q st h :
  w_manager s = Some g → w_push_queue s = Some (i :: q) → buffer_ok (buffer g) →
  dget (pi_request_id i) (staged g) = Some st → st_slot st = Some h →
  let rid := pi_request_id i in
  let op := mk_transfer (pi_dest_session_id i) (pool_data_ptr (buffer g) + slot_offset h)
              (pi_dest_addr i) (pi_transfer_size i) in
  ∃ s' g', rdma_push_step env s = (Ok tt, s') ∧ w_manager s' = Some g' ∧
    w_push_queue s' = Some q ∧ transfers g' = (transfers g ++ [op])%list ∧
    w_outbox s' = (w_outbox s ++ [encode_transfer_msg (TransferPushedMsg rid)])%list ∧
    if transfer_sync env op =? 0 then
      staged g' = ddel rid (staged g) ∧
      live (allocator (buffer g')) = delete (slot_offset h) (live (allocator (buffer g)))
    else staged g' = staged g ∧ buffer g' = buffer g.
Proof.
  intros Hg Hq Hb Hst Hh rid op. unfold rdma_push_step.
  erewrite bind_Ok by reflexivity. rewrite Hq. erewrite bind_Ok by reflexivity. fold rid in Hst.
  set (s1 := set_push_queue tail s). assert (w_manager s1 = Some g) as Hg1 by done.
  assert (push_to_peer (transfer_sync env) rid (pi_dest_session_id i) (pi_dest_addr i)
    (pi_transfer_size i) g = (Ok (transfer_sync env op =? 0), log_transfer op g)) as Hpush.
  { unfold push_to_peer. erewrite bind_Ok by reflexivity. rewrite Hst, Hh.
    by erewrite bind_Ok by reflexivity. }
  unfold try_except, push_and_report. fold rid.
  erewrite bind_Ok by (apply (on_manager_Ok _ _ g); [done|exact Hpush]).
  set (s2 := set_manager _ s1). assert (w_manager s2 = Some (log_transfer op g)) as Hg2 by done.
  assert (w_push_queue s2 = Some q ∧ w_outbox s2 = w_outbox s) as [Hq2 Ho2].
  { split; [|done]. simpl. by rewrite Hq. }
  destruct (transfer_sync env op =? 0) eqn:Ecode.
  - destruct (free_staged_spec rid (log_transfer op g) st h Hb Hst Hh)
      as (g' & E & _ & Hs' & _ & Ht & Hl).
    erewrite bind_Ok by (apply (on_manager_Ok _ _ (log_transfer op g)); [done|exact E]).
    eexists _, g'.
    split; [reflexivity|]. split_and!; [done|exact Hq2|done|reflexivity|done|done].
  - erewrite bind_Ok by reflexivity. eexists _, (log_transfer op g).
    split; [reflexivity|]. split_and!; [exact Hg2|exact Hq2|done|reflexivity|done|done].
Qed.

Lemma push_always_reported_witness :
  ∃ s', rdma_push_step (Shop.env 1 [])
          (set_push_queue (λ _, [mk_push "r1" "peer" 5000 1024]) (Shop.worker DENOISER Shop.holding))
          = (Ok tt, s') ∧
    w_outbox s' = [encode_transfer_msg (TransferPushedMsg "r1")] ∧
    (staged <$> w_manager s') = Some (staged Shop.holding).
Proof.
  destruct (push_always_reported (Shop.env 1 [])
    (set_push_queue (λ _, [mk_push "r1" "peer" 5000 1024]) (Shop.worker DENOISER Shop.holding))
    Shop.holding (mk_push "r1" "peer" 5000 1024) [] (mk_staged "r1" (Some Shop.slot) [] []) Shop.slot)
    as (s' & g' & H1 & H2 & _ & _ & H3 & H4);
    [reflexivity|reflexivity|apply DataPlane.instance_ok|reflexivity|reflexivity|].
  exists s'. split_and!; [exact H1|exact H3|]. rewrite H2. simpl. f_equal. apply H4.
Defined.

(** ** Receive slots *)

Lemma on_manager_inv {A} (m : M TransferManager A) s g a s' :
  w_manager s = Some g → on_manager m s = (Ok a, s') →
  ∃ g', m g = (Ok a, g') ∧ s' = set_manager (Some g') s.
Proof.
  intros Hs. unfold on_manager. rewrite Hs. destruct (m g) as [r g'] eqn:E. simpl.
  intros H. injection H as -> <-. eauto.
Qed.

(** Loading changes no buffer; the request has a slot to receive in, its preallocated
    one if the message names one. *)
Lemma load_request_spec env msg s g r rid slot s1 :
  w_manager s = Some g → load_request env msg s = (Ok (r, rid, slot), s1) →
  ∃ g1 sc p, w_manager s1 = Some g1 ∧ get_dict msg "scalar_fields" = Ok sc ∧
    slot = get_json sc "_prealloc_slot_id" ∧ buffer g1 = buffer g ∧
    dget rid (pending_receives g1) = Some p ∧
    (json_is_null slot = true → pending_receives g1 = pending_receives g).
Proof.
  intros Hg. unfold load_request. intros (rid0 & s0 & H0 & H)%bind_inv.
  injection H0 as _ <-. apply bind_inv in H as (man & s0 & H0 & H). injection H0 as _ <-.
  apply bind_inv in H as (sc & s0 & H0 & H). injection H0 as Hsc <-.
  apply bind_inv in H as ([] & s0 & H0 & H). injection H0 as <-.
  set (s2 := set_metrics _ s) in H. assert (w_manager s2 = Some g) as Hg2 by done.
  apply bind_inv in H as (slots & s0 & H0 & H). injection H0 as Hslots <-.
  apply bind_inv in H as (o & s0 & H0 & H). injection H0 as Ho <-.
  apply bind_inv in H as ([] & s3 & H3 & H).
  assert (∃ g3, w_manager s3 = Some g3 ∧ buffer g3 = buffer g ∧
    (o = None → pending_receives g3 = pending_receives g)) as (g3 & Hg3 & Eb & Ep).
  { destruct o as [h|]; [|injection H3 as <-; eauto].
    apply bind_inv in H3 as (p & s4 & H3 & H4). injection H4 as <-.
    destruct (on_manager_inv _ _ _ _ _ Hg2 H3) as (g' & E & ->). injection E as _ <-. by eexists. }
  apply bind_inv in H as (tensors & s4 & H4 & H).
  destruct (on_manager_inv _ _ _ _ _ Hg3 H4) as (g4 & E4 & ->).
  apply bind_inv in H as (r' & s5 & H5 & H). injection H5 as _ <-.
  injection H as -> -> <- <-.
  unfold load_tensors_async in E4. apply bind_inv in E4 as (fs & g5 & E5 & E4).
  injection E4 as _ <-. unfold load_tensors in E5. apply bind_inv in E5 as (g6 & g7 & E6 & E5).
  injection E6 as <- <-. destruct (dget rid (pending_receives g3)) as [p|] eqn:Hp; [|done].
  unfold on_buffer in E5. injection E5 as _ <-.
  exists (set_buffer (buffer g3) g3), sc, p. split_and!; try done.
  intros Hnull. simpl. apply Ep. destruct (get_json sc "_prealloc_slot_id"); by simplify_eq/=.
Qed.

Lemma free_receive_spec rid g p :
  buffer_ok (buffer g) → dget rid (pending_receives g) = Some p →
  ∃ g', free_receive_slot rid g = (Ok tt, g') ∧ buffer_ok (buffer g') ∧
    pending_receives g' = ddel rid (pending_receives g) ∧ staged g' = staged g ∧
    live (allocator (buffer g')) = delete (slot_offset (pr_slot p)) (live (allocator (buffer g))).
Proof.
  intros Hb Hp. unfold free_receive_slot. erewrite bind_Ok by reflexivity.
  erewrite bind_Ok by reflexivity. rewrite Hp.
  destruct (buffer_free_spec (pr_slot p) (buffer g) Hb) as (r & b' & E & Hb' & _ & _ & Hl).
  erewrite bind_Ok by (by apply (on_buffer_Ok _ _ (buffer g))).
  eexists. split; [reflexivity|]. done.
Qed.

(** The release after a load. *)
Lemma release_spec rid slot s g p :
  w_manager s = Some g → buffer_ok (buffer g) → dget rid (pending_receives g) = Some p →
  ∃ s' g', release_receive rid slot s = (Ok tt, s') ∧ w_manager s' = Some g' ∧
    w_role s' = w_role s ∧ buffer_ok (buffer g') ∧ pending_receives g' = ddel rid (pending_receives g) ∧
    live (allocator (buffer g')) =
      (if json_is_null slot then delete (slot_offset (pr_slot p)) (live (allocator (buffer g)))
       else live (allocator (buffer g))).
Proof.
  intros Hg Hb Hp. unfold release_receive. destruct (json_is_null slot).
  - destruct (free_receive_spec rid g p Hb Hp) as (g' & E & H1 & H2 & _ & H3).
    eexists _, g'. split; [apply (on_manager_Ok _ _ g); done|]. done.
  - eexists _, _. split; [apply (on_manager_Ok _ _ g); done|]. done.
Qed.

Lemma decoder_compute_manager env fe r rid :
  steps (frames w_manager) (decoder_compute env fe r rid).
Proof.
  unfold decoder_compute, send_tensors, send, metrics_failed, metrics_complete.
  step_auto; first [apply _ | by intros ?].
Qed.

(** A decoder gives back the slot it received in: when [transfer_ready] has been
    handled, the request is no longer a pending receive; a slot allocated for it is
    free again and every other block in use is as before; a preallocated slot stays
    allocated, ready for the next request. *)
Theorem ready_releases_slot env format_error s g msg rid s' :
  w_role s = DECODER → w_manager s = Some g → buffer_ok (buffer g) →
  req_str msg "request_id" = Ok rid →
  handle_transfer_ready env format_error msg s = (Ok tt, s') →
  ∃ g' sc, w_manager s' = Some g' ∧ get_dict msg "scalar_fields" = Ok sc ∧
    buffer_ok (buffer g') ∧ dget rid (pending_receives g') = None ∧
    if json_is_null (get_json sc "_prealloc_slot_id") then
      ∃ p, dget rid (pending_receives g) = Some p ∧
        live (allocator (buffer g')) =
          delete (slot_offset (pr_slot p)) (live (allocator (buffer g)))
    else live (allocator (buffer g')) = live (allocator (buffer g)).
Proof.
  intros Hrole Hg Hb Hrid. unfold handle_transfer_ready.
  intros ([[r rid'] slot] & s1 & H1 & H)%bind_inv.
  pose proof (load_request_rid _ _ _ _ _ _ _ H1) as Hr. assert (rid' = rid) as -> by congruence.
  pose proof (load_request_role env msg s) as Hrole1. unfold frames in Hrole1. rewrite H1 in Hrole1.
  simpl in Hrole1. rewrite Hrole in Hrole1.
  destruct (load_request_spec _ _ _ _ _ _ _ _ Hg H1) as (g1 & sc & p & Hg1 & Hsc & -> & Eb & Hp & Ep).
  apply bind_inv in H as (r1 & s2 & H2 & H).
  unfold init_disagg_request_scheduler in H2. apply bind_inv in H2 as (role & s3 & H3 & H2).
  injection H3 as <- <-. rewrite <-Hrole1 in H2. injection H2 as <- <-.
  destruct (release_spec rid (get_json sc "_prealloc_slot_id") s1 g1 p)
    as (s4 & g4 & E4 & Hg4 & Hrole4 & Hb4 & Hp4 & Hl4); [done|by rewrite Eb|done|].
  erewrite bind_Ok in H by exact E4. apply bind_inv in H as ([] & s5 & H5 & H).
  assert (w_manager s5 = Some g4) as Hg5.
  { assert (steps (frames w_manager) (broadcast_req env r)) as Hbr
      by (unfold broadcast_req, extract, broadcast; step_auto; first [apply _|by intros ?]).
    specialize (Hbr s4). unfold frames in Hbr. rewrite H5 in Hbr. simpl in Hbr. by rewrite <-Hbr. }
  unfold role_compute in H. apply bind_inv in H as (role & s6 & H6 & H). injection H6 as <- <-.
  assert (w_role s5 = DECODER) as Hrole5.
  { pose proof (broadcast_quiet env r s4) as Hq. unfold frames in Hq. rewrite H5 in Hq. simpl in Hq.
    injection Hq as _ <-. congruence. }
  rewrite Hrole5 in H. pose proof (decoder_compute_manager env format_error r rid s5) as Hd.
  unfold frames in Hd. rewrite H in Hd. simpl in Hd.
  exists g4, sc. split_and!; [by rewrite <-Hd|done|done|by rewrite Hp4, dget_ddel_eq|].
  rewrite Hl4, Eb. destruct (json_is_null _); [|done]. rewrite <-Ep by done. eauto.
Qed.

Lemma ready_releases_slot_witness :
  ∃ s' g', handle_transfer_ready (Shop.env 0 []) Shop.show Shop.ready
             (Shop.worker DECODER Shop.receiving) = (Ok tt, s') ∧
    w_manager s' = Some g' ∧ dget "r1" (pending_receives g') = None.
Proof.
  edestruct (ready_releases_slot (Shop.env 0 []) Shop.show (Shop.worker DECODER Shop.receiving)
    Shop.receiving Shop.ready "r1") as (g' & sc & H1 & _ & _ & H2 & _);
    [reflexivity|reflexivity|apply DataPlane.instance_ok|reflexivity|vm_compute; reflexivity|].
  eexists _, g'. split_and!; [vm_compute; reflexivity|exact H1|exact H2].
Defined.

(** ** The error counting of the event loops *)

(** How a pass of a loop ends: it resets the count, leaves it, or raises. *)
Inductive Outcome :=
  | Resets
  | Leaves
  | Fails.

#[global] Instance outcome_eq_dec : EqDecision Outcome.
Proof. solve_decision. Defined.

(** The outcomes of the passes of a loop that never stops. *)
Fixpoint outcomes {A} (body : A → M Worker bool) (xs : list A) (s : Worker) : list Outcome :=
  match xs with
  | [] => []
  | x :: xs =>
      match body x s with
      | (Ok true, s') => Resets :: outcomes body xs (set_error_count (λ _, 0) s')
      | (Ok false, s') => Leaves :: outcomes body xs s'
      | (Raise _, s') => Fails :: outcomes body xs (set_error_count (λ n, n + 1) s')
      end
  end.

(** [n] failures without a reset in between. *)
Definition has_run (n : nat) (l : list Outcome) : Prop :=
  ∃ pre post, l = (pre ++ replicate n Fails ++ post)%list.
Definition counted : list Outcome → list Outcome := filter (.≠ Leaves).
Definition fails_in_a_row (n : nat) (l : list Outcome) : Prop := has_run n (counted l).

(** How many passes failed. *)
Definition failures (l : list Outcome) : nat := length (filter (.= Fails) l).

Lemma has_run_reset n c l :
  (c < n)%nat → has_run n (replicate c Fails ++ Resets :: l)%list ↔ has_run n l.
Proof.
  intros Hc. split.
  - intros (pre & post & E). assert (c < length pre)%nat as Hpre.
    { destruct (decide (c < length pre)%nat); [done|].
      apply (f_equal (λ l, l !! c)) in E.
      rewrite lookup_app_r in E by (rewrite length_replicate; lia).
      rewrite length_replicate, Nat.sub_diag, lookup_app_r, lookup_app_l in E
        by (rewrite ?length_replicate; lia).
      rewrite lookup_replicate_2 in E by lia. done. }
    exists (drop (S c) pre), post. apply (f_equal (drop (S c))) in E.
    rewrite drop_app_ge, length_replicate in E by (rewrite length_replicate; lia).
    replace (S c - c)%nat with 1%nat in E by lia. simpl in E. rewrite drop_0 in E.
    by rewrite drop_app_le in E by lia.
  - intros (pre & post & ->). exists (replicate c Fails ++ Resets :: pre)%list, post.
    by rewrite <-!(assoc_L (++)).
Qed.

Lemma has_run_short n c : (c < n)%nat → ¬ has_run n (replicate c Fails).
Proof.
  intros Hc (pre & post & E). apply (f_equal length) in E.
  rewrite !length_app, !length_replicate in E. lia.
Qed.

(** Without a reset, all failures count. *)
Lemma run_without_reset n l : Resets ∉ l → fails_in_a_row n l ↔ (n ≤ failures l)%nat.
Proof.
  intros Hl. assert (counted l = replicate (failures l) Fails) as E.
  { unfold counted, failures. induction l as [|[| |] l IH]; [done|by destruct Hl; left|..]; rewrite not_elem_of_cons in Hl; destruct Hl as [_ Hl].
    - rewrite filter_cons_False, filter_cons_False by (simpl; congruence). by apply IH.
    - rewrite filter_cons_True, filter_cons_True by done. simpl. f_equal. by apply IH. }
  unfold fails_in_a_row. rewrite E. split.
  - intros Hr. destruct (decide (n ≤ failures l)%nat); [done|]. exfalso. by apply (has_run_short n (failures l)); [lia|].
  - intros Hn. exists [], (replicate (failures l - n) Fails). simpl. rewrite <-replicate_add. f_equal. lia.
Qed.

(** The code raises [RuntimeError] exactly when [P] holds, and returns otherwise. *)
Definition ends_when (m : M Worker unit) s (P : Prop) : Prop :=
  ((m s).1 = Raise RuntimeError ↔ P) ∧ ((m s).1 = Ok tt ↔ ¬ P).

Section Loop.
Context {A : Type} (body : A → M Worker bool).
Context (Hbody : ∀ x, steps (frames w_error_count) (body x)).

Lemma guarded_spec n x s :
  match body x s with
  | (Ok reset, s') => guarded n body x s = (Ok tt, if reset then set_error_count (λ _, 0) s' else s')
  | (Raise _, s') =>
      let s' := set_error_count (λ n, n + 1) s' in
      guarded n body x s = (if n <=? w_error_count s + 1 then Raise RuntimeError else Ok tt, s')
  end.
Proof.
  unfold guarded, try_except, mbind, M_bind, gets. simpl.
  pose proof (Hbody x s) as Hc. unfold frames in Hc.
  destruct (body x s) as [[[]|e] s'] eqn:E; simpl in *; [done..|].
  rewrite Hc. by destruct (n <=? _).
Qed.

Lemma event_loop_run n xs : ∀ c s,
  (c < n)%nat → w_error_count s = c →
  (event_loop n body xs s).1 = Ok tt ∧ ¬ has_run n (replicate c Fails ++ counted (outcomes body xs s)) ∨
  (event_loop n body xs s).1 = Raise RuntimeError ∧
    has_run n (replicate c Fails ++ counted (outcomes body xs s)).
Proof.
  unfold event_loop, counted. induction xs as [|x xs IH]; intros c s Hcn Hc.
  { left. split; [done|]. rewrite app_nil_r. by apply has_run_short. }
  pose proof (guarded_spec n x s) as G. cbn [for_each outcomes].
  pose proof (Hbody x s) as Hcnt. unfold frames in Hcnt.
  destruct (body x s) as [[[]|e] s'] eqn:E; simpl in Hcnt; unfold mbind, M_bind.
  - rewrite G, filter_cons_True, has_run_reset by done.
    destruct (IH 0%nat (set_error_count (λ _, 0) s')) as [H|H]; [lia|done|left; exact H|right; exact H].
  - rewrite G, filter_cons_False by (intros Hn; by apply Hn). apply IH; [done|congruence].
  - simpl in G. rewrite G, filter_cons_True by done. rewrite Hc.
    set (l := filter _ _).
    assert (replicate c Fails ++ Fails :: l = replicate (S c) Fails ++ l)%list as ->.
    { rewrite replicate_S_end, <-(assoc_L (++)). done. }
    destruct (n <=? c + 1) eqn:En; bool_to_prop.
    + right. split; [done|]. replace (S c) with n by lia. exists []. by eexists.
    + destruct (IH (S c) (set_error_count (λ n, n + 1) s')) as [H|H];
        [lia|simpl; rewrite <-Hcnt; lia|left; exact H|right; exact H].
Qed.

Lemma event_loop_ends (n : nat) xs s :
  (0 < n)%nat → w_error_count s = 0 → ends_when (event_loop n body xs) s (fails_in_a_row n (outcomes body xs s)).
Proof.
  intros Hn Hs. unfold ends_when, fails_in_a_row. destruct (event_loop_run n xs 0 s) as [[-> H]|[-> H]];
    [lia|done| |]; simpl in H; naive_solver.
Qed.
End Loop.

(** *** The passes of the three loops *)

Section Passes.
Context (env : WEnv) (format_error : pyval → string).

Lemma count_manager {A} (m : M TransferManager A) : steps (frames w_error_count) (on_manager m).
Proof. intros s. unfold on_manager, frames. by destruct (w_manager s). Qed.
#[local] Hint Resolve count_manager : steps.

Ltac count_auto := step_auto; first [apply _ | by intros ? | idtac].

Lemma denoiser_compute_count r rid : steps (frames w_error_count) (denoiser_compute env r rid).
Proof. unfold denoiser_compute, extract, send_msg, send, metrics_failed, metrics_complete. count_auto. Qed.
Lemma decoder_compute_count r rid : steps (frames w_error_count) (decoder_compute env format_error r rid).
Proof. unfold decoder_compute, send_tensors, send, metrics_failed, metrics_complete. count_auto. Qed.
#[local] Hint Resolve denoiser_compute_count decoder_compute_count : steps.
Lemma push_and_report_count rid dest addr size : steps (frames w_error_count) (push_and_report env rid dest addr size).
Proof. unfold push_and_report, send_msg, send. count_auto. Qed.
Lemma handle_transfer_push_count msg : steps (frames w_error_count) (handle_transfer_push env msg).
Proof. unfold handle_transfer_push. count_auto; apply push_and_report_count. Qed.
Lemma handle_transfer_alloc_count msg : steps (frames w_error_count) (handle_transfer_alloc env msg).
Proof. unfold handle_transfer_alloc, send_msg, send. count_auto. Qed.
Lemma load_request_count msg : steps (frames w_error_count) (load_request env msg).
Proof. unfold load_request, build, metrics_start. count_auto. Qed.
Lemma broadcast_req_count r : steps (frames w_error_count) (broadcast_req env r).
Proof. unfold broadcast_req, broadcast, extract. count_auto. Qed.
Lemma encoder_transfer_stage_count rid tf sf : steps (frames w_error_count) (encoder_transfer_stage env rid tf sf).
Proof. unfold encoder_transfer_stage, send_tensors, send_msg, send, metrics_failed. count_auto. Qed.
#[local] Hint Resolve push_and_report_count handle_transfer_push_count handle_transfer_alloc_count load_request_count
  broadcast_req_count encoder_transfer_stage_count : steps.
Lemma release_receive_count rid slot : steps (frames w_error_count) (release_receive rid slot).
Proof. unfold release_receive. count_auto. Qed.
#[local] Hint Resolve release_receive_count : steps.
Lemma handle_transfer_ready_count msg : steps (frames w_error_count) (handle_transfer_ready env format_error msg).
Proof. unfold handle_transfer_ready, init_disagg_request_scheduler, role_compute. count_auto. Qed.
#[local] Hint Resolve handle_transfer_ready_count : steps.

Lemma handle_transfer_msg_count frames : steps (Prelude.frames w_error_count) (handle_transfer_msg env format_error frames).
Proof. unfold handle_transfer_msg. count_auto. Qed.
#[local] Hint Resolve handle_transfer_msg_count : steps.

Lemma encoder_step_count frames : steps (Prelude.frames w_error_count) (encoder_step env frames).
Proof.
  unfold encoder_step, encoder_transfer_stage, extract, send_tensors, send_msg, send, metrics_start, metrics_failed, metrics_complete. count_auto.
Qed.

Lemma main_pass_count x : steps (frames w_error_count) (main_pass env format_error x).
Proof.
  apply steps_bind; [apply _|apply steps_lift, _|intros frames]. apply steps_bind; [apply _| |intros _; apply steps_ret, _].
  unfold encoder_body. destruct (is_transfer_message frames); [apply handle_transfer_msg_count|].
  apply steps_bind; [apply _|apply steps_gets, _|intros []]; try (apply steps_ret, _). apply encoder_step_count.
Qed.

Lemma prefetch_pass_count x : steps (frames w_error_count) (prefetch_pass env format_error x).
Proof.
  destruct x as [i|]; [|unfold prefetch_pass, broadcast; count_auto].
  apply steps_bind; [apply _| |intros _; apply steps_ret, _]. apply steps_bind; [apply _|apply steps_gets, _|intros multi].
  destruct i as [r rid slot|frames].
  - unfold broadcast, init_disagg_request_scheduler, role_compute. count_auto.
  - apply steps_bind; [apply _|unfold broadcast; count_auto|intros _; apply handle_transfer_msg_count].
Qed.

Lemma non_rank0_pass_count x : steps (frames w_error_count) (non_rank0_pass env x).
Proof. unfold non_rank0_pass, compute_non_rank0, init_disagg_request_scheduler. count_auto. Qed.

Lemma non_rank0_no_reset xs s : Resets ∉ outcomes (non_rank0_pass env) xs s.
Proof.
  revert s. induction xs as [|x xs IH]; intros s; cbn [outcomes]; [apply not_elem_of_nil|].
  assert ((non_rank0_pass env x s).1 ≠ Ok true) as Hx.
  { unfold non_rank0_pass, mbind, M_bind, lift_res. destruct x as [[|[r|e]|]|e]; simpl; try done. by destruct (compute_non_rank0 env r s) as [[]]. }
  destruct (non_rank0_pass env x s) as [[[]|e] s']; simpl in Hx; [done|..]; (apply not_elem_of_cons; split; [done|apply IH]).
Qed.
End Passes.

(** What another rank receives before it is told to shut down. *)
Fixpoint before_shutdown (received : list (res RankMessage)) : list (res RankMessage) :=
  match received with
  | [] | Ok RShutdown :: _ => []
  | m :: received => m :: before_shutdown received
  end.

Lemma non_rank0_loop env n received s :
  non_rank0_event_loop env n received s = event_loop n (non_rank0_pass env) (before_shutdown received) s.
Proof.
  unfold event_loop. revert s. induction received as [|m received IH]; intros s; [done|].
  destruct m as [[| |]|e]; [done|..]; cbn [non_rank0_event_loop before_shutdown for_each]; unfold mbind, M_bind;
    destruct (guarded _ _ _ s) as [[[]|] s']; done.
Qed.



(** Errors that do not follow each other end the loop of another rank. *)
Lemma scattered_errors_end :
  let e := Shop.env 0 [] in
  let s := Shop.worker DENOISER Shop.full in
  (non_rank0_event_loop e 3 [Raise ValueError; Ok RSkip; Raise ValueError; Ok RSkip; Raise ValueError] s).1 = Raise RuntimeError.
Proof. vm_compute. reflexivity. Qed.

(** ** The encoder's accounting *)

(** The worker's counters of failed and completed requests. *)
Definition counts (s : Worker) : option (Z * Z) :=
  (λ m, (m_failed m, m_completed m)) <$> w_metrics s.

Definition staging_error (rid : string) : dict Json :=
  [("request_id", JStr rid); ("_disagg_error", JStr "Transfer staging failed")].

Lemma encoder_stage_none env rid tf sf s g g' f :
  w_manager s = Some g →
  stage_tensors rid ((λ kv, (kv.1, field_of kv.2)) <$> tf) sf g = (Ok None, g') →
  send_tensors_frames [] (staging_error rid) = Ok f →
  encoder_transfer_stage env rid tf sf s =
    (Ok tt, set_metrics (record_request_failed rid)
              (set_outbox (λ o, o ++ [f])%list (set_manager (Some g') s))).
Proof.
  intros Hg Hst Hf. unfold encoder_transfer_stage.
  erewrite bind_Ok.
  2:{ apply (on_manager_Ok _ _ g); [done|]. unfold stage_tensors_async.
      erewrite bind_Ok by exact Hst. reflexivity. }
  cbn [fst]. unfold send_tensors, mbind, M_bind, lift_res. fold (staging_error rid). by rewrite Hf.
Qed.

(** When the transfer buffer has no room for an encoder's output, the request is
    counted as failed and then also as completed, and the server is told that staging
    failed. *)
Theorem staging_failure_counted_twice env s g frames pickled r rs rid r' p m g' :
  w_manager s = Some g → w_metrics s = Some m →
  last frames = Some pickled → pickle_reqs env pickled = Ok (r :: rs) →
  request_id_of r = Ok rid → forward env (r :: rs) = Ok (ForwardReq r') →
  extract_transfer_fields (tolist env) (base_sp_defaults env) (trace_getstate env) r' = Ok p →
  stage_tensors rid ((λ kv, (kv.1, field_of kv.2)) <$> p.1) p.2 g = (Ok None, g') →
  ∃ s' f, encoder_step env frames s = (Ok tt, s') ∧
    counts s' = Some (m_failed m + 1, m_completed m + 1) ∧
    send_tensors_frames [] (staging_error rid) = Ok f ∧ w_outbox s' = (w_outbox s ++ [f])%list.
Proof.
  intros Hg Hm Hl Hp Hrid Hf Hx Hst. unfold encoder_step. rewrite Hl.
  erewrite bind_Ok by (unfold lift_res; rewrite Hp; reflexivity). cbv beta iota.
  erewrite bind_Ok by (unfold lift_res; rewrite Hrid; reflexivity). cbv beta iota.
  erewrite bind_Ok by reflexivity.
  erewrite bind_Ok by (unfold lift_res; rewrite Hf; reflexivity). cbv beta iota.
  erewrite bind_Ok by (unfold extract, lift_res; rewrite Hx; reflexivity).
  set (s1 := set_metrics _ s). assert (w_manager s1 = Some g) as Hg1 by done.
  erewrite (bind_Ok (gets w_manager)) by reflexivity. rewrite Hg1.
  destruct (send_tensors_frames [] (staging_error rid)) as [f|] eqn:Hsend; [|done].
  erewrite bind_Ok by (by eapply encoder_stage_none).
  eexists _, f. split; [reflexivity|]. split; [|done].
  unfold counts. simpl. by rewrite Hm.
Qed.

Lemma staging_failure_counted_twice_witness :
  ∃ s', encoder_step (Shop.env 0 [Hop.req]) ["r1"; "payload"] (Shop.worker ENCODER Shop.full) =
          (Ok tt, s') ∧ counts s' = Some (1, 1).
Proof.
  edestruct (staging_failure_counted_twice (Shop.env 0 [Hop.req]) (Shop.worker ENCODER Shop.full)
    Shop.full ["r1"; "payload"] "payload" Hop.req [] "r1" Hop.req Hop.sent (init_metrics "role" 0))
    as (s' & f & H1 & H2 & _);
    [reflexivity|reflexivity|reflexivity|reflexivity|vm_compute; reflexivity|reflexivity
    |vm_compute; reflexivity|vm_compute; reflexivity|].
  exists s'. split; [exact H1|exact H2].
Defined.

(** An attribute that JSON cannot express is found out too late: extraction lets
    it through, the output is staged, and then building the message raises. The server
    is told nothing, and the staged slot stays in use. *)
Theorem unserializable_strands_slot env s g frames pickled r rs rid r' p st g' e :
  w_manager s = Some g →
  last frames = Some pickled → pickle_reqs env pickled = Ok (r :: rs) →
  request_id_of r = Ok rid → forward env (r :: rs) = Ok (ForwardReq r') →
  extract_transfer_fields (tolist env) (base_sp_defaults env) (trace_getstate env) r' = Ok p →
  stage_tensors rid ((λ kv, (kv.1, field_of kv.2)) <$> p.1) p.2 g = (Ok (Some st), g') →
  st_scalar_fields st = p.2 → json_of_dict p.2 = Raise e →
  ∃ s', encoder_step env frames s = (Raise e, s') ∧ w_outbox s' = w_outbox s ∧
    w_manager s' = Some g'.
Proof.
  intros Hg Hl Hp Hrid Hf Hx Hst Hsc Hj. unfold encoder_step. rewrite Hl.
  erewrite bind_Ok by (unfold lift_res; rewrite Hp; reflexivity). cbv beta iota.
  erewrite bind_Ok by (unfold lift_res; rewrite Hrid; reflexivity). cbv beta iota.
  erewrite bind_Ok by reflexivity.
  erewrite bind_Ok by (unfold lift_res; rewrite Hf; reflexivity). cbv beta iota.
  erewrite bind_Ok by (unfold extract, lift_res; rewrite Hx; reflexivity).
  set (s1 := set_metrics _ s). assert (w_manager s1 = Some g) as Hg1 by done.
  erewrite (bind_Ok (gets w_manager)) by reflexivity. rewrite Hg1.
  set (s2 := set_manager (Some g') s1).
  assert (encoder_transfer_stage env rid p.1 p.2 s1 = (Raise e, s2)) as E.
  { unfold encoder_transfer_stage. erewrite bind_Ok.
    2:{ apply (on_manager_Ok _ _ g); [done|]. unfold stage_tensors_async.
        erewrite bind_Ok by exact Hst. reflexivity. }
    cbn [fst]. erewrite bind_Ok by (apply (on_manager_Ok _ _ g'); done).
    unfold mbind, M_bind, lift_res. by rewrite Hsc, Hj. }
  exists s2. unfold mbind at 1, M_bind at 1. by rewrite E.
Qed.

Lemma unserializable_strands_slot_witness :
  ∃ s', encoder_step (Shop.env 0 [Shop.odd_req]) ["r1"; "payload"]
          (Shop.worker ENCODER (DataPlane.mk_instance 0)) = (Raise TypeError, s') ∧ w_outbox s' = [].
Proof.
  edestruct (unserializable_strands_slot (Shop.env 0 [Shop.odd_req])
    (Shop.worker ENCODER (DataPlane.mk_instance 0)) (DataPlane.mk_instance 0) ["r1"; "payload"]
    "payload" Shop.odd_req [] "r1" Shop.odd_req) as (s' & H1 & H2 & _);
    [reflexivity|reflexivity|reflexivity|vm_compute; reflexivity|reflexivity
    |vm_compute; reflexivity|vm_compute; reflexivity|reflexivity|vm_compute; reflexivity|].
  exists s'. split; [exact H1|exact H2].
Defined.

(** ** Set-up *)

(** The slots the loop has taken: in use, big enough, numbered from [i], and away from
    one another and from the blocks in use before. *)
Record prealloc_ok (b b' : TransferTensorBuffer) (i : nat) (slots : list (Z * SlotHandle)) : Prop := {
  po_buffer : buffer_ok b';
  po_ptr : pool_data_ptr b' = pool_data_ptr b;
  po_size : Buddy.pool_size (allocator b') = Buddy.pool_size (allocator b);
  po_live : Forall (λ p, slot_live p.2 b' ∧ prealloc_typical_size ≤ slot_size p.2) slots;
  po_fresh : Forall (λ p, live (allocator b) !! slot_offset p.2 = None) slots;
  po_ids : Forall (λ p, Z.of_nat i ≤ p.1) slots ∧ NoDup slots.*1;
  po_offsets : NoDup ((λ p, slot_offset p.2) <$> slots);
  po_keep : ∀ h, slot_live h b → slot_live h b';
}.

Lemma buffer_allocate_pool_size size rid b o b' :
  buffer_ok b → 1 ≤ size ≤ 2 ^ 64 → buffer_allocate size rid b = (Ok o, b') →
  Buddy.pool_size (allocator b') = Buddy.pool_size (allocator b).
Proof.
  intros Hb Hs H. destruct (buffer_allocate_spec size rid b Hb Hs)
    as [(h & b1 & E & [Ha1 Hp1 _] & _ & _ & _ & _ & _ & Epool & _)|E]; rewrite E in H; [|by simplify_eq].
  injection H as _ <-. destruct Hb as [_ Hp _]. rewrite <-Hp1, <-Hp. by rewrite Epool.
Qed.

Lemma preallocate_ok n : ∀ i b, buffer_ok b →
  ∃ slots b', preallocate n i b = (Ok slots, b') ∧ prealloc_ok b b' i slots.
Proof.
  induction n as [|n IH]; intros i b Hb.
  { exists [], b. split; [done|]. split; try done; repeat constructor. }
  simpl. assert (1 ≤ prealloc_typical_size ≤ 2 ^ 64) as Hsz by (unfold prealloc_typical_size; lia).
  destruct (buffer_allocate_spec prealloc_typical_size (prealloc_name i) b Hb Hsz)
    as [(h & b1 & E & Hb1 & Hrid & Hle & Hlive & Hfresh & Hmap & _ & Hptr)|E].
  - pose proof (buffer_allocate_pool_size _ _ _ _ _ Hb Hsz E) as Hps.
    destruct (IH (S i) b1 Hb1) as (slots & b' & E' & [P1 P2 P3 P4 P5 [P6 P7] P8 P9]).
    exists ((Z.of_nat i, h) :: slots), b'. split.
    { erewrite bind_Ok by exact E. erewrite bind_Ok by exact E'. done. }
    assert (∀ h2, slot_live h2 b → slot_live h2 b1) as Hkeep.
    { intros h2 H2. unfold slot_live in *. rewrite Hmap, lookup_insert_ne; [done|].
      intros Eo. rewrite Eo in Hfresh. congruence. }
    split; [done|congruence|congruence| | | | |auto].
    + constructor; [|done]. split; [by apply P9|done].
    + constructor; [done|]. eapply Forall_impl; [exact P5|]. intros p Hp. simpl in *.
      rewrite Hmap in Hp. by apply lookup_insert_None in Hp as [? _].
    + split; [constructor; [simpl; lia|]; eapply Forall_impl; [exact P6|]; simpl; lia|].
      simpl. constructor; [|done]. intros (p & Ep & Hin)%list_elem_of_fmap.
      rewrite Forall_forall in P6. specialize (P6 p Hin). lia.
    + simpl. constructor; [|done]. intros (p & Ep & Hin)%list_elem_of_fmap.
      rewrite Forall_forall in P5. specialize (P5 p Hin).
      rewrite Hmap, <-Ep, lookup_insert_eq in P5. done.
  - destruct (IH (S i) b Hb) as (slots & b' & E' & [P1 P2 P3 P4 P5 [P6 P7] P8 P9]).
    exists slots, b'. split.
    { erewrite bind_Ok by exact E. erewrite bind_Ok by exact E'. done. }
    split; try done. split; [|done]. eapply Forall_impl; [exact P6|]. simpl. lia.
Qed.

Lemma init_worker_total role mr size ptr fill session ep capacity t a :
  Buddy.init size (2 ^ 20) = Ok a → Z.max size (2 ^ 20) ≤ 2 ^ 64 →
  ∃ w, init_worker role mr size ptr fill session ep capacity t = Ok w.
Proof.
  intros Ha Hmax. unfold init_worker.
  destruct (init_buffer size (2 ^ 20) (role_value role) ptr fill) as [b|] eqn:Hb;
    [|unfold init_buffer in Hb; by rewrite Ha in Hb].
  destruct (init_buffer_ok _ _ _ _ _ _ Hb Hmax) as (Hok & _); [by exists (2 ^ 17)|].
  cbn [mbind res_bind]. destruct (is_receiver role); [|by eexists].
  destruct (preallocate_ok (Z.to_nat capacity) 0 b Hok) as (slots & b' & -> & _). by eexists.
Qed.

(** A worker starts with a sound buffer. Every receive slot it registers with the
    server is a block in use of its pool, of at least the typical size, and no two of
    them overlap; the registration message describes exactly the slots the worker will
    look up. *)
Theorem registered_slots_sound role mr size ptr fill session ep capacity t w :
  init_worker role mr size ptr fill session ep capacity t = Ok w → Z.max size (2 ^ 20) ≤ 2 ^ 64 →
  ∃ g slots, w_manager w = Some g ∧ buffer_ok (buffer g) ∧
    w_preallocated_slots w = list_to_map slots ∧
    w_outbox w = [encode_transfer_msg (TransferRegisterMsg (role_value role) session ptr
      (Buddy.pool_size (allocator (buffer g))) ep (slot_description ptr <$> slots))] ∧
    (∀ i h, (i, h) ∈ slots → w_preallocated_slots w !! i = Some h ∧ slot_live h (buffer g) ∧
       prealloc_typical_size ≤ slot_size h) ∧
    (∀ i h j h2, (i, h) ∈ slots → (j, h2) ∈ slots → i ≠ j →
       slot_offset h + slot_size h ≤ slot_offset h2 ∨
       slot_offset h2 + slot_size h2 ≤ slot_offset h).
Proof.
  unfold init_worker. intros (b & Hb & H)%res_bind_inv Hmax.
  destruct (init_buffer_ok _ _ _ _ _ _ Hb Hmax) as (Hok & Hlive & Hptr); [by exists (2 ^ 17)|].
  assert (∃ slots b', (if is_receiver role then preallocate (Z.to_nat capacity) 0 else mret []) b =
    (Ok slots, b') ∧ prealloc_ok b b' 0 slots) as (slots & b' & E & P).
  { destruct (is_receiver role); [by apply preallocate_ok|]. exists [], b. split; [done|].
    split; try done; repeat constructor. }
  rewrite E in H. injection H as <-. destruct P as [P1 P2 P3 P4 P5 [_ P7] P8 P9]. simpl.
  rewrite Forall_forall in P4.
  exists (init_manager b'), slots. split_and!; [done|done|done|by rewrite P2, Hptr| |].
  - intros i h Hin. destruct (P4 _ Hin) as [? ?]. split_and!; [|done|done].
    by apply elem_of_list_to_map_1.
  - intros i h j h2 H1 H2 Hij. destruct (P4 _ H1) as [L1 _]. destruct (P4 _ H2) as [L2 _].
    apply (slot_live_disjoint h h2 b'); try done. intros Eo.
    apply Hij. apply list_elem_of_lookup in H1 as [x1 X1]. apply list_elem_of_lookup in H2 as [x2 X2].
    assert (x1 = x2) as ->.
    { apply (NoDup_lookup _ _ _ (slot_offset h) P8); rewrite list_lookup_fmap; [by rewrite X1|].
      rewrite X2. simpl. by rewrite Eo. }
    rewrite X1 in X2. by injection X2.
Qed.

Lemma registered_slots_sound_witness :
  ∃ w g, init_worker DENOISER false (2 ^ 28) 4096 (λ _, Ascii.zero) "session" "ep" 2 0 = Ok w ∧
    w_manager w = Some g ∧ buffer_ok (buffer g).
Proof.
  edestruct (init_worker_total DENOISER false (2 ^ 28) 4096 (λ _, Ascii.zero) "session" "ep" 2 0)
    as [w Hw]; [vm_compute; reflexivity|lia|].
  destruct (registered_slots_sound _ _ _ _ _ _ _ _ _ _ Hw) as (g & slots & H1 & H2 & _); [lia|].
  eauto.
Defined.
