(* ===== verification/Admission.v ===== *)
(** * Admission control of dynamic batching

    Models [managers/dynamic_batch_admission.py]: batching rules parsed from a JSON
    configuration, the limit the rules that match a request put on its batch, and the
    admission decisions of [BatchAdmissionController]. Costs and memory sizes are
    rationals; the pipeline's cost estimate, [str] and [float] of a JSON value that is
    neither a string nor an integer, and of a string, are parameters. The formatted
    reasons are kept as data. *)

From S2P Require Import Prelude PyJson Codec PyValue Fields.
Local Open Scope string_scope.
Local Open Scope Z_scope.

(** The strings the decisions are reported with. *)
Inductive Reason :=
  | ConfigCap (n : Z)
  | CostBudget (cost max_cost : Qc)
  | CostBudgetNext (cost max_cost : Qc).

Record AdmissionLimit := mk_limit {
  l_max_batch_size : Z;
  l_max_cost : option Qc;
  l_cap_reason : option Reason;
}.

(** [cost > self.max_cost], where there is one. *)
Definition over_cost (max_cost : option Qc) (cost : Qc) : bool :=
  match max_cost with Some m => bool_decide (m < cost)%Qc | None => false end.

Definition reject_reason (l : AdmissionLimit) (batch_size : Z) (batch_cost : Qc) : option Reason :=
  if l_max_batch_size l <? batch_size then
    Some (default (ConfigCap (l_max_batch_size l)) (l_cap_reason l))
  else if over_cost (l_max_cost l) batch_cost then
    CostBudget batch_cost <$> l_max_cost l
  else None.

Definition stop_reason_for_next_cost (l : AdmissionLimit) (next_batch_cost : Qc) : option Reason :=
  if over_cost (l_max_cost l) next_batch_cost then
    CostBudgetNext next_batch_cost <$> l_max_cost l
  else None.

Record BatchingRule := mk_rule {
  model : option string;
  model_contains : option string;
  resolution : option string;
  device_memory_gb_min : option Qc;
  device_memory_gb_max : option Qc;
  offload : option bool;
  max_batch_size : Z;
  max_cost : option Qc;
}.

Definition validate_rule (r : BatchingRule) : res unit :=
  match model r, model_contains r with
  | Some _, Some _ => Raise ValueError
  | None, None => Raise ValueError
  | _, _ =>
      if max_batch_size r <? 1 then Raise ValueError
      else if from_option (λ c, bool_decide (c ≤ 0)%Qc) false (max_cost r) then Raise ValueError
      else match device_memory_gb_min r, device_memory_gb_max r with
           | Some a, Some b => if bool_decide (b < a)%Qc then Raise ValueError else Ok tt
           | _, _ => Ok tt
           end
  end.

(** [p in s] for strings. *)
Fixpoint contains (p s : string) : bool :=
  startswith s p || match s with EmptyString => false | String _ s' => contains p s' end.

Definition matches (model_path : string) (res_key : option string) (memory : option Qc)
    (off : bool) (r : BatchingRule) : bool :=
  from_option (λ m, bool_decide (m = model_path)) true (model r) &&
  from_option (λ m, contains m model_path) true (model_contains r) &&
  from_option (λ x, bool_decide (x = "*") || bool_decide (res_key = Some x)) true (resolution r) &&
  from_option (λ b, bool_decide (b = off)) true (offload r) &&
  match memory with
  | None => true
  | Some g =>
      from_option (λ lo, negb (bool_decide (g < lo)%Qc)) true (device_memory_gb_min r) &&
      from_option (λ hi, negb (bool_decide (hi < g)%Qc)) true (device_memory_gb_max r)
  end.

(** ** Reading the configuration *)

Definition BATCHING_RULE_KEYS : list string :=
  ["model"; "model_contains"; "resolution"; "device_memory_gb_min"; "device_memory_gb_max";
   "offload"; "max_batch_size"; "max_cost"; "calibration"].

Definition validate_rule_keys (data : dict Json) : res unit :=
  if forallb (λ k, bool_decide (k ∈ BATCHING_RULE_KEYS)) (dkeys data) then Ok tt
  else Raise ValueError.

(** [s.strip()] *)
Fixpoint lstrip (s : string) : string :=
  match s with
  | String c s' => if bool_decide (ord c ∈ [9; 10; 11; 12; 13; 28; 29; 30; 31; 32]%nat)
                   then lstrip s' else s
  | EmptyString => s
  end.
Definition strip (s : string) : string := String.rev (lstrip (String.rev (lstrip s))).

Definition optional_bool (v : Json) : res (option bool) :=
  match v with
  | JNull => Ok None
  | JBool b => Ok (Some b)
  | JStr s =>
      let l := lower (strip s) in
      if bool_decide (l ∈ ["1"; "true"; "yes"; "y"; "on"]) then Ok (Some true)
      else if bool_decide (l ∈ ["0"; "false"; "no"; "n"; "off"]) then Ok (Some false)
      else Raise ValueError
  | _ => Raise ValueError
  end.

(** [key.partition("|")] *)
Fixpoint partition_bar (s : string) : string * string :=
  match s with
  | EmptyString => ("", "")
  | String c s' =>
      if bool_decide (ord c = 124%nat) then ("", s')
      else let '(a, b) := partition_bar s' in (String c a, b)
  end.

(** [entry.setdefault(k, v)] for a value that is not the empty string. *)
Definition setdefault_str (k v : string) (d : dict Json) : dict Json :=
  if bool_decide (v = "") then d else if dmem k d then d else dset k (JStr v) d.

Definition mapping_entry (kv : string * Json) : option Json :=
  match kv.2 with
  | JObj value =>
      if bool_decide (kv.1 = "schema_version") then None
      else
        let '(m, r) := partition_bar kv.1 in
        Some (JObj (setdefault_str "resolution" r (setdefault_str "model" m value)))
  | _ => None
  end.

Definition config_entries (payload : Json) : res (list Json) :=
  match payload with
  | JObj d =>
      let v := get_json d "schema_version" in
      if negb (json_is_null v) && negb (bool_decide (json_num v = Some 1)) then Raise ValueError
      else match dget "rules" d with
           | Some (JList l) => Ok l
           | _ => Ok (omap mapping_entry d)
           end
  | JList l => Ok l
  | _ => Raise ValueError
  end.

Section Config.
(** [str(v)] and [float(v)] *)
Context (py_str : Json → string) (py_float : Json → res Qc).

Definition optional_str (v : Json) : option string :=
  match v with JNull => None | JStr s => Some s | _ => Some (py_str v) end.
Definition optional_float (v : Json) : res (option Qc) :=
  match v with
  | JNull => Ok None
  | JInt z => Ok (Some (Qc_of_Z z))
  | _ => q ← py_float v; Ok (Some q)
  end.

Definition rule_from_dict (data : Json) : res BatchingRule :=
  match data with
  | JObj d =>
      _ ← validate_rule_keys d;
      match dget "max_batch_size" d with
      | None => Raise ValueError
      | Some n =>
          lo ← optional_float (get_json d "device_memory_gb_min");
          hi ← optional_float (get_json d "device_memory_gb_max");
          off ← optional_bool (get_json d "offload");
          size ← py_int n;
          cost ← optional_float (get_json d "max_cost");
          let r := mk_rule (optional_str (get_json d "model"))
                     (optional_str (get_json d "model_contains"))
                     (optional_str (get_json d "resolution")) lo hi off size cost in
          _ ← validate_rule r;
          Ok r
      end
  | _ => Raise ValueError
  end.

(** [load_batching_config], from the parsed file. *)
Definition load_batching_config (payload : option Json) : res (list BatchingRule) :=
  match payload with
  | None => Ok []
  | Some j =>
      entries ← config_entries j;
      rules ← res_mapM rule_from_dict entries;
      match rules with [] => Raise ValueError | _ => Ok rules end
  end.
End Config.

(** ** The controller *)

(** [Req.resolution_key] *)
Definition resolution_key (r : Req) : res (option string) :=
  w ← req_attr r "width";
  h ← (if is_none w then Ok PNone else req_attr r "height");
  if is_none w || is_none h then Ok None
  else match w, h with
       | PJson jw, PJson jh =>
           a ← py_int jw; b ← py_int jh; Ok (Some (dumps_int a +:+ "x" +:+ dumps_int b))
       | _, _ => Raise TypeError
       end.

Record Controller := mk_controller {
  c_dynamic : bool;
  c_user_max_batch_size : Z;
  c_model_path : string;
  c_offload : bool;
  c_device_memory_gb : option Qc;
  c_rules : list BatchingRule;
}.

Definition init_controller (dynamic : bool) (batching_max_size : Z) (path : string) (off : bool)
    (memory : option Qc) (rules : list BatchingRule) : Controller :=
  mk_controller dynamic (Z.max 1 batching_max_size) path off memory rules.

Definition enabled (c : Controller) : bool :=
  c_dynamic c && (1 <? c_user_max_batch_size c).

Definition matching_rules (c : Controller) (key : option string) : list BatchingRule :=
  List.filter (matches (c_model_path c) key (c_device_memory_gb c) (c_offload c)) (c_rules c).

(** [min] of a non-empty list. *)
Definition Zmin_list (x : Z) (l : list Z) : Z := foldl Z.min x l.
Definition qc_min (a b : Qc) : Qc := if decide (b < a)%Qc then b else a.
Definition min_cost (l : list Qc) : option Qc :=
  match l with [] => None | x :: l => Some (foldl qc_min x l) end.

Definition limit_of_rules (user_max : Z) (rules : list BatchingRule) : AdmissionLimit :=
  match rules with
  | [] => mk_limit user_max None None
  | r :: rs =>
      let config_cap := Zmin_list (max_batch_size r) (max_batch_size <$> rs) in
      let size := Z.min user_max config_cap in
      mk_limit (Z.max 1 size) (min_cost (omap max_cost rules))
        (if size <? user_max then Some (ConfigCap size) else None)
  end.

Section Controller.
Context (estimate_request_cost : Req → Qc).

Definition estimate_batch_cost (reqs : list Req) : Qc :=
  foldl (λ a r, a + estimate_request_cost r)%Qc 0%Qc reqs.

Definition limit_for (c : Controller) (r : Req) : res AdmissionLimit :=
  key ← resolution_key r;
  Ok (limit_of_rules (c_user_max_batch_size c) (matching_rules c key)).

Definition reject_reason_for_candidate (c : Controller) (current : list Req) (candidate : Req) :
    res (option Reason) :=
  if enabled c then
    let proposed := (current ++ [candidate])%list in
    l ← limit_for c (default candidate (head proposed));
    Ok (reject_reason l (length proposed) (estimate_batch_cost proposed))
  else Ok None.

Definition batch_is_full (c : Controller) (reqs : list Req) : res bool :=
  match enabled c, reqs with
  | true, r :: _ =>
      l ← limit_for c r;
      Ok ((l_max_batch_size l <=? length reqs) ||
          over_cost (l_max_cost l) (estimate_batch_cost (reqs ++ [r])%list))
  | _, _ => Ok (c_user_max_batch_size c <=? length reqs)
  end.

Definition limit_reason_for_batch (c : Controller) (reqs : list Req) : res (option Reason) :=
  match enabled c, reqs with
  | true, r :: _ =>
      l ← limit_for c r;
      Ok (if l_max_batch_size l <=? length reqs
          then Some (default (ConfigCap (l_max_batch_size l)) (l_cap_reason l))
          else stop_reason_for_next_cost l (estimate_batch_cost (reqs ++ [r])%list))
  | _, _ => Ok None
  end.

Definition max_admissible_batch_size (c : Controller) (r : Req) : res Z :=
  l ← limit_for c r; Ok (l_max_batch_size l).
End Controller.

(** ** Validity of the rules *)

Record rule_valid (r : BatchingRule) : Prop := {
  rv_model : is_Some (model r) ↔ model_contains r = None;
  rv_size : 1 ≤ max_batch_size r;
  rv_cost : ∀ m, max_cost r = Some m → (0 < m)%Qc;
  rv_memory : ∀ a b, device_memory_gb_min r = Some a → device_memory_gb_max r = Some b → (a ≤ b)%Qc;
}.

Lemma validate_rule_Ok r : validate_rule r = Ok tt ↔ rule_valid r.
Proof.
  destruct r as [m mc rs lo hi off n cost]. split.
  - unfold validate_rule. simpl. intros H.
    destruct m, mc; try done; (destruct (n <? 1) eqn:En; [done|]); bool_to_prop;
      (destruct (from_option _ _ _) eqn:Ec in H; [done|]);
      (split; simpl; [naive_solver|lia| |]).
    all: try (intros q ->; simpl in Ec; apply bool_decide_eq_false_1 in Ec; by apply Qcnot_le_lt).
    all: intros a b -> ->; case_bool_decide; [done|by apply Qcnot_lt_le].
  - intros [Hm Hn Hc Hmem]. unfold validate_rule. simpl in *.
    assert ((n <? 1) = false) as -> by (apply Z.ltb_ge; lia).
    assert (from_option (λ c, bool_decide (c ≤ 0)%Qc) false cost = false) as ->.
    { destruct cost as [q|]; [|done]. simpl. apply bool_decide_eq_false_2.
      by apply Qclt_not_le, Hc. }
    assert (match lo, hi with
      | Some a, Some b => if bool_decide (b < a)%Qc then Raise ValueError else Ok tt
      | _, _ => Ok tt end = Ok tt) as Hmm.
    { destruct lo, hi; try done. rewrite bool_decide_eq_false_2; [done|].
      by apply Qcle_not_lt, Hmem. }
    destruct m, mc; try done; exfalso; naive_solver.
Qed.

(** C38 - A configuration that loads has at least one rule, one for each entry, and
    every rule is valid: it names a model one way, caps the batch size at 1 or more, has
    a positive cost budget if any, and a memory range that is not empty. *)
Theorem loaded_rules_valid py_str py_float payload rules :
  load_batching_config py_str py_float (Some payload) = Ok rules →
  rules ≠ [] ∧ Forall rule_valid rules ∧
  ∃ entries, config_entries payload = Ok entries ∧ length rules = length entries.
Proof.
  simpl. intros (es & He & (rs & Hr & H)%res_bind_inv)%res_bind_inv.
  assert (rs = rules ∧ rules ≠ []) as [-> Hne] by (destruct rs; simplify_eq; done).
  split_and!; [done| |exists es; split; [done|]]; clear H Hne He;
    revert rules Hr; induction es as [|e es IH]; intros rules Hr; simpl in Hr; simplify_eq/=; try done.
  - apply res_bind_inv in Hr as (r & H1 & (rs & H2 & H3)%res_bind_inv). injection H3 as <-.
    constructor; [|by apply IH]. unfold rule_from_dict in H1.
    destruct e as [| | | | |d]; try done. apply res_bind_inv in H1 as ([] & _ & H1).
    destruct (dget "max_batch_size" d); [|done].
    do 5 (apply res_bind_inv in H1 as (? & _ & H1)).
    apply res_bind_inv in H1 as ([] & Hv & H1). injection H1 as <-. by apply validate_rule_Ok.
  - apply res_bind_inv in Hr as (r & H1 & (rs & H2 & H3)%res_bind_inv). injection H3 as <-.
    simpl. f_equal. by apply IH.
Qed.

(** ** The limit *)

Lemma Zmin_list_spec x l n : n ≤ Zmin_list x l ↔ n ≤ x ∧ Forall (λ y, n ≤ y) l.
Proof.
  unfold Zmin_list. revert x. induction l as [|y l IH]; intros x; simpl.
  - rewrite Forall_nil. tauto.
  - rewrite IH, Forall_cons, Z.min_glb_iff. tauto.
Qed.

Lemma qc_min_le a b q : (q ≤ qc_min a b)%Qc ↔ (q ≤ a)%Qc ∧ (q ≤ b)%Qc.
Proof.
  unfold qc_min. case_decide as H; split; try tauto; intros Hq; split; try done.
  - eapply Qcle_trans; [exact Hq|by apply Qclt_le_weak].
  - eapply Qcle_trans; [exact Hq|by apply Qcnot_lt_le].
Qed.

Lemma foldl_qc_min x l q :
  (q ≤ foldl qc_min x l)%Qc ↔ (q ≤ x)%Qc ∧ Forall (λ m, q ≤ m)%Qc l.
Proof.
  revert x. induction l as [|y l IH]; intros x; simpl; [rewrite Forall_nil; tauto|].
  rewrite IH, qc_min_le, Forall_cons. tauto.
Qed.

Lemma min_cost_spec l q : over_cost (min_cost l) q = false ↔ Forall (λ m, q ≤ m)%Qc l.
Proof.
  destruct l as [|x l]; simpl; [by rewrite Forall_nil|].
  rewrite Forall_cons, <-foldl_qc_min, bool_decide_eq_false. split.
  - apply Qcnot_lt_le.
  - apply Qcle_not_lt.
Qed.

(** The limit of a set of valid rules is the conjunction of their caps. *)
Lemma limit_of_rules_spec user_max rules n q :
  1 ≤ user_max → Forall (λ r, 1 ≤ max_batch_size r) rules →
  let l := limit_of_rules user_max rules in
  n ≤ l_max_batch_size l ∧ over_cost (l_max_cost l) q = false ↔
  n ≤ user_max ∧ Forall (λ r, n ≤ max_batch_size r ∧
    (∀ m, max_cost r = Some m → (q ≤ m)%Qc)) rules.
Proof.
  intros Hu Hr. destruct rules as [|r rs].
  { simpl. rewrite Forall_nil. naive_solver. }
  unfold limit_of_rules. cbn [l_max_batch_size l_max_cost].
  assert (1 ≤ Zmin_list (max_batch_size r) (max_batch_size <$> rs)) as H1.
  { apply Forall_cons in Hr as [? Hr]. apply Zmin_list_spec. split; [done|].
    rewrite Forall_fmap. exact Hr. }
  rewrite Z.max_r by lia.
  assert (n ≤ Z.min user_max (Zmin_list (max_batch_size r) (max_batch_size <$> rs)) ↔
    n ≤ user_max ∧ Forall (λ r, n ≤ max_batch_size r) (r :: rs)) as ->.
  { rewrite Z.min_glb_iff, Zmin_list_spec, Forall_cons, Forall_fmap. done. }
  assert (over_cost (min_cost (omap max_cost (r :: rs))) q = false ↔
    Forall (λ r, ∀ m, max_cost r = Some m → (q ≤ m)%Qc) (r :: rs)) as ->.
  { rewrite min_cost_spec, !Forall_forall. setoid_rewrite list_elem_of_omap. naive_solver. }
  rewrite Forall_and. tauto.
Qed.

Lemma reject_reason_None l n q :
  reject_reason l n q = None ↔ n ≤ l_max_batch_size l ∧ over_cost (l_max_cost l) q = false.
Proof.
  unfold reject_reason. destruct (l_max_batch_size l <? n) eqn:E; bool_to_prop; [split; [done|lia]|].
  destruct (over_cost (l_max_cost l) q) eqn:Ec; [|naive_solver].
  split; [|by intros []]. unfold over_cost in Ec. by destruct (l_max_cost l).
Qed.

Lemma matching_rules_Forall P c key : Forall P (c_rules c) → Forall P (matching_rules c key).
Proof.
  unfold matching_rules. rewrite !Forall_forall. intros H r Hr. apply H.
  rewrite list_elem_of_In in Hr. apply filter_In in Hr as [Hr _]. by apply list_elem_of_In.
Qed.

(** C37 - A candidate is admitted exactly when the batch with it is no larger than the
    user's maximum and than the cap of every matching rule, and costs no more than the
    budget of every matching rule that has one. *)
Theorem admission_exact cost c current candidate key :
  enabled c = true → Forall rule_valid (c_rules c) →
  resolution_key (default candidate (head current)) = Ok key →
  let batch := (current ++ [candidate])%list in
  reject_reason_for_candidate cost c current candidate = Ok None ↔
  Z.of_nat (length batch) ≤ c_user_max_batch_size c ∧
  Forall (λ r, Z.of_nat (length batch) ≤ max_batch_size r ∧
            (∀ m, max_cost r = Some m → (estimate_batch_cost cost batch ≤ m)%Qc))
    (matching_rules c key).
Proof.
  intros He Hv Hkey batch. unfold reject_reason_for_candidate. rewrite He. fold batch.
  assert (default candidate (head batch) = default candidate (head current)) as ->
    by (unfold batch; by destruct current).
  unfold limit_for. rewrite Hkey. simpl.
  assert (∀ o : option Reason, Ok o = Ok None ↔ o = None) as -> by naive_solver.
  rewrite reject_reason_None. apply limit_of_rules_spec.
  - unfold enabled in He. bool_to_prop. lia.
  - apply matching_rules_Forall. eapply Forall_impl; [exact Hv|]. by intros r [].
Qed.

(** A batch reports that it is full exactly when another request like its first
    one would be rejected, and exactly then it has a reason for it. *)
Theorem full_iff_next_rejected cost c r rs b :
  enabled c = true → batch_is_full cost c (r :: rs) = Ok b →
  ∃ rej lim, reject_reason_for_candidate cost c (r :: rs) r = Ok rej ∧
    limit_reason_for_batch cost c (r :: rs) = Ok lim ∧
    (b = true ↔ is_Some rej) ∧ (b = true ↔ is_Some lim).
Proof.
  intros He Hb. unfold batch_is_full, reject_reason_for_candidate, limit_reason_for_batch in *.
  rewrite He in *. apply res_bind_inv in Hb as (l & Hl & Hb).
  set (batch := ((r :: rs) ++ [r])%list). set (q := estimate_batch_cost cost batch).
  set (n := Z.of_nat (length (r :: rs))).
  exists (reject_reason l (n + 1) q), (if l_max_batch_size l <=? n
    then Some (default (ConfigCap (l_max_batch_size l)) (l_cap_reason l))
    else stop_reason_for_next_cost l q).
  assert (b = (l_max_batch_size l <=? n) || over_cost (l_max_cost l) q) as ->
    by (injection Hb as <-; reflexivity). clear Hb.
  change (default r (head batch)) with r. rewrite Hl.
  assert (Z.of_nat (length batch) = n + 1) as Hlen
    by (unfold batch, n; rewrite length_app; simpl; lia).
  split; [cbn [mbind res_bind]; by rewrite Hlen|]. split; [done|].
  rewrite <-(not_eq_None_Some (reject_reason _ _ _)), reject_reason_None.
  unfold stop_reason_for_next_cost. clear Hlen.
  destruct (over_cost (l_max_cost l) q) eqn:Ec, (l_max_batch_size l <=? n) eqn:En; bool_to_prop;
    rewrite ?orb_true_r; simpl; split; split; try done; try (intros; lia);
    try (intros _ [? ?]; done || lia).
  all: try (intros _; by eexists).
  intros _. unfold over_cost in Ec. destruct (l_max_cost l); [by eexists|done].
Qed.

(** ** A concrete configuration *)

Module Shapes.
Definition str (j : Json) : string := "".
Definition float (j : Json) : res Qc := Raise TypeError.
Definition payload : Json :=
  JObj [("schema_version", JInt 1);
        ("rules", JList [JObj [("model_contains", JStr "wan"); ("resolution", JStr "64x32");
                               ("max_batch_size", JInt 3); ("max_cost", JInt 100)];
                         JObj [("model", JStr "org/wan2"); ("max_batch_size", JInt 2);
                               ("offload", JStr " No ")]])].
Definition rules : list BatchingRule :=
  match load_batching_config str float (Some payload) with Ok l => l | Raise _ => [] end.
Definition req : Req :=
  mk_req [("width", PJson (JInt 64)); ("height", PJson (JInt 32))] PNone.
Definition controller : Controller :=
  init_controller true 8 "org/wan2" false None rules.
Definition cost (r : Req) : Qc := Qc_of_Z 40.

Lemma rules_valid : Forall rule_valid rules.
Proof. repeat constructor; apply validate_rule_Ok; reflexivity. Qed.
End Shapes.

Lemma loaded_rules_valid_witness : length Shapes.rules = 2%nat ∧ Forall rule_valid Shapes.rules.
Proof.
  destruct (loaded_rules_valid Shapes.str Shapes.float Shapes.payload Shapes.rules)
    as (_ & H & es & He & Hl); [vm_compute; reflexivity|].
  split; [|exact H]. rewrite Hl. by injection He as <-.
Defined.

Lemma admission_exact_witness :
  reject_reason_for_candidate Shapes.cost Shapes.controller [Shapes.req] Shapes.req = Ok None.
Proof.
  apply (admission_exact Shapes.cost Shapes.controller [Shapes.req] Shapes.req (Some "64x32"));
    [reflexivity|apply Shapes.rules_valid|vm_compute; reflexivity|].
  split; [vm_compute; discriminate|].
  repeat constructor; simpl; try lia; intros m Hm; [|done].
  injection Hm as <-. vm_compute. discriminate.
Defined.

Lemma full_iff_next_rejected_witness :
  ∃ rej, reject_reason_for_candidate Shapes.cost Shapes.controller [Shapes.req; Shapes.req]
           Shapes.req = Ok rej ∧ is_Some rej.
Proof.
  destruct (full_iff_next_rejected Shapes.cost Shapes.controller Shapes.req [Shapes.req] true)
    as (rej & lim & H1 & _ & H2 & _); [reflexivity|vm_compute; reflexivity|].
  exists rej. split; [exact H1|by apply H2].
Defined.
