(* ===== verification/Batching.v ===== *)
(** * Merging requests into a dynamic batch and splitting its output

    Models the stateless part of [managers/scheduler.py]: the signature that decides
    which requests may share a batch, the merged request, and the split of a merged
    output; with [Req.output_file_path], [set_as_warmup] and [OutputBatch] of
    [pipelines_core/schedule_batch.py].

    [repr(v)], the text of a value in an f-string and [os.path] on POSIX are of the
    language; the first two are parameters. The signature cached on a request is a
    memoisation and is computed anew here. Sorting the keys of a frozen dictionary does
    not show in [==], which ignores their order. *)

From S2P Require Import Prelude PyJson Codec PyValue Buffer Fields.
Local Open Scope string_scope.
Local Open Scope Z_scope.

(** ** Signatures *)

(** The fields of [SamplingParams] marked [batch_sig_exclude]. *)
Definition BATCH_SIG_EXCLUDE : list string :=
  ["request_id"; "prompt"; "prompt_path"; "output_path"; "output_file_name"; "seed";
   "supported_resolutions"; "profile"; "num_profiled_timesteps"; "profile_all_stages"; "debug";
   "perf_dump_path"; "return_frames"; "no_override_protected_fields"; "suppress_logs"].

Fixpoint freeze_json (j : Json) : pyval :=
  match j with
  | JList l => PTuple (freeze_json <$> l)
  | JObj d => PDict ((λ kv, (kv.1, freeze_json kv.2)) <$> d)
  | _ => PJson j
  end.

(** [a == b] of frozen values. *)
Fixpoint frozen_equal (v w : pyval) : bool :=
  match v, w with
  | PJson _, PJson b => py_eq v b
  | PTuple l, PTuple m =>
      (fix go (l m : list pyval) : bool :=
        match l, m with
        | [], [] => true
        | x :: l, y :: m => frozen_equal x y && go l m
        | _, _ => false
        end) l m
  | PDict d, PDict e =>
      bool_decide (length d = length e) &&
      (fix go (d : list (string * pyval)) : bool :=
        match d with
        | [] => true
        | (k, x) :: d =>
            match dget k e with Some y => frozen_equal x y | None => false end && go d
        end) d
  | _, _ => false
  end.

Definition Signature : Type := list (string * pyval).

Fixpoint signature_equal (a b : Signature) : bool :=
  match a, b with
  | [], [] => true
  | (k, x) :: a, (l, y) :: b => bool_decide (k = l) && frozen_equal x y && signature_equal a b
  | _, _ => false
  end.

Definition attr_truthy (r : Req) (name : string) : res bool :=
  v ← req_attr r name; Ok (py_truthy v).
Definition is_str (v : pyval) : bool := match v with PJson (JStr _) => true | _ => false end.

Section Compatible.
Context (repr : pyval → string).

Fixpoint freeze_signature_value (v : pyval) : pyval :=
  match v with
  | PJson j => freeze_json j
  | PList l | PTuple l => PTuple (freeze_signature_value <$> l)
  | PDict d => PDict ((λ kv, (kv.1, freeze_signature_value kv.2)) <$> d)
  | PTensor _ | PGenerator _ | PObject _ => PJson (JStr (repr v))
  end.

Definition sampling_param_signature_items (r : Req) : option Signature :=
  match sampling_params r with
  | PDict d =>
      Some ((λ kv, (kv.1, freeze_signature_value kv.2)) <$>
              filter (λ kv, kv.1 ∉ BATCH_SIG_EXCLUDE) d)
  | _ => None
  end.

(** [(req.extra or {}).get("diffusers_kwargs")] *)
Definition diffusers_kwargs (r : Req) : res pyval :=
  e ← req_attr r "extra";
  if py_truthy e then
    match e with PDict d => Ok (default PNone (dget "diffusers_kwargs" d)) | _ => Raise AttributeError end
  else Ok PNone.
Definition diffusers_kwargs_signature_value (r : Req) : res pyval :=
  kw ← diffusers_kwargs r; Ok (freeze_signature_value kw).

Definition build_dynamic_batch_signature (r : Req) : res (option Signature) :=
  match sampling_param_signature_items r with
  | None => Ok None
  | Some items =>
      kw ← diffusers_kwargs r;
      Ok (Some (if py_truthy kw
                then items ++ [("diffusers_kwargs", freeze_signature_value kw)]
                else items)%list)
  end.

(** The tests that [_can_dynamic_batch] and [_get_dynamic_batch_reject_reason] share,
    with the reason the latter gives; [or] skips its second operand. *)
Definition ineligible (base cand : Req) : res (option string) :=
  w ← attr_truthy base "is_warmup";
  w' ← (if w : bool then Ok true else attr_truthy cand "is_warmup");
  if w' : bool then Ok (Some "warmup") else
  p ← req_attr base "prompt";
  p' ← (if is_str p then req_attr cand "prompt" else Ok p);
  if negb (is_str p') then Ok (Some "prompt_type") else
  i ← req_attr base "image_path";
  i' ← (if is_none i then req_attr cand "image_path" else Ok i);
  if negb (is_none i') then Ok (Some "image_conditioning") else
  f ← req_attr base "return_file_paths_only";
  f' ← req_attr cand "return_file_paths_only";
  Ok (if frozen_equal (freeze_signature_value f) (freeze_signature_value f') then None
      else Some "return_file_paths_only").

Definition can_dynamic_batch (base cand : Req) : res bool :=
  bad ← ineligible base cand;
  match bad with
  | Some _ => Ok false
  | None =>
      s ← build_dynamic_batch_signature base;
      s' ← build_dynamic_batch_signature cand;
      Ok (match s, s' with Some a, Some b => signature_equal a b | _, _ => false end)
  end.

Fixpoint first_mismatch (a b : Signature) : option string :=
  match a, b with
  | (k, x) :: a, (l, y) :: b =>
      if bool_decide (k ≠ l) then Some "sampling_params"
      else if negb (frozen_equal x y) then Some ("sampling_params." +:+ k)
      else first_mismatch a b
  | _, _ => None
  end.

Definition find_sampling_param_mismatch_field (base cand : Req) : res (option string) :=
  match sampling_param_signature_items base, sampling_param_signature_items cand with
  | Some a, Some b =>
      if bool_decide (length a ≠ length b) then Ok (Some "sampling_params")
      else match first_mismatch a b with
           | Some m => Ok (Some m)
           | None =>
               x ← diffusers_kwargs_signature_value base;
               y ← diffusers_kwargs_signature_value cand;
               Ok (if frozen_equal x y then None else Some "extra.diffusers_kwargs")
           end
  | _, _ => Ok None
  end.

Definition get_dynamic_batch_reject_reason (base cand : Req) : res (option string) :=
  ok ← can_dynamic_batch base cand;
  if ok : bool then Ok None else
  bad ← ineligible base cand;
  match bad with
  | Some reason => Ok (Some reason)
  | None =>
      s ← build_dynamic_batch_signature base;
      s' ← build_dynamic_batch_signature cand;
      match s, s' with
      | Some _, Some _ =>
          m ← find_sampling_param_mismatch_field base cand;
          Ok (Some (default "signature_mismatch" m))
      | _, _ => Ok (Some "signature_unavailable")
      end
  end.
End Compatible.

(** ** Output paths *)

Fixpoint rfind (c : nat) (s : string) : option nat :=
  match s with
  | EmptyString => None
  | String d s' =>
      match rfind c s' with
      | Some i => Some (S i)
      | None => if bool_decide (ord d = c) then Some 0%nat else None
      end
  end.
Fixpoint all_dots (s : string) : bool :=
  match s with EmptyString => true | String c s' => bool_decide (ord c = 46%nat) && all_dots s' end.

(** [os.path.splitext]: the last dot of the file name, unless only dots precede it. *)
Definition splitext (p : string) : string * string :=
  let sep := match rfind 47 p with Some i => S i | None => 0%nat end in
  match rfind 46 p with
  | Some d =>
      if (sep <=? d)%nat && negb (all_dots (String.substring sep (d - sep) p))
      then (String.substring 0 d p, String.substring d (String.length p - d) p)
      else (p, "")
  | None => (p, "")
  end.

Fixpoint ends_with_slash (s : string) : bool :=
  match s with
  | EmptyString => false
  | String c EmptyString => bool_decide (ord c = 47%nat)
  | String _ s' => ends_with_slash s'
  end.
(** [os.path.join(a, b)] *)
Definition path_join (a b : string) : string :=
  if startswith b "/" then b
  else if bool_decide (a = "") || ends_with_slash a then a +:+ b
  else a +:+ "/" +:+ b.

(** [Req.output_file_path]; names and paths are strings or [None]. *)
Definition output_file_path (r : Req) (num_outputs output_idx : Z) : res pyval :=
  name ← req_attr r "output_file_name";
  name ← match name with
         | PJson (JStr s) =>
             Ok (if (1 <? num_outputs) && negb (bool_decide (s = ""))
                 then let '(base, ext) := splitext s in
                      PJson (JStr (base +:+ "_" +:+ dumps_int output_idx +:+ ext))
                 else PJson (JStr s))
         | PNone => Ok PNone
         | _ => Raise TypeError
         end;
  path ← req_attr r "output_path";
  if is_none path || negb (py_truthy name) then Ok PNone
  else match path, name with
       | PJson (JStr a), PJson (JStr b) => Ok (PJson (JStr (path_join a b)))
       | _, _ => Raise TypeError
       end.

(** [OutputBatch]. [metrics] is a [RequestMetrics] object with its attributes. *)
Record OutputBatch := mk_output {
  output : pyval;
  audio : pyval;
  audio_sample_rate : pyval;
  trajectory_timesteps : pyval;
  trajectory_latents : pyval;
  rollout_trajectory_data : pyval;
  trajectory_decoded : pyval;
  error : pyval;
  output_file_paths : pyval;
  metrics : option (dict pyval);
  metrics_list : pyval;
  noise_pred : pyval;
  peak_memory_mb : pyval;
}.

Definition no_output : OutputBatch :=
  mk_output PNone PNone PNone PNone PNone PNone PNone PNone PNone None PNone PNone (PJson (JInt 0)).
(** [OutputBatch(error=e)] and [OutputBatch(output=o)] *)
Definition error_output (e : string) : OutputBatch :=
  mk_output PNone PNone PNone PNone PNone PNone PNone (PJson (JStr e)) PNone None PNone PNone (PJson (JInt 0)).
Definition value_output (o : pyval) : OutputBatch :=
  mk_output o PNone PNone PNone PNone PNone PNone PNone PNone None PNone PNone (PJson (JInt 0)).

Definition build_dynamic_batch_error_outputs (reqs : list Req) (msg : string) : list OutputBatch :=
  (λ _, error_output msg) <$> reqs.

(** ** Merging *)

Definition attr_int (r : Req) (name : string) : res Z :=
  v ← req_attr r name;
  match v with
  | PJson (JInt z) => Ok z
  | PJson (JBool b) => Ok (if b then 1 else 0)
  | _ => Raise TypeError
  end.

(** [d[k] = v] for a value that is a dictionary. *)
Definition set_key (k : string) (v : pyval) (d : pyval) : res pyval :=
  match d with PDict d => Ok (PDict (dset k v d)) | _ => Raise TypeError end.

Section Merge.
(** [repr(v)], and the text of [v] in an f-string *)
Context (repr format : pyval → string).

Fixpoint all_compatible (base : Req) (reqs : list Req) : res bool :=
  match reqs with
  | [] => Ok true
  | r :: reqs =>
      ok ← can_dynamic_batch repr base r;
      if ok : bool then all_compatible base reqs else Ok false
  end.

Definition request_output_paths (r : Req) : res (list pyval) :=
  n ← attr_int r "num_outputs_per_prompt";
  res_mapM (λ i, output_file_path r n i) (seqZ 0 n).

(** [_try_merge_generation_reqs] *)
Definition try_merge_generation_reqs (reqs : list Req) : res (option Req) :=
  match reqs with
  | [] => Ok None
  | [r] => Ok (Some r)
  | base :: rest =>
      ok ← all_compatible base rest;
      if negb ok then Ok None else
      prompts ← res_mapM (λ r, req_attr r "prompt") reqs;
      let m := req_setattr "prompt" (PList prompts) base in
      extra ← req_attr m "extra";
      seeds ← res_mapM (λ r, req_attr r "seed") reqs;
      extra ← set_key "dynamic_batch_seeds" (PList seeds) extra;
      paths_only ← req_attr base "return_file_paths_only";
      let m := req_setattr "return_file_paths_only" paths_only m in
      extra ← (if py_truthy paths_only then
                 paths ← res_mapM request_output_paths reqs;
                 set_key "dynamic_batch_output_paths" (PList (concat paths)) extra
               else Ok extra);
      let m := req_setattr "extra" extra m in
      rid ← req_attr m "request_id";
      Ok (Some (req_setattr "request_id" (PJson (JStr ("dynamic_batch::" +:+ format rid))) m))
  end.
End Merge.

(** ** Splitting *)

(** [_count_first_dim] *)
Definition count_first_dim (v : pyval) : option Z :=
  match v with
  | PList l | PTuple l => Some (Z.of_nat (length l))
  | PJson (JList l) => Some (Z.of_nat (length l))
  | PTensor t => head (t_shape t)
  | _ => None
  end.

(** [t[start:end]] along the first dimension. *)
Definition slice_tensor (t : tensor) (a b : Z) : tensor :=
  match t_shape t with
  | [] => t
  | n :: rest =>
      let i := slice_bound (Z.to_nat n) a in
      let k := (slice_bound (Z.to_nat n) b - i)%nat in
      let row := Z.to_nat (numel rest * element_size (t_dtype t)) in
      mk_tensor (Z.of_nat k :: rest) (t_dtype t) (String.substring (i * row) (k * row) (t_data t))
  end.

Definition slice_batched_value (v : pyval) (a b total : Z) : pyval :=
  match v with
  | PList l => if Z.of_nat (length l) =? total then PList (py_slice l a b) else v
  | PTuple l => if Z.of_nat (length l) =? total then PTuple (py_slice l a b) else v
  | PJson (JList l) => if Z.of_nat (length l) =? total then PJson (JList (py_slice l a b)) else v
  | PTensor t => if bool_decide (count_first_dim v = Some total) then PTensor (slice_tensor t a b) else v
  | _ => v
  end.

(** One request's share. Rollout data and the list of metrics are not passed on. *)
Definition split_one (o : OutputBatch) (a b total : Z) (rid : pyval) : OutputBatch :=
  let cut v := slice_batched_value v a b total in
  mk_output (cut (output o)) (cut (audio o)) (audio_sample_rate o) (cut (trajectory_timesteps o))
    (cut (trajectory_latents o)) PNone (cut (trajectory_decoded o)) (error o)
    (cut (output_file_paths o)) (dset "request_id" rid <$> metrics o) PNone (cut (noise_pred o))
    (peak_memory_mb o).

Fixpoint split_loop (o : OutputBatch) (reqs : list (Req * Z)) (start total : Z) : res (list OutputBatch) :=
  match reqs with
  | [] => Ok []
  | (r, n) :: reqs =>
      rid ← match metrics o with Some _ => req_attr r "request_id" | None => Ok PNone end;
      os ← split_loop o reqs (start + n) total;
      Ok (split_one o start (start + n) total rid :: os)
  end.

(** [x is not None and x != total] *)
Definition count_differs (c : option Z) (total : Z) : bool :=
  match c with Some n => negb (n =? total) | None => false end.

Definition split_batched_output (o : OutputBatch) (reqs : list Req) : res (option (list OutputBatch)) :=
  counts ← res_mapM (λ r, attr_int r "num_outputs_per_prompt") reqs;
  let total := foldr Z.add 0 counts in
  let output_items := count_first_dim (output o) in
  let path_items := count_first_dim (output_file_paths o) in
  if bool_decide (output_items = None) && bool_decide (path_items = None) then Ok None
  else if count_differs output_items total then Ok None
  else if count_differs path_items total then Ok None
  else os ← split_loop o (zip reqs counts) 0 total; Ok (Some os).

(** ** Warmup requests *)

Definition set_as_warmup (warmup_steps : Z) (r : Req) : res Req :=
  let r := req_setattr "is_warmup" (PJson (JBool true)) r in
  let r := req_setattr "save_output" (PJson (JBool false)) r in
  let r := req_setattr "suppress_logs" (PJson (JBool true)) r in
  extra ← req_attr r "extra";
  steps ← req_attr r "num_inference_steps";
  extra ← set_key "cache_dit_num_inference_steps" steps extra;
  let r := req_setattr "extra" extra r in
  Ok (req_setattr "num_inference_steps" (PJson (JInt warmup_steps)) r).
