(* ===== verification/Scheduler.v ===== *)
(** * The scheduler of a monolithic server

    Models [Scheduler] of [managers/scheduler.py] on rank 0 of a single-rank server in
    monolithic mode: receiving requests, request-based warmup, the waiting queue with
    dynamic batching, dispatch, and replying. The model forward, the other worker calls,
    unpickling and the file spill of large arrays are parameters; time is an argument of
    each iteration. The warmup requests of [prepare_server_warmup_reqs] are given to the
    constructor. Broadcasts to other ranks, tracing, log output and a reply socket that
    fails are not modelled. *)

From S2P Require Import Prelude PyJson Codec PyValue Fields Admission Batching.
Local Open Scope string_scope.
Local Open Scope Z_scope.

(** What a client may send: generation requests, lists, and control requests. *)
Inductive Control :=
  | SetLora | MergeLora | UnmergeLora | ListLoras | ShutdownReq | GetDisaggStats
  | UpdateWeights | GetChecksum | UnknownType.
Inductive Obj :=
  | OReq (r : Req)
  | OList (l : list Obj)
  | OControl (c : Control).

(** [pickle.loads]: a value, an error the receiver skips, or another exception. *)
Inductive Unpickled :=
  | Loaded (o : Obj)
  | Malformed
  | LoadRaises (e : exc).

Record Env := mk_env {
  forward : list Req → res OutputBatch;
  control : Control → res OutputBatch;
  pickle_loads : string → Unpickled;
  spill : pyval → pyval;
  repr : pyval → string;
  format : pyval → string;
  request_cost : Req → Qc;
  exc_str : exc → string;
}.

(** A reason not to batch a request: the admission controller's, or another. *)
Inductive Why :=
  | WAdmission (r : Reason)
  | WText (s : string).

Record BatchMetricsWindow := mk_window {
  dispatches : Z;
  total_requests : Z;
  total_capacity : Z;
  merged_dispatches : Z;
  full_dispatches : Z;
  wait_times_ms : list Qc;
  reject_reasons : list Why;
}.
Definition init_window : BatchMetricsWindow := mk_window 0 0 0 0 0 [] [].

Record Entry := mk_entry {
  q_identity : option string;
  q_obj : Obj;
  q_time : Qc;
}.

(** The configuration of a scheduler, which does not change. *)
Record Config := mk_config {
  batching_max_size : Z;
  batching_delay_s : Qc;
  batch_metrics_enabled : bool;
  batch_admission : Controller;
  supports_dynamic_batching : bool;
  local_endpoint : bool;
  warmup : bool;
  warmup_resolutions : bool;
  warmup_steps : Z;
}.

Record Scheduler := mk_scheduler {
  config : Config;
  running : bool;
  inbox : list (list string);
  waiting_queue : list Entry;
  window : BatchMetricsWindow;
  warmed_up : bool;
  warmup_total : Z;
  warmup_processed : Z;
  consecutive_error_count : Z;
  outbox : list (string * OutputBatch);
}.

Definition set_running b (s : Scheduler) : Scheduler :=
  mk_scheduler (config s) b (inbox s) (waiting_queue s) (window s) (warmed_up s) (warmup_total s)
    (warmup_processed s) (consecutive_error_count s) (outbox s).
Definition set_inbox f (s : Scheduler) : Scheduler :=
  mk_scheduler (config s) (running s) (f (inbox s)) (waiting_queue s) (window s) (warmed_up s)
    (warmup_total s) (warmup_processed s) (consecutive_error_count s) (outbox s).
Definition set_queue f (s : Scheduler) : Scheduler :=
  mk_scheduler (config s) (running s) (inbox s) (f (waiting_queue s)) (window s) (warmed_up s)
    (warmup_total s) (warmup_processed s) (consecutive_error_count s) (outbox s).
Definition set_window f (s : Scheduler) : Scheduler :=
  mk_scheduler (config s) (running s) (inbox s) (waiting_queue s) (f (window s)) (warmed_up s)
    (warmup_total s) (warmup_processed s) (consecutive_error_count s) (outbox s).
Definition set_warmup (w : bool) (total processed : Z) (s : Scheduler) : Scheduler :=
  mk_scheduler (config s) (running s) (inbox s) (waiting_queue s) (window s) w total processed
    (consecutive_error_count s) (outbox s).
Definition set_errors f (s : Scheduler) : Scheduler :=
  mk_scheduler (config s) (running s) (inbox s) (waiting_queue s) (window s) (warmed_up s)
    (warmup_total s) (warmup_processed s) (f (consecutive_error_count s)) (outbox s).
Definition set_outbox f (s : Scheduler) : Scheduler :=
  mk_scheduler (config s) (running s) (inbox s) (waiting_queue s) (window s) (warmed_up s)
    (warmup_total s) (warmup_processed s) (consecutive_error_count s) (f (outbox s)).

Definition MAX_RECV_REQS_PER_POLL : nat := 1024.
Definition BATCH_METRICS_LOG_INTERVAL : Z := 5.
Definition max_consecutive_errors : Z := 3.

(** [__init__]; [warmups] are the requests of [prepare_server_warmup_reqs], which runs
    when warmup resolutions are configured. *)
Definition init_scheduler (c : Config) (warmups : list Req) (now : Qc) : Scheduler :=
  if warmup c && warmup_resolutions c then
    mk_scheduler c true [] ((λ r, mk_entry None (OReq r) now) <$> warmups) init_window true
      (Z.of_nat (length warmups)) 0 0 []
  else mk_scheduler c true [] [] init_window false 0 0 0 [].

(** ** Receiving *)

Definition is_Req (o : Obj) : bool := match o with OReq _ => true | _ => false end.

Definition first_generation_req (o : Obj) : option Req :=
  match o with
  | OReq r => Some r
  | OList (OReq r :: _) => Some r
  | _ => None
  end.

Definition is_warmup_item (o : Obj) : res bool :=
  match first_generation_req o with Some r => attr_truthy r "is_warmup" | None => Ok false end.

(** [_normalize_received_payload] *)
Definition normalize_received_payload (identity : string) (o : Obj) : list (string * Obj) :=
  match o with
  | OList [] => []
  | OList l =>
      if forallb is_Req l then
        match l with [r] => [(identity, r)] | _ => [(identity, OList l)] end
      else pair identity <$> l
  | _ => [(identity, o)]
  end.

Section Env.
Context (env : Env).

(** One message of the socket; the frames of a well-formed one are more than two. *)
Definition receive_message (parts : list string) : res (list (string * Obj)) :=
  match parts with
  | [] => Ok []
  | identity :: _ =>
      if (2 <? length parts)%nat then
        match pickle_loads env (List.last parts "") with
        | Loaded o => Ok (normalize_received_payload identity o)
        | Malformed => Ok []
        | LoadRaises e => Raise e
        end
      else Ok []
  end.

(** The receive loop, for at most [n] messages. *)
Fixpoint recv_loop (n : nat) (recv_reqs : list (string * Obj)) : M Scheduler (list (string * Obj)) :=
  match n with
  | O => mret recv_reqs
  | S n =>
      if (length recv_reqs <? MAX_RECV_REQS_PER_POLL)%nat then
        box ← gets inbox;
        match box with
        | [] => mret recv_reqs
        | parts :: box =>
            modify (set_inbox (λ _, box)) ≫= λ _,
            new ← lift_res (receive_message parts);
            recv_loop n (recv_reqs ++ new)%list
        end
      else mret recv_reqs
  end.
Definition recv_reqs : M Scheduler (list (string * Obj)) := λ s, recv_loop (length (inbox s)) [] s.

Definition process_received_reqs_with_req_based_warmup (l : list (string * Obj)) :
    M Scheduler (list (string * Obj)) :=
  s ← get;
  match l with
  | [] => mret l
  | (identity, o) :: _ =>
      if warmed_up s || negb (warmup (config s)) || warmup_resolutions (config s) then mret l
      else match first_generation_req o with
           | None => mret l
           | Some r =>
               w ← lift_res (set_as_warmup (warmup_steps (config s)) r);
               modify (set_warmup true 1 0) ≫= λ _,
               mret ((identity, OReq w) :: l)
           end
  end.

(** ** Metrics of the dispatches *)

Definition dynamic_batching_enabled (c : Config) : bool :=
  enabled (batch_admission c) && supports_dynamic_batching c.

Definition Qcmax0 (q : Qc) : Qc := if decide (q < 0)%Qc then 0%Qc else q.

Definition record_batch_dispatch_metrics (batch_size : Z) (queue_wait_ms : Qc)
    (effective_max_batch_size : Z) (reasons : list Why) : M Scheduler unit :=
  c ← gets config;
  if negb (batch_metrics_enabled c) then mret tt else
  let eff := Z.max 1 effective_max_batch_size in
  modify (set_window (λ w,
    let w := mk_window (dispatches w + 1) (total_requests w + batch_size) (total_capacity w + eff)
      (merged_dispatches w + (if 1 <? batch_size then 1 else 0))
      (full_dispatches w + (if dynamic_batching_enabled c && (eff <=? batch_size) then 1 else 0))
      (wait_times_ms w ++ [Qcmax0 queue_wait_ms])%list (reject_reasons w ++ reasons)%list in
    if BATCH_METRICS_LOG_INTERVAL <=? dispatches w then init_window else w)).

(** ** Choosing the next batch *)

(** The scan of the queue behind its head [base]. *)
Fixpoint scan_queue (c : Config) (base : Req) (rest : list Entry) (idx : nat)
    (indices : list nat) (reqs : list Req) (reasons : list Why) :
    res (list nat * list Req * list Why) :=
  match rest with
  | [] => Ok (indices, reqs, reasons)
  | e :: rest =>
      full ← (if batching_max_size c <=? length indices then Ok true
              else batch_is_full (request_cost env) (batch_admission c) reqs);
      if full : bool then Ok (indices, reqs, reasons) else
      match q_obj e with
      | OReq cand =>
          ok ← can_dynamic_batch (repr env) base cand;
          if ok : bool then
            rej ← reject_reason_for_candidate (request_cost env) (batch_admission c) reqs cand;
            match rej with
            | None => scan_queue c base rest (S idx) (indices ++ [idx])%list (reqs ++ [cand])%list reasons
            | Some why =>
                scan_queue c base rest (S idx) indices reqs
                  (if batch_metrics_enabled c then reasons ++ [WAdmission why] else reasons)%list
            end
          else if batch_metrics_enabled c then
            why ← get_dynamic_batch_reject_reason (repr env) base cand;
            scan_queue c base rest (S idx) indices reqs
              (match why with Some w => reasons ++ [WText w] | None => reasons end)%list
          else scan_queue c base rest (S idx) indices reqs reasons
      | _ => scan_queue c base rest (S idx) indices reqs reasons
      end
  end.

(** The entries at ascending indices, and the queue without them. *)
Definition take_indices (indices : list nat) (q : list Entry) : list Entry * list Entry :=
  (omap (λ i, q !! i) indices, foldr (λ i q, delete i q) q indices).

Definition item_of_entry (e : Entry) : option string * Obj := (q_identity e, q_obj e).

Definition get_next_batch_to_run (now : Qc) : M Scheduler (option (list (option string * Obj))) :=
  s ← get;
  let c := config s in
  match waiting_queue s with
  | [] => mret None
  | e :: rest =>
      let wait := (now - q_time e)%Qc in
      let wait_ms := (wait * Qc_of_Z 1000)%Qc in
      let pop : M Scheduler unit := modify (set_queue (λ _, rest)) in
      if negb (dynamic_batching_enabled c) then
        pop ≫= λ _,
        when (is_Req (q_obj e)) (record_batch_dispatch_metrics 1 wait_ms 1 []) ≫= λ _,
        mret (Some [item_of_entry e])
      else
      match q_obj e with
      | OReq r =>
          ok ← lift_res (can_dynamic_batch (repr env) r r);
          if negb ok then
            pop ≫= λ _,
            reasons ← (if batch_metrics_enabled c then
                         why ← lift_res (get_dynamic_batch_reject_reason (repr env) r r);
                         mret (match why with Some w => [WText ("head:" +:+ w)] | None => [] end)
                       else mret []);
            record_batch_dispatch_metrics 1 wait_ms 1 reasons ≫= λ _,
            mret (Some [item_of_entry e])
          else
            '(indices, reqs, reasons) ← lift_res (scan_queue c r rest 1 [0%nat] [r] []);
            let batch_len := length indices in
            more ← (if Z.of_nat batch_len <? batching_max_size c then
                      full ← lift_res (batch_is_full (request_cost env) (batch_admission c) reqs);
                      mret (negb full && bool_decide (wait < batching_delay_s c)%Qc)
                    else mret false);
            if more : bool then mret None else
            let '(items, q) := take_indices indices (waiting_queue s) in
            modify (set_queue (λ _, q)) ≫= λ _,
            _ ← lift_res (limit_reason_for_batch (request_cost env) (batch_admission c) reqs);
            eff ← lift_res (max_admissible_batch_size (batch_admission c) r);
            record_batch_dispatch_metrics (Z.of_nat batch_len) wait_ms eff reasons ≫= λ _,
            mret (Some (item_of_entry <$> items))
      | _ => pop ≫= λ _, mret (Some [item_of_entry e])
      end
  end.

(** ** Dispatch *)

(** What a handler returns: one output, or one for each request. *)
Inductive Handled :=
  | One (o : OutputBatch)
  | Many (os : list OutputBatch).

Fixpoint execute_generation_sequential (reqs : list Req) : res (list OutputBatch) :=
  match reqs with
  | [] => Ok []
  | r :: reqs => o ← forward env [r]; os ← execute_generation_sequential reqs; Ok (o :: os)
  end.

Fixpoint count_warmups (reqs : list Req) : res Z :=
  match reqs with
  | [] => Ok 0
  | r :: reqs => w ← attr_truthy r "is_warmup"; n ← count_warmups reqs; Ok ((if w : bool then 1 else 0) + n)
  end.

(** The body of the [try] that runs a merged request. *)
Definition run_merged (merged : Req) (reqs : list Req) : res Handled :=
  o ← forward env [merged];
  if py_truthy (error o) then Ok (Many (build_dynamic_batch_error_outputs reqs (format env (error o))))
  else
    split ← split_batched_output o reqs;
    Ok (Many (match split with
              | Some os => os
              | None => build_dynamic_batch_error_outputs reqs
                          "Dynamic batching failed: could not split merged output."
              end)).

Definition handle_generation (reqs : list Req) (allow_dynamic_batching : bool) : M Scheduler Handled :=
  n ← lift_res (count_warmups reqs);
  modify (λ s, set_warmup (warmed_up s) (warmup_total s) (warmup_processed s + n) s) ≫= λ _,
  match reqs with
  | [] => raise IndexError
  | _ =>
      if bool_decide (length reqs = 1%nat) || negb allow_dynamic_batching
      then o ← lift_res (forward env reqs); mret (One o)
      else
        merged ← lift_res (try_merge_generation_reqs (repr env) (format env) reqs);
        match merged with
        | None => os ← lift_res (execute_generation_sequential reqs); mret (Many os)
        | Some m =>
            try_except (lift_res (run_merged m reqs)) (λ _, true)
              (λ e, mret (Many (build_dynamic_batch_error_outputs reqs
                ("Dynamic batching failed: " +:+ exc_str env e))))
        end
  end.

Definition reqs_of (l : list Obj) : list Req :=
  omap (λ o, match o with OReq r => Some r | _ => None end) l.

Definition dispatch_single_request (o : Obj) : M Scheduler Handled :=
  match o with
  | OReq r => handle_generation [r] true
  | OList l =>
      if forallb is_Req l then handle_generation (reqs_of l) false
      else mret (One (error_output "Unknown request group type: list"))
  | OControl ShutdownReq => modify (set_running false) ≫= λ _, mret (One no_output)
  | OControl UnknownType => mret (One (error_output "Unknown request type"))
  | OControl k => o ← lift_res (control env k); mret (One o)
  end.

Definition output_of (h : Handled) : list OutputBatch := match h with One o => [o] | Many os => os end.

(** Several items that are not all plain requests are dispatched one by one. *)
Fixpoint dispatch_each (items : list (option string * Obj)) : M Scheduler (list OutputBatch) :=
  match items with
  | [] => mret []
  | (_, o) :: items =>
      h ← dispatch_single_request o;
      os ← dispatch_each items;
      mret (output_of h ++ os)%list
  end.

Definition dispatch_items (items : list (option string * Obj)) : M Scheduler Handled :=
  match items with
  | [] => raise IndexError
  | [(_, o)] => dispatch_single_request o
  | _ =>
      let objs := items.*2 in
      if forallb is_Req objs then handle_generation (reqs_of objs) true
      else os ← dispatch_each items; mret (Many os)
  end.

(** ** The event loop *)

Definition return_result (identity : option string) (is_warmup : bool) (o : OutputBatch) : M Scheduler unit :=
  match is_warmup, identity with
  | false, Some c =>
      modify (λ s, set_outbox (λ l, l ++ [(c,
        if local_endpoint (config s)
        then mk_output (spill env (output o)) (audio o) (audio_sample_rate o) (trajectory_timesteps o)
               (trajectory_latents o) (rollout_trajectory_data o) (trajectory_decoded o) (error o)
               (output_file_paths o) (metrics o) (metrics_list o) (noise_pred o) (peak_memory_mb o)
        else o)])%list s)
  | _, _ => mret tt
  end.

Fixpoint return_results (items : list (option string * Obj)) (os : list OutputBatch) : M Scheduler unit :=
  match items, os with
  | (identity, obj) :: items, o :: os =>
      w ← lift_res (is_warmup_item obj);
      return_result identity w o ≫= λ _,
      return_results items os
  | _, _ => mret tt
  end.

(** Step 1 of an iteration: whether to go on. *)
Definition receive_step (now : Qc) : M Scheduler bool :=
  try_except
    (new ← recv_reqs;
     new ← process_received_reqs_with_req_based_warmup new;
     modify (set_queue (λ q, q ++ ((λ p, mk_entry (Some p.1) p.2 now) <$> new))%list) ≫= λ _,
     modify (set_errors (λ _, 0)) ≫= λ _,
     mret true)
    (λ _, true)
    (λ e,
     modify (set_errors (λ n, n + 1)) ≫= λ _,
     n ← gets consecutive_error_count;
     if max_consecutive_errors <=? n then raise RuntimeError else mret false).

Definition unmatched (n k : nat) : string :=
  "Internal scheduler error: expected " +:+ dumps_int (Z.of_nat n) +:+ " outputs, got " +:+
  dumps_int (Z.of_nat k) +:+ ".".

Definition match_outputs (items : list (option string * Obj)) (h : Handled) : list OutputBatch :=
  let os := output_of h in
  if bool_decide (length os = length items) then os
  else (λ _, error_output (unmatched (length items) (length os))) <$> items.

(** Steps 2 and 3: run a batch, and reply. *)
Definition run_step (now : Qc) : M Scheduler unit :=
  items ← get_next_batch_to_run now;
  match items with
  | None | Some [] => mret tt
  | Some items =>
      h ← try_except (dispatch_items items) (λ _, true)
            (λ e, mret (One (error_output (exc_str env e))));
      return_results items (match_outputs items h)
  end.

Definition loop_iteration (now : Qc) (arrivals : list (list string)) : M Scheduler unit :=
  modify (set_inbox (λ b, b ++ arrivals)%list) ≫= λ _,
  go ← receive_step now;
  if go : bool then run_step now else mret tt.

(** Iterations while the scheduler runs, each with the time it reads and the messages
    that have arrived. *)
Fixpoint event_loop (inputs : list (Qc * list (list string))) : M Scheduler unit :=
  match inputs with
  | [] => mret tt
  | (now, arrivals) :: inputs =>
      r ← gets running;
      if r : bool then loop_iteration now arrivals ≫= λ _, event_loop inputs else mret tt
  end.
End Env.
