(* ===== verification/SchedulerFacts.v ===== *)
(** * Facts about the scheduler

    Taking a batch out of the queue, the scan that chooses it, and what each part of an
    iteration does to the queue and to the replies. *)

From Stdlib Require Import Sorting.Sorted.
From S2P Require Import Prelude PyJson Codec PyValue Buffer BufferFacts Fields Admission Batching Scheduler.
Local Open Scope string_scope.
Local Open Scope Z_scope.

(** ** Taking entries at ascending indices *)

Definition ascending (l : list nat) : Prop := StronglySorted lt l.

Lemma ascending_cases l :
  ascending l → (∃ m, ascending m ∧ l = 0%nat :: (S <$> m)) ∨ (∃ m, ascending m ∧ l = S <$> m).
Proof.
  assert (∀ l, ascending l → Forall (λ i, 0 < i)%nat l → ∃ m, ascending m ∧ l = S <$> m) as Hpos.
  { clear. induction 1 as [|i l Hs IH Hlt]; intros Hp; [by exists []; repeat constructor|].
    apply Forall_cons in Hp as [Hi Hp]. destruct (IH Hp) as (m & Hm & ->). exists (pred i :: m).
    split; [constructor; [done|]|simpl; f_equal; lia].
    rewrite Forall_fmap in Hlt. eapply Forall_impl; [exact Hlt|]. simpl. lia. }
  intros Hs. inversion Hs as [|i l' Hs' Hlt]; subst; [right; by exists []; repeat constructor|].
  destruct i as [|i].
  - left. destruct (Hpos l') as (m & Hm & ->); [done|done|]. by exists m.
  - right. destruct (Hpos (S i :: l')) as (m & Hm & Heq); [done| |by exists m].
    constructor; [lia|]. eapply Forall_impl; [exact Hlt|]. simpl. lia.
Qed.

Section Indices.
Implicit Types (q : list Entry) (l : list nat).

Lemma delete_shift l e q :
  foldr (λ i q, delete i q) (e :: q) (S <$> l) = e :: foldr (λ i q, delete i q) q l.
Proof. induction l as [|i l IH]; [done|]. rewrite fmap_cons. cbn [foldr]. by rewrite IH. Qed.

Lemma lookup_shift l e q : omap (λ i, (e :: q) !! i) (S <$> l) = omap (λ i, q !! i) l.
Proof. induction l as [|i l IH]; [done|]. rewrite fmap_cons. cbn. by rewrite <-IH. Qed.

Lemma take_indices_spec l q :
  ascending l → Forall (λ i, i < length q)%nat l →
  let '(items, q') := take_indices l q in
  items `sublist_of` q ∧ q' `sublist_of` q ∧ q ≡ₚ (items ++ q')%list ∧ length items = length l.
Proof.
  unfold take_indices. revert l. induction q as [|e q IH]; intros l Hs Hr.
  { destruct l as [|i l]; [by repeat constructor|]. apply Forall_cons in Hr as [Hi _]. simpl in Hi. lia. }
  destruct (ascending_cases l Hs) as [(m & Hm & ->)|(m & Hm & ->)].
  - apply Forall_cons in Hr as [_ Hr]. rewrite Forall_fmap in Hr.
    destruct (IH m Hm) as (H1 & H2 & H3 & H4).
    { eapply Forall_impl; [exact Hr|]. simpl. lia. }
    simpl. rewrite lookup_shift, delete_shift. simpl. rewrite length_fmap, H4.
    split_and!; [by constructor|by constructor|by constructor|done].
  - rewrite Forall_fmap in Hr. destruct (IH m Hm) as (H1 & H2 & H3 & H4).
    { eapply Forall_impl; [exact Hr|]. simpl. lia. }
    rewrite lookup_shift, delete_shift, length_fmap.
    split_and!; [by constructor|by constructor| |done].
    rewrite H3 at 1. apply Permutation_middle.
Qed.
End Indices.

(** ** The scan *)

Section Scan.
Context (env : Env) (c : Config) (base : Req).
Local Abbreviation compatible := (λ r, can_dynamic_batch (repr env) base r = Ok true).

(** The batch found so far: ascending positions of [q], from its head on, of compatible
    requests; within the limits as soon as a second request has been added. *)
Record batch_of (q : list Entry) (indices : list nat) (reqs : list Req) : Prop := {
  bo_ascending : ascending indices;
  bo_range : Forall (λ i, i < length q)%nat indices;
  bo_head : head indices = Some 0%nat;
  bo_reqs : (λ i, q_obj <$> q !! i) <$> indices = (Some ∘ OReq) <$> reqs;
  bo_first : head reqs = Some base;
  bo_compatible : Forall compatible (tail reqs);
  bo_admitted : (1 < length reqs)%nat → Z.of_nat (length reqs) ≤ batching_max_size c ∧
    ∃ l, limit_for (batch_admission c) base = Ok l ∧
      reject_reason l (Z.of_nat (length reqs)) (estimate_batch_cost (request_cost env) reqs) = None;
}.

Lemma StronglySorted_snoc {A} (R : A → A → Prop) l x :
  StronglySorted R l → Forall (λ y, R y x) l → StronglySorted R (l ++ [x])%list.
Proof.
  induction 1 as [|y l Hs IH Hy]; intros Hx; [repeat constructor|].
  apply Forall_cons in Hx as [? Hx]. simpl. constructor; [by apply IH|].
  apply Forall_app. split; [done|]. by constructor.
Qed.

Lemma batch_of_extend q indices reqs idx e cand :
  enabled (batch_admission c) = true →
  batch_of q indices reqs → Forall (λ i, i < idx)%nat indices →
  q !! idx = Some e → q_obj e = OReq cand → compatible cand →
  Z.of_nat (length indices) < batching_max_size c →
  reject_reason_for_candidate (request_cost env) (batch_admission c) reqs cand = Ok None →
  batch_of q (indices ++ [idx])%list (reqs ++ [cand])%list.
Proof.
  intros Hen [H1 H2 H3 H4 H5 H6 H7] Hlt Hq Ho Hc Hmax Hrej.
  assert (length indices = length reqs) as Hlen by (apply (f_equal length) in H4; by rewrite !length_fmap in H4).
  split.
  - by apply StronglySorted_snoc.
  - apply Forall_app. split; [done|]. constructor; [by eapply lookup_lt_Some|done].
  - by destruct indices.
  - rewrite !fmap_app. f_equal; [done|]. simpl. by rewrite Hq, <-Ho.
  - by destruct reqs.
  - destruct reqs as [|r reqs]; [done|]. simpl in *. apply Forall_app. split; [done|by constructor].
  - intros _. rewrite length_app. simpl. split; [lia|]. unfold reject_reason_for_candidate in Hrej.
    rewrite Hen in Hrej. apply res_bind_inv in Hrej as (l & Hl & Hr). exists l.
    destruct reqs as [|r reqs]; [done|]. simpl in H5, Hl. injection H5 as ->. split; [done|].
    rewrite length_app in Hr. simpl in Hr. by injection Hr.
Qed.

Lemma scan_queue_spec q rest idx indices reqs reasons indices' reqs' reasons' :
  enabled (batch_admission c) = true →
  drop idx q = rest → batch_of q indices reqs → Forall (λ i, i < idx)%nat indices →
  scan_queue env c base rest idx indices reqs reasons = Ok (indices', reqs', reasons') →
  batch_of q indices' reqs'.
Proof.
  intros Hen. revert idx indices reqs reasons. induction rest as [|e rest IH];
    intros idx indices reqs reasons Hd Hb Hlt Hs; simpl in Hs; [by simplify_eq|].
  assert (q !! idx = Some e) as Hq.
  { rewrite <-(Nat.add_0_r idx), <-lookup_drop, Hd. done. }
  assert (drop (S idx) q = rest) as Hd' by (rewrite <-Nat.add_1_r, <-drop_drop, Hd; done).
  assert (Forall (λ i, i < S idx)%nat indices) as Hlt'.
  { eapply Forall_impl; [exact Hlt|]. simpl. lia. }
  apply res_bind_inv in Hs as (full & Hfull & Hs).
  destruct (batching_max_size c <=? length indices) eqn:Em; simplify_eq; bool_to_prop; [done|].
  destruct full; [by simplify_eq|].
  destruct (q_obj e) as [cand|l|k] eqn:Eo; try (by eapply IH).
  apply res_bind_inv in Hs as (ok & Hok & Hs). destruct ok.
  - apply res_bind_inv in Hs as (rej & Hrej & Hs). destruct rej as [why|]; [by eapply IH|].
    eapply IH; [done| | |exact Hs].
    + by eapply batch_of_extend.
    + apply Forall_app. split; [done|]. constructor; [lia|done].
  - destruct (batch_metrics_enabled c); [|by eapply IH].
    apply res_bind_inv in Hs as (why & _ & Hs). by eapply IH.
Qed.
End Scan.

(** ** Choosing the next batch *)

Lemma record_metrics_window b w e rs s :
  ∃ f, record_batch_dispatch_metrics b w e rs s = (Ok tt, set_window f s).
Proof.
  unfold record_batch_dispatch_metrics, mbind, M_bind, gets.
  destruct (negb _); [|eexists; reflexivity]. exists id. by destruct s.
Qed.

Section NextBatch.
Context (env : Env) (now : Qc).

(** What a returned batch is: entries of the queue in order, from the head on, and more
    than one only for a batch of compatible requests within the limits. *)
Record batch_taken (s : Scheduler) (taken : list Entry) (s' : Scheduler) : Prop := {
  bt_head : head taken = head (waiting_queue s);
  bt_taken : taken `sublist_of` waiting_queue s;
  bt_left : waiting_queue s' `sublist_of` waiting_queue s;
  bt_all : waiting_queue s ≡ₚ (taken ++ waiting_queue s')%list;
  bt_frame : ∃ q f, s' = set_window f (set_queue (λ _, q) s);
  bt_batch : (1 < length taken)%nat →
    dynamic_batching_enabled (config s) = true ∧
    ∃ r reqs, q_obj <$> taken = OReq <$> reqs ∧ head reqs = Some r ∧
      Forall (λ r', can_dynamic_batch (repr env) r r' = Ok true) (tail reqs) ∧
      Z.of_nat (length reqs) ≤ batching_max_size (config s) ∧
      ∃ l, limit_for (batch_admission (config s)) r = Ok l ∧
        reject_reason l (Z.of_nat (length reqs))
          (estimate_batch_cost (request_cost env) reqs) = None;
}.

(** A batch of the head alone. *)
Lemma head_taken s e rest f :
  waiting_queue s = e :: rest →
  batch_taken s [e] (set_window f (set_queue (λ _, rest) s)).
Proof.
  intros Hq. split; simpl; rewrite ?Hq; try done.
  - apply sublist_skip, sublist_nil_l.
  - by apply sublist_cons.
  - by exists rest, f.
  - lia.
Qed.

Lemma batch_objects (q : list Entry) (indices : list nat) (reqs : list Req) :
  (λ i, q_obj <$> q !! i) <$> indices = (Some ∘ OReq) <$> reqs →
  q_obj <$> omap (λ i, q !! i) indices = OReq <$> reqs.
Proof.
  revert reqs. induction indices as [|i indices IH]; intros [|r reqs] H; try done.
  rewrite !fmap_cons in H. injection H as H1 H2. cbn [omap list_omap].
  destruct (q !! i) as [e|]; [|done]. simpl in H1. injection H1 as H1.
  rewrite !fmap_cons, H1. f_equal. by apply IH.
Qed.

Lemma batch_of_taken s r indices reqs q items f :
  dynamic_batching_enabled (config s) = true →
  batch_of env (config s) r (waiting_queue s) indices reqs →
  take_indices indices (waiting_queue s) = (items, q) →
  batch_taken s items (set_window f (set_queue (λ _, q) s)).
Proof.
  intros Hen [H1 H2 H3 H4 H5 H6 H7] Ht. pose proof (take_indices_spec _ _ H1 H2) as Hs.
  rewrite Ht in Hs. destruct Hs as (Hs1 & Hs2 & Hs3 & Hs4).
  assert (length indices = length reqs) as Hlen by (apply (f_equal length) in H4; by rewrite !length_fmap in H4).
  injection Ht as Hi Hq. split; simpl; try done.
  - destruct indices as [|i indices]; [done|]. injection H3 as ->. destruct (waiting_queue s); [|by rewrite <-Hi].
    apply Forall_cons in H2 as [H2 _]. simpl in H2. lia.
  - by exists q, f.
  - intros Hl. split; [done|]. exists r, reqs. destruct H7 as [Hm Hadm]; [lia|].
    split_and!; try done. rewrite <-Hi. by apply batch_objects.
Qed.

Lemma batch_of_single s e rest r :
  waiting_queue s = e :: rest → q_obj e = OReq r →
  batch_of env (config s) r (waiting_queue s) [0%nat] [r].
Proof.
  intros Hq Ho. split; rewrite ?Hq; simpl; try done.
  - repeat constructor.
  - constructor; [simpl; lia|done].
  - by rewrite Ho.
  - lia.
Qed.

Lemma next_batch_Some s items s' :
  get_next_batch_to_run env now s = (Ok (Some items), s') →
  ∃ taken, items = item_of_entry <$> taken ∧ batch_taken s taken s'.
Proof.
  unfold get_next_batch_to_run. intros H. apply bind_inv in H as (? & ? & Hg & H).
  injection Hg as <- <-. destruct (waiting_queue s) as [|e rest] eqn:Eq; [done|].
  assert (∀ w ef rs s1 items, (record_batch_dispatch_metrics 1 w ef rs ≫= λ _, mret (Some [item_of_entry e]))
    (set_queue (λ _, rest) s) = (Ok (Some items), s1) →
    ∃ taken, items = item_of_entry <$> taken ∧ batch_taken s taken s1) as Hone.
  { intros w ef rs s1 items1. destruct (record_metrics_window 1 w ef rs (set_queue (λ _, rest) s)) as [f Hf].
    unfold mbind, M_bind. rewrite Hf. intros Hr. injection Hr as <- <-. exists [e]. split; [done|].
    by apply head_taken. }
  assert (batch_taken s [e] (set_queue (λ _, rest) s)) as Hsimple.
  { replace (set_queue (λ _, rest) s) with (set_window id (set_queue (λ _, rest) s)) by (by destruct s).
    by apply head_taken. }
  destruct (dynamic_batching_enabled (config s)) eqn:Ed; simpl in H.
  2: { apply bind_inv in H as (? & ? & Hm & H). injection Hm as <- <-.
       destruct (is_Req (q_obj e)); simpl in H; [by eapply Hone|].
       injection H as <- <-. by exists [e]. }
  destruct (q_obj e) as [r|l|k] eqn:Eo; [|injection H as <- <-; by exists [e]..].
  apply bind_inv in H as (ok & s1 & Hok & H). injection Hok as Hok <-. destruct ok; simpl in H.
  2: { apply bind_inv in H as (? & ? & Hm & H). injection Hm as <- <-.
       apply bind_inv in H as (rs & s2 & Hr & H). assert (s2 = set_queue (λ _, rest) s) as ->.
       { destruct (batch_metrics_enabled (config s)); [|by injection Hr].
         apply bind_inv in Hr as (? & ? & Hl & Hr). injection Hl as _ <-. by injection Hr. }
       by eapply Hone. }
  apply bind_inv in H as ([[indices reqs] rs] & s1 & Hsc & H). injection Hsc as Hsc <-.
  apply bind_inv in H as (more & s1 & Hmore & H). assert (s1 = s) as ->.
  { destruct (_ <? _); [|by injection Hmore].
    apply bind_inv in Hmore as (? & ? & Hl & Hr). injection Hl as _ <-. by injection Hr. }
  destruct more; [done|].
  apply bind_inv in H as (? & ? & Hm & H). injection Hm as <- <-.
  apply bind_inv in H as (? & ? & Hl & H). injection Hl as _ <-.
  apply bind_inv in H as (eff & ? & Hl & H). injection Hl as _ <-.
  apply bind_inv in H as (? & s9 & Hrec & H).
  edestruct record_metrics_window as [f Hf]. rewrite Hf in Hrec. injection Hrec as <- <-.
  injection H as <- <-.
  eexists. split; [done|]. apply (batch_of_taken s r indices reqs); [done| |by rewrite Eq].
  eapply (scan_queue_spec env (config s) r (waiting_queue s) rest 1 [0%nat] [r]); [| | | |exact Hsc].
  - unfold dynamic_batching_enabled in Ed. by apply andb_true_iff in Ed as [? _].
  - by rewrite Eq.
  - by eapply batch_of_single.
  - repeat constructor.
Qed.

(** Nothing to run: the queue is empty, or its head is young enough to wait for others. *)
Lemma next_batch_None s s' :
  get_next_batch_to_run env now s = (Ok None, s') →
  s' = s ∧ ∀ e, head (waiting_queue s) = Some e →
    dynamic_batching_enabled (config s) = true ∧ (now - q_time e < batching_delay_s (config s))%Qc.
Proof.
  unfold get_next_batch_to_run. intros H. apply bind_inv in H as (? & ? & Hg & H).
  injection Hg as <- <-. destruct (waiting_queue s) as [|e rest] eqn:Eq; [by injection H as <-|].
  destruct (dynamic_batching_enabled (config s)) eqn:Ed; simpl in H.
  2: { apply bind_inv in H as (? & ? & _ & H). apply bind_inv in H as (? & ? & _ & H). done. }
  destruct (q_obj e) as [r|l|k] eqn:Eo; [|done..].
  apply bind_inv in H as (ok & s1 & Hok & H). injection Hok as Hok <-. destruct ok; simpl in H.
  2: { apply bind_inv in H as (? & ? & _ & H). apply bind_inv in H as (? & ? & _ & H).
       apply bind_inv in H as (? & ? & _ & H). done. }
  apply bind_inv in H as ([[indices reqs] rs] & s1 & Hsc & H). injection Hsc as Hsc <-.
  apply bind_inv in H as (more & s1 & Hmore & H). destruct more.
  2: { do 4 (apply bind_inv in H as (? & ? & _ & H)). done. }
  injection H as <-. destruct (_ <? _); [|done].
  apply bind_inv in Hmore as (full & ? & Hl & Hr). injection Hl as _ <-. injection Hr as Hb <-.
  split; [done|]. intros e' He. injection He as <-. split; [done|].
  apply andb_true_iff in Hb as [_ Hb]. by apply bool_decide_eq_true_1 in Hb.
Qed.
End NextBatch.

(** ** What each step leaves alone *)

(** The client an entry owes a reply to: warmup requests are not answered. *)
Definition wants (i : option string * Obj) : option string :=
  match i.1, is_warmup_item i.2 with
  | Some _, Ok true => None
  | c, _ => c
  end.
Definition owed (s : Scheduler) : list string :=
  omap (λ e, wants (item_of_entry e)) (waiting_queue s).
Definition replied (s : Scheduler) : list string := (outbox s).*1.

Lemma omap_fmap {A B C} (f : B → option C) (g : A → B) (l : list A) : omap f (g <$> l) = omap (λ x, f (g x)) l.
Proof. induction l as [|x l IH]; [done|]. rewrite fmap_cons. cbn. by rewrite <-IH. Qed.

Lemma omap_sublist {A B} (f : A → option B) (l l' : list A) : l `sublist_of` l' → omap f l `sublist_of` omap f l'.
Proof. induction 1 as [|x l l' _ IH|x l l' _ IH]; [done|..]; cbn [omap list_omap]; destruct (f x); [by apply sublist_skip|done|by apply sublist_cons|done]. Qed.

Definition queues (s : Scheduler) : Config * list Entry * list (string * OutputBatch) :=
  (config s, waiting_queue s, outbox s).
Definition still (s : Scheduler) := (inbox s, queues s).

Section Quiet.
Context (env : Env).

Lemma handle_generation_quiet reqs b : steps (frames still) (handle_generation env reqs b).
Proof. unfold handle_generation. step_auto; try apply _; by apply steps_modify. Qed.

Lemma dispatch_single_quiet o : steps (frames still) (dispatch_single_request env o).
Proof.
  destruct o as [r|l|[]]; simpl; try apply handle_generation_quiet; step_auto;
    try apply handle_generation_quiet; try apply _; by apply steps_modify.
Qed.

Lemma dispatch_each_quiet items : steps (frames still) (dispatch_each env items).
Proof.
  induction items as [|[i o] items IH]; simpl; [apply steps_ret; apply _|].
  apply steps_bind; [apply _|apply dispatch_single_quiet|intros h].
  apply steps_bind; [apply _|exact IH|intros os]. apply steps_ret; apply _.
Qed.

Lemma dispatch_items_quiet items : steps (frames still) (dispatch_items env items).
Proof.
  destruct items as [|[i o] [|p items]]; unfold dispatch_items.
  - apply steps_raise; apply _.
  - apply dispatch_single_quiet.
  - destruct (forallb _ _); [apply handle_generation_quiet|].
    apply steps_bind; [apply _|apply dispatch_each_quiet|intros os]. apply steps_ret; apply _.
Qed.

Lemma return_results_spec items os s s' :
  length os = length items → return_results env items os s = (Ok tt, s') →
  replied s' = (replied s ++ omap wants items)%list ∧
  waiting_queue s' = waiting_queue s ∧ inbox s' = inbox s ∧ config s' = config s.
Proof.
  revert os s. induction items as [|[c o] items IH]; intros [|ob os] s Hl H; try done.
  { injection H as <-. by rewrite app_nil_r. }
  simpl in H. apply bind_inv in H as (w & s1 & Hw & H). injection Hw as Hw <-.
  apply bind_inv in H as ([] & s1 & Hr & H). apply IH in H as (H1 & H2 & H3 & H4); [|by injection Hl].
  assert (wants (c, o) = if w then None else c) as Hc.
  { unfold wants. simpl. rewrite Hw. by destruct c, w. }
  cbn [omap list_omap]. rewrite Hc.
  unfold return_result in Hr. destruct w, c as [c|]; injection Hr as <-; try done.
  unfold replied in *. simpl in *. rewrite H1, fmap_app. split_and!; [|done..].
  by rewrite <-(assoc_L (++)%list).
Qed.

Lemma match_outputs_length items h : length (match_outputs items h) = length items.
Proof. unfold match_outputs. case_bool_decide; [done|]. by rewrite length_fmap. Qed.

(** Running a batch: every entry taken from the queue gets its reply. *)
Lemma run_step_spec now s s' :
  run_step env now s = (Ok tt, s') →
  (replied s' ++ owed s' ≡ₚ replied s ++ owed s)%list ∧ inbox s' = inbox s ∧ config s' = config s.
Proof.
  unfold run_step. intros H. apply bind_inv in H as (items & s1 & Hn & H).
  destruct items as [items|]; [|apply next_batch_None in Hn as [-> _]; by injection H as <-].
  apply next_batch_Some in Hn as (taken & -> & [_ _ _ Hall (q & f & ->) _]).
  destruct taken as [|e taken]; [simpl in *; injection H as <-; unfold owed, replied; simpl; by rewrite Hall|].
  set (items := item_of_entry <$> e :: taken) in *.
  assert ((h ← try_except (dispatch_items env items) (λ _, true)
             (λ e, mret (One (error_output (exc_str env e))));
           return_results env items (match_outputs items h)) (set_window f (set_queue (λ _, q) s))
          = (Ok tt, s')) as H' by exact H. clear H.
  apply bind_inv in H' as (h & s2 & Hd & Hr).
  assert (still (set_window f (set_queue (λ _, q) s)) = still s2) as Hst.
  { unfold try_except in Hd. pose proof (dispatch_items_quiet items (set_window f (set_queue (λ _, q) s))) as Q.
    destruct (dispatch_items env items _) as [[h'|e'] s3]; simpl in Q; [by injection Hd as _ <-|].
    by injection Hd as _ <-. }
  injection Hst as Hi Hc Hq Ho. simpl in Hi, Hc, Hq, Ho.
  apply return_results_spec in Hr as (H1 & H2 & H3 & H4); [|apply match_outputs_length].
  split; [|split; congruence]. unfold owed. rewrite H2, <-Hq, H1, Hall. unfold replied. rewrite <-Ho.
  rewrite omap_app. unfold items. rewrite omap_fmap. by rewrite <-(assoc_L (++)%list).
Qed.

(** *** Whatever the outcome *)

Lemma bind_any {S A B} (m : M S A) (k : A → M S B) s r s' :
  (m ≫= k) s = (r, s') → (∃ e, m s = (Raise e, s') ∧ r = Raise e) ∨ ∃ a s1, m s = (Ok a, s1) ∧ k a s1 = (r, s').
Proof. unfold mbind, M_bind. destruct (m s) as [[a|e] s1]; [by eauto|]. intros [= <- <-]. eauto. Qed.

(** What is left of [s0] at a later state: part of the queue; inbox and replies as they were. *)
Definition left_of (s0 s : Scheduler) : Prop :=
  waiting_queue s `sublist_of` waiting_queue s0 ∧ inbox s = inbox s0 ∧ outbox s = outbox s0.
Definition keeps_left s0 (s s' : Scheduler) : Prop := left_of s0 s → left_of s0 s'.

#[local] Instance keeps_left_preorder s0 : PreOrder (keeps_left s0).
Proof. split; unfold keeps_left; [by intros ?|intros ???; auto]. Qed.

Lemma set_queue_left s0 q : q `sublist_of` waiting_queue s0 → steps (keeps_left s0) (modify (set_queue (λ _, q))).
Proof. intros Hq. apply steps_modify. by intros s (_ & ? & ?). Qed.

Lemma deletes_sublist {A} (indices : list nat) (q : list A) : foldr (λ i q, delete i q) q indices `sublist_of` q.
Proof. induction indices as [|i indices IH]; [done|]. simpl. etrans; [apply sublist_delete|exact IH]. Qed.

Lemma left_at {A} s0 (m : M Scheduler A) : steps (keeps_left s0) m → left_of s0 (m s0).2.
Proof. intros Hm. apply Hm. by split. Qed.

Lemma next_batch_left now s r s' : get_next_batch_to_run env now s = (r, s') → left_of s s'.
Proof.
  intros H. replace s' with (get_next_batch_to_run env now s).2 by by rewrite H. clear r s' H.
  unfold get_next_batch_to_run. rewrite (bind_Ok get _ s s s) by done. destruct (waiting_queue s) as [|e rest] eqn:Eq.
  { apply left_at, steps_ret, _. }
  assert (rest `sublist_of` waiting_queue s) as Hrest by (rewrite Eq; by apply sublist_cons).
  assert (∀ (l : list nat), foldr (λ i q, delete i q) (e :: rest) l `sublist_of` waiting_queue s) as Hdel by (intros l; rewrite Eq; apply deletes_sublist).
  apply left_at. unfold take_indices. step_auto; try apply _;
    first [apply set_queue_left; (exact Hrest || apply Hdel) | apply steps_modify; by intros ? (? & ? & ?)].
Qed.

Lemma return_results_any items os s r s' :
  return_results env items os s = (r, s') →
  ∃ k, replied s' = (replied s ++ k)%list ∧ k `sublist_of` omap wants items ∧ waiting_queue s' = waiting_queue s ∧ inbox s' = inbox s.
Proof.
  revert os s. induction items as [|[c o] items IH]; intros os s H.
  { injection H as _ <-. exists []. by rewrite app_nil_r. }
  destruct os as [|ob os]; [injection H as _ <-; exists []; rewrite app_nil_r; split_and!; [done|apply sublist_nil_l|done|done]|].
  simpl in H. apply bind_any in H as [(e & Hw & _)|(w & s1 & Hw & H)].
  { injection Hw as _ <-. exists []. rewrite app_nil_r. split_and!; [done|apply sublist_nil_l|done|done]. }
  injection Hw as Hw <-. assert (wants (c, o) = if w then None else c) as Hc.
  { unfold wants. simpl. rewrite Hw. by destruct c, w. }
  apply bind_any in H as [(e & Hr & _)|([] & s1 & Hr & H)]; [by unfold return_result in Hr; destruct w, c|].
  apply IH in H as (k & H1 & H2 & H3 & H4). cbn [omap list_omap]. rewrite Hc.
  unfold return_result in Hr. destruct w, c as [c|]; injection Hr as <-; try (exists k; by split_and!).
  exists (c :: k). unfold replied in *. simpl in *. rewrite H1, fmap_app, <-(assoc_L (++)%list). split_and!; [done|by apply sublist_skip|done|done].
Qed.

(** Whatever comes of a batch, nobody gets a reply that is not owed. *)
Lemma run_step_any now s r s' :
  run_step env now s = (r, s') → (replied s' ++ owed s' ⊆+ replied s ++ owed s)%list ∧ inbox s' = inbox s.
Proof.
  assert (∀ s1, left_of s s1 → (replied s1 ++ owed s1 ⊆+ replied s ++ owed s)%list ∧ inbox s1 = inbox s) as Hleft.
  { intros s1 (Hq & Hi & Ho). split; [|done]. unfold replied, owed. rewrite Ho. apply submseteq_app; [done|]. by apply sublist_submseteq, omap_sublist. }
  unfold run_step. intros H. apply bind_any in H as [(e & Hn & _)|(items & s1 & Hn & H)]; [by eapply Hleft, next_batch_left|].
  destruct items as [items|]; [|injection H as _ <-; by eapply Hleft, next_batch_left].
  apply next_batch_Some in Hn as (taken & -> & [_ _ _ Hall _ (q & f & ->)]) || apply next_batch_Some in Hn as (taken & -> & [_ _ _ Hall (q & f & ->) _]).
  destruct taken as [|e taken]; [injection H as _ <-; unfold owed, replied; simpl in *; split; [by rewrite Hall|done]|].
  set (items := item_of_entry <$> e :: taken) in *.
  assert ((h ← try_except (dispatch_items env items) (λ _, true)
             (λ e, mret (One (error_output (exc_str env e))));
           return_results env items (match_outputs items h)) (set_window f (set_queue (λ _, q) s)) = (r, s')) as H' by exact H. clear H.
  assert (∀ r2 s2, try_except (dispatch_items env items) (λ _, true) (λ e, mret (One (error_output (exc_str env e))))
    (set_window f (set_queue (λ _, q) s)) = (r2, s2) → still (set_window f (set_queue (λ _, q) s)) = still s2) as Hst.
  { intros r2 s2 Hd. unfold try_except in Hd. pose proof (dispatch_items_quiet items (set_window f (set_queue (λ _, q) s))) as Q.
    destruct (dispatch_items env items _) as [[h'|e'] s3]; simpl in Q; by injection Hd as _ <-. }
  apply bind_any in H' as [(e' & Hd & _)|(h & s2 & Hd & Hr)]; apply Hst in Hd; injection Hd as Hi Hc Hq Ho; simpl in Hi, Hc, Hq, Ho.
  - split; [|done]. unfold replied, owed. rewrite <-Ho, <-Hq, Hall, omap_app. apply submseteq_app; [done|apply submseteq_inserts_l; done].
  - apply return_results_any in Hr as (k & H1 & H2 & H3 & H4). split; [|congruence]. unfold owed. rewrite H1, H3, <-Hq, Hall. unfold replied. rewrite <-Ho.
    rewrite omap_app, <-(assoc_L (++)%list). apply submseteq_app; [done|]. apply submseteq_app; [|done].
    apply sublist_submseteq. unfold items in H2. by rewrite omap_fmap in H2.
Qed.
End Quiet.
