(* ===== verification/SchedulerProps.v ===== *)
(** * Correctness of the scheduler

    Every request received is answered once or still waits; batches respect
    compatibility, admission and order; no request waits longer than the delay at the head
    of the queue; a merged output is divided exactly; and what a poll that fails loses. *)

From S2P Require Import Prelude PyJson Codec PyValue Buffer BufferFacts Fields Admission Batching Scheduler SchedulerFacts.
Local Open Scope string_scope.
Local Open Scope Z_scope.

(** ** Receiving *)

(** The clients a message makes the scheduler owe a reply to. *)
Definition clients (env : Env) (parts : list string) : list string :=
  match receive_message env parts with
  | Ok l => omap (λ p, wants (Some p.1, p.2)) l
  | Raise _ => []
  end.

Section Receive.
Context (env : Env) (Hload : ∀ p e, pickle_loads env p ≠ LoadRaises e).

Lemma receive_message_Ok parts : ∃ l, receive_message env parts = Ok l.
Proof using Hload.
  unfold receive_message. destruct parts as [|i parts]; [eauto|]. destruct (_ <? _)%nat; [|eauto].
  destruct (pickle_loads env _) eqn:E; eauto. by apply Hload in E.
Qed.

Lemma recv_loop_spec n acc s :
  ∃ new s', recv_loop env n acc s = (Ok new, s') ∧ queues s' = queues s ∧
    consecutive_error_count s' = consecutive_error_count s ∧ warmed_up s' = warmed_up s ∧
    (∀ p, p ∈ new → p ∈ acc ∨ ∃ parts l, receive_message env parts = Ok l ∧ p ∈ l) ∧
    (omap (λ p, wants (Some p.1, p.2)) new ++ (inbox s' ≫= clients env) =
     omap (λ p, wants (Some p.1, p.2)) acc ++ (inbox s ≫= clients env))%list.
Proof using Hload.
  revert acc s. induction n as [|n IH]; intros acc s; simpl; [by exists acc, s; eauto 10|].
  destruct (_ <? _)%nat; [|by exists acc, s; eauto 10]. erewrite bind_Ok; [|reflexivity].
  destruct (inbox s) as [|parts box] eqn:Eb; [exists acc, s; rewrite Eb; eauto 10|].
  destruct (receive_message_Ok parts) as [l Hl].
  erewrite bind_Ok; [|reflexivity]. erewrite bind_Ok; [|unfold lift_res; rewrite Hl; reflexivity].
  destruct (IH (acc ++ l)%list (set_inbox (λ _, box) s)) as (new & s' & -> & H1 & H2 & H3 & H4 & H5).
  exists new, s'. split_and!; [done|done|done|done| |].
  - intros p Hp. destruct (H4 p Hp) as [[?|?]%elem_of_app|?]; eauto.
  - rewrite H5. simpl. rewrite omap_app. unfold clients at 2. rewrite Hl. by rewrite <-(assoc_L (++)%list).
Qed.
End Receive.

Lemma getattr_set_other n1 n2 v r :
  n1 ≠ n2 → n1 ≠ "sampling_params" → n2 ≠ "sampling_params" →
  dget n1 (attrs (req_setattr n2 v r)) = dget n1 (attrs r).
Proof.
  intros. unfold req_setattr. rewrite bool_decide_eq_false_2 by done.
  destruct (is_req_field n2); [simpl; rewrite dget_dset_ne; congruence|].
  destruct (sampling_params r); try (simpl; rewrite dget_dset_ne; congruence).
  destruct (dmem n2 d); [done|]. simpl. rewrite dget_dset_ne; congruence.
Qed.

(** A copy made for warmup is a warmup item. *)
Lemma set_as_warmup_marks n r w : set_as_warmup n r = Ok w → is_warmup_item (OReq w) = Ok true.
Proof.
  unfold set_as_warmup. intros H. apply res_bind_inv in H as (x1 & _ & H).
  apply res_bind_inv in H as (x2 & _ & H). apply res_bind_inv in H as (x3 & _ & H). injection H as <-.
  unfold is_warmup_item, first_generation_req, attr_truthy, req_attr, req_getattr.
  rewrite !(getattr_set_other "is_warmup") by done.
  assert (dget "is_warmup" (attrs (req_setattr "is_warmup" (PJson (JBool true)) r))
    = Some (PJson (JBool true))) as ->; [|done].
  unfold req_setattr. simpl. apply dget_dset_eq.
Qed.

Section Serve.
Context (env : Env) (Hload : ∀ p e, pickle_loads env p ≠ LoadRaises e).

(** The requests clients send can be copied for warmup, where the first one is. *)
Definition warmable (c : Config) : Prop :=
  warmup c = true → warmup_resolutions c = false →
  ∀ parts l i o r, receive_message env parts = Ok l → (i, o) ∈ l → first_generation_req o = Some r →
  ∃ w, set_as_warmup (warmup_steps c) r = Ok w.

Definition due (s : Scheduler) : list string := (owed s ++ (inbox s ≫= clients env))%list.

Lemma warmup_spec l s :
  (warmup (config s) = true → warmup_resolutions (config s) = false →
   ∀ p r, p ∈ l → first_generation_req p.2 = Some r → ∃ w, set_as_warmup (warmup_steps (config s)) r = Ok w) →
  ∃ l' s', process_received_reqs_with_req_based_warmup l s = (Ok l', s') ∧
    queues s' = queues s ∧ inbox s' = inbox s ∧
    omap (λ p, wants (Some p.1, p.2)) l' = omap (λ p, wants (Some p.1, p.2)) l.
Proof.
  intros Hw. unfold process_received_reqs_with_req_based_warmup. erewrite bind_Ok; [|reflexivity].
  destruct l as [|[i o] l]; [by exists [], s|]. destruct (_ || _) eqn:Eon; [by eexists _, s|].
  apply orb_false_iff in Eon as [[_ Eon]%orb_false_iff Eres]. apply negb_false_iff in Eon.
  destruct (first_generation_req o) as [r|] eqn:Er; [|by eexists _, s].
  destruct (Hw Eon Eres (i, o) r) as [w Hs]; [left|done|].
  erewrite bind_Ok; [|unfold lift_res; rewrite Hs; reflexivity].
  erewrite bind_Ok; [|reflexivity]. do 2 eexists. split_and!; [done|done|done|].
  cbn [omap list_omap]. unfold wants at 1. simpl. by rewrite (set_as_warmup_marks _ _ _ Hs).
Qed.

Lemma receive_step_due now s :
  warmable (config s) →
  ∃ s', receive_step env now s = (Ok true, s') ∧ replied s' = replied s ∧ config s' = config s ∧
    due s' ≡ₚ due s.
Proof using Hload.
  intros Hw. unfold receive_step, recv_reqs.
  destruct (recv_loop_spec env Hload (length (inbox s)) [] s) as (new & s1 & H1 & Q1 & _ & _ & Hin & Hc1).
  injection Q1 as C1 W1 O1.
  destruct (warmup_spec new s1) as (new2 & s2 & H2 & Q2 & I2 & Hc2).
  { rewrite C1. intros Hon Hres p r Hp Hr. destruct (Hin p Hp) as [[]%elem_of_nil|(parts & l & Hl & Hpl)].
    destruct p as [i o]. by eapply (Hw Hon Hres). }
  injection Q2 as C2 W2 O2. eexists. split.
  { unfold try_except. erewrite bind_Ok; [|exact H1]. erewrite bind_Ok; [|exact H2]. reflexivity. }
  split_and!; [unfold replied; simpl; congruence|simpl; congruence|].
  unfold due, owed. simpl. rewrite W2, W1, I2, omap_app, omap_fmap, <-(assoc_L (++)%list). simpl.
  f_equiv. simpl in Hc1. by rewrite <-Hc1, <-Hc2.
Qed.

Lemma iteration_due now arrivals s s' :
  warmable (config s) → loop_iteration env now arrivals s = (Ok tt, s') →
  config s' = config s ∧
  (replied s' ++ due s' ≡ₚ replied s ++ due s ++ (arrivals ≫= clients env))%list.
Proof using Hload.
  intros Hw H. unfold loop_iteration in H. apply bind_inv in H as (? & s1 & Hm & H).
  injection Hm as <- <-.
  destruct (receive_step_due now (set_inbox (λ b, b ++ arrivals)%list s)) as (s2 & H2 & R2 & C2 & D2);
    [done|]. apply bind_inv in H as (go & s3 & H3 & H). rewrite H2 in H3. injection H3 as <- <-.
  apply run_step_spec in H as (H4 & H5 & H6). split; [by rewrite H6, C2|].
  unfold due. rewrite (assoc_L (++)%list), H4, H5, <-(assoc_L (++)%list). fold (due s2).
  rewrite D2, R2. unfold due, owed, replied. simpl. by rewrite bind_app, !(assoc_L (++)%list).
Qed.

Lemma event_loop_due inputs s s' :
  warmable (config s) → event_loop env inputs s = (Ok tt, s') → running s' = true →
  (replied s' ++ due s' ≡ₚ replied s ++ due s ++ (concat inputs.*2 ≫= clients env))%list.
Proof using Hload.
  revert s. induction inputs as [|[now arrivals] inputs IH]; intros s Hw H Hr.
  { injection H as <-. by rewrite app_nil_r. }
  simpl in H. apply bind_inv in H as (r & s1 & Hg & H). injection Hg as <- <-.
  destruct (running s) eqn:Er; [|injection H as <-; congruence].
  apply bind_inv in H as ([] & s1 & H1 & H). apply iteration_due in H1 as [C1 D1]; [|done].
  apply IH in H; [|by rewrite C1|done]. rewrite H, (assoc_L (++)%list), D1. simpl.
  by rewrite bind_app, !(assoc_L (++)%list).
Qed.
End Serve.

(** *** Whatever the outcome *)

Section Any.
Context (env : Env).
Local Abbreviation box_clients s := (inbox s ≫= clients env).

Lemma recv_loop_any n acc s r s' :
  recv_loop env n acc s = (r, s') →
  queues s' = queues s ∧
  match r with
  | Ok new => (omap (λ p, wants (Some p.1, p.2)) new ++ box_clients s' ⊆+ omap (λ p, wants (Some p.1, p.2)) acc ++ box_clients s)%list
  | Raise _ => box_clients s' ⊆+ box_clients s
  end.
Proof.
  revert acc s. induction n as [|n IH]; intros acc s; cbn [recv_loop]; [by intros [= <- <-]|].
  destruct (_ <? _)%nat; [|by intros [= <- <-]]. rewrite (bind_Ok (gets inbox) _ s (inbox s) s) by done.
  destruct (inbox s) as [|parts box] eqn:Eb; [by intros [= <- <-]; rewrite Eb|].
  rewrite (bind_Ok (modify _) _ s tt (set_inbox (λ _, box) s)) by done.
  intros [(e & Hl & ->)|(l & s1 & Hl & H)]%bind_any; injection Hl as Hl <-.
  - split; [done|]. by apply submseteq_inserts_l.
  - apply IH in H as [HQ H]. split; [exact HQ|]. destruct r as [new|e]; simpl in H; rewrite H; [|by apply submseteq_inserts_l].
    rewrite omap_app, <-(assoc_L (++)%list). cbn [mbind list_bind].
    assert (clients env parts = omap (λ p, wants (Some p.1, p.2)) l) as -> by (unfold clients; by rewrite Hl). done.
Qed.

Lemma warmup_any l s r s' :
  process_received_reqs_with_req_based_warmup l s = (r, s') →
  queues s' = queues s ∧ inbox s' = inbox s ∧ ∀ l', r = Ok l' →
    omap (λ p, wants (Some p.1, p.2)) l' = omap (λ p, wants (Some p.1, p.2)) l.
Proof.
  unfold process_received_reqs_with_req_based_warmup. rewrite (bind_Ok get _ s s s) by done.
  destruct l as [|[i o] l]; [intros [= <- <-]; by split_and!; [..|intros ? [= <-]]|].
  destruct (_ || _); [intros [= <- <-]; by split_and!; [..|intros ? [= <-]]|].
  destruct (first_generation_req o) as [q|]; [|intros [= <- <-]; by split_and!; [..|intros ? [= <-]]].
  intros [(e & Hl & ->)|(w & s1 & Hl & H)]%bind_any; injection Hl as Hl <-; [done|]. injection H as <- <-.
  split_and!; [done|done|]. intros l' [= <-]. cbn [omap list_omap]. unfold wants at 1. simpl. by rewrite (set_as_warmup_marks _ _ _ Hl).
Qed.

Lemma due_queues s s' : queues s' = queues s → box_clients s' ⊆+ box_clients s → (replied s' ++ due env s' ⊆+ replied s ++ due env s)%list.
Proof. intros [= _ W O] Hb. unfold replied, due, owed. rewrite W, O. by repeat apply submseteq_app. Qed.

Lemma failed_poll_any e s r s' :
  (modify (set_errors (λ n, n + 1)) ≫= λ _,
   n ← gets consecutive_error_count;
   if max_consecutive_errors <=? n then raise (A:=bool) e else mret false) s = (r, s') →
  queues s' = queues s ∧ inbox s' = inbox s.
Proof. rewrite (bind_Ok (modify _) _ s tt (set_errors (λ n, n + 1) s)), (bind_Ok (gets _) _ _ _ _ eq_refl) by done. by destruct (_ <=? _); intros [= _ <-]. Qed.

(** A poll may lose what it received, but makes nobody wait who did not ask. *)
Lemma receive_step_any now s r s' :
  receive_step env now s = (r, s') → (replied s' ++ due env s' ⊆+ replied s ++ due env s)%list.
Proof.
  unfold receive_step, try_except, recv_reqs. set (body := mbind _ _).
  assert (∀ r2 s2, body s = (r2, s2) → match r2 with
    | Ok _ => (replied s2 ++ due env s2 ⊆+ replied s ++ due env s)%list
    | Raise _ => queues s2 = queues s ∧ box_clients s2 ⊆+ box_clients s end) as Hbody.
  { intros r2 s2. unfold body. intros [(e & H & ->)|(new & s1 & H1 & H)]%bind_any; [by apply recv_loop_any in H|].
    apply recv_loop_any in H1 as [Q1 H1]. apply bind_any in H as [(e & H & ->)|(new2 & s3 & H2 & H)].
    - apply warmup_any in H as (Q & I & _). split; [by rewrite Q|]. rewrite I. etrans; [|apply H1]. by apply submseteq_inserts_l.
    - apply warmup_any in H2 as (Q2 & I2 & Hc). injection H as <- <-. rewrite Q1 in Q2. injection Q2 as _ W O.
      unfold due, replied, owed. simpl. rewrite W, O, I2, omap_app, omap_fmap, <-(assoc_L (++)%list). repeat apply submseteq_app; try done.
      simpl in H1. etrans; [|exact H1]. by rewrite <-(Hc new2 eq_refl). }
  destruct (body s) as [[b|e] s2]; specialize (Hbody _ _ eq_refl); [by intros [= _ <-]|].
  intros (Q & I)%failed_poll_any. destruct Hbody as [Q2 I2]. apply due_queues; [by rewrite Q|by rewrite I].
Qed.

Lemma iteration_any now arrivals s r s' :
  loop_iteration env now arrivals s = (r, s') →
  (replied s' ++ due env s' ⊆+ replied s ++ due env s ++ (arrivals ≫= clients env))%list.
Proof.
  unfold loop_iteration. rewrite (bind_Ok (modify _) _ s tt (set_inbox (λ b, b ++ arrivals)%list s)) by done.
  set (s0 := set_inbox _ s). assert (replied s ++ due env s ++ (arrivals ≫= clients env) = replied s0 ++ due env s0)%list as ->.
  { unfold due, owed, replied. simpl. by rewrite bind_app, !(assoc_L (++)%list). }
  intros [(e & H & _)|(go & s1 & H1 & H)]%bind_any; [by apply receive_step_any in H|]. apply receive_step_any in H1. rewrite <-H1.
  destruct go; [|by injection H as _ <-]. apply run_step_any in H as [H Hi]. unfold due. rewrite Hi, !(assoc_L (++)%list). by apply submseteq_app.
Qed.

Lemma event_loop_any inputs s r s' :
  event_loop env inputs s = (r, s') → (replied s' ++ due env s' ⊆+ replied s ++ due env s ++ (concat inputs.*2 ≫= clients env))%list.
Proof.
  revert s. induction inputs as [|[now arrivals] inputs IH]; intros s; cbn [event_loop]; [intros [= _ <-]; by rewrite app_nil_r|].
  rewrite (bind_Ok (gets running) _ s (running s) s) by done. cbn [fmap list_fmap concat]. rewrite bind_app.
  destruct (running s); [|intros [= _ <-]; rewrite (assoc_L (++)%list); by apply submseteq_inserts_r].
  intros [(e & H & _)|([] & s1 & H1 & H)]%bind_any.
  - apply iteration_any in H. rewrite H, !(assoc_L (++)%list). by apply submseteq_inserts_r.
  - apply iteration_any in H1. apply IH in H. rewrite H, !(assoc_L (++)%list). rewrite !(assoc_L (++)%list) in H1. by apply submseteq_app.
Qed.
End Any.

(** ** Dividing a merged output *)

(** The slices a batched value is cut into. *)
Fixpoint slices (v : pyval) (counts : list Z) (start total : Z) : list pyval :=
  match counts with
  | [] => []
  | n :: counts => slice_batched_value v start (start + n) total :: slices v counts (start + n) total
  end.

Lemma split_loop_spec o reqs counts start total os :
  length reqs = length counts → split_loop o (zip reqs counts) start total = Ok os →
  length os = length reqs ∧
  output <$> os = slices (output o) counts start total ∧
  output_file_paths <$> os = slices (output_file_paths o) counts start total ∧
  Forall (λ s, error s = error o ∧ rollout_trajectory_data s = PNone) os ∧
  (∀ m, metrics o = Some m →
     Forall2 (λ r s, ∃ rid, req_attr r "request_id" = Ok rid ∧
       metrics s = Some (dset "request_id" rid m)) reqs os).
Proof.
  revert counts start os. induction reqs as [|r reqs IH]; intros [|n counts] start os Hl H; try done.
  { injection H as <-. by repeat constructor. }
  simpl in H. apply res_bind_inv in H as (rid & Hrid & H). apply res_bind_inv in H as (os' & Hos & H).
  injection H as <-. apply IH in Hos as (H1 & H2 & H3 & H4 & H5); [|by injection Hl].
  rewrite !fmap_cons. simpl. split_and!; [by rewrite H1|by rewrite H2|by rewrite H3|by constructor|].
  intros m Hm. rewrite Hm in Hrid. constructor; [|by apply H5]. exists rid. split; [done|].
  simpl. by rewrite Hm.
Qed.

Definition Zlen {A} (l : list A) : Z := Z.of_nat (length l).

Lemma slices_list {A} (mk : list A → pyval) (l : list A) counts start :
  (∀ a b, slice_batched_value (mk l) a b (Zlen l) = mk (py_slice l a b)) →
  0 ≤ start → Forall (λ n, 0 ≤ n) counts → start + foldr Z.add 0 counts = Zlen l →
  ∃ ls, slices (mk l) counts start (Zlen l) = mk <$> ls ∧ concat ls = drop (Z.to_nat start) l ∧
    Zlen <$> ls = counts.
Proof.
  intros Hmk. revert start. induction counts as [|n counts IH]; intros start H0 Hn Hsum.
  { simpl in Hsum. exists []. split_and!; [done| |done]. unfold Zlen in Hsum. by rewrite drop_ge by lia. }
  apply Forall_cons in Hn as [Hn Hns]. simpl in Hsum.
  assert (0 ≤ foldr Z.add 0 counts) as Hpos by (clear -Hns; induction Hns; simpl; lia).
  destruct (IH (start + n)) as (ls & H1 & H2 & H3); [lia|done|lia|]. unfold Zlen in Hsum.
  assert (py_slice l start (start + n) = take (Z.to_nat n) (drop (Z.to_nat start) l)) as Hs.
  { unfold py_slice. rewrite !slice_bound_in by lia. f_equal. lia. }
  exists (take (Z.to_nat n) (drop (Z.to_nat start) l) :: ls). rewrite !fmap_cons.
  cbn [slices concat]. rewrite Hmk, Hs, H1, H3. split_and!; [done| |].
  - rewrite H2. rewrite <-(take_drop (Z.to_nat n) (drop (Z.to_nat start) l)) at 2.
    rewrite drop_drop. do 2 f_equal. lia.
  - f_equal. unfold Zlen. rewrite length_take, length_drop. lia.
Qed.

Lemma substring_split s a m k :
  String.substring a m s +:+ String.substring (a + m) k s = String.substring a (m + k) s.
Proof.
  revert a m. induction s as [|c s IH]; intros a m; [by destruct a, m, k|].
  destruct a as [|a]; [|apply (IH a m)]. destruct m as [|m]; [done|].
  exact (f_equal (String c) (IH 0%nat m)).
Qed.
Lemma substring_none s a : String.substring a 0 s = "".
Proof. revert a. induction s as [|c s IH]; intros [|a]; simpl; try done. Qed.
Lemma slices_tensor (t : tensor) n rest counts start :
  t_shape t = n :: rest → 0 ≤ start → Forall (λ n, 0 ≤ n) counts →
  start + foldr Z.add 0 counts = n →
  let row := Z.to_nat (numel rest * element_size (t_dtype t)) in
  ∃ ts, slices (PTensor t) counts start n = PTensor <$> ts ∧
    foldr String.append "" (t_data <$> ts) =
      String.substring (Z.to_nat start * row) (Z.to_nat (n - start) * row) (t_data t) ∧
    t_shape <$> ts = (λ k, k :: rest) <$> counts.
Proof.
  intros Ht. revert start. induction counts as [|k counts IH]; intros start H0 Hn Hsum row.
  { simpl in Hsum. exists []. split_and!; [done| |done]. replace (n - start) with 0 by lia. simpl.
    by rewrite substring_none. }
  apply Forall_cons in Hn as [Hn Hns]. simpl in Hsum.
  assert (0 ≤ foldr Z.add 0 counts) as Hpos by (clear -Hns; induction Hns; simpl; lia).
  destruct (IH (start + k)) as (ts & H1 & H2 & H3); [lia|done|lia|].
  assert (slice_batched_value (PTensor t) start (start + k) n = PTensor (slice_tensor t start (start + k)))
    as Hsl by (simpl; rewrite Ht; simpl; by rewrite bool_decide_eq_true_2).
  assert (slice_tensor t start (start + k) = mk_tensor (k :: rest) (t_dtype t)
    (String.substring (Z.to_nat start * row) (Z.to_nat k * row) (t_data t))) as Hst.
  { unfold slice_tensor. rewrite Ht, !slice_bound_in by lia. fold row.
    replace (Z.to_nat (start + k) - Z.to_nat start)%nat with (Z.to_nat k) by lia.
    by rewrite Z2Nat.id by lia. }
  exists (slice_tensor t start (start + k) :: ts). rewrite !fmap_cons. cbn [slices foldr].
  rewrite Hsl, H1, H2, H3, Hst. split_and!; [done| |done]. cbn [t_data]. fold row.
  replace (Z.to_nat (start + k) * row)%nat with (Z.to_nat start * row + Z.to_nat k * row)%nat
    by (rewrite Z2Nat.inj_add by lia; symmetry; apply Nat.mul_add_distr_r).
  rewrite substring_split, <-Nat.mul_add_distr_r. do 2 f_equal. lia.
Qed.

(** ** The claims *)

(** C5 - Requests are answered at most once, and none is lost while polls succeed. Whatever
    arrives in whatever order, and however the loop ends (after an exception as well), the
    clients replied to, those of the requests still queued and those of the messages still
    unread are among the clients of all messages that arrived, each no more often than its
    messages make queue entries; warmup requests get no reply. They are exactly these, up to
    order, when no poll fails, that is when messages unpickle (or are malformed in the ways
    the receiver expects) and, where the first request is copied for warmup, the copy
    succeeds; and when the loop has returned normally and the server has not been told to
    shut down. *)
Theorem requests_answered_once env c ws t0 inputs r s' :
  event_loop env inputs (init_scheduler c ws t0) = (r, s') →
  let now := (replied s' ++ owed s' ++ (inbox s' ≫= clients env))%list in
  let arrived := concat inputs.*2 ≫= clients env in
  now ⊆+ arrived ∧
  ((∀ p e, pickle_loads env p ≠ LoadRaises e) → warmable env c → r = Ok tt → running s' = true → now ≡ₚ arrived).
Proof.
  intros H. assert (config (init_scheduler c ws t0) = c) as Hc by (unfold init_scheduler; by destruct (_ && _)).
  assert (replied (init_scheduler c ws t0) ++ due env (init_scheduler c ws t0) = [])%list as H0.
  { unfold init_scheduler, replied, due, owed. destruct (_ && _); simpl; [|done]. rewrite omap_fmap, app_nil_r. clear. by induction ws as [|w ws IH]. }
  cbv zeta. split.
  - apply event_loop_any in H. by rewrite (assoc_L (++)%list), H0 in H.
  - intros Hl Hw -> Hr. apply event_loop_due in H; [|done|by rewrite Hc|done]. by rewrite (assoc_L (++)%list), H0 in H.
Qed.

(** C6 - What [get_next_batch_to_run] returns. The batch starts with the head of the
    queue, it and the queue left behind are parts of the queue in order, and together they
    are the queue. A batch of more than one has plain requests only, each compatible with
    the first one, no more than the configured maximum, and within the size and cost
    limits of the admission rules. Nothing is returned, and nothing changes, only when the
    queue is empty or its head has waited less than the batching delay: a request at the
    head is never held back longer. *)
Theorem next_batch_sound env now s r s' :
  get_next_batch_to_run env now s = (Ok r, s') →
  match r with
  | Some items =>
      ∃ taken, items = item_of_entry <$> taken ∧ head taken = head (waiting_queue s) ∧
        taken `sublist_of` waiting_queue s ∧ waiting_queue s' `sublist_of` waiting_queue s ∧
        waiting_queue s ≡ₚ (taken ++ waiting_queue s')%list ∧
        ((1 < length taken)%nat →
           ∃ b reqs l, q_obj <$> taken = OReq <$> reqs ∧ head reqs = Some b ∧
             Forall (λ x, can_dynamic_batch (repr env) b x = Ok true) (tail reqs) ∧
             Z.of_nat (length reqs) ≤ batching_max_size (config s) ∧
             limit_for (batch_admission (config s)) b = Ok l ∧
             reject_reason l (Z.of_nat (length reqs))
               (estimate_batch_cost (request_cost env) reqs) = None)
  | None => s' = s ∧ ∀ e, head (waiting_queue s) = Some e →
      dynamic_batching_enabled (config s) = true ∧
      (now - q_time e < batching_delay_s (config s))%Qc
  end.
Proof.
  destruct r as [items|]; [|apply next_batch_None]. intros (taken & -> & [H1 H2 H3 H4 _ H6])%next_batch_Some.
  exists taken. split_and!; try done. intros (_ & b & reqs & Hq & Hb & Hc & Hm & l & Hl & Hr)%H6.
  by exists b, reqs, l.
Qed.

(** C36 - A merged output is divided exactly: one part for each request, in the order of
    the requests; the parts of a list (of outputs, or of file paths) concatenate to the
    list, and those of a tensor to its bytes, each with as many outputs as its request
    asked for; the metrics of a part carry the id of its request. Rollout trajectories
    are not passed on. *)
Theorem split_exact o reqs counts os :
  split_batched_output o reqs = Ok (Some os) →
  res_mapM (λ r, attr_int r "num_outputs_per_prompt") reqs = Ok counts →
  Forall (λ n, 0 ≤ n) counts →
  length os = length reqs ∧
  (∀ l, output o = PList l →
     ∃ ls, output <$> os = PList <$> ls ∧ concat ls = l ∧ Zlen <$> ls = counts) ∧
  (∀ l, output_file_paths o = PList l →
     ∃ ls, output_file_paths <$> os = PList <$> ls ∧ concat ls = l ∧ Zlen <$> ls = counts) ∧
  (∀ t n rest, output o = PTensor t → t_shape t = n :: rest →
     String.length (t_data t) = (Z.to_nat n * Z.to_nat (numel rest * element_size (t_dtype t)))%nat →
     ∃ ts, output <$> os = PTensor <$> ts ∧ foldr String.append "" (t_data <$> ts) = t_data t ∧
       t_shape <$> ts = (λ k, k :: rest) <$> counts) ∧
  (∀ m, metrics o = Some m →
     Forall2 (λ r s, ∃ rid, req_attr r "request_id" = Ok rid ∧
       metrics s = Some (dset "request_id" rid m)) reqs os) ∧
  Forall (λ s, rollout_trajectory_data s = PNone) os.
Proof.
  unfold split_batched_output. intros H Hc Hn. rewrite Hc in H. simpl in H.
  set (total := foldr Z.add 0 counts) in *.
  destruct (_ && _); [done|]. destruct (count_differs (count_first_dim (output o)) total) eqn:E1; [done|].
  destruct (count_differs (count_first_dim (output_file_paths o)) total) eqn:E2; [done|].
  apply res_bind_inv in H as (os' & H & Heq). injection Heq as ->.
  assert (length reqs = length counts) as Hlen.
  { clear -Hc. revert counts Hc. induction reqs as [|r reqs IH]; intros cs Hc; simpl in Hc; [by simplify_eq|].
    apply res_bind_inv in Hc as (x & _ & (xs & Hx & Hc)%res_bind_inv). injection Hc as <-. simpl.
    f_equal. by apply IH. }
  apply split_loop_spec in H as (H1 & H2 & H3 & H4 & H5); [|done].
  assert (∀ l, count_differs (count_first_dim (PList l)) total = false → Zlen l = total) as Htot.
  { intros l Hl. simpl in Hl. by apply negb_false_iff, Z.eqb_eq in Hl. }
  assert (∀ l, Zlen l = total → ∃ ls, slices (PList l) counts 0 total = PList <$> ls ∧ concat ls = l ∧
    Zlen <$> ls = counts) as Hlist.
  { intros l Hl. rewrite <-Hl. apply (slices_list PList l counts 0); [|done|done|by rewrite Hl].
    intros x y. simpl. by rewrite (proj2 (Z.eqb_eq _ _)). }
  split_and!; [done| | | |done|].
  - intros l Hl. rewrite H2, Hl. apply Hlist, Htot. by rewrite <-Hl.
  - intros l Hl. rewrite H3, Hl. apply Hlist, Htot. by rewrite <-Hl.
  - intros t n rest Ht Hsh Hd. rewrite H2, Ht. rewrite Ht in E1. simpl in E1. rewrite Hsh in E1.
    apply negb_false_iff, Z.eqb_eq in E1. rewrite <-E1.
    destruct (slices_tensor t n rest counts 0) as (ts & S1 & S2 & S3); [done|done|done|by rewrite E1|].
    exists ts. split_and!; [done| |done]. rewrite S2, Z.sub_0_r, <-Hd. apply substring_all.
  - eapply Forall_impl; [exact H4|]. by intros x [_ ?].
Qed.

Lemma recv_loop_fails env good bad rest e ls n acc s :
  inbox s = (good ++ bad :: rest)%list → res_mapM (receive_message env) good = Ok ls →
  (length acc + length (concat ls) < MAX_RECV_REQS_PER_POLL)%nat →
  receive_message env bad = Raise e → (length good < n)%nat →
  recv_loop env n acc s = (Raise e, set_inbox (λ _, rest) s).
Proof.
  revert n acc ls s. induction good as [|g good IH]; intros [|n] acc ls s Hi Hg Hmax Hb Hn;
    simpl in Hn; try lia; simpl in Hg; cbn [recv_loop].
  - injection Hg as <-. simpl in Hmax. rewrite (proj2 (Nat.ltb_lt _ _)) by lia.
    erewrite bind_Ok; [|reflexivity]. rewrite Hi. simpl.
    erewrite bind_Ok; [|reflexivity]. unfold mbind, M_bind, lift_res. by rewrite Hb.
  - apply res_bind_inv in Hg as (l & Hl & (ls' & Hls & Hg)%res_bind_inv). injection Hg as <-.
    simpl in Hmax. rewrite length_app in Hmax. rewrite (proj2 (Nat.ltb_lt _ _)) by lia.
    erewrite bind_Ok; [|reflexivity]. rewrite Hi. cbn [app].
    erewrite bind_Ok; [|reflexivity]. erewrite bind_Ok; [|unfold lift_res; rewrite Hl; reflexivity].
    rewrite (IH n (acc ++ l)%list ls'); [done|done|done|rewrite length_app; lia|done|lia].
Qed.

(** A message whose unpickling raises anything but the expected errors takes the
    messages read before it in the same poll with it: they have left the socket, none of
    their requests is queued, and nobody is told. *)
Theorem failed_poll_loses env now s good bad rest e ls :
  inbox s = (good ++ bad :: rest)%list → res_mapM (receive_message env) good = Ok ls →
  (length (concat ls) < MAX_RECV_REQS_PER_POLL)%nat → receive_message env bad = Raise e →
  consecutive_error_count s + 1 < max_consecutive_errors →
  ∃ s', receive_step env now s = (Ok false, s') ∧ inbox s' = rest ∧
    waiting_queue s' = waiting_queue s ∧ outbox s' = outbox s.
Proof.
  intros Hi Hg Hmax Hb Herr. unfold receive_step, recv_reqs, try_except.
  unfold mbind at 1, M_bind at 1. rewrite (recv_loop_fails env good bad rest e ls) by
    (try done; rewrite Hi, length_app; simpl; lia).
  unfold mbind, M_bind, modify, gets. simpl. rewrite (proj2 (Z.leb_gt _ _)) by lia.
  eexists. split; [done|]. done.
Qed.

(** ** A small server *)

Module Server.
Definition show (v : pyval) : string := match v with PJson (JStr s) => s | _ => "?" end.
Definition params (id prompt : string) : pyval :=
  PDict [("request_id", PJson (JStr id)); ("prompt", PJson (JStr prompt)); ("image_path", PNone);
         ("return_file_paths_only", PJson (JBool false)); ("seed", PJson (JInt 7));
         ("num_outputs_per_prompt", PJson (JInt 1)); ("width", PNone); ("height", PNone);
         ("num_inference_steps", PJson (JInt 4))].
Definition req (id prompt : string) : Req :=
  mk_req [("is_warmup", PJson (JBool false)); ("extra", PDict [])] (params id prompt).
(** The model answers with one output for each prompt. *)
Definition forward (rs : list Req) : res OutputBatch :=
  match rs with
  | r :: _ => p ← req_attr r "prompt"; Ok (value_output (match p with PList l => PList l | _ => PList [p] end))
  | [] => Raise IndexError
  end.
Definition loads (p : string) : Unpickled :=
  if bool_decide (p = "a") then Loaded (OReq (req "1" "a"))
  else if bool_decide (p = "b") then Loaded (OReq (req "2" "b")) else Malformed.
Definition env : Env :=
  mk_env forward (λ _, Ok no_output) loads (λ v, v) show show (λ _, 1%Qc) (λ _, "error").
Definition broken : Env :=
  mk_env forward (λ _, Ok no_output)
    (λ p, if bool_decide (p = "a") then Loaded (OReq (req "1" "a")) else LoadRaises AttributeError)
    (λ v, v) show show (λ _, 1%Qc) (λ _, "error").
Definition config : Config :=
  mk_config 4 1%Qc true (init_controller true 4 "m" false None []) true false false false 1.
Definition server : Scheduler := init_scheduler config [] 0%Qc.
Definition queued : Scheduler :=
  set_queue (λ _, [mk_entry (Some "c1") (OReq (req "1" "a")) 0%Qc;
                   mk_entry (Some "c2") (OControl ListLoras) 0%Qc;
                   mk_entry (Some "c3") (OReq (req "2" "b")) 0%Qc]) server.
Definition inputs : list (Qc * list (list string)) :=
  [(0%Qc, [["c1"; ""; "a"]; ["c2"; ""; "b"]; ["c3"; ""; "?"]]); (Qc_of_Z 2, [])].
End Server.

Lemma requests_answered_once_witness :
  replied (event_loop Server.env Server.inputs Server.server).2 = ["c1"; "c2"] ∧
  (["c1"; "c2"] ++ [] ++ [] ≡ₚ concat Server.inputs.*2 ≫= clients Server.env)%list.
Proof.
  split; [vm_compute; reflexivity|].
  apply (requests_answered_once Server.env Server.config [] 0%Qc Server.inputs
    (Ok tt) (event_loop Server.env Server.inputs Server.server).2).
  - vm_compute. reflexivity.
  - intros p e. simpl. unfold Server.loads. by repeat case_bool_decide.
  - intros Hon. discriminate.
  - reflexivity.
  - vm_compute. reflexivity.
Defined.

Lemma next_batch_sound_witness :
  (get_next_batch_to_run Server.env (Qc_of_Z 2) Server.queued).1 =
    Ok (Some [(Some "c1", OReq (Server.req "1" "a")); (Some "c3", OReq (Server.req "2" "b"))]) ∧
  waiting_queue (get_next_batch_to_run Server.env (Qc_of_Z 2) Server.queued).2 `sublist_of`
    waiting_queue Server.queued.
Proof.
  split; [vm_compute; reflexivity|].
  destruct (next_batch_sound Server.env (Qc_of_Z 2) Server.queued
    (Some [(Some "c1", OReq (Server.req "1" "a")); (Some "c3", OReq (Server.req "2" "b"))])
    (get_next_batch_to_run Server.env (Qc_of_Z 2) Server.queued).2)
    as (taken & _ & _ & _ & H & _); [vm_compute; reflexivity|exact H].
Defined.

Lemma split_exact_witness :
  ∃ os, split_batched_output (value_output (PList [PJson (JInt 1); PJson (JInt 2)]))
      [Server.req "1" "a"; Server.req "2" "b"] = Ok (Some os) ∧ length os = 2%nat.
Proof.
  eexists. split; [vm_compute; reflexivity|].
  eapply (split_exact (value_output (PList [PJson (JInt 1); PJson (JInt 2)]))
    [Server.req "1" "a"; Server.req "2" "b"] [1; 1]); [vm_compute; reflexivity|vm_compute; reflexivity|].
  repeat constructor; done.
Defined.

Lemma failed_poll_loses_witness :
  clients Server.broken ["c1"; ""; "a"] = ["c1"] ∧
  ∃ s', receive_step Server.broken 0%Qc
      (set_inbox (λ _, [["c1"; ""; "a"]; ["c2"; ""; "x"]]) Server.server) = (Ok false, s') ∧
    waiting_queue s' = [] ∧ outbox s' = [].
Proof.
  split; [vm_compute; reflexivity|].
  destruct (failed_poll_loses Server.broken 0%Qc
    (set_inbox (λ _, [["c1"; ""; "a"]; ["c2"; ""; "x"]]) Server.server) [["c1"; ""; "a"]] ["c2"; ""; "x"] []
    AttributeError [[("c1", OReq (Server.req "1" "a"))]]) as (s' & H1 & _ & H2 & H3).
  - reflexivity.
  - vm_compute. reflexivity.
  - simpl. unfold MAX_RECV_REQS_PER_POLL. lia.
  - vm_compute. reflexivity.
  - reflexivity.
  - exists s'. split_and!; [exact H1|exact H2|exact H3].
Defined.
