(* ===== verification/RankGroups.v ===== *)
(** * Groups of ranks along the dimensions of a parallel layout

    Models [utils/distributed.py]: the enumeration of orthogonal rank groups and
    [RankGenerator], which names the dimensions. [range(n)] is [seqZ 0 n]. *)

From S2P Require Import Prelude Admission.
Local Open Scope string_scope.
Local Open Scope Z_scope.

(** ** Orthogonal groups *)

(** [prefix_product(a, init)] *)
Fixpoint prefix_product (init : Z) (a : list Z) : list Z :=
  match a with
  | [] => [init]
  | v :: a => init :: prefix_product (init * v) a
  end.

(** [sum([x * y for x, y in zip(a, b)])] *)
Definition inner_product (a b : list Z) : Z := Zsum (zip_with Z.mul a b).

(** [decompose(index, shape)], the stride being the prefix product of the shape. *)
Definition decompose (index : Z) (shape : list Z) : res (list Z) :=
  let stride := prefix_product 1 shape in
  idx ← mapM (λ '(s, d), q ← floordiv index d; pymod q s) (zip shape stride);
  if inner_product idx (take (length stride - 1) stride) =? index then Ok idx
  else Raise AssertionError.

(** [[s for s, m in zip(l, mask) if m == b]] *)
Fixpoint select {A} (b : bool) (l : list A) (mask : list bool) : list A :=
  match l, mask with
  | x :: l, m :: mask => if Bool.eqb m b then x :: select b l mask else select b l mask
  | _, _ => []
  end.

Definition generate_masked_orthogonal_rank_groups (world_size : Z) (parallel_size : list Z)
    (mask : list bool) : res (list (list Z)) :=
  let masked_shape := select true parallel_size mask in
  let unmasked_shape := select false parallel_size mask in
  let global_stride := prefix_product 1 parallel_size in
  let masked_stride := select true global_stride mask in
  let unmasked_stride := select false global_stride mask in
  let group_size := List.last (prefix_product 1 masked_shape) 1 in
  num_of_group ← floordiv world_size group_size;
  mapM (λ group_index,
    decomposed_group_idx ← decompose group_index unmasked_shape;
    mapM (λ rank_in_group,
      decomposed_rank_idx ← decompose rank_in_group masked_shape;
      Ok (inner_product decomposed_rank_idx masked_stride
          + inner_product decomposed_group_idx unmasked_stride))
      (seqZ 0 group_size))
    (seqZ 0 num_of_group).

(** ** The rank generator *)

Record RankGenerator := mk_generator {
  g_tp : Z; g_sp : Z; g_pp : Z; g_cfg : Z; g_dp : Z;
  rank_offset : Z;
  g_world_size : Z;
  name_to_size : dict Z;
  order : string;
  ordered_size : list Z
}.

(** The loop over the names. The message of the error it means to raise reads
    [self.order], which is not set yet. *)
Fixpoint complete_order (names : dict Z) (order : string) : res string :=
  match names with
  | [] => Ok order
  | (name, size) :: names =>
      if negb (contains name order) && negb (size =? 1) then Raise AttributeError
      else if negb (contains name order) then complete_order names (order +:+ "-" +:+ name)
      else complete_order names order
  end.

Definition init_generator (tp sp pp cfg dp : Z) (ord : string) (offset : Z) : res RankGenerator :=
  let sizes := [("tp", tp); ("sp", sp); ("pp", pp); ("cfg", cfg); ("dp", dp)] in
  ord ← complete_order sizes (lower ord);
  ordered ← mapM (λ token, match dget token sizes with Some n => Ok n | None => Raise KeyError end)
              (split_on 45 ord);
  Ok (mk_generator tp sp pp cfg dp offset (tp * sp * pp * cfg * dp) sizes ord ordered).

(** [mask[ordered_token.index(t)] = True] for each [t]. *)
Fixpoint set_mask (ordered_token : list string) (tokens : list string) (mask : list bool) : res (list bool) :=
  match tokens with
  | [] => Ok mask
  | t :: tokens =>
      match list_find (λ x, x = t) ordered_token with
      | None => Raise ValueError
      | Some (i, _) => set_mask ordered_token tokens (<[i := true]> mask)
      end
  end.

Definition get_mask (order token : string) : res (list bool) :=
  let ordered_token := split_on 45 order in
  set_mask ordered_token (split_on 45 token) (replicate (length ordered_token) false).

Definition get_ranks (g : RankGenerator) (token : string) : res (list (list Z)) :=
  mask ← get_mask (order g) token;
  ranks ← generate_masked_orthogonal_rank_groups (g_world_size g) (ordered_size g) mask;
  Ok (if 0 <? rank_offset g then List.map (List.map (Z.add (rank_offset g))) ranks else ranks).

Example doc_groups :
  (g ← init_generator 2 3 1 2 1 "tp-sp-pp-cfg-dp" 0; get_ranks g "sp") =
  Ok [[0; 2; 4]; [1; 3; 5]; [6; 8; 10]; [7; 9; 11]].
Proof. vm_compute. reflexivity. Qed.

(** ** Mixed-radix numbers

    A rank is a number whose digits are its coordinates, one for each dimension, the first
    dimension being the least significant. *)

Definition product (l : list Z) : Z := foldr Z.mul 1 l.

Fixpoint digits (n : Z) (shape : list Z) : list Z :=
  match shape with
  | [] => []
  | s :: shape => n mod s :: digits (n / s) shape
  end.

Fixpoint undigits (idx shape : list Z) : Z :=
  match idx, shape with
  | x :: idx, s :: shape => x + s * undigits idx shape
  | _, _ => 0
  end.

Definition positive (shape : list Z) : Prop := Forall (λ s, 0 < s) shape.
Definition valid (idx shape : list Z) : Prop := Forall2 (λ x s, 0 ≤ x < s) idx shape.

Lemma product_pos shape : positive shape → 0 < product shape.
Proof. induction 1; simpl; [done|]. by apply Z.mul_pos_pos. Qed.

Lemma length_digits n shape : length (digits n shape) = length shape.
Proof. revert n. induction shape; intros; simpl; auto. Qed.

Lemma digits_valid n shape : positive shape → valid (digits n shape) shape.
Proof.
  intros H. revert n. induction H as [|s shape Hs _ IH]; intros n; simpl; constructor; [|apply IH].
  by apply Z.mod_pos_bound.
Qed.

Lemma undigits_digits n shape : positive shape → undigits (digits n shape) shape = n mod product shape.
Proof.
  intros H. revert n. induction H as [|s shape Hs Hp IH]; intros; simpl.
  - by rewrite Z.mod_1_r.
  - rewrite IH. apply product_pos in Hp. rewrite Z.rem_mul_r; lia.
Qed.

Lemma undigits_bound idx shape : positive shape → valid idx shape → 0 ≤ undigits idx shape < product shape.
Proof.
  intros Hp Hv. induction Hv as [|x s idx shape Hx Hv IH]; simpl; [lia|].
  apply Forall_cons in Hp as [Hs Hp]. specialize (IH Hp). nia.
Qed.

Lemma digits_undigits idx shape : positive shape → valid idx shape → digits (undigits idx shape) shape = idx.
Proof.
  intros Hp Hv. induction Hv as [|x s idx shape Hx Hv IH]; simpl; [done|].
  apply Forall_cons in Hp as [Hs Hp].
  rewrite (Z.mul_comm s), Z.mod_add, Z.mod_small by lia. f_equal.
  rewrite Z.div_add, Z.div_small, Z.add_0_l by lia. by apply IH.
Qed.

Lemma digits_inj n m shape :
  positive shape → 0 ≤ n < product shape → 0 ≤ m < product shape → digits n shape = digits m shape → n = m.
Proof.
  intros Hp Hn Hm H. apply (f_equal (λ l, undigits l shape)) in H.
  rewrite !undigits_digits, !Z.mod_small in H by done. done.
Qed.

(** ** The enumeration in terms of digits *)

Lemma prefix_product_last i a d : List.last (prefix_product i a) d = i * product a.
Proof.
  revert i. induction a as [|v a IH]; intros; [simpl; lia|].
  change (List.last (i :: prefix_product (i * v) a) d = i * (v * product a)).
  rewrite Z.mul_assoc, <-IH. by destruct a.
Qed.

Lemma length_prefix_product i a : length (prefix_product i a) = S (length a).
Proof. revert i. induction a; intros; simpl; auto. Qed.

(** Only the first [length idx] strides matter. *)
Lemma inner_product_prefix i idx shape rest :
  length idx = length shape → inner_product idx (take (length shape) (prefix_product i shape) ++ rest) = i * undigits idx shape.
Proof.
  revert i shape. induction idx as [|x idx IH]; intros i [|s shape] H; simplify_eq/=; [unfold inner_product; simpl; lia|].
  unfold inner_product in *. simpl. rewrite IH by done. lia.
Qed.

Lemma inner_product_stride i idx shape :
  length idx = length shape → inner_product idx (prefix_product i shape) = i * undigits idx shape.
Proof.
  intros H. rewrite <-(take_drop (length shape) (prefix_product i shape)). by apply inner_product_prefix.
Qed.

Lemma decompose_digits i n shape :
  0 < i → positive shape →
  mapM (λ '(s, d), q ← floordiv n d; pymod q s) (zip shape (prefix_product i shape)) = Ok (digits (n / i) shape).
Proof.
  intros Hi H. revert i Hi. induction H as [|s shape Hs Hp IH]; intros i Hi; simpl; [done|].
  rewrite floordiv_Ok by lia. simpl. rewrite pymod_Ok by lia. simpl.
  rewrite IH by nia. simpl. by rewrite Z.div_div by lia.
Qed.

Lemma decompose_Ok n shape : positive shape → 0 ≤ n < product shape → decompose n shape = Ok (digits n shape).
Proof.
  intros Hp Hn. unfold decompose. rewrite decompose_digits by (done || lia). rewrite Z.div_1_r. simpl.
  rewrite length_prefix_product. replace (S (length shape) - 1)%nat with (length shape) by lia.
  rewrite <-(app_nil_r (take _ _)), inner_product_prefix by apply length_digits.
  rewrite undigits_digits, Z.mod_small, Z.mul_1_l, Z.eqb_refl by done. done.
Qed.

(** Digits of the chosen and of the other dimensions, put back in their places. *)
Fixpoint merge (mask : list bool) (a b : list Z) : list Z :=
  match mask with
  | [] => []
  | true :: mask => match a with x :: a => x :: merge mask a b | [] => [] end
  | false :: mask => match b with x :: b => x :: merge mask a b | [] => [] end
  end.

Lemma merge_select shape mask :
  length mask = length shape → merge mask (select true shape mask) (select false shape mask) = shape.
Proof. revert shape. induction mask as [|[] mask IH]; intros [|s shape] H; simplify_eq/=; [done|f_equal; auto..]. Qed.

Lemma select_merge mask (shape a b : list Z) :
  length mask = length shape → valid a (select true shape mask) → valid b (select false shape mask) →
  valid (merge mask a b) shape ∧ select true (merge mask a b) mask = a ∧ select false (merge mask a b) mask = b.
Proof.
  revert shape a b. induction mask as [|m mask IH]; intros [|s shape] a b H Ha Hb; simplify_eq/=.
  - inversion_clear Ha. inversion_clear Hb. by repeat constructor.
  - destruct m; simpl in *.
    + inversion_clear Ha as [|x ? a' ? Hx Ha']. destruct (IH shape a' b) as (H1 & H2 & H3); [done..|].
      simpl. split_and!; [by constructor|by rewrite H2|done].
    + inversion_clear Hb as [|x ? b' ? Hx Hb']. destruct (IH shape a b') as (H1 & H2 & H3); [done..|].
      simpl. split_and!; [by constructor|done|by rewrite H3].
Qed.

Lemma select_length {A B} b (l : list A) (l' : list B) mask :
  length l = length l' → length (select b l mask) = length (select b l' mask).
Proof.
  revert l l'. induction mask as [|m mask IH]; intros [|x l] [|y l'] H; simplify_eq/=; [done..|].
  destruct (Bool.eqb m b); simpl; auto.
Qed.

Lemma select_app_r {A} b (l r : list A) mask : length mask = length l → select b (l ++ r) mask = select b l mask.
Proof.
  revert l. induction mask as [|m mask IH]; intros [|x l] H; simplify_eq/=; [by destruct r|].
  destruct (Bool.eqb m b); rewrite IH; auto.
Qed.

Lemma inner_product_merge mask (l a b : list Z) :
  (length mask ≤ length l)%nat → length a = length (select true l mask) → length b = length (select false l mask) →
  inner_product a (select true l mask) + inner_product b (select false l mask) = inner_product (merge mask a b) l.
Proof.
  unfold inner_product. revert l a b. induction mask as [|m mask IH]; intros [|s l] a b H Ha Hb; simpl in *; try lia;
    [destruct a, b; done..|].
  destruct m; simpl in *.
  - destruct a as [|x a]; simplify_eq/=. rewrite <-(IH l a b) by (done || lia). lia.
  - destruct b as [|x b]; simplify_eq/=. rewrite <-(IH l a b) by (done || lia). lia.
Qed.

Lemma positive_select b shape mask : positive shape → positive (select b shape mask).
Proof.
  intros H. revert mask. induction H as [|s shape Hs Hp IH]; intros [|m mask]; simpl; try constructor.
  destruct (Bool.eqb m b); [constructor; [done|]|]; apply IH.
Qed.

Lemma product_select shape mask :
  length mask = length shape → product shape = product (select true shape mask) * product (select false shape mask).
Proof.
  revert mask. induction shape as [|s shape IH]; intros [|m mask] H; simplify_eq/=; [done|].
  rewrite (IH mask) by done. destruct m; simpl; lia.
Qed.

Lemma concat_bind {A B} (f : A → list B) l : concat (f <$> l) = l ≫= f.
Proof. induction l as [|x l IH]; [done|]. rewrite bind_cons. rewrite <-IH. done. Qed.

(** The rank of position [i] of group [g]. *)
Definition rank_at (shape : list Z) (mask : list bool) (g i : Z) : Z :=
  undigits (merge mask (digits i (select true shape mask)) (digits g (select false shape mask))) shape.

(** Coordinates along the chosen dimensions, and along the others, as numbers. *)
Definition part (b : bool) (shape : list Z) (mask : list bool) (r : Z) : Z :=
  undigits (select b (digits r shape) mask) (select b shape mask).

Section Groups.
Context (shape : list Z) (mask : list bool) (Hp : positive shape) (Hl : length mask = length shape).
Local Abbreviation ms := (select true shape mask).
Local Abbreviation us := (select false shape mask).

Lemma rank_at_digits g i :
  digits (rank_at shape mask g i) shape = merge mask (digits i ms) (digits g us) ∧
  0 ≤ rank_at shape mask g i < product shape ∧
  select true (digits (rank_at shape mask g i) shape) mask = digits i ms ∧
  select false (digits (rank_at shape mask g i) shape) mask = digits g us.
Proof using Hp Hl.
  destruct (select_merge mask shape (digits i ms) (digits g us)) as (Hv & H1 & H2);
    [done|apply digits_valid; by apply positive_select..|].
  unfold rank_at. rewrite digits_undigits by done. split_and!; [done|apply undigits_bound; done..|done|done].
Qed.

Lemma select_digits_valid b r : valid (select b (digits r shape) mask) (select b shape mask).
Proof using Hp Hl.
  assert (valid (digits r shape) shape) as Hv by by apply digits_valid.
  revert mask Hl. induction Hv as [|x s idx sh Hx _ IH]; intros [|m mk] H; simplify_eq/=; [constructor|].
  destruct (Bool.eqb m b); [constructor; [done|]|]; (apply IH; [by apply Forall_cons in Hp as [_ ?]|done]).
Qed.

(** A rank is the one at its own coordinates, and a position has the coordinates it was made from. *)
Lemma rank_at_part r : 0 ≤ r < product shape →
  rank_at shape mask (part false shape mask r) (part true shape mask r) = r.
Proof using Hp Hl.
  intros Hr. unfold rank_at, part.
  rewrite !digits_undigits by (apply positive_select, Hp || apply select_digits_valid).
  rewrite merge_select by (by rewrite length_digits). rewrite undigits_digits, Z.mod_small by done. done.
Qed.

Lemma part_rank_at g i : 0 ≤ g < product us → 0 ≤ i < product ms →
  part false shape mask (rank_at shape mask g i) = g ∧ part true shape mask (rank_at shape mask g i) = i.
Proof using Hp Hl.
  intros Hg Hi. destruct (rank_at_digits g i) as (_ & _ & H1 & H2). unfold part. rewrite H1, H2.
  rewrite !undigits_digits, !Z.mod_small by (by try apply positive_select). done.
Qed.

Lemma part_bound b r : 0 ≤ part b shape mask r < product (select b shape mask).
Proof using Hp Hl. apply undigits_bound; [by apply positive_select|apply select_digits_valid]. Qed.

Lemma generate_groups :
  generate_masked_orthogonal_rank_groups (product shape) shape mask =
  Ok ((λ g, rank_at shape mask g <$> seqZ 0 (product ms)) <$> seqZ 0 (product us)).
Proof using Hp Hl.
  unfold generate_masked_orthogonal_rank_groups. rewrite prefix_product_last, Z.mul_1_l.
  assert (0 < product ms) by by apply product_pos, positive_select.
  assert (positive us) by by apply positive_select. assert (positive ms) by by apply positive_select.
  rewrite floordiv_Ok by lia. simpl.
  rewrite (product_select shape mask), Z.mul_comm, Z.div_mul by (done || lia).
  apply mapM_Ok. intros g Hg%elem_of_seqZ. rewrite decompose_Ok by (done || lia). simpl.
  apply mapM_Ok. intros i Hi%elem_of_seqZ. rewrite decompose_Ok by (done || lia). simpl. f_equal.
  assert (length (prefix_product 1 shape) = S (length shape)) as Hlen by apply length_prefix_product.
  rewrite inner_product_merge; [|lia|..].
  - rewrite inner_product_stride; [unfold rank_at; lia|].
    destruct (select_merge mask shape (digits i ms) (digits g us)) as (Hv & _); [done|by apply digits_valid..|].
    by apply Forall2_length in Hv.
  - rewrite length_digits. rewrite <-(take_drop (length shape) (prefix_product 1 shape)).
    rewrite select_app_r by (rewrite length_take; lia). apply select_length. rewrite length_take. lia.
  - rewrite length_digits. rewrite <-(take_drop (length shape) (prefix_product 1 shape)).
    rewrite select_app_r by (rewrite length_take; lia). apply select_length. rewrite length_take. lia.
Qed.

Lemma groups_concat :
  concat ((λ g, rank_at shape mask g <$> seqZ 0 (product ms)) <$> seqZ 0 (product us)) ≡ₚ seqZ 0 (product shape).
Proof using Hp Hl.
  rewrite concat_bind. apply NoDup_Permutation; [apply NoDup_bind|apply NoDup_seqZ|].
  - intros g g' r Hg%elem_of_seqZ Hg'%elem_of_seqZ (i & -> & Hi%elem_of_seqZ)%list_elem_of_fmap
      (i' & He & Hi'%elem_of_seqZ)%list_elem_of_fmap.
    destruct (part_rank_at g i) as [<- _]; [lia..|]. rewrite He. apply part_rank_at; lia.
  - intros g Hg%elem_of_seqZ. apply NoDup_fmap_2_strong; [|apply NoDup_seqZ].
    intros i i' Hi%elem_of_seqZ Hi'%elem_of_seqZ He.
    destruct (part_rank_at g i) as [_ <-]; [lia..|]. rewrite He. apply part_rank_at; lia.
  - apply NoDup_seqZ.
  - intros r. rewrite list_elem_of_bind, elem_of_seqZ. split.
    + intros (g & (i & -> & Hi)%list_elem_of_fmap & Hg). pose proof (rank_at_digits g i). lia.
    + intros Hr. exists (part false shape mask r). pose proof (part_bound false r). pose proof (part_bound true r).
      rewrite elem_of_seqZ, list_elem_of_fmap. split; [|lia].
      exists (part true shape mask r). rewrite rank_at_part, elem_of_seqZ by lia. lia.
Qed.
End Groups.
