(* ===== verification/Parallel.v ===== *)
(** * Process groups of a multi-GPU instance

    Models [distributed/parallel_state.py], [distributed/parallel_groups.py] and the
    constructors and rank arithmetic of [distributed/group_coordinator.py]: the process
    groups every rank joins when an instance starts, and the way [GPUWorker] asks for them.

    The state is that of one process. [torch.distributed] is outside: a process group is
    the list of its members, [new_group_error] says when creating one fails, and the groups
    a process asked for are logged in order, because every process has to ask for the same
    groups in the same order. *)

From S2P Require Import Prelude RankGroups.
Local Open Scope string_scope.
Local Open Scope Z_scope.

Record Env := mk_env {
  new_group_error : Z → list Z → option exc;
  platform_backend : string;
  env_local_rank : Z
}.

Record ProcessGroup := mk_pg { pg_backend : option string; pg_ranks : list Z }.

Record GroupCoordinator := mk_coordinator {
  gc_rank : Z;
  gc_local_rank : Z;
  gc_ranks : list Z;
  gc_world_size : Z;
  gc_rank_in_group : Z;
  gc_device_group : ProcessGroup;
  gc_cpu_group : ProcessGroup
}.

Record PipelineGroupCoordinator := mk_pipeline {
  pp_base : GroupCoordinator;
  pp_device_groups : list ProcessGroup;
  pp_cpu_groups : list ProcessGroup;
  pp_skip_device_group : ProcessGroup
}.

Record SequenceParallelGroupCoordinator := mk_sequence {
  sp_base : GroupCoordinator;
  ulysses_group : ProcessGroup;
  ring_group : ProcessGroup;
  ulysses_world_size : Z;
  ulysses_rank : Z;
  ring_world_size : Z;
  ring_rank : Z
}.

(** The module globals, [PROCESS_GROUP], and the default process group: its size and the
    rank of this process in it. *)
Record Dist := mk_dist {
  torch_world : option (Z * Z);
  WORLD : option GroupCoordinator;
  DP : option GroupCoordinator;
  CFG : option GroupCoordinator;
  PP : option PipelineGroupCoordinator;
  SP : option SequenceParallelGroupCoordinator;
  TP : option GroupCoordinator;
  ULYSSES_PG : option ProcessGroup;
  RING_PG : option ProcessGroup;
  VAE : option ProcessGroup;
  DIT : option ProcessGroup;
  created : list ProcessGroup
}.

Definition no_dist : Dist :=
  mk_dist None None None None None None None None None None None [].

Definition set_torch_world x d := mk_dist x (WORLD d) (DP d) (CFG d) (PP d) (SP d) (TP d) (ULYSSES_PG d) (RING_PG d) (VAE d) (DIT d) (created d).
Definition set_WORLD x d := mk_dist (torch_world d) x (DP d) (CFG d) (PP d) (SP d) (TP d) (ULYSSES_PG d) (RING_PG d) (VAE d) (DIT d) (created d).
Definition set_DP x d := mk_dist (torch_world d) (WORLD d) x (CFG d) (PP d) (SP d) (TP d) (ULYSSES_PG d) (RING_PG d) (VAE d) (DIT d) (created d).
Definition set_CFG x d := mk_dist (torch_world d) (WORLD d) (DP d) x (PP d) (SP d) (TP d) (ULYSSES_PG d) (RING_PG d) (VAE d) (DIT d) (created d).
Definition set_PP x d := mk_dist (torch_world d) (WORLD d) (DP d) (CFG d) x (SP d) (TP d) (ULYSSES_PG d) (RING_PG d) (VAE d) (DIT d) (created d).
Definition set_SP x d := mk_dist (torch_world d) (WORLD d) (DP d) (CFG d) (PP d) x (TP d) (ULYSSES_PG d) (RING_PG d) (VAE d) (DIT d) (created d).
Definition set_TP x d := mk_dist (torch_world d) (WORLD d) (DP d) (CFG d) (PP d) (SP d) x (ULYSSES_PG d) (RING_PG d) (VAE d) (DIT d) (created d).
Definition set_seq_pgs u r d := mk_dist (torch_world d) (WORLD d) (DP d) (CFG d) (PP d) (SP d) (TP d) u r (VAE d) (DIT d) (created d).
Definition set_VAE x d := mk_dist (torch_world d) (WORLD d) (DP d) (CFG d) (PP d) (SP d) (TP d) (ULYSSES_PG d) (RING_PG d) x (DIT d) (created d).
Definition set_DIT x d := mk_dist (torch_world d) (WORLD d) (DP d) (CFG d) (PP d) (SP d) (TP d) (ULYSSES_PG d) (RING_PG d) (VAE d) x (created d).
Definition add_created l d := mk_dist (torch_world d) (WORLD d) (DP d) (CFG d) (PP d) (SP d) (TP d) (ULYSSES_PG d) (RING_PG d) (VAE d) (DIT d) (created d ++ l).

(** ** [torch.distributed] *)

(** A process group is needed for any of these; PyTorch raises [ValueError] without one. *)
Definition default_group : M Dist (Z * Z) :=
  w ← gets torch_world; match w with Some w => mret w | None => raise ValueError end.

Definition new_group (env : Env) (backend : option string) (ranks : list Z) : M Dist ProcessGroup :=
  w ← default_group;
  match new_group_error env w.1 ranks with
  | Some e => raise e
  | None => modify (add_created [mk_pg backend ranks]) ≫= λ _, mret (mk_pg backend ranks)
  end.

(** [l.index(r)] for a member [r]. *)
Definition index_of (r : Z) (l : list Z) : Z :=
  match list_find (λ x, x = r) l with Some (i, _) => Z.of_nat i | None => -1 end.

Definition group_world_size (g : ProcessGroup) : Z := length (pg_ranks g).
Definition group_rank (rank : Z) (g : ProcessGroup) : Z := index_of rank (pg_ranks g).

(** ** Group coordinators *)

(** What the constructor's loop assigns when the process is a member of [ranks]. *)
Record Membership := mk_member {
  m_ranks : list Z;
  m_device : list ProcessGroup;
  m_cpu : list ProcessGroup
}.

Fixpoint join_groups (env : Env) (backend : string) (rank : Z) (groups : list (list Z))
    (acc : option Membership) : M Dist (option Membership) :=
  match groups with
  | [] => mret acc
  | ranks :: groups =>
      device_group ← new_group env (Some backend) ranks;
      cpu_group ← new_group env (Some "gloo") ranks;
      join_groups env backend rank groups
        (if bool_decide (rank ∈ ranks) then Some (mk_member ranks [device_group] [cpu_group]) else acc)
  end.

(** The loop for pipelines of two stages: a group for each direction. *)
Fixpoint join_groups_both_ways (env : Env) (backend : string) (rank : Z) (groups : list (list Z))
    (acc : option Membership) : M Dist (option Membership) :=
  match groups with
  | [] => mret acc
  | ranks :: groups =>
      device_group_0_1 ← new_group env (Some backend) ranks;
      device_group_1_0 ← new_group env (Some backend) ranks;
      cpu_group_0_1 ← new_group env (Some "gloo") ranks;
      cpu_group_1_0 ← new_group env (Some "gloo") ranks;
      join_groups_both_ways env backend rank groups
        (if bool_decide (rank ∈ ranks)
         then Some (mk_member ranks [device_group_0_1; device_group_1_0] [cpu_group_0_1; cpu_group_1_0])
         else acc)
  end.

Definition coordinator_of (rank local_rank : Z) (m : option Membership) : M Dist GroupCoordinator :=
  match m with
  | Some (mk_member ranks (device :: _) (cpu :: _)) =>
      mret (mk_coordinator rank local_rank ranks (length ranks) (index_of rank ranks) device cpu)
  | _ => raise AssertionError
  end.

Definition init_coordinator (env : Env) (group_ranks : list (list Z)) (local_rank : Z) (backend : string)
    : M Dist GroupCoordinator :=
  w ← default_group;
  m ← join_groups env backend w.2 group_ranks None;
  coordinator_of w.2 local_rank m.

Definition next_rank (g : GroupCoordinator) : option Z :=
  gc_ranks g !! Z.to_nat ((gc_rank_in_group g + 1) mod gc_world_size g).
Definition prev_rank (g : GroupCoordinator) : option Z :=
  gc_ranks g !! Z.to_nat ((gc_rank_in_group g - 1) mod gc_world_size g).
Definition skip_rank (g : GroupCoordinator) : option Z :=
  gc_ranks g !! Z.to_nat ((gc_world_size g - gc_rank_in_group g - 1) mod gc_world_size g).

(** One group for each list of ranks; the last one with the process in it is kept. *)
Fixpoint own_group (env : Env) (backend : option string) (rank : Z) (groups : list (list Z))
    (acc : option ProcessGroup) : M Dist (option ProcessGroup) :=
  match groups with
  | [] => mret acc
  | ranks :: groups =>
      group ← new_group env backend ranks;
      own_group env backend rank groups (if bool_decide (rank ∈ ranks) then Some group else acc)
  end.

(** The second pass of the constructor replaces the groups of the first. Communication
    buffers start empty and are not kept here. *)
Definition init_pipeline_coordinator (env : Env) (group_ranks : list (list Z)) (local_rank : Z)
    (backend : string) : M Dist PipelineGroupCoordinator :=
  _ ← init_coordinator env group_ranks local_rank backend;
  w ← default_group;
  match group_ranks with
  | [] => raise IndexError
  | first :: _ =>
      m ← (if (2 <? length first) || (length first =? 1)
           then join_groups env backend w.2 group_ranks None
           else if length first =? 2
           then join_groups_both_ways env backend w.2 group_ranks None
           else mret None);
      base ← coordinator_of w.2 local_rank m;
      skip ← own_group env (Some backend) w.2 group_ranks None;
      match skip with
      | None => raise AssertionError
      | Some skip =>
          let '(ds, cs) := match m with
                           | Some (mk_member _ [d0; d1] [c0; c1]) => ([d0; d1], [c0; c1])
                           | _ => ([], [])
                           end in
          mret (mk_pipeline base ds cs skip)
      end
  end.

Definition init_sequence_coordinator (env : Env) (group_ranks : list (list Z)) (local_rank : Z)
    (backend : string) (ulysses ring : option ProcessGroup) : M Dist SequenceParallelGroupCoordinator :=
  base ← init_coordinator env group_ranks local_rank backend;
  match ulysses, ring with
  | None, _ => raise RuntimeError
  | _, None => raise RuntimeError
  | Some u, Some r =>
      w ← default_group;
      mret (mk_sequence base u r (group_world_size u) (group_rank w.2 u)
              (group_world_size r) (group_rank w.2 r))
  end.

(** ** Ulysses and ring groups inside each sequence-parallel group *)

(** [range(a, b, step)] for a positive step. *)
Definition range_step (a b step : Z) : list Z := (λ k, a + k * step) <$> seqZ 0 ((b - a + step - 1) / step).

(** [[ranks[i] for i in indices]]; the indices are not negative. *)
Definition map_indices_to_ranks (ranks indices : list Z) : res (list Z) :=
  mapM (λ i, match ranks !! Z.to_nat i with Some r => Ok r | None => Raise IndexError end) indices.

Fixpoint sub_groups (env : Env) (rank : Z) (sp_ranks : list Z) (idxs : list (list Z))
    (acc : option ProcessGroup) : M Dist (option ProcessGroup) :=
  match idxs with
  | [] => mret acc
  | idx :: idxs =>
      ranks ← lift_res (map_indices_to_ranks sp_ranks idx);
      group ← new_group env None ranks;
      sub_groups env rank sp_ranks idxs (if bool_decide (rank ∈ ranks) then Some group else acc)
  end.

(** Blocks of [size] neighbours, and [num] combs over [total] positions. *)
Definition blocks (num size : Z) : list (list Z) := (λ i, seqZ (i * size) size) <$> seqZ 0 num.
Definition combs (num total : Z) : list (list Z) := (λ i, range_step i total num) <$> seqZ 0 num.

Fixpoint sp_group_loop (env : Env) (ulysses ring rank : Z) (use_ulysses_low : bool)
    (sp_groups : list (list Z)) (u r : option ProcessGroup) : M Dist (option ProcessGroup * option ProcessGroup) :=
  match sp_groups with
  | [] => mret (u, r)
  | sp_ranks :: sp_groups =>
      let sp_degree := ring * ulysses in
      if use_ulysses_low then
        u ← sub_groups env rank sp_ranks (blocks ring ulysses) u;
        r ← sub_groups env rank sp_ranks (combs ulysses sp_degree) r;
        sp_group_loop env ulysses ring rank use_ulysses_low sp_groups u r
      else
        r ← sub_groups env rank sp_ranks (blocks ulysses ring) r;
        u ← sub_groups env rank sp_ranks (combs ring sp_degree) u;
        sp_group_loop env ulysses ring rank use_ulysses_low sp_groups u r
  end.

Definition set_seq_parallel_pg_by_sp_groups (env : Env) (ulysses ring rank : Z)
    (sp_groups : list (list Z)) (use_ulysses_low : bool) : M Dist unit :=
  let sp_degree := ring * ulysses in
  if negb (0 <? sp_degree) then raise AssertionError
  else if negb (forallb (λ g, Z.of_nat (length g) =? sp_degree) sp_groups) then raise AssertionError
  else '(u, r) ← sp_group_loop env ulysses ring rank use_ulysses_low sp_groups None None;
       modify (set_seq_pgs u r).

(** ** Initialisation *)

Definition assert_none {A} (f : Dist → option A) : M Dist unit :=
  x ← gets f; match x with None => mret tt | Some _ => raise AssertionError end.
Definition assert_some {A} (f : Dist → option A) : M Dist A :=
  x ← gets f; match x with None => raise AssertionError | Some a => mret a end.

Definition get_world_group : M Dist GroupCoordinator := assert_some WORLD.

Definition init_vae_group (env : Env) (dit_parallel_size vae_parallel_size : Z) (backend : string) : M Dist unit :=
  _ ← assert_none VAE;
  g ← new_group env (Some backend) (seqZ dit_parallel_size vae_parallel_size);
  modify (set_VAE (Some g)).

Definition init_dit_group (env : Env) (dit_parallel_size : Z) (backend : string) : M Dist unit :=
  _ ← assert_none DIT;
  g ← new_group env (Some backend) (seqZ 0 dit_parallel_size);
  modify (set_DIT (Some g)).

(** The degrees of [initialize_model_parallel]. *)
Record Degrees := mk_degrees {
  data_parallel_size : Z;
  classifier_free_guidance_degree : Z;
  sequence_parallel_degree : Z;
  ulysses_degree : Z;
  ring_degree : Z;
  tensor_parallel_degree : Z;
  pipeline_parallel_degree : Z;
  vae_parallel_size : Z
}.

Definition dit_parallel_size (a : Degrees) : Z :=
  data_parallel_size a * classifier_free_guidance_degree a * sequence_parallel_degree a
  * pipeline_parallel_degree a * tensor_parallel_degree a.

Definition initialize_model_parallel (env : Env) (a : Degrees) (backend : option string) : M Dist unit :=
  let backend := default (platform_backend env) backend in
  w ← assert_some torch_world;
  if w.1 <? dit_parallel_size a then raise RuntimeError
  else
    rank_generator ← lift_res (init_generator (tensor_parallel_degree a) (sequence_parallel_degree a)
      (pipeline_parallel_degree a) (classifier_free_guidance_degree a) (data_parallel_size a)
      "tp-sp-pp-cfg-dp" 0);
    _ ← assert_none DP;
    dp_ranks ← lift_res (get_ranks rank_generator "dp");
    wg ← get_world_group;
    dp ← init_coordinator env dp_ranks (gc_local_rank wg) backend;
    _ ← modify (set_DP (Some dp));
    _ ← assert_none CFG;
    cfg_ranks ← lift_res (get_ranks rank_generator "cfg");
    cfg ← init_coordinator env cfg_ranks (gc_local_rank wg) backend;
    _ ← modify (set_CFG (Some cfg));
    _ ← assert_none PP;
    pp_ranks ← lift_res (get_ranks rank_generator "pp");
    pp ← init_pipeline_coordinator env pp_ranks (gc_local_rank wg) backend;
    _ ← modify (set_PP (Some pp));
    _ ← assert_none SP;
    sp_groups ← lift_res (get_ranks rank_generator "sp");
    _ ← set_seq_parallel_pg_by_sp_groups env (ulysses_degree a) (ring_degree a) (gc_rank wg) sp_groups true;
    u ← gets ULYSSES_PG;
    r ← gets RING_PG;
    sp ← init_sequence_coordinator env sp_groups (gc_local_rank wg) backend u r;
    _ ← modify (set_SP (Some sp));
    _ ← assert_none TP;
    tp_ranks ← lift_res (get_ranks rank_generator "tp");
    tp ← init_coordinator env tp_ranks (gc_local_rank wg) backend;
    _ ← modify (set_TP (Some tp));
    _ ← when (0 <? vae_parallel_size a) (init_vae_group env (dit_parallel_size a) (vae_parallel_size a) backend);
    init_dit_group env (dit_parallel_size a) backend.

(** [init_process_group] sets the default group; the process then has a world group. *)
Definition init_distributed_environment (env : Env) (world_size rank local_rank : Z)
    (distributed_init_method backend : string) : M Dist unit :=
  w ← gets torch_world;
  _ ← when (bool_decide (w = None)) (modify (set_torch_world (Some (world_size, rank))));
  let local_rank := if local_rank =? -1
                    then if bool_decide (distributed_init_method = "env://") then env_local_rank env else rank
                    else local_rank in
  w ← default_group;
  wg ← gets WORLD;
  match wg with
  | None =>
      g ← init_coordinator env [seqZ 0 w.1] local_rank backend;
      modify (set_WORLD (Some g))
  | Some g => if gc_world_size g =? w.1 then mret tt else raise AssertionError
  end.

Definition model_parallel_is_initialized (d : Dist) : bool :=
  bool_decide (is_Some (DP d)) && bool_decide (is_Some (CFG d)) && bool_decide (is_Some (SP d))
  && bool_decide (is_Some (PP d)) && bool_decide (is_Some (TP d)).

Definition maybe_init_distributed_environment_and_model_parallel (env : Env)
    (tp_size sp_size cfg_degree ulysses_degree ring_degree dp_size : Z)
    (distributed_init_method : string) (local_rank world_size rank : Z) : M Dist unit :=
  d ← get;
  if bool_decide (is_Some (WORLD d)) && model_parallel_is_initialized d then
    tp ← assert_some TP;
    if negb (gc_world_size tp =? tp_size) then raise AssertionError
    else
      sp ← assert_some SP;
      if negb (gc_world_size (sp_base sp) =? sp_size) then raise AssertionError else mret tt
  else
    _ ← init_distributed_environment env world_size rank local_rank distributed_init_method (platform_backend env);
    initialize_model_parallel env
      (mk_degrees dp_size cfg_degree sp_size ulysses_degree ring_degree tp_size 1 0) None.

Definition destroy_model_parallel : M Dist unit :=
  modify (λ d, set_DIT None (set_VAE None (set_PP None (set_CFG None (set_DP None (set_SP None (set_TP None d))))))).

(** Ranks of a process along each dimension. *)
Definition get_tp_rank : M Dist Z := g ← assert_some TP; mret (gc_rank_in_group g).
Definition get_sp_parallel_rank : M Dist Z := g ← assert_some SP; mret (gc_rank_in_group (sp_base g)).
Definition get_pipeline_parallel_rank : M Dist Z := g ← assert_some PP; mret (gc_rank_in_group (pp_base g)).
Definition get_classifier_free_guidance_rank : M Dist Z := g ← assert_some CFG; mret (gc_rank_in_group g).
Definition get_dp_rank : M Dist Z := g ← assert_some DP; mret (gc_rank_in_group g).
Definition get_ulysses_parallel_rank : M Dist Z := g ← assert_some SP; mret (ulysses_rank g).
Definition get_ring_parallel_rank : M Dist Z := g ← assert_some SP; mret (ring_rank g).

Definition get_tp_world_size : M Dist Z := g ← assert_some TP; mret (gc_world_size g).
Definition get_sp_world_size : M Dist Z := g ← assert_some SP; mret (gc_world_size (sp_base g)).
Definition get_pipeline_parallel_world_size : M Dist Z := g ← assert_some PP; mret (gc_world_size (pp_base g)).
Definition get_classifier_free_guidance_world_size : M Dist Z := g ← assert_some CFG; mret (gc_world_size g).
Definition get_dp_world_size : M Dist Z := g ← assert_some DP; mret (gc_world_size g).
Definition get_ulysses_parallel_world_size : M Dist Z := g ← assert_some SP; mret (ulysses_world_size g).
Definition get_ring_parallel_world_size : M Dist Z := g ← assert_some SP; mret (ring_world_size g).

Definition get_dit_world_size : M Dist Z :=
  dp ← get_dp_world_size;
  cfg ← get_classifier_free_guidance_world_size;
  sp ← get_sp_world_size;
  pp ← get_pipeline_parallel_world_size;
  tp ← get_tp_world_size;
  mret (dp * cfg * sp * pp * tp).
