(* ===== verification/ParallelFacts.v ===== *)
(** * Facts about process groups

    The group of a partition a process joins, its position in it, and what each constructor
    does: which groups it creates, whatever the rank, and what it returns. *)

From S2P Require Import Prelude Admission RankGroups Parallel.
Local Open Scope string_scope.
Local Open Scope Z_scope.

(** ** Creating groups *)

(** PyTorch creates any group of distinct ranks of the default group. *)
Class GroupsOk (env : Env) : Prop :=
  new_group_ok w ranks : NoDup ranks → ranks ≠ [] → Forall (λ r, 0 ≤ r < w) ranks → new_group_error env w ranks = None.

Definition good (w : Z) (ranks : list Z) : Prop := NoDup ranks ∧ ranks ≠ [] ∧ Forall (λ r, 0 ≤ r < w) ranks.

Lemma add_created_app l1 l2 d : add_created l2 (add_created l1 d) = add_created (l1 ++ l2) d.
Proof. unfold add_created. simpl. by rewrite app_assoc. Qed.

Lemma add_created_nil d : add_created [] d = d.
Proof. unfold add_created. rewrite app_nil_r. by destruct d. Qed.

Lemma default_group_Ok x d : torch_world d = Some x → default_group d = (Ok x, d).
Proof. intros H. unfold default_group, gets, mbind, M_bind. simpl. by rewrite H. Qed.

Section Create.
Context (env : Env) `{!GroupsOk env} (w rank : Z).

Lemma new_group_Ok b ranks d :
  torch_world d = Some (w, rank) → good w ranks →
  new_group env b ranks d = (Ok (mk_pg b ranks), add_created [mk_pg b ranks] d).
Proof using Type*.
  intros Hd (H1 & H2 & H3). unfold new_group. rewrite (bind_Ok _ _ _ _ _ (default_group_Ok _ _ Hd)). simpl.
  by rewrite new_group_ok.
Qed.

(** Step over the calls of [new_group] with good ranks. *)
Ltac new_groups := repeat (erewrite bind_Ok; [|apply new_group_Ok; [eassumption|done]]).

(** What a loop over the groups keeps: the last one that has the process. *)
Definition keep_own {A} (f : list Z → A) (groups : list (list Z)) (acc : option A) : option A :=
  foldl (λ acc ranks, if bool_decide (rank ∈ ranks) then Some (f ranks) else acc) acc groups.

Definition join_calls (b : string) (groups : list (list Z)) : list ProcessGroup :=
  groups ≫= λ ranks, [mk_pg (Some b) ranks; mk_pg (Some "gloo") ranks].

Lemma join_groups_Ok b groups acc d :
  torch_world d = Some (w, rank) → Forall (good w) groups →
  join_groups env b rank groups acc d =
  (Ok (keep_own (λ ranks, mk_member ranks [mk_pg (Some b) ranks] [mk_pg (Some "gloo") ranks]) groups acc),
   add_created (join_calls b groups) d).
Proof using Type*.
  intros Hd H. revert acc d Hd. induction H as [|ranks groups Hr Hg IH]; intros acc d Hd; simpl; [by rewrite add_created_nil|].
  new_groups.
  rewrite IH, !add_created_app by done. done.
Qed.

Lemma join_groups_both_ways_Ok b groups acc d :
  torch_world d = Some (w, rank) → Forall (good w) groups →
  join_groups_both_ways env b rank groups acc d =
  (Ok (keep_own (λ ranks, mk_member ranks [mk_pg (Some b) ranks; mk_pg (Some b) ranks]
         [mk_pg (Some "gloo") ranks; mk_pg (Some "gloo") ranks]) groups acc),
   add_created (groups ≫= λ ranks, [mk_pg (Some b) ranks; mk_pg (Some b) ranks;
                                     mk_pg (Some "gloo") ranks; mk_pg (Some "gloo") ranks]) d).
Proof using Type*.
  intros Hd H. revert acc d Hd. induction H as [|ranks groups Hr Hg IH]; intros acc d Hd; simpl; [by rewrite add_created_nil|].
  new_groups.
  rewrite IH, !add_created_app by done. done.
Qed.

Lemma own_group_Ok b groups acc d :
  torch_world d = Some (w, rank) → Forall (good w) groups →
  own_group env b rank groups acc d = (Ok (keep_own (mk_pg b) groups acc), add_created (mk_pg b <$> groups) d).
Proof using Type*.
  intros Hd H. revert acc d Hd. induction H as [|ranks groups Hr Hg IH]; intros acc d Hd; simpl; [by rewrite add_created_nil|].
  new_groups.
  rewrite IH, !add_created_app by done. done.
Qed.

Lemma keep_own_unique {A} (f : list Z → A) groups mine acc :
  mine ∈ groups → rank ∈ mine → (∀ g, g ∈ groups → rank ∈ g → g = mine) → keep_own f groups acc = Some (f mine).
Proof using Type*.
  intros Hm Hr Hu. unfold keep_own. revert acc. induction groups as [|g groups IH] using rev_ind; intros acc.
  - by apply elem_of_nil in Hm.
  - rewrite foldl_snoc. case_bool_decide as Hg.
    + rewrite (Hu g); [done| |done]. apply elem_of_app. right. by apply list_elem_of_singleton.
    + apply IH.
      * apply elem_of_app in Hm as [?| ->%list_elem_of_singleton]; [done|done].
      * intros g' Hg'. apply Hu. apply elem_of_app. by left.
Qed.
End Create.

(** ** The group of a dimension a process is in *)

Lemma index_of_lookup r l (i : nat) : NoDup l → l !! i = Some r → index_of r l = i.
Proof.
  intros Hn Hi. unfold index_of. destruct (list_find_elem_of (λ x, x = r) l r) as [[j x] Hj];
    [by eapply list_elem_of_lookup_2|done|].
  rewrite Hj. apply list_find_Some in Hj as (Hj & -> & _). f_equal. by eapply NoDup_lookup.
Qed.

Section Dimension.
Context (shape : list Z) (mask : list bool) (Hp : positive shape) (Hl : length mask = length shape).
Local Abbreviation ms := (select true shape mask).
Local Abbreviation us := (select false shape mask).

(** The groups, and the one of rank [r]. *)
Definition groups_of : list (list Z) := (λ g, rank_at shape mask g <$> seqZ 0 (product ms)) <$> seqZ 0 (product us).
Definition group_of (r : Z) : list Z := rank_at shape mask (part false shape mask r) <$> seqZ 0 (product ms).

Lemma groups_good : Forall (good (product shape)) groups_of.
Proof using Hp Hl.
  apply Forall_forall. intros l (g & -> & Hg%elem_of_seqZ)%list_elem_of_fmap.
  assert (0 < product ms) by by apply product_pos, positive_select.
  split_and!.
  - apply NoDup_fmap_2_strong; [|apply NoDup_seqZ].
    intros i i' Hi%elem_of_seqZ Hi'%elem_of_seqZ He.
    destruct (part_rank_at shape mask Hp Hl g i) as [_ <-]; [lia..|]. rewrite He. by apply part_rank_at; (done || lia).
  - intros H0. apply (f_equal length) in H0. rewrite length_fmap, length_seqZ in H0. simpl in H0. lia.
  - apply Forall_forall. intros r (i & -> & Hi)%list_elem_of_fmap. apply (rank_at_digits shape mask Hp Hl g i).
Qed.

Lemma length_groups : Forall (λ g, Z.of_nat (length g) = product ms) groups_of.
Proof using Hp Hl.
  apply Forall_forall. intros l (g & -> & Hg)%list_elem_of_fmap.
  assert (0 < product ms) by by apply product_pos, positive_select. rewrite length_fmap, length_seqZ. lia.
Qed.

Lemma group_of_spec r : 0 ≤ r < product shape →
  group_of r ∈ groups_of ∧ (∀ g, g ∈ groups_of → r ∈ g → g = group_of r) ∧
  group_of r !! Z.to_nat (part true shape mask r) = Some r.
Proof using Hp Hl.
  intros Hr. pose proof (part_bound shape mask Hp Hl false r). pose proof (part_bound shape mask Hp Hl true r). split_and!.
  - apply list_elem_of_fmap. exists (part false shape mask r). split; [done|]. apply elem_of_seqZ. lia.
  - intros l (g & -> & Hg%elem_of_seqZ)%list_elem_of_fmap (i & -> & Hi%elem_of_seqZ)%list_elem_of_fmap.
    unfold group_of. destruct (part_rank_at shape mask Hp Hl g i) as [-> _]; [lia..|]. done.
  - unfold group_of. rewrite list_lookup_fmap, lookup_seqZ_lt by lia. simpl. f_equal.
    rewrite Z2Nat.id by lia. apply rank_at_part; done.
Qed.

Lemma group_of_index r : 0 ≤ r < product shape →
  r ∈ group_of r ∧ index_of r (group_of r) = part true shape mask r ∧ Z.of_nat (length (group_of r)) = product ms.
Proof using Hp Hl.
  intros Hr. destruct (group_of_spec r Hr) as (H1 & _ & H3). split_and!.
  - by eapply list_elem_of_lookup_2.
  - pose proof (part_bound shape mask Hp Hl true r). 
    pose proof groups_good as Hg. rewrite Forall_forall in Hg. apply Hg in H1 as [Hn _].
    rewrite (index_of_lookup _ _ _ Hn H3). lia.
  - pose proof length_groups as Hg. rewrite Forall_forall in Hg. by apply Hg.
Qed.
End Dimension.

(** ** Coordinators *)

Section Coordinators.
Context (env : Env) `{!GroupsOk env} (shape : list Z) (mask : list bool).
Context (Hp : positive shape) (Hl : length mask = length shape).
Context (rank : Z) (Hr : 0 ≤ rank < product shape).
Local Abbreviation groups := (groups_of shape mask).
Local Abbreviation mine := (group_of shape mask rank).

(** The coordinator a process gets for the dimension. *)
Definition coordinator (local_rank : Z) (b : string) : GroupCoordinator :=
  mk_coordinator rank local_rank mine (product (select true shape mask)) (part true shape mask rank)
    (mk_pg (Some b) mine) (mk_pg (Some "gloo") mine).

Lemma keep_mine {A} (f : list Z → A) acc : keep_own rank f groups acc = Some (f mine).
Proof using Hp Hl Hr.
  destruct (group_of_spec shape mask Hp Hl rank Hr) as (H1 & H2 & _). apply keep_own_unique; [done| |done].
  by apply group_of_index.
Qed.

Lemma coordinator_of_mine local_rank b ds cs d :
  coordinator_of rank local_rank (Some (mk_member mine (mk_pg (Some b) mine :: ds) (mk_pg (Some "gloo") mine :: cs))) d
  = (Ok (coordinator local_rank b), d).
Proof using Hp Hl Hr.
  destruct (group_of_index shape mask Hp Hl rank Hr) as (_ & H1 & H2). unfold coordinator_of, coordinator.
  by rewrite H1, H2.
Qed.

Lemma init_coordinator_Ok local_rank b d :
  torch_world d = Some (product shape, rank) →
  init_coordinator env groups local_rank b d =
  (Ok (coordinator local_rank b), add_created (join_calls b groups) d).
Proof using Type*.
  intros Hd. unfold init_coordinator. rewrite (bind_Ok _ _ _ _ _ (default_group_Ok _ _ Hd)). simpl.
  erewrite bind_Ok; [|eapply join_groups_Ok; [done|exact Hd|by apply groups_good]].
  rewrite keep_mine. apply coordinator_of_mine.
Qed.

(** The calls of [new_group] a pipeline coordinator makes, by the number of stages. *)
Definition pipeline_calls (b : string) : list ProcessGroup :=
  join_calls b groups ++
  (if product (select true shape mask) =? 2
   then groups ≫= λ ranks, [mk_pg (Some b) ranks; mk_pg (Some b) ranks; mk_pg (Some "gloo") ranks; mk_pg (Some "gloo") ranks]
   else join_calls b groups) ++
  (mk_pg (Some b) <$> groups).

Definition pipeline (local_rank : Z) (b : string) : PipelineGroupCoordinator :=
  let both x := if product (select true shape mask) =? 2 then [x; x] else [] in
  mk_pipeline (coordinator local_rank b) (both (mk_pg (Some b) mine)) (both (mk_pg (Some "gloo") mine))
    (mk_pg (Some b) mine).

Lemma init_pipeline_Ok local_rank b d :
  torch_world d = Some (product shape, rank) →
  init_pipeline_coordinator env groups local_rank b d = (Ok (pipeline local_rank b), add_created (pipeline_calls b) d).
Proof using Type*.
  intros Hd. unfold init_pipeline_coordinator. rewrite (bind_Ok _ _ _ _ _ (init_coordinator_Ok local_rank b d Hd)).
  rewrite (bind_Ok _ _ _ _ _ (default_group_Ok (_, _) (add_created _ d) Hd)). simpl.
  pose proof (length_groups shape mask Hp Hl) as Hlen. pose proof (groups_good shape mask Hp Hl) as Hg.
  assert (0 < product (select true shape mask)) by by apply product_pos, positive_select.
  destruct (group_of_spec shape mask Hp Hl rank Hr) as (Hm & _). unfold pipeline_calls, pipeline.
  destruct groups as [|g gs] eqn:E; [by apply elem_of_nil in Hm|]. rewrite <-E in Hg |- *.
  assert (Z.of_nat (length g) = product (select true shape mask)) as Hg1 
    by (by apply Forall_cons in Hlen as [? _]).
  rewrite !Hg1.
  destruct (product (select true shape mask) =? 2) eqn:E2; bool_to_prop.
  - replace ((2 <? _) || _) with false by (symmetry; apply orb_false_iff; split; [apply Z.ltb_ge|apply Z.eqb_neq]; lia).
    erewrite bind_Ok; [|eapply join_groups_both_ways_Ok; [done|exact Hd|done]]. rewrite keep_mine.
    erewrite bind_Ok; [|apply coordinator_of_mine].
    erewrite bind_Ok; [|eapply own_group_Ok; [done|exact Hd|done]]. rewrite keep_mine, !add_created_app. done.
  - replace ((2 <? _) || _) with true
      by (symmetry; apply orb_true_iff; rewrite Z.ltb_lt, Z.eqb_eq; lia).
    erewrite bind_Ok; [|eapply join_groups_Ok; [done|exact Hd|done]]. rewrite keep_mine.
    erewrite bind_Ok; [|apply coordinator_of_mine].
    erewrite bind_Ok; [|eapply own_group_Ok; [done|exact Hd|done]]. rewrite keep_mine, !add_created_app. done.
Qed.
End Coordinators.

(** ** Ulysses and ring groups *)

(** [[l[i] for i in idx]] for indices in range. *)
Definition pick (l : list Z) (idx : list Z) : list Z := (λ i, l !!! Z.to_nat i) <$> idx.

Definition within (n : Z) (idx : list Z) : Prop := NoDup idx ∧ idx ≠ [] ∧ Forall (λ i, 0 ≤ i < n) idx.

Lemma pick_lookup (l : list Z) i : 0 ≤ i < length l → l !! Z.to_nat i = Some (l !!! Z.to_nat i).
Proof. intros H. apply list_lookup_lookup_total_lt. lia. Qed.

Lemma map_indices_Ok l idx : within (length l) idx → map_indices_to_ranks l idx = Ok (pick l idx).
Proof.
  intros (_ & _ & H). apply mapM_Ok. intros i Hi. rewrite Forall_forall in H. by rewrite pick_lookup by auto.
Qed.

Lemma elem_of_pick (l idx : list Z) r : within (length l) idx →
  r ∈ pick l idx ↔ ∃ i, i ∈ idx ∧ l !! Z.to_nat i = Some r.
Proof.
  intros (_ & _ & H). rewrite Forall_forall in H. unfold pick. rewrite list_elem_of_fmap.
  split; intros (i & H1 & H2); exists i.
  - subst. split; [done|]. by apply pick_lookup, H.
  - rewrite pick_lookup in H2 by auto. by simplify_eq.
Qed.

Lemma pick_good w l idx : good w l → within (length l) idx → good w (pick l idx).
Proof.
  intros (H1 & H2 & H3) Hw. pose proof Hw as (Hn & He & Hf). rewrite Forall_forall in Hf. split_and!.
  - apply NoDup_fmap_2_strong; [|done]. intros i j Hi Hj Hij.
    apply Hf in Hi as Hi'. apply Hf in Hj as Hj'. apply pick_lookup in Hi', Hj'. rewrite Hij in Hi'.
    pose proof (NoDup_lookup _ _ _ _ H1 Hi' Hj'). apply Hf in Hi, Hj. lia.
  - unfold pick. by destruct idx.
  - rewrite Forall_forall in H3 |- *. intros r (i & _ & Hi)%elem_of_pick; [|done]. by eapply H3, list_elem_of_lookup_2.
Qed.

Section SubGroups.
Context (env : Env) `{!GroupsOk env} (w rank : Z).

Lemma sub_groups_Ok l idxs acc d :
  torch_world d = Some (w, rank) → good w l → Forall (within (length l)) idxs →
  sub_groups env rank l idxs acc d =
  (Ok (keep_own rank (mk_pg None) (pick l <$> idxs) acc), add_created (mk_pg None <$> (pick l <$> idxs)) d).
Proof using Type*.
  intros Hd Hg H. revert acc d Hd. induction H as [|idx idxs Hi _ IH]; intros acc d Hd; simpl; [by rewrite add_created_nil|].
  rewrite (bind_Ok _ _ _ (pick l idx) d); [|unfold lift_res; by rewrite map_indices_Ok].
  erewrite bind_Ok; [|eapply new_group_Ok; [done|exact Hd|by apply pick_good]].
  rewrite IH, add_created_app by done. done.
Qed.

Definition sub_calls (ulysses ring : Z) (groups : list (list Z)) : list ProcessGroup :=
  groups ≫= λ l, ((mk_pg None <$> (pick l <$> blocks ring ulysses)) ++
                  (mk_pg None <$> (pick l <$> combs ulysses (ring * ulysses))))%list.

Lemma sp_group_loop_Ok ulysses ring groups u r d :
  torch_world d = Some (w, rank) → Forall (good w) groups →
  Forall (λ l, Forall (within (length l)) (blocks ring ulysses) ∧
               Forall (within (length l)) (combs ulysses (ring * ulysses))) groups →
  sp_group_loop env ulysses ring rank true groups u r d =
  (Ok (keep_own rank (mk_pg None) (groups ≫= λ l, pick l <$> blocks ring ulysses) u,
       keep_own rank (mk_pg None) (groups ≫= λ l, pick l <$> combs ulysses (ring * ulysses)) r),
   add_created (sub_calls ulysses ring groups) d).
Proof using Type*.
  intros Hd Hg Hw. revert u r d Hd. induction groups as [|l groups IH]; intros u r d Hd; [by rewrite add_created_nil|].
  apply Forall_cons in Hg as [Hl Hg]. apply Forall_cons in Hw as [[Hb Hc] Hw].
  cbn [sp_group_loop]. rewrite (bind_Ok _ _ _ _ _ (sub_groups_Ok l _ _ d Hd Hl Hb)).
  erewrite bind_Ok; [|eapply sub_groups_Ok; [exact Hd|done..]].
  rewrite IH by done. unfold sub_calls. rewrite !bind_cons, !add_created_app, <-!app_assoc.
  unfold keep_own. by rewrite !foldl_app.
Qed.
End SubGroups.

(** Positions of a block and of a comb. *)
Lemma blocks_spec num size : 0 < num → 0 < size →
  Forall (within (num * size)) (blocks num size) ∧
  (∀ idx p, idx ∈ blocks num size → p ∈ idx → idx = seqZ (p / size * size) size) ∧
  (∀ p, 0 ≤ p < num * size → seqZ (p / size * size) size ∈ blocks num size ∧
    seqZ (p / size * size) size !! Z.to_nat (p mod size) = Some p).
Proof.
  intros Hn Hs. split_and!.
  - apply Forall_forall. intros idx (i & -> & Hi%elem_of_seqZ)%list_elem_of_fmap. split_and!.
    + apply NoDup_seqZ.
    + intros H. apply (f_equal length) in H. rewrite length_seqZ in H. simpl in H. lia.
    + apply Forall_forall. intros p Hp%elem_of_seqZ. nia.
  - intros idx p (i & -> & Hi)%list_elem_of_fmap Hp%elem_of_seqZ. do 2 f_equal.
    apply Z.div_unique with (p - i * size); lia.
  - intros p Hp. pose proof (Z.div_mod p size). pose proof (Z.mod_pos_bound p size). split.
    + apply list_elem_of_fmap. exists (p / size). split; [done|]. apply elem_of_seqZ.
      split; [by apply Z.div_pos; lia|]. apply Z.div_lt_upper_bound; lia.
    + rewrite lookup_seqZ_lt by lia. f_equal. lia.
Qed.

Lemma comb_length num size i : 0 < num → 0 ≤ i < num →
  range_step i (size * num) num = (λ k, i + k * num) <$> seqZ 0 size.
Proof.
  intros Hn Hi. unfold range_step. do 2 f_equal. symmetry. apply Z.div_unique with (num - 1 - i); lia.
Qed.

Lemma combs_spec num size : 0 < num → 0 < size →
  Forall (within (size * num)) (combs num (size * num)) ∧
  (∀ idx p, idx ∈ combs num (size * num) → p ∈ idx → idx = range_step (p mod num) (size * num) num) ∧
  (∀ p, 0 ≤ p < size * num → range_step (p mod num) (size * num) num ∈ combs num (size * num) ∧
    range_step (p mod num) (size * num) num !! Z.to_nat (p / num) = Some p).
Proof.
  intros Hn Hs. split_and!.
  - apply Forall_forall. intros idx (i & -> & Hi%elem_of_seqZ)%list_elem_of_fmap. rewrite comb_length by lia. split_and!.
    + apply NoDup_fmap_2_strong; [|apply NoDup_seqZ]. intros; nia.
    + intros H. apply (f_equal length) in H. rewrite length_fmap, length_seqZ in H. simpl in H. lia.
    + apply Forall_forall. intros p (k & -> & Hk%elem_of_seqZ)%list_elem_of_fmap. nia.
  - intros idx p (i & -> & Hi%elem_of_seqZ)%list_elem_of_fmap. rewrite comb_length by lia.
    intros (k & -> & Hk)%list_elem_of_fmap. rewrite Z.mod_add, Z.mod_small by lia. by rewrite comb_length by lia.
  - intros p Hp. pose proof (Z.div_mod p num). pose proof (Z.mod_pos_bound p num).
    assert (0 ≤ p / num < size) by (split; [by apply Z.div_pos; lia|apply Z.div_lt_upper_bound; lia]). split.
    + apply list_elem_of_fmap. exists (p mod num). split; [done|]. apply elem_of_seqZ. lia.
    + rewrite comb_length by lia. rewrite list_lookup_fmap, lookup_seqZ_lt by lia. simpl. f_equal. lia.
Qed.

Section Sequence.
Context (env : Env) `{!GroupsOk env} (shape : list Z) (mask : list bool).
Context (Hp : positive shape) (Hl : length mask = length shape).
Context (rank : Z) (Hr : 0 ≤ rank < product shape).
Context (ulysses ring : Z) (Hu : 0 < ulysses) (Hri : 0 < ring).
Context (Hd : product (select true shape mask) = ring * ulysses).
Local Abbreviation groups := (groups_of shape mask).
Local Abbreviation mine := (group_of shape mask rank).
Local Abbreviation p := (part true shape mask rank).

Lemma keep_pick {A} (f : list Z → A) idxs idx (k : nat) acc :
  Forall (within (ring * ulysses)) idxs → idx ∈ idxs → idx !! k = Some p →
  (∀ idx', idx' ∈ idxs → p ∈ idx' → idx' = idx) →
  keep_own rank f (groups ≫= λ l, pick l <$> idxs) acc = Some (f (pick mine idx)) ∧
  index_of rank (pick mine idx) = k ∧ length (pick mine idx) = length idx.
Proof using Hp Hl Hr Hd.
  intros Hw Hin Hk Hun. rewrite Forall_forall in Hw.
  destruct (group_of_spec shape mask Hp Hl rank Hr) as (Hm & Hmu & Hmp).
  pose proof (groups_good shape mask Hp Hl) as Hg. rewrite Forall_forall in Hg.
  pose proof (length_groups shape mask Hp Hl) as Hlen. rewrite Forall_forall in Hlen. rewrite Hd in Hlen.
  pose proof (part_bound shape mask Hp Hl true rank).
  assert (pick mine idx !! k = Some rank) as Hpk.
  { unfold pick. rewrite list_lookup_fmap, Hk. simpl. f_equal. by apply list_lookup_total_correct. }
  split_and!; [| |apply length_fmap].
  - apply keep_own_unique.
    + apply list_elem_of_bind. exists mine. split; [by apply list_elem_of_fmap_2|done].
    + by eapply list_elem_of_lookup_2.
    + intros l' (l & (idx' & -> & Hidx)%list_elem_of_fmap & Hlg)%list_elem_of_bind.
      rewrite elem_of_pick by (rewrite Hlen; auto). intros (i & Hi & Hli).
      assert (l = mine) as -> by (apply Hmu; [done|by eapply list_elem_of_lookup_2]).
      f_equal. apply Hun; [done|]. apply Hw in Hidx as (_ & _ & Hf). rewrite Forall_forall in Hf.
      destruct (Hg _ Hm) as [Hnd _]. pose proof (NoDup_lookup _ _ _ _ Hnd Hli Hmp). apply Hf in Hi as Hi'.
      by replace p with i by lia.
  - apply index_of_lookup; [|done]. apply (pick_good (product shape)); [by apply Hg|]. rewrite Hlen; auto.
Qed.

(** The ranks of the Ulysses group and of the ring group of the process. *)
Definition ulysses_ranks : list Z := pick mine (seqZ (p / ulysses * ulysses) ulysses).
Definition ring_ranks : list Z := pick mine (range_step (p mod ulysses) (ring * ulysses) ulysses).

Lemma set_seq_parallel_Ok d :
  torch_world d = Some (product shape, rank) →
  set_seq_parallel_pg_by_sp_groups env ulysses ring rank groups true d =
  (Ok tt, set_seq_pgs (Some (mk_pg None ulysses_ranks)) (Some (mk_pg None ring_ranks))
            (add_created (sub_calls ulysses ring groups) d)).
Proof using Type*.
  intros Ht. unfold set_seq_parallel_pg_by_sp_groups.
  pose proof (length_groups shape mask Hp Hl) as Hlen. rewrite Hd in Hlen.
  rewrite (proj2 (Z.ltb_lt 0 (ring * ulysses))) by lia. simpl.
  assert (forallb (λ g, Z.of_nat (length g) =? ring * ulysses) groups = true) as ->.
  { apply forallb_forall. intros g Hg%list_elem_of_In. rewrite Forall_forall in Hlen. by apply Z.eqb_eq, Hlen. }
  destruct (blocks_spec ring ulysses) as (Hb1 & Hb2 & Hb3); [done..|].
  destruct (combs_spec ulysses ring) as (Hc1 & Hc2 & Hc3); [done..|].
  pose proof (part_bound shape mask Hp Hl true rank) as Hpb. rewrite Hd in Hpb.
  destruct (Hb3 p Hpb) as [Hb4 Hb5]. destruct (Hc3 p Hpb) as [Hc4 Hc5]. simpl.
  erewrite bind_Ok; [|eapply sp_group_loop_Ok; [done|exact Ht|by apply groups_good|]].
  - simpl. unfold modify. destruct (keep_pick (mk_pg None) _ _ _ None Hb1 Hb4 Hb5) as [-> _]; [eauto|].
    destruct (keep_pick (mk_pg None) _ _ _ None Hc1 Hc4 Hc5) as [-> _]; [eauto|]. done.
  - eapply Forall_impl; [exact Hlen|]. intros l Hll. rewrite Hll. done.
Qed.

Lemma ulysses_ranks_spec : index_of rank ulysses_ranks = p mod ulysses ∧ Z.of_nat (length ulysses_ranks) = ulysses.
Proof using Type*.
  destruct (blocks_spec ring ulysses) as (Hb1 & Hb2 & Hb3); [done..|].
  pose proof (part_bound shape mask Hp Hl true rank) as Hpb. rewrite Hd in Hpb.
  destruct (Hb3 p Hpb) as [Hb4 Hb5]. pose proof (Z.mod_pos_bound p ulysses Hu).
  destruct (keep_pick (mk_pg None) _ _ _ None Hb1 Hb4 Hb5) as (_ & H1 & H2); [eauto|].
  unfold ulysses_ranks. rewrite H1, H2, length_seqZ. lia.
Qed.

Lemma ring_ranks_spec : index_of rank ring_ranks = p / ulysses ∧ Z.of_nat (length ring_ranks) = ring.
Proof using Type*.
  destruct (combs_spec ulysses ring) as (Hb1 & Hb2 & Hb3); [done..|].
  pose proof (part_bound shape mask Hp Hl true rank) as Hpb. rewrite Hd in Hpb.
  destruct (Hb3 p Hpb) as [Hb4 Hb5]. pose proof (Z.div_pos p ulysses).
  destruct (keep_pick (mk_pg None) _ _ _ None Hb1 Hb4 Hb5) as (_ & H1 & H2); [eauto|].
  unfold ring_ranks. rewrite H1, H2, comb_length, length_fmap, length_seqZ by (lia || by apply Z.mod_pos_bound). lia.
Qed.

Lemma init_sequence_Ok local_rank b d :
  torch_world d = Some (product shape, rank) →
  init_sequence_coordinator env groups local_rank b (Some (mk_pg None ulysses_ranks)) (Some (mk_pg None ring_ranks)) d =
  (Ok (mk_sequence (coordinator shape mask rank local_rank b) (mk_pg None ulysses_ranks) (mk_pg None ring_ranks)
         ulysses (p mod ulysses) ring (p / ulysses)), add_created (join_calls b groups) d).
Proof using Type*.
  intros Ht. unfold init_sequence_coordinator. erewrite bind_Ok; [|by apply init_coordinator_Ok].
  erewrite bind_Ok; [|by apply default_group_Ok]. unfold group_world_size, group_rank. simpl.
  destruct ulysses_ranks_spec as [-> ->]. destruct ring_ranks_spec as [-> ->]. done.
Qed.
End Sequence.
