(* ===== verification/ParallelProps.v ===== *)
(** * Properties of process groups

    Rank groups partition the ranks; the groups every process joins when an instance
    starts give it its coordinates in the parallel layout. *)

From S2P Require Import Prelude Admission RankGroups Parallel ParallelFacts.
Local Open Scope string_scope.
Local Open Scope Z_scope.

(** ** The dimensions of an instance *)

Definition layout (a : Degrees) : list Z :=
  [tensor_parallel_degree a; sequence_parallel_degree a; pipeline_parallel_degree a;
   classifier_free_guidance_degree a; data_parallel_size a].

Definition tp_mask := [true; false; false; false; false].
Definition sp_mask := [false; true; false; false; false].
Definition pp_mask := [false; false; true; false; false].
Definition cfg_mask := [false; false; false; true; false].
Definition dp_mask := [false; false; false; false; true].

(** Degrees that make sense, for a world they fill. *)
Record fits (w : Z) (a : Degrees) : Prop := {
  fits_dp : 0 < data_parallel_size a;
  fits_cfg : 0 < classifier_free_guidance_degree a;
  fits_u : 0 < ulysses_degree a;
  fits_r : 0 < ring_degree a;
  fits_sp : sequence_parallel_degree a = ring_degree a * ulysses_degree a;
  fits_pp : 0 < pipeline_parallel_degree a;
  fits_tp : 0 < tensor_parallel_degree a;
  fits_vae : vae_parallel_size a ≤ 0;
  fits_world : w = dit_parallel_size a
}.

Lemma fits_positive w a : fits w a → positive (layout a) ∧ product (layout a) = w.
Proof.
  intros []. split; [|subst w; unfold dit_parallel_size; simpl; lia].
  unfold layout, positive. rewrite !Forall_cons. split_and!; try done. nia.
Qed.

Lemma layout_generator a :
  init_generator (tensor_parallel_degree a) (sequence_parallel_degree a) (pipeline_parallel_degree a)
    (classifier_free_guidance_degree a) (data_parallel_size a) "tp-sp-pp-cfg-dp" 0 =
  Ok (mk_generator (tensor_parallel_degree a) (sequence_parallel_degree a) (pipeline_parallel_degree a)
    (classifier_free_guidance_degree a) (data_parallel_size a) 0
    (tensor_parallel_degree a * sequence_parallel_degree a * pipeline_parallel_degree a
     * classifier_free_guidance_degree a * data_parallel_size a)
    [("tp", tensor_parallel_degree a); ("sp", sequence_parallel_degree a); ("pp", pipeline_parallel_degree a);
     ("cfg", classifier_free_guidance_degree a); ("dp", data_parallel_size a)]
    "tp-sp-pp-cfg-dp" (layout a)).
Proof. reflexivity. Qed.

Section Layout.
Context (a : Degrees) (Hpos : positive (layout a)).

Lemma layout_ranks g token mask :
  order g = "tp-sp-pp-cfg-dp" → g_world_size g = product (layout a) → ordered_size g = layout a → rank_offset g = 0 →
  get_mask "tp-sp-pp-cfg-dp" token = Ok mask → length mask = 5%nat →
  get_ranks g token = Ok (groups_of (layout a) mask).
Proof using Hpos.
  intros Ho Hw Hs Hf Hm Hl. unfold get_ranks. rewrite Ho, Hm. unfold mbind, res_bind.
  rewrite Hw, Hs, generate_groups by done. by rewrite Hf.
Qed.
End Layout.

(** The groups created, in order, whatever the rank of the process. *)
Definition model_parallel_calls (b : string) (a : Degrees) : list ProcessGroup :=
  join_calls b (groups_of (layout a) dp_mask) ++ join_calls b (groups_of (layout a) cfg_mask) ++
  pipeline_calls (layout a) pp_mask b ++
  sub_calls (ulysses_degree a) (ring_degree a) (groups_of (layout a) sp_mask) ++
  join_calls b (groups_of (layout a) sp_mask) ++ join_calls b (groups_of (layout a) tp_mask) ++
  [mk_pg (Some b) (seqZ 0 (dit_parallel_size a))].

(** A process that has the default group and no model-parallel group yet. *)
Record ready (w rank : Z) (d : Dist) : Prop := {
  ready_torch : torch_world d = Some (w, rank);
  ready_world : ∃ wg, WORLD d = Some wg ∧ gc_rank wg = rank;
  ready_none : DP d = None ∧ CFG d = None ∧ PP d = None ∧ SP d = None ∧ TP d = None ∧ DIT d = None
}.

Lemma assert_none_Ok {A} (f : Dist → option A) d : f d = None → assert_none f d = (Ok tt, d).
Proof. intros H. unfold assert_none, gets, mbind, M_bind. simpl. by rewrite H. Qed.

Lemma assert_some_Ok {A} (f : Dist → option A) d x : f d = Some x → assert_some f d = (Ok x, d).
Proof. intros H. unfold assert_some, gets, mbind, M_bind. simpl. by rewrite H. Qed.

Lemma lift_Ok {S A} (r : res A) a (s : S) : r = Ok a → lift_res r s = (Ok a, s).
Proof. by intros ->. Qed.

Lemma seqZ_good w : 0 < w → good w (seqZ 0 w).
Proof.
  intros H. split_and!; [apply NoDup_seqZ| |apply Forall_forall; intros r; rewrite elem_of_seqZ; lia].
  intros H0. apply (f_equal length) in H0. rewrite length_seqZ in H0. simpl in H0. lia.
Qed.

(** Step over one bind of the initialisation. *)
Ltac bind_with tac := erewrite bind_Ok; [|tac].
Ltac ranks_of Hpos mask := apply lift_Ok; apply (layout_ranks _ Hpos _ _ mask); [reflexivity|simpl; lia|reflexivity..].

(** What the initialisation does, for a process of any rank. *)
Lemma initialize_Ok env `{!GroupsOk env} a ob w rank d :
  fits w a → 0 ≤ rank < w → ready w rank d →
  let b := default (platform_backend env) ob in
  ∃ l u r d',
    initialize_model_parallel env a ob d = (Ok tt, d') ∧
    created d' = (created d ++ model_parallel_calls b a)%list ∧
    torch_world d' = torch_world d ∧
    DP d' = Some (coordinator (layout a) dp_mask rank l b) ∧
    CFG d' = Some (coordinator (layout a) cfg_mask rank l b) ∧
    PP d' = Some (pipeline (layout a) pp_mask rank l b) ∧
    SP d' = Some (mk_sequence (coordinator (layout a) sp_mask rank l b) u r
                    (ulysses_degree a) (part true (layout a) sp_mask rank mod ulysses_degree a)
                    (ring_degree a) (part true (layout a) sp_mask rank / ulysses_degree a)) ∧
    TP d' = Some (coordinator (layout a) tp_mask rank l b).
Proof.
  intros Hf Hrank Hd b. destruct (fits_positive w a Hf) as [Hpos Hw]. rewrite <-Hw in Hrank.
  assert (0 < w) by lia. pose proof (fits_world _ _ Hf) as Hw'. rewrite <-Hw in Hd.
  destruct Hd as [Ht (wg & Hwg & Hwr) (H1 & H2 & H3 & H4 & H5 & H6)].
  unfold initialize_model_parallel. fold b.
  bind_with ltac:(by apply assert_some_Ok). cbn [fst].
  rewrite (proj2 (Z.ltb_ge (product (layout a)) (dit_parallel_size a))) by lia.
  bind_with ltac:(apply lift_Ok, layout_generator).
  bind_with ltac:(by apply assert_none_Ok). bind_with ltac:(ranks_of Hpos dp_mask).
  bind_with ltac:(by apply assert_some_Ok).
  bind_with ltac:(by apply init_coordinator_Ok). bind_with ltac:(reflexivity).
  bind_with ltac:(by apply assert_none_Ok). bind_with ltac:(ranks_of Hpos cfg_mask).
  bind_with ltac:(by apply init_coordinator_Ok). bind_with ltac:(reflexivity).
  bind_with ltac:(by apply assert_none_Ok). bind_with ltac:(ranks_of Hpos pp_mask).
  bind_with ltac:(by apply init_pipeline_Ok). bind_with ltac:(reflexivity).
  bind_with ltac:(by apply assert_none_Ok). bind_with ltac:(ranks_of Hpos sp_mask). rewrite Hwr.
  bind_with ltac:(apply set_seq_parallel_Ok; [done..|apply Hf|apply Hf|simpl; rewrite (fits_sp _ _ Hf); lia|done]).
  bind_with ltac:(reflexivity). bind_with ltac:(reflexivity).
  bind_with ltac:(apply init_sequence_Ok; [done..|apply Hf|apply Hf|simpl; rewrite (fits_sp _ _ Hf); lia|done]).
  bind_with ltac:(reflexivity).
  bind_with ltac:(by apply assert_none_Ok). bind_with ltac:(ranks_of Hpos tp_mask).
  bind_with ltac:(by apply init_coordinator_Ok). bind_with ltac:(reflexivity).
  rewrite (proj2 (Z.ltb_ge 0 (vae_parallel_size a))) by apply Hf.
  bind_with ltac:(reflexivity). unfold init_dit_group.
  bind_with ltac:(by apply assert_none_Ok).
  bind_with ltac:(eapply new_group_Ok; [done|done|rewrite <-Hw', <-Hw; apply seqZ_good; lia]).
  do 4 eexists. split; [reflexivity|]. simpl. unfold model_parallel_calls. rewrite <-!app_assoc. done.
Qed.

(** ** Coordinates *)

(** The coordinates of a rank are its positions in its groups. *)
Lemma layout_coordinates w a rank : fits w a → 0 ≤ rank < w →
  let t := part true (layout a) tp_mask rank in
  let s := part true (layout a) sp_mask rank in
  let p := part true (layout a) pp_mask rank in
  let c := part true (layout a) cfg_mask rank in
  let k := part true (layout a) dp_mask rank in
  (0 ≤ t < tensor_parallel_degree a ∧ 0 ≤ s < sequence_parallel_degree a ∧ 0 ≤ p < pipeline_parallel_degree a ∧
   0 ≤ c < classifier_free_guidance_degree a ∧ 0 ≤ k < data_parallel_size a) ∧
  rank = t + tensor_parallel_degree a * (s + sequence_parallel_degree a * (p + pipeline_parallel_degree a *
           (c + classifier_free_guidance_degree a * k))).
Proof.
  intros Hf Hr. destruct (fits_positive w a Hf) as [Hpos Hw].
  pose proof (λ m H, part_bound (layout a) m Hpos H true rank) as Hb. split.
  - pose proof (Hb tp_mask eq_refl) as H1. pose proof (Hb sp_mask eq_refl) as H2. pose proof (Hb pp_mask eq_refl) as H3.
    pose proof (Hb cfg_mask eq_refl) as H4. pose proof (Hb dp_mask eq_refl) as H5.
    simpl in H1, H2, H3, H4, H5. rewrite Z.mul_1_r in H1, H2, H3, H4, H5. done.
  - pose proof (undigits_digits rank (layout a) Hpos) as H. rewrite Hw, Z.mod_small in H by done.
    rewrite <-H at 1. unfold part. simpl. by rewrite !Z.mul_0_r, !Z.add_0_r.
Qed.

(** C15 - Orthogonal rank groups. For positive sizes and any choice of dimensions the
    enumeration returns (none of its assertions fails); every rank is in exactly one group;
    a group has as many members as the product of the chosen sizes; and two ranks share a
    group exactly when their coordinates along all other dimensions agree. *)
Theorem rank_groups_partition shape mask :
  positive shape → length mask = length shape →
  ∃ groups, generate_masked_orthogonal_rank_groups (product shape) shape mask = Ok groups ∧
    concat groups ≡ₚ seqZ 0 (product shape) ∧
    Forall (λ g, Z.of_nat (length g) = product (select true shape mask)) groups ∧
    ∀ r r', 0 ≤ r < product shape → 0 ≤ r' < product shape →
      (∃ g, g ∈ groups ∧ r ∈ g ∧ r' ∈ g) ↔ select false (digits r shape) mask = select false (digits r' shape) mask.
Proof.
  intros Hp Hl. exists (groups_of shape mask).
  split_and!; [by apply generate_groups|by apply groups_concat|by apply length_groups|].
  intros r r' Hr Hr'. destruct (group_of_spec shape mask Hp Hl r Hr) as (H1 & H2 & _).
  destruct (group_of_spec shape mask Hp Hl r' Hr') as (_ & H2' & _). split.
  - intros (g & Hg & Hgr & Hgr'). apply H2 in Hgr; [|done]. subst g.
    apply list_elem_of_fmap in Hgr' as (i & -> & Hi). rewrite (proj2 (proj2 (proj2 (rank_at_digits shape mask Hp Hl _ i)))).
    unfold part. by rewrite digits_undigits by (apply positive_select, Hp || by apply select_digits_valid).
  - intros He. exists (group_of shape mask r). split_and!; [done|by apply group_of_index|].
    replace (group_of shape mask r) with (group_of shape mask r'); [by apply group_of_index|].
    unfold group_of, part. by rewrite He.
Qed.

Lemma rank_groups_partition_witness :
  positive [2; 3; 2] ∧ ∃ groups,
    generate_masked_orthogonal_rank_groups (product [2; 3; 2]) [2; 3; 2] [false; true; false] = Ok groups ∧
    concat groups ≡ₚ seqZ 0 12.
Proof.
  split; [repeat constructor|].
  destruct (rank_groups_partition [2; 3; 2] [false; true; false]) as (g & Hg & Hc & _);
    [repeat constructor|reflexivity|]. exists g. split; [exact Hg|exact Hc].
Defined.

(** C14 - The groups of an instance. For degrees that fill the world, and whatever the rank
    of the process, the initialisation returns and asks for the same groups in the same
    order. The positions of the process in its tensor, sequence, pipeline, guidance and
    data groups are the digits of its rank, in that order; its position in the sequence
    group is given by its positions in the Ulysses and in the ring group; and the groups
    have the sizes of the degrees. *)
Theorem model_parallel_layout env a ob w rank d :
  GroupsOk env → fits w a → 0 ≤ rank < w → ready w rank d →
  ∃ d' t s u r p c k,
    initialize_model_parallel env a ob d = (Ok tt, d') ∧
    created d' = (created d ++ model_parallel_calls (default (platform_backend env) ob) a)%list ∧
    get_tp_rank d' = (Ok t, d') ∧ get_sp_parallel_rank d' = (Ok s, d') ∧
    get_ulysses_parallel_rank d' = (Ok u, d') ∧ get_ring_parallel_rank d' = (Ok r, d') ∧
    get_pipeline_parallel_rank d' = (Ok p, d') ∧ get_classifier_free_guidance_rank d' = (Ok c, d') ∧
    get_dp_rank d' = (Ok k, d') ∧
    (0 ≤ t < tensor_parallel_degree a ∧ 0 ≤ p < pipeline_parallel_degree a ∧
     0 ≤ c < classifier_free_guidance_degree a ∧ 0 ≤ k < data_parallel_size a) ∧
    (0 ≤ u < ulysses_degree a ∧ 0 ≤ r < ring_degree a ∧ s = u + ulysses_degree a * r) ∧
    rank = t + tensor_parallel_degree a * (s + sequence_parallel_degree a * (p + pipeline_parallel_degree a *
             (c + classifier_free_guidance_degree a * k))) ∧
    get_dit_world_size d' = (Ok w, d').
Proof.
  intros Henv Hf Hr Hd. destruct (layout_coordinates w a rank Hf Hr) as [(H1 & H2 & H3 & H4 & H5) Hrank].
  destruct (initialize_Ok env a ob w rank d Hf Hr Hd) as (l & u & r & d' & Hi & Hc & _ & HDP & HCFG & HPP & HSP & HTP).
  pose proof (fits_u _ _ Hf) as Hu. pose proof (fits_sp _ _ Hf) as Hsp.
  exists d', (part true (layout a) tp_mask rank), (part true (layout a) sp_mask rank),
    (part true (layout a) sp_mask rank mod ulysses_degree a), (part true (layout a) sp_mask rank / ulysses_degree a),
    (part true (layout a) pp_mask rank), (part true (layout a) cfg_mask rank), (part true (layout a) dp_mask rank).
  split; [exact Hi|]. split; [exact Hc|].
  unfold get_tp_rank, get_sp_parallel_rank, get_ulysses_parallel_rank, get_ring_parallel_rank, get_pipeline_parallel_rank,
    get_classifier_free_guidance_rank, get_dp_rank, get_dit_world_size, get_dp_world_size,
    get_classifier_free_guidance_world_size, get_sp_world_size, get_pipeline_parallel_world_size, get_tp_world_size,
    assert_some, gets, mbind, M_bind.
  rewrite HTP, HSP, HPP, HCFG, HDP. repeat (split; [reflexivity|]).
  split; [tauto|]. pose proof (Z.mod_pos_bound (part true (layout a) sp_mask rank) (ulysses_degree a) Hu).
  split; [split; [done|split; [split; [apply Z.div_pos; lia|apply Z.div_lt_upper_bound; lia]|]]|split; [exact Hrank|]].
  - rewrite Z.add_comm. apply Z.div_mod. lia.
  - rewrite (fits_world _ _ Hf). unfold dit_parallel_size, mret, M_ret.
    repeat (simpl; first [rewrite HCFG|rewrite HSP|rewrite HPP|rewrite HTP]). simpl. by rewrite ?Z.mul_1_r.
Qed.

(** A [torch.distributed] that refuses groups with repeated ranks or ranks outside the world. *)
Definition demo_env : Env := mk_env
  (λ w ranks, if bool_decide (NoDup ranks ∧ Forall (λ r, 0 ≤ r < w) ranks) then None else Some ValueError) "nccl" 0.

#[global] Instance demo_env_ok : GroupsOk demo_env.
Proof. intros w ranks H1 H2 H3. simpl. by rewrite bool_decide_eq_true_2. Qed.

(** Rank 5 of an instance of eight: tensor 2, sequence 2 (a ring), guidance 2. *)
Definition demo_degrees : Degrees := mk_degrees 1 2 2 1 2 2 1 0.
Definition demo_world : GroupCoordinator :=
  mk_coordinator 5 5 (seqZ 0 8) 8 5 (mk_pg (Some "nccl") (seqZ 0 8)) (mk_pg (Some "gloo") (seqZ 0 8)).
Definition demo_dist : Dist := set_WORLD (Some demo_world) (set_torch_world (Some (8, 5)) no_dist).

Lemma model_parallel_layout_witness :
  (fits 8 demo_degrees ∧ ready 8 5 demo_dist) ∧
  ∃ d', initialize_model_parallel demo_env demo_degrees None demo_dist = (Ok tt, d') ∧ get_dit_world_size d' = (Ok 8, d').
Proof.
  assert (fits 8 demo_degrees) as Hf by (by split).
  assert (ready 8 5 demo_dist) as Hd by (split; [reflexivity|by exists demo_world|done]).
  split; [split; [exact Hf|exact Hd]|].
  destruct (model_parallel_layout demo_env demo_degrees None 8 5 demo_dist demo_env_ok Hf ltac:(lia) Hd)
    as (d' & t & s & u & r & p & c & k & Hi & _ & _ & _ & _ & _ & _ & _ & _ & _ & _ & _ & Hw).
  exists d'. split; [exact Hi|exact Hw].
Defined.

(** A world that is larger than the degrees need: the ranks that are left over find no group. *)
Example leftover_rank :
  (initialize_model_parallel demo_env (mk_degrees 1 1 1 1 1 1 1 0) None demo_dist).1 = Raise AssertionError.
Proof. vm_compute. reflexivity. Qed.
