(* ===== verification/ServerArgs.v ===== *)
(** * Server arguments: parallelism, ports and endpoints

    Models the part of [server_args.py] that resolves and validates the parallel degrees,
    the ports and the batching options; [disaggregation/disagg_args.py]; and the endpoints
    [launch_server.py] derives from them for the head node and for a role instance.

    The fields of the dataclass used here are kept in three records: parallelism, network
    and disaggregation. Whether the platform is a CPU, whether the model's default sampling
    parameters use classifier-free guidance, whether a port is available, and the random
    numbers drawn for ports are arguments. *)

From S2P Require Import Prelude PyJson PyValue Admission Roles Parallel.
Local Open Scope string_scope.
Local Open Scope Z_scope.

(** ** Parallelism *)

Record ParallelArgs := mk_par {
  num_gpus : Z;
  performance_mode : string;
  tp_size : option Z;
  sp_degree : option Z;
  ulysses_degree : option Z;
  ring_degree : option Z;
  dp_size : Z;
  enable_cfg_parallel : option bool;
  cfg_parallel_degree : option Z;
  hsdp_replicate_dim : Z;
  hsdp_shard_dim : option Z
}.

(** Arithmetic on [None] raises. *)
Definition need {A} (o : option A) : res A := match o with Some a => Ok a | None => Raise TypeError end.

(** Whether classifier-free guidance is parallel: [--cfg-parallel-size] has precedence, then
    [--enable-cfg-parallel]; otherwise it is decided here. *)
Definition resolve_cfg (uses_cfg : bool) (a : ParallelArgs) (num tp : Z) : res (option bool) :=
  match cfg_parallel_degree a with
  | Some c => Ok (if c =? 1 then Some false else if 1 <? c then Some true else enable_cfg_parallel a)
  | None =>
      match enable_cfg_parallel a with
      | Some b => Ok (Some b)
      | None =>
          if negb (bool_decide (performance_mode a = "manual")) && (2 <=? num) then
            m ← pymod num (dp_size a * tp * 2);
            Ok (Some ((m =? 0) && bool_decide (sp_degree a = None) && bool_decide (ulysses_degree a = None)
                      && bool_decide (ring_degree a = None) && uses_cfg))
          else Ok (Some false)
      end
  end.

(** The degree of sequence parallelism: all the GPUs that remain. *)
Definition resolve_sp (a : ParallelArgs) (num tp : Z) (cfg_on : bool) (cfg_degree : Z) : res Z :=
  match sp_degree a with
  | Some s => Ok s
  | None =>
      let num_gpus_per_group := dp_size a * tp * (if cfg_on then cfg_degree else 1) in
      m ← pymod num num_gpus_per_group;
      if m =? 0 then floordiv num num_gpus_per_group else Ok 1
  end.

Definition truthy_bool (b : option bool) : bool := default false b.

Definition adjust_parallelism (is_cpu uses_cfg : bool) (a : ParallelArgs) : res ParallelArgs :=
  let num := if is_cpu && (1 <? (match tp_size a with Some t => if t =? 0 then 1 else t | None => 1 end))
             then default 1 (tp_size a) else num_gpus a in
  let hsdp_shard := Some (default num (hsdp_shard_dim a)) in
  let tp := default 1 (tp_size a) in
  enable ← resolve_cfg uses_cfg a num tp;
  let degree := default (if truthy_bool enable then 2 else 1) (cfg_parallel_degree a) in
  sp ← resolve_sp a num tp (truthy_bool enable) degree;
  let ulysses := match ulysses_degree a, ring_degree a with
                 | None, None => if sp =? 1 then None else Some sp
                 | u, _ => u
                 end in
  Ok (mk_par num (performance_mode a) (Some tp) (Some sp) (Some (default 1 ulysses))
        (Some (default 1 (ring_degree a))) (dp_size a) enable (Some degree) (hsdp_replicate_dim a) hsdp_shard).

(** [n > num_gpus or num_gpus % n != 0] *)
Definition check_divides (num n : Z) : res unit :=
  if num <? n then Raise ValueError
  else m ← pymod num n; if negb (m =? 0) then Raise ValueError else Ok tt.

Definition validate_parallelism (a : ParallelArgs) : res unit :=
  sp ← need (sp_degree a);
  _ ← check_divides (num_gpus a) sp;
  _ ← check_divides (num_gpus a) (hsdp_replicate_dim a);
  shard ← need (hsdp_shard_dim a);
  _ ← check_divides (num_gpus a) shard;
  m ← pymod (num_gpus a) (dp_size a);
  if negb (m =? 0) then Raise ValueError
  else if dp_size a <? 1 then Raise ValueError
  else if 1 <? dp_size a then Raise ValueError
  else
    tp ← need (tp_size a);
    cfg ← (if truthy_bool (enable_cfg_parallel a) then need (cfg_parallel_degree a) else Ok 1);
    m ← pymod (num_gpus a) (dp_size a * tp * cfg);
    if negb (m =? 0) then Raise ValueError
    else
      ring ← need (ring_degree a);
      ulysses ← need (ulysses_degree a);
      if negb (sp =? ring * ulysses) then Raise ValueError else Ok tt.

Definition validate_cfg_parallel (a : ParallelArgs) : res unit :=
  if truthy_bool (enable_cfg_parallel a) && (num_gpus a =? 1) then Raise ValueError else Ok tt.

(** The parallel part of [__post_init__]. *)
Definition post_init_parallel (is_cpu uses_cfg : bool) (a : ParallelArgs) : res ParallelArgs :=
  a ← adjust_parallelism is_cpu uses_cfg a;
  _ ← (if is_cpu then Ok tt else validate_parallelism a);
  _ ← validate_cfg_parallel a;
  Ok a.

(** [GPUWorker.init_device_and_model]: the process groups a worker asks for. *)
Definition init_worker_groups (env : Parallel.Env) (a : ParallelArgs) (init_method : string)
    (local_rank rank : Z) : M Parallel.Dist unit :=
  tp ← lift_res (need (tp_size a));
  ulysses ← lift_res (need (ulysses_degree a));
  ring ← lift_res (need (ring_degree a));
  sp ← lift_res (need (sp_degree a));
  let cfg := match cfg_parallel_degree a with Some c => if c =? 0 then 1 else c | None => 1 end in
  Parallel.maybe_init_distributed_environment_and_model_parallel env tp sp cfg ulysses ring (dp_size a)
    init_method local_rank (num_gpus a) rank.

(** [_validate_batching] *)
Definition validate_batching (mode : string) (max_size : Z) (delay_ms : Qc) : res unit :=
  if negb (bool_decide (mode = "dynamic")) then Raise ValueError
  else if max_size <? 1 then Raise ValueError
  else if bool_decide (delay_ms < 0)%Qc then Raise ValueError else Ok tt.

(** ** Ports *)

Record NetArgs := mk_net {
  host : option string;
  port : Z;
  scheduler_port : Z;
  master_port : option Z;
  strict_ports : bool
}.

Section Ports.
Context (available : Z → bool).

(** [random.randint(0, 1000)] at each attempt is [rand]. *)
Fixpoint settle_port (attempts : nat) (rand : nat → Z) (port port_inc : Z) (avoid : list Z) : res Z :=
  match attempts with
  | O => Raise RuntimeError
  | S attempts =>
      if negb (bool_decide (port ∈ avoid)) && available port then Ok port
      else settle_port attempts rand
             (if port <? 60000 then port + port_inc else 5000 + rand attempts) port_inc avoid
  end.

(** [_find_available_port(start, avoid)] *)
Fixpoint find_available_port_loop (attempts : nat) (port : Z) (avoid : list Z) : res Z :=
  match attempts with
  | O => Raise RuntimeError
  | S attempts =>
      if negb (bool_decide (port ∈ avoid)) && available port then Ok port
      else find_available_port_loop attempts (if 65535 <? port + 1 then 1024 else port + 1) avoid
  end.
Definition find_available_port (start : Z) (avoid : list Z) : res Z :=
  find_available_port_loop 100 (Z.max 1024 (Z.min start 65535)) avoid.

(** The loop of [--strict-ports]. *)
Fixpoint require_ports (requested seen : list Z) : res unit :=
  match requested with
  | [] => Ok tt
  | p :: requested =>
      if bool_decide (p ∈ seen) then Raise RuntimeError
      else if negb (available p) then Raise RuntimeError
      else require_ports requested (p :: seen)
  end.

(** [_adjust_network_ports]; [offset] is the random offset of the default scheduler port. *)
Definition adjust_network_ports (role : RoleType) (offset : Z) (rand : nat → Z) (n : NetArgs) : res NetArgs :=
  let needs_http := bool_decide (role = MONOLITHIC ∨ role = SERVER) in
  if strict_ports n then
    _ ← require_ports ((if needs_http then [port n] else []) ++ [scheduler_port n]
                       ++ option_list (master_port n))%list [];
    Ok n
  else
    http ← (if needs_http then settle_port 100 rand (port n) 42 [] else Ok (port n));
    let settled := if needs_http then [http] else [] in
    sched ← settle_port 100 rand (scheduler_port n + (if scheduler_port n =? 5555 then offset else 0)) 42 settled;
    master ← match master_port n with
             | None => Ok None
             | Some m => m ← settle_port 100 rand m 37 (sched :: settled); Ok (Some m)
             end;
    Ok (mk_net (host n) http sched master (strict_ports n)).
End Ports.

(** ** Disaggregation *)

Record DisaggArgs := mk_disagg {
  disagg_role : RoleType;
  disagg_server_addr : option string;
  encoder_urls : option string;
  denoiser_urls : option string;
  decoder_urls : option string;
  encoder_tp : option Z;
  denoiser_tp : option Z;
  denoiser_sp : option Z;
  denoiser_ulysses : option Z;
  denoiser_ring : option Z;
  decoder_tp : option Z
}.

Definition DISAGG_RESULT_PORT_OFFSETS (role : RoleType) : option Z :=
  match role with ENCODER => Some 1 | DENOISER => Some 2 | DECODER => Some 3 | _ => None end.

(** [tp_size], [sp_degree], [ulysses_degree], [ring_degree] *)
Definition get_role_parallelism (d : DisaggArgs) (role : RoleType)
    : option Z * option Z * option Z * option Z :=
  match role with
  | ENCODER => (encoder_tp d, None, None, None)
  | DENOISER => (denoiser_tp d, denoiser_sp d, denoiser_ulysses d, denoiser_ring d)
  | DECODER => (decoder_tp d, None, None, None)
  | _ => (None, None, None, None)
  end.

(** [s.rsplit(":", 1)], where there is a colon. *)
Fixpoint rsplit_colon (s : string) : option (string * string) :=
  match s with
  | EmptyString => None
  | String c s' =>
      match rsplit_colon s' with
      | Some (a, b) => Some (String c a, b)
      | None => if bool_decide (ord c = 58%nat) then Some ("", s') else None
      end
  end.

Definition tcp (host : string) (port : Z) : string := "tcp://" +:+ host +:+ ":" +:+ dumps_int port.

Definition derive_pool_result_endpoint (d : DisaggArgs) : res string :=
  match disagg_server_addr d with
  | None => Raise ValueError
  | Some addr =>
      let addr := if startswith addr "tcp://" then String.substring 6 (String.length addr - 6) addr else addr in
      match rsplit_colon addr with
      | None => Raise ValueError
      | Some (host, port_str) =>
          base_port ← py_int (JStr port_str);
          match DISAGG_RESULT_PORT_OFFSETS (disagg_role d) with
          | None => Raise KeyError
          | Some offset => Ok (tcp host (base_port + offset))
          end
      end
  end.

Definition derive_pool_work_endpoint (n : NetArgs) : string := tcp "0.0.0.0" (scheduler_port n).

Definition parse_url_string (url_str : string) : list string :=
  omap (λ u, if bool_decide (strip u = "") then None else Some (strip u)) (split_on 59 url_str).

(** The endpoints [launch_disagg_server] gives the head node. *)
Record ServerEndpoints := mk_endpoints {
  frontend_endpoint : string;
  encoder_work_endpoints : list string;
  denoiser_work_endpoints : list string;
  decoder_work_endpoints : list string;
  encoder_result_ep : string;
  denoiser_result_ep : string;
  decoder_result_ep : string
}.

(** [server_args.host or "127.0.0.1"] *)
Definition host_or_default (n : NetArgs) : string :=
  match host n with Some h => if bool_decide (h = "") then "127.0.0.1" else h | None => "127.0.0.1" end.

Definition launch_disagg_server (d : DisaggArgs) (n : NetArgs) : res ServerEndpoints :=
  match encoder_urls d, denoiser_urls d, decoder_urls d with
  | Some e, Some dn, Some dc =>
      let h := host_or_default n in
      let base_port := scheduler_port n in
      Ok (mk_endpoints (tcp h base_port) (parse_url_string e) (parse_url_string dn) (parse_url_string dc)
            (tcp h (base_port + 1)) (tcp h (base_port + 2)) (tcp h (base_port + 3)))
  | _, _, _ => Raise ValueError
  end.

Definition result_ep (e : ServerEndpoints) (role : RoleType) : option string :=
  match role with
  | ENCODER => Some (encoder_result_ep e)
  | DENOISER => Some (denoiser_result_ep e)
  | DECODER => Some (decoder_result_ep e)
  | _ => None
  end.

(** What [launch_disagg_role] starts the role's processes with. *)
Record RoleLaunch := mk_launch {
  pool_work_endpoint : string;
  pool_result_endpoint : string;
  role_warmup : bool;
  role_net : NetArgs;
  role_parallel : ParallelArgs;
  gpu_ids : list Z
}.

(** The arguments of the role are those of the launcher with its own degrees; they are
    adjusted and validated anew. *)
Definition launch_disagg_role (available : Z → bool) (offset : Z) (rand : nat → Z)
    (is_cpu uses_cfg : bool) (base_gpu_id : Z) (d : DisaggArgs) (n : NetArgs) (a : ParallelArgs) : res RoleLaunch :=
  match disagg_server_addr d with
  | None => Raise ValueError
  | Some _ =>
      result_endpoint ← derive_pool_result_endpoint d;
      internal ← find_available_port available (scheduler_port n + 100) [scheduler_port n];
      let '(tp, sp, ulysses, ring) := get_role_parallelism d (disagg_role d) in
      net ← adjust_network_ports available (disagg_role d) offset rand
        (mk_net (host n) (port n) internal (master_port n) (strict_ports n));
      role_args ← post_init_parallel is_cpu uses_cfg
        (mk_par (num_gpus a) (performance_mode a) tp sp ulysses ring (dp_size a) (enable_cfg_parallel a)
           (cfg_parallel_degree a) (hsdp_replicate_dim a) (hsdp_shard_dim a));
      Ok (mk_launch (derive_pool_work_endpoint n) result_endpoint (bool_decide (disagg_role d = ENCODER))
            net role_args ((λ i, base_gpu_id + i) <$> seqZ 0 (num_gpus a)))
  end.

(** [dispatch_launch] *)
Inductive Launch := LaunchServer | LaunchDisaggServer | LaunchDisaggRole.
Definition dispatch_launch (role : RoleType) : Launch :=
  match role with
  | MONOLITHIC => LaunchServer
  | SERVER => LaunchDisaggServer
  | ENCODER | DENOISER | DECODER => LaunchDisaggRole
  end.
