(* ===== verification/ServerArgsProps.v ===== *)
(** * Properties of the server arguments

    Degrees that are accepted with automatic sequence parallelism fill the instance, so
    that every worker finds its groups; the endpoints of a role instance meet those of the
    head node; the ports that were settled are distinct. *)

From Stdlib Require Import DecimalString.
From S2P Require Import Prelude PyJson PyValue Admission Roles RankGroups Parallel ParallelFacts ParallelProps ServerArgs.
Local Open Scope string_scope.
Local Open Scope Z_scope.

(** ** Degrees *)

(** Degrees given on the command line are positive. *)
Record sensible (a : ParallelArgs) : Prop := {
  sensible_gpus : 0 < num_gpus a;
  sensible_tp : ∀ n, tp_size a = Some n → 0 < n;
  sensible_u : ∀ n, ulysses_degree a = Some n → 0 < n;
  sensible_r : ∀ n, ring_degree a = Some n → 0 < n;
  sensible_cfg : ∀ n, cfg_parallel_degree a = Some n → 0 < n
}.

Definition degrees (a : ParallelArgs) : Degrees :=
  mk_degrees (dp_size a) (match cfg_parallel_degree a with Some c => if c =? 0 then 1 else c | None => 1 end)
    (default 1 (sp_degree a)) (default 1 (ulysses_degree a)) (default 1 (ring_degree a))
    (default 1 (tp_size a)) 1 0.

(** Whether guidance is parallel agrees with its degree. *)
Lemma resolve_cfg_degree uses a num tp e :
  sensible a → resolve_cfg uses a num tp = Ok e →
  let c := default (if truthy_bool e then 2 else 1) (cfg_parallel_degree a) in
  0 < c ∧ (if truthy_bool e then c else 1) = c.
Proof.
  intros Hs. unfold resolve_cfg. destruct (cfg_parallel_degree a) as [c|] eqn:Ec; simpl.
  - intros [= <-]. apply (sensible_cfg _ Hs) in Ec. split; [done|].
    destruct (c =? 1) eqn:E1; bool_to_prop; simpl; [done|]. by rewrite (proj2 (Z.ltb_lt 1 c)) by lia.
  - intros _. destruct (truthy_bool e); done.
Qed.

Lemma check_divides_Ok num n : check_divides num n = Ok tt → n ≤ num.
Proof. unfold check_divides. destruct (num <? n) eqn:E; [done|]. bool_to_prop. done. Qed.

Lemma need_Ok {A} (o : option A) x : need o = Ok x → o = Some x.
Proof. destruct o; simpl; intros; by simplify_eq. Qed.

Lemma pymod_inv a b m : pymod a b = Ok m → b ≠ 0 ∧ m = a mod b.
Proof. unfold pymod. destruct (b =? 0) eqn:E; intros; simplify_eq. bool_to_prop. done. Qed.

Lemma validate_inv a : validate_parallelism a = Ok tt →
  ∃ sp tp u r, sp_degree a = Some sp ∧ sp ≤ num_gpus a ∧ dp_size a = 1 ∧ tp_size a = Some tp ∧
    ulysses_degree a = Some u ∧ ring_degree a = Some r ∧ sp = r * u ∧
    (∀ c, cfg_parallel_degree a = Some c →
      num_gpus a mod (tp * (if truthy_bool (enable_cfg_parallel a) then c else 1)) = 0).
Proof.
  unfold validate_parallelism. intros (sp & Hsp%need_Ok & H)%res_bind_inv.
  apply res_bind_inv in H as ([] & Hd%check_divides_Ok & H). apply res_bind_inv in H as ([] & _ & H).
  apply res_bind_inv in H as (? & _ & H). apply res_bind_inv in H as ([] & _ & H).
  apply res_bind_inv in H as (m & [_ _]%pymod_inv & H).
  destruct (negb (m =? 0)); [done|]. destruct (dp_size a <? 1) eqn:E1; [done|].
  destruct (1 <? dp_size a) eqn:E2; [done|]. bool_to_prop. assert (dp_size a = 1) as Hdp by lia. rewrite Hdp in H.
  apply res_bind_inv in H as (tp & Htp%need_Ok & H). apply res_bind_inv in H as (cfg & Hcfg & H).
  apply res_bind_inv in H as (m2 & [_ ->]%pymod_inv & H). destruct (_ =? 0) eqn:E3 in H; [|done]. simpl in H. bool_to_prop.
  apply res_bind_inv in H as (r & Hr%need_Ok & H). apply res_bind_inv in H as (u & Hu%need_Ok & H).
  destruct (sp =? r * u) eqn:E4; [|done]. bool_to_prop.
  exists sp, tp, u, r. split_and!; try done. intros c Hc. rewrite Hc in Hcfg.
  rewrite Z.mul_1_l in E3. destruct (truthy_bool (enable_cfg_parallel a)); simpl in Hcfg; by simplify_eq.
Qed.

(** What automatic sequence parallelism and an accepted check imply. *)
Lemma accepted_fits uses a a' :
  sensible a → sp_degree a = None → post_init_parallel false uses a = Ok a' →
  num_gpus a' = num_gpus a ∧ fits (num_gpus a) (degrees a') ∧
  ∃ tp sp u r, tp_size a' = Some tp ∧ sp_degree a' = Some sp ∧ ulysses_degree a' = Some u ∧ ring_degree a' = Some r.
Proof.
  intros Hs Hsp H. unfold post_init_parallel, adjust_parallelism in H. cbn [andb] in H.
  apply res_bind_inv in H as (a1 & Ha & H).
  apply res_bind_inv in Ha as (e & He & Ha). apply res_bind_inv in Ha as (sp & Hspr & [= <-]).
  apply res_bind_inv in H as ([] & Hv & H). apply res_bind_inv in H as (? & _ & [= <-]).
  pose proof (sensible_gpus _ Hs) as Hnum. destruct (resolve_cfg_degree _ _ _ _ _ Hs He) as [Hc Hce].
  set (c := default (if truthy_bool e then 2 else 1) (cfg_parallel_degree a)) in *.
  apply validate_inv in Hv as (sp' & tp & u & r & [= <-] & Hle & Hdp & [= Htp] & Hu & Hr & Hru & Hm). simpl in *.
  specialize (Hm c eq_refl). unfold resolve_sp in Hspr. rewrite Hsp, Hdp, Htp, Hce, Z.mul_1_l in Hspr. rewrite Hce in Hm.
  assert (0 < tp) as Htp0. { destruct (tp_size a) eqn:Et; simpl in Htp; [|lia]. subst. by apply (sensible_tp _ Hs). }
  rewrite pymod_Ok in Hspr by nia. simpl in Hspr. rewrite Hm in Hspr. simpl in Hspr. rewrite floordiv_Ok in Hspr by nia.
  injection Hspr as <-. pose proof (Z.div_exact (num_gpus a) (tp * c) ltac:(nia)) as [_ Hex]. specialize (Hex Hm).
  assert (0 < num_gpus a / (tp * c)) by nia.
  split; [done|]. split; [|eauto 10].
  assert (0 < r). { destruct (ring_degree a) eqn:Et; simplify_eq/=; [by apply (sensible_r _ Hs)|lia]. }
  split; simpl; rewrite ?Hdp, ?Htp; try lia.
  - by destruct (c =? 0) eqn:Ec0; bool_to_prop; lia.
  - injection Hu as Hu. rewrite Hu. nia.
  - injection Hr as ->. done.
  - injection Hu as ->. injection Hr as ->. done.
  - unfold dit_parallel_size. simpl. rewrite ?Hdp, ?Htp.
    destruct (c =? 0) eqn:Ec0; bool_to_prop; nia.
Qed.

(** ** Starting the workers of an instance *)

Lemma init_distributed_Ok env `{!GroupsOk env} w rank local_rank m b :
  0 ≤ rank < w → ∃ d, init_distributed_environment env w rank local_rank m b no_dist = (Ok tt, d) ∧
    ready w rank d ∧ created d = join_calls b [seqZ 0 w].
Proof.
  intros Hr. set (d1 := set_torch_world (Some (w, rank)) no_dist).
  assert (rank ∈ seqZ 0 w) as Hin by (apply elem_of_seqZ; lia).
  unfold init_distributed_environment.
  rewrite (bind_Ok _ _ _ None no_dist) by reflexivity. rewrite (bind_Ok _ _ _ tt d1) by reflexivity.
  rewrite (bind_Ok _ _ _ (w, rank) d1) by reflexivity. rewrite (bind_Ok _ _ _ None d1) by reflexivity.
  unfold init_coordinator.
  erewrite bind_Ok.
  2: { rewrite (bind_Ok _ _ _ (w, rank) d1) by reflexivity.
       erewrite bind_Ok; [|eapply join_groups_Ok; [done|reflexivity|constructor; [apply seqZ_good; simpl; lia|done]]].
       unfold keep_own. cbn [foldl fst snd]. rewrite (bool_decide_eq_true_2 _ Hin). reflexivity. }
  eexists. split; [reflexivity|]. split; [|done]. split; [done|by eexists|done].
Qed.

(** C13 - From arguments to process groups. When the degree of sequence parallelism is left
    open, the degrees that are given are positive and the arguments are accepted (the
    platform not being a CPU), every worker of the instance starts: each of its
    [num_gpus] ranks finds its groups, the degrees fill the world exactly, and all ranks
    ask for the same groups in the same order. *)
Theorem accepted_instance_starts env uses a a' m :
  GroupsOk env → sensible a → sp_degree a = None → post_init_parallel false uses a = Ok a' →
  ∀ rank local_rank, 0 ≤ rank < num_gpus a →
  ∃ d', init_worker_groups env a' m local_rank rank no_dist = (Ok tt, d') ∧
    get_dit_world_size d' = (Ok (num_gpus a), d') ∧
    created d' = (join_calls (platform_backend env) [seqZ 0 (num_gpus a)] ++
                  model_parallel_calls (platform_backend env) (degrees a'))%list.
Proof.
  intros Henv Hs Hsp Hp rank lr Hr.
  destruct (accepted_fits _ _ _ Hs Hsp Hp) as (Hn & Hf & tp & sp & u & r & Htp & Hsp' & Hu & Hri).
  destruct (init_distributed_Ok env (num_gpus a) rank lr m (platform_backend env) Hr) as (d1 & Hd1 & Hready & Hcr).
  destruct (initialize_Ok env (degrees a') None (num_gpus a) rank d1 Hf Hr Hready)
    as (l & pu & pr & d' & Hi & Hc & _ & HDP & HCFG & HPP & HSP & HTP).
  exists d'. split_and!.
  - unfold init_worker_groups. rewrite Htp, Hu, Hri, Hsp', Hn.
    do 4 (erewrite bind_Ok; [|reflexivity]). unfold maybe_init_distributed_environment_and_model_parallel.
    rewrite (bind_Ok _ _ _ no_dist no_dist) by reflexivity. cbn [no_dist WORLD].
    rewrite bool_decide_eq_false_2 by (by intros [? ?]). cbn [andb]. rewrite (bind_Ok _ _ _ _ _ Hd1).
    unfold degrees in Hi. rewrite Htp, Hu, Hri, Hsp' in Hi. exact Hi.
  - unfold get_dit_world_size, get_dp_world_size, get_classifier_free_guidance_world_size, get_sp_world_size,
      get_pipeline_parallel_world_size, get_tp_world_size, assert_some, gets, mbind, M_bind.
    rewrite (fits_world _ _ Hf). unfold dit_parallel_size, mret, M_ret.
    repeat (simpl; first [rewrite HDP|rewrite HCFG|rewrite HSP|rewrite HPP|rewrite HTP]). simpl. by rewrite ?Z.mul_1_r.
  - by rewrite Hc, Hcr.
Qed.

(** Eight GPUs, tensor parallelism 2, guidance and sequence parallelism chosen. *)
Definition demo_args : ParallelArgs := mk_par 8 "auto" (Some 2) None None None 1 None None 1 None.
Definition demo_args' : ParallelArgs :=
  mk_par 8 "auto" (Some 2) (Some 2) (Some 2) (Some 1) 1 (Some true) (Some 2) 1 (Some 8).

Lemma accepted_instance_starts_witness :
  post_init_parallel false true demo_args = Ok demo_args' ∧
  ∃ d', init_worker_groups demo_env demo_args' "tcp://127.0.0.1:30005" 7 7 no_dist = (Ok tt, d') ∧
    get_dit_world_size d' = (Ok 8, d').
Proof.
  split; [vm_compute; reflexivity|].
  destruct (accepted_instance_starts demo_env true demo_args demo_args' "tcp://127.0.0.1:30005" demo_env_ok
    ltac:(split; simpl; intros; simplify_eq; lia) eq_refl ltac:(vm_compute; reflexivity) 7 7 ltac:(simpl; lia))
    as (d' & H1 & H2 & _).
  exists d'. split; [exact H1|exact H2].
Defined.

(** Degrees given in full are checked one by one and not together: these are accepted, and
    no worker can start with the first, only rank 0 with the second. *)
Example accepted_too_many :
  post_init_parallel false false (mk_par 4 "auto" (Some 2) (Some 4) None None 1 None None 1 None) =
    Ok (mk_par 4 "auto" (Some 2) (Some 4) (Some 4) (Some 1) 1 (Some false) (Some 1) 1 (Some 4)) ∧
  (init_worker_groups demo_env (mk_par 4 "auto" (Some 2) (Some 4) (Some 4) (Some 1) 1 (Some false) (Some 1) 1 (Some 4))
     "" 0 0 no_dist).1 = Raise RuntimeError.
Proof. split; vm_compute; reflexivity. Qed.

Example accepted_too_few :
  post_init_parallel false false (mk_par 4 "auto" None (Some 1) None None 1 None None 1 None) =
    Ok (mk_par 4 "auto" (Some 1) (Some 1) (Some 1) (Some 1) 1 (Some false) (Some 1) 1 (Some 4)) ∧
  (init_worker_groups demo_env (mk_par 4 "auto" (Some 1) (Some 1) (Some 1) (Some 1) 1 (Some false) (Some 1) 1 (Some 4))
     "" 1 1 no_dist).1 = Raise AssertionError.
Proof. split; vm_compute; reflexivity. Qed.

(** ** Endpoints *)

Lemma rsplit_uint d : rsplit_colon (NilEmpty.string_of_uint d) = None.
Proof. induction d; simpl; [done|by rewrite IHd..]. Qed.

Lemma rsplit_dumps_int z : rsplit_colon (dumps_int z) = None.
Proof.
  unfold dumps_int. destruct (Z.to_int z) as [u|u]; simpl; destruct u; try done; simpl; by rewrite rsplit_uint.
Qed.

Lemma rsplit_colon_app h t : rsplit_colon t = None → rsplit_colon (h +:+ ":" +:+ t) = Some (h, t).
Proof.
  intros Ht. induction h as [|c h IH].
  - unfold String.app. simpl. by rewrite Ht.
  - rewrite sapp_cons. simpl. by rewrite IH.
Qed.

(** Without the scheme or with it. *)
Lemma strip_scheme s : startswith ("tcp://" +:+ s) "tcp://" = true ∧
  String.substring 6 (String.length ("tcp://" +:+ s) - 6) ("tcp://" +:+ s) = s.
Proof.
  split; [apply startswith_spec; by exists s|].
  unfold String.app. simpl. rewrite Nat.sub_0_r. apply substring_all.
Qed.

(** The endpoints of a deployment meet. A role instance that is given the address of
    the head node, with or without the scheme, sends its results where the head node
    binds the socket for its role. *)
Theorem endpoints_meet dh n e dr addr :
  launch_disagg_server dh n = Ok e →
  addr = host_or_default n +:+ ":" +:+ dumps_int (scheduler_port n) →
  disagg_server_addr dr = Some ("tcp://" +:+ addr) ∨
    (disagg_server_addr dr = Some addr ∧ startswith addr "tcp://" = false) →
  disagg_role dr ∈ [ENCODER; DENOISER; DECODER] →
  ∃ ep, derive_pool_result_endpoint dr = Ok ep ∧ result_ep e (disagg_role dr) = Some ep.
Proof.
  intros He Ha Haddr Hrole. unfold launch_disagg_server in He.
  destruct (encoder_urls dh), (denoiser_urls dh), (decoder_urls dh); try done. injection He as <-.
  assert (rsplit_colon addr = Some (host_or_default n, dumps_int (scheduler_port n))) as Hs.
  { subst addr. apply rsplit_colon_app, rsplit_dumps_int. }
  assert (derive_pool_result_endpoint dr =
    match DISAGG_RESULT_PORT_OFFSETS (disagg_role dr) with
    | None => Raise KeyError
    | Some k => Ok (tcp (host_or_default n) (scheduler_port n + k))
    end) as ->.
  { unfold derive_pool_result_endpoint. destruct (strip_scheme addr) as [H1 H2].
    destruct Haddr as [->|[-> Hno]]; [rewrite H1, H2|rewrite Hno]; rewrite Hs, py_int_str; reflexivity. }
  rewrite !elem_of_cons in Hrole. destruct Hrole as [->|[->|[->|[]%elem_of_nil]]]; simpl; eauto.
Qed.

Definition demo_net : NetArgs := mk_net (Some "10.0.0.1") 30000 6000 (Some 30005) false.
Definition demo_head : DisaggArgs :=
  mk_disagg SERVER None (Some "tcp://10.0.0.2:35000") (Some "tcp://10.0.0.3:35000; tcp://10.0.0.4:35000")
    (Some "tcp://10.0.0.2:35001") None None None None None None.
Definition demo_role : DisaggArgs :=
  mk_disagg DENOISER (Some "tcp://10.0.0.1:6000") None None None None None None None None None.

Lemma endpoints_meet_witness :
  ∃ e, launch_disagg_server demo_head demo_net = Ok e ∧
    (∃ ep, derive_pool_result_endpoint demo_role = Ok ep ∧ result_ep e DENOISER = Some ep) ∧
    denoiser_result_ep e = "tcp://10.0.0.1:6002" ∧
    denoiser_work_endpoints e = ["tcp://10.0.0.3:35000"; "tcp://10.0.0.4:35000"].
Proof.
  eexists. split; [vm_compute; reflexivity|]. split; [|split; vm_compute; reflexivity].
  apply (endpoints_meet demo_head demo_net _ demo_role "10.0.0.1:6000");
    [vm_compute; reflexivity|vm_compute; reflexivity|left; vm_compute; reflexivity|right; left].
Defined.

(** ** Ports *)

Section Ports.
Context (available : Z → bool).

Lemma settle_port_Ok k rand port inc avoid p :
  settle_port available k rand port inc avoid = Ok p → available p = true ∧ p ∉ avoid.
Proof.
  revert port. induction k as [|k IH]; intros port; simpl; [done|].
  destruct (bool_decide (port ∈ avoid)) eqn:E; simpl; [apply IH|].
  destruct (available port) eqn:Ea; [|apply IH]. intros [= <-]. bool_to_prop. done.
Qed.

Lemma find_port_loop_Ok k port avoid p : 1024 ≤ port ≤ 65535 →
  find_available_port_loop available k port avoid = Ok p → available p = true ∧ (p ∉ avoid) ∧ (1024 ≤ p ≤ 65535).
Proof.
  revert port. induction k as [|k IH]; intros port Hp; simpl; [done|].
  assert (1024 ≤ (if 65535 <? port + 1 then 1024 else port + 1) ≤ 65535).
  { destruct (65535 <? port + 1) eqn:E; bool_to_prop; lia. }
  destruct (bool_decide (port ∈ avoid)) eqn:E; simpl; [by apply IH|].
  destruct (available port) eqn:Ea; [|by apply IH]. intros [= <-]. bool_to_prop. done.
Qed.

Lemma require_ports_Ok ps seen : require_ports available ps seen = Ok tt →
  NoDup ps ∧ Forall (λ p, available p = true ∧ p ∉ seen) ps.
Proof.
  revert seen. induction ps as [|p ps IH]; intros seen; simpl; [by repeat constructor|].
  destruct (bool_decide (p ∈ seen)) eqn:E; [done|]. destruct (available p) eqn:Ea; [|done]. simpl.
  intros [Hn Hf]%IH. bool_to_prop. split.
  - constructor; [|done]. intros Hin. rewrite Forall_forall in Hf. apply Hf in Hin as [_ Hin]. set_solver.
  - constructor; [done|]. eapply Forall_impl; [exact Hf|]. intros x [? Hx]. set_solver.
Qed.
End Ports.

(** The ports a process of a role uses. *)
Definition used_ports (role : RoleType) (n : NetArgs) : list Z :=
  ((if bool_decide (role = MONOLITHIC ∨ role = SERVER) then [port n] else []) ++ [scheduler_port n]
   ++ option_list (master_port n))%list.

(** Ports. Whatever ports were asked for, the ports a process ends up with are free and
    pairwise different, the HTTP port counting only for the roles that serve HTTP; under
    [--strict-ports] they are the ones asked for. *)
Theorem ports_settled available role offset rand n n' :
  adjust_network_ports available role offset rand n = Ok n' →
  NoDup (used_ports role n') ∧ Forall (λ p, available p = true) (used_ports role n') ∧
  (strict_ports n = true → n' = n).
Proof.
  unfold adjust_network_ports, used_ports. destruct (strict_ports n) eqn:Es.
  - intros ([] & [H1 H2]%require_ports_Ok & [= <-])%res_bind_inv. split_and!; [done| |done].
    eapply Forall_impl; [exact H2|]. by intros p [? _].
  - intros (http & Hh & H)%res_bind_inv. apply res_bind_inv in H as (sched & [Hs1 Hs2]%settle_port_Ok & H).
    apply res_bind_inv in H as (master & Hm & [= <-]). simpl.
    destruct (bool_decide (role = MONOLITHIC ∨ role = SERVER)) eqn:Eh;
      [apply settle_port_Ok in Hh as [Hh _]|]; (destruct (master_port n) as [m|];
       [apply res_bind_inv in Hm as (m' & [Hm1 Hm2]%settle_port_Ok & [= <-])|injection Hm as <-]); simpl;
      rewrite ?NoDup_cons, ?Forall_cons, ?not_elem_of_cons; rewrite ?not_elem_of_cons in *;
      pose proof (NoDup_nil_2 (A:=Z)); pose proof (not_elem_of_nil (A:=Z)); pose proof (Forall_nil_2 (λ p, available p = true));
      naive_solver.
Qed.

Lemma ports_settled_witness :
  ∃ n', adjust_network_ports (λ p, negb (p =? 30000)) SERVER 0 (λ _, 0) demo_net = Ok n' ∧
    NoDup (used_ports SERVER n').
Proof.
  eexists. split; [vm_compute; reflexivity|].
  refine (proj1 (ports_settled (λ p, negb (p =? 30000)) SERVER 0 (λ _, 0) demo_net _ ltac:(vm_compute; reflexivity))).
Defined.
