(* ===== verification/CfgParallel.v ===== *)
(** * Classifier-free guidance across ranks

    Models [distributed/cfg_policy.py], [distributed/cfg_parallel_utils.py], the gathering
    and reducing collectives of [distributed/group_coordinator.py] they use, and
    [_predict_noise_with_cfg] of [pipelines_core/stages/denoising.py]: the branches of a
    guided prediction, computed one after the other on every rank or shared out among the
    ranks of the guidance group.

    A tensor is its shape and its elements, exact rationals; the two operands of a sum have
    one shape. The prediction of a branch is a parameter, the same function on every rank.
    Vector norms, standard deviations and the model's own postprocessing are parameters.
    A collective is a function of what all ranks of the group pass to it; a rank that does
    not take part would leave the others waiting, which is [RuntimeError] here. *)

From S2P Require Import Prelude.
Local Open Scope string_scope.

Record Tensor := mk_tensor { t_shape : list nat; t_data : list Qc }.

Definition numel (t : Tensor) : nat := foldr Nat.mul 1%nat (t_shape t).
Definition scale (c : Qc) (t : Tensor) : Tensor := mk_tensor (t_shape t) ((λ x, c * x)%Qc <$> t_data t).
Definition tadd (a b : Tensor) : Tensor := mk_tensor (t_shape a) (zip_with Qcplus (t_data a) (t_data b)).
Definition tsub (a b : Tensor) : Tensor := mk_tensor (t_shape a) (zip_with Qcminus (t_data a) (t_data b)).
Definition zeros_like (t : Tensor) : Tensor := mk_tensor (t_shape t) ((λ _, 0%Qc) <$> t_data t).

(** A prediction is a tensor or a tuple of tensors. *)
Inductive Pred := One (t : Tensor) | Tuple (l : list Tensor).

Definition wrap (p : Pred) : list Tensor := match p with One t => [t] | Tuple l => l end.
Definition unwrap (l : list Tensor) : Pred := match l with [t] => One t | _ => Tuple l end.

(** ** Branches *)

(** The keyword arguments of a branch are values of some type [V]. *)
Record CFGBranch (V : Type) := mk_branch { b_name : string; is_conditional : bool; b_kwargs : dict V }.
Arguments mk_branch {V} _ _ _.
Arguments b_name {V} _.
Arguments is_conditional {V} _.
Arguments b_kwargs {V} _.

(** [{**a, **b}] *)
Definition merge_kwargs {V} (a b : dict V) : dict V := foldl (λ d kv, dset kv.1 kv.2 d) a b.

(** [CFGPolicy.build] *)
Definition build {V} (do_classifier_free_guidance : bool) (image pos neg : dict V) : list (CFGBranch V) :=
  mk_branch "conditional" true (merge_kwargs image pos)
  :: (if do_classifier_free_guidance then [mk_branch "unconditional" false (merge_kwargs image neg)] else []).

(** ** Combining predictions *)

Record Numerics := mk_numerics {
  vector_norm : Tensor → Qc;
  std_rescaled : Tensor → Tensor → Tensor;
  postprocess_cfg_noise : Tensor → Tensor → Tensor
}.

(** The fields of the request and the scale. *)
Record Guidance := mk_guidance {
  cfg_scale : Qc;
  cfg_normalization : Qc;
  guidance_rescale : Qc
}.

Definition apply_cfg_normalization (N : Numerics) (noise_pred cond : Tensor) (c : Qc) : Tensor :=
  let new_norm := vector_norm N noise_pred in
  let max_norm := (vector_norm N cond * c)%Qc in
  if bool_decide (max_norm < new_norm)%Qc then scale (max_norm / new_norm)%Qc noise_pred else noise_pred.

(** [noise_cfg * (std_text / std_cfg)] is [std_rescaled]. *)
Definition rescale_noise_cfg (N : Numerics) (noise_cfg text : Tensor) (g : Qc) : Tensor :=
  tadd (scale g (std_rescaled N noise_cfg text)) (scale (1 - g)%Qc noise_cfg).

Definition apply_cfg_postprocess (N : Numerics) (G : Guidance) (noise_pred cond : Tensor) : Tensor :=
  let noise_pred := if bool_decide (0 < cfg_normalization G)%Qc
                    then apply_cfg_normalization N noise_pred cond (cfg_normalization G) else noise_pred in
  let noise_pred := if bool_decide (0 < guidance_rescale G)%Qc
                    then rescale_noise_cfg N noise_pred cond (guidance_rescale G) else noise_pred in
  postprocess_cfg_noise N noise_pred cond.

(** [results[0] = post(results[0], cond[0])] *)
Definition post_first (N : Numerics) (G : Guidance) (results cond : list Tensor) : res (list Tensor) :=
  match results, cond with
  | r :: rs, c :: _ => Ok (apply_cfg_postprocess N G r c :: rs)
  | _, _ => Raise IndexError
  end.

Definition combine_parallel (c : Qc) (p n : Tensor) : Tensor := tadd (scale c p) (scale (1 - c)%Qc n).
Definition combine_serial (c : Qc) (p n : Tensor) : Tensor := tadd n (scale c (tsub p n)).

(** [CFGPolicy.combine] *)
Definition combine (N : Numerics) (G : Guidance) (predictions : list Pred) (cfg_parallel : bool) : res Pred :=
  match predictions with
  | [] => Raise IndexError
  | [p] => Ok p
  | p :: n :: _ =>
      let f := if cfg_parallel then combine_parallel (cfg_scale G) else combine_serial (cfg_scale G) in
      r ← post_first N G (zip_with f (wrap p) (wrap n)) (wrap p);
      Ok (unwrap r)
  end.

(** ** Sharing out the branches *)

(** [assignments[i % n_ranks].append(i)] for each branch. *)
Definition dispatch_branches (n_branches n_ranks : nat) : res (list (list nat)) :=
  if bool_decide (n_ranks = 0%nat ∧ n_branches ≠ 0%nat) then Raise ZeroDivisionError
  else Ok (foldl (λ a i, alter (λ l, l ++ [i]) (i mod n_ranks)%nat a) (replicate n_ranks []) (seq 0 n_branches))%list.

Section Run.
Context {V : Type} (predict_fn : CFGBranch V → Pred) (branches : list (CFGBranch V)).

(** [_run]: moving arguments to the device leaves them as they are. *)
Definition run_branch (bid : nat) : res (list Tensor) :=
  match branches !! bid with Some b => Ok (wrap (predict_fn b)) | None => Raise IndexError end.

(** [max(len(a) for a in assignments)] *)
Definition max_branches (assignments : list (list nat)) : res nat :=
  match assignments with
  | [] => Raise ValueError
  | _ => Ok (foldr Nat.max 0%nat (length <$> assignments))
  end.

(** An idle rank runs branch 0 to obtain tensor shapes. *)
Definition or_dummy (preds : list (list Tensor)) : res (list (list Tensor)) :=
  match preds with [] => p ← run_branch 0; Ok [p] | _ => Ok preds end.

(** Zeros up to the largest number of branches of a rank. *)
Definition pad_slots (m : nat) (preds : list (list Tensor)) : res (list (list Tensor)) :=
  match preds with
  | [] => Raise IndexError
  | ref :: _ => Ok (preds ++ replicate (m - length preds) (zeros_like <$> ref))%list
  end.

(** The slots a rank of the group brings to the gathering. *)
Definition local_slots (w rank : nat) : res (list (list Tensor)) :=
  assignments ← dispatch_branches (length branches) w;
  match assignments !! rank with
  | None => Raise IndexError
  | Some mine =>
      m ← max_branches assignments;
      preds ← mapM run_branch mine;
      preds ← or_dummy preds;
      pad_slots m preds
  end.

(** [all_gather(t, dim=0, separate_tensors=True)], given the tensors of all ranks. A group of
    one returns the tensor itself, which the caller then indexes. *)
Definition all_gather_separate (inputs : list Tensor) (rank : nat) : res (Tensor + list Tensor) :=
  match inputs !! rank with
  | None => Raise RuntimeError
  | Some t =>
      if bool_decide (length inputs = 1%nat) then Ok (inl t)
      else if bool_decide (t_shape t = []) then Raise AssertionError
      else
        let output := concat (t_data <$> inputs) in
        Ok (inr ((λ i, mk_tensor (t_shape t) (take (numel t) (drop (numel t * i) output))) <$> seq 0 (length inputs)))
  end.

(** [x[owner]]: an item of the list, or a row of the tensor. *)
Definition index_gathered (x : Tensor + list Tensor) (owner : nat) : res Tensor :=
  match x with
  | inr l => match l !! owner with Some t => Ok t | None => Raise IndexError end
  | inl t =>
      match t_shape t with
      | [] => Raise IndexError
      | s :: rest =>
          if bool_decide (owner < s)%nat then
            let n := foldr Nat.mul 1%nat rest in Ok (mk_tensor rest (take n (drop (n * owner) (t_data t))))
          else Raise IndexError
      end
  end.

(** What all ranks pass to the gathering of element [ei] of a slot. *)
Definition slot_inputs (w slot ei : nat) : res (list Tensor) :=
  mapM (λ r, slots ← local_slots w r;
             match slots !! slot ≫= (.!! ei) with Some t => Ok t | None => Raise RuntimeError end) (seq 0 w).

Definition gather_slots (w rank : nat) (mine : list (list Tensor)) : res (list (list (Tensor + list Tensor))) :=
  mapM (λ slot, mapM (λ ei, inputs ← slot_inputs w slot ei; all_gather_separate inputs rank)
                  (seq 0 (length (default [] (mine !! slot))))) (seq 0 (length mine)).

(** [run_cfg_parallel] on a rank of a group of [w]. *)
Definition run_cfg_parallel (w rank : nat) : res (list Pred) :=
  mine ← local_slots w rank;
  all_slots ← gather_slots w rank mine;
  let n_elems := length (default [] (mine !! 0%nat)) in
  mapM (λ bid,
    let owner := (bid mod w)%nat in
    let slot := (bid / w)%nat in
    elems ← mapM (λ ei, match all_slots !! slot ≫= (.!! ei) with
                        | Some x => index_gathered x owner
                        | None => Raise IndexError
                        end) (seq 0 n_elems);
    Ok (unwrap elems)) (seq 0 (length branches)).

(** ** Two branches on two ranks: an all-reduce of weighted predictions *)

Definition partial (G : Guidance) (rank : nat) : res (list Tensor) :=
  pred ← run_branch rank;
  Ok (List.map (scale (if bool_decide (rank = 0%nat) then cfg_scale G else (1 - cfg_scale G)%Qc)) pred).

(** The sum over the two ranks, of tensor [i] of each. *)
Definition all_reduce (G : Guidance) (i : nat) : res Tensor :=
  p0 ← partial G 0;
  p1 ← partial G 1;
  match p0 !! i, p1 !! i with Some a, Some b => Ok (tadd a b) | _, _ => Raise RuntimeError end.

(** The rank's own prediction, all-reduced; the conditional one comes from rank 0. *)
Definition run_two_branch_cfg_parallel (N : Numerics) (G : Guidance) (rank : nat) : res Pred :=
  mine ← partial G rank;
  results ← mapM (all_reduce G) (seq 0 (length mine));
  cond ← run_branch 0;
  r ← post_first N G results cond;
  Ok (unwrap r).

(** [_predict_noise_with_cfg] on a rank; [w] is the size of its guidance group. *)
Definition predict_noise_with_cfg (N : Numerics) (G : Guidance) (enable_cfg_parallel : bool) (w rank : nat) : res Pred :=
  if enable_cfg_parallel then
    if bool_decide (length branches = 2%nat ∧ w = 2%nat) then run_two_branch_cfg_parallel N G rank
    else
      predictions ← run_cfg_parallel w rank;
      combine N G predictions true
  else combine N G (predict_fn <$> branches) false.
End Run.
