(* ===== verification/CfgParallelProps.v ===== *)
(** * Correctness of guidance across ranks

    Which branches a rank computes, what gathering returns, and the equivalence of the
    parallel computation with the serial one in exact arithmetic. *)

From S2P Require Import Prelude CfgParallel.
Local Open Scope string_scope.
Local Open Scope nat_scope.

(** ** The assignment of branches to ranks *)

(** The number of branches below [n] of rank [r], and the branches. *)
Definition share (w n r : nat) : nat := (n + (w - 1 - r)) / w.
Definition assigned (w n r : nat) : list nat := (λ s, r + s * w) <$> seq 0 (share w n r).

Lemma share_step w n r : r < w →
  share w (S n) r = if decide (n mod w = r) then S (share w n r) else share w n r.
Proof.
  intros Hr. unfold share. pose proof (Nat.div_mod_eq n w) as Hn. pose proof (Nat.mod_upper_bound n w).
  set (q := n / w) in *. set (m := n mod w) in *. case_decide as Hm.
  - replace ((n + (w - 1 - r)) / w) with q; [symmetry; apply Nat.div_unique with 0; nia|].
    apply Nat.div_unique with (w - 1); nia.
  - destruct (decide (m < r)).
    + transitivity q; [symmetry; apply Nat.div_unique with (m + 1 + (w - 1 - r)); nia|].
      apply Nat.div_unique with (m + (w - 1 - r)); nia.
    + transitivity (S q); [symmetry; apply Nat.div_unique with (m - r); nia|].
      apply Nat.div_unique with (m - r - 1); nia.
Qed.

Lemma share_at w n r : r < w → n mod w = r → n = r + share w n r * w.
Proof.
  intros Hr Hm. unfold share. pose proof (Nat.div_mod_eq n w) as Hn.
  replace ((n + (w - 1 - r)) / w) with (n / w); [nia|]. apply Nat.div_unique with (w - 1); nia.
Qed.

Lemma assigned_step w n r : r < w →
  assigned w (S n) r = if decide (n mod w = r) then (assigned w n r ++ [n])%list else assigned w n r.
Proof.
  intros Hr. unfold assigned. rewrite share_step by done. case_decide as Hm; [|done].
  rewrite seq_S, fmap_app. simpl. do 2 f_equal. symmetry. by apply share_at.
Qed.

Lemma dispatch_branches_Ok n w : 0 < w → dispatch_branches n w = Ok (assigned w n <$> seq 0 w).
Proof.
  intros Hw. unfold dispatch_branches. rewrite bool_decide_eq_false_2 by lia. f_equal.
  induction n as [|n IH]; apply list_eq; intros r.
  - simpl. rewrite list_lookup_fmap. destruct (decide (r < w)).
    + rewrite lookup_replicate_2, lookup_seq_lt by done. simpl. f_equal.
      unfold assigned. by replace (share w 0 r) with 0 by (symmetry; apply Nat.div_small; lia).
    + rewrite lookup_ge_None_2 by (rewrite length_replicate; lia). by rewrite lookup_seq_ge by lia.
  - rewrite seq_S, foldl_snoc, IH. simpl. pose proof (Nat.mod_upper_bound n w). rewrite list_lookup_fmap.
    destruct (decide (n mod w = r)) as [Hr|Hr].
    + rewrite Hr, list_lookup_alter_eq || rewrite Hr, list_lookup_alter. rewrite list_lookup_fmap, lookup_seq_lt by lia.
      simpl. rewrite assigned_step by lia. by rewrite decide_True.
    + rewrite list_lookup_alter_ne by done. rewrite list_lookup_fmap. destruct (decide (r < w)).
      * rewrite lookup_seq_lt by done. simpl. rewrite assigned_step by lia. by rewrite decide_False.
      * by rewrite lookup_seq_ge by lia.
Qed.

(** Branch [bid] is number [bid / w] of rank [bid mod w]. *)
Lemma assigned_lookup w n bid : 0 < w → bid < n → assigned w n (bid mod w) !! (bid / w) = Some bid.
Proof.
  intros Hw Hb. unfold assigned. pose proof (Nat.div_mod_eq bid w). pose proof (Nat.mod_upper_bound bid w).
  assert (bid / w < share w n (bid mod w)).
  { unfold share. apply Nat.div_le_lower_bound; nia. }
  rewrite list_lookup_fmap, lookup_seq_lt by done. simpl. f_equal. lia.
Qed.

Lemma assigned_lt w n r bid : r < w → bid ∈ assigned w n r → bid < n.
Proof.
  intros Hr (s & -> & Hs%elem_of_seq)%list_elem_of_fmap. unfold share in Hs.
  assert (w * ((n + (w - 1 - r)) / w) ≤ n + (w - 1 - r)) by apply Nat.Div0.mul_div_le. nia.
Qed.

(** ** Gathering *)

Lemma concat_slice {A} (ls : list (list A)) k i l :
  Forall (λ x, length x = k) ls → ls !! i = Some l → take k (drop (k * i) (concat ls)) = l.
Proof.
  intros H. revert i. induction H as [|x ls Hx _ IH]; intros i Hi; [done|]. simpl. destruct i as [|i]; simplify_eq/=.
  - rewrite Nat.mul_0_r. apply take_app_length.
  - rewrite drop_app_ge by lia. replace (length x * S i - length x) with (length x * i) by lia. by apply IH.
Qed.

(** Tensors of one shape, with as many elements as it says. *)
Definition has_shape (s : list nat) (t : Tensor) : Prop := t_shape t = s ∧ length (t_data t) = foldr Nat.mul 1 s.

Lemma all_gather_Ok inputs s rank i t :
  2 ≤ length inputs → s ≠ [] → Forall (has_shape s) inputs → rank < length inputs → inputs !! i = Some t →
  ∃ l, all_gather_separate inputs rank = Ok (inr l) ∧ l !! i = Some t.
Proof.
  intros Hlen Hs Hin Hr Hi. unfold all_gather_separate.
  destruct (lookup_lt_is_Some_2 inputs rank Hr) as [t0 Ht0]. rewrite Ht0.
  rewrite Forall_forall in Hin. destruct (Hin t0 ltac:(by eapply list_elem_of_lookup_2)) as [Hs0 _].
  destruct (Hin t ltac:(by eapply list_elem_of_lookup_2)) as [Hst Hdt].
  rewrite bool_decide_eq_false_2 by lia. rewrite bool_decide_eq_false_2 by (by rewrite Hs0).
  eexists. split; [reflexivity|]. apply lookup_lt_Some in Hi as Hl.
  rewrite list_lookup_fmap, lookup_seq_lt by done. simpl. f_equal.
  destruct t as [ts td]. simpl in *. subst ts. unfold numel. rewrite Hs0. f_equal. apply concat_slice.
  - apply Forall_fmap, Forall_forall. intros x Hx. by apply Hin in Hx as [_ ?].
  - by rewrite list_lookup_fmap, Hi.
Qed.

(** ** Guidance on every rank of a group *)

Lemma foldr_max_le x l : x ∈ l → x ≤ foldr Nat.max 0 l.
Proof. induction 1; simpl; lia. Qed.

Section Guided.
Context {V : Type} (predict_fn : CFGBranch V → Pred) (branches : list (CFGBranch V)).
Context (w : nat) (Hw : 2 ≤ w) (Hne : branches ≠ []).
Context (shapes : list (list nat)) (Hsh : Forall (λ s, s ≠ []) shapes).
Context (Hpred : ∀ b, b ∈ branches → Forall2 has_shape shapes (wrap (predict_fn b))).
Local Abbreviation n := (length branches).
Local Abbreviation fits := (Forall2 has_shape shapes).

Lemma run_branch_Ok bid : bid < n →
  ∃ b, branches !! bid = Some b ∧ run_branch predict_fn branches bid = Ok (wrap (predict_fn b)) ∧ fits (wrap (predict_fn b)).
Proof using Hpred.
  intros Hb. destruct (lookup_lt_is_Some_2 branches bid Hb) as [b Hbb]. exists b. split; [done|].
  unfold run_branch. rewrite Hbb. split; [done|]. by apply Hpred, list_elem_of_lookup_2 with bid.
Qed.

Lemma zeros_fit l : fits l → fits (zeros_like <$> l).
Proof using Type.
  intros H. clear -H. induction H as [|s t ss ts Hst _ IH]; simpl; [constructor|constructor; [|done]].
  destruct Hst as [H1 H2]. split; [done|]. simpl. by rewrite length_fmap.
Qed.

(** The largest number of branches of a rank. *)
Definition most : nat := foldr Nat.max 0 (length <$> (assigned w n <$> seq 0 w)).

Lemma share_most r : r < w → share w n r ≤ most.
Proof using Hw.
  intros Hr. apply foldr_max_le, list_elem_of_fmap. exists (assigned w n r). unfold assigned at 1. split.
  - by rewrite length_fmap, length_seq.
  - apply list_elem_of_fmap. exists r. split; [done|]. apply elem_of_seq. lia.
Qed.

Lemma most_pos : 1 ≤ most.
Proof using Hw Hne.
  transitivity (share w n 0); [|apply share_most; lia].
  assert (n ≠ 0) by (by intros ?%nil_length_inv). apply Nat.div_le_lower_bound; lia.
Qed.

(** The slots of a rank: as many as any rank needs, each of the common shapes, its own
    branches first. *)
Lemma local_slots_Ok r : r < w →
  ∃ slots, local_slots predict_fn branches w r = Ok slots ∧ length slots = most ∧ Forall fits slots ∧
    ∀ s bid b, assigned w n r !! s = Some bid → branches !! bid = Some b → slots !! s = Some (wrap (predict_fn b)).
Proof using Hw Hne Hpred.
  intros Hr. unfold local_slots. rewrite dispatch_branches_Ok by lia. simpl.
  rewrite list_lookup_fmap, lookup_seq_lt by done. simpl.
  assert (max_branches (assigned w n <$> seq 0 w) = Ok most) as ->.
  { unfold max_branches, most. by destruct w as [|[|w']]; [lia..|]. }
  simpl. destruct (mapM_Forall2 (run_branch predict_fn branches)
    (λ bid p, ∃ b, branches !! bid = Some b ∧ p = wrap (predict_fn b) ∧ fits p) (assigned w n r)) as (ps & Hps & HF).
  { intros bid Hb%assigned_lt; [|done]. destruct (run_branch_Ok bid Hb) as (b & H1 & H2 & H3). naive_solver. }
  rewrite Hps. simpl. pose proof most_pos. pose proof (share_most r Hr).
  assert (length ps = share w n r) as Hlen.
  { rewrite <-(Forall2_length _ _ _ HF). unfold assigned. by rewrite length_fmap, length_seq. }
  assert (∃ ps', or_dummy predict_fn branches ps = Ok ps' ∧ ps' ≠ [] ∧ Forall fits ps' ∧ length ps' ≤ most ∧
    ∀ s p, ps !! s = Some p → ps' !! s = Some p) as (ps' & -> & Hne' & Hfit & Hle & Hpre).
  { destruct ps as [|p ps].
    - destruct (run_branch_Ok 0) as (b & _ & H2 & H3); [assert (n ≠ 0) by (by intros ?%nil_length_inv); lia|].
      simpl. rewrite H2. simpl. eexists. split; [done|]. split_and!; [done|by repeat constructor|simpl; lia|done].
    - eexists. split; [done|]. split_and!; [done| |lia|done].
      apply Forall_forall. intros x (i & Hi)%list_elem_of_lookup. apply (Forall2_lookup_r _ _ _ _ _ HF) in Hi.
      naive_solver. }
  simpl. destruct ps' as [|ref ps']; [done|]. unfold pad_slots. eexists. split; [reflexivity|]. split_and!.
  - rewrite length_app, length_replicate. simpl in *. lia.
  - apply Forall_app. split; [done|]. apply Forall_replicate, zeros_fit. by apply Forall_cons in Hfit as [? _].
  - intros s bid b Hs Hb. destruct (Forall2_lookup_l _ _ _ _ _ HF Hs) as (p & Hp & b' & Hb' & -> & _).
    simplify_eq. by apply lookup_app_l_Some, Hpre.
Qed.

Definition slots_of (r : nat) : list (list Tensor) :=
  match local_slots predict_fn branches w r with Ok s => s | Raise _ => [] end.

(** What a rank finds for element [ei] of a slot, after gathering. *)
Definition gathered (slot ei : nat) (x : Tensor + list Tensor) : Prop :=
  ∀ owner t, owner < w → slots_of owner !! slot ≫= (.!! ei) = Some t → index_gathered x owner = Ok t.

Lemma slot_elem r slot ei s : r < w → slot < most → shapes !! ei = Some s →
  ∃ t, slots_of r !! slot ≫= (.!! ei) = Some t ∧ has_shape s t.
Proof using Hw Hne Hpred.
  intros Hr Hs He. destruct (local_slots_Ok r Hr) as (slots & Hls & Hlen & Hfit & _). unfold slots_of. rewrite Hls.
  destruct (lookup_lt_is_Some_2 slots slot ltac:(lia)) as [p Hp]. rewrite Hp. simpl.
  rewrite Forall_forall in Hfit. assert (fits p) as Hf by by eapply Hfit, list_elem_of_lookup_2.
  destruct (Forall2_lookup_l _ _ _ _ _ Hf He) as (t & Ht & Hst). eauto.
Qed.

Lemma gather_elem rank slot ei s : rank < w → slot < most → shapes !! ei = Some s →
  ∃ x, (inputs ← slot_inputs predict_fn branches w slot ei; all_gather_separate inputs rank) = Ok x ∧ gathered slot ei x.
Proof using Hw Hne Hpred Hsh.
  intros Hr Hs He.
  destruct (mapM_Forall2 (λ r, slots ← local_slots predict_fn branches w r;
             match slots !! slot ≫= (.!! ei) with Some t => Ok t | None => Raise RuntimeError end)
    (λ r t, r < w ∧ slots_of r !! slot ≫= (.!! ei) = Some t ∧ has_shape s t) (seq 0 w)) as (inputs & Hin & HF).
  { intros r [_ Hrw]%elem_of_seq. destruct (slot_elem r slot ei s Hrw Hs He) as (t & Ht & Hst).
    exists t. split; [|done]. destruct (local_slots_Ok r Hrw) as (slots & Hls & _).
    unfold slots_of in Ht. rewrite Hls in Ht |- *. simpl. by rewrite Ht. }
  unfold slot_inputs. rewrite Hin. simpl. apply Forall2_length in HF as Hlen. rewrite length_seq in Hlen.
  assert (Forall (has_shape s) inputs) as Hshape.
  { apply Forall_forall. intros t (i & Hi)%list_elem_of_lookup. destruct (Forall2_lookup_r _ _ _ _ _ HF Hi) as (? & _ & H). tauto. }
  assert (s ≠ []) as Hsne. { rewrite Forall_forall in Hsh. by eapply Hsh, list_elem_of_lookup_2. }
  assert (∀ i t, inputs !! i = Some t → ∃ l, all_gather_separate inputs rank = Ok (inr l) ∧ l !! i = Some t) as Hg.
  { intros i t Hi. eapply all_gather_Ok; [lia|done|done|lia|done]. }
  destruct (lookup_lt_is_Some_2 inputs 0 ltac:(lia)) as [t0 Ht0]. destruct (Hg 0 t0 Ht0) as (l & Hl & _).
  exists (inr l). split; [done|]. intros owner t Ho Ht.
  destruct (Forall2_lookup_l _ _ _ owner owner HF) as (t' & Ht' & _ & Ht2 & _); [by rewrite lookup_seq_lt|].
  rewrite Ht in Ht2. simplify_eq. destruct (Hg owner t' Ht') as (l' & Hl' & Hlo). rewrite Hl in Hl'. simplify_eq.
  simpl. by rewrite Hlo.
Qed.

Lemma slot_length rank slot mine : rank < w → slot < most → local_slots predict_fn branches w rank = Ok mine →
  length (default [] (mine !! slot)) = length shapes.
Proof using Hw Hne Hpred.
  intros Hr Hs Hm. destruct (local_slots_Ok rank Hr) as (slots & Hls & Hlen & Hfit & _). simplify_eq.
  destruct (lookup_lt_is_Some_2 slots slot ltac:(lia)) as [p Hp]. rewrite Hm in Hls. simplify_eq. rewrite Hp. simpl.
  rewrite Forall_forall in Hfit. symmetry. by eapply Forall2_length, Hfit, list_elem_of_lookup_2.
Qed.

Lemma gather_slots_Ok rank mine : rank < w → local_slots predict_fn branches w rank = Ok mine →
  ∃ all, gather_slots predict_fn branches w rank mine = Ok all ∧
    ∀ slot ei, slot < most → ei < length shapes → ∃ x, all !! slot ≫= (.!! ei) = Some x ∧ gathered slot ei x.
Proof using Hw Hne Hpred Hsh.
  intros Hr Hm. destruct (local_slots_Ok rank Hr) as (slots & Hls & Hlen & _). rewrite Hm in Hls. simplify_eq.
  unfold gather_slots. match goal with |- context [mapM ?f (seq 0 (length slots))] =>
    destruct (mapM_Forall2 f (λ slot row, Forall2 (gathered slot) (seq 0 (length shapes)) row) (seq 0 (length slots)))
      as (all & Hall & HF) end.
  { intros slot [_ Hslot]%elem_of_seq. simpl in Hslot. rewrite (slot_length rank slot slots) by (done || lia).
    apply mapM_Forall2. intros ei [_ Hei]%elem_of_seq. destruct (lookup_lt_is_Some_2 shapes ei Hei) as [s He].
    by apply (gather_elem rank slot ei s); [done|lia|]. }
  exists all. split; [exact Hall|]. intros slot ei Hs He.
  destruct (Forall2_lookup_l _ _ _ slot slot HF) as (row & Hrow & HFr); [by rewrite lookup_seq_lt by lia|].
  destruct (Forall2_lookup_l _ _ _ ei ei HFr) as (x & Hx & Hgx); [by rewrite lookup_seq_lt by lia|].
  exists x. rewrite Hrow. auto.
Qed.

(** Sharing the branches out gives every rank the list of all predictions, in order. *)
Lemma run_cfg_parallel_Ok rank : rank < w →
  run_cfg_parallel predict_fn branches w rank = Ok ((λ b, unwrap (wrap (predict_fn b))) <$> branches).
Proof using Hw Hne Hpred Hsh.
  intros Hr. unfold run_cfg_parallel. destruct (local_slots_Ok rank Hr) as (mine & Hm & _). rewrite Hm. simpl.
  destruct (gather_slots_Ok rank mine Hr Hm) as (all & -> & Hall). simpl.
  rewrite (slot_length rank 0 mine Hr most_pos Hm).
  match goal with |- context [mapM ?f (seq 0 n)] =>
    destruct (mapM_Forall2 f (λ bid p, ∃ b, branches !! bid = Some b ∧ p = unwrap (wrap (predict_fn b))) (seq 0 n))
      as (ps & -> & HF) end.
  { intros bid [_ Hb]%elem_of_seq. simpl in Hb. destruct (run_branch_Ok bid Hb) as (b & Hbb & _ & Hfit).
    assert (bid mod w < w) as Ho by (apply Nat.mod_upper_bound; lia).
    pose proof (assigned_lookup w n bid ltac:(lia) Hb) as Ha.
    destruct (local_slots_Ok (bid mod w) Ho) as (slots & Hs & Hlen & _ & Hslot). specialize (Hslot _ _ _ Ha Hbb).
    assert (bid / w < most) by (apply lookup_lt_Some in Hslot; lia).
    eexists. split; [|by exists b]. rewrite (mapM_Ok _ (λ ei, default (mk_tensor [] []) (wrap (predict_fn b) !! ei))).
    - simpl. do 2 f_equal. apply list_eq. intros i. rewrite list_lookup_fmap. rewrite (Forall2_length _ _ _ Hfit).
      destruct (decide (i < length (wrap (predict_fn b)))) as [Hi|Hi].
      + rewrite lookup_seq_lt by done. simpl. by destruct (lookup_lt_is_Some_2 _ _ Hi) as [t ->].
      + rewrite lookup_seq_ge by lia. simpl. symmetry. apply lookup_ge_None. lia.
    - intros ei [_ He]%elem_of_seq. simpl in He. destruct (Hall (bid / w) ei) as (x & Hx & Hg); [done..|]. rewrite Hx.
      rewrite (Forall2_length _ _ _ Hfit) in He. destruct (lookup_lt_is_Some_2 _ _ He) as [t Ht]. rewrite Ht.
      apply (Hg (bid mod w) t Ho). unfold slots_of. rewrite Hs, Hslot. exact Ht. }
  f_equal. apply list_eq. intros i. rewrite list_lookup_fmap. destruct (decide (i < n)) as [Hi|Hi].
  - destruct (Forall2_lookup_l _ _ _ i i HF) as (p & -> & b & -> & ->); [by rewrite lookup_seq_lt|]. done.
  - apply Forall2_length in HF. rewrite length_seq in HF.
    rewrite !lookup_ge_None_2 by lia. done.
Qed.
End Guided.

(** ** The two formulas *)

Lemma combine_data c l1 l2 :
  zip_with Qcplus ((λ x, c * x)%Qc <$> l1) ((λ x, (1 - c) * x)%Qc <$> l2) =
  zip_with Qcplus l2 ((λ x, c * x)%Qc <$> zip_with Qcminus l1 l2).
Proof. revert l2. induction l1 as [|x l1 IH]; intros [|y l2]; simpl; [done..|]. rewrite IH. f_equal. ring. Qed.

Lemma combine_formulas c p n : t_shape p = t_shape n → combine_parallel c p n = combine_serial c p n.
Proof.
  intros H. unfold combine_parallel, combine_serial, tadd, tsub, scale. simpl. rewrite H. f_equal. apply combine_data.
Qed.

Lemma combine_all shapes c ps ns : Forall2 has_shape shapes ps → Forall2 has_shape shapes ns →
  zip_with (combine_parallel c) ps ns = zip_with (combine_serial c) ps ns.
Proof.
  intros H. revert ns. induction H as [|s p ss ps [Hp _] _ IH]; intros ns Hn; [done|].
  inversion_clear Hn as [|? n ? ns' [Hs _] Hns]. simpl. rewrite IH, combine_formulas by (done || congruence). done.
Qed.

(** Reducing the weighted predictions of two ranks is the parallel formula. *)
Lemma two_branch_Ok {V} (predict_fn : CFGBranch V → Pred) b0 b1 N G rank :
  rank < 2 → length (wrap (predict_fn b0)) = length (wrap (predict_fn b1)) →
  run_two_branch_cfg_parallel predict_fn [b0; b1] N G rank = combine N G [predict_fn b0; predict_fn b1] true.
Proof.
  intros Hr Hl. unfold run_two_branch_cfg_parallel, combine.
  set (p0 := wrap (predict_fn b0)) in *. set (p1 := wrap (predict_fn b1)) in *.
  assert (mapM (all_reduce predict_fn [b0; b1] G) (seq 0 (length p0)) = Ok (zip_with (combine_parallel (cfg_scale G)) p0 p1)) as Hm.
  { rewrite (mapM_Ok _ (λ i, default (mk_tensor [] []) (zip_with (combine_parallel (cfg_scale G)) p0 p1 !! i))).
    - f_equal. apply list_eq. intros i. rewrite list_lookup_fmap. destruct (decide (i < length p0)) as [Hi|Hi].
      + rewrite lookup_seq_lt by done. simpl.
        destruct (lookup_lt_is_Some_2 (zip_with (combine_parallel (cfg_scale G)) p0 p1) i) as [t Ht];
          [rewrite length_zip_with; lia|]. by rewrite Ht.
      + rewrite lookup_seq_ge by lia. simpl. symmetry. apply lookup_ge_None. rewrite length_zip_with. lia.
    - intros i [_ Hi]%elem_of_seq. simpl in Hi. unfold all_reduce, partial. simpl. fold p0 p1.
      rewrite !list_lookup_fmap, lookup_zip_with.
      destruct (lookup_lt_is_Some_2 p0 i ltac:(lia)) as [t0 ->]. destruct (lookup_lt_is_Some_2 p1 i ltac:(lia)) as [t1 ->].
      done. }
  destruct rank as [|[|]]; [| |lia]; unfold partial; simpl; fold p0 p1; rewrite length_map, <-?Hl, Hm; done.
Qed.

(** C12 - Guidance in parallel is guidance. When all branches predict tensors of the same
    shapes, none of them a scalar, every rank of a guidance group of at least two obtains
    the result of computing the branches one after the other, in exact arithmetic: however
    many branches there are and whether or not some ranks are idle. *)
Theorem cfg_parallel_equals_serial {V} (predict_fn : CFGBranch V → Pred) branches shapes w rank N G :
  2 ≤ w → rank < w → branches ≠ [] → Forall (λ s, s ≠ []) shapes →
  (∀ b, b ∈ branches → Forall2 has_shape shapes (wrap (predict_fn b)) ∧ predict_fn b = unwrap (wrap (predict_fn b))) →
  predict_noise_with_cfg predict_fn branches N G true w rank = predict_noise_with_cfg predict_fn branches N G false w rank.
Proof.
  intros Hw Hr Hne Hsh Hp. unfold predict_noise_with_cfg.
  assert (combine N G (predict_fn <$> branches) true = combine N G (predict_fn <$> branches) false) as <-.
  { destruct branches as [|b0 [|b1 bs]]; [done..|]. simpl.
    rewrite (combine_all shapes); [done| |]; apply Hp; set_solver. }
  case_bool_decide as H2.
  - destruct H2 as [Hlen ->]. destruct branches as [|b0 [|b1 [|]]]; try done. apply two_branch_Ok; [done|].
    transitivity (length shapes); [symmetry|]; eapply Forall2_length; apply Hp; set_solver.
  - rewrite (run_cfg_parallel_Ok predict_fn branches w Hw Hne shapes Hsh) by (done || naive_solver). simpl. f_equal.
    apply list_fmap_ext. intros i b Hb. symmetry. apply Hp. by eapply list_elem_of_lookup_2.
Qed.

(** Three branches on two ranks, each predicting a row of two elements. *)
Definition demo_branches : list (CFGBranch nat) :=
  [mk_branch "a" true [("k", 1%nat)]; mk_branch "b" false [("k", 2%nat)]; mk_branch "c" false [("k", 3%nat)]].
Definition demo_predict (b : CFGBranch nat) : Pred :=
  One (mk_tensor [1; 2] [Qc_of_Z (Z.of_nat (default 0 (dget "k" (b_kwargs b)))); 1%Qc]).
Definition demo_numerics : Numerics := mk_numerics (λ _, 1%Qc) (λ t _, t) (λ t _, t).
Definition demo_guidance : Guidance := mk_guidance (Qc_of_Z 7) 0%Qc 0%Qc.

Lemma cfg_parallel_equals_serial_witness :
  predict_noise_with_cfg demo_predict demo_branches demo_numerics demo_guidance true 2 1 =
  predict_noise_with_cfg demo_predict demo_branches demo_numerics demo_guidance false 2 1 ∧
  match predict_noise_with_cfg demo_predict demo_branches demo_numerics demo_guidance false 2 1 with
  | Ok (One t) => this <$> t_data t
  | _ => []
  end = [QArith_base.Qmake (-5) 1; QArith_base.Qmake 1 1].
Proof.
  split; [|vm_compute; reflexivity].
  apply (cfg_parallel_equals_serial demo_predict demo_branches [[1; 2]] 2 1); [lia|lia|done|by repeat constructor|].
  intros b _. split; [by repeat constructor|done].
Defined.

(** In a group of one, gathering returns the tensor itself and its first row is taken for the
    prediction. *)
Example group_of_one :
  run_cfg_parallel demo_predict demo_branches 1 0 =
  Ok [One (mk_tensor [2] [Qc_of_Z 1; 1%Qc]); One (mk_tensor [2] [Qc_of_Z 2; 1%Qc]); One (mk_tensor [2] [Qc_of_Z 3; 1%Qc])].
Proof. vm_compute. reflexivity. Qed.
