(* ===== verification/Schedule.v ===== *)
(** * Schedules over the denoising trajectory

    Models [efficiency/schedule.py]: a schedule is a value resolved per step and stage,
    with its constructors and the step-set notation ["1-2,5,7-9"]. *)

From S2P Require Import Prelude PyJson PyValue Admission.
Local Open Scope string_scope.
Local Open Scope Z_scope.

Definition Schedule (T : Type) : Type := Z → string → T.

(** [s.split(",")] *)
Definition split_comma (s : string) : list string := split_on 44 s.

(** [tok.partition("-")], where ["-" in tok]. *)
Fixpoint partition_dash (s : string) : option (string * string) :=
  match s with
  | EmptyString => None
  | String c s' =>
      if bool_decide (ord c = 45%nat) then Some ("", s')
      else '(a, b) ← partition_dash s'; Some (String c a, b)
  end.

Definition int_of_token (s : string) : option Z :=
  match py_int (JStr (strip s)) with Ok z => Some z | Raise _ => None end.

(** The steps a token adds; a token that does not parse adds none. *)
Definition token_steps (tok : string) : list Z :=
  let tok := strip tok in
  if bool_decide (tok = "") then []
  else match partition_dash tok with
       | Some (lo, hi) =>
           match int_of_token lo, int_of_token hi with
           | Some a, Some b => seqZ (Z.min a b) (Z.max a b + 1 - Z.min a b)
           | _, _ => []
           end
       | None => match int_of_token tok with Some z => [z] | None => [] end
       end.

Definition parse_steps (spec : string) : list Z := split_comma spec ≫= token_steps.

Definition const {T} (v : T) : Schedule T := λ _ _, v.
Definition at_steps {T} (steps : string) (v d : T) : Schedule T :=
  λ step _, if bool_decide (step ∈ parse_steps steps) then v else d.
Definition before {T} (n : Z) (v d : T) : Schedule T := λ step _, if step <? n then v else d.
Definition predicate {T} (f : Z → string → bool) (v d : T) : Schedule T :=
  λ step stage, if f step stage then v else d.
Definition by_stage {T} (mapping : dict (Schedule T)) (d : T) : Schedule T :=
  λ step stage, match dget stage mapping with Some s => s step stage | None => d end.

(** [truthy_steps(horizon)] asks at the default stage [""]. *)
Definition truthy_steps (s : Schedule bool) (horizon : Z) : list Z :=
  List.filter (λ k, s k "") (seqZ 0 horizon).

(** ** What the notation means *)

Lemma truthy_steps_elem (s : Schedule bool) h k : k ∈ truthy_steps s h ↔ 0 ≤ k < h ∧ s k "" = true.
Proof.
  unfold truthy_steps. rewrite list_elem_of_In, filter_In, <-list_elem_of_In, elem_of_seqZ.
  rewrite Z.add_0_l. tauto.
Qed.

Lemma at_steps_true steps k stage : at_steps steps true false k stage = true ↔ k ∈ parse_steps steps.
Proof. unfold at_steps. case_bool_decide; split; done. Qed.
