(* ===== verification/Efficiency.v ===== *)
(** * Composing acceleration techniques

    Models [efficiency/technique.py], [transform.py], [spec.py] and [compose.py]:
    techniques with their schedules, effects and hooks, build-time transforms, the
    capability and conflict checks of [compose], and the execution of a plan. Hidden
    states are seen along the sequence dimension (dimension 1, which every registered
    model uses): a list of tokens, a token being the slice of the tensor at a position.
    Hooks run in the state-and-exception monad over the scratch store. *)

From Stdlib Require Import Sorting.Sorted.
From S2P Require Import Prelude Schedule.
Local Open Scope string_scope.
Local Open Scope Z_scope.

(** ** Techniques and transforms *)

Inductive Phase := WRAP_ATTENTION | PRE_BLOCKS | IN_BLOCKS | POST_BLOCKS | ON_STEP.
Definition phase_value (p : Phase) : Z :=
  match p with
  | WRAP_ATTENTION => 10 | PRE_BLOCKS => 20 | IN_BLOCKS => 30 | POST_BLOCKS => 40 | ON_STEP => 50
  end.

Inductive Seam :=
  | ATTENTION | ATTENTION_BACKEND | TOKEN_SET | HIDDEN_STATES
  | KERNEL_FUSION | RESIDUAL_CACHE | STEP_OUTPUT | FFN_PRECISION.

Inductive Capability := BLOCKS | PRUNABLE_TOKENS | RESIDUAL_TUPLE | SWAPPABLE_ATTENTION.

#[global] Instance Phase_eq_dec : EqDecision Phase.
Proof. solve_decision. Defined.
#[global] Instance Seam_eq_dec : EqDecision Seam.
Proof. solve_decision. Defined.
#[global] Instance Capability_eq_dec : EqDecision Capability.
Proof. solve_decision. Defined.

Definition EXCLUSIVE_SEAMS : list Seam := [ATTENTION_BACKEND; TOKEN_SET; STEP_OUTPUT; FFN_PRECISION].

Inductive TransformPhase := LOAD | BUILD.
Definition transform_phase_value (p : TransformPhase) : Z := match p with LOAD => 10 | BUILD => 20 end.

(** What a model's techniques work on: tokens, step outputs, attention callables, the
    state a technique carries from [before_blocks] to [after_blocks], and the scratch
    store. *)
Record Kinds := mk_kinds {
  Token : Type;
  Out : Type;
  Attn : Type;
  Carry : Type;
  Scratch : Type;
}.

Record ModelSpec (K : Kinds) := mk_spec {
  spec_name : string;
  capabilities : list Capability;
  prunable_segment : option (list (Token K) → Z * Z);
}.
Arguments mk_spec {K}.
Arguments spec_name {K}.
Arguments capabilities {K}.
Arguments prunable_segment {K}.

Definition has {K} (s : ModelSpec K) (c : Capability) : bool := bool_decide (c ∈ capabilities s).

Definition missing {K} (s : ModelSpec K) (required : list Capability) : list Capability :=
  filter (λ c, c ∉ capabilities s) required.

(** [ModelSpec.segment]: the prunable span, by default the whole sequence. *)
Definition segment {K} (s : ModelSpec K) (hidden : list (Token K)) : Z * Z :=
  match prunable_segment s with Some f => f hidden | None => (0, Z.of_nat (length hidden)) end.

(** [TechniqueContext], less the scratch store, which is the state of the hooks. *)
Record Ctx (K : Kinds) := mk_ctx {
  step : Z;
  stage : string;
  spec : ModelSpec K;
  cache_key : string;
}.
Arguments mk_ctx {K}.
Arguments step {K}.
Arguments stage {K}.
Arguments spec {K}.
Arguments cache_key {K}.

Record Technique (K : Kinds) := mk_technique {
  t_name : string;
  t_phase : Phase;
  t_reads : list Seam;
  t_writes : list Seam;
  t_required : list Capability;
  t_enabled : Schedule bool;
  t_is_active : Ctx K → bool;
  t_before_blocks : Ctx K → list (Token K) → M (Scratch K) (list (Token K) * option (Carry K));
  t_after_blocks : Ctx K → list (Token K) → option (Carry K) → M (Scratch K) (list (Token K));
  t_wrap_attention : Ctx K → Attn K → Attn K;
  t_on_step : Ctx K → M (Scratch K) (Out K) → M (Scratch K) (Out K);
}.
Arguments mk_technique {K}.
Arguments t_name {K}.
Arguments t_phase {K}.
Arguments t_reads {K}.
Arguments t_writes {K}.
Arguments t_required {K}.
Arguments t_enabled {K}.
Arguments t_is_active {K}.
Arguments t_before_blocks {K}.
Arguments t_after_blocks {K}.
Arguments t_wrap_attention {K}.
Arguments t_on_step {K}.

(** The hooks of the base class, which change nothing. *)
Section Defaults.
Context {K : Kinds}.
Definition is_active (enabled : Schedule bool) (ctx : Ctx K) : bool := enabled (step ctx) (stage ctx).
Definition no_before (ctx : Ctx K) (hidden : list (Token K)) :
    M (Scratch K) (list (Token K) * option (Carry K)) := mret (hidden, None).
Definition no_after (ctx : Ctx K) (hidden : list (Token K)) (c : option (Carry K)) :
    M (Scratch K) (list (Token K)) := mret hidden.
Definition no_wrap (ctx : Ctx K) (attn : Attn K) : Attn K := attn.
Definition no_step (ctx : Ctx K) (run_step : M (Scratch K) (Out K)) : M (Scratch K) (Out K) := run_step.
End Defaults.

(** A transform installs itself by setting environment variables. *)
Record ModelTransform := mk_transform {
  tr_name : string;
  tr_phase : TransformPhase;
  tr_writes : list Seam;
  tr_required : list Capability;
  tr_set_env : dict string → dict string;
}.

Inductive Item (K : Kinds) :=
  | ITechnique (t : Technique K)
  | ITransform (t : ModelTransform)
  | IUnknown.
Arguments ITechnique {K}.
Arguments ITransform {K}.
Arguments IUnknown {K}.

(** [combinations(l, 2)] *)
Fixpoint pairs {A} (l : list A) : list (A * A) :=
  match l with
  | [] => []
  | x :: l => ((pair x <$> l) ++ pairs l)%list
  end.

(** [l.sort(key=...)]: stable. *)
Fixpoint insert_by {A} (key : A → Z) (x : A) (l : list A) : list A :=
  match l with
  | [] => [x]
  | y :: l' => if key x <=? key y then x :: l else y :: insert_by key x l'
  end.
Definition sort_by {A} (key : A → Z) (l : list A) : list A := foldr (insert_by key) [] l.

Inductive Problem :=
  | MultipleWriters (seam : Seam) (clash : list (string * string))
  | WriteRead (seams : list Seam) (a b : string).

Section Compose.
Context {K : Kinds}.
Implicit Types (a b t : Technique K) (it : Item K).

Definition item_name it : string :=
  match it with ITechnique t => t_name t | ITransform t => tr_name t | IUnknown => "" end.
Definition item_writes it : list Seam :=
  match it with ITechnique t => t_writes t | ITransform t => tr_writes t | IUnknown => [] end.
Definition item_required it : list Capability :=
  match it with ITechnique t => t_required t | ITransform t => tr_required t | IUnknown => [] end.

Definition techniques_of (items : list (Item K)) : list (Technique K) :=
  omap (λ it, match it with ITechnique t => Some t | _ => None end) items.
Definition transforms_of (items : list (Item K)) : list ModelTransform :=
  omap (λ it, match it with ITransform t => Some t | _ => None end) items.

Definition always_on it : bool :=
  match it with
  | ITechnique t => negb (bool_decide (truthy_steps (t_enabled t) 64 = []))
  | _ => true
  end.

Definition tech_steps_overlap a b (horizon : Z) : bool :=
  existsb (λ k, bool_decide (k ∈ truthy_steps (t_enabled b) horizon))
    (truthy_steps (t_enabled a) horizon).

(** Whether a pair of writers of an exclusive seam clashes. *)
Definition clashes (horizon : Z) (p : Item K * Item K) : bool :=
  match p with
  | (ITechnique a, ITechnique b) => tech_steps_overlap a b horizon
  | _ => true
  end.

Definition seam_problem (horizon : Z) (active : list (Item K)) (seam : Seam) : option Problem :=
  let writers := List.filter (λ it, bool_decide (seam ∈ item_writes it)) active in
  let clash := List.filter (clashes horizon) (pairs writers) in
  match clash with
  | [] => None
  | _ => Some (MultipleWriters seam ((λ p, (item_name p.1, item_name p.2)) <$> clash))
  end.

(** [(a.writes & b.reads) | (b.writes & a.reads)] less the exclusive seams. *)
Definition write_read a b : list Seam :=
  filter (λ s, s ∉ EXCLUSIVE_SEAMS)
    (filter (λ s, s ∈ t_reads b) (t_writes a) ++ filter (λ s, s ∈ t_reads a) (t_writes b))%list.

Definition pair_problem (horizon : Z) (p : Technique K * Technique K) : option Problem :=
  let '(a, b) := p in
  if bool_decide (t_phase a ≠ t_phase b) || negb (tech_steps_overlap a b horizon) then None
  else match write_read a b with
       | [] => None
       | ss => Some (WriteRead ss (t_name a) (t_name b))
       end.

Definition check_conflicts (items : list (Item K)) (horizon : Z) : list Problem :=
  let active := List.filter always_on items in
  (omap (seam_problem horizon active) EXCLUSIVE_SEAMS ++
   omap (pair_problem horizon) (pairs (techniques_of active)))%list.

Record Plan := mk_plan {
  p_transforms : list ModelTransform;
  p_techniques : list (Technique K);
  p_spec : ModelSpec K;
}.

Definition compose (items : list (Item K)) (s : ModelSpec K) (horizon : Z) : res Plan :=
  if existsb (λ it, match it with IUnknown => true | _ => false end) items
  then Raise CompositionError
  else if negb (forallb (λ it, bool_decide (missing s (item_required it) = [])) items)
  then Raise CompositionError
  else match check_conflicts items horizon with
       | [] => Ok (mk_plan (sort_by (λ r, transform_phase_value (tr_phase r)) (transforms_of items))
                     (sort_by (λ t, phase_value (t_phase t)) (techniques_of items)) s)
       | _ => Raise CompositionError
       end.

(** ** Running a plan *)

Definition apply_transforms (p : Plan) (env : dict string) : dict string :=
  foldl (λ e r, tr_set_env r e) env (p_transforms p).

Definition active_in (p : Plan) (ctx : Ctx K) (ph : Phase) : list (Technique K) :=
  List.filter (λ t, bool_decide (t_phase t = ph) && t_is_active t ctx) (p_techniques p).

Definition Carries : Type := list (Technique K * option (Carry K)).

Fixpoint before_loop (ts : list (Technique K)) (ctx : Ctx K) (hidden : list (Token K)) :
    M (Scratch K) (list (Token K) * Carries) :=
  match ts with
  | [] => mret (hidden, [])
  | t :: ts =>
      '(hidden, carry) ← t_before_blocks t ctx hidden;
      '(hidden, carries) ← before_loop ts ctx hidden;
      mret (hidden, (t, carry) :: carries)
  end.
Definition plan_before_blocks (p : Plan) (ctx : Ctx K) (hidden : list (Token K)) :
    M (Scratch K) (list (Token K) * Carries) :=
  before_loop (active_in p ctx PRE_BLOCKS) ctx hidden.

Fixpoint after_loop (cs : Carries) (ctx : Ctx K) (hidden : list (Token K)) :
    M (Scratch K) (list (Token K)) :=
  match cs with
  | [] => mret hidden
  | (t, carry) :: cs => hidden ← t_after_blocks t ctx hidden carry; after_loop cs ctx hidden
  end.
Definition plan_after_blocks (ctx : Ctx K) (hidden : list (Token K)) (carries : Carries) :
    M (Scratch K) (list (Token K)) :=
  after_loop (reverse carries) ctx hidden.

Definition plan_wrap_attention (p : Plan) (ctx : Ctx K) (attn_fn : Attn K) : Attn K :=
  foldl (λ f t, t_wrap_attention t ctx f) attn_fn (active_in p ctx WRAP_ATTENTION).

(** [Plan.on_step]: the wrappers nest around [run_step], the first outermost. *)
Definition plan_on_step (p : Plan) (ctx : Ctx K) (run_step : M (Scratch K) (Out K)) :
    M (Scratch K) (Out K) :=
  foldr (λ t f, t_on_step t ctx f) run_step (active_in p ctx ON_STEP).
End Compose.

(** ** Soundness of composition *)

Lemma pairs_filter {A} (P : A → bool) (l : list A) i j a b :
  l !! i = Some a → l !! j = Some b → (i < j)%nat → P a = true → P b = true →
  (a, b) ∈ pairs (List.filter P l).
Proof.
  revert i j. induction l as [|x l IH]; intros i j Ha Hb Hij Pa Pb; [done|].
  destruct j as [|j]; [lia|]. simpl in Hb. destruct i as [|i].
  - injection Ha as ->. simpl. rewrite Pa. simpl. apply elem_of_app. left.
    apply list_elem_of_fmap. exists b. split; [done|]. apply list_elem_of_In, filter_In.
    split; [|done]. apply list_elem_of_In. by eapply list_elem_of_lookup_2.
  - simpl in Ha. specialize (IH i j Ha Hb ltac:(lia) Pa Pb). simpl. destruct (P x); [|done].
    simpl. apply elem_of_app. by right.
Qed.

Lemma filter_filter {A} (P Q : A → bool) l :
  List.filter Q (List.filter P l) = List.filter (λ x, P x && Q x) l.
Proof.
  induction l as [|x l IH]; [done|]. simpl. destruct (P x); simpl; [|done].
  destruct (Q x); by rewrite IH.
Qed.

Lemma sort_by_Permutation {A} (key : A → Z) l : sort_by key l ≡ₚ l.
Proof.
  assert (∀ x l, insert_by key x l ≡ₚ x :: l) as Hi.
  { intros x l'. induction l' as [|y l' IH]; [done|]. simpl. destruct (key x <=? key y); [done|].
    rewrite IH. apply Permutation_swap. }
  induction l as [|x l IH]; [done|]. simpl. by rewrite Hi, IH.
Qed.

Lemma sort_by_Sorted {A} (key : A → Z) l : StronglySorted (λ x y, key x ≤ key y) (sort_by key l).
Proof.
  induction l as [|x l IH]; simpl; [constructor|]. revert IH. generalize (sort_by key l). intros l' Hs.
  induction Hs as [|y l' Hs IH Hle]; simpl; [repeat constructor|].
  destruct (key x <=? key y) eqn:E; bool_to_prop.
  - constructor; [by constructor|]. constructor; [done|].
    eapply Forall_impl; [exact Hle|]. simpl. lia.
  - constructor; [done|]. assert (insert_by key x l' ≡ₚ x :: l') as ->.
    { clear. induction l' as [|z l' IH]; [done|]. simpl. destruct (key x <=? key z); [done|].
      rewrite IH. apply Permutation_swap. }
    constructor; [lia|done].
Qed.

Section Sound.
Context {K : Kinds}.

(** Whether an item is in force at a step of a stage. *)
Definition item_active (k : Z) (stg : string) (it : Item K) : bool :=
  match it with ITechnique t => t_enabled t k stg | ITransform _ => true | IUnknown => false end.

Lemma active_always_on it k : 0 ≤ k < 64 → item_active k "" it = true → always_on it = true.
Proof.
  intros Hk Ha. destruct it as [t| |]; [|done|done]. simpl in *. apply negb_true_iff.
  apply bool_decide_eq_false_2. intros E.
  assert (k ∈ truthy_steps (t_enabled t) 64) as Hin by (by apply truthy_steps_elem).
  rewrite E in Hin. by apply elem_of_nil in Hin.
Qed.

Lemma overlap_both (a b : Technique K) h k :
  0 ≤ k < h → t_enabled a k "" = true → t_enabled b k "" = true → tech_steps_overlap a b h = true.
Proof.
  intros Hk Ha Hb. apply existsb_exists. exists k. split.
  - apply list_elem_of_In. by apply truthy_steps_elem.
  - apply bool_decide_eq_true_2. by apply truthy_steps_elem.
Qed.

Lemma seam_problem_None h (active : list (Item K)) seam p :
  seam_problem h active seam = None →
  p ∈ pairs (List.filter (λ it, bool_decide (seam ∈ item_writes it)) active) →
  clashes h p = false.
Proof.
  unfold seam_problem. intros H Hp. destruct (clashes h p) eqn:E; [|done].
  destruct (List.filter (clashes h) _) as [|q l] eqn:Ef; [|done].
  assert (In p (List.filter (clashes h) (pairs (List.filter
    (λ it, bool_decide (seam ∈ item_writes it)) active)))) as Hin.
  { apply filter_In. split; [by apply list_elem_of_In|done]. }
  by rewrite Ef in Hin.
Qed.

Lemma omap_nil {A B} (f : A → option B) l x : omap f l = [] → x ∈ l → f x = None.
Proof.
  intros H Hx. destruct (f x) as [y|] eqn:E; [|done].
  assert (y ∈ omap f l) as Hy by (apply list_elem_of_omap; eauto). rewrite H in Hy.
  by apply elem_of_nil in Hy.
Qed.

Lemma no_exclusive_clash (items : list (Item K)) h seam i j a b k :
  check_conflicts items h = [] → seam ∈ EXCLUSIVE_SEAMS → 0 ≤ k < Z.min h 64 →
  items !! i = Some a → items !! j = Some b → (i < j)%nat →
  seam ∈ item_writes a → seam ∈ item_writes b →
  item_active k "" a = true → item_active k "" b = true → False.
Proof.
  unfold check_conflicts. intros [H _]%app_nil Hs Hk Ha Hb Hij Wa Wb Aa Ab.
  apply (omap_nil _ _ _ H) in Hs.
  assert ((a, b) ∈ pairs (List.filter (λ it, bool_decide (seam ∈ item_writes it))
    (List.filter always_on items))) as Hp.
  { rewrite filter_filter. apply (pairs_filter _ _ i j); try done; apply andb_true_iff;
      (split; [apply (active_always_on _ k); [lia|done]|by apply bool_decide_eq_true_2]). }
  apply (seam_problem_None _ _ _ _ Hs) in Hp. destruct a as [a| |], b as [b| |]; try done.
  simpl in *. rewrite (overlap_both _ _ _ k) in Hp by (lia || done). done.
Qed.
End Sound.

Lemma compose_techniques {K} (items : list (Item K)) s horizon p :
  compose items s horizon = Ok p →
  p_techniques p = sort_by (λ t, phase_value (t_phase t)) (techniques_of items).
Proof.
  unfold compose. destruct (existsb _ items); [done|]. destruct (negb _); [done|].
  destruct (check_conflicts items horizon); [|done]. intros H. by injection H as <-.
Qed.

(** The plan of a list that passes the checks. *)
Definition plan_of {K} (items : list (Item K)) (s : ModelSpec K) : @Plan K :=
  mk_plan (sort_by (λ r, transform_phase_value (tr_phase r)) (transforms_of items))
    (sort_by (λ t, phase_value (t_phase t)) (techniques_of items)) s.

Lemma compose_checks {K} (items : list (Item K)) s horizon :
  check_conflicts items horizon = [] →
  forallb (λ it, bool_decide (missing s (item_required it) = [])) items = true →
  existsb (λ it, match it with IUnknown => true | _ => false end) items = false →
  compose items s horizon = Ok (plan_of items s).
Proof. intros H1 H2 H3. unfold compose. by rewrite H1, H2, H3. Qed.

(** C32 - What a composition guarantees. The plan has every technique and every transform
    of the list, each kind in the order of its phase; the model provides every capability
    they require; and at every step below the horizon (and below 64), at the default
    stage, no two items in force write the same exclusive seam. *)
Theorem compose_sound {K} (items : list (Item K)) s horizon p :
  compose items s horizon = Ok p →
  p_transforms p ≡ₚ transforms_of items ∧ p_techniques p ≡ₚ techniques_of items ∧
  StronglySorted (λ a b, transform_phase_value (tr_phase a) ≤ transform_phase_value (tr_phase b))
    (p_transforms p) ∧
  StronglySorted (λ a b, phase_value (t_phase a) ≤ phase_value (t_phase b)) (p_techniques p) ∧
  (∀ it c, it ∈ items → c ∈ item_required it → c ∈ capabilities s) ∧
  (∀ seam i j a b k, seam ∈ EXCLUSIVE_SEAMS → 0 ≤ k < Z.min horizon 64 →
     items !! i = Some a → items !! j = Some b → i ≠ j →
     seam ∈ item_writes a → seam ∈ item_writes b →
     item_active k "" a = true → item_active k "" b = true → False).
Proof.
  unfold compose. destruct (existsb _ items) eqn:Eu; [done|].
  destruct (forallb _ items) eqn:Ec; [|done]. simpl.
  destruct (check_conflicts items horizon) as [|] eqn:Ex; [|done]. intros H. injection H as <-. simpl.
  split_and!; try apply sort_by_Permutation; try apply (sort_by_Sorted _ (techniques_of items));
    try apply (sort_by_Sorted _ (transforms_of items)).
  - intros it c Hit Hc. rewrite forallb_forall in Ec. apply list_elem_of_In, Ec in Hit.
    apply bool_decide_eq_true_1 in Hit. destruct (decide (c ∈ capabilities s)); [done|].
    assert (c ∈ missing s (item_required it)) as Hm by (by apply list_elem_of_filter).
    rewrite Hit in Hm. by apply elem_of_nil in Hm.
  - intros seam i j a b k Hs Hk Ha Hb Hne Wa Wb Aa Ab. destruct (decide (i < j)%nat).
    + by apply (no_exclusive_clash items horizon seam i j a b k).
    + apply (no_exclusive_clash items horizon seam j i b a k); try done. lia.
Qed.

Module Mixed.
Definition K : Kinds := mk_kinds Z Z unit unit unit.
Definition skips : Schedule bool := at_steps "3-5" true false.
Definition cache : Technique K :=
  mk_technique "cache" ON_STEP [STEP_OUTPUT] [STEP_OUTPUT] [] skips (is_active skips)
    no_before no_after no_wrap no_step.
Definition pruner : Technique K :=
  mk_technique "prune" PRE_BLOCKS [] [TOKEN_SET] [PRUNABLE_TOKENS] (const true) (is_active (const true))
    no_before no_after no_wrap no_step.
Definition fusion : ModelTransform := mk_transform "fusion" BUILD [KERNEL_FUSION] [] (λ e, e).
Definition model : ModelSpec K := mk_spec "m" [PRUNABLE_TOKENS] None.
Definition items : list (Item K) := [ITechnique cache; ITransform fusion; ITechnique pruner].
End Mixed.

Lemma compose_sound_witness :
  compose Mixed.items Mixed.model 64 = Ok (plan_of Mixed.items Mixed.model) ∧
  p_techniques (plan_of Mixed.items Mixed.model) = [Mixed.pruner; Mixed.cache] ∧
  p_transforms (plan_of Mixed.items Mixed.model) ≡ₚ [Mixed.fusion].
Proof.
  assert (compose Mixed.items Mixed.model 64 = Ok (plan_of Mixed.items Mixed.model)) as H
    by (apply compose_checks; vm_compute; reflexivity).
  split; [exact H|]. split; [reflexivity|].
  destruct (compose_sound Mixed.items Mixed.model 64 _ H) as (H1 & _). exact H1.
Defined.
