(* ===== verification/Techniques.v ===== *)
(** * The acceleration techniques

    Models [efficiency/techniques/]: the whole-step cache ([step_cache.py]), the
    timestep-similarity cache ([teacache.py]) and token pruning ([token_prune.py]).
    Tensor arithmetic is a parameter: differences and distances of step outputs, token
    scores, [torch.topk], [torch.randperm] and the product of [int(round(n * ratio))]. *)

From S2P Require Import Prelude Codec Buffer Schedule Efficiency.
Local Open Scope string_scope.
Local Open Scope Z_scope.

(** ** The scratch store

    One Python dict whose keys are [("step_cache", key)], [("teacache", key)],
    [("teacache_signal", key)] and the bare cache key of token pruning: four maps. *)

Record TeaState (X G : Type) := mk_tea {
  prev : option G;
  acc : Qc;
  hits : Z;
  out : option X;
  since : Z;
}.
Arguments mk_tea {X G}.
Arguments prev {X G}.
Arguments acc {X G}.
Arguments hits {X G}.
Arguments out {X G}.
Arguments since {X G}.

Record Store (T X G : Type) := mk_store {
  step_cache : gmap string (X * option X);
  teacache : gmap string (TeaState X G);
  teacache_signal : gmap string G;
  previous : gmap string (list T);
}.
Arguments mk_store {T X G}.
Arguments step_cache {T X G}.
Arguments teacache {T X G}.
Arguments teacache_signal {T X G}.
Arguments previous {T X G}.

(** What [before_blocks] of the pruner hands to [after_blocks]. *)
Record PruneCarry (T : Type) := mk_carry {
  pc_start : Z;
  pc_end : Z;
  pc_idx : list Z;
  pc_full : Z;
  pc_prev : option (list T);
}.
Arguments mk_carry {T}.
Arguments pc_start {T}.
Arguments pc_end {T}.
Arguments pc_idx {T}.
Arguments pc_full {T}.
Arguments pc_prev {T}.

Section Store.
Context {T X G : Type}.
Definition set_step_cache f (s : Store T X G) : Store T X G :=
  mk_store (f (step_cache s)) (teacache s) (teacache_signal s) (previous s).
Definition set_teacache f (s : Store T X G) : Store T X G :=
  mk_store (step_cache s) (f (teacache s)) (teacache_signal s) (previous s).
Definition set_signal f (s : Store T X G) : Store T X G :=
  mk_store (step_cache s) (teacache s) (f (teacache_signal s)) (previous s).
Definition set_previous f (s : Store T X G) : Store T X G :=
  mk_store (step_cache s) (teacache s) (teacache_signal s) (f (previous s)).
End Store.

Definition DiT (T X A G : Type) : Kinds := mk_kinds T X A (PruneCarry T) (Store T X G).

(** ** The step cache *)

Section StepCache.
Context {T X A G : Type} (minus extrapolate : X → X → X).

(** [extrapolate out delta] is [out + delta_scale * delta], used when [scaled] (the
    scale is not zero). *)
Definition step_cache_on_step (enabled : Schedule bool) (scaled : bool) (ctx : Ctx (DiT T X A G))
    (run_step : M (Store T X G) X) : M (Store T X G) X :=
  p ← gets (λ s, step_cache s !! cache_key ctx);
  match p, is_active enabled ctx with
  | Some (last_out, last_delta), true =>
      mret (match last_delta with
            | Some d => if scaled then extrapolate last_out d else last_out
            | None => last_out
            end)
  | _, _ =>
      o ← run_step;
      modify (set_step_cache (<[cache_key ctx := (o, (λ q, minus o q.1) <$> p)]>)) ≫= λ _,
      mret o
  end.

(** The cache is enabled on the steps to skip. *)
Definition StepCache (skip : Schedule bool) (scaled : bool) : Technique (DiT T X A G) :=
  mk_technique "step_cache" ON_STEP [STEP_OUTPUT] [STEP_OUTPUT] [] skip (is_active skip)
    no_before no_after no_wrap (step_cache_on_step skip scaled).
End StepCache.

(** ** TeaCache *)

Record TeaParams := mk_tea_params {
  threshold : Qc;
  start_step : Z;
  coefficients : list Qc;
  max_continuous_hits : Z;
  periodic_recompute : Z;
}.

(** The defaults of the constructor. *)
Definition tea_default : TeaParams := mk_tea_params (Q2Qc (QArith_base.Qmake 4 100)) 6 [1%Qc; 0%Qc] 1 0.

Definition rescale (cs : list Qc) (x : Qc) : Qc := foldl (λ y c, y * x + c)%Qc 0%Qc cs.

Section TeaCache.
(** [(a - b).abs().mean()] and [a.abs().mean()] *)
Context {T X A G : Type} (distance : G → G → Qc) (magnitude : G → Qc).

Definition tea_init : TeaState X G := mk_tea None 0%Qc 0 None 0.

Definition relative_distance (modulated p : G) : Qc :=
  let d := magnitude p in
  (distance modulated p / (if decide (d < Q2Qc (QArith_base.Qmake 1 100000000))%Qc then Q2Qc (QArith_base.Qmake 1 100000000) else d))%Qc.

(** The previous signal the step is compared with, unless it must be computed. *)
Definition comparable (ps : TeaParams) (active : bool) (k : Z) (modulated : option G)
    (st : TeaState X G) : option (G * G) :=
  match active, modulated, prev st with
  | true, Some m, Some p =>
      if (k <? start_step ps) ||
         (negb (periodic_recompute ps =? 0) && (periodic_recompute ps <=? since st))
      then None else Some (m, p)
  | _, _, _ => None
  end.

Definition accumulate (ps : TeaParams) (mp : option (G * G)) (st : TeaState X G) : TeaState X G :=
  match mp with
  | Some (m, p) =>
      mk_tea (prev st) (acc st + rescale (coefficients ps) (relative_distance m p))%Qc
        (hits st) (out st) (since st)
  | None => st
  end.

Definition reusable (ps : TeaParams) (mp : option (G * G)) (st : TeaState X G) : bool :=
  match mp with
  | Some _ => bool_decide (acc st < threshold ps)%Qc && (hits st <? max_continuous_hits ps)
  | None => false
  end.

Definition with_prev (modulated : option G) (st : TeaState X G) : TeaState X G :=
  mk_tea (match modulated with Some m => Some m | None => prev st end)
    (acc st) (hits st) (out st) (since st).

(** The entry found in the store is updated in place, so what is written before
    [run_step] stays when [run_step] raises; a new entry is stored at the end only. *)
Definition tea_on_step (ps : TeaParams) (enabled : Schedule bool) (ctx : Ctx (DiT T X A G))
    (run_step : M (Store T X G) X) : M (Store T X G) X :=
  let key := cache_key ctx in
  found ← gets (λ s, teacache s !! key);
  modulated ← gets (λ s, teacache_signal s !! key);
  let st := default tea_init found in
  let mp := comparable ps (is_active enabled ctx) (step ctx) modulated st in
  let st := accumulate ps mp st in
  let reuse := reusable ps mp st in
  let st := with_prev modulated st in
  when (bool_decide (is_Some found)) (modify (set_teacache (<[key := st]>))) ≫= λ _,
  match reuse, out st with
  | true, Some o =>
      modify (set_teacache
        (<[key := mk_tea (prev st) (acc st) (hits st + 1) (out st) (since st + 1)]>)) ≫= λ _,
      mret o
  | _, _ =>
      o ← run_step;
      modify (set_teacache (<[key := mk_tea (prev st) 0%Qc 0 (Some o) 0]>)) ≫= λ _,
      mret o
  end.

Definition TeaCache (ps : TeaParams) (enabled : Schedule bool) : Technique (DiT T X A G) :=
  mk_technique "teacache" ON_STEP [STEP_OUTPUT] [STEP_OUTPUT] [] enabled (is_active enabled)
    no_before no_after no_wrap (tea_on_step ps enabled).
End TeaCache.

(** ** Token pruning *)

(** The tensor operations of [keep_indices]. The scores are those of one token, averaged
    over the batch. *)
Record Torch (T : Type) := mk_torch {
  sq_norm : T → Qc;
  l1_norm : T → Qc;
  linf_norm : T → Qc;
  variance : T → Qc;
  topk : list Qc → Z → list Z;
  randperm : Z → list Z;
  round_mul : Z → Qc → Z;
  zero : T;
}.
Arguments mk_torch {T}.
Arguments sq_norm {T}.
Arguments l1_norm {T}.
Arguments linf_norm {T}.
Arguments variance {T}.
Arguments topk {T}.
Arguments randperm {T}.
Arguments round_mul {T}.
Arguments zero {T}.

(** [((arange * num_tokens) // keep).clamp_(max=num_tokens - 1)] *)
Definition uniform_indices (num_tokens keep : Z) : list Z :=
  (λ i, Z.min (i * num_tokens / keep) (num_tokens - 1)) <$> seqZ 0 keep.

(** [torch.sort(l).values] *)
Definition sort_indices (l : list Z) : list Z := sort_by (λ i, i) l.

Section TokenPrune.
Context {T X A G : Type} (O : Torch T).

Definition keep_count (num_tokens : Z) (ratio : Qc) : Z :=
  Z.max 1 (Z.min num_tokens (round_mul O num_tokens ratio)).

(** The scores of the content-aware methods. *)
Definition scores (method : string) (hidden : list T) (prev_velocity : option (list T)) :
    option (list Qc) :=
  match (if bool_decide (method ∈ ["velocity"; "vel"]) then prev_velocity else None) with
  | Some v => Some (sq_norm O <$> v)
  | None =>
      if bool_decide (method ∈ ["feat_norm"; "feat"; "norm"; "feat_l2"]) then Some (sq_norm O <$> hidden)
      else if bool_decide (method = "feat_l1") then Some (l1_norm O <$> hidden)
      else if bool_decide (method ∈ ["feat_linf"; "feat_max"]) then Some (linf_norm O <$> hidden)
      else if bool_decide (method = "feat_var") then Some (variance O <$> hidden)
      else None
  end.

Definition keep_indices (method : string) (num_tokens : Z) (ratio : Qc) (hidden : list T)
    (prev_velocity : option (list T)) : list Z :=
  let keep := keep_count num_tokens ratio in
  if num_tokens <=? keep then seqZ 0 num_tokens
  else match scores method hidden prev_velocity with
       | Some sc => sort_indices (topk O sc keep)
       | None =>
           if bool_decide (method ∈ ["random"; "rand"])
           then sort_indices (take (Z.to_nat keep) (randperm O num_tokens))
           else uniform_indices num_tokens keep
       end.

(** [x.index_select(1, idx)] *)
Definition index_select (l : list T) (idx : list Z) : res (list T) :=
  res_mapM (λ i, match (if i <? 0 then None else l !! Z.to_nat i) with
                 | Some x => Ok x
                 | None => Raise IndexError
                 end) idx.

(** [full[:, idx, :] = src]: an assignment per index, a single source broadcast. *)
Fixpoint put_at (idx : list Z) (src : list T) (full : list T) : res (list T) :=
  match idx, src with
  | [], _ => Ok full
  | i :: idx, x :: src =>
      let j := if i <? 0 then i + length full else i in
      if (0 <=? j) && (j <? length full) then put_at idx src (<[Z.to_nat j := x]> full)
      else Raise IndexError
  | _ :: _, [] => Raise RuntimeError
  end.
Definition index_put (idx : list Z) (src : list T) (full : list T) : res (list T) :=
  if bool_decide (length src = length idx) then put_at idx src full
  else match src with
       | [x] => put_at idx (replicate (length idx) x) full
       | _ => Raise RuntimeError
       end.

Record PruneParams := mk_prune {
  keep_ratio : Schedule Qc;
  method : string;
  compensation : string;
}.

Definition prune_is_active (ps : PruneParams) (enabled : Schedule bool) (ctx : Ctx (DiT T X A G)) : bool :=
  is_active enabled ctx && bool_decide (keep_ratio ps (step ctx) (stage ctx) < 1)%Qc.

Definition prune_before_blocks (ps : PruneParams) (ctx : Ctx (DiT T X A G)) (hidden : list T) :
    M (Store T X G) (list T * option (PruneCarry T)) :=
  let '(a, b) := segment (spec ctx) hidden in
  let seg := py_slice hidden a b in
  let full_S := Z.of_nat (length seg) in
  let ratio := keep_ratio ps (step ctx) (stage ctx) in
  prev_full ← gets (λ s, previous s !! cache_key ctx);
  if bool_decide (prev_full = None) && bool_decide (compensation ps = "prev") then
    modify (set_previous (<[cache_key ctx := seg]>)) ≫= λ _, mret (hidden, None)
  else
    let idx := keep_indices (method ps) full_S ratio seg None in
    kept ← lift_res (index_select seg idx);
    mret ((py_slice hidden 0 a ++ kept ++ py_slice hidden b (length hidden))%list,
          Some (mk_carry a b idx full_S prev_full)).

Definition prune_after_blocks (ps : PruneParams) (ctx : Ctx (DiT T X A G)) (hidden : list T)
    (carry : option (PruneCarry T)) : M (Store T X G) (list T) :=
  match carry with
  | None =>
      let '(a, b) := segment (spec ctx) hidden in
      modify (set_previous (<[cache_key ctx := py_slice hidden a b]>)) ≫= λ _, mret hidden
  | Some c =>
      let a := pc_start c in
      let kept_len := Z.of_nat (length (pc_idx c)) in
      let kept_out := py_slice hidden a (a + kept_len) in
      let base :=
        match (if bool_decide (compensation ps = "zero") then None else pc_prev c) with
        | None => replicate (Z.to_nat (pc_full c)) (zero O)
        | Some p => p
        end in
      full ← lift_res (index_put (pc_idx c) kept_out base);
      modify (set_previous (<[cache_key ctx := full]>)) ≫= λ _,
      mret (py_slice hidden 0 a ++ full ++ py_slice hidden (a + kept_len) (length hidden))%list
  end.

Definition TokenPrune (ps : PruneParams) (enabled : Schedule bool) : Technique (DiT T X A G) :=
  mk_technique "token_prune" PRE_BLOCKS [HIDDEN_STATES] [TOKEN_SET; HIDDEN_STATES] [PRUNABLE_TOKENS]
    enabled (prune_is_active ps enabled) (prune_before_blocks ps) (prune_after_blocks ps)
    no_wrap no_step.
End TokenPrune.
