(* ===== verification/TechniquesProps.v ===== *)
(** * Properties of the acceleration techniques

    The laws assumed of the tensor operations, the kept indices of token pruning, gathering
    and scattering along them, and what each technique does to a step. *)

From Stdlib Require Import Sorting.Sorted Qround.
From stdpp Require Import sorting.
From S2P Require Import Prelude Codec Buffer BufferFacts Schedule Efficiency Techniques.
Local Open Scope string_scope.
Local Open Scope Z_scope.


(** What [torch.topk] and [torch.randperm] promise: [k] distinct indices of scores no
    other score exceeds, in any order; a permutation of the first [n] integers. *)
Class TorchOk {T} (O : Torch T) := {
  topk_ok sc k : 0 ≤ k ≤ length sc →
    NoDup (topk O sc k) ∧ length (topk O sc k) = Z.to_nat k ∧
    Forall (λ i, 0 ≤ i < length sc) (topk O sc k) ∧
    (∀ i j x y, i ∈ topk O sc k → j ∉ topk O sc k → 0 ≤ j →
       sc !! Z.to_nat i = Some x → sc !! Z.to_nat j = Some y → (y ≤ x)%Qc);
  randperm_ok n : 0 ≤ n → randperm O n ≡ₚ seqZ 0 n;
}.

(** ** Ascending index lists *)

Lemma sort_indices_Permutation l : sort_indices l ≡ₚ l.
Proof. apply sort_by_Permutation. Qed.

Lemma StronglySorted_strict (l : list Z) :
  StronglySorted Z.le l → NoDup l → StronglySorted Z.lt l.
Proof.
  induction 1 as [|x l Hs IH Hle]; intros Hnd; constructor; apply NoDup_cons in Hnd as [Hx Hnd];
    [by apply IH|].
  apply Forall_forall. intros y Hy. rewrite Forall_forall in Hle. specialize (Hle y Hy).
  assert (x ≠ y) by (by intros ->). lia.
Qed.

Lemma sort_indices_strict l : NoDup l → StronglySorted Z.lt (sort_indices l).
Proof.
  intros H. apply StronglySorted_strict; [apply (sort_by_Sorted (λ i, i))|].
  by rewrite sort_indices_Permutation.
Qed.

Lemma StronglySorted_fmap_seqZ (f : Z → Z) m n :
  (∀ i, m ≤ i → i + 1 < m + n → f i < f (i + 1)) → StronglySorted Z.lt (f <$> seqZ m n).
Proof.
  intros Hf. assert (∀ i j, m ≤ i → i < j → j < m + n → f i < f j) as Hm.
  { intros i j Hi Hij Hj. remember (Z.to_nat (j - i - 1)) as d eqn:Hd.
    revert j Hij Hj Hd. induction d as [|d IH]; intros j Hij Hj Hd.
    - replace j with (i + 1) by lia. apply Hf; lia.
    - specialize (IH (j - 1)). pose proof (Hf (j - 1)) as H1.
      replace (j - 1 + 1) with j in H1 by lia. lia. }
  clear Hf. remember (Z.to_nat n) as k eqn:Hk. revert m n Hk Hm.
  induction k as [|k IH]; intros m n Hk Hm.
  - rewrite seqZ_nil by lia. constructor.
  - rewrite seqZ_cons by lia. simpl. constructor.
    + apply IH; [lia|]. intros i j ???. apply Hm; lia.
    + apply Forall_fmap, Forall_seqZ. intros j Hj. simpl. apply Hm; lia.
Qed.

(** ** The indices kept *)

Lemma uniform_indices_strict n keep :
  1 ≤ keep ≤ n → StronglySorted Z.lt (uniform_indices n keep).
Proof.
  intros H. apply StronglySorted_fmap_seqZ. intros i Hi Hk. rewrite Z.add_0_l in Hk.
  assert (i * n / keep < (i + 1) * n / keep) as Hlt.
  { apply Z.lt_le_trans with (i * n / keep + 1); [lia|].
    rewrite <-Z.div_add by lia. apply Z.div_le_mono; [lia|]. nia. }
  assert ((i + 1) * n / keep < n) by (apply Z.div_lt_upper_bound; nia).
  lia.
Qed.

Lemma uniform_indices_range n keep :
  1 ≤ keep ≤ n → Forall (λ i, 0 ≤ i < n) (uniform_indices n keep).
Proof.
  intros H. apply Forall_fmap, Forall_seqZ. intros i Hi. simpl.
  assert (0 ≤ i * n / keep) by (apply Z.div_pos; nia). lia.
Qed.

Lemma length_uniform_indices n keep : length (uniform_indices n keep) = Z.to_nat keep.
Proof. unfold uniform_indices. by rewrite length_fmap, length_seqZ. Qed.

Lemma keep_count_bounds {T} (O : Torch T) n ratio :
  0 ≤ n → 1 ≤ keep_count O n ratio ≤ Z.max 1 n.
Proof. unfold keep_count. lia. Qed.

Section Kept.
Context {T : Type} (O : Torch T) `{!TorchOk O}.

(** What every method guarantees of the kept indices. *)
Record kept (n : Z) (idx : list Z) : Prop := {
  kept_sorted : StronglySorted Z.lt idx;
  kept_range : Forall (λ i, 0 ≤ i < n) idx;
}.

Lemma kept_sort n l : NoDup l → Forall (λ i, 0 ≤ i < n) l → kept n (sort_indices l).
Proof.
  intros Hn Hr. split; [by apply sort_indices_strict|]. by rewrite sort_indices_Permutation.
Qed.

Lemma length_scores m hidden v sc n :
  scores O m hidden v = Some sc → length hidden = n → (∀ w, v = Some w → length w = n) →
  length sc = n.
Proof.
  unfold scores. intros H Hh Hv. repeat case_match; simplify_eq; rewrite ?length_fmap; auto.
Qed.

Lemma keep_indices_spec m n ratio hidden v :
  Z.of_nat (length hidden) = n → (∀ w, v = Some w → Z.of_nat (length w) = n) →
  let idx := keep_indices O m n ratio hidden v in
  kept n idx ∧ length idx = Z.to_nat (Z.min n (keep_count O n ratio)).
Proof.
  intros Hn Hv. pose proof (keep_count_bounds O n ratio ltac:(lia)) as Hk. unfold keep_indices.
  destruct (n <=? _) eqn:E; bool_to_prop.
  { rewrite length_seqZ. split; [|lia]. split; [|apply Forall_seqZ; lia].
    rewrite <-(list_fmap_id (seqZ 0 n)). apply StronglySorted_fmap_seqZ. unfold id. lia. }
  rewrite Z.min_r by lia. destruct (scores O m hidden v) as [sc|] eqn:Es.
  { apply (length_scores _ _ _ _ (Z.to_nat n)) in Es; [|lia|intros w Hw; specialize (Hv w Hw); lia].
    destruct (topk_ok sc (keep_count O n ratio)) as (H1 & H2 & H3 & _); [lia|].
    split; [apply kept_sort; [done|]|by rewrite sort_indices_Permutation, H2].
    eapply Forall_impl; [exact H3|]. simpl. lia. }
  case_bool_decide.
  - pose proof (randperm_ok (O:=O) n ltac:(lia)) as Hp.
    assert (Hlen : length (randperm O n) = Z.to_nat n) by (by rewrite Hp, length_seqZ).
    split; [apply kept_sort|rewrite sort_indices_Permutation, length_take; lia].
    + eapply sublist_NoDup; [|apply sublist_take]. rewrite Hp. apply NoDup_seqZ.
    + apply Forall_take. rewrite Hp. apply Forall_seqZ. lia.
  - split; [split; [apply uniform_indices_strict|apply uniform_indices_range]; lia|].
    apply length_uniform_indices.
Qed.
End Kept.

(** ** Gathering and scattering *)

Section Scatter.
Context {T : Type}.
Implicit Types (l full src : list T) (idx : list Z).

Lemma index_select_ok l idx :
  Forall (λ i, 0 ≤ i < length l) idx →
  ∃ r, index_select l idx = Ok r ∧ length r = length idx ∧
    ∀ j i, idx !! j = Some i → r !! j = l !! Z.to_nat i.
Proof.
  induction 1 as [|i idx Hi _ (r & Hr & Hl & Hget)]; [by exists []|].
  destruct (lookup_lt_is_Some_2 l (Z.to_nat i)) as [x Hx]; [lia|].
  exists (x :: r). unfold index_select in *. simpl. rewrite (proj2 (Z.ltb_ge i 0)) by lia.
  rewrite Hx. simpl. rewrite Hr. simpl. split_and!; [done|lia|].
  intros [|j] k Hk; simpl in *; [by simplify_eq|by apply Hget].
Qed.

Lemma put_at_ok idx src full :
  Forall (λ i, 0 ≤ i < length full) idx → NoDup idx → length src = length idx →
  ∃ r, put_at idx src full = Ok r ∧ length r = length full ∧
    (∀ j i, idx !! j = Some i → r !! Z.to_nat i = src !! j) ∧
    (∀ d : nat, Z.of_nat d ∉ idx → r !! d = full !! d).
Proof.
  revert src full. induction idx as [|i idx IH]; intros src full Hr Hn Hl.
  { by exists full. }
  destruct src as [|x src]; [done|]. apply Forall_cons in Hr as [Hi Hr].
  apply NoDup_cons in Hn as [Hni Hn]. simpl.
  rewrite (proj2 (Z.ltb_ge i 0)), (proj2 (Z.leb_le 0 i)), (proj2 (Z.ltb_lt i _)) by lia. simpl.
  destruct (IH src (<[Z.to_nat i:=x]> full)) as (r & Hput & Hlen & Hin & Hout);
    [by rewrite length_insert|done|by injection Hl|].
  rewrite length_insert in Hlen. exists r. split_and!; [done|done| |].
  - intros [|j] k Hk; simpl in *; simplify_eq; [|by apply Hin].
    rewrite Hout by (by rewrite Z2Nat.id by lia). apply list_lookup_insert_eq. lia.
  - intros d [Hd1 Hd2]%not_elem_of_cons. rewrite Hout by done.
    apply list_lookup_insert_ne. lia.
Qed.

Lemma index_put_ok idx src full :
  Forall (λ i, 0 ≤ i < length full) idx → NoDup idx → length src = length idx →
  ∃ r, index_put idx src full = Ok r ∧ length r = length full ∧
    (∀ j i, idx !! j = Some i → r !! Z.to_nat i = src !! j) ∧
    (∀ d : nat, Z.of_nat d ∉ idx → r !! d = full !! d).
Proof. intros. unfold index_put. rewrite bool_decide_eq_true_2 by done. by apply put_at_ok. Qed.

(** A slice inside the sequence, from and to its ends included. *)
Lemma py_slice_take l (b : nat) : (b ≤ length l)%nat → py_slice l 0 b = take b l.
Proof.
  intros. unfold py_slice. rewrite !slice_bound_in by lia. simpl.
  rewrite Nat.sub_0_r, Nat2Z.id. done.
Qed.
Lemma py_slice_drop l (a : nat) : (a ≤ length l)%nat → py_slice l a (length l) = drop a l.
Proof.
  intros. unfold py_slice. rewrite !slice_bound_in by lia. rewrite !Nat2Z.id.
  apply take_ge. rewrite length_drop. lia.
Qed.
Lemma py_slice_mid l (a b : nat) :
  (a ≤ b ≤ length l)%nat → py_slice l a b = take (b - a) (drop a l).
Proof. intros. unfold py_slice. rewrite !slice_bound_in by lia. by rewrite !Nat2Z.id. Qed.

Lemma StronglySorted_lt_NoDup idx : StronglySorted Z.lt idx → NoDup idx.
Proof.
  induction 1 as [|i idx _ IH Hlt]; constructor; [|done]. intros Hin.
  rewrite Forall_forall in Hlt. specialize (Hlt _ Hin). lia.
Qed.
End Scatter.

(** ** Correctness of the acceleration techniques

    Runs of a plan over the steps of a generation: what the whole-step caches return,
    how long TeaCache may reuse an output, which tokens pruning keeps and what it puts
    in the place of the others. *)

Section Run.
Context {T X A G : Type}.
Local Abbreviation K := (DiT T X A G).

(** The outputs of a run, [f k] being what the denoiser computes at step [k]; before each
    step the model stores its TeaCache signal, if it has one. *)
Fixpoint run_plan (p : @Plan K) (ctx : Z → Ctx K) (f : Z → X) (steps : list (Z * option G)) :
    M (Store T X G) (list X) :=
  match steps with
  | [] => mret []
  | (k, sig) :: steps =>
      match sig with
      | Some g => modify (set_signal (<[cache_key (ctx k) := g]>))
      | None => mret tt
      end ≫= λ _,
      o ← plan_on_step p (ctx k) (mret (f k));
      os ← run_plan p ctx f steps;
      mret (o :: os)
  end.

(** One step through the transformer blocks. *)
Definition block_step (p : @Plan K) (ctx : Ctx K) (blocks : list T → list T) (hidden : list T) :
    M (Store T X G) (list T) :=
  '(h, carries) ← plan_before_blocks p ctx hidden;
  plan_after_blocks ctx (blocks h) carries.

Definition empty_store : Store T X G := mk_store ∅ ∅ ∅ ∅.
End Run.

(** ** Token pruning *)

Section Prune.
Context {T X A G : Type} (O : Torch T) `{!TorchOk O}.
Local Abbreviation K := (DiT T X A G).
Context (ps : PruneParams) (ctx : Ctx K) (hidden : list T) (a b : nat).
Context (Hab : (a ≤ b ≤ length hidden)%nat).
Context (Hseg : ∀ l, length l = length hidden → segment (spec ctx) l = (Z.of_nat a, Z.of_nat b)).

Definition prune_span : list T := take (b - a) (drop a hidden).
Definition prune_idx : list Z :=
  keep_indices O (method ps) (b - a)%nat (keep_ratio ps (step ctx) (stage ctx)) prune_span None.
(** Whether a step that is switched on prunes, or runs in full to fill the buffer. *)
Definition seeded (s : Store T X G) : bool :=
  bool_decide (is_Some (previous s !! cache_key ctx)) || bool_decide (compensation ps ≠ "prev").
(** What dropped tokens are replaced by. *)
Definition fill (s : Store T X G) : list T :=
  match (if bool_decide (compensation ps = "zero") then None else previous s !! cache_key ctx) with
  | None => replicate (b - a) (zero O)
  | Some q => q
  end.
Definition buffer_fits (s : Store T X G) : Prop :=
  ∀ q, previous s !! cache_key ctx = Some q → length q = (b - a)%nat.

Lemma length_prune_span : length prune_span = (b - a)%nat.
Proof using Hab. unfold prune_span. rewrite length_take, length_drop. lia. Qed.

Lemma prune_idx_kept : kept (b - a)%nat prune_idx.
Proof using Hab TorchOk0. apply keep_indices_spec; [apply _|by rewrite length_prune_span|done]. Qed.

Lemma length_fill s : buffer_fits s → length (fill s) = (b - a)%nat.
Proof.
  intros H. unfold fill. case_bool_decide; [by rewrite length_replicate|].
  destruct (previous s !! cache_key ctx) eqn:E; [by apply H|by rewrite length_replicate].
Qed.

Lemma prune_before_spec s :
  seeded s = true →
  ∃ kept, index_select prune_span prune_idx = Ok kept ∧ length kept = length prune_idx ∧
    prune_before_blocks O ps ctx hidden s =
      (Ok ((take a hidden ++ kept ++ drop b hidden)%list,
           Some (mk_carry a b prune_idx (b - a)%nat (previous s !! cache_key ctx))), s).
Proof using Hab Hseg TorchOk0.
  intros Hs. destruct (index_select_ok prune_span prune_idx) as (kept & Hk & Hl & _).
  { rewrite length_prune_span. apply (kept_range _ _ prune_idx_kept). }
  exists kept. split_and!; [done|done|]. unfold prune_before_blocks. rewrite Hseg by done.
  rewrite (py_slice_mid hidden a b) by lia. rewrite (py_slice_take hidden a) by lia.
  rewrite (py_slice_drop hidden b) by lia. fold prune_span. rewrite length_prune_span.
  fold prune_idx. unfold mbind, M_bind, gets.
  assert (bool_decide (previous s !! cache_key ctx = None) &&
          bool_decide (compensation ps = "prev") = false) as ->.
  { unfold seeded in Hs. destruct (previous s !! cache_key ctx); [done|]. simpl in *.
    apply bool_decide_eq_true_1 in Hs. by apply bool_decide_eq_false_2. }
  unfold lift_res. by rewrite Hk.
Qed.

Lemma prune_after_spec s h :
  buffer_fits s → length h = (length hidden - (b - a) + length prune_idx)%nat →
  ∃ full, length full = (b - a)%nat ∧
    prune_after_blocks O ps ctx h (Some (mk_carry a b prune_idx (b - a)%nat (previous s !! cache_key ctx))) s =
      (Ok (take a h ++ full ++ drop (a + length prune_idx) h)%list,
       set_previous (<[cache_key ctx := full]>) s) ∧
    (∀ j i, prune_idx !! j = Some i → full !! Z.to_nat i = h !! (a + j)%nat) ∧
    (∀ d : nat, Z.of_nat d ∉ prune_idx → full !! d = fill s !! d).
Proof using Hab TorchOk0.
  intros Hb Hh. destruct prune_idx_kept as [Hso Hr].
  set (m := length prune_idx) in *.
  assert (Hko : py_slice h a (a + m) = take m (drop a h)).
  { rewrite <-Nat2Z.inj_add, py_slice_mid by lia. f_equal. lia. }
  destruct (index_put_ok prune_idx (take m (drop a h)) (fill s)) as (full & Hp & Hl & Hin & Hout).
  { by rewrite length_fill. }
  { by apply StronglySorted_lt_NoDup. }
  { rewrite length_take, length_drop. lia. }
  rewrite length_fill in Hl by done. exists full. split_and!; [done| | |done].
  - unfold prune_after_blocks. cbn [pc_start pc_idx pc_full pc_prev]. fold m. rewrite Hko.
    rewrite (py_slice_take h a) by lia. rewrite <-Nat2Z.inj_add, (py_slice_drop h (a + m)) by lia.
    rewrite Nat2Z.id. fold (fill s). unfold lift_res, mbind, M_bind. by rewrite Hp.
  - intros j i Hj. rewrite (Hin j i Hj). apply lookup_lt_Some in Hj as Hjm.
    rewrite lookup_take_lt by done. apply lookup_drop.
Qed.
End Prune.

Section PruneStep.
Context {T X A G : Type} (O : Torch T) `{!TorchOk O}.
Local Abbreviation K := (DiT T X A G).
Context (ps : PruneParams) (enabled : Schedule bool) (ctx : Ctx K) (hidden : list T) (a b : nat).
Context (Hab : (a ≤ b ≤ length hidden)%nat).
Context (Hseg : ∀ l, length l = length hidden → segment (spec ctx) l = (Z.of_nat a, Z.of_nat b)).
Context (p : @Plan K) (Hp : p_techniques p = [TokenPrune O ps enabled]).
Context (blocks : list T → list T) (Hbl : ∀ l, length (blocks l) = length l).

Lemma block_step_eq s :
  block_step p ctx blocks hidden s =
    if prune_is_active ps enabled ctx then
      ('(h, c) ← prune_before_blocks O ps ctx hidden; prune_after_blocks O ps ctx (blocks h) c) s
    else (Ok (blocks hidden), s).
Proof using Hp.
  unfold block_step, plan_before_blocks, plan_after_blocks, active_in. rewrite Hp. simpl.
  destruct (prune_is_active ps enabled ctx); [|done]. simpl. unfold mbind, M_bind, mret, M_ret.
  destruct (prune_before_blocks O ps ctx hidden s) as [[[h c]|e] s1]; [|done].
  rewrite reverse_singleton. simpl. unfold mbind, M_bind.
  destruct (prune_after_blocks O ps ctx (blocks h) c s1) as [[h'|e] s2]; done.
Qed.

(** A step that fills the buffer: the blocks see every token. *)
Lemma seed_step_spec s :
  seeded ps ctx s = false → prune_is_active ps enabled ctx = true →
  ∃ q, length q = (b - a)%nat ∧
    block_step p ctx blocks hidden s =
      (Ok (blocks hidden), set_previous (<[cache_key ctx := q]>) (set_previous
         (<[cache_key ctx := prune_span hidden a b]>) s)).
Proof using Hab Hseg Hp Hbl.
  intros Hs Ha. rewrite block_step_eq, Ha.
  exists (take (b - a) (drop a (blocks hidden))). split; [rewrite length_take, length_drop, Hbl; lia|].
  unfold prune_before_blocks, prune_after_blocks. rewrite Hseg by done.
  rewrite (py_slice_mid hidden a b) by lia. unfold seeded in Hs.
  apply orb_false_iff in Hs as [H1%bool_decide_eq_false_1 H2%bool_decide_eq_false_1].
  unfold mbind, M_bind, gets. rewrite bool_decide_eq_true_2, bool_decide_eq_true_2.
  - simpl. rewrite Hseg by apply Hbl. by rewrite (py_slice_mid (blocks hidden) a b) by (rewrite Hbl; lia).
  - by apply dec_stable.
  - by apply eq_None_not_Some.
Qed.
End PruneStep.

(** C33 - Token pruning in a plan: the step never fails and keeps the sequence length,
    whatever the store holds for a sequence of this length. A step that is switched off,
    or that has yet to fill the buffer, runs the blocks on every token. Otherwise the
    blocks run on the kept tokens of the prunable span with the rest of the sequence
    around them; each kept token's result goes back to its place, the rest of the
    sequence is what the blocks made of it, and dropped tokens get what the buffer has of
    them (or zero). *)
Theorem pruned_step {T X A G} (O : Torch T) ps enabled ms hz (p : @Plan (DiT T X A G)) ctx
    blocks hidden (a b : nat) s :
  TorchOk O →
  compose [ITechnique (TokenPrune O ps enabled)] ms hz = Ok p →
  (∀ l, length (blocks l) = length l) →
  (a ≤ b ≤ length hidden)%nat →
  (∀ l, length l = length hidden → segment (spec ctx) l = (Z.of_nat a, Z.of_nat b)) →
  buffer_fits ctx a b s →
  let idx := prune_idx O ps ctx hidden a b in
  ∃ out s', block_step p ctx blocks hidden s = (Ok out, s') ∧
    length out = length hidden ∧ buffer_fits ctx a b s' ∧
    if prune_is_active ps enabled ctx && seeded ps ctx s then
      ∃ kept, index_select (prune_span hidden a b) idx = Ok kept ∧
        let result := blocks (take a hidden ++ kept ++ drop b hidden)%list in
        take a out = take a result ∧ drop b out = drop (a + length idx) result ∧
        (∀ j i, idx !! j = Some i → out !! (a + Z.to_nat i)%nat = result !! (a + j)%nat) ∧
        (∀ d : nat, (d < b - a)%nat → Z.of_nat d ∉ idx →
           out !! (a + d)%nat = fill O ps ctx a b s !! d)
    else out = blocks hidden.
Proof.
  intros HO Hc Hbl Hab Hseg Hfit. apply compose_techniques in Hc. cbn in Hc.
  destruct (prune_is_active ps enabled ctx) eqn:Ea; simpl.
  2: { exists (blocks hidden), s. rewrite (block_step_eq O ps enabled) by done. rewrite Ea.
       by rewrite Hbl. }
  destruct (seeded ps ctx s) eqn:Es.
  2: { destruct (seed_step_spec O ps enabled ctx hidden a b Hab Hseg p Hc blocks Hbl s Es Ea)
         as (q & Hq & Hrun).
       do 2 eexists. split; [exact Hrun|]. split; [apply Hbl|]. split; [|done].
       intros q'. simpl. rewrite lookup_insert_eq. intros ?. by simplify_eq. }
  destruct (prune_before_spec O ps ctx hidden a b Hab Hseg s Es) as (kept & Hk & Hkl & Hbefore).
  set (result := blocks (take a hidden ++ kept ++ drop b hidden)%list).
  assert (length result = (length hidden - (b - a) + length (prune_idx O ps ctx hidden a b))%nat) as Hres.
  { unfold result. rewrite Hbl, !length_app, length_take, length_drop, Hkl. lia. }
  destruct (prune_after_spec O ps ctx hidden a b Hab s result Hfit Hres)
    as (full & Hfl & Hafter & Hin & Hout).
  do 2 eexists. split; [|split; [|split; [|exists kept; split; [done|]]]].
  - rewrite (block_step_eq O ps enabled) by done. rewrite Ea. rewrite (bind_Ok _ _ _ _ _ Hbefore).
    exact Hafter.
  - rewrite !length_app, length_take, length_drop, Hfl. lia.
  - intros q. simpl. rewrite lookup_insert_eq. intros ?. by simplify_eq.
  - fold result. assert (length (take a result) = a) as Hta by (rewrite length_take; lia).
    split_and!.
    + rewrite take_app_le by lia. by rewrite take_take, Nat.min_id.
    + rewrite drop_app_ge, drop_app_ge by lia. rewrite Hta, Hfl.
      by replace (b - a - (b - a))%nat with 0%nat by lia.
    + intros j i Hj. rewrite lookup_app_r by lia. rewrite Hta.
      replace (a + Z.to_nat i - a)%nat with (Z.to_nat i) by lia. rewrite lookup_app_l; [by apply Hin|].
      destruct (prune_idx_kept O ps ctx hidden a b Hab) as [_ Hr].
      rewrite Forall_forall in Hr. specialize (Hr i (list_elem_of_lookup_2 _ _ _ Hj)). simpl in Hr. lia.
    + intros d Hd Hni. rewrite lookup_app_r by lia. rewrite Hta.
      replace (a + d - a)%nat with d by lia. rewrite lookup_app_l by lia. by apply Hout.
Qed.

(** The tokens [keep_indices] keeps: ascending indices of the sequence without
    repetition, [max(1, min(n, round(n * ratio)))] of them (none of an empty sequence),
    and for the content-aware methods no dropped token scores higher than a kept one. *)
Theorem kept_tokens {T} (O : Torch T) m (n : Z) ratio hidden v :
  TorchOk O → Z.of_nat (length hidden) = n → (∀ w, v = Some w → Z.of_nat (length w) = n) →
  let idx := keep_indices O m n ratio hidden v in
  StronglySorted Z.lt idx ∧ Forall (λ i, 0 ≤ i < n) idx ∧
  Z.of_nat (length idx) = Z.min n (Z.max 1 (Z.min n (round_mul O n ratio))) ∧
  (∀ sc i j x y, scores O m hidden v = Some sc → i ∈ idx → j ∉ idx → 0 ≤ j →
     sc !! Z.to_nat i = Some x → sc !! Z.to_nat j = Some y → (y ≤ x)%Qc).
Proof.
  intros HO Hn Hv. destruct (keep_indices_spec O m n ratio hidden v Hn Hv) as [[H1 H2] H3].
  split_and!; [done|done|rewrite H3; unfold keep_count; lia|].
  intros sc i j x y Hs Hi Hj H0 Hx Hy. revert Hi Hj. unfold keep_indices. rewrite Hs.
  assert (length sc = Z.to_nat n) as Hl.
  { apply (length_scores O m hidden v sc); [done|lia|]. intros w Hw. specialize (Hv w Hw). lia. }
  apply lookup_lt_Some in Hy as Hjl. destruct (n <=? keep_count O n ratio) eqn:E; bool_to_prop.
  - intros _ []. apply elem_of_seqZ. lia.
  - rewrite !sort_indices_Permutation. intros Hi Hj.
    pose proof (keep_count_bounds O n ratio ltac:(lia)).
    destruct (topk_ok sc (keep_count O n ratio)) as (_ & _ & _ & Ht); [lia|]. by eapply Ht.
Qed.

(** ** The step cache *)

(** The first step of a run that the cache is to skip. *)
Definition first_skip {G} (skip : Schedule bool) (stg : string) (steps : list (Z * option G)) : Z :=
  default 0 (head (List.filter (λ k, skip k stg) steps.*1)).

Section StepCacheRun.
Context {T X A G : Type} (minus extrapolate : X → X → X) (skip : Schedule bool) (scaled : bool).
Local Abbreviation K := (DiT T X A G).
Context (p : @Plan K) (Hp : p_techniques p = [StepCache minus extrapolate skip scaled]).
Context (ms : ModelSpec K) (stg key : string) (f : Z → X).
Local Abbreviation ctx := (λ k, mk_ctx k stg ms key).

Lemma step_cache_plan_step k s :
  plan_on_step p (ctx k) (mret (f k)) s =
    if skip k stg then
      match step_cache s !! key with
      | Some (o, d) => (Ok (match d with Some d => if scaled then extrapolate o d else o | None => o end), s)
      | None => (Ok (f k), set_step_cache (<[key := (f k, None)]>) s)
      end
    else (Ok (f k), s).
Proof using Hp.
  unfold plan_on_step, active_in. rewrite Hp. simpl. unfold is_active. simpl.
  destruct (skip k stg) eqn:E; [|done]. simpl. unfold step_cache_on_step, is_active. simpl.
  unfold mbind, M_bind, gets. rewrite E.
  by destruct (step_cache s !! key) as [[o d]|].
Qed.

Lemma run_cached steps s x :
  step_cache s !! key = Some (x, None) →
  ∃ s', run_plan p ctx f steps s = (Ok ((λ k, if skip k.1 stg then x else f k.1) <$> steps), s').
Proof using Hp.
  revert s. induction steps as [|[k sig] steps IH]; intros s Hs; [by eexists|].
  set (s1 := match sig with Some g => set_signal (<[key:=g]>) s | None => s end).
  assert (step_cache s1 !! key = Some (x, None)) as Hs1 by (by destruct sig).
  destruct (IH s1 Hs1) as [s' IHs]. exists s'. simpl. unfold mbind, M_bind.
  assert (match sig with Some g => modify (set_signal (<[key:=g]>)) | None => mret tt end s
          = (Ok tt, s1)) as -> by (by destruct sig).
  cbv beta. rewrite step_cache_plan_step, Hs1. destruct (skip k stg); simpl; by rewrite IHs.
Qed.

Lemma run_uncached steps s :
  step_cache s !! key = None →
  ∃ s', run_plan p ctx f steps s =
    (Ok ((λ k, if skip k.1 stg then f (first_skip skip stg steps) else f k.1) <$> steps), s').
Proof using Hp.
  revert s. induction steps as [|[k sig] steps IH]; intros s Hs; [by eexists|].
  set (s1 := match sig with Some g => set_signal (<[key:=g]>) s | None => s end).
  assert (step_cache s1 !! key = None) as Hs1 by (by destruct sig).
  simpl. unfold mbind, M_bind.
  assert (match sig with Some g => modify (set_signal (<[key:=g]>)) | None => mret tt end s
          = (Ok tt, s1)) as -> by (by destruct sig).
  cbv beta. rewrite step_cache_plan_step, Hs1. unfold first_skip. simpl.
  destruct (skip k stg) eqn:E; simpl.
  - destruct (run_cached steps (set_step_cache (<[key:=(f k, None)]>) s1) (f k)) as [s' Hr];
      [apply lookup_insert_eq|]. exists s'. by rewrite Hr.
  - destruct (IH s1 Hs1) as [s' Hr]. exists s'. by rewrite Hr.
Qed.
End StepCacheRun.

(** A step cache run by a plan reuses a stale output. The plan calls the cache's
    hook on the skip steps only, so the cache is never fed the outputs in between: the
    first skip step is computed, and every later skip step returns that output again
    (not the previous step's), without extrapolation whatever the scale. *)
Theorem step_cache_stale {T X A G} (minus extrapolate : X → X → X) skip scaled ms hz
    (p : @Plan (DiT T X A G)) stg key f steps :
  compose [ITechnique (StepCache minus extrapolate skip scaled)] ms hz = Ok p →
  (run_plan p (λ k, mk_ctx k stg ms key) f steps empty_store).1 =
    Ok ((λ k, if skip k.1 stg then f (first_skip skip stg steps) else f k.1) <$> steps).
Proof.
  intros H%compose_techniques.
  destruct (run_uncached minus extrapolate skip scaled p H ms stg key f steps empty_store)
    as [s' Hr]; [done|]. by rewrite Hr.
Qed.

(** ** TeaCache *)

(** What TeaCache promises, on its own state: the step whose output is cached, the number
    of reuses since, the distance accumulated since, and the last signal seen. An output
    may be reused from the first step on that allows it, a bounded number of times, while
    the accumulated distance stays below the threshold. *)
Section TeaSpec.
Context {G : Type} (distance : G → G → Qc) (magnitude : G → Qc) (ps : TeaParams) (on : Z → bool).

(** What is cached: the step that was computed, the reuses and the distance since, the signal
    last compared with. *)
Local Abbreviation Cached := (option (Z * Z * Qc * option G)).

Definition may_reuse (n : Z) (d : Qc) (q : G) (k : Z) (g : G) : Prop :=
  start_step ps ≤ k ∧ n < max_continuous_hits ps ∧
  (periodic_recompute ps = 0 ∨ n < periodic_recompute ps) ∧
  (d + rescale (coefficients ps) (relative_distance distance magnitude g q) < threshold ps)%Qc.

(** With the signal [sig], step [k] reuses the output of step [l]. *)
Definition reuses (c : Cached) (k : Z) (sig : option G) (l : Z) (c' : Cached) : Prop :=
  ∃ n d q g, c = Some (l, n, d, Some q) ∧ sig = Some g ∧ may_reuse n d q k g ∧
    c' = Some (l, n + 1, (d + rescale (coefficients ps) (relative_distance distance magnitude g q))%Qc, Some g).

Definition seen (sig : option G) (c : Cached) : option G :=
  match sig, c with Some g, _ => Some g | None, Some (_, _, _, q) => q | None, None => None end.
Definition latest (g sig : option G) : option G := match g with Some _ => g | None => sig end.

(** [replays sig c steps srcs]: from the cached state [c], with [sig] the last signal
    published, the outputs of [steps] are those computed at the steps [srcs]. A step
    publishes a signal or none. *)
Inductive replays : option G → Cached → list (Z * option G) → list Z → Prop :=
  | replays_nil sig c : replays sig c [] []
  | replays_off sig c k g steps srcs :
      on k = false → replays (latest g sig) c steps srcs → replays sig c ((k, g) :: steps) (k :: srcs)
  | replays_compute sig c k g steps srcs :
      on k = true → (∀ l c', ¬ reuses c k (latest g sig) l c') →
      replays (latest g sig) (Some (k, 0, 0%Qc, seen (latest g sig) c)) steps srcs →
      replays sig c ((k, g) :: steps) (k :: srcs)
  | replays_reuse sig c k g l c' steps srcs :
      on k = true → reuses c k (latest g sig) l c' → replays (latest g sig) c' steps srcs →
      replays sig c ((k, g) :: steps) (l :: srcs).
End TeaSpec.

Section TeaRun.
Context {T X A G : Type} (distance : G → G → Qc) (magnitude : G → Qc).
Context (ps : TeaParams) (enabled : Schedule bool).
Local Abbreviation K := (DiT T X A G).
Context (p : @Plan K) (Hp : p_techniques p = [TeaCache distance magnitude ps enabled]).
Context (ms : ModelSpec K) (stg key : string) (f : Z → X).
Local Abbreviation ctx := (λ k, mk_ctx k stg ms key).

(** The store entry that stands for a cached state. *)
Definition tea_entry (c : option (Z * Z * Qc * option G)) : option (TeaState X G) :=
  (λ '(l, n, d, q), mk_tea q d n (Some (f l)) n) <$> c.

Lemma tea_plan_step k s :
  plan_on_step p (ctx k) (mret (f k)) s =
    if enabled k stg then tea_on_step distance magnitude ps enabled (ctx k) (mret (f k)) s
    else (Ok (f k), s).
Proof using Hp.
  unfold plan_on_step, active_in. rewrite Hp. simpl. unfold is_active. simpl.
  by destruct (enabled k stg).
Qed.

Lemma may_reuse_dec n d q k g :
  may_reuse distance magnitude ps n d q k g ↔
  negb ((k <? start_step ps) || (negb (periodic_recompute ps =? 0) && (periodic_recompute ps <=? n))) &&
  (bool_decide (d + rescale (coefficients ps) (relative_distance distance magnitude g q) < threshold ps)%Qc
   && (n <? max_continuous_hits ps)) = true.
Proof.
  unfold may_reuse. rewrite !andb_true_iff, negb_true_iff, orb_false_iff, andb_false_iff,
    negb_false_iff, bool_decide_eq_true, Z.ltb_ge, Z.leb_gt, Z.eqb_eq, Z.ltb_lt. tauto.
Qed.

Lemma tea_step_fresh k sig s c :
  enabled k stg = true → teacache s !! key = tea_entry c → teacache_signal s !! key = sig →
  comparable ps true k sig (default tea_init (tea_entry c)) = None →
  ∃ s', tea_on_step distance magnitude ps enabled (ctx k) (mret (f k)) s = (Ok (f k), s') ∧
    teacache s' !! key = tea_entry (Some (k, 0, 0%Qc, seen sig c)) ∧ teacache_signal s' = teacache_signal s.
Proof.
  intros He Hc Hs Hcmp. unfold tea_on_step, mbind, M_bind, gets. simpl. rewrite Hc, Hs. unfold is_active. simpl. rewrite He, Hcmp. simpl.
  destruct c as [[[[l n] d] q]|]; simpl; (eexists; split; [done|]; split; [|done]); simpl; rewrite lookup_insert_eq; by destruct sig.
Qed.

Lemma tea_step_cached k g s l n d q :
  enabled k stg = true → teacache s !! key = tea_entry (Some (l, n, d, Some q)) → teacache_signal s !! key = Some g →
  (k <? start_step ps) || (negb (periodic_recompute ps =? 0) && (periodic_recompute ps <=? n)) = false →
  ∃ s', tea_on_step distance magnitude ps enabled (ctx k) (mret (f k)) s =
      (Ok (f (if bool_decide (d + rescale (coefficients ps) (relative_distance distance magnitude g q) < threshold ps)%Qc &&
                 (n <? max_continuous_hits ps) then l else k)), s') ∧ teacache_signal s' = teacache_signal s ∧
    teacache s' !! key = tea_entry (Some
      (if bool_decide (d + rescale (coefficients ps) (relative_distance distance magnitude g q) < threshold ps)%Qc && (n <? max_continuous_hits ps)
       then (l, n + 1, (d + rescale (coefficients ps) (relative_distance distance magnitude g q))%Qc, Some g)
       else (k, 0, 0%Qc, Some g))).
Proof.
  intros He Hc Hs Hf. unfold tea_on_step, mbind, M_bind, gets. simpl. rewrite Hc, Hs. unfold comparable, is_active, accumulate, reusable. simpl.
  rewrite He, Hf. simpl. destruct (bool_decide _ && _); simpl; (eexists; split; [done|]; split; [done|]); apply lookup_insert_eq.
Qed.

(** One enabled step does what [replays] says. *)
Lemma tea_step k sig s c :
  enabled k stg = true → teacache s !! key = tea_entry c → teacache_signal s !! key = sig →
  ∃ l c' s', tea_on_step distance magnitude ps enabled (ctx k) (mret (f k)) s = (Ok (f l), s') ∧
    teacache s' !! key = tea_entry c' ∧ teacache_signal s' !! key = sig ∧
    (reuses distance magnitude ps c k sig l c' ∨
     l = k ∧ c' = Some (k, 0, 0%Qc, seen sig c) ∧ ∀ l0 c0, ¬ reuses distance magnitude ps c k sig l0 c0).
Proof.
  intros He Hc Hs. destruct (comparable ps true k sig (default tea_init (tea_entry c))) as [[g q]|] eqn:Ecmp.
  - destruct c as [[[[l n] d] [q'|]]|], sig as [g'|]; try done. simpl in Ecmp. destruct (_ || _) eqn:Ef; [done|]. injection Ecmp as -> ->.
    destruct (tea_step_cached k g s l n d q He Hc Hs Ef) as (s' & E & Hsig & Hent). pose proof (may_reuse_dec n d q k g) as Hdec. rewrite Ef in Hdec.
    destruct (bool_decide _ && _); eexists _, _, s'; (split; [exact E|]; split; [exact Hent|]; split; [by rewrite Hsig|]).
    + left. exists n, d, q, g. split_and!; try done. by apply Hdec.
    + right. split_and!; try done. intros l0 c0 (n0 & d0 & q0 & g0 & E1 & E2 & Hm & _). simplify_eq. by apply Hdec in Hm.
  - destruct (tea_step_fresh k sig s c He Hc Hs Ecmp) as (s' & E & Hent & Hsig). eexists k, _, s'. split; [exact E|]. split; [exact Hent|].
    split; [by rewrite Hsig|]. right. split_and!; try done. intros l0 c0 (n0 & d0 & q0 & g0 & -> & -> & Hm%may_reuse_dec & _).
    simpl in Ecmp. destruct (_ || _); [|done]. done.
Qed.

Lemma tea_run_replays steps s c :
  teacache s !! key = tea_entry c →
  ∃ srcs s', run_plan p ctx f steps s = (Ok (f <$> srcs), s') ∧
    replays distance magnitude ps (λ k, enabled k stg) (teacache_signal s !! key) c steps srcs.
Proof using Hp.
  revert s c. induction steps as [|[k g] steps IH]; intros s c Hc.
  { exists [], s. split; [done|constructor]. }
  set (s1 := match g with Some g => set_signal (<[key:=g]>) s | None => s end).
  assert (teacache s1 !! key = tea_entry c) as Hc1 by (by destruct g).
  assert (teacache_signal s1 !! key = latest g (teacache_signal s !! key)) as Hg by (destruct g; [apply lookup_insert_eq|done]).
  assert (∀ A (m : unit → M (Store T X G) A), (match g with Some g => modify (set_signal (<[key:=g]>)) | None => mret tt end ≫= m) s = m tt s1)
    as Hpub by (intros A0 m; by destruct g).
  cbn [run_plan cache_key]. rewrite Hpub. unfold mbind, M_bind. rewrite tea_plan_step. destruct (enabled k stg) eqn:He.
  2: { destruct (IH s1 c Hc1) as (srcs & s' & Hr & Hrep). rewrite Hr. exists (k :: srcs), s'. rewrite Hg in Hrep.
       split; [done|]. by apply replays_off. }
  destruct (tea_step k _ s1 c He Hc1 Hg) as (l & c' & s2 & Hr & Hc2 & Hs2 & Hcase). rewrite Hr.
  destruct (IH s2 c' Hc2) as (srcs & s' & Hr' & Hrep). rewrite Hr', Hs2 in *. exists (l :: srcs), s'. split; [done|].
  destruct Hcase as [Hre|(-> & -> & Hno)]; [by eapply replays_reuse|by apply replays_compute].
Qed.
End TeaRun.

(** C34 - TeaCache in a plan implements its specification: a run returns, and its outputs
    are those computed at the steps [replays] allows. In particular an output is reused
    only at an enabled step not before [start_step], at most [max_continuous_hits] times
    in a row and at most [periodic_recompute] times (unless that is zero), and only while
    the distance accumulated since it was computed is below the threshold. A step may
    publish a signal or none; the last one published is compared. *)
Theorem teacache_refines {T X A G} distance magnitude ps enabled ms hz
    (p : @Plan (DiT T X A G)) stg key f steps :
  compose [ITechnique (TeaCache distance magnitude ps enabled)] ms hz = Ok p →
  ∃ srcs, (run_plan p (λ k, mk_ctx k stg ms key) f steps empty_store).1 = Ok (f <$> srcs) ∧
    replays distance magnitude ps (λ k, enabled k stg) None None steps srcs.
Proof.
  intros H%compose_techniques.
  destruct (tea_run_replays distance magnitude ps enabled p H ms stg key f steps empty_store None)
    as (srcs & s' & Hr & Hrep); [done|]. exists srcs. by rewrite Hr.
Qed.

(** ** Concrete operations and runs *)

Module Tensors.
(** The scores in descending order, ties in any order. *)
Definition above (sc : list Qc) (i j : Z) : Prop :=
  (default 0%Qc (sc !! Z.to_nat j) ≤ default 0%Qc (sc !! Z.to_nat i))%Qc.
#[local] Instance above_dec sc : RelDecision (above sc).
Proof. intros i j. unfold above. apply _. Defined.
#[local] Instance above_trans sc : Transitive (above sc).
Proof. intros i j k H1 H2. unfold above in *. by eapply Qcle_trans. Qed.
#[local] Instance above_total sc : Total (above sc).
Proof.
  intros i j. unfold above. destruct (Qclt_le_dec (default 0%Qc (sc !! Z.to_nat i))
    (default 0%Qc (sc !! Z.to_nat j))) as [H|H]; [right; by apply Qclt_le_weak|by left].
Qed.

Definition best (sc : list Qc) (k : Z) : list Z :=
  take (Z.to_nat k) (merge_sort (above sc) (seqZ 0 (length sc))).

(** Tokens that are integers. *)
Definition ops : Torch Z :=
  mk_torch (λ z, Qc_of_Z (z * z)) (λ z, Qc_of_Z (Z.abs z)) (λ z, Qc_of_Z (Z.abs z)) (λ _, 0%Qc)
    best (seqZ 0) (λ n r, Qfloor (this (Qc_of_Z n * r)%Qc)) 0.

Lemma StronglySorted_split {A} (R : A → A → Prop) l1 l2 i j :
  StronglySorted R (l1 ++ l2)%list → i ∈ l1 → j ∈ l2 → R i j.
Proof.
  induction l1 as [|x l1 IH]; simpl; intros Hs Hi Hj; [by apply elem_of_nil in Hi|].
  apply StronglySorted_inv in Hs as [Hs Hx]. apply elem_of_cons in Hi as [->|Hi]; [|by apply IH].
  rewrite Forall_forall in Hx. apply Hx, elem_of_app. by right.
Qed.

#[global] Instance ops_ok : TorchOk ops.
Proof.
  split; [|done]. intros sc k Hk. simpl. unfold best.
  set (l := merge_sort (above sc) (seqZ 0 (length sc))).
  assert (l ≡ₚ seqZ 0 (length sc)) as Hp by apply merge_sort_Permutation.
  assert (StronglySorted (above sc) l) as Hs by (apply StronglySorted_merge_sort; apply _).
  assert (length l = length sc) as Hl by (rewrite Hp, length_seqZ; lia).
  split_and!.
  - eapply sublist_NoDup; [|apply sublist_take]. rewrite Hp. apply NoDup_seqZ.
  - rewrite length_take, Hl. lia.
  - apply Forall_take. rewrite Hp. apply Forall_seqZ. lia.
  - intros i j x y Hi Hj H0 Hx Hy. rewrite <-(take_drop (Z.to_nat k) l) in Hs.
    assert (j ∈ drop (Z.to_nat k) l) as Hd.
    { assert (j ∈ l) as Hin.
      { rewrite Hp. apply elem_of_seqZ. apply lookup_lt_Some in Hy. lia. }
      rewrite <-(take_drop (Z.to_nat k) l) in Hin. apply elem_of_app in Hin as [?|?]; done. }
    pose proof (StronglySorted_split _ _ _ _ _ Hs Hi Hd) as H. unfold above in H.
    by rewrite Hx, Hy in H.
Qed.
End Tensors.

Module Runs.
Definition K : Kinds := DiT Z Z unit Z.
(** A model that keeps the first token of four. *)
Definition model : ModelSpec K := mk_spec "m" [PRUNABLE_TOKENS] (Some (λ l, (1, Z.of_nat (length l)))).
Definition ctx : Ctx K := mk_ctx 1 "" model "c".
Definition half : PruneParams := mk_prune (const (Q2Qc (QArith_base.Qmake 2 3))) "feat_norm" "prev".
Definition pruner : Technique K := TokenPrune Tensors.ops half (const true).
Definition prune_plan : @Plan K := plan_of [ITechnique pruner] model.
Definition full_buffer : Store Z Z Z := set_previous (<["c" := [10; 20; 30]]>) empty_store.

Definition skips : Schedule bool := at_steps "1-2,5" true false.
Definition cache : Technique K := StepCache Z.sub Z.add skips true.
Definition cache_plan : @Plan K := plan_of [ITechnique cache] model.

Definition params : TeaParams := mk_tea_params 1%Qc 1 [1%Qc; 0%Qc] 1 0.
Definition distance (a b : Z) : Qc := Qc_of_Z (Z.abs (a - b)).
Definition magnitude (a : Z) : Qc := Qc_of_Z (Z.abs a).
Definition tea : Technique K := TeaCache distance magnitude params (const true).
Definition tea_plan : @Plan K := plan_of [ITechnique tea] model.
Definition signals : list (Z * option Z) := [(0, Some 10); (1, Some 11); (2, Some 12); (3, Some 30); (4, Some 90)].
(** [periodic_recompute] is one. *)
Definition each_plan : @Plan K := plan_of [ITechnique (TeaCache distance magnitude (mk_tea_params 1%Qc 1 [1%Qc; 0%Qc] 1 1) (const true))] model.
End Runs.

Lemma pruned_step_witness :
  compose [ITechnique Runs.pruner] Runs.model 64 = Ok Runs.prune_plan ∧
  (block_step Runs.prune_plan Runs.ctx (map (Z.add 100)) [5; 1; 7; 3] Runs.full_buffer).1 =
    Ok [105; 10; 107; 103] ∧
  ∃ out s', block_step Runs.prune_plan Runs.ctx (map (Z.add 100)) [5; 1; 7; 3] Runs.full_buffer =
    (Ok out, s') ∧ length out = 4%nat.
Proof.
  assert (compose [ITechnique Runs.pruner] Runs.model 64 = Ok Runs.prune_plan) as H
    by (apply compose_checks; vm_compute; reflexivity).
  split; [exact H|]. split; [vm_compute; reflexivity|].
  destruct (pruned_step Tensors.ops Runs.half (const true) Runs.model 64 Runs.prune_plan Runs.ctx
    (map (Z.add 100)) [5; 1; 7; 3] 1 4 Runs.full_buffer) as (out & s' & H1 & H2 & _).
  - apply _.
  - exact H.
  - intros l. apply length_map.
  - simpl. lia.
  - intros l Hl. change (segment (spec Runs.ctx) l) with (1, Z.of_nat (@length Z l)).
    by rewrite (Hl : @length Z l = 4%nat).
  - intros q Hq. unfold Runs.full_buffer in Hq. simpl in Hq. rewrite lookup_insert_eq in Hq.
    by injection Hq as <-.
  - exists out, s'. split; [exact H1|exact H2].
Defined.

Lemma kept_tokens_witness :
  keep_indices Tensors.ops "feat_norm" 3 (Q2Qc (QArith_base.Qmake 2 3)) [1; 7; 3] None = [1; 2] ∧
  Forall (λ i, 0 ≤ i < 3)
    (keep_indices Tensors.ops "feat_norm" 3 (Q2Qc (QArith_base.Qmake 2 3)) [1; 7; 3] None).
Proof.
  split; [vm_compute; reflexivity|].
  destruct (kept_tokens Tensors.ops "feat_norm" 3 (Q2Qc (QArith_base.Qmake 2 3)) [1; 7; 3] None)
    as (_ & H & _); [apply _|done|done|exact H].
Defined.

Lemma step_cache_stale_witness :
  compose [ITechnique Runs.cache] Runs.model 64 = Ok Runs.cache_plan ∧
  (run_plan Runs.cache_plan (λ k, mk_ctx k "" Runs.model "c") (λ k, 10 * k)
    ((λ k, (k, None)) <$> [0; 1; 2; 3; 4; 5]) empty_store).1 = Ok [0; 10; 10; 30; 40; 10].
Proof.
  assert (compose [ITechnique Runs.cache] Runs.model 64 = Ok Runs.cache_plan) as H
    by (apply compose_checks; vm_compute; reflexivity).
  split; [exact H|].
  rewrite (step_cache_stale Z.sub Z.add Runs.skips true Runs.model 64 Runs.cache_plan "" "c"
    (λ k, 10 * k) ((λ k, (k, None)) <$> [0; 1; 2; 3; 4; 5]) H). vm_compute. reflexivity.
Defined.

Lemma teacache_refines_witness :
  compose [ITechnique Runs.tea] Runs.model 64 = Ok Runs.tea_plan ∧
  (run_plan Runs.tea_plan (λ k, mk_ctx k "" Runs.model "c") (λ k, 100 + k) Runs.signals empty_store).1 = Ok [100; 100; 102; 103; 104] ∧
  ∃ srcs, replays Runs.distance Runs.magnitude Runs.params (λ k, const true k "") None None Runs.signals srcs.
Proof.
  assert (compose [ITechnique Runs.tea] Runs.model 64 = Ok Runs.tea_plan) as H
    by (apply compose_checks; vm_compute; reflexivity).
  split; [exact H|]. split; [vm_compute; reflexivity|].
  destruct (teacache_refines Runs.distance Runs.magnitude Runs.params (const true) Runs.model 64
    Runs.tea_plan "" "c" (λ k, 100 + k) Runs.signals H) as (srcs & _ & Hr). exists srcs. exact Hr.
Defined.

(** [periodic_recompute] counts reuses: at one, every second step is still reused, where the
    documentation of the parameter asks for a computation every step. *)
Lemma periodic_one_reuses :
  (run_plan Runs.each_plan (λ k, mk_ctx k "" Runs.model "c") (λ k, 100 + k)
     [(0, Some 10); (1, Some 10); (2, Some 10); (3, Some 10)] empty_store).1 = Ok [100; 100; 102; 102].
Proof. vm_compute. reflexivity. Qed.
