(* ===== verification/Presets.v ===== *)
(** * Transforms, registries and presets

    Models [efficiency/transforms/], [registry.py], [models/] and [presets.py]: the
    environment each build-time transform sets, the registries with what importing the
    package puts in them, and the full-optimisation preset for LTX-2. [str] of a float is
    a parameter. *)

From S2P Require Import Prelude PyJson Codec Schedule Efficiency Techniques.
Local Open Scope string_scope.
Local Open Scope Z_scope.

(** ** Transforms *)

Definition KWL_FLAGS : list string :=
  ["SHARE_BLOCK0_SELF_ATTN"; "SHARE_GUIDANCE_PREFIX"; "FUSED_QK_ROPE"; "FUSED_RMS_ADALN";
   "FUSED_ADALN"; "FUSED_QKNORM_ROPE"; "FUSED_DUAL_MODULATE"; "FUSED_CA_DUAL_MODULATE";
   "FUSED_ADA_VALUES_ALL"; "FUSED_RESIDUAL_GATE"; "FUSED_FFN_PROJ_IN_GELU";
   "COMPILE_GATE_TO_OUT"; "FUSED_AUDIO_QKVG"; "ENABLE_FUSED_QKNORM_ROPE"; "COMPILE_TILED_VAE"].

Definition kwl_set_env (flags : list string) (e : dict string) : dict string :=
  foldl (λ e f, dset ("SGLANG_HQ_KWL_" +:+ f) "1" e) e flags.
Definition KWLFusions (flags : option (list string)) : ModelTransform :=
  mk_transform "kwl_fusions" BUILD [KERNEL_FUSION] [] (kwl_set_env (default KWL_FLAGS flags)).

Definition flag (b : bool) : string := if b then "1" else "0".
Definition nvfp4_set_env (disable_rht disable_stochastic_rounding disable_2d_quantization : bool)
    (e : dict string) : dict string :=
  let e := dset "SGLANG_HQ_ENABLE_TE_NVFP4_FFN" "1" e in
  let e := dset "SGLANG_LTX2_TE_NVFP4_VIDEO_FFN" "1" e in
  let e := dset "SGLANG_LTX2_TE_NVFP4_DISABLE_RHT" (flag disable_rht) e in
  let e := dset "SGLANG_LTX2_TE_NVFP4_DISABLE_STOCHASTIC_ROUNDING" (flag disable_stochastic_rounding) e in
  dset "SGLANG_LTX2_TE_NVFP4_DISABLE_2D_QUANTIZATION" (flag disable_2d_quantization) e.
Definition NVFP4FFN (disable_rht disable_stochastic_rounding disable_2d_quantization : bool) :
    ModelTransform :=
  mk_transform "nvfp4_ffn" LOAD [FFN_PRECISION] []
    (nvfp4_set_env disable_rht disable_stochastic_rounding disable_2d_quantization).

Section SparseAttention.
Context (str_float : Qc → string).

Record SparseParams := mk_sparse {
  sparsity : Qc;
  block_size : Z;
  only_video_self : bool;
  component : string;
  stage1_dense : bool;
  dense_steps : Z;
  route_mode : string;
  dense_fallback : string;
  stage2_dense_layers : string;
}.

(** [str(b).lower()] *)
Definition lower_bool (b : bool) : string := if b then "true" else "false".

Definition backends (c : string) : dict string :=
  dset c "piecewise_attn" [("transformer", "fa"); ("transformer_2", "fa")].

Definition sparse_config (s : SparseParams) : string :=
  "piecewise_sparsity=" +:+ str_float (sparsity s) +:+ "," +:+
  "piecewise_block_size=" +:+ dumps_int (block_size s) +:+ "," +:+
  "piecewise_only_video_self_attention=" +:+ lower_bool (only_video_self s) +:+ "," +:+
  "piecewise_stage1_schedule=" +:+ lower_bool (stage1_dense s) +:+ "," +:+
  "piecewise_stage1_dense_steps=" +:+ dumps_int (dense_steps s) +:+ "," +:+
  "piecewise_stage2_dense_layers=" +:+ stage2_dense_layers s +:+ "," +:+
  "piecewise_approx_remainder=true," +:+
  "piecewise_route_mode=" +:+ route_mode s +:+ "," +:+
  "piecewise_dense_fallback=" +:+ dense_fallback s.

Definition sparse_set_env (s : SparseParams) (e : dict string) : dict string :=
  let e := dset "SGLANG_HQ_COMPONENT_ATTENTION_BACKENDS"
             (String.concat "," ((λ kv, kv.1 +:+ "=" +:+ kv.2) <$> backends (component s))) e in
  dset "SGLANG_HQ_ATTENTION_BACKEND_CONFIG" (sparse_config s) e.
Definition SparseAttention (s : SparseParams) : ModelTransform :=
  mk_transform "sparse_attention" BUILD [ATTENTION_BACKEND] [SWAPPABLE_ATTENTION] (sparse_set_env s).
End SparseAttention.

(** ** Registries

    A registry maps names to factories; registering a name again replaces its factory. *)
Definition register {F} (name : string) (factory : F) (r : dict F) : dict F := dset name factory r.

(** [build_technique] and [build_transform], before the factory is called. *)
Definition build {F} (r : dict F) (name : string) : res F :=
  match dget name r with Some f => Ok f | None => Raise KeyError end.

Definition register_model_spec {F} (keys : list string) (factory : F) (r : dict F) : dict F :=
  foldl (λ r k, register k factory r) r keys.

(** [get_model_spec], by class name or explicit key. *)
Definition get_model_spec {F} (r : dict F) (key : string) : option F := dget key r.
Definition is_supported {F} (r : dict F) (key : string) : bool :=
  bool_decide (is_Some (get_model_spec r key)).

Section Models.
Context {K : Kinds}.
Definition whole_sequence (hidden : list (Token K)) : Z * Z := (0, Z.of_nat (length hidden)).

Definition ltx2_spec : ModelSpec K :=
  mk_spec "LTX2" [BLOCKS; PRUNABLE_TOKENS; SWAPPABLE_ATTENTION; RESIDUAL_TUPLE] (Some whole_sequence).
Definition sana_video_spec : ModelSpec K :=
  mk_spec "SanaVideo" [BLOCKS; PRUNABLE_TOKENS; SWAPPABLE_ATTENTION] (Some whole_sequence).

(** The decorators of the two model files, and what importing the package runs:
    [models/__init__.py] imports [ltx2_spec] only. *)
Definition import_ltx2 : dict (ModelSpec K) → dict (ModelSpec K) :=
  register_model_spec ["LTX2"; "LTX2Transformer3DModel"; "LTXVideoTransformer3DModel"] ltx2_spec.
Definition import_sana_video : dict (ModelSpec K) → dict (ModelSpec K) :=
  register_model_spec ["SanaVideo"; "SanaVideoTransformer3DModel"] sana_video_spec.
Definition imported_models : dict (ModelSpec K) := import_ltx2 [].
End Models.

(** ** The preset *)

Section Preset.
Context {T X A G : Type} (O : Torch T) (minus extrapolate : X → X → X) (str_float : Qc → string).

Definition SCSP_SKIP_STEPS : string := "16-28".

Definition ltx_step_cache : Technique (DiT T X A G) :=
  StepCache minus extrapolate
    (by_stage [("stage1", at_steps SCSP_SKIP_STEPS true false)] false) false.
Definition ltx_token_prune (prune_ratio : Qc) (prune_steps : string) : Technique (DiT T X A G) :=
  TokenPrune O (mk_prune (by_stage [("stage2", const prune_ratio)] 1%Qc) "feat_norm" "prev")
    (by_stage [("stage2", at_steps prune_steps true false)] false).
Definition ltx_sparse (pisa_sparsity : Qc) : SparseParams :=
  mk_sparse pisa_sparsity 64 true "transformer_2" false 0 "score" "fa" "0-1".

Definition ltx_full_opt (nvfp4 : bool) (prune_ratio : Qc) (prune_steps : string) (pisa_sparsity : Qc) :
    list (Item (DiT T X A G)) :=
  let items :=
    [ITransform (KWLFusions None); ITransform (SparseAttention str_float (ltx_sparse pisa_sparsity));
     ITechnique ltx_step_cache; ITechnique (ltx_token_prune prune_ratio prune_steps)] in
  if nvfp4 then (take 1 items ++ ITransform (NVFP4FFN true true true) :: drop 1 items)%list else items.
End Preset.

(** ** The preset composes *)

Lemma dget_kwl k flags e :
  dget k (kwl_set_env flags e) =
    if decide (k ∈ (λ f, "SGLANG_HQ_KWL_" +:+ f) <$> flags) then Some "1" else dget k e.
Proof.
  unfold kwl_set_env. revert e. induction flags as [|f flags IH]; intros e.
  { case_decide as H; [by apply elem_of_nil in H|done]. }
  cbn [foldl]. rewrite IH, dget_dset, fmap_cons.
  repeat case_decide; try done; subst; rewrite ?elem_of_cons in *; naive_solver.
Qed.

Section FullOpt.
Context {T X A G : Type} (O : Torch T) (minus extrapolate : X → X → X) (str_float : Qc → string).
Context (nvfp4 : bool) (ratio : Qc) (steps : string) (sp : Qc).
Local Abbreviation items := (@ltx_full_opt T X A G O minus extrapolate str_float nvfp4 ratio steps sp).
Local Abbreviation prune := (ltx_token_prune O ratio steps : Technique (DiT T X A G)).
Local Abbreviation cache := (ltx_step_cache minus extrapolate : Technique (DiT T X A G)).

Lemma full_opt_checks : compose items ltx2_spec 64 = Ok (plan_of items ltx2_spec).
Proof. apply compose_checks; destruct nvfp4; vm_compute; reflexivity. Qed.

Lemma full_opt_techniques : p_techniques (plan_of items ltx2_spec) = [prune; cache].
Proof. by destruct nvfp4. Qed.

Lemma full_opt_transforms :
  p_transforms (plan_of items ltx2_spec) =
    ((if nvfp4 then [NVFP4FFN true true true] else []) ++
     [KWLFusions None; SparseAttention str_float (ltx_sparse sp)])%list.
Proof. by destruct nvfp4. Qed.

(** Every seam has one writer among the items of the preset. *)
Lemma full_opt_writers seam i j wa wb :
  (item_writes <$> items) !! i = Some wa → (item_writes <$> items) !! j = Some wb →
  seam ∈ wa → seam ∈ wb → i = j.
Proof.
  assert (item_writes <$> items =
    ([KERNEL_FUSION] :: (if nvfp4 then [[FFN_PRECISION]] else []) ++
     [[ATTENTION_BACKEND]; [STEP_OUTPUT]; [TOKEN_SET; HIDDEN_STATES]])%list) as -> by (by destruct nvfp4).
  intros Ha Hb. destruct nvfp4; do 5 (try destruct i as [|i]); do 5 (try destruct j as [|j]);
    simpl in *; simplify_eq; try done; set_solver.
Qed.

Lemma scsp_steps k stg : at_steps SCSP_SKIP_STEPS true false k stg = bool_decide (16 ≤ k ≤ 28).
Proof using Type.
  unfold at_steps. rewrite (eq_refl : parse_steps SCSP_SKIP_STEPS = seqZ 16 13).
  assert (k ∈ seqZ 16 13 ↔ 16 ≤ k ≤ 28) as H by (rewrite elem_of_seqZ; lia).
  by rewrite (bool_decide_ext _ _ H); case_bool_decide.
Qed.

Lemma cache_active ctx :
  t_is_active cache ctx = bool_decide (stage ctx = "stage1" ∧ 16 ≤ step ctx ≤ 28).
Proof using Type.
  clear O str_float nvfp4 ratio steps sp.
  cbn. unfold is_active, by_stage. cbn [dget]. case_decide as H.
  - rewrite scsp_steps. apply bool_decide_ext. tauto.
  - symmetry. apply bool_decide_eq_false_2. tauto.
Qed.

Lemma prune_active ctx :
  t_is_active prune ctx =
    bool_decide (stage ctx = "stage2" ∧ step ctx ∈ parse_steps steps ∧ (ratio < 1)%Qc).
Proof using Type.
  clear minus extrapolate str_float nvfp4 sp.
  cbn. unfold prune_is_active, is_active, by_stage. cbn [dget keep_ratio]. case_decide as H.
  - unfold at_steps, const. repeat case_bool_decide; naive_solver.
  - symmetry. apply bool_decide_eq_false_2. tauto.
Qed.
End FullOpt.

(** The LTX-2 preset is accepted by the checker for every choice of its parameters
    and is free of conflicts at every step of every stage, not only where the checker
    looks: no two of its items write one exclusive seam. The step cache runs exactly at
    steps 16 to 28 of the first stage, the pruner exactly at the given steps of the
    second, and not at all for a ratio of 1 or more. The environment it leaves enables
    every fusion flag and the piecewise backend for the second transformer only, enables
    NVFP4 if asked to, and keeps every other variable. *)
Theorem full_opt_plan {T X A G} (O : Torch T) (minus extrapolate : X → X → X) str_float
    nvfp4 ratio steps sp env :
  let items := @ltx_full_opt T X A G O minus extrapolate str_float nvfp4 ratio steps sp in
  let p := plan_of items ltx2_spec in
  let env' := apply_transforms p env in
  let nvfp4_vars := ["SGLANG_HQ_ENABLE_TE_NVFP4_FFN"; "SGLANG_LTX2_TE_NVFP4_VIDEO_FFN";
    "SGLANG_LTX2_TE_NVFP4_DISABLE_RHT"; "SGLANG_LTX2_TE_NVFP4_DISABLE_STOCHASTIC_ROUNDING";
    "SGLANG_LTX2_TE_NVFP4_DISABLE_2D_QUANTIZATION"] in
  let kwl_vars := (λ f, "SGLANG_HQ_KWL_" +:+ f) <$> KWL_FLAGS in
  let sparse_vars := ["SGLANG_HQ_COMPONENT_ATTENTION_BACKENDS"; "SGLANG_HQ_ATTENTION_BACKEND_CONFIG"] in
  compose items ltx2_spec 64 = Ok p ∧
  (∀ seam i j a b, seam ∈ EXCLUSIVE_SEAMS → items !! i = Some a → items !! j = Some b →
     seam ∈ item_writes a → seam ∈ item_writes b → i = j) ∧
  (∀ ctx, t_name <$> active_in p ctx ON_STEP =
     if decide (stage ctx = "stage1" ∧ 16 ≤ step ctx ≤ 28) then ["step_cache"] else []) ∧
  (∀ ctx, t_name <$> active_in p ctx PRE_BLOCKS =
     if decide (stage ctx = "stage2" ∧ step ctx ∈ parse_steps steps ∧ (ratio < 1)%Qc)
     then ["token_prune"] else []) ∧
  Forall (λ v, dget v env' = Some "1") kwl_vars ∧
  Forall (λ v, dget v env' = if nvfp4 then Some "1" else dget v env) nvfp4_vars ∧
  dget "SGLANG_HQ_COMPONENT_ATTENTION_BACKENDS" env' =
    Some "transformer=fa,transformer_2=piecewise_attn" ∧
  (∀ v, v ∉ nvfp4_vars → v ∉ kwl_vars → v ∉ sparse_vars → dget v env' = dget v env).
Proof.
  intros items p env' nvfp4_vars kwl_vars sparse_vars.
  assert (∀ v, dget v env' =
    if decide (v = "SGLANG_HQ_ATTENTION_BACKEND_CONFIG")
    then Some (sparse_config str_float (ltx_sparse sp))
    else if decide (v = "SGLANG_HQ_COMPONENT_ATTENTION_BACKENDS")
    then Some "transformer=fa,transformer_2=piecewise_attn"
    else if decide (v ∈ kwl_vars) then Some "1"
    else if nvfp4 then dget v (nvfp4_set_env true true true env) else dget v env) as Henv.
  { intros v. unfold env', apply_transforms, p, items. rewrite full_opt_transforms.
    unfold kwl_vars. destruct nvfp4; cbn [app foldl tr_set_env KWLFusions SparseAttention];
      unfold sparse_set_env; rewrite !dget_dset, dget_kwl; done. }
  split_and!.
  - apply full_opt_checks.
  - intros seam i j a b _ Ha Hb Wa Wb.
    apply (f_equal (fmap item_writes)) in Ha, Hb. rewrite <-list_lookup_fmap in Ha, Hb.
    by apply (full_opt_writers (A:=A) (G:=G) O minus extrapolate str_float nvfp4 ratio steps sp seam i j
      (item_writes a) (item_writes b)).
  - intros ctx. unfold active_in, p, items. rewrite full_opt_techniques. cbn [List.filter].
    rewrite cache_active.
    destruct (decide (stage ctx = "stage1" ∧ 16 ≤ step ctx ≤ 28)) as [H|H];
      [rewrite (bool_decide_eq_true_2 _ H); reflexivity|rewrite (bool_decide_eq_false_2 _ H); reflexivity].
  - intros ctx. unfold active_in, p, items. rewrite full_opt_techniques. cbn [List.filter].
    rewrite prune_active.
    destruct (decide (stage ctx = "stage2" ∧ step ctx ∈ parse_steps steps ∧ (ratio < 1)%Qc)) as [H|H];
      [rewrite (bool_decide_eq_true_2 _ H); reflexivity|rewrite (bool_decide_eq_false_2 _ H); reflexivity].
  - unfold kwl_vars. repeat constructor; by rewrite Henv.
  - unfold nvfp4_vars. repeat (apply Forall_cons_2; [rewrite Henv; destruct nvfp4;
      [unfold nvfp4_set_env; by rewrite !dget_dset|done]|]). constructor.
  - by rewrite Henv.
  - intros v H1 H2 H3. rewrite Henv. unfold sparse_vars, nvfp4_vars in *.
    rewrite !not_elem_of_cons in H1. rewrite !not_elem_of_cons in H3. destruct H1 as (? & ? & ? & ? & ? & _), H3 as (? & ? & _).
    rewrite !decide_False by done. destruct nvfp4; [|done].
    unfold nvfp4_set_env. by rewrite !dget_dset, !decide_False by done.
Qed.

(** ** Techniques gated to a stage *)

(** An item that is off at the stage the checker asks about. *)
Definition off_by_default {K} (it : Item K) : Prop :=
  match it with ITechnique t => ∀ k, 0 ≤ k < 64 → t_enabled t k "" = false | _ => False end.

Lemma off_by_default_inactive {K} (it : Item K) : off_by_default it → always_on it = false.
Proof.
  destruct it as [t| |]; simpl; [|done|done]. intros H. apply negb_false_iff, bool_decide_eq_true_2.
  destruct (truthy_steps (t_enabled t) 64) as [|k l] eqn:E; [done|].
  assert (k ∈ truthy_steps (t_enabled t) 64) as [Hk Hc]%truthy_steps_elem by (rewrite E; left).
  by rewrite H in Hc.
Qed.

(** The conflict check asks about the default stage only: techniques that are off
    there are invisible to it. Added to any list of items, in any number and whatever
    they write at other stages, they change nothing of its verdict. *)
Theorem stage_gated_unchecked {K} (items gated : list (Item K)) horizon :
  Forall off_by_default gated →
  check_conflicts (items ++ gated)%list horizon = check_conflicts items horizon.
Proof.
  intros H. unfold check_conflicts. rewrite List.filter_app.
  assert (List.filter always_on gated = []) as ->; [|by rewrite app_nil_r].
  induction H as [|it l Hit _ IH]; [done|]. simpl. by rewrite (off_by_default_inactive _ Hit).
Qed.

Module TwoPruners.
Definition ops : Torch Z :=
  mk_torch (λ _, 0%Qc) (λ _, 0%Qc) (λ _, 0%Qc) (λ _, 0%Qc) (λ _ k, seqZ 0 k) (seqZ 0) (λ _ _, 1) 0.
Definition pruner (steps : string) : Technique (DiT Z Z unit Z) := ltx_token_prune ops 0%Qc steps.
Definition items : list (Item (DiT Z Z unit Z)) := [ITechnique (pruner "1-2"); ITechnique (pruner "2-3")].
Definition ctx : Ctx (DiT Z Z unit Z) := mk_ctx 2 "stage2" ltx2_spec "c".
End TwoPruners.

(** Two pruners of the second stage, which both own the token set at its step 2. *)
Lemma stage_gated_unchecked_witness :
  check_conflicts TwoPruners.items 64 = [] ∧
  t_name <$> active_in (plan_of TwoPruners.items ltx2_spec) TwoPruners.ctx PRE_BLOCKS =
    ["token_prune"; "token_prune"].
Proof.
  split; [|vm_compute; reflexivity].
  apply (stage_gated_unchecked [] TwoPruners.items 64). repeat constructor.
Defined.

(** Importing the package registers the LTX-2 specification under its three keys, and
    not the one of SANA-Video. *)
Lemma imported_specs {K} :
  Forall (λ key, get_model_spec (@imported_models K) key = Some ltx2_spec)
    ["LTX2"; "LTX2Transformer3DModel"; "LTXVideoTransformer3DModel"] ∧
  is_supported (@imported_models K) "SanaVideo" = false ∧
  is_supported (import_sana_video (@imported_models K)) "SanaVideoTransformer3DModel" = true.
Proof. split_and!; [repeat constructor|done|done]. Qed.
