(* ===== verification/Environ.v ===== *)
(** * Settings read from environment variables

    Models the helpers with which [runtime/cache/*.py] and
    [pipelines_core/stages/ltx_2_denoising.py] read their settings from [os.environ]: flags,
    integers, floats and lists, each with a default for a variable that is unset or cannot
    be parsed. The environment is a dict of strings. [int(s)] is written out; [float(s)] of
    a string is a parameter. *)

From S2P Require Import Prelude PyJson PyValue Admission.
Local Open Scope string_scope.
Local Open Scope Z_scope.

(** ** [int(s)]: surrounding blanks, a sign, digits with single underscores between *)

Fixpoint read_digits (after_digit : bool) (acc : Z) (s : string) : option Z :=
  match s with
  | EmptyString => if after_digit then Some acc else None
  | String c s' =>
      let n := ord c in
      if bool_decide (48 ≤ n)%nat && bool_decide (n ≤ 57)%nat
      then read_digits true (10 * acc + (n - 48)%nat) s'
      else if bool_decide (n = 95%nat) && after_digit then read_digits false acc s'
      else None
  end.

Definition int_of (s : string) : option Z :=
  match strip s with
  | String c s' =>
      if bool_decide (ord c = 45%nat) then Z.opp <$> read_digits false 0 s'
      else if bool_decide (ord c = 43%nat) then read_digits false 0 s'
      else read_digits false 0 (strip s)
  | EmptyString => None
  end.

(** Python's view of an environment variable: unset, or a string. *)
Definition environ := dict string.

Definition TRUE_WORDS : list string := ["1"; "true"; "yes"; "on"].

Definition env_flag (env : environ) (name : string) (d : bool) : bool :=
  match dget name env with
  | None => d
  | Some v => bool_decide (lower (strip v) ∈ TRUE_WORDS)
  end.

(** The variant of the denoising stage does not strip blanks. *)
Definition ltx2_env_flag (env : environ) (name : string) (d : bool) : bool :=
  match dget name env with
  | None => d
  | Some v => bool_decide (lower v ∈ TRUE_WORDS)
  end.

(** The value a parser gives, and the default for an unset, an empty and an unreadable
    variable. *)
Definition env_parse {A} (parse : string → option A) (env : environ) (name : string) (d : A) : A :=
  match dget name env with
  | None => d
  | Some v => if bool_decide (v = "") then d else default d (parse v)
  end.

Definition env_int : environ → string → Z → Z := env_parse int_of.

Fixpoint parse_all {A} (parse : string → option A) (l : list string) : option (list A) :=
  match l with
  | [] => Some []
  | s :: l => x ← parse s; xs ← parse_all parse l; Some (x :: xs)
  end.

(** Elements between commas; blank ones are dropped. *)
Definition parse_list {A} (parse : string → option A) (v : string) : option (list A) :=
  parse_all parse (filter (λ s, strip s ≠ "") (split_on 44 v)).

Definition env_int_list : environ → string → list Z → list Z :=
  env_parse (parse_list (λ s, int_of (strip s))).

(** [None] for an unset, an empty, a [none] and an unreadable variable. *)
Definition env_optional {A} (parse : string → option A) (env : environ) (name : string) : option A :=
  match dget name env with
  | None => None
  | Some v => if bool_decide (v ∈ [""; "none"; "None"]) then None else parse v
  end.

Definition ltx2_env_optional_int : environ → string → option Z := env_optional int_of.

Section Floats.
Context (float_of : string → option Qc).
Definition env_float : environ → string → Qc → Qc := env_parse float_of.
Definition env_float_tuple : environ → string → list Qc → list Qc := env_parse (parse_list float_of).
Definition ltx2_env_optional_float : environ → string → option Qc := env_optional float_of.
End Floats.

(** ** Laws *)

Lemma env_parse_unset {A} (parse : string → option A) env name d :
  dget name env = None → env_parse parse env name d = d.
Proof. unfold env_parse. by intros ->. Qed.

Lemma env_parse_set {A} (parse : string → option A) env name d v x :
  dget name env = Some v → v ≠ "" → parse v = Some x → env_parse parse env name d = x.
Proof. unfold env_parse. intros -> Hv Hp. by rewrite bool_decide_false, Hp by done. Qed.

(** A variable that cannot be read is as good as unset. *)
Lemma env_parse_invalid {A} (parse : string → option A) env name d v :
  dget name env = Some v → parse v = None → env_parse parse env name d = d.
Proof. unfold env_parse. intros -> Hp. rewrite Hp. by case_bool_decide. Qed.

Example int_of_examples :
  int_of " -1_000 " = Some (-1000) ∧ int_of "+7" = Some 7 ∧ int_of "1__0" = None ∧ int_of "" = None
  ∧ int_of "4 2" = None.
Proof. done. Qed.

Example int_list_example :
  env_int_list [("A", "1, 2,,3 ")] "A" [] = [1; 2; 3] ∧ env_int_list [("A", "1,x")] "A" [9] = [9].
Proof. done. Qed.
