(* ===== verification/Stage1Cache.v ===== *)
(** * The denoiser-output cache of LTX-2 stage 1

    Models [runtime/cache/ltx2_stage1_cache_core.py] and the part of
    [pipelines_core/stages/ltx_2_denoising.py] that consults it: before every evaluation of
    the denoiser the controller decides whether to answer from the outputs of earlier
    evaluations; an evaluation that is not skipped updates those outputs. Tensor arithmetic
    is a parameter; additions and differences may raise, as shapes may differ. *)

From S2P Require Import Prelude PyJson PyValue Admission Environ.
Local Open Scope string_scope.
Local Open Scope Z_scope.

Definition q (n : Z) (d : positive) : Qc := Q2Qc (QArith_base.Qmake n d).
Definition Qcmin (a b : Qc) : Qc := if decide (a <= b)%Qc then a else b.
Definition Qcmax (a b : Qc) : Qc := if decide (a <= b)%Qc then b else a.
Definition Qc_lt (a b : Qc) : bool := bool_decide (a < b)%Qc.
Definition Qc_le (a b : Qc) : bool := bool_decide (a <= b)%Qc.
Definition QcZ (z : Z) : Qc := Q2Qc (QArith_base.inject_Z z).

(** ** Parameters and presets *)

(** The [params] dict: a key that is absent is [None]. *)
Record Params := mk_params {
  reuse_mode : option string;
  skip_indices : option (list Z);
  cache_device : option string;
  max_skip_steps_of : option Z;
  start_percent_of : option Qc;
  end_percent_of : option Qc;
  delta_scale : option Qc;
  ema_decay : option Qc;
  blend_alpha : option Qc;
  warmup_steps : option Z;
  interval : option Z;
  subsample_factor : option Z;
  rel_l1_thresh : option Qc;
  similarity_threshold : option Qc;
  reuse_threshold : option Qc;
}.

Record Preset := mk_preset {
  pr_expected_calls : Z;
  pr_method : string;
  pr_params : Params;
}.

(** The parameters the presets give; the others are absent. *)
Definition preset_params (mode : string) (delta decay alpha : option Qc) (indices : list Z) (max_skip : Z) : Params :=
  mk_params (Some mode) (Some indices) None (Some max_skip) (Some (q 0 1)) (Some (q 999 1000))
    delta decay alpha None None None None None None.

Definition preset_12of15 : Preset :=
  mk_preset 29 "fixedskip" (preset_params "delta" (Some (q 1 2)) None None [22; 23; 24; 25; 26; 27] 6).

Definition PRESETS : dict Preset := [
  ("12of15_delta05_29calls", preset_12of15);
  ("10of15_last_29calls",
   mk_preset 29 "fixedskip" (preset_params "last" None None None [19; 20; 21; 22; 23; 24; 25; 26; 27] 9));
  ("8of15_last_29calls",
   mk_preset 29 "fixedskip" (preset_params "last" None None None
     [13; 14; 16; 17; 18; 19; 20; 21; 22; 24; 25; 26; 27] 30));
  ("5of15_blend_ema_29calls",
   mk_preset 29 "fixedskip" (preset_params "blend_ema_last" None (Some (q 7 10)) (Some (q 1 2))
     [8; 9; 10; 12; 13; 14; 15; 16; 17; 18; 19; 20; 21; 22; 23; 24; 25; 26; 27] 30));
  ("12of15_delta05_official31",
   mk_preset 31 "fixedskip" (preset_params "delta" (Some (q 1 2)) None None [24; 25; 26; 27; 28; 29] 6));
  ("10of15_last_official31",
   mk_preset 31 "fixedskip" (preset_params "last" None None None [20; 21; 22; 23; 24; 25; 26; 27; 28; 29] 10))].

Definition FLUX_TEACACHE_COEFFICIENTS : list Qc :=
  [q 498651651 1000000; q (-283781631) 1000000; q 558554382 10000000; q (-382021401) 100000000;
   q 264230861 1000000000].

(** [sum(coeff * x ** (degree - index))], highest degree first. *)
Fixpoint poly1d (cs : list Qc) (x : Qc) : Qc :=
  match cs with
  | [] => 0%Qc
  | c :: cs => (c * Qcpower x (length cs) + poly1d cs x)%Qc
  end.

(** ** The controller *)

Record Event := mk_event {
  call_index : Z;
  at_progress : Qc;  (** before it is rounded to six digits *)
  by_method : string;
}.

Record Counters := mk_counters {
  total_calls : Z;
  real_calls : Z;
  skipped_calls : Z;
  skipped_in_a_row : Z;
  events : list Event;
}.

Record Outputs (X : Type) := mk_outputs {
  last_x : option X;
  last_video_output : option X;
  last_audio_output : option X;
  previous_video_output : option X;
  previous_audio_output : option X;
  ema_video_output : option X;
  ema_audio_output : option X;
  cache_video_diff : option X;
  cache_audio_diff : option X;
}.
Arguments mk_outputs {X}.
Arguments last_x {X}.
Arguments last_video_output {X}.
Arguments last_audio_output {X}.
Arguments previous_video_output {X}.
Arguments previous_audio_output {X}.
Arguments ema_video_output {X}.
Arguments ema_audio_output {X}.
Arguments cache_video_diff {X}.
Arguments cache_audio_diff {X}.

(** The distance estimates of the adaptive methods; tensors of one element are numbers. *)
Record Rates (X : Type) := mk_rates {
  output_prev_subsampled : option X;
  x_prev_subsampled : option X;
  output_prev_norm : option Qc;
  relative_transformation_rate : option Qc;
  cumulative_change_rate : Qc;
  accumulated_rel_l1_distance : Qc;
}.
Arguments mk_rates {X}.
Arguments output_prev_subsampled {X}.
Arguments x_prev_subsampled {X}.
Arguments output_prev_norm {X}.
Arguments relative_transformation_rate {X}.
Arguments cumulative_change_rate {X}.
Arguments accumulated_rel_l1_distance {X}.

Record Controller (X : Type) := mk_controller {
  method : string;
  params : Params;
  expected_calls : Z;
  counters : Counters;
  outputs : Outputs X;
  rates : Rates X;
}.
Arguments mk_controller {X}.
Arguments method {X}.
Arguments params {X}.
Arguments expected_calls {X}.
Arguments counters {X}.
Arguments outputs {X}.
Arguments rates {X}.

Definition init_controller {X} (m : string) (p : Params) (expected : Z) : Controller X :=
  mk_controller m p expected (mk_counters 0 0 0 0 [])
    (mk_outputs None None None None None None None None None)
    (mk_rates None None None None 0%Qc 0%Qc).

Definition set_counters {X} (c : Controller X) n : Controller X :=
  mk_controller (method c) (params c) (expected_calls c) n (outputs c) (rates c).
Definition set_outputs {X} (c : Controller X) o : Controller X :=
  mk_controller (method c) (params c) (expected_calls c) (counters c) o (rates c).
Definition set_rates {X} (c : Controller X) r : Controller X :=
  mk_controller (method c) (params c) (expected_calls c) (counters c) (outputs c) r.

Definition count_call (n : Counters) : Counters :=
  mk_counters (total_calls n + 1) (real_calls n) (skipped_calls n) (skipped_in_a_row n) (events n).
Definition count_skip (e : Event) (n : Counters) : Counters :=
  mk_counters (total_calls n) (real_calls n) (skipped_calls n + 1) (skipped_in_a_row n + 1) (events n ++ [e])%list.
Definition count_real (n : Counters) : Counters :=
  mk_counters (total_calls n) (real_calls n + 1) (skipped_calls n) (skipped_in_a_row n) (events n).
Definition end_row (n : Counters) : Counters :=
  mk_counters (total_calls n) (real_calls n) (skipped_calls n) 0 (events n).

Section Controller.
Context {X : Type}.
Implicit Types (c : Controller X) (x : X).

Definition max_skip_steps c : Z := default 1 (max_skip_steps_of (params c)).
Definition start_percent c : Qc := default 0%Qc (start_percent_of (params c)).
Definition end_percent c : Qc := default 1%Qc (end_percent_of (params c)).

Definition progress_at (expected total : Z) : Qc :=
  if expected <=? 1 then 1%Qc
  else Qcmin (Qcmax (QcZ (total - 1) / QcZ (expected - 1))%Qc 0%Qc) 1%Qc.
Definition progress c : Qc := progress_at (expected_calls c) (total_calls (counters c)).

Definition in_window c : bool :=
  Qc_le (start_percent c) (progress c) && Qc_lt (progress c) (end_percent c).

Definition can_skip_common c : bool :=
  let n := counters c in
  if total_calls n <=? 1 then false
  else if expected_calls c <=? total_calls n then false
  else if negb (in_window c) then false
  else if max_skip_steps c <=? skipped_in_a_row n then false
  else bool_decide (is_Some (last_video_output (outputs c))).

Definition schedule_skip c : bool :=
  let warmup := default 1 (warmup_steps (params c)) in
  let every := Z.max (default 1 (interval (params c))) 1 in
  let t := total_calls (counters c) in
  if t <=? warmup then false else (t - warmup - 1) mod every =? 0.

(** [None] where a tensor is needed *)
Definition need {A} (e : exc) (o : option A) : res A :=
  match o with Some a => Ok a | None => Raise e end.

(** Tensor operations: [a + b], [a - b], [k * a], [a.float().abs().mean()],
    [a[..., ::k, ::k]], the number of dimensions, [a.to(like)], and [a.float().cpu()]. *)
Context (tadd tsub : X → X → res X) (tscale : Qc → X → X) (mean_abs : X → Qc).
Context (stride : Z → X → X) (ndim : X → Z) (to_like : X → X → X) (float_cpu : X → X).

Definition subsample x (factor : Z) : X :=
  if (1 <? factor) && (4 <=? ndim x) then stride factor x else x.

Definition clone_tensor (device : string) (o : option X) : option X :=
  if bool_decide (device = "cpu") then float_cpu <$> o else o.
Definition device_of c : string := default "default" (cache_device (params c)).
Definition factor_of c : Z := default 8 (subsample_factor (params c)).

(** [(a - b).abs().mean() / b.abs().mean().clamp_min(1e-6)] *)
Definition rel_change (current previous : X) : res Qc :=
  d ← tsub current previous;
  Ok (mean_abs d / Qcmax (mean_abs previous) (q 1 1000000))%Qc.

Definition similarity_skip c x : res bool :=
  let t := total_calls (counters c) in
  match last_x (outputs c) with
  | None => Ok false
  | Some l =>
      if t <=? default 1 (warmup_steps (params c)) then Ok false
      else r ← rel_change (subsample x (factor_of c)) (subsample l (factor_of c));
           Ok (Qc_lt r (default (q 5 100) (similarity_threshold (params c))))
  end.

Definition set_last_x (x : option X) (o : Outputs X) : Outputs X :=
  mk_outputs x (last_video_output o) (last_audio_output o) (previous_video_output o)
    (previous_audio_output o) (ema_video_output o) (ema_audio_output o) (cache_video_diff o)
    (cache_audio_diff o).
Definition set_accumulated (a : Qc) (r : Rates X) : Rates X :=
  mk_rates (output_prev_subsampled r) (x_prev_subsampled r) (output_prev_norm r)
    (relative_transformation_rate r) (cumulative_change_rate r) a.
Definition set_cumulative (a : Qc) (r : Rates X) : Rates X :=
  mk_rates (output_prev_subsampled r) (x_prev_subsampled r) (output_prev_norm r)
    (relative_transformation_rate r) a (accumulated_rel_l1_distance r).

Definition teacache_skip c x : res (bool * Controller X) :=
  let current := clone_tensor (device_of c) (Some x) in
  let seen := set_outputs c (set_last_x current (outputs c)) in
  match last_x (outputs c), cache_video_diff (outputs c), current with
  | Some previous, Some _, Some cur =>
      r ← rel_change cur previous;
      let p := poly1d FLUX_TEACACHE_COEFFICIENTS r in
      let a := (accumulated_rel_l1_distance (rates c) + Qcmax p (- p))%Qc in
      Ok (Qc_lt a (default (q 4 10) (rel_l1_thresh (params c))),
          set_rates seen (set_accumulated a (rates c)))
  | _, _, _ => Ok (false, set_rates seen (set_accumulated 0%Qc (rates c)))
  end.

Definition easycache_skip c x : res (bool * Controller X) :=
  let r := rates c in
  match x_prev_subsampled r, output_prev_norm r, relative_transformation_rate r with
  | Some previous, Some norm, Some rate =>
      d ← tsub (subsample x (factor_of c)) previous;
      let approx := (rate * mean_abs d / Qcmax norm (q 1 1000000))%Qc in
      let a := (cumulative_change_rate r + approx)%Qc in
      Ok (Qc_lt a (default (q 2 10) (reuse_threshold (params c))), set_rates c (set_cumulative a r))
  | _, _, _ => Ok (false, c)
  end.

Definition should_skip c0 x : res (bool * Controller X) :=
  let c := set_counters c0 (count_call (counters c0)) in
  if negb (can_skip_common c) then Ok (false, c)
  else if bool_decide (method c = "fixedskip") then
    Ok (bool_decide (total_calls (counters c) - 1 ∈ default [] (skip_indices (params c))), c)
  else if bool_decide (method c ∈ ["periodic"; "delta"; "ema"]) then Ok (schedule_skip c, c)
  else if bool_decide (method c = "similarity") then b ← similarity_skip c x; Ok (b, c)
  else if bool_decide (method c = "teacache") then teacache_skip c x
  else if bool_decide (method c ∈ ["easycache"; "lazycache"]) then easycache_skip c x
  else Raise ValueError.

(** *** Answering from the cache *)

Definition fixed_mode c : string :=
  if bool_decide (method c = "fixedskip") then default "last" (reuse_mode (params c)) else "".

(** [_to_device_dtype(audio, audio_x) if audio_x is not None else None] *)
Definition audio_like (audio audio_x : option X) : option X :=
  match audio_x with Some ax => (λ a, to_like a ax) <$> audio | None => None end.

Definition blend (alpha : Qc) (last ema : X) : res X :=
  tadd (tscale (1 - alpha)%Qc last) (tscale alpha ema).
Definition extrapolate (scale : Qc) (last previous : X) : res X :=
  d ← tsub last previous; tadd last (tscale scale d).

(** The audio the video rule [f] gives: from the last output and, where there is one, [other]. *)
Definition audio_by (f : X → X → res X) (last other audio_x : option X) : res (option X) :=
  match audio_x, last with
  | Some _, Some l => match other with Some o => a ← f l o; Ok (Some a) | None => Ok (Some l) end
  | _, _ => Ok None
  end.

Definition reuse_pair (f : X → X → res X) (o : Outputs X) (other_video other_audio : option X)
    (video_x : X) (audio_x : option X) : res (X * option X) :=
  lv ← need TypeError (last_video_output o);
  ov ← need TypeError other_video;
  video ← f lv ov;
  audio ← audio_by f (last_audio_output o) other_audio audio_x;
  Ok (to_like video video_x, audio_like audio audio_x).

Definition reuse_residual (o : Outputs X) (diff : X) (video_x : X) (audio_x : option X) : res (X * option X) :=
  video ← tadd video_x (to_like diff video_x);
  audio ← match audio_x with
          | None => Ok None
          | Some ax =>
              match cache_audio_diff o with
              | Some d => a ← tadd ax (to_like d ax); Ok (Some a)
              | None => Ok ((λ a, to_like a ax) <$> last_audio_output o)
              end
          end;
  Ok (video, audio).

Definition reuse c (video_x : X) (audio_x : option X) : res (X * option X) :=
  let o := outputs c in
  let mode := fixed_mode c in
  if bool_decide (mode = "blend_ema_last") && bool_decide (is_Some (ema_video_output o)) then
    let alpha := Qcmin (Qcmax (default (q 1 2) (blend_alpha (params c))) 0%Qc) 1%Qc in
    reuse_pair (blend alpha) o (ema_video_output o) (ema_audio_output o) video_x audio_x
  else if (bool_decide (method c = "delta") || bool_decide (mode = "delta")) &&
          bool_decide (is_Some (previous_video_output o)) then
    reuse_pair (extrapolate (default 1%Qc (delta_scale (params c)))) o
      (previous_video_output o) (previous_audio_output o) video_x audio_x
  else
    match (if bool_decide (method c = "ema") || bool_decide (mode = "ema") then ema_video_output o else None) with
    | Some ema => Ok (to_like ema video_x, audio_like (ema_audio_output o) audio_x)
    | None =>
        match (if bool_decide (method c ∈ ["teacache"; "easycache"; "lazycache"]) || bool_decide (mode = "residual")
               then cache_video_diff o else None) with
        | Some diff => reuse_residual o diff video_x audio_x
        | None =>
            l ← need AttributeError (last_video_output o);
            Ok (to_like l video_x, audio_like (last_audio_output o) audio_x)
        end
    end.

Definition cached_outputs c (video_x : X) (audio_x : option X) : res ((X * option X) * Controller X) :=
  let n := counters c in
  let c' := set_counters c (count_skip (mk_event (total_calls n - 1) (progress c) (method c)) n) in
  r ← reuse c' video_x audio_x;
  Ok (r, c').

(** *** After a real evaluation *)

Definition update_ema (decay : Qc) (ema out : X) : res X :=
  tadd (tscale decay ema) (tscale (1 - decay)%Qc out).

(** The moving averages after an output: they start with the first one. *)
Definition next_ema c (video_output : X) (audio_output : option X) : res (option X * option X) :=
  let o := outputs c in
  let clone := clone_tensor (device_of c) in
  match ema_video_output o with
  | None => Ok (clone (Some video_output), clone audio_output)
  | Some ev =>
      let decay := default (q 1 2) (ema_decay (params c)) in
      v ← update_ema decay ev video_output;
      match audio_output, ema_audio_output o with
      | Some ao, Some ea => a ← update_ema decay ea ao; Ok (clone (Some v), clone (Some a))
      | _, _ => Ok (clone (Some v), ema_audio_output o)
      end
  end.

Definition keeps_residual c : bool :=
  bool_decide (method c ∈ ["teacache"; "easycache"; "lazycache"; "fixedskip"]).

(** The residuals after an output: what the denoiser added to its input. *)
Definition next_diffs c (video_x : X) (audio_x : option X) (video_output : X) (audio_output : option X) :
    res (option X * option X) :=
  let o := outputs c in
  let clone := clone_tensor (device_of c) in
  if keeps_residual c then
    v ← tsub video_output video_x;
    match audio_x, audio_output with
    | Some ax, Some ao => a ← tsub ao ax; Ok (clone (Some v), clone (Some a))
    | _, _ => Ok (clone (Some v), cache_audio_diff o)
    end
  else Ok (cache_video_diff o, cache_audio_diff o).

Definition update_outputs c (video_x : X) (audio_x : option X) (video_output : X) (audio_output : option X) :
    res (Outputs X) :=
  let o := outputs c in
  let clone := clone_tensor (device_of c) in
  ema ← next_ema c video_output audio_output;
  diffs ← next_diffs c video_x audio_x video_output audio_output;
  Ok (mk_outputs (clone (Some video_x)) (clone (Some video_output)) (clone audio_output)
        (last_video_output o) (last_audio_output o) ema.1 ema.2 diffs.1 diffs.2).

(** How much more the output changed than the input, since the evaluation before. *)
Definition next_rate c (video_x video_output : X) : res (option Qc) :=
  let r := rates c in
  match output_prev_subsampled r, last_video_output (outputs c), x_prev_subsampled r with
  | Some out_prev, Some _, Some x_prev =>
      dout ← tsub (subsample video_output (factor_of c)) out_prev;
      din ← tsub (subsample video_x (factor_of c)) x_prev;
      if Qc_lt (q 1 1000000000000) (mean_abs din)
      then Ok (Some (mean_abs dout / mean_abs din)%Qc)
      else Ok (relative_transformation_rate r)
  | _, _, _ => Ok (relative_transformation_rate r)
  end.

Definition update_rates c (video_x video_output : X) : res (Rates X) :=
  let r := rates c in
  let clone := clone_tensor (device_of c) in
  if bool_decide (method c ∈ ["easycache"; "lazycache"]) then
    rate ← next_rate c video_x video_output;
    Ok (mk_rates (clone (Some (subsample video_output (factor_of c))))
          (clone (Some (subsample video_x (factor_of c))))
          (Some (mean_abs video_output)) rate 0%Qc (accumulated_rel_l1_distance r))
  else if bool_decide (method c = "teacache") then Ok (set_accumulated 0%Qc r)
  else Ok r.

Definition update c (video_x : X) (audio_x video_output audio_output : option X) : res (Controller X) :=
  match video_output with
  | None => Ok (set_counters c (end_row (count_real (counters c))))
  | Some vo =>
      o ← update_outputs c video_x audio_x vo audio_output;
      r ← update_rates c video_x vo;
      Ok (set_rates (set_outputs (set_counters c (end_row (count_real (counters c)))) o) r)
  end.

(** ** The denoising loop's use of the controller

    The denoiser itself, the mask that restores the clean latents of conditioned frames,
    and [tensor.float()] are parameters. An exception of the controller disables it for the
    rest of the request; an exception of the denoiser is raised to the caller. *)
Context (denoise : X → X → res (X * X)) (clean_latent_mask : X → res X) (to_float : X → X).

Definition lookup c (video audio : X) : res (option (X * X) * Controller X) :=
  d ← should_skip c video;
  if d.1 : bool then
    r ← cached_outputs d.2 video (Some audio);
    v ← clean_latent_mask (to_float r.1.1);
    Ok (Some (v, to_float (default audio r.1.2)), r.2)
  else Ok (None, d.2).

Definition after_real (core : option (Controller X)) (video audio : X) (out : X * X) : option (Controller X) :=
  match core with
  | None => None
  | Some c =>
      match update c video (Some audio) (Some out.1) (Some out.2) with
      | Ok c' => Some c'
      | Raise _ => None
      end
  end.

Definition evaluate_stage1_guided_x0 (core : option (Controller X)) (video audio : X) :
    res (X * X) * option (Controller X) :=
  let real core :=
    match denoise video audio with
    | Ok out => (Ok out, after_real core video audio out)
    | Raise e => (Raise e, core)
    end in
  match core with
  | None => real None
  | Some c =>
      match lookup c video audio with
      | Ok (Some out, c') => (Ok out, Some c')
      | Ok (None, c') => real (Some c')
      | Raise _ => real None
      end
  end.

(** The evaluations of a request, in order. *)
Fixpoint evaluate_all (core : option (Controller X)) (xs : list (X * X)) :
    list (res (X * X)) * option (Controller X) :=
  match xs with
  | [] => ([], core)
  | (v, a) :: xs =>
      let r := evaluate_stage1_guided_x0 core v a in
      let rs := evaluate_all r.2 xs in
      (r.1 :: rs.1, rs.2)
  end.
End Controller.
Arguments update : simpl never.
Arguments should_skip : simpl never.

(** ** Installation from the environment *)

Definition default_preset : string := "12of15_delta05_29calls".

Section Environment.
Context (float_of : string → option Qc) {X : Type}.
Local Abbreviation V s := (String.app "SGLANG_LTX2_STAGE1_CACHE_CORE_" s).

Definition find_preset (env : environ) : Preset :=
  default preset_12of15 (dget (default default_preset (dget (V "PRESET") env)) PRESETS).

Definition params_from_env (env : environ) (p : Params) : Params :=
  mk_params
    (Some (default (default "last" (reuse_mode p)) (dget (V "REUSE_MODE") env)))
    (Some (env_int_list env (V "SKIP_INDICES") (default [] (skip_indices p))))
    (Some (default (default "default" (cache_device p)) (dget (V "CACHE_DEVICE") env)))
    (Some (env_int env (V "MAX_SKIP_STEPS") (default 1 (max_skip_steps_of p))))
    (Some (env_float float_of env (V "START_PERCENT") (default 0%Qc (start_percent_of p))))
    (Some (env_float float_of env (V "END_PERCENT") (default 1%Qc (end_percent_of p))))
    (Some (env_float float_of env (V "DELTA_SCALE") (default 1%Qc (delta_scale p))))
    (Some (env_float float_of env (V "EMA_DECAY") (default (q 1 2) (ema_decay p))))
    (Some (env_float float_of env (V "BLEND_ALPHA") (default (q 1 2) (blend_alpha p))))
    (Some (env_int env (V "WARMUP_STEPS") (default 1 (warmup_steps p))))
    (Some (env_int env (V "INTERVAL") (default 1 (interval p))))
    (Some (env_int env (V "SUBSAMPLE_FACTOR") (default 8 (subsample_factor p))))
    (Some (env_float float_of env (V "REL_L1_THRESH") (default (q 4 10) (rel_l1_thresh p))))
    (Some (env_float float_of env (V "SIMILARITY_THRESHOLD") (default (q 5 100) (similarity_threshold p))))
    (reuse_threshold p).

Definition make_ltx2_stage1_cache_core_from_env (env : environ) : option (Controller X) :=
  if negb (env_flag env (V "ENABLED") false) then None
  else
    let p := find_preset env in
    let m := default (pr_method p) (dget (V "METHOD") env) in
    let expected := env_int env (V "EXPECTED_CALLS") (pr_expected_calls p) in
    Some (init_controller m (params_from_env env (pr_params p)) expected).

Definition make_stage1_cache_core_if_enabled (stage : string) (env : environ) : option (Controller X) :=
  if negb (bool_decide (stage = "stage1")) then None
  else if negb (ltx2_env_flag env (V "ENABLED") false) then None
  else make_ltx2_stage1_cache_core_from_env env.
End Environment.

(** [stats_summary()], without the strings it repeats; the hit rate is not rounded. *)
Record Summary := mk_summary {
  s_total : Z;
  s_real : Z;
  s_skipped : Z;
  s_hit_rate : Qc;
  s_indices : list Z;
}.
Definition stats_summary {X} (c : Controller X) : Summary :=
  let n := counters c in
  let eligible := real_calls n + skipped_calls n in
  mk_summary (total_calls n) (real_calls n) (skipped_calls n)
    (if eligible =? 0 then 0%Qc else (QcZ (skipped_calls n) / QcZ eligible)%Qc)
    (call_index <$> events n).
