(* ===== verification/Stage1CacheProps.v ===== *)
(** * The stage-1 cache: bounded reuse, exact schedules, replayed outputs

    Proves of [Stage1Cache]: how often and where evaluations are skipped, whatever the
    method; that a fixed schedule skips exactly its indices; what a skipped evaluation
    returns; and that a failure of the cache never fails the request. *)

From S2P Require Import Prelude PyJson PyValue Admission Environ Stage1Cache.
Local Open Scope string_scope.
Local Open Scope Z_scope.

Section Props.
Context {X : Type}.
Context (tadd tsub : X → X → res X) (tscale : Qc → X → X) (mean_abs : X → Qc).
Context (stride : Z → X → X) (ndim : X → Z) (to_like : X → X → X) (float_cpu : X → X).
Context (denoise : X → X → res (X * X)) (clean_latent_mask : X → res X) (to_float : X → X).
Implicit Types c : Controller X.

Local Abbreviation should_skip := (should_skip tsub mean_abs stride ndim float_cpu).
Local Abbreviation reuse := (reuse tadd tsub tscale to_like).
Local Abbreviation cached_outputs := (cached_outputs tadd tsub tscale to_like).
Local Abbreviation update := (update tadd tsub tscale mean_abs stride ndim float_cpu).
Local Abbreviation lookup := (lookup tadd tsub tscale mean_abs stride ndim to_like float_cpu clean_latent_mask to_float).
Local Abbreviation evaluate := (evaluate_stage1_guided_x0 tadd tsub tscale mean_abs stride ndim to_like float_cpu
  denoise clean_latent_mask to_float).
Local Abbreviation evaluate_all := (evaluate_all tadd tsub tscale mean_abs stride ndim to_like float_cpu
  denoise clean_latent_mask to_float).

(** ** One evaluation *)

(** The settings of a controller never change. *)
Definition same_settings c c' : Prop :=
  method c' = method c ∧ params c' = params c ∧ expected_calls c' = expected_calls c.

(** What a decision leaves alone, and what it needs to be positive. *)
Lemma should_skip_frame c x b c' :
  should_skip c x = Ok (b, c') →
  counters c' = count_call (counters c) ∧ same_settings c c' ∧
  last_video_output (outputs c') = last_video_output (outputs c) ∧
  (b = true → can_skip_common c' = true).
Proof.
  unfold Stage1Cache.should_skip, same_settings. intros H.
  destruct (can_skip_common _) eqn:E; simpl in H; [|by simplify_eq].
  repeat case_bool_decide; simplify_eq/=; try done.
  - apply res_bind_inv in H as (b' & _ & H). by simplify_eq.
  - unfold teacache_skip in H. repeat py_case; try done.
    apply res_bind_inv in H as (r & _ & H). by simplify_eq.
  - unfold easycache_skip in H. repeat py_case; try done.
    apply res_bind_inv in H as (r & _ & H). by simplify_eq.
Qed.

Lemma cached_outputs_inv c v a r c' :
  cached_outputs c v a = Ok (r, c') →
  c' = set_counters c (count_skip (mk_event (total_calls (counters c) - 1) (progress c) (method c)) (counters c)) ∧
  reuse c' v a = Ok r.
Proof. unfold Stage1Cache.cached_outputs. intros H. apply res_bind_inv in H as (x & E & H). by simplify_eq. Qed.

Lemma update_inv c v a vo ao c' :
  update c v a (Some vo) ao = Ok c' →
  counters c' = end_row (count_real (counters c)) ∧ same_settings c c' ∧
  last_video_output (outputs c') = clone_tensor float_cpu (device_of c) (Some vo) ∧
  last_audio_output (outputs c') = clone_tensor float_cpu (device_of c) ao ∧
  previous_video_output (outputs c') = last_video_output (outputs c) ∧
  previous_audio_output (outputs c') = last_audio_output (outputs c).
Proof.
  unfold Stage1Cache.update, update_outputs. intros H.
  apply res_bind_inv in H as (o & E & H). apply res_bind_inv in H as (r & _ & H).
  apply res_bind_inv in E as (e & _ & E). apply res_bind_inv in E as (d & _ & E). by simplify_eq.
Qed.

(** The index of the call a controller counted last, and the event of skipping it. *)
Definition skip_event c : Event := mk_event (total_calls (counters c) - 1) (progress c) (method c).

(** An evaluation after which the controller is still installed either was skipped, allowed
    by the common conditions, or was real and kept its output. *)
Lemma evaluate_cases c v a out c' :
  evaluate (Some c) v a = (Ok out, Some c') →
  same_settings c c' ∧
  ((∃ c1, should_skip c v = Ok (true, c1) ∧ can_skip_common c1 = true ∧
      counters c1 = count_call (counters c) ∧
      counters c' = count_skip (skip_event c1) (counters c1) ∧
      last_video_output (outputs c') = last_video_output (outputs c)) ∨
   (∃ c1, should_skip c v = Ok (false, c1) ∧ denoise v a = Ok out ∧
      update c1 v (Some a) (Some out.1) (Some out.2) = Ok c' ∧
      counters c' = end_row (count_real (count_call (counters c))) ∧
      is_Some (last_video_output (outputs c')))).
Proof.
  unfold Stage1Cache.evaluate_stage1_guided_x0, Stage1Cache.lookup. intros H.
  destruct (should_skip c v) as [[b c1]|] eqn:Es; simpl in H.
  2: { destruct (denoise v a); simpl in H; by simplify_eq. }
  destruct (should_skip_frame _ _ _ _ Es) as (Hn & Hs & Hl & Hc). destruct b; simpl in H.
  - destruct (cached_outputs c1 v (Some a)) as [[r c2]|] eqn:Er; simpl in H.
    2: { destruct (denoise v a); simpl in H; by simplify_eq. }
    destruct (clean_latent_mask _) as [m|]; simpl in H.
    2: { destruct (denoise v a); simpl in H; by simplify_eq. }
    injection H as <- <-. apply cached_outputs_inv in Er as [-> _].
    split; [done|]. left. exists c1. simpl. auto.
  - destruct (denoise v a) as [o|] eqn:Ed; [|by simplify_eq/=]. unfold after_real in H.
    destruct (update c1 v (Some a) (Some o.1) (Some o.2)) as [c2|] eqn:Eu; [|by simplify_eq]. injection H as <- <-.
    destruct (update_inv _ _ _ _ _ _ Eu) as (Hn' & (Hm & Hp & He) & Hl' & _).
    destruct Hs as (Hm1 & Hp1 & He1).
    split; [repeat split; congruence|]. right. exists c1. rewrite Hn', Hn.
    repeat split; try done. rewrite Hl'. unfold clone_tensor. case_bool_decide; simpl; eauto.
Qed.

(** ** Bounded reuse *)

Definition indices c : list Z := call_index <$> events (counters c).

(** The length of the run of skips that ends with the last call, and of every run, is
    bounded; every skipped call is neither the first nor the last expected one. *)
Record bounded c : Prop := mk_bounded {
  b_total : real_calls (counters c) + skipped_calls (counters c) = total_calls (counters c);
  b_real : 0 ≤ real_calls (counters c);
  b_skipped : skipped_calls (counters c) = length (events (counters c));
  b_row : 0 ≤ skipped_in_a_row (counters c) ≤ Z.max 0 (max_skip_steps c);
  b_range : Forall (λ i, 1 ≤ i < total_calls (counters c) ∧ i < expected_calls c - 1) (indices c);
  b_suffix : ∀ k, 0 ≤ k → (∀ j, total_calls (counters c) - k ≤ j < total_calls (counters c) → j ∈ indices c) →
             k ≤ skipped_in_a_row (counters c);
  b_runs : ∀ i k, 0 ≤ k → (∀ j, i ≤ j < i + k → j ∈ indices c) → k ≤ Z.max 0 (max_skip_steps c);
}.

Lemma bounded_init m p n : bounded (init_controller m p n).
Proof.
  split; simpl; try done; try lia; try constructor.
  - intros k Hk H. destruct (decide (k = 0)); [lia|]. specialize (H (-1) ltac:(lia)). by apply elem_of_nil in H.
  - intros i k Hk H. destruct (decide (k = 0)); [lia|]. specialize (H i ltac:(lia)). by apply elem_of_nil in H.
Qed.

Lemma can_skip_inv c :
  can_skip_common c = true →
  1 < total_calls (counters c) < expected_calls c ∧ in_window c = true ∧
  skipped_in_a_row (counters c) < max_skip_steps c ∧ is_Some (last_video_output (outputs c)).
Proof. unfold can_skip_common. intros H. repeat case_match; bool_to_prop; simplify_eq; auto with lia. Qed.

Lemma bounded_skip c c1 c' :
  bounded c → counters c1 = count_call (counters c) → same_settings c c' → max_skip_steps c1 = max_skip_steps c →
  expected_calls c1 = expected_calls c → can_skip_common c1 = true →
  counters c' = count_skip (skip_event c1) (counters c1) → bounded c'.
Proof.
  intros [Ht Hr Hs Hw Hg Hf Hu] H1 (Hm & Hp & He) Hms Hec Hc H'.
  apply can_skip_inv in Hc as (Hc & _ & Hrow & _). rewrite H1 in Hc, Hrow. simpl in Hc, Hrow.
  assert (Hmax : max_skip_steps c' = max_skip_steps c) by (unfold max_skip_steps; by rewrite Hp).
  assert (Hi : indices c' = (indices c ++ [total_calls (counters c)])%list).
  { unfold indices, skip_event. rewrite H'. simpl. rewrite fmap_app, H1. simpl. rewrite H1. simpl. do 2 f_equal. lia. }
  assert (Hsuf : ∀ k, 0 ≤ k → (∀ j, total_calls (counters c) + 1 - k ≤ j < total_calls (counters c) + 1 → j ∈ indices c') →
                 k ≤ skipped_in_a_row (counters c) + 1).
  { intros k Hk H. destruct (decide (k = 0)); [lia|]. enough (k - 1 ≤ skipped_in_a_row (counters c)) by lia.
    apply Hf; [lia|]. intros j Hj. specialize (H j ltac:(lia)). rewrite Hi in H.
    apply elem_of_app in H as [H|H]; [done|]. apply list_elem_of_singleton in H. lia. }
  split; rewrite ?H', ?H1, ?Hmax, ?He; simpl; try lia.
  - rewrite length_app. simpl. lia.
  - rewrite Hi. apply Forall_app. split; [|constructor; [lia|done]].
    eapply Forall_impl; [done|]. simpl. lia.
  - exact Hsuf.
  - intros i k Hk H. destruct (decide (i + k = total_calls (counters c) + 1)) as [E|E].
    + enough (k ≤ skipped_in_a_row (counters c) + 1) by lia. apply Hsuf; [lia|]. intros j Hj. apply H. lia.
    + apply (Hu i); [done|]. intros j Hj. specialize (H j Hj) as Hin. rewrite Hi in Hin.
      apply elem_of_app in Hin as [Hin|Hin]; [done|]. apply list_elem_of_singleton in Hin. subst j.
      specialize (H (i + k - 1) ltac:(lia)). rewrite Hi in H. apply elem_of_app in H as [H|H].
      * rewrite Forall_forall in Hg. apply Hg in H. lia.
      * apply list_elem_of_singleton in H. lia.
Qed.

Lemma bounded_real c c' :
  bounded c → same_settings c c' → counters c' = end_row (count_real (count_call (counters c))) → bounded c'.
Proof.
  intros [Ht Hr Hs Hw Hg Hf Hu] (Hm & Hp & He) H'.
  assert (Hmax : max_skip_steps c' = max_skip_steps c) by (unfold max_skip_steps; by rewrite Hp).
  assert (Hi : indices c' = indices c) by (unfold indices; by rewrite H').
  split; rewrite ?H', ?Hi, ?Hmax, ?He; simpl; try lia; try done.
  - eapply Forall_impl; [done|]. simpl. lia.
  - intros k Hk H. destruct (decide (k = 0)); [lia|]. specialize (H (total_calls (counters c)) ltac:(lia)).
    rewrite Forall_forall in Hg. apply Hg in H. lia.
Qed.

Lemma evaluate_bounded c v a out c' :
  bounded c → evaluate (Some c) v a = (Ok out, Some c') → bounded c'.
Proof.
  intros Hb H. destruct (evaluate_cases _ _ _ _ _ H) as [Hs [(c1 & Es & Hc & Hn & Hn' & _)|(c1 & Es & _ & _ & Hn & _)]].
  - destruct (should_skip_frame _ _ _ _ Es) as (_ & (Hm & Hp & He) & _).
    eapply bounded_skip; eauto. unfold max_skip_steps. by rewrite Hp.
  - eapply bounded_real; eauto.
Qed.

Lemma evaluate_none v a : evaluate None v a = (denoise v a, None).
Proof. unfold Stage1Cache.evaluate_stage1_guided_x0. by destruct (denoise v a). Qed.

Lemma evaluate_all_none xs : (evaluate_all None xs).2 = None.
Proof. induction xs as [|[v a] xs IH]; [done|]. cbn -[Stage1Cache.evaluate_stage1_guided_x0]. by rewrite evaluate_none. Qed.

(** A failure of the cache is never a failure of the request: it costs the cache. *)
Theorem stage1_failure_hidden core v a out :
  denoise v a = Ok out → ∃ out', (evaluate core v a).1 = Ok out'.
Proof.
  intros Hd. destruct core as [c|]; [|rewrite evaluate_none; simpl; eauto].
  unfold Stage1Cache.evaluate_stage1_guided_x0.
  destruct (lookup c v a) as [[[o|] c']|]; rewrite ?Hd; simpl; eauto.
Qed.

Definition returns {A} (r : res A) : Prop := match r with Ok _ => True | Raise _ => False end.

(** Which results of a sequence of evaluations are the denoiser's own. *)
Lemma evaluate_all_inv c xs rs c' :
  bounded c → evaluate_all (Some c) xs = (rs, Some c') → Forall returns rs →
  bounded c' ∧ same_settings c c' ∧ total_calls (counters c') = total_calls (counters c) + length xs ∧
  ∃ new, indices c' = (indices c ++ new)%list ∧ Forall (λ i, total_calls (counters c) ≤ i) new ∧
    ∀ (i : nat) v a, xs !! i = Some (v, a) → total_calls (counters c) + i ∉ new → rs !! i = Some (denoise v a).
Proof.
  revert c rs. induction xs as [|[v a] xs IH]; intros c rs Hb H Hr.
  { simpl in H. injection H as <- <-. split_and!; [done|done|simpl; lia|].
    exists []. rewrite app_nil_r. split_and!; [done|constructor|]. intros i v a Hi. by rewrite lookup_nil in Hi. }
  cbn [Stage1Cache.evaluate_all] in H.
  destruct (evaluate (Some c) v a) as [r1 [c1|]] eqn:E1; simpl in H.
  2: { pose proof (evaluate_all_none xs) as Hn. destruct (evaluate_all None xs). simplify_eq/=. }
  destruct (evaluate_all (Some c1) xs) as [rs1 o1] eqn:E2. simpl in H. injection H as <- ->.
  apply Forall_cons_1 in Hr as [Hr1 Hr]. destruct r1 as [out|]; [|done].
  destruct (IH c1 rs1 (evaluate_bounded _ _ _ _ _ Hb E1) E2 Hr) as (Hb' & Hs' & Ht' & new & Hi & Hge & Hnew).
  destruct (evaluate_cases _ _ _ _ _ E1) as [Hs Hcase].
  assert (Hss : same_settings c c') by (destruct Hs as (?&?&?), Hs' as (?&?&?); repeat split; congruence).
  destruct Hcase as [(c0 & Es & _ & Hn & Hn' & _)|(c0 & Es & Hd & _ & Hn & _)].
  - assert (Ht1 : total_calls (counters c1) = total_calls (counters c) + 1) by (by rewrite Hn', Hn).
    assert (Hi1 : indices c1 = (indices c ++ [total_calls (counters c)])%list).
    { unfold indices, skip_event. rewrite Hn'. simpl. rewrite fmap_app, Hn. simpl. rewrite Hn. simpl. do 2 f_equal. lia. }
    rewrite Ht1 in *. split_and!; [done|done|simpl length; lia|].
    exists (total_calls (counters c) :: new). split_and!.
    + by rewrite Hi, Hi1, <-app_assoc.
    + constructor; [lia|]. eapply Forall_impl; [done|]. simpl. lia.
    + intros [|i] v' a' Hx Hni; [exfalso; apply Hni, elem_of_cons; left; lia|]. simpl in *. apply Hnew; [done|].
      intros Hin. apply Hni. right. by replace (total_calls (counters c) + S i) with (total_calls (counters c) + 1 + i) by lia.
  - assert (Ht1 : total_calls (counters c1) = total_calls (counters c) + 1) by (by rewrite Hn).
    assert (Hi1 : indices c1 = indices c) by (unfold indices; by rewrite Hn).
    rewrite Ht1 in *. split_and!; [done|done|simpl length; lia|].
    exists new. split_and!; [congruence|eapply Forall_impl; [done|]; simpl; lia|].
    intros [|i] v' a' Hx Hni; simpl in *; [by simplify_eq; rewrite Hd|]. apply Hnew; [done|].
    intros Hin. apply Hni. by replace (total_calls (counters c) + S i) with (total_calls (counters c) + 1 + i) by lia.
Qed.

(** C29 - Whatever the method, its parameters and the tensors: in any sequence of evaluations of
    a request that all return and leave the cache installed, every evaluation is counted as
    real or skipped, the skipped ones are those of the event log, none of them is the first
    call, the last expected call or one behind it, no more than [max_skip_steps] consecutive
    calls are skipped, and every call that is not in the log returned what the denoiser
    returns. *)
Theorem stage1_bounded_reuse m p expected xs rs c :
  evaluate_all (Some (init_controller m p expected)) xs = (rs, Some c) → Forall returns rs →
  total_calls (counters c) = length xs ∧
  real_calls (counters c) + skipped_calls (counters c) = length xs ∧
  skipped_calls (counters c) = length (indices c) ∧
  Forall (λ i, 1 ≤ i < length xs ∧ i < expected - 1) (indices c) ∧
  (∀ i k, 0 ≤ k → (∀ j, i ≤ j < i + k → j ∈ indices c) → k ≤ Z.max 0 (max_skip_steps c)) ∧
  (∀ (i : nat) v a, xs !! i = Some (v, a) → Z.of_nat i ∉ indices c → rs !! i = Some (denoise v a)).
Proof.
  intros H Hr. destruct (evaluate_all_inv _ _ _ _ (bounded_init m p expected) H Hr)
    as ([Ht Hre Hs Hw Hg Hf Hu] & (Hm & Hp & He) & Htot & new & Hi & Hge & Hnew). simpl in *.
  rewrite Htot in *. split_and!; try done.
  - unfold indices. by rewrite length_fmap.
  - by rewrite <-He.
  - intros i v a Hx Hni. apply (Hnew i); [done|]. by rewrite Hi in Hni.
Qed.

(** ** Fixed schedules *)

(** What a fixed schedule skips, from the counters alone. *)
Fixpoint fixed_schedule (p : Params) (expected total row : Z) (n : nat) : list Z :=
  match n with
  | O => []
  | S n =>
      let pr := progress_at expected (total + 1) in
      if (1 <? total + 1) && (total + 1 <? expected) &&
         Qc_le (default 0%Qc (start_percent_of p)) pr && Qc_lt pr (default 1%Qc (end_percent_of p)) &&
         (row <? default 1 (max_skip_steps_of p)) && bool_decide (total ∈ default [] (skip_indices p))
      then total :: fixed_schedule p expected (total + 1) (row + 1) n
      else fixed_schedule p expected (total + 1) 0 n
  end.

Section Schedule.
Hypothesis tadd_returns : ∀ a b, returns (tadd a b).
Hypothesis tsub_returns : ∀ a b, returns (tsub a b).
Hypothesis denoise_returns : ∀ v a, returns (denoise v a).
Hypothesis mask_returns : ∀ v, returns (clean_latent_mask v).

Lemma returns_inv {A} (r : res A) : returns r → ∃ a, r = Ok a.
Proof. destruct r; [eauto|done]. Qed.

Lemma bind_returns {A B} (m : res A) (f : A → res B) :
  returns m → (∀ a, m = Ok a → returns (f a)) → returns (m ≫= f).
Proof. intros Hm Hf. apply returns_inv in Hm as [a ->]. by apply Hf. Qed.

Lemma reuse_pair_returns (f : X → X → res X) o ov oa v a :
  (∀ x y, returns (f x y)) → is_Some (last_video_output o) → is_Some ov →
  returns (reuse_pair to_like f o ov oa v a).
Proof.
  intros Hf [l Hl] [w Hw]. unfold reuse_pair. rewrite Hl, Hw. simpl.
  apply bind_returns; [done|]. intros video _. apply bind_returns; [|done].
  unfold audio_by. repeat case_match; try done. by apply bind_returns.
Qed.

Lemma reuse_returns c v a : is_Some (last_video_output (outputs c)) → returns (reuse c v a).
Proof.
  intros Hl. unfold Stage1Cache.reuse. case_match eqn:E1.
  { bool_to_prop. apply reuse_pair_returns; auto. unfold blend. auto. }
  clear E1. case_match eqn:E2.
  { bool_to_prop. apply reuse_pair_returns; auto. intros x y. unfold extrapolate. by apply bind_returns. }
  clear E2. destruct (if bool_decide (method c = "ema") || _ then _ else _); [done|].
  destruct (if bool_decide (method c ∈ _) || _ then _ else _).
  - unfold reuse_residual. apply bind_returns; [done|]. intros w _. apply bind_returns; [|done].
    repeat case_match; try done. by apply bind_returns.
  - destruct Hl as [l ->]. done.
Qed.

Lemma update_returns c v a vo ao : method c = "fixedskip" → returns (update c v a (Some vo) ao).
Proof.
  intros Hm. unfold Stage1Cache.update, update_outputs, next_ema, next_diffs, keeps_residual, update_rates, update_ema.
  rewrite Hm. apply bind_returns.
  - apply bind_returns; [|intros e _; apply bind_returns; [|done]].
    + case_match; [|done]. apply bind_returns; [done|]. intros w _. repeat case_match; try done. by apply bind_returns.
    + rewrite bool_decide_true by set_solver. apply bind_returns; [done|]. intros w _.
      repeat case_match; try done. by apply bind_returns.
  - intros o _. by rewrite !bool_decide_false by set_solver.
Qed.

(** The decision of [fixed_schedule] for the next call. *)
Definition fixed_skips c : bool :=
  let t := total_calls (counters c) in
  let pr := progress_at (expected_calls c) (t + 1) in
  (1 <? t + 1) && (t + 1 <? expected_calls c) && Qc_le (start_percent c) pr && Qc_lt pr (end_percent c) &&
  (skipped_in_a_row (counters c) <? max_skip_steps c) && bool_decide (t ∈ default [] (skip_indices (params c))).

Lemma fixed_should_skip c x :
  method c = "fixedskip" → (1 ≤ total_calls (counters c) → is_Some (last_video_output (outputs c))) →
  should_skip c x = Ok (fixed_skips c, set_counters c (count_call (counters c))).
Proof.
  intros Hm Hl. unfold Stage1Cache.should_skip, fixed_skips. set (c1 := set_counters c _).
  assert (Hc : can_skip_common c1 =
    (1 <? total_calls (counters c) + 1) && (total_calls (counters c) + 1 <? expected_calls c) &&
    Qc_le (start_percent c) (progress_at (expected_calls c) (total_calls (counters c) + 1)) &&
    Qc_lt (progress_at (expected_calls c) (total_calls (counters c) + 1)) (end_percent c) &&
    (skipped_in_a_row (counters c) <? max_skip_steps c)).
  { unfold can_skip_common, in_window. change (outputs c1) with (outputs c).
    change (total_calls (counters c1)) with (total_calls (counters c) + 1).
    change (skipped_in_a_row (counters c1)) with (skipped_in_a_row (counters c)).
    change (progress c1) with (progress_at (expected_calls c) (total_calls (counters c) + 1)).
    change (start_percent c1) with (start_percent c). change (end_percent c1) with (end_percent c).
    change (max_skip_steps c1) with (max_skip_steps c). change (expected_calls c1) with (expected_calls c).
    destruct (Z.leb_spec (total_calls (counters c) + 1) 1), (Z.ltb_spec 1 (total_calls (counters c) + 1)); try lia; try done.
    destruct (Z.leb_spec (expected_calls c) (total_calls (counters c) + 1)),
      (Z.ltb_spec (total_calls (counters c) + 1) (expected_calls c)); try lia; try done.
    destruct (Qc_le _ _); [|done]. destruct (Qc_lt _ _); [|done]. simpl.
    destruct (Z.leb_spec (max_skip_steps c) (skipped_in_a_row (counters c))),
      (Z.ltb_spec (skipped_in_a_row (counters c)) (max_skip_steps c)); try lia; try done.
    apply bool_decide_eq_true_2, Hl. lia. }
  rewrite Hc. destruct (_ && _ && _ && _ && _); [|done]. simpl.
  rewrite bool_decide_true by done. do 2 f_equal. by rewrite Z.add_simpl_r.
Qed.

Lemma fixed_step c v a :
  method c = "fixedskip" → (1 ≤ total_calls (counters c) → is_Some (last_video_output (outputs c))) →
  0 ≤ total_calls (counters c) →
  ∃ out c', evaluate (Some c) v a = (Ok out, Some c') ∧ same_settings c c' ∧
    is_Some (last_video_output (outputs c')) ∧ total_calls (counters c') = total_calls (counters c) + 1 ∧
    (if fixed_skips c
     then skipped_in_a_row (counters c') = skipped_in_a_row (counters c) + 1 ∧
          indices c' = (indices c ++ [total_calls (counters c)])%list
     else skipped_in_a_row (counters c') = 0 ∧ indices c' = indices c).
Proof.
  intros Hm Hl Ht. pose proof (fixed_should_skip c v Hm Hl) as Es.
  unfold Stage1Cache.evaluate_stage1_guided_x0, Stage1Cache.lookup. rewrite Es. simpl.
  destruct (fixed_skips c) eqn:Ef.
  - assert (is_Some (last_video_output (outputs c))) as Hls.
    { apply Hl. unfold fixed_skips in Ef. bool_to_prop. lia. }
    unfold Stage1Cache.cached_outputs. set (c1 := set_counters _ _).
    destruct (returns_inv _ (reuse_returns c1 v (Some a) Hls)) as [r Hr]. rewrite Hr. simpl.
    destruct (returns_inv _ (mask_returns (to_float r.1))) as [w Hw]. rewrite Hw. simpl.
    eexists _, _. split; [done|]. split_and!; try done.
    unfold indices. simpl. rewrite fmap_app. simpl. by rewrite Z.add_simpl_r.
  - destruct (returns_inv _ (denoise_returns v a)) as [out Hd]. rewrite Hd. unfold after_real.
    destruct (returns_inv _ (update_returns (set_counters c (count_call (counters c))) v (Some a) out.1 (Some out.2) Hm))
      as [c2 Hu]. rewrite Hu. eexists _, _. split; [done|].
    apply update_inv in Hu as (Hn & Hs & Hlv & _). rewrite Hlv, Hn. split_and!; try done.
    + unfold clone_tensor. case_bool_decide; simpl; eauto.
    + unfold indices. by rewrite Hn.
Qed.

Lemma fixed_run c xs :
  method c = "fixedskip" → (1 ≤ total_calls (counters c) → is_Some (last_video_output (outputs c))) →
  0 ≤ total_calls (counters c) →
  ∃ rs c', evaluate_all (Some c) xs = (rs, Some c') ∧ Forall returns rs ∧
    indices c' = (indices c ++ fixed_schedule (params c) (expected_calls c) (total_calls (counters c))
                    (skipped_in_a_row (counters c)) (length xs))%list.
Proof.
  revert c. induction xs as [|[v a] xs IH]; intros c Hm Hl Ht.
  { eexists [], c. split_and!; [done|constructor|by rewrite app_nil_r]. }
  destruct (fixed_step c v a Hm Hl Ht) as (out & c1 & E & (Hm1 & Hp1 & He1) & Hl1 & Ht1 & Hcase).
  destruct (IH c1) as (rs & c' & Er & Hrs & Hi); [congruence|auto|lia|].
  exists (Ok out :: rs), c'. split_and!; [|by constructor|].
  { cbn [Stage1Cache.evaluate_all]. rewrite E. simpl. by rewrite Er. }
  rewrite Hi, Hp1, He1, Ht1. cbn [fixed_schedule length].
  unfold fixed_skips, start_percent, end_percent, max_skip_steps in Hcase.
  destruct (_ && _ && _ && _ && _ && _); destruct Hcase as [-> ->]; [|done]. by rewrite <-app_assoc.
Qed.
(** *** Schedules that repeat the last output *)

(** The copy of an output the controller keeps, and the answer it gives from the copies. *)
Definition kept (p : Params) (x : X) : X :=
  if bool_decide (default "default" (cache_device p) = "cpu") then float_cpu x else x.
Definition replayed (p : Params) (last : X * X) (v a : X) : res (X * X) :=
  w ← clean_latent_mask (to_float (to_like (kept p last.1) v));
  Ok (w, to_float (to_like (kept p last.2) a)).

(** The specification: at the scheduled indices the most recent real output is repeated,
    everywhere else the denoiser is run. *)
Fixpoint replay_spec (p : Params) (skips : list Z) (i : Z) (last : X * X) (xs : list (X * X)) : list (res (X * X)) :=
  match xs with
  | [] => []
  | (v, a) :: xs =>
      if bool_decide (i ∈ skips) then replayed p last v a :: replay_spec p skips (i + 1) last xs
      else denoise v a :: replay_spec p skips (i + 1) (match denoise v a with Ok o => o | Raise _ => last end) xs
  end.

Definition holds_last c (o : X * X) : Prop :=
  last_video_output (outputs c) = Some (kept (params c) o.1) ∧
  last_audio_output (outputs c) = Some (kept (params c) o.2).

Lemma clone_kept p x : clone_tensor float_cpu (default "default" (cache_device p)) (Some x) = Some (kept p x).
Proof. unfold clone_tensor, kept. by case_bool_decide. Qed.

Lemma replay_step c v a o :
  method c = "fixedskip" → default "last" (reuse_mode (params c)) = "last" → 0 ≤ total_calls (counters c) →
  (1 ≤ total_calls (counters c) → holds_last c o) →
  ∃ r c', evaluate (Some c) v a = (r, Some c') ∧ same_settings c c' ∧
    total_calls (counters c') = total_calls (counters c) + 1 ∧
    skipped_in_a_row (counters c') = (if fixed_skips c then skipped_in_a_row (counters c) + 1 else 0) ∧
    (if fixed_skips c then r = replayed (params c) o v a ∧ holds_last c' o
     else r = denoise v a ∧ ∃ o', denoise v a = Ok o' ∧ holds_last c' o').
Proof.
  intros Hm Hr Ht Hl. assert (Hs : 1 ≤ total_calls (counters c) → is_Some (last_video_output (outputs c))).
  { intros H. destruct (Hl H) as [-> _]. eauto. }
  destruct (fixed_step c v a Hm Hs Ht) as (out & c' & E & Hset & _ & Ht' & Hcase).
  exists (Ok out), c'. split_and!; try done; [by destruct (fixed_skips c), Hcase|].
  destruct (fixed_skips c) eqn:Ef.
  - assert (1 ≤ total_calls (counters c)) as H1 by (unfold fixed_skips in Ef; bool_to_prop; lia).
    destruct (Hl H1) as [Hv Ha]. revert E. unfold Stage1Cache.evaluate_stage1_guided_x0, Stage1Cache.lookup.
    rewrite (fixed_should_skip c v Hm Hs), Ef. unfold Stage1Cache.cached_outputs, Stage1Cache.reuse, fixed_mode. simpl.
    rewrite Hm, Hr, Hv, Ha. simpl. unfold replayed.
    destruct (returns_inv _ (mask_returns (to_float (to_like (kept (params c) o.1) v)))) as [w Hw]. rewrite Hw. simpl.
    intros [= <- <-]. split; [done|]. by split.
  - destruct (evaluate_cases _ _ _ _ _ E) as [_ [(c1 & Es & _)|(c1 & Es & Hd & Hu & _)]].
    { rewrite (fixed_should_skip c v Hm Hs), Ef in Es. by simplify_eq. }
    rewrite (fixed_should_skip c v Hm Hs) in Es. injection Es as _ <-. split; [done|].
    exists out. split; [done|]. apply update_inv in Hu as (_ & (_ & Hp & _) & Hv & Ha & _). unfold holds_last.
    rewrite Hv, Ha, Hp. unfold device_of. simpl. by rewrite !clone_kept.
Qed.

Lemma fixed_schedule_ge p expected total row n : Forall (λ i, total ≤ i) (fixed_schedule p expected total row n).
Proof.
  revert total row. induction n as [|n IH]; intros total row; simpl; [constructor|].
  case_match; [constructor; [lia|]|]; (eapply Forall_impl; [apply IH|]); simpl; lia.
Qed.

Lemma replay_run c xs o skips :
  method c = "fixedskip" → default "last" (reuse_mode (params c)) = "last" → 0 ≤ total_calls (counters c) →
  (1 ≤ total_calls (counters c) → holds_last c o) →
  (∀ i, total_calls (counters c) ≤ i → i ∈ skips ↔
        i ∈ fixed_schedule (params c) (expected_calls c) (total_calls (counters c)) (skipped_in_a_row (counters c)) (length xs)) →
  (evaluate_all (Some c) xs).1 = replay_spec (params c) skips (total_calls (counters c)) o xs.
Proof.
  revert c o. induction xs as [|[v a] xs IH]; intros c o Hm Hr Ht Hl Hsk; [done|].
  destruct (replay_step c v a o Hm Hr Ht Hl) as (r & c1 & E & (Hm1 & Hp1 & He1) & Ht1 & Hrow & Hcase).
  cbn [Stage1Cache.evaluate_all replay_spec]. rewrite E. simpl.
  pose proof (fixed_schedule_ge (params c) (expected_calls c) (total_calls (counters c) + 1)) as Hge.
  assert (bool_decide (total_calls (counters c) ∈ skips) = fixed_skips c ∧
    ∀ i, total_calls (counters c) + 1 ≤ i → i ∈ skips ↔
      i ∈ fixed_schedule (params c) (expected_calls c) (total_calls (counters c) + 1)
        (if fixed_skips c then skipped_in_a_row (counters c) + 1 else 0) (length xs)) as [Hb Hsk1].
  { cbn [fixed_schedule length] in Hsk. fold (start_percent c) (end_percent c) (max_skip_steps c) in Hsk.
    change (_ && _ && _ && _ && _ && _) with (fixed_skips c) in Hsk. setoid_rewrite Forall_forall in Hge.
    destruct (fixed_skips c); split.
    - apply bool_decide_eq_true_2, Hsk; [lia|left].
    - intros i Hi. rewrite Hsk, elem_of_cons by lia. intuition lia.
    - apply bool_decide_eq_false_2. intros H. apply Hsk, Hge in H; lia.
    - intros i Hi. apply Hsk. lia. }
  rewrite Hb. destruct (fixed_skips c).
  - destruct Hcase as [-> Ho]. f_equal. rewrite (IH c1 o); rewrite ?Hp1, ?He1, ?Ht1, ?Hrow; auto with lia; congruence.
  - destruct Hcase as [-> (o' & Hd & Ho)]. rewrite Hd. f_equal.
    rewrite (IH c1 o'); rewrite ?Hp1, ?He1, ?Ht1, ?Hrow; auto with lia; congruence.
Qed.
End Schedule.
End Props.

(** A fixed schedule that repeats the last output implements its specification: for any
    schedule, any number of expected calls and any sequence of latents, every evaluation
    returns what the most recent real evaluation returned (copied to the cache's device and
    back, with the clean latents restored) if its index is scheduled, and what the denoiser
    returns otherwise. *)
Theorem stage1_replays_last {X} (tadd tsub : X → X → res X) tscale mean_abs stride ndim to_like float_cpu
    (denoise : X → X → res (X * X)) clean_latent_mask to_float p expected o xs :
  (∀ a b, returns (tadd a b)) → (∀ a b, returns (tsub a b)) → (∀ v a, returns (denoise v a)) →
  (∀ v, returns (clean_latent_mask v)) → default "last" (reuse_mode p) = "last" →
  (evaluate_all tadd tsub tscale mean_abs stride ndim to_like float_cpu denoise clean_latent_mask to_float
     (Some (init_controller "fixedskip" p expected)) xs).1 =
  replay_spec to_like float_cpu denoise clean_latent_mask to_float p
    (fixed_schedule p expected 0 0 (length xs)) 0 o xs.
Proof.
  intros Ha Hs Hd Hm Hr. set (c := init_controller "fixedskip" p expected).
  change p with (params c) at 2. change 0 with (total_calls (counters c)) at 3.
  apply (replay_run tadd tsub tscale mean_abs stride ndim to_like float_cpu denoise clean_latent_mask to_float
    Ha Hs Hd Hm c xs o); simpl; [done|done|lia|lia|done].
Qed.

(** ** The presets *)

Definition preset_env (name : string) : environ :=
  [("SGLANG_LTX2_STAGE1_CACHE_CORE_ENABLED", "1"); ("SGLANG_LTX2_STAGE1_CACHE_CORE_PRESET", name)].

Lemma preset_schedules float_of :
  Forall (λ np, match make_stage1_cache_core_if_enabled (X:=unit) float_of "stage1" (preset_env np.1) with
                | Some c => method c = "fixedskip" ∧ expected_calls c = pr_expected_calls np.2 ∧
                    Some (fixed_schedule (params c) (expected_calls c) 0 0 (Z.to_nat (expected_calls c))) =
                    skip_indices (pr_params np.2)
                | None => False
                end) PRESETS.
Proof. repeat constructor; vm_compute; reflexivity. Qed.

(** Every preset skips exactly the evaluations it names: with the cache enabled and a preset
    chosen in the environment, a request of the expected number of evaluations leaves the
    cache installed, all evaluations return, and the skipped ones are the preset's indices,
    in order; in particular the final evaluation is real. *)
Theorem stage1_presets_exact {X} (tadd tsub : X → X → res X) tscale mean_abs stride ndim to_like float_cpu
    (denoise : X → X → res (X * X)) clean_latent_mask to_float float_of name p xs :
  (∀ a b, returns (tadd a b)) → (∀ a b, returns (tsub a b)) → (∀ v a, returns (denoise v a)) →
  (∀ v, returns (clean_latent_mask v)) → (name, p) ∈ PRESETS → Z.of_nat (length xs) = pr_expected_calls p →
  ∃ rs c,
    evaluate_all tadd tsub tscale mean_abs stride ndim to_like float_cpu denoise clean_latent_mask to_float
      (make_stage1_cache_core_if_enabled float_of "stage1" (preset_env name)) xs = (rs, Some c) ∧
    Forall returns rs ∧ Some (indices c) = skip_indices (pr_params p) ∧
    pr_expected_calls p - 1 ∉ indices c.
Proof.
  intros Ha Hs Hd Hm Hp Hx. pose proof (proj1 (Forall_forall _ _) (preset_schedules float_of) _ Hp) as H. simpl in H.
  destruct H as (Hme & He & Hf).
  destruct (fixed_run tadd tsub tscale mean_abs stride ndim to_like float_cpu denoise clean_latent_mask to_float
    Ha Hs Hd Hm (init_controller (pr_method (find_preset (preset_env name)))
      (params_from_env float_of (preset_env name) (pr_params (find_preset (preset_env name))))
      (env_int (preset_env name) ("SGLANG_LTX2_STAGE1_CACHE_CORE_" +:+ "EXPECTED_CALLS")
         (pr_expected_calls (find_preset (preset_env name))))) xs) as (rs & c & E & Hr & Hi); simpl; [done|lia|lia|].
  exists rs, c. simpl in Hi. replace (length xs) with (Z.to_nat (pr_expected_calls p)) in Hi by lia.
  rewrite <-He in Hi.
  split_and!; [done|done|by rewrite Hi, <-Hf|].
  intros Hin. destruct (evaluate_all_inv _ _ _ _ _ _ _ _ _ _ _ _ _ _ _ (bounded_init _ _ _) E Hr) as ([_ _ _ _ Hg _ _] & (_ & _ & Hex) & _).
  rewrite Forall_forall in Hg. apply Hg in Hin. rewrite Hex in Hin. simpl in Hin. rewrite He in Hin. lia.
Qed.

(** ** Witnesses: latents are numbers, the denoiser halves them *)

Definition zadd (a b : Z) : res Z := Ok (a + b).
Definition zsub (a b : Z) : res Z := Ok (a - b).
Definition zrun (core : option (Controller Z)) (xs : list (Z * Z)) : list (res (Z * Z)) * option (Controller Z) :=
  evaluate_all zadd zsub (λ _ x, x) QcZ (λ _ x, x) (λ _, 3) (λ x _, x) (λ x, x)
    (λ v a, Ok (v / 2, a / 2)) (λ x, Ok x) (λ x, x) core xs.

(** Every second call may be skipped; the calls 1, 3 are, the call 5 is the last expected one. *)
Definition periodic_params : Params :=
  mk_params None None None None None None None None None None (Some 2) None None None None.
Definition periodic_run := zrun (Some (init_controller "periodic" periodic_params 6))
  [(8, 8); (6, 6); (4, 4); (2, 2); (10, 10); (12, 12)].

Lemma stage1_bounded_reuse_witness :
  ∃ c, periodic_run.2 = Some c ∧ real_calls (counters c) + skipped_calls (counters c) = 6 ∧ indices c = [1; 3] ∧
    periodic_run.1 !! 4%nat = Some (Ok (5, 5)).
Proof.
  destruct periodic_run.2 as [c|] eqn:E; [|by vm_compute in E].
  assert (Hi : Some (indices c) = Some [1; 3]).
  { change (Some (indices c)) with (indices <$> Some c). rewrite <-E. vm_compute. reflexivity. }
  injection Hi as Hi.
  destruct (stage1_bounded_reuse zadd zsub (λ _ x, x) QcZ (λ _ x, x) (λ _, 3) (λ x _, x) (λ x, x)
    (λ v a, Ok (v / 2, a / 2)) (λ x, Ok x) (λ x, x) "periodic" periodic_params 6 _ periodic_run.1 c
    ltac:(rewrite <-E; apply surjective_pairing) ltac:(vm_compute; repeat constructor)) as (_ & H1 & _ & _ & _ & H2).
  exists c. split_and!; [done|exact H1|done|].
  apply (H2 4%nat 10 10); [done|]. rewrite Hi, !not_elem_of_cons. split_and!; try lia. apply not_elem_of_nil.
Defined.

Lemma stage1_presets_exact_witness :
  ∃ rs c, zrun (make_stage1_cache_core_if_enabled (λ _, None) "stage1" (preset_env "10of15_last_29calls"))
            (replicate 29 (64, 32)) = (rs, Some c) ∧
    indices c = [19; 20; 21; 22; 23; 24; 25; 26; 27].
Proof.
  destruct (stage1_presets_exact zadd zsub (λ _ x, x) QcZ (λ _ x, x) (λ _, 3) (λ x _, x) (λ x, x)
    (λ v a, Ok (v / 2, a / 2)) (λ x, Ok x) (λ x, x) (λ _, None) "10of15_last_29calls"
    (mk_preset 29 "fixedskip" (preset_params "last" None None None [19; 20; 21; 22; 23; 24; 25; 26; 27] 9))
    (replicate 29 (64, 32)) (λ _ _, I) (λ _ _, I) (λ _ _, I) (λ _, I)
    ltac:(unfold PRESETS; right; left) eq_refl) as (rs & c & E & _ & Hi & _).
  exists rs, c. split; [exact E|]. injection Hi as Hi. exact Hi.
Defined.

Lemma stage1_replays_last_witness :
  (zrun (Some (init_controller "fixedskip"
           (preset_params "last" None None None [1; 2; 4] 2) 6)) [(8, 8); (6, 6); (4, 4); (2, 2); (10, 10); (12, 12)]).1 =
  [Ok (4, 4); Ok (4, 4); Ok (4, 4); Ok (1, 1); Ok (1, 1); Ok (6, 6)].
Proof.
  unfold zrun. rewrite (stage1_replays_last zadd zsub (λ _ x, x) QcZ (λ _ x, x) (λ _, 3) (λ x _, x) (λ x, x)
    (λ v a, Ok (v / 2, a / 2)) (λ x, Ok x) (λ x, x)
    (preset_params "last" None None None [1; 2; 4] 2) 6 (0, 0) _ (λ _ _, I) (λ _ _, I) (λ _ _, I) (λ _, I) eq_refl).
  vm_compute. reflexivity.
Defined.
