(* ===== verification/ForwardContext.v ===== *)
(** * The context of a forward pass

    Models [managers/forward_context.py]: the current context is a module variable, set for
    the extent of a [with] block and restored behind it, and what the caches of LTX-2 read
    from it: the stage, the step, the number of steps, the guidance branch and the pass
    ([ltx2_teacache.py], [ltx2_pab.py]). The bookkeeping of batch sizes is off
    ([track_batchsize]). *)

From S2P Require Import Prelude.
Local Open Scope string_scope.
Local Open Scope Z_scope.

(** The attributes the caches read; one the object does not have is [None]. *)
Record AttnMetadata := mk_attn {
  am_ltx2_stage : option string;
  am_ltx2_num_steps : option Z;
}.
Record ForwardBatch := mk_fbatch {
  fb_ltx2_stage : option string;
  fb_stage : option string;
  fb_num_inference_steps : option Z;
  fb_is_cfg_negative : bool;
  fb_do_cfg : bool;
  fb_ltx2_pass_id : option string;
}.
Record ForwardContext := mk_fctx {
  current_timestep : option Z;
  attn_metadata : option AttnMetadata;
  forward_batch : option ForwardBatch;
}.

Section Global.
(** A program's state with the module variable [_forward_context] beside it. *)
Context {S : Type}.
Local Abbreviation St := (option ForwardContext * S)%type.

Definition get_forward_context : M St ForwardContext :=
  c ← gets fst; lift_res (match c with Some c => Ok c | None => Raise AssertionError end).

(** [with set_forward_context(...): body]; the context is restored on every way out. *)
Definition set_forward_context {A} (c : ForwardContext) (body : M St A) : M St A :=
  λ s, let prev_context := s.1 in
       let r := body (Some c, s.2) in
       (r.1, (prev_context, r.2.2)).

Lemma set_forward_context_restores {A} c (body : M St A) s : (set_forward_context c body s).2.1 = s.1.
Proof. done. Qed.

Lemma set_forward_context_inside c s : (set_forward_context c get_forward_context s).1 = Ok c.
Proof. done. Qed.

Lemma get_forward_context_unset (s : S) : get_forward_context (None, s) = (Raise AssertionError, (None, s)).
Proof. done. Qed.
End Global.

(** Python truth: the empty string and zero are false. *)
Definition or_str (a b : option string) : option string :=
  match a with Some s => if bool_decide (s = "") then b else a | None => b end.
Definition or_zero (n : option Z) : Z := default 0 n.

Definition ctx_stage (f : ForwardContext) : string :=
  let s := match attn_metadata f with Some m => am_ltx2_stage m | None => None end in
  match s with
  | Some s => s
  | None => default "stage1" (match forward_batch f with Some b => or_str (fb_ltx2_stage b) (fb_stage b) | None => None end)
  end.

Definition ctx_num_steps (f : ForwardContext) : Z :=
  let n := match attn_metadata f with Some m => or_zero (am_ltx2_num_steps m) | None => 0 end in
  match forward_batch f with
  | Some b => if n <=? 0 then or_zero (fb_num_inference_steps b) else n
  | None => n
  end.

Definition ctx_step (f : ForwardContext) : Z := or_zero (current_timestep f).

(** [LTX2TeaCacheCoordinator._runtime_context]: stage, step, number of steps, pass. *)
Definition teacache_runtime_context (f : option ForwardContext) : string * Z * Z * string :=
  match f with
  | None => ("stage1", 0, 0, "default")
  | Some f =>
      (ctx_stage f, ctx_step f, ctx_num_steps f,
       match forward_batch f with Some b => default "default" (fb_ltx2_pass_id b) | None => "default" end)
  end.

Record RuntimeContext := mk_rctx {
  current_step : Z;
  num_inference_steps : Z;
  stage : string;
  branch : string;
  pass_id : string;
}.

(** [LTX2PABCoordinator._context_from_forward_context] *)
Definition pab_context_from_forward_context (f : option ForwardContext) : option RuntimeContext :=
  f ← f;
  let br := match forward_batch f with
            | Some b => if fb_is_cfg_negative b then "negative" else if fb_do_cfg b then "positive" else "default"
            | None => "default"
            end in
  Some (mk_rctx (ctx_step f) (ctx_num_steps f) (ctx_stage f) br
          (match forward_batch f with Some b => default br (fb_ltx2_pass_id b) | None => "default" end)).
