(* ===== verification/ResidualCache.v ===== *)
(** * Residual caches: what the TeaCache coordinators share

    [LTX2TeaCacheCoordinator] ([runtime/cache/ltx2_teacache.py]) and
    [Cosmos3TeaCacheCoordinator] ([runtime/cache/cosmos3_teacache.py]) keep one entry per key:
    the residual of the blocks at the last computed call, the feature the call had, the
    distance accumulated over replays and the number of consecutive replays. This file holds
    the statistics, the entries and the ladder of conditions under which an entry is
    replayed, and proves once, for both, that replays stay close to a computed call. *)

From S2P Require Import Prelude.
Local Open Scope Z_scope.

(** ** Statistics *)

Record TeaStats := mk_stats {
  calls : Z;
  computes : Z;
  hits : Z;
  disabled : Z;
  threshold_recomputes : Z;
  periodic_recomputes : Z;
  missing_recomputes : Z;
  boundary_recomputes : Z;
  skipped_steps : list Z;
  computed_steps : list Z;
}.
Definition no_stats : TeaStats := mk_stats 0 0 0 0 0 0 0 0 [] [].

(** Why a call is computed, or that it is answered from the cache. *)
Inductive Reason (D : Type) :=
  | disabled_or_boundary
  | missing_cache
  | periodic_recompute
  | continuous_hit_cap
  | feature_shape_changed
  | threshold_exceeded (accumulated : D)
  | cache_hit.
Arguments disabled_or_boundary {D}.
Arguments missing_cache {D}.
Arguments periodic_recompute {D}.
Arguments continuous_hit_cap {D}.
Arguments feature_shape_changed {D}.
Arguments threshold_exceeded {D}.
Arguments cache_hit {D}.

Definition is_hit {D} (r : Reason D) : bool := match r with cache_hit => true | _ => false end.

Definition count_call (s : TeaStats) : TeaStats :=
  mk_stats (calls s + 1) (computes s) (hits s) (disabled s) (threshold_recomputes s) (periodic_recomputes s)
    (missing_recomputes s) (boundary_recomputes s) (skipped_steps s) (computed_steps s).

(** The counters a decision adds to. *)
Definition count_reason {D} (step : Z) (r : Reason D) (s : TeaStats) : TeaStats :=
  let computed t p m :=
    mk_stats (calls s) (computes s + 1) (hits s) (disabled s) (threshold_recomputes s + t)
      (periodic_recomputes s + p) (missing_recomputes s + m) (boundary_recomputes s)
      (skipped_steps s) (computed_steps s ++ [step]) in
  match r with
  | disabled_or_boundary =>
      mk_stats (calls s) (computes s) (hits s) (disabled s + 1) (threshold_recomputes s) (periodic_recomputes s)
        (missing_recomputes s) (boundary_recomputes s + 1) (skipped_steps s) (computed_steps s ++ [step])
  | missing_cache | feature_shape_changed => computed 0 0 1
  | periodic_recompute | continuous_hit_cap => computed 0 1 0
  | threshold_exceeded _ => computed 1 0 0
  | cache_hit =>
      mk_stats (calls s) (computes s) (hits s + 1) (disabled s) (threshold_recomputes s) (periodic_recomputes s)
        (missing_recomputes s) (boundary_recomputes s) (skipped_steps s ++ [step]) (computed_steps s)
  end.

(** Every call is a compute, a hit or out of bounds; every compute has one cause; the logs of
    steps have one element per call. *)
Record stats_ok (s : TeaStats) : Prop := mk_stats_ok {
  so_calls : calls s = computes s + hits s + disabled s;
  so_computes : computes s = threshold_recomputes s + periodic_recomputes s + missing_recomputes s;
  so_disabled : boundary_recomputes s = disabled s;
  so_hits : Z.of_nat (length (skipped_steps s)) = hits s;
  so_computed : Z.of_nat (length (computed_steps s)) = computes s + disabled s;
}.

Lemma no_stats_ok : stats_ok no_stats.
Proof. by split. Qed.

Lemma count_ok {D} step (r : Reason D) s : stats_ok s → stats_ok (count_reason step r (count_call s)).
Proof. intros [H1 H2 H3 H4 H5]. destruct r; split; simpl in *; rewrite ?length_app; simpl; lia. Qed.

(** ** Entries *)

Record Policy := mk_policy {
  threshold : Qc;
  max_continuous_hits : Z;
  periodic_recompute_steps : Z;
}.

Record Entry (R G : Type) := mk_entry {
  previous_feature : option G;
  residual : option R;
  accumulated_distance : Qc;
  last_compute_step : option Z;
  continuous_hits : Z;
}.
Arguments mk_entry {R G}.
Arguments previous_feature {R G}.
Arguments residual {R G}.
Arguments accumulated_distance {R G}.
Arguments last_compute_step {R G}.
Arguments continuous_hits {R G}.

Definition new_entry {R G} : Entry R G := mk_entry None None 0%Qc None 0.

Section Cache.
Context {K R G : Type} `{Countable K}.
(** The shapes of two features agree; the (rescaled) relative distance of two features. *)
Context (same_shape : G → G → bool) (distance : G → G → Qc).
Implicit Types (e : Entry R G) (p : Policy).

Definition periodic_due p (step : Z) e : bool :=
  match last_compute_step e with
  | Some l => (0 <? periodic_recompute_steps p) && (periodic_recompute_steps p <=? step - l)
  | None => false
  end.

Definition decide_entry p (step : Z) (feature : G) e : Reason Qc :=
  match residual e, previous_feature e with
  | Some _, Some prev =>
      if periodic_due p step e then periodic_recompute
      else if (0 <=? max_continuous_hits p) && (max_continuous_hits p <=? continuous_hits e) then continuous_hit_cap
      else if negb (same_shape prev feature) then feature_shape_changed
      else
        let accumulated := (accumulated_distance e + distance feature prev)%Qc in
        if bool_decide (threshold p <= accumulated)%Qc then threshold_exceeded accumulated else cache_hit
  | _, _ => missing_cache
  end.

Definition set_hits (n : Z) e : Entry R G :=
  mk_entry (previous_feature e) (residual e) (accumulated_distance e) (last_compute_step e) n.

(** What a decision writes to the entry. *)
Definition after_decision (feature : G) (r : Reason Qc) e : Entry R G :=
  match r with
  | disabled_or_boundary | missing_cache => e
  | periodic_recompute | continuous_hit_cap | feature_shape_changed => set_hits 0 e
  | threshold_exceeded _ => mk_entry (previous_feature e) (residual e) 0%Qc (last_compute_step e) 0
  | cache_hit =>
      let d := match previous_feature e with Some prev => distance feature prev | None => 0%Qc end in
      mk_entry (previous_feature e) (residual e) (accumulated_distance e + d)%Qc (last_compute_step e)
        (continuous_hits e + 1)
  end.

(** [self._entries.setdefault(key, _Entry())] and the ladder behind it. *)
Definition lookup_entry p (eligible : bool) (step : Z) (k : K) (feature : G) (es : gmap K (Entry R G)) :
    Reason Qc * gmap K (Entry R G) :=
  if negb eligible then (disabled_or_boundary, es)
  else
    let e := default new_entry (es !! k) in
    let r := decide_entry p step feature e in
    (r, <[k := after_decision feature r e]> es).

(** [reset_hits]: whether storing starts a new row of hits. *)
Definition store_entry (reset_hits : bool) (step : Z) (k : K) (feature : G) (rsd : R) (es : gmap K (Entry R G)) :
    gmap K (Entry R G) :=
  let e := default new_entry (es !! k) in
  <[k := mk_entry (Some feature) (Some rsd) (accumulated_distance e) (Some step)
           (if reset_hits then 0 else continuous_hits e)]> es.
End Cache.

(** ** Replays stay close to a computed call *)

Section Traces.
Context {K R G : Type} `{Countable K}.
Context (same_shape : G → G → bool) (distance : G → G → Qc).

(** What an observer of the cache sees, in order. *)
Inductive TeaEvent :=
  | Reset
  | Computed (k : K) (step : Z) (feature : G) (r : R)
  | Replayed (k : K) (step : Z) (feature : G) (r : R).

(** The latest computed call with a key since the last reset, and the distances of the calls
    answered from it since. *)
Record Latest := mk_latest {
  at_step : Z;
  at_feature : G;
  its_residual : R;
  replays : list Qc;
}.

Definition observe (k : K) (o : option Latest) (ev : TeaEvent) : option Latest :=
  match ev with
  | Reset => None
  | Computed k' step f r => if decide (k' = k) then Some (mk_latest step f r []) else o
  | Replayed k' step f _ =>
      if decide (k' = k)
      then (λ l, mk_latest (at_step l) (at_feature l) (its_residual l)
                   (replays l ++ [distance f (at_feature l)])) <$> o
      else o
  end.
Definition latest (k : K) (tr : list TeaEvent) : option Latest := foldl (observe k) None tr.

Lemma latest_snoc k tr ev : latest k (tr ++ [ev]) = observe k (latest k tr) ev.
Proof. unfold latest. by rewrite foldl_app. Qed.

Definition Qcsum (l : list Qc) : Qc := foldr Qcplus 0%Qc l.

Lemma Qcsum_snoc l x : Qcsum (l ++ [x]) = (Qcsum l + x)%Qc.
Proof. induction l as [|y l IH]; simpl; [ring|]. rewrite IH. ring. Qed.

(** A replay is sound when it repeats the residual of the latest computed call with its key,
    of the same shape, within the limits on the number of consecutive replays, on their
    total distance and on the steps since. *)
Definition sound_replay (p : Policy) (tr : list TeaEvent) (k : K) (step : Z) (f : G) (r : R) : Prop :=
  ∃ l, latest k tr = Some l ∧ r = its_residual l ∧ same_shape (at_feature l) f = true ∧
    (0 ≤ max_continuous_hits p → length (replays l) + 1 ≤ max_continuous_hits p) ∧
    (Qcsum (replays l) + distance f (at_feature l) < threshold p)%Qc ∧
    (0 < periodic_recompute_steps p → step - at_step l < periodic_recompute_steps p).

Definition sound_trace (p : Policy) (tr : list TeaEvent) : Prop :=
  ∀ n k step f r, tr !! n = Some (Replayed k step f r) → sound_replay p (take n tr) k step f r.

Lemma sound_trace_snoc p tr ev :
  sound_trace p tr → (∀ k step f r, ev = Replayed k step f r → sound_replay p tr k step f r) →
  sound_trace p (tr ++ [ev]).
Proof.
  intros Ht Hev n k step f r Hn. destruct (decide (n < length tr)%nat) as [Hlt|Hge].
  - rewrite lookup_app_l in Hn by done. rewrite take_app_le by lia. by apply Ht.
  - rewrite lookup_app_r in Hn by lia. apply list_lookup_singleton_Some in Hn as [Hn ->].
    replace n with (length tr) by lia. rewrite take_app_length. auto.
Qed.

Implicit Types (es : gmap K (Entry R G)) (p : Policy).

(** The entry of a key describes its latest computed call. *)
Record describes p (e : Entry R G) (o : option Latest) : Prop := mk_describes {
  d_residual : residual e = its_residual <$> o;
  d_feature : previous_feature e = at_feature <$> o;
  d_step : last_compute_step e = at_step <$> o;
  d_hits : 0 ≤ continuous_hits e;
  d_cap : 0 ≤ max_continuous_hits p → continuous_hits e ≤ max_continuous_hits p;
  d_acc : (0 <= accumulated_distance e)%Qc;
  d_replays : ∀ l, o = Some l → length (replays l) ≤ continuous_hits e ∧ (Qcsum (replays l) <= accumulated_distance e)%Qc;
}.

Definition agrees p es tr : Prop := ∀ k, describes p (default new_entry (es !! k)) (latest k tr).

Lemma agrees_empty p tr : (∀ k, latest k tr = None) → agrees p ∅ tr.
Proof. intros Hn k. rewrite lookup_empty, Hn. by split; simpl; try done; try lia. Qed.

Lemma agrees_reset p es tr : agrees p ∅ (tr ++ [Reset]).
Proof. apply agrees_empty. intros k. by rewrite latest_snoc. Qed.

Lemma agrees_insert p es tr ev k e :
  agrees p es tr → (∀ k', k' ≠ k → latest k' (tr ++ [ev]) = latest k' tr) →
  describes p e (latest k (tr ++ [ev])) → agrees p (<[k := e]> es) (tr ++ [ev]).
Proof.
  intros Ha Hother Hk k'. destruct (decide (k' = k)) as [->|Hne].
  - by rewrite lookup_insert_eq.
  - rewrite lookup_insert_ne, Hother by done. apply Ha.
Qed.

Hypothesis distance_nonneg : ∀ a b, (0 <= distance a b)%Qc.

Lemma lookup_hit p eligible step k f es es' tr :
  agrees p es tr → lookup_entry same_shape distance p eligible step k f es = (cache_hit, es') →
  ∃ r, (default new_entry (es !! k)).(residual) = Some r ∧ eligible = true ∧ sound_replay p tr k step f r ∧
       agrees p es' (tr ++ [Replayed k step f r]).
Proof.
  intros Ha Hl. unfold lookup_entry in Hl. destruct eligible; [|done]. simpl in Hl. injection Hl as Hr <-.
  pose proof (Ha k) as [Dr Df Ds Dh Dc Da Dp]. set (e := default new_entry (es !! k)) in *.
  rewrite Hr. unfold decide_entry in Hr.
  destruct (residual e) as [r|] eqn:Er; [|done]. destruct (previous_feature e) as [prev|] eqn:Ep; [|done].
  destruct (latest k tr) as [l|] eqn:El; [|done]. injection Dr as ->. injection Df as ->.
  destruct (periodic_due p step e) eqn:Epd; [done|].
  destruct (_ && _) eqn:Ecap in Hr; [done|]. destruct (same_shape _ _) eqn:Esh in Hr; [|done]. simpl in Hr.
  case_bool_decide as Eth; [done|]. apply Qcnot_le_lt in Eth.
  destruct (Dp l eq_refl) as [Dl Dsum].
  assert (Hcap : 0 ≤ max_continuous_hits p → continuous_hits e + 1 ≤ max_continuous_hits p).
  { intros Hm. apply andb_false_iff in Ecap as [E|E]; bool_to_prop; lia. }
  exists (its_residual l). split_and!; [done|done| |].
  - exists l. split_and!; try done.
    + intros Hm. specialize (Hcap Hm). lia.
    + eapply Qcle_lt_trans; [|exact Eth]. apply Qcplus_le_compat; [done|apply Qcle_refl].
    + intros Hp. unfold periodic_due in Epd. rewrite Ds in Epd. simpl in Epd.
      apply andb_false_iff in Epd as [E|E]; bool_to_prop; lia.
  - apply agrees_insert; [done| |].
    { intros k' Hne. rewrite latest_snoc. simpl. by rewrite decide_False. }
    rewrite latest_snoc. simpl. rewrite decide_True, El, Ep by done. simpl. split; simpl; try done; try lia.
    + apply (Qcle_trans _ (0 + 0)%Qc); [by compute|]. by apply Qcplus_le_compat.
    + intros l' [= <-]. simpl. rewrite length_app, Qcsum_snoc. simpl. split; [lia|].
      apply Qcplus_le_compat; [done|apply Qcle_refl].
Qed.

(** Storing after any decision but a hit starts a new row. *)
Lemma lookup_store p eligible step step' k f f' rsd es es' reason tr reset_hits :
  agrees p es tr → lookup_entry same_shape distance p eligible step k f es = (reason, es') → is_hit reason = false →
  agrees p (store_entry reset_hits step' k f' rsd es') (tr ++ [Computed k step' f' rsd]).
Proof.
  intros Ha Hl Hh. unfold lookup_entry in Hl. unfold store_entry.
  assert (∃ e, default new_entry (es' !! k) = e ∧ 0 ≤ continuous_hits e ∧
    (0 ≤ max_continuous_hits p → continuous_hits e ≤ max_continuous_hits p) ∧ (0 <= accumulated_distance e)%Qc ∧
    ∀ e', agrees p (<[k := e']> es) (tr ++ [Computed k step' f' rsd]) → agrees p (<[k := e']> es') (tr ++ [Computed k step' f' rsd]))
    as (e & He & H1 & H2 & H3 & H4).
  { pose proof (Ha k) as [_ _ _ Dh Dc Da _]. destruct eligible; simpl in Hl; injection Hl as <- <-; [|by eexists].
    rewrite lookup_insert_eq. eexists. split; [done|].
    split_and!; [..|intros e'; by rewrite insert_insert_eq];
      destruct (decide_entry _ _ _ _ _ _) eqn:E; simpl; try done; try lia. }
  rewrite He. apply H4, agrees_insert; [done| |].
  - intros k' Hne. rewrite latest_snoc. simpl. by rewrite decide_False.
  - rewrite latest_snoc. simpl. rewrite decide_True by done. split; simpl; try done; try by destruct reset_hits.
    intros l [= <-]. simpl. split; [destruct reset_hits; lia|done].
Qed.
End Traces.
Arguments TeaEvent : clear implicits.
Arguments Latest : clear implicits.
