(* ===== verification/Ltx2TeaCache.v ===== *)
(** * TeaCache of LTX-2

    Models [runtime/cache/ltx2_teacache.py] and the part of the LTX-2 transformer's
    [forward] ([models/dits/ltx_2.py]) that consults it: a call whose timestep embedding is
    close enough to that of the last computed call replays the residual the blocks added
    then. Tensor arithmetic and the transformer blocks are parameters. *)

From S2P Require Import Prelude Environ ForwardContext ResidualCache.
Local Open Scope string_scope.
Local Open Scope Z_scope.

Record TeaConfig := mk_tea_config {
  enabled : bool;
  policy : Policy;
  start_step : Z;
  end_step : option Z;
  stage1_enabled : bool;
  stage2_enabled : bool;
  include_audio : bool;
  detach_on_store : bool;
  clone_on_hit : bool;
  log_decisions : bool;
}.

(** Stage, pass, shapes and types of the streams, skipped self-attention blocks, disabled
    cross-attention, perturbation. *)
Definition Key : Type :=
  string * string * list Z * list Z * string * string * list Z * list Z * bool * bool * bool.

(** The arguments of a call to [lookup]; absent block lists are empty. *)
Record TeaCall (X : Type) := mk_call {
  hidden_states : X;
  audio_hidden_states : X;
  temb : X;
  temb_audio : X;
  skip_video_self_attn_blocks : list Z;
  skip_audio_self_attn_blocks : list Z;
  disable_a2v_cross_attn : bool;
  disable_v2a_cross_attn : bool;
  has_perturbation_configs : bool;
  call_pass_id : option string;
}.
Arguments mk_call {X}.
Arguments hidden_states {X}.
Arguments audio_hidden_states {X}.
Arguments temb {X}.
Arguments temb_audio {X}.
Arguments skip_video_self_attn_blocks {X}.
Arguments skip_audio_self_attn_blocks {X}.
Arguments disable_a2v_cross_attn {X}.
Arguments disable_v2a_cross_attn {X}.
Arguments has_perturbation_configs {X}.
Arguments call_pass_id {X}.

(** The video and the audio residual are always written together. *)
Record Coordinator (X G : Type) := mk_coordinator {
  config : TeaConfig;
  entries : gmap Key (Entry (X * X) G);
  stats : dict TeaStats;
  last_stage_step : option (string * Z);
}.
Arguments mk_coordinator {X G}.
Arguments config {X G}.
Arguments entries {X G}.
Arguments stats {X G}.
Arguments last_stage_step {X G}.

Record TeaDecision (X : Type) := mk_decision {
  key : Key;
  reason : Reason Qc;
  replayed : option (X * X);
}.
Arguments mk_decision {X}.
Arguments key {X}.
Arguments reason {X}.
Arguments replayed {X}.
Definition should_skip {X} (d : TeaDecision X) : bool := is_hit (reason d).

Definition init_coordinator {X G} (cfg : TeaConfig) : Coordinator X G := mk_coordinator cfg ∅ [] None.

Definition eligible (cfg : TeaConfig) (stage : string) (step : Z) : bool :=
  if negb (enabled cfg) then false
  else if bool_decide (stage = "stage1") && negb (stage1_enabled cfg) then false
  else if bool_decide (stage = "stage2") && negb (stage2_enabled cfg) then false
  else if step <? start_step cfg then false
  else match end_step cfg with Some e => negb (e <=? step) | None => true end.

Section Coordinator.
Context {X G : Type}.
(** [a + b] and [a - b] on tensors of one shape, [a.shape], [str(a.dtype)],
    [a.float().reshape(-1)], [torch.cat], equality of shapes, and
    [(f - p).abs().mean() / p.abs().mean().clamp_min(1e-6)]. *)
Context (tadd tsub : X → X → X) (shape : X → list Z) (dtype : X → string).
Context (flatten : X → G) (cat : list G → G) (same_shape : G → G → bool) (rel_l1 : G → G → Qc).
Implicit Types (c : Coordinator X G) (a : TeaCall X).

Definition reset c : Coordinator X G := mk_coordinator (config c) ∅ (stats c) None.

Definition feature (cfg : TeaConfig) (temb temb_audio : X) : G :=
  cat (flatten temb :: if include_audio cfg then [flatten temb_audio] else []).

Definition make_key (stage pass_id : string) a : Key :=
  (stage, pass_id, shape (hidden_states a), shape (audio_hidden_states a),
   dtype (hidden_states a), dtype (audio_hidden_states a),
   skip_video_self_attn_blocks a, skip_audio_self_attn_blocks a,
   disable_a2v_cross_attn a, disable_v2a_cross_attn a, has_perturbation_configs a).

(** A new request starts at step 0: a coordinator that has seen another step is reset. *)
Definition starts_anew c (stage : string) (step : Z) : bool :=
  match last_stage_step c with
  | Some s => (step =? 0) && negb (bool_decide (s = (stage, 0)))
  | None => false
  end.

Definition lookup c (f : option ForwardContext) a : TeaDecision X * Coordinator X G :=
  let '(stage, step, _, context_pass_id) := teacache_runtime_context f in
  let pass := default context_pass_id (call_pass_id a) in
  let c := if starts_anew c stage step then reset c else c in
  let k := make_key stage pass a in
  let ft := feature (config c) (temb a) (temb_audio a) in
  let '(r, es) := lookup_entry same_shape rel_l1 (policy (config c)) (eligible (config c) stage step) step k ft (entries c) in
  let st := count_reason step r (count_call (default no_stats (dget stage (stats c)))) in
  let out :=
    if is_hit r
    then (λ rsd, (tadd (hidden_states a) rsd.1, tadd (audio_hidden_states a) rsd.2)) <$>
           residual (default new_entry (entries c !! k))
    else None in
  (mk_decision k r out, mk_coordinator (config c) es (dset stage st (stats c)) (Some (stage, step))).

Definition store c (f : option ForwardContext) (d : TeaDecision X) a (out : X * X) : Coordinator X G :=
  if should_skip d then c
  else
    let '(_, step, _, _) := teacache_runtime_context f in
    let rsd := (tsub out.1 (hidden_states a), tsub out.2 (audio_hidden_states a)) in
    mk_coordinator (config c)
      (store_entry false step (key d) (feature (config c) (temb a) (temb_audio a)) rsd (entries c))
      (stats c) (last_stage_step c).

(** The transformer's blocks, run unless the decision replays. *)
Context (blocks : TeaCall X → X * X).

Definition forward c (f : option ForwardContext) a : (X * X) * Coordinator X G :=
  let '(d, c1) := lookup c f a in
  match replayed d with
  | Some out => (out, c1)
  | None => let out := blocks a in (out, store c1 f d a out)
  end.

(** ** The calls of a run *)

(** What is seen of a call: whether it reset the coordinator, its event, and its output. *)
Record Obs := mk_obs {
  o_reset : bool;
  o_event : TeaEvent Key (X * X) G;
  o_call : TeaCall X;
  o_stage_step : string * Z;
  o_out : X * X;
}.

Definition observe_call c (f : option ForwardContext) a : Obs :=
  let '(stage, step, _, context_pass_id) := teacache_runtime_context f in
  let k := make_key stage (default context_pass_id (call_pass_id a)) a in
  let ft := feature (config c) (temb a) (temb_audio a) in
  let out := (forward c f a).1 in
  let rst := starts_anew c stage step in
  let es := if rst then ∅ else entries c in
  mk_obs rst
    (if should_skip (lookup c f a).1
     then match residual (default new_entry (es !! k)) with
          | Some r => Replayed k step ft r
          | None => Reset
          end
     else Computed k step ft (tsub out.1 (hidden_states a), tsub out.2 (audio_hidden_states a)))
    a (stage, step) out.

Fixpoint run c (fs : list (option ForwardContext * TeaCall X)) : list Obs * Coordinator X G :=
  match fs with
  | [] => ([], c)
  | (f, a) :: fs =>
      let r := run (forward c f a).2 fs in
      (observe_call c f a :: r.1, r.2)
  end.

Definition events_of (o : Obs) : list (TeaEvent Key (X * X) G) :=
  if o_reset o then [Reset; o_event o] else [o_event o].
Definition trace (os : list Obs) : list (TeaEvent Key (X * X) G) := os ≫= events_of.
End Coordinator.
Arguments Obs : clear implicits.

(** ** Installation *)

Section Environment.
Context (float_of : string → option Qc).
Local Abbreviation V s := (String.app "SGLANG_LTX2_TEACACHE_" s).

Definition make_ltx2_teacache_config_from_env (env : environ) : TeaConfig :=
  let e := env_int env (V "END") (-1) in
  mk_tea_config
    (env_flag env (V "ENABLED") false)
    (mk_policy (env_float float_of env (V "THRESH") (Q2Qc (QArith_base.Qmake 4 100)))
       (env_int env (V "MAX_CONTINUOUS_HITS") 1) (env_int env (V "PERIODIC_RECOMPUTE_STEPS") 0))
    (env_int env (V "START") 6)
    (if e <? 0 then None else Some e)
    (env_flag env (V "STAGE1_ENABLED") true)
    (negb (env_flag env (V "STAGE2_DISABLE") true))
    (env_flag env (V "INCLUDE_AUDIO") true)
    (env_flag env (V "DETACH_ON_STORE") true)
    (env_flag env (V "CLONE_ON_HIT") false)
    (env_flag env (V "LOG_DECISIONS") false).

(** The coordinator of a transformer is made once; later settings only enable or disable it. *)
Definition get_ltx2_teacache_coordinator {X G} (env : environ) (installed : option (Coordinator X G)) :
    option (Coordinator X G) * option (Coordinator X G) :=
  let cfg := make_ltx2_teacache_config_from_env env in
  if negb (enabled cfg) then (None, installed)
  else let c := default (init_coordinator cfg) installed in (Some c, Some c).
End Environment.
