(* ===== verification/Ltx2TeaCacheProps.v ===== *)
(** * TeaCache of LTX-2: replays are sound, statistics add up *)

From S2P Require Import Prelude Environ ForwardContext ResidualCache Ltx2TeaCache.
Local Open Scope Z_scope.

Section Props.
Context {X G : Type}.
Context (tadd tsub : X → X → X) (shape : X → list Z) (dtype : X → string).
Context (flatten : X → G) (cat : list G → G) (same_shape : G → G → bool) (rel_l1 : G → G → Qc).
Context (blocks : TeaCall X → X * X).
Implicit Types (c : Coordinator X G) (a : TeaCall X).

Local Abbreviation lookup := (lookup tadd shape dtype flatten cat same_shape rel_l1).
Local Abbreviation forward := (forward tadd tsub shape dtype flatten cat same_shape rel_l1 blocks).
Local Abbreviation observe_call := (observe_call tadd tsub shape dtype flatten cat same_shape rel_l1 blocks).
Local Abbreviation run := (run tadd tsub shape dtype flatten cat same_shape rel_l1 blocks).

(** What a call returns, by its event. *)
Definition returned (cfg : TeaConfig) (o : Obs X G) : Prop :=
  let a := o_call o in
  match o_event o with
  | Reset => False
  | Computed _ _ _ r =>
      o_out o = blocks a ∧ r = (tsub (o_out o).1 (hidden_states a), tsub (o_out o).2 (audio_hidden_states a))
  | Replayed _ _ _ r =>
      o_out o = (tadd (hidden_states a) r.1, tadd (audio_hidden_states a) r.2) ∧
      eligible cfg (o_stage_step o).1 (o_stage_step o).2 = true
  end.

Hypothesis rel_l1_nonneg : ∀ x y, (0 <= rel_l1 x y)%Qc.

Lemma forward_step c f a tr :
  agrees rel_l1 (policy (config c)) (entries c) tr → sound_trace same_shape rel_l1 (policy (config c)) tr →
  let o := observe_call c f a in
  config (forward c f a).2 = config c ∧ returned (config c) o ∧
  agrees rel_l1 (policy (config c)) (entries (forward c f a).2) (tr ++ events_of o) ∧
  sound_trace same_shape rel_l1 (policy (config c)) (tr ++ events_of o).
Proof.
  intros Ha Hs. unfold Ltx2TeaCache.observe_call, events_of, Ltx2TeaCache.forward, Ltx2TeaCache.lookup, should_skip.
  destruct (teacache_runtime_context f) as [[[stage step] n] pass] eqn:Ef.
  set (c0 := if starts_anew c stage step then reset c else c).
  set (k := make_key shape dtype stage (default pass (call_pass_id a)) a).
  set (tr0 := if starts_anew c stage step then tr ++ [Reset] else tr).
  assert (Hc0 : config c0 = config c) by (by unfold c0; destruct (starts_anew c stage step)).
  assert (Ha0 : agrees rel_l1 (policy (config c)) (entries c0) tr0).
  { unfold c0, tr0. destruct (starts_anew c stage step); [|done]. apply (agrees_reset _ _ (entries c)). }
  assert (Hs0 : sound_trace same_shape rel_l1 (policy (config c)) tr0).
  { unfold tr0. destruct (starts_anew c stage step); [|done]. by apply sound_trace_snoc. }
  assert (Hes : (if starts_anew c stage step then ∅ else entries c) = entries c0)
    by (by unfold c0; destruct (starts_anew c stage step)).
  assert (Htr : ∀ ev, tr ++ (if starts_anew c stage step then [Reset; ev] else [ev]) = tr0 ++ [ev]).
  { intros ev. unfold tr0. destruct (starts_anew c stage step); [by rewrite <-app_assoc|done]. }
  simpl. rewrite Hes, Hc0, Htr.
  destruct (lookup_entry same_shape rel_l1 _ _ step k _ (entries c0)) as [r es] eqn:El. simpl.
  destruct (is_hit r) eqn:Eh.
  - destruct r; try done. destruct (lookup_hit _ _ rel_l1_nonneg _ _ _ _ _ _ _ _ Ha0 El) as (rsd & Er & He & Hso & Hag).
    rewrite Er. simpl. split_and!; [done|done|done|]. apply sound_trace_snoc; [done|]. intros ? ? ? ? [=]. by subst.
  - simpl. unfold store, should_skip. simpl. rewrite Eh, Ef. simpl. split_and!; [done|done| |].
    + by eapply lookup_store.
    + by apply sound_trace_snoc.
Qed.

Lemma run_inv c fs tr :
  agrees rel_l1 (policy (config c)) (entries c) tr → sound_trace same_shape rel_l1 (policy (config c)) tr →
  Forall (returned (config c)) (run c fs).1 ∧
  sound_trace same_shape rel_l1 (policy (config c)) (tr ++ trace (run c fs).1).
Proof.
  revert c tr. induction fs as [|[f a] fs IH]; intros c tr Ha Hs; simpl; [by rewrite app_nil_r|].
  destruct (forward_step c f a tr Ha Hs) as (Hc & Hr & Ha' & Hs').
  destruct (IH (forward c f a).2 (tr ++ events_of (observe_call c f a))) as [HF HT]; rewrite ?Hc; [done..|].
  rewrite Hc in HF, HT. split; [by constructor|]. unfold trace in *. simpl. by rewrite app_assoc.
Qed.

(** ** Statistics *)

Definition all_stats_ok c : Prop := ∀ stage s, dget stage (stats c) = Some s → stats_ok s.

Lemma forward_stats c f a : all_stats_ok c → all_stats_ok (forward c f a).2.
Proof.
  intros H. unfold Ltx2TeaCache.forward, Ltx2TeaCache.lookup, store.
  destruct (teacache_runtime_context f) as [[[stage step] n] pass] eqn:Ef.
  assert (Hc : all_stats_ok (if starts_anew c stage step then reset c else c)) by (by destruct (starts_anew c stage step)).
  revert Hc. generalize (if starts_anew c stage step then reset c else c). intros c0 Hc.
  destruct (lookup_entry _ _ _ _ _ _ _ _) as [r es]. simpl.
  assert (Hn : ∀ sg s, dget sg (dset stage (count_reason step r (count_call (default no_stats (dget stage (stats c0))))) (stats c0)) = Some s →
    stats_ok s).
  { intros sg s. rewrite dget_dset. case_decide; [|apply Hc]. intros [= <-]. apply count_ok.
    destruct (dget stage (stats c0)) eqn:E; [by eapply Hc|apply no_stats_ok]. }
  destruct (if is_hit r then _ else _); [done|]. unfold should_skip. simpl. by destruct (is_hit r).
Qed.
End Props.

(** C30 - In any sequence of calls of the LTX-2 transformer with TeaCache, from a fresh
    coordinator and whatever the embeddings: a call either runs the blocks or replays the
    residual of the latest computed call with the same key (stage, pass, shapes, guidance
    settings) since the last reset; replayed calls are eligible, at most
    [max_continuous_hits] follow one computed call, their distances to it add up to less
    than the threshold, and none is [periodic_recompute_steps] or more steps behind it; and
    the statistics of every stage add up. *)
Theorem ltx2_replays_sound {X G} (tadd tsub : X → X → X) shape dtype (flatten : X → G) cat same_shape rel_l1 blocks
    (cfg : TeaConfig) fs :
  (∀ x y, (0 <= rel_l1 x y)%Qc) →
  let r := run tadd tsub shape dtype flatten cat same_shape rel_l1 blocks (init_coordinator cfg) fs in
  Forall (returned tadd tsub blocks cfg) r.1 ∧
  sound_trace same_shape rel_l1 (policy cfg) (trace r.1) ∧
  all_stats_ok r.2.
Proof.
  intros Hd r. destruct (run_inv tadd tsub shape dtype flatten cat same_shape rel_l1 blocks Hd (init_coordinator cfg) fs [])
    as [HF HT]; [by apply agrees_empty|intros n k step f rs Hn; by rewrite lookup_nil in Hn|].
  split_and!; [done|done|]. unfold r. assert (Hi : all_stats_ok (init_coordinator (X:=X) (G:=G) cfg)) by done.
  revert Hi. generalize (init_coordinator (X:=X) (G:=G) cfg). clear.
  induction fs as [|[f a] fs IH]; intros c Hc; simpl; [done|]. apply IH. by apply forward_stats.
Qed.

(** Streams are numbers; the blocks double them; the distance of two embeddings is their
    difference. The second call replays the residual of the first, the third is computed
    because one replay in a row is allowed, the fourth replays the residual of the third. *)
Definition demo_config : TeaConfig :=
  mk_tea_config true (mk_policy (Q2Qc (QArith_base.inject_Z 5)) 1 0) 1 None true false false true false false.
Definition demo_calls : list (option ForwardContext * TeaCall Z) :=
  (λ p, (Some (mk_fctx (Some p.1) None None), mk_call p.2 7 (p.2 + 1) 0 [] [] false false false None)) <$>
    [(0, 10); (1, 11); (2, 12); (3, 13)].
Definition demo_distance (x y : Z) : Qc := Q2Qc (QArith_base.inject_Z (Z.abs (x - y))).

Lemma demo_distance_nonneg x y : (0 <= demo_distance x y)%Qc.
Proof.
  unfold demo_distance, Qcle. cbn [this Q2Qc].
  rewrite (Qreduction.Qred_correct (QArith_base.inject_Z (Z.abs (x - y)))).
  unfold QArith_base.Qle. cbn [QArith_base.Qnum QArith_base.Qden QArith_base.inject_Z]. simpl. lia.
Qed.

Lemma ltx2_replays_sound_witness :
  let r := run Z.add Z.sub (λ _, []) (λ _, ""%string) id (λ l, Zsum l) (λ _ _, true) demo_distance
             (λ a, (2 * hidden_states a, 2 * audio_hidden_states a)) (init_coordinator demo_config) demo_calls in
  o_out <$> r.1 = [(20, 14); (21, 14); (24, 14); (25, 14)] ∧ all_stats_ok r.2 ∧
  sound_trace (λ _ _, true) demo_distance (policy demo_config) (trace r.1).
Proof.
  intros r. destruct (ltx2_replays_sound Z.add Z.sub (λ _, []) (λ _, ""%string) id (λ l, Zsum l) (λ _ _, true) demo_distance
    (λ a, (2 * hidden_states a, 2 * audio_hidden_states a)) demo_config demo_calls demo_distance_nonneg) as (_ & H1 & H2).
  split_and!; [vm_compute; reflexivity|exact H2|exact H1].
Defined.
