(* ===== verification/Cosmos3TeaCache.v ===== *)
(** * TeaCache of Cosmos3

    Models [runtime/cache/cosmos3_teacache.py] and its use in [models/dits/cosmos3video.py]:
    the generation pathway's decoder layers are skipped and their residual is replayed when
    the hidden states are close to those of the last computed step of the same guidance
    branch. The distance is rescaled by a calibration polynomial before it is accumulated.
    Tensor arithmetic, the layers and the average over sequence-parallel ranks are
    parameters. *)

From S2P Require Import Prelude Environ ResidualCache.
Local Open Scope string_scope.
Local Open Scope Z_scope.

Module Cosmos3.

Record Config := mk_config {
  enabled : bool;
  policy : Policy;
  start_step : Z;
  end_step : option Z;
  detach_on_store : bool;
  clone_on_hit : bool;
  log_decisions : bool;
  coefficients : list Qc;
}.

(** The guidance branch's cache key, shape and type of the states, frame mask, sharding. *)
Definition Key : Type := string * list Z * string * bool * bool.

Record Call (X : Type) := mk_call {
  hidden_gen : X;
  cache_key : string;
  step : Z;
  num_inference_steps : option Z;
  noisy_frame_mask_present : bool;
  sequence_shard_enabled : bool;
}.
Arguments mk_call {X}.
Arguments hidden_gen {X}.
Arguments cache_key {X}.
Arguments step {X}.
Arguments num_inference_steps {X}.
Arguments noisy_frame_mask_present {X}.
Arguments sequence_shard_enabled {X}.

(** Features are hidden states, residuals are differences of hidden states. *)
Record Coordinator (X : Type) := mk_coordinator {
  config : Config;
  entries : gmap Key (Entry X X);
  stats : dict TeaStats;
}.
Arguments mk_coordinator {X}.
Arguments config {X}.
Arguments entries {X}.
Arguments stats {X}.

Definition init_coordinator {X} (cfg : Config) : Coordinator X := mk_coordinator cfg ∅ [].

Definition eligible (cfg : Config) (step : Z) (num_inference_steps : option Z) : bool :=
  if negb (enabled cfg) then false
  else if step <? start_step cfg then false
  else if (match num_inference_steps with Some n => n - 1 <=? step | None => false end) then false
  else match end_step cfg with Some e => negb (e <=? step) | None => true end.

(** Horner's scheme, highest degree first. *)
Definition poly1d (cs : list Qc) (x : Qc) : Qc := foldl (λ value c, value * x + c)%Qc 0%Qc cs.

Section Coordinator.
Context {X : Type}.
Context (tadd tsub : X → X → X) (shape : X → list Z) (dtype : X → string) (rel_l1 : X → X → Qc).
Implicit Types (c : Coordinator X) (a : Call X).

Definition reset c : Coordinator X := mk_coordinator (config c) ∅ (stats c).
Definition reset_stats c : Coordinator X := mk_coordinator (config c) (entries c) [].

Definition make_key a : Key :=
  (cache_key a, shape (hidden_gen a), dtype (hidden_gen a), noisy_frame_mask_present a, sequence_shard_enabled a).

Definition same_shape (x y : X) : bool := bool_decide (shape x = shape y).

(** [max(0.0, _poly1d(coefficients, rel_l1))] *)
Definition distance (cfg : Config) (x prev : X) : Qc :=
  let d := poly1d (coefficients cfg) (rel_l1 x prev) in
  if decide (d <= 0)%Qc then 0%Qc else d.

Definition lookup c a : Reason Qc * option X * Coordinator X :=
  let cfg := config c in
  let k := make_key a in
  let '(r, es) := lookup_entry same_shape (distance cfg) (policy cfg)
                    (eligible cfg (step a) (num_inference_steps a)) (step a) k (hidden_gen a) (entries c) in
  let st := count_reason (step a) r (count_call (default no_stats (dget (cache_key a) (stats c)))) in
  let out := if is_hit r then tadd (hidden_gen a) <$> residual (default new_entry (entries c !! k)) else None in
  (r, out, mk_coordinator cfg es (dset (cache_key a) st (stats c))).

Definition store c (r : Reason Qc) a (out : X) : Coordinator X :=
  if is_hit r then c
  else mk_coordinator (config c)
         (store_entry true (step a) (make_key a) (hidden_gen a) (tsub out (hidden_gen a)) (entries c)) (stats c).

(** The decoder layers of the generation pathway. *)
Context (layers : Call X → X).

Definition forward c a : X * Coordinator X :=
  let '(r, out, c1) := lookup c a in
  match out with
  | Some h => (h, c1)
  | None => let h := layers a in (h, store c1 r a h)
  end.

(** A transformer without a coordinator always runs its layers. *)
Definition forward_maybe (o : option (Coordinator X)) a : X * option (Coordinator X) :=
  match o with
  | Some c => let r := forward c a in (r.1, Some r.2)
  | None => (layers a, None)
  end.

Definition observe_call c a : TeaEvent Key X X * Call X * X :=
  let out := (forward c a).1 in
  let k := make_key a in
  (if is_hit (lookup c a).1.1
   then match residual (default new_entry (entries c !! k)) with
        | Some r => Replayed k (step a) (hidden_gen a) r
        | None => Reset
        end
   else Computed k (step a) (hidden_gen a) (tsub out (hidden_gen a)), a, out).

Fixpoint run c (calls : list (Call X)) : list (TeaEvent Key X X * Call X * X) * Coordinator X :=
  match calls with
  | [] => ([], c)
  | a :: calls => let r := run (forward c a).2 calls in (observe_call c a :: r.1, r.2)
  end.
End Coordinator.

Section Environment.
Context (float_of : string → option Qc).
Local Abbreviation V s := (String.app "SGLANG_COSMOS3_TEACACHE_" s).

Definition cosmos3_teacache_config_from_env (env : environ) : Config :=
  mk_config
    (env_flag env (V "ENABLED") false)
    (mk_policy (env_float float_of env (V "THRESH") (Q2Qc (QArith_base.Qmake 4 100)))
       (env_int env (V "MAX_CONTINUOUS_HITS") 1) (env_int env (V "PERIODIC_RECOMPUTE_STEPS") 0))
    (env_int env (V "START") 5)
    (if bool_decide (default "" (dget (V "END") env) = "") then None else Some (env_int env (V "END") (-1)))
    (env_flag env (V "DETACH_ON_STORE") true)
    (env_flag env (V "CLONE_ON_HIT") false)
    (env_flag env (V "LOG_DECISIONS") false)
    (env_float_tuple float_of env (V "COEFFICIENTS") [1%Qc; 0%Qc]).

(** The coordinator is made with the transformer, where the environment enables it. *)
Definition init_teacache {X} (env : environ) : option (Coordinator X) :=
  let cfg := cosmos3_teacache_config_from_env env in
  if enabled cfg then Some (init_coordinator cfg) else None.
End Environment.

(** ** Properties *)

Local Close Scope string_scope.

Section Props.
Context {X : Type}.
Context (tadd tsub : X → X → X) (shape : X → list Z) (dtype : X → string) (rel_l1 : X → X → Qc).
Context (layers : Call X → X).
Implicit Types (c : Coordinator X) (a : Call X).
Local Abbreviation forward := (forward tadd tsub shape dtype rel_l1 layers).
Local Abbreviation observe_call := (observe_call tadd tsub shape dtype rel_l1 layers).
Local Abbreviation run := (run tadd tsub shape dtype rel_l1 layers).

Lemma distance_nonneg cfg x y : (0 <= distance rel_l1 cfg x y)%Qc.
Proof. unfold distance. case_decide as E; [apply Qcle_refl|]. by apply Qclt_le_weak, Qcnot_le_lt. Qed.

Definition returned (cfg : Config) (o : TeaEvent Key X X * Call X * X) : Prop :=
  let '(ev, a, out) := o in
  match ev with
  | Reset => False
  | Computed _ _ _ r => out = layers a ∧ r = tsub out (hidden_gen a)
  | Replayed _ _ _ r => out = tadd (hidden_gen a) r ∧ eligible cfg (step a) (num_inference_steps a) = true
  end.

Lemma cosmos3_forward_step c a tr :
  agrees (distance rel_l1 (config c)) (policy (config c)) (entries c) tr →
  let o := observe_call c a in
  config (forward c a).2 = config c ∧ returned (config c) o ∧
  agrees (distance rel_l1 (config c)) (policy (config c)) (entries (forward c a).2) (tr ++ [o.1.1]) ∧
  (∀ k s f r, o.1.1 = Replayed k s f r → sound_replay (same_shape shape) (distance rel_l1 (config c)) (policy (config c)) tr k s f r).
Proof.
  intros Ha. unfold Cosmos3.observe_call, Cosmos3.forward, Cosmos3.lookup.
  destruct (lookup_entry _ _ _ _ _ _ _ _) as [r es] eqn:El. simpl. destruct (is_hit r) eqn:Eh.
  - destruct r; try done.
    destruct (lookup_hit _ _ (distance_nonneg (config c)) _ _ _ _ _ _ _ _ Ha El) as (rsd & Er & He & Hso & Hag).
    rewrite Er. simpl. split_and!; [done|done|done|done|]. intros ? ? ? ? [=]. by subst.
  - simpl. unfold store. rewrite Eh. simpl. split_and!; [done|done|done| |done]. by eapply lookup_store.
Qed.

Lemma cosmos3_run_inv c calls tr :
  agrees (distance rel_l1 (config c)) (policy (config c)) (entries c) tr →
  sound_trace (same_shape shape) (distance rel_l1 (config c)) (policy (config c)) tr →
  Forall (returned (config c)) (run c calls).1 ∧
  sound_trace (same_shape shape) (distance rel_l1 (config c)) (policy (config c)) (tr ++ (run c calls).1.*1.*1).
Proof.
  revert c tr. induction calls as [|a calls IH]; intros c tr Ha Hs; simpl; [by rewrite app_nil_r|].
  destruct (cosmos3_forward_step c a tr Ha) as (Hc & Hr & Ha' & Hs').
  destruct (IH (forward c a).2 (tr ++ [(observe_call c a).1.1])) as [HF HT]; rewrite ?Hc; [done|by apply sound_trace_snoc|].
  rewrite Hc in HF, HT. split; [by constructor|]. by rewrite <-app_assoc in HT.
Qed.

Definition all_stats_ok c : Prop := ∀ k s, dget k (stats c) = Some s → stats_ok s.

Lemma cosmos3_forward_stats c a : all_stats_ok c → all_stats_ok (forward c a).2.
Proof.
  intros Hc. unfold Cosmos3.forward, Cosmos3.lookup, store. destruct (lookup_entry _ _ _ _ _ _ _ _) as [r es]. simpl.
  assert (Hn : ∀ k s, dget k (dset (cache_key a) (count_reason (step a) r (count_call (default no_stats (dget (cache_key a) (stats c))))) (stats c)) = Some s →
    stats_ok s).
  { intros k s. rewrite dget_dset. case_decide; [|apply Hc]. intros [= <-]. apply count_ok.
    destruct (dget (cache_key a) (stats c)) eqn:E; [by eapply Hc|apply no_stats_ok]. }
  destruct (if is_hit r then _ else _); [done|]. by destruct (is_hit r).
Qed.
End Props.

Lemma eligible_bounds cfg step n :
  eligible cfg step (Some n) = true → start_step cfg ≤ step < n - 1.
Proof. unfold eligible. intros H. repeat case_match; simplify_eq; bool_to_prop; lia. Qed.

(** In any sequence of Cosmos3 forward passes with TeaCache, from a fresh coordinator,
    whatever the hidden states, the distances and the calibration polynomial: a pass either
    runs the decoder layers or replays the residual of the latest computed pass with the
    same key, within the limits on consecutive replays, on their accumulated distance and on
    the steps since; no pass before the start step and no last step of a request is
    replayed; and the statistics add up. *)
Theorem cosmos3_replays_sound {X} (tadd tsub : X → X → X) shape dtype rel_l1 layers (cfg : Config) calls :
  let r := run tadd tsub shape dtype rel_l1 layers (init_coordinator cfg) calls in
  Forall (returned tadd tsub layers cfg) r.1 ∧
  sound_trace (same_shape shape) (distance rel_l1 cfg) (policy cfg) r.1.*1.*1 ∧
  (∀ k s f rsd a out n, (Replayed k s f rsd, a, out) ∈ r.1 → num_inference_steps a = Some n →
     start_step cfg ≤ step a < n - 1) ∧
  all_stats_ok r.2.
Proof.
  intros r. destruct (cosmos3_run_inv tadd tsub shape dtype rel_l1 layers (init_coordinator cfg) calls [])
    as [HF HT]; [by apply agrees_empty|intros n k s f rs Hn; by rewrite lookup_nil in Hn|].
  split_and!; [done|done| |].
  - intros k s f rsd a out n Hin Hn. rewrite Forall_forall in HF. apply HF in Hin as [_ He].
    rewrite Hn in He. by apply eligible_bounds in He.
  - unfold r. assert (Hi : all_stats_ok (init_coordinator (X:=X) cfg)) by done.
    revert Hi. generalize (init_coordinator (X:=X) cfg). clear.
    induction calls as [|a calls IH]; intros c Hc; simpl; [done|]. apply IH. by apply cosmos3_forward_stats.
Qed.
End Cosmos3.
