(* ===== verification/Ltx2Pab.v ===== *)
(** * Pyramid attention broadcast of LTX-2

    Models [runtime/cache/ltx2_pab.py], and its installation and use by
    [pipelines_core/stages/ltx_2_denoising.py]: wrappers around the attention modules of the
    transformer blocks return the output of an earlier denoising step while it is inside the
    broadcast window of the kind of attention. The coordinator is shared by all wrappers;
    tensors are values, and the output an attention module would compute is part of the
    call. *)

From S2P Require Import Prelude Environ ForwardContext.
Local Open Scope string_scope.
Local Open Scope Z_scope.

Inductive AttentionKind :=
  | VIDEO_SELF | AUDIO_SELF | PROMPT_VIDEO | PROMPT_AUDIO | AUDIO_TO_VIDEO | VIDEO_TO_AUDIO.

#[global] Instance AttentionKind_eq_dec : EqDecision AttentionKind.
Proof. solve_decision. Defined.

Definition ALL_KINDS : list AttentionKind :=
  [VIDEO_SELF; AUDIO_SELF; PROMPT_VIDEO; PROMPT_AUDIO; AUDIO_TO_VIDEO; VIDEO_TO_AUDIO].

Definition kind_value (k : AttentionKind) : string :=
  match k with
  | VIDEO_SELF => "video_self"
  | AUDIO_SELF => "audio_self"
  | PROMPT_VIDEO => "prompt_video"
  | PROMPT_AUDIO => "prompt_audio"
  | AUDIO_TO_VIDEO => "audio_to_video"
  | VIDEO_TO_AUDIO => "video_to_audio"
  end.

Inductive Bucket := spatial | temporal | cross.

Definition DEFAULT_KIND_WINDOWS (k : AttentionKind) : Bucket :=
  match k with
  | VIDEO_SELF | AUDIO_TO_VIDEO | VIDEO_TO_AUDIO => spatial
  | AUDIO_SELF => temporal
  | PROMPT_VIDEO | PROMPT_AUDIO => cross
  end.

(** The windows and the active segment of a stage. *)
Record StageConfig := mk_stage_config {
  spatial_broadcast_window : Z;
  temporal_broadcast_window : Z;
  cross_broadcast_window : Z;
  active_start_step : option Z;
  active_end_step : option Z;
  active_start_fraction : option Qc;
  active_end_fraction : option Qc;
}.

Record PABConfig := mk_pab_config {
  enabled : bool;
  warmup_steps : Z;
  stage1_enabled : bool;
  stage2_enabled : bool;
  stage1_config : StageConfig;  (** of every stage but [stage2] *)
  stage2_config : StageConfig;
  disable_audio_self : bool;
  disable_audio_video_cross : bool;
  disable_when_perturbed : bool;
  detach_on_store : bool;
  clone_on_hit : bool;
  per_kind_window_overrides : AttentionKind → option Z;
}.

Definition stage_config (cfg : PABConfig) (stage : string) : StageConfig :=
  if bool_decide (stage = "stage2") then stage2_config cfg else stage1_config cfg.

Definition window_for (cfg : PABConfig) (stage : string) (kind : AttentionKind) : Z :=
  match per_kind_window_overrides cfg kind with
  | Some w => Z.max 1 w
  | None =>
      let sc := stage_config cfg stage in
      Z.max 1 (match DEFAULT_KIND_WINDOWS kind with
               | spatial => spatial_broadcast_window sc
               | temporal => temporal_broadcast_window sc
               | cross => cross_broadcast_window sc
               end)
  end.

(** [int(n * fraction)]: towards zero *)
Definition truncate (q : Qc) : Z := Z.quot (QArith_base.Qnum (this q)) (Z.pos (QArith_base.Qden (this q))).

Definition boundary (step : option Z) (fraction : option Qc) (num_steps : Z) : option Z :=
  match step, fraction with
  | Some s, _ => Some s
  | None, Some f => Some (truncate (Q2Qc (QArith_base.inject_Z num_steps) * f)%Qc)
  | None, None => None
  end.

Definition within_active_segment (cfg : PABConfig) (ctx : RuntimeContext) : bool :=
  let sc := stage_config cfg (stage ctx) in
  let start := boundary (active_start_step sc) (active_start_fraction sc) (num_inference_steps ctx) in
  let fin := boundary (active_end_step sc) (active_end_fraction sc) (num_inference_steps ctx) in
  match start with
  | Some s => negb (current_step ctx <? s)
  | None => true
  end &&
  match fin with
  | Some e => negb (e <=? current_step ctx)
  | None => true
  end.

(** A mask's shape, type and device; [None] without a mask. *)
Definition MaskSignature : Type := option (list Z * string * string).

(** A call of a wrapper: its block and kind, what the key and the guards read of the
    arguments, and the output of the wrapped module. *)
Record AttnCall (X : Type) := mk_attn_call {
  block_idx : Z;
  attention_kind : AttentionKind;
  mask_signature : MaskSignature;
  all_perturbed : bool;
  has_perturbation_mask : bool;
  attention_output : X;
}.
Arguments mk_attn_call {X}.
Arguments block_idx {X}.
Arguments attention_kind {X}.
Arguments mask_signature {X}.
Arguments all_perturbed {X}.
Arguments has_perturbation_mask {X}.
Arguments attention_output {X}.

Definition should_attempt_broadcast {X} (cfg : PABConfig) (octx : option RuntimeContext) (a : AttnCall X) : bool :=
  match octx with
  | None => false
  | Some ctx =>
      let kind := attention_kind a in
      if negb (enabled cfg) then false
      else if bool_decide (stage ctx = "stage1") && negb (stage1_enabled cfg) then false
      else if bool_decide (stage ctx = "stage2") && negb (stage2_enabled cfg) then false
      else if current_step ctx <? warmup_steps cfg then false
      else if negb (within_active_segment cfg ctx) then false
      else if window_for cfg (stage ctx) kind <=? 1 then false
      else if disable_audio_self cfg && bool_decide (kind = AUDIO_SELF) then false
      else if disable_audio_video_cross cfg && bool_decide (kind ∈ [AUDIO_TO_VIDEO; VIDEO_TO_AUDIO]) then false
      else if disable_when_perturbed cfg && (all_perturbed a || has_perturbation_mask a) then false
      else true
  end.

Arguments should_attempt_broadcast : simpl never.

(** ** The coordinator *)

(** Stage, branch, pass, block, kind, mask. *)
Definition CacheKey : Type := string * string * string * Z * string * MaskSignature.

Record PABEntry (X : Type) := mk_pab_entry {
  output : X;
  source_step : Z;
  window : Z;
}.
Arguments mk_pab_entry {X}.
Arguments output {X}.
Arguments source_step {X}.
Arguments window {X}.

Record PABStats := mk_pab_stats {
  calls : Z;
  computes : Z;
  hits : Z;
  stores : Z;
  disabled : Z;
}.
Definition no_pab_stats : PABStats := mk_pab_stats 0 0 0 0 0.

Record PAB (X : Type) := mk_pab {
  config : PABConfig;
  cache : gmap CacheKey (PABEntry X);
  stats : AttentionKind → PABStats;
  last_step : option Z;
  manual_context : option RuntimeContext;
}.
Arguments mk_pab {X}.
Arguments config {X}.
Arguments cache {X}.
Arguments stats {X}.
Arguments last_step {X}.
Arguments manual_context {X}.

Section Coordinator.
Context {X : Type}.
Implicit Types (p : PAB X) (a : AttnCall X).

Definition init_pab (cfg : PABConfig) : PAB X := mk_pab cfg ∅ (λ _, no_pab_stats) None None.

Definition reset p : PAB X := mk_pab (config p) ∅ (λ _, no_pab_stats) None (manual_context p).

Definition begin_step p (ctx : RuntimeContext) : PAB X :=
  mk_pab (config p) (cache p) (stats p) (last_step p) (Some ctx).

Definition end_request p : PAB X := reset (mk_pab (config p) (cache p) (stats p) (last_step p) None).

Definition set_config p (cfg : PABConfig) : PAB X :=
  mk_pab cfg (cache p) (stats p) (last_step p) (manual_context p).

Definition set_cache p m : PAB X := mk_pab (config p) m (stats p) (last_step p) (manual_context p).

Definition count p (kind : AttentionKind) (f : PABStats → PABStats) : PAB X :=
  mk_pab (config p) (cache p) (λ k, if decide (k = kind) then f (stats p k) else stats p k)
    (last_step p) (manual_context p).

(** A call at step 0 after one at another step: the cache is another request's. *)
Definition clears p (ctx : RuntimeContext) : bool :=
  (current_step ctx =? 0) && match last_step p with Some l => negb (l =? 0) | None => false end.

Definition get_runtime_context p (f : option ForwardContext) : option RuntimeContext * PAB X :=
  match (match manual_context p with Some c => Some c | None => pab_context_from_forward_context f end) with
  | None => (None, p)
  | Some ctx =>
      (Some ctx, mk_pab (config p) (if clears p ctx then ∅ else cache p) (stats p)
                   (Some (current_step ctx)) (manual_context p))
  end.

Definition cache_key (ctx : RuntimeContext) a : CacheKey :=
  (stage ctx, branch ctx, pass_id ctx, block_idx a, kind_value (attention_kind a), mask_signature a).

Definition add_call (s : PABStats) := mk_pab_stats (calls s + 1) (computes s) (hits s) (stores s) (disabled s).
Definition add_disabled (s : PABStats) := mk_pab_stats (calls s) (computes s) (hits s) (stores s) (disabled s + 1).
Definition add_hit (s : PABStats) := mk_pab_stats (calls s) (computes s) (hits s + 1) (stores s) (disabled s).
Definition add_compute (s : PABStats) := mk_pab_stats (calls s) (computes s + 1) (hits s) (stores s) (disabled s).
Definition add_store (s : PABStats) := mk_pab_stats (calls s) (computes s) (hits s) (stores s + 1) (disabled s).

(** [current_step - source_step < window] *)
Definition usable (ctx : RuntimeContext) (e : PABEntry X) : bool :=
  current_step ctx - source_step e <? window e.

Definition forward_attention p (f : option ForwardContext) a : X * PAB X :=
  let kind := attention_kind a in
  let p0 := count p kind add_call in
  let '(octx, p1) := get_runtime_context p0 f in
  match octx with
  | Some ctx =>
      if should_attempt_broadcast (config p1) octx a then
        let k := cache_key ctx a in
        match cache p1 !! k with
        | Some e =>
            if usable ctx e then (output e, count p1 kind add_hit)
            else
              let out := attention_output a in
              (out, count (set_cache (count p1 kind add_compute)
                      (<[k := mk_pab_entry out (current_step ctx) (window_for (config p1) (stage ctx) kind)]> (cache p1)))
                      kind add_store)
        | None =>
            let out := attention_output a in
            (out, count (set_cache (count p1 kind add_compute)
                    (<[k := mk_pab_entry out (current_step ctx) (window_for (config p1) (stage ctx) kind)]> (cache p1)))
                    kind add_store)
        end
      else (attention_output a, count p1 kind add_disabled)
  | None => (attention_output a, count p1 kind add_disabled)
  end.
End Coordinator.

(** ** Installation of the wrappers

    An attention module of a block is itself or a wrapper that refers to a coordinator. *)

Inductive Module (A : Type) :=
  | Plain (a : A)
  | Wrapped (inner : A) (coordinator : nat) (block_idx : Z) (kind : AttentionKind).
Arguments Plain {A}.
Arguments Wrapped {A}.

Definition kind_of_attr (attr : string) : option AttentionKind :=
  dget attr [("attn1", VIDEO_SELF); ("audio_attn1", AUDIO_SELF); ("attn2", PROMPT_VIDEO);
             ("audio_attn2", PROMPT_AUDIO); ("audio_to_video_attn", AUDIO_TO_VIDEO);
             ("video_to_audio_attn", VIDEO_TO_AUDIO)].

(** A block's modules by attribute name; attributes that are not attention are left alone. *)
Definition Block (A : Type) : Type := dict (Module A).

Definition wrap {A} (coordinator : nat) (idx : Z) (kind : AttentionKind) (m : Module A) : Module A :=
  match m with
  | Plain a => Wrapped a coordinator idx kind
  | Wrapped a _ i k => Wrapped a coordinator i k
  end.

Definition install_block {A} (coordinator : nat) (idx : Z) (b : Block A) : Block A :=
  (λ am, (am.1, match kind_of_attr am.1 with Some kind => wrap coordinator idx kind am.2 | None => am.2 end)) <$> b.

(** [AttributeError] for a transformer without blocks. *)
Definition install_ltx2_pab_hooks {A} (coordinator : nat) (blocks : option (list (Block A))) : res (list (Block A)) :=
  match blocks with
  | None => Raise AttributeError
  | Some bs => Ok (imap (λ i b, install_block coordinator i b) bs)
  end.

Section Environment.
Context (float_of : string → option Qc).
Local Abbreviation V s := (String.app "SGLANG_LTX2_PAB_" s).

Definition kind_env (k : AttentionKind) : string :=
  match k with
  | VIDEO_SELF => V "VIDEO_SELF_WINDOW"
  | AUDIO_SELF => V "AUDIO_SELF_WINDOW"
  | PROMPT_VIDEO => V "PROMPT_VIDEO_WINDOW"
  | PROMPT_AUDIO => V "PROMPT_AUDIO_WINDOW"
  | AUDIO_TO_VIDEO => V "A2V_WINDOW"
  | VIDEO_TO_AUDIO => V "V2A_WINDOW"
  end.

(** A negative end step is none. *)
Definition end_step_env (env : environ) (name : string) : option Z :=
  match ltx2_env_optional_int env name with
  | Some e => if e <? 0 then None else Some e
  | None => None
  end.

Definition make_pab_config_from_env (env : environ) : PABConfig :=
  mk_pab_config true
    (env_int env (V "WARMUP") 0)
    (ltx2_env_flag env (V "STAGE1_ENABLED") true)
    (ltx2_env_flag env (V "STAGE2_ENABLED") false)
    (mk_stage_config (env_int env (V "SPATIAL_WINDOW") 3) (env_int env (V "TEMPORAL_WINDOW") 3)
       (env_int env (V "CROSS_WINDOW") 3)
       (ltx2_env_optional_int env (V "START_STEP")) (end_step_env env (V "END_STEP"))
       (ltx2_env_optional_float float_of env (V "START_FRACTION"))
       (ltx2_env_optional_float float_of env (V "END_FRACTION")))
    (mk_stage_config (env_int env (V "STAGE2_SPATIAL_WINDOW") 1) (env_int env (V "STAGE2_TEMPORAL_WINDOW") 1)
       (env_int env (V "STAGE2_CROSS_WINDOW") 1)
       (ltx2_env_optional_int env (V "STAGE2_START_STEP")) (end_step_env env (V "STAGE2_END_STEP"))
       (ltx2_env_optional_float float_of env (V "STAGE2_START_FRACTION"))
       (ltx2_env_optional_float float_of env (V "STAGE2_END_FRACTION")))
    (ltx2_env_flag env (V "DISABLE_AUDIO_SELF") false)
    (ltx2_env_flag env (V "DISABLE_AUDIO_VIDEO_CROSS") true)
    (ltx2_env_flag env (V "DISABLE_WHEN_PERTURBED") true)
    (ltx2_env_flag env (V "DETACH_ON_STORE") true)
    (ltx2_env_flag env (V "CLONE_ON_HIT") false)
    (λ k, ltx2_env_optional_int env (kind_env k)).

(** The transformer's coordinator: its settings are read anew, it is installed once. On a
    transformer without blocks the installation fails, and is given up. *)
Definition install_pab_if_enabled {X} (env : environ) (has_blocks : bool) (installed : option (PAB X)) :
    option (PAB X) :=
  if negb (ltx2_env_flag env (V "ENABLED") false) then None
  else
    let cfg := make_pab_config_from_env env in
    match installed with
    | Some p => Some (set_config p cfg)
    | None => if has_blocks then Some (init_pab cfg) else None
    end.

(** [_ltx2_begin_pab_step]: every call of the model announces its step; stage and pass. *)
Definition begin_pab_step {X} (env : environ) (has_blocks : bool) (installed : option (PAB X)) (stage : string) (step num_steps : Z)
    (pass : string) : option (PAB X) :=
  match install_pab_if_enabled env has_blocks installed with
  | None => installed
  | Some p => Some (begin_step p (mk_rctx step num_steps stage pass pass))
  end.
End Environment.
