(* ===== verification/Ltx2PabProps.v ===== *)
(** * Pyramid attention broadcast: outputs are broadcast inside their window only *)

From S2P Require Import Prelude Environ ForwardContext Ltx2Pab.
Local Open Scope Z_scope.

Section Props.
Context {X : Type}.
Implicit Types (p : PAB X) (a : AttnCall X).

(** What the coordinator is asked to do, in order. *)
Inductive Action :=
  | Begin (ctx : RuntimeContext)
  | Configure (cfg : PABConfig)
  | EndRequest
  | ResetState
  | Attend (f : option ForwardContext) (a : AttnCall X).

(** What is seen of it: the cache was emptied, by a call or from outside; a call, under the
    settings and the context it met, stored an output, was answered from the cache, or
    bypassed it. [out] is what the call returned. *)
Inductive PabEvent :=
  | Cleared (by_call : option RuntimeContext)
  | Stored (cfg : PABConfig) (ctx : RuntimeContext) (a : AttnCall X) (out : X)
  | Broadcast (cfg : PABConfig) (ctx : RuntimeContext) (a : AttnCall X) (out : X)
  | Bypassed (cfg : PABConfig) (octx : option RuntimeContext) (a : AttnCall X) (out : X).

Definition context_of p (f : option ForwardContext) : option RuntimeContext :=
  match manual_context p with Some c => Some c | None => pab_context_from_forward_context f end.

Definition attend_events p f a : list PabEvent :=
  let out := (forward_attention p f a).1 in
  match context_of p f with
  | None => [Bypassed (config p) None a out]
  | Some ctx =>
      let cl := clears p ctx in
      (if cl then [Cleared (Some ctx)] else []) ++
      [if should_attempt_broadcast (config p) (Some ctx) a then
         match (if cl then ∅ else cache p) !! cache_key ctx a with
         | Some e => if usable ctx e then Broadcast (config p) ctx a out else Stored (config p) ctx a out
         | None => Stored (config p) ctx a out
         end
       else Bypassed (config p) (Some ctx) a out]
  end.

Definition act p (ac : Action) : list PabEvent * PAB X :=
  match ac with
  | Begin ctx => ([], begin_step p ctx)
  | Configure cfg => ([], set_config p cfg)
  | EndRequest => ([Cleared None], end_request p)
  | ResetState => ([Cleared None], reset p)
  | Attend f a => (attend_events p f a, (forward_attention p f a).2)
  end.

Fixpoint pab_run p (l : list Action) : list PabEvent * PAB X :=
  match l with
  | [] => ([], p)
  | ac :: l => let r := act p ac in let rs := pab_run r.2 l in (r.1 ++ rs.1, rs.2)
  end.

(** The latest output stored under a key since the cache was emptied. *)
Definition see (k : CacheKey) (o : option (PABEntry X)) (ev : PabEvent) : option (PABEntry X) :=
  match ev with
  | Cleared _ => None
  | Stored cfg ctx a _ =>
      if decide (cache_key ctx a = k)
      then Some (mk_pab_entry (attention_output a) (current_step ctx) (window_for cfg (stage ctx) (attention_kind a)))
      else o
  | Broadcast _ _ _ _ | Bypassed _ _ _ _ => o
  end.
Definition stored (k : CacheKey) (tr : list PabEvent) : option (PABEntry X) := foldl (see k) None tr.

(** The step of the latest call since the cache was emptied. *)
Definition pass_by (o : option Z) (ev : PabEvent) : option Z :=
  match ev with
  | Cleared _ => None
  | Stored _ ctx _ _ | Broadcast _ ctx _ _ | Bypassed _ (Some ctx) _ _ => Some (current_step ctx)
  | Bypassed _ None _ _ => o
  end.
Definition latest_step (tr : list PabEvent) : option Z := foldl pass_by None tr.

Lemma stored_snoc k tr ev : stored k (tr ++ [ev]) = see k (stored k tr) ev.
Proof. unfold stored. by rewrite foldl_app. Qed.
Lemma latest_step_snoc tr ev : latest_step (tr ++ [ev]) = pass_by (latest_step tr) ev.
Proof. unfold latest_step. by rewrite foldl_app. Qed.

(** A call at step 0 behind one at another step belongs to another request. *)
Definition another_request (tr : list PabEvent) (ctx : RuntimeContext) : Prop :=
  current_step ctx = 0 ∧ ∃ l, latest_step tr = Some l ∧ l ≠ 0.

(** The calls that take part in the broadcast: of an enabled stage, behind the warm-up and in
    the active segment, of a kind with a window of at least two that is not switched off, and
    without perturbation where that is excluded. *)
Definition in_segment (cfg : PABConfig) (ctx : RuntimeContext) : Prop :=
  let sc := stage_config cfg (stage ctx) in
  (∀ s, boundary (active_start_step sc) (active_start_fraction sc) (num_inference_steps ctx) = Some s → s ≤ current_step ctx) ∧
  (∀ e, boundary (active_end_step sc) (active_end_fraction sc) (num_inference_steps ctx) = Some e → current_step ctx < e).
Definition takes_part (cfg : PABConfig) (ctx : RuntimeContext) a : Prop :=
  enabled cfg = true ∧
  (stage ctx = "stage1" → stage1_enabled cfg = true) ∧ (stage ctx = "stage2" → stage2_enabled cfg = true) ∧
  warmup_steps cfg ≤ current_step ctx ∧ in_segment cfg ctx ∧
  1 < window_for cfg (stage ctx) (attention_kind a) ∧
  (disable_audio_self cfg = true → attention_kind a ≠ AUDIO_SELF) ∧
  (disable_audio_video_cross cfg = true → attention_kind a ≠ AUDIO_TO_VIDEO ∧ attention_kind a ≠ VIDEO_TO_AUDIO) ∧
  (disable_when_perturbed cfg = true → all_perturbed a = false ∧ has_perturbation_mask a = false).

Lemma segment_spec cfg ctx : within_active_segment cfg ctx = true ↔ in_segment cfg ctx.
Proof.
  unfold within_active_segment, in_segment. cbv zeta.
  destruct (boundary (active_start_step _) _ _) as [b|], (boundary (active_end_step _) _ _) as [e|];
    rewrite andb_true_iff, ?negb_true_iff, ?Z.ltb_ge, ?Z.leb_gt; naive_solver.
Qed.

Lemma guard_true (c b : bool) : (if c then false else b) = true ↔ c = false ∧ b = true.
Proof. destruct c, b; naive_solver. Qed.
Lemma unless_iff (P : Prop) `{Decision P} (b : bool) : bool_decide P && negb b = false ↔ (P → b = true).
Proof. case_bool_decide; destruct b; naive_solver. Qed.
Lemma and_iff (A B A' B' : Prop) : A ↔ A' → B ↔ B' → A ∧ B ↔ A' ∧ B'.
Proof. tauto. Qed.

Lemma attempt_spec cfg ctx a : should_attempt_broadcast cfg (Some ctx) a = true ↔ takes_part cfg ctx a.
Proof.
  unfold should_attempt_broadcast, takes_part. rewrite <-segment_spec. cbv zeta. rewrite !guard_true.
  rewrite <-(right_id True (∧) (disable_when_perturbed cfg = true → _)).
  repeat apply and_iff.
  - apply negb_false_iff.
  - apply unless_iff.
  - apply unless_iff.
  - apply Z.ltb_ge.
  - apply negb_false_iff.
  - apply Z.leb_gt.
  - rewrite andb_false_iff, bool_decide_eq_false. destruct (disable_audio_self cfg); naive_solver.
  - rewrite andb_false_iff, bool_decide_eq_false. destruct (disable_audio_video_cross cfg); set_unfold; naive_solver.
  - rewrite andb_false_iff, orb_false_iff. destruct (disable_when_perturbed cfg); naive_solver.
  - done.
Qed.

(** An event is sound after a trace. Only a call of another request empties the cache by
    itself, and then it does. A call that takes part returns the latest output stored under
    its key when that is less than its window of steps old, and otherwise its own, which is
    stored; a call that takes no part returns its own. *)
Definition sound_event (tr : list PabEvent) (ev : PabEvent) : Prop :=
  match ev with
  | Cleared None => True
  | Cleared (Some ctx) => another_request tr ctx
  | Broadcast cfg ctx a out =>
      ¬ another_request tr ctx ∧ takes_part cfg ctx a ∧
      ∃ e, stored (cache_key ctx a) tr = Some e ∧ out = output e ∧ current_step ctx - source_step e < window e
  | Stored cfg ctx a out =>
      ¬ another_request tr ctx ∧ takes_part cfg ctx a ∧ out = attention_output a ∧
      ∀ e, stored (cache_key ctx a) tr = Some e → window e ≤ current_step ctx - source_step e
  | Bypassed cfg octx a out =>
      out = attention_output a ∧ ∀ ctx, octx = Some ctx → ¬ another_request tr ctx ∧ ¬ takes_part cfg ctx a
  end.
Definition sound_pab (tr : list PabEvent) : Prop := ∀ n ev, tr !! n = Some ev → sound_event (take n tr) ev.

Lemma sound_pab_snoc tr ev : sound_pab tr → sound_event tr ev → sound_pab (tr ++ [ev]).
Proof.
  intros Ht Hev n ev' Hn. destruct (decide (n < length tr)%nat) as [Hlt|Hge].
  - rewrite lookup_app_l in Hn by done. rewrite take_app_le by lia. by apply Ht.
  - rewrite lookup_app_r in Hn by lia. apply list_lookup_singleton_Some in Hn as [Hn <-].
    replace n with (length tr) by lia. by rewrite take_app_length.
Qed.

Definition tracks p (tr : list PabEvent) : Prop :=
  (∀ k, cache p !! k = stored k tr) ∧ last_step p = latest_step tr.

Lemma clears_spec p tr ctx : tracks p tr → clears p ctx = true ↔ another_request tr ctx.
Proof.
  intros [_ Hl]. unfold clears, another_request. rewrite Hl, andb_true_iff, Z.eqb_eq.
  destruct (latest_step tr); [rewrite negb_true_iff, Z.eqb_neq|]; naive_solver.
Qed.

Lemma attempt_window (cfg : PABConfig) ctx a :
  should_attempt_broadcast cfg (Some ctx) a = true → 1 < window_for cfg (stage ctx) (attention_kind a).
Proof. intros H. apply attempt_spec in H. by destruct H as (_ & _ & _ & _ & _ & H & _). Qed.

Lemma store_tracks p m cfg ctx a tr out :
  (∀ k, m !! k = stored k tr) → last_step p = Some (current_step ctx) →
  cache p = <[cache_key ctx a := mk_pab_entry (attention_output a) (current_step ctx)
    (window_for cfg (stage ctx) (attention_kind a))]> m →
  tracks p (tr ++ [Stored cfg ctx a out]).
Proof.
  intros Hm Hl Hc. split; [|by rewrite latest_step_snoc]. intros k. rewrite stored_snoc, Hc. simpl.
  case_decide as E; [subst; by rewrite lookup_insert_eq|by rewrite lookup_insert_ne].
Qed.

(** The context of a call: the cache is emptied when it is of another request. *)
Lemma enter_sound p f tr ctx :
  context_of p f = Some ctx → tracks p tr → sound_pab tr →
  let tr0 := tr ++ (if clears p ctx then [Cleared (Some ctx)] else []) in
  (∀ k, (if clears p ctx then ∅ else cache p) !! k = stored k tr0) ∧ sound_pab tr0 ∧ ¬ another_request tr0 ctx.
Proof.
  intros _ Ht Hs. pose proof (clears_spec p tr ctx Ht) as Hc. destruct (clears p ctx); simpl.
  - split_and!.
    + intros k. by rewrite lookup_empty, stored_snoc.
    + apply sound_pab_snoc; [done|]. by apply Hc.
    + intros (_ & l & Hl & _). by rewrite latest_step_snoc in Hl.
  - rewrite app_nil_r. split_and!; [apply Ht|done|]. by rewrite <-Hc.
Qed.

(** One call. *)
Lemma attend_sound p f a tr :
  tracks p tr → sound_pab tr →
  tracks (forward_attention p f a).2 (tr ++ attend_events p f a) ∧ sound_pab (tr ++ attend_events p f a).
Proof.
  intros Hp Hs. unfold attend_events, forward_attention, get_runtime_context.
  change (manual_context (count p (attention_kind a) add_call)) with (manual_context p). fold (context_of p f).
  destruct (context_of p f) as [ctx|] eqn:Ec; simpl.
  2: { split; [|by apply sound_pab_snoc]. split; [intros k; rewrite stored_snoc|rewrite latest_step_snoc]; apply Hp. }
  change (clears (count p (attention_kind a) add_call) ctx) with (clears p ctx).
  destruct (enter_sound p f tr ctx Ec Hp Hs) as (Hm & Hs0 & Hn).
  rewrite app_assoc. set (tr0 := tr ++ _) in *. set (m := if clears p ctx then ∅ else cache p) in *.
  destruct (should_attempt_broadcast (config p) (Some ctx) a) eqn:Eat; simpl.
  2: { split; [split; [intros k; rewrite stored_snoc; simpl; apply Hm|by rewrite latest_step_snoc]|].
       apply sound_pab_snoc; [done|]. split; [done|]. intros ? [= <-]. split; [done|].
       rewrite <-attempt_spec. congruence. }
  apply attempt_spec in Eat.
  destruct (m !! cache_key ctx a) as [e|] eqn:Ek; [destruct (usable ctx e) eqn:Eu|]; simpl; unfold usable in *; bool_to_prop.
  - split; [split; [intros k; rewrite stored_snoc; simpl; apply Hm|by rewrite latest_step_snoc]|].
    apply sound_pab_snoc; [done|]. split_and!; [done|done|]. exists e. by rewrite <-Hm.
  - split; [by apply (store_tracks _ m)|]. apply sound_pab_snoc; [done|]. split_and!; [done..|].
    intros e' He. rewrite <-Hm, Ek in He. injection He as <-. lia.
  - split; [by apply (store_tracks _ m)|]. apply sound_pab_snoc; [done|]. split_and!; [done..|].
    intros e' He. rewrite <-Hm, Ek in He. done.
Qed.

Lemma act_sound p ac tr :
  tracks p tr → sound_pab tr → tracks (act p ac).2 (tr ++ (act p ac).1) ∧ sound_pab (tr ++ (act p ac).1).
Proof.
  intros Hp Hs. destruct ac as [ctx|cfg| | |f a]; simpl; rewrite ?app_nil_r; [done|done| | |by apply attend_sound].
  all: split; [split; [intros k; by rewrite stored_snoc|by rewrite latest_step_snoc]|by apply sound_pab_snoc].
Qed.

Lemma pab_run_sound p l tr :
  tracks p tr → sound_pab tr → sound_pab (tr ++ (pab_run p l).1).
Proof.
  revert p tr. induction l as [|ac l IH]; intros p tr Hp Hs; simpl; [by rewrite app_nil_r|].
  destruct (act_sound p ac tr Hp Hs). rewrite app_assoc. by apply IH.
Qed.

(** ** Statistics *)

Definition pab_stats_ok (s : PABStats) : Prop := calls s = computes s + hits s + disabled s ∧ stores s = computes s.

Lemma act_stats p ac : (∀ k, pab_stats_ok (stats p k)) → ∀ k, pab_stats_ok (stats (act p ac).2 k).
Proof.
  intros H k. destruct ac as [ctx|cfg| | |f a]; simpl; try apply H; try done.
  specialize (H k). unfold pab_stats_ok in *. unfold forward_attention, get_runtime_context.
  change (manual_context (count p (attention_kind a) add_call)) with (manual_context p). fold (context_of p f).
  destruct (context_of p f) as [ctx|]; simpl; [|case_decide; simpl; lia].
  repeat (case_match; simpl); lia.
Qed.

Lemma pab_run_stats p l : (∀ k, pab_stats_ok (stats p k)) → ∀ k, pab_stats_ok (stats (pab_run p l).2 k).
Proof.
  revert p. induction l as [|ac l IH]; intros p H; simpl; [done|]. apply IH. by apply act_stats.
Qed.

(** C31 - For any sequence of step announcements, settings, resets and attention calls: a call
    takes part in the broadcast when it is of an enabled stage, behind the warm-up and in the
    active segment, of a kind with a window of at least two that is not switched off, and
    without perturbation where that is excluded. A call that takes part returns the output
    the latest computed call of the same stage, branch, pass, block, kind and mask shape
    stored since the cache was emptied, when that is less than that call's window of steps
    old; otherwise it returns its own output and stores it. Every other call returns its own.
    A call at step 0 empties the cache first exactly when the latest call before it, since
    the cache was emptied, was at another step. The counters of every kind add up. *)
Theorem pab_broadcast_sound (cfg : PABConfig) (l : list Action) :
  let r := pab_run (init_pab cfg) l in
  sound_pab r.1 ∧ ∀ k, pab_stats_ok (stats r.2 k).
Proof.
  split.
  - apply (pab_run_sound (init_pab cfg) l []); [split; [intros k; apply lookup_empty|done]|].
    intros n ev Hn. by rewrite lookup_nil in Hn.
  - by apply pab_run_stats.
Qed.

(** ** Requests *)

(** A call at step 0 after one at another step computes: what it returns is its own. *)
Lemma pab_new_request p f ctx a l :
  context_of p f = Some ctx → current_step ctx = 0 → last_step p = Some l → l ≠ 0 →
  (forward_attention p f a).1 = attention_output a.
Proof.
  intros Hc H0 Hl Hne. unfold forward_attention, get_runtime_context.
  change (manual_context (count p (attention_kind a) add_call)) with (manual_context p). fold (context_of p f).
  rewrite Hc. simpl. unfold clears. simpl. rewrite Hl, H0. simpl.
  rewrite (proj2 (Z.eqb_neq l 0) Hne). simpl. rewrite lookup_empty. by case_match.
Qed.

Lemma attend_last_step p f ctx a :
  context_of p f = Some ctx → last_step (forward_attention p f a).2 = Some (current_step ctx).
Proof.
  intros Hc. unfold forward_attention, get_runtime_context.
  change (manual_context (count p (attention_kind a) add_call)) with (manual_context p). fold (context_of p f).
  rewrite Hc. cbn -[lookup]. destruct (should_attempt_broadcast _ _ _); [|done].
  destruct (_ !! _) as [e|]; [destruct (usable ctx e)|]; done.
Qed.

(** The cache tells requests apart by a step other than 0 between them, and by nothing
    else: when the denoising loop announces step 0 for a request and an attention call of it
    is stored, then the call at step 0 of the next request, if no other step was seen
    between, is answered with the first request's output; after any call at another step it
    is computed. *)
Theorem pab_one_step_requests (cfg : PABConfig) ctx f a b :
  current_step ctx = 0 →
  should_attempt_broadcast cfg (Some ctx) a = true → should_attempt_broadcast cfg (Some ctx) b = true →
  cache_key ctx b = cache_key ctx a →
  let first := forward_attention (begin_step (init_pab cfg) ctx) f a in
  (forward_attention (begin_step first.2 ctx) f b).1 = attention_output a ∧
  ∀ ctx' c, current_step ctx' ≠ 0 →
    (forward_attention (begin_step (forward_attention (begin_step first.2 ctx') f c).2 ctx) f b).1 = attention_output b.
Proof.
  intros H0 Ha Hb Hk. split.
  - unfold forward_attention, get_runtime_context, clears. simpl. rewrite H0. simpl.
    rewrite Ha, lookup_empty. simpl. rewrite Hb, Hk, lookup_insert_eq. unfold usable. simpl.
    rewrite H0. pose proof (attempt_window _ _ _ Ha). by rewrite (proj2 (Z.ltb_lt _ _)) by lia.
  - intros ctx' c Hne. eapply (pab_new_request _ _ ctx _ (current_step ctx')); [done|done| |done].
    exact (attend_last_step (begin_step _ ctx') f ctx' c eq_refl).
Qed.
End Props.

(** Two requests of one step each, under the settings of the environment's defaults. *)
Definition demo_pab_config : PABConfig := make_pab_config_from_env (λ _, None) [].

Lemma pab_one_step_requests_witness :
  let ctx := mk_rctx 0 1 "stage1" "default" "default" in
  let call x := mk_attn_call 0 PROMPT_VIDEO None false false x in
  let first := forward_attention (begin_step (init_pab demo_pab_config) ctx) None (call 17) in
  (forward_attention (begin_step first.2 ctx) None (call 23)).1 = 17.
Proof.
  intros ctx call first.
  assert (Ha : should_attempt_broadcast demo_pab_config (Some ctx) (call 17) = true) by (vm_compute; reflexivity).
  assert (Hb : should_attempt_broadcast demo_pab_config (Some ctx) (call 23) = true) by (vm_compute; reflexivity).
  exact (proj1 (pab_one_step_requests demo_pab_config ctx None (call 17) (call 23) eq_refl Ha Hb eq_refl)).
Defined.

(** ** Installation *)

(** Installing again refers the wrappers to the new coordinator and wraps nothing twice. *)
Theorem pab_install_idempotent {A} c1 c2 (bs bs' : list (Block A)) :
  install_ltx2_pab_hooks c1 (Some bs) = Ok bs' →
  install_ltx2_pab_hooks c2 (Some bs') = install_ltx2_pab_hooks c2 (Some bs).
Proof.
  intros [= <-]. simpl. f_equal.
  apply list_eq. intros i. rewrite !list_lookup_imap. destruct (bs !! i) as [b|]; [|done]. simpl. f_equal.
  unfold install_block. rewrite <-list_fmap_compose. apply list_fmap_ext. intros j [attr m] _. simpl.
  destruct (kind_of_attr attr); [|done]. by destruct m.
Qed.
