(* ===== verification/TeaCacheMixin.v ===== *)
(** * TeaCache of the diffusion transformers

    Models [runtime/cache/teacache.py] (the mixin every DiT inherits), the parameters in
    [configs/sample/teacache.py] and the use Wan makes of them in [models/dits/wanvideo.py]:
    a forward pass whose modulated input is close to that of the pass before adds the
    residual of the last computed pass instead of running the blocks. There is one cache for
    each of the two guidance branches. The forward context is an argument; tensor arithmetic
    and the blocks are parameters. *)

From S2P Require Import Prelude.
Local Open Scope string_scope.
Local Open Scope Z_scope.

(** ** Parameters *)

(** [int | float] *)
Inductive Limit := LInt (n : Z) | LFloat (f : Qc).

Record TeaCacheParams := mk_tcparams {
  teacache_thresh : Qc;
  start_skipping : Limit;
  end_skipping : Limit;
  coefficients : list Qc;
  coefficients_callback : option (Qc → option bool → list Qc);
  use_ret_steps : option bool;
}.

(** The callback is given the parameters; it reads the threshold and the Wan switch. *)
Definition get_coefficients (p : TeaCacheParams) : list Qc :=
  match coefficients_callback p with
  | Some f => f (teacache_thresh p) (use_ret_steps p)
  | None => coefficients p
  end.

(** [int(n * f)] is towards zero. *)
Definition resolve_boundary (num_inference_steps : Z) (l : Limit) : Z :=
  match l with
  | LFloat f =>
      let x := (Q2Qc (QArith_base.inject_Z num_inference_steps) * f)%Qc in
      Z.quot (QArith_base.Qnum (this x)) (Z.pos (QArith_base.Qden (this x)))
  | LInt n => if n <? 0 then num_inference_steps + n else n
  end.

Definition get_skip_boundaries (p : TeaCacheParams) (num_inference_steps : Z) (do_cfg : bool) : Z * Z :=
  let k := if do_cfg then 2 else 1 in
  (k * resolve_boundary num_inference_steps (start_skipping p),
   k * resolve_boundary num_inference_steps (end_skipping p)).

(** [np.poly1d(coefficients)(x)] *)
Definition poly1d (cs : list Qc) (x : Qc) : Qc := foldl (λ y c, y * x + c)%Qc 0%Qc cs.

(** ** State *)

Record BranchCache (X G : Type) := mk_branch {
  previous_modulated_input : option G;
  previous_residual : option X;
  accumulated_rel_l1_distance : Qc;
}.
Arguments mk_branch {X G}.
Arguments previous_modulated_input {X G}.
Arguments previous_residual {X G}.
Arguments accumulated_rel_l1_distance {X G}.

(** A model that does not support guidance caches has no negative branch. *)
Record TeaCache (X G : Type) := mk_teacache {
  cnt : Z;
  enable_teacache : bool;
  positive : BranchCache X G;
  negative : option (BranchCache X G);
  is_cfg_negative : bool;
}.
Arguments mk_teacache {X G}.
Arguments cnt {X G}.
Arguments enable_teacache {X G}.
Arguments positive {X G}.
Arguments negative {X G}.
Arguments is_cfg_negative {X G}.

Definition CFG_SUPPORTED_PREFIXES : list string := ["wan"; "hunyuan"; "zimage"].
Definition supports_cfg_cache {X G} (s : TeaCache X G) : bool := bool_decide (is_Some (negative s)).

(** What the forward context and its batch say of a pass. *)
Record Pass := mk_pass {
  current_timestep : Z;
  batch_enable_teacache : bool;
  teacache_params : option TeaCacheParams;
  num_inference_steps : Z;
  do_cfg : bool;
  pass_is_cfg_negative : bool;
}.

Section Mixin.
Context {X G : Type}.
Implicit Types (s : TeaCache X G) (b : BranchCache X G).

Definition no_branch : BranchCache X G := mk_branch None None 0%Qc.

Definition init_teacache_state (prefix : string) : TeaCache X G :=
  mk_teacache 0 true no_branch
    (if bool_decide (lower prefix ∈ CFG_SUPPORTED_PREFIXES) then Some no_branch else None) false.

Definition reset_teacache_state s : TeaCache X G :=
  mk_teacache 0 true no_branch ((λ _, no_branch) <$> negative s) false.

Definition set_enable (e : bool) s : TeaCache X G :=
  mk_teacache (cnt s) e (positive s) (negative s) (is_cfg_negative s).
Definition set_negative_flag (n : bool) s : TeaCache X G :=
  mk_teacache (cnt s) (enable_teacache s) (positive s) (negative s) n.
Definition set_cnt (n : Z) s : TeaCache X G :=
  mk_teacache n (enable_teacache s) (positive s) (negative s) (is_cfg_negative s).

(** The cache of the current branch; [AttributeError] where there is none. *)
Definition branch_of s : res (BranchCache X G) :=
  if is_cfg_negative s then match negative s with Some b => Ok b | None => Raise AttributeError end
  else Ok (positive s).

(** Writing to the current branch; [_compute_teacache_decision] writes nothing where there is
    no negative branch. *)
Definition set_branch b s : TeaCache X G :=
  if is_cfg_negative s
  then mk_teacache (cnt s) (enable_teacache s) (positive s) ((λ _, b) <$> negative s) (is_cfg_negative s)
  else mk_teacache (cnt s) (enable_teacache s) b (negative s) (is_cfg_negative s).

(** [(x - prev).abs().mean() / prev.abs().mean()] *)
Context (rel_l1 : G → G → Qc).

Definition compute_l1_and_decide s (modulated_inp : G) (cs : list Qc) (thresh : Qc) : res (Qc * bool) :=
  b ← branch_of s;
  match previous_modulated_input b with
  | None => Ok (0%Qc, true)
  | Some prev =>
      let a := (accumulated_rel_l1_distance b + poly1d cs (rel_l1 modulated_inp prev))%Qc in
      if bool_decide (thresh <= a)%Qc then Ok (0%Qc, true) else Ok (a, false)
  end.

Definition compute_teacache_decision s (modulated_inp : G) (is_boundary_step : bool) (cs : list Qc) (thresh : Qc) :
    res (bool * TeaCache X G) :=
  if negb (enable_teacache s) then Ok (true, s)
  else
    d ← (if is_boundary_step then Ok (0%Qc, true) else compute_l1_and_decide s modulated_inp cs thresh);
    let b := default no_branch (match branch_of s with Ok b => Some b | Raise _ => None end) in
    Ok (d.2, set_branch (mk_branch (Some modulated_inp) (previous_residual b) d.1) s).

(** [_get_teacache_context]: the pass may use the cache, and the first step resets it. *)
Definition get_teacache_context s (p : Pass) : option TeaCacheParams * TeaCache X G :=
  match batch_enable_teacache p, teacache_params p with
  | true, Some ps =>
      (Some ps, if (current_timestep p =? 0) && negb (is_cfg_negative s) then reset_teacache_state s else s)
  | _, _ => (None, s)
  end.

(** ** Wan *)

(** The two inputs a decision may be based on: [timestep_proj] and [temb]. *)
Definition modulated_of (ps : TeaCacheParams) (timestep_proj temb : G) : G :=
  match use_ret_steps ps with Some true => timestep_proj | _ => temb end.

Definition is_boundary (ps : TeaCacheParams) (p : Pass) (n : Z) : bool :=
  let b := get_skip_boundaries ps (num_inference_steps p) (do_cfg p) in
  (n <? b.1) || (b.2 <=? n).

Definition should_skip_forward_for_cached_states s (p : Pass) (timestep_proj temb : G) : res (bool * TeaCache X G) :=
  if negb (enable_teacache s) then Ok (false, s)
  else
    match get_teacache_context s p with
    | (None, s1) => Ok (false, s1)
    | (Some ps, s1) =>
        d ← compute_teacache_decision (set_negative_flag (pass_is_cfg_negative p) s1)
              (modulated_of ps timestep_proj temb) (is_boundary ps p (cnt s1))
              (get_coefficients ps) (teacache_thresh ps);
        Ok (negb d.1, d.2)
    end.

Context (tadd tsub : X → X → X).

(** Wan has a negative branch; nothing would read the residual of a model without one. *)
Definition maybe_cache_states s (hidden original : X) : TeaCache X G :=
  let b := if is_cfg_negative s then default no_branch (negative s) else positive s in
  set_branch (mk_branch (previous_modulated_input b) (Some (tsub hidden original)) (accumulated_rel_l1_distance b)) s.

Definition retrieve_cached_states s (hidden : X) : res X :=
  b ← branch_of s;
  match previous_residual b with Some r => Ok (tadd hidden r) | None => Raise TypeError end.

(** The transformer blocks, with the pass's conditioning. *)
Context (blocks : Pass → X → X).

(** The part of Wan's [forward] around the blocks. *)
Definition wan_forward s0 (p : Pass) (timestep_proj temb : G) (hidden : X) : res (X * TeaCache X G) :=
  let s1 := set_enable (batch_enable_teacache p) s0 in
  d ← should_skip_forward_for_cached_states s1 p timestep_proj temb;
  let '(skip, s) := d in
  if skip : bool then
    h ← retrieve_cached_states s hidden;
    Ok (h, set_cnt (cnt s + 1) s)
  else
    let h := blocks p hidden in
    let s' := if enable_teacache s then maybe_cache_states s h hidden else s in
    Ok (h, set_cnt (cnt s' + 1) s').
End Mixin.
