(* ===== verification/TeaCacheMixinProps.v ===== *)
(** * TeaCache of the diffusion transformers: replays, and when the cache is reset *)

From S2P Require Import Prelude TeaCacheMixin.
Local Open Scope Z_scope.

Section Props.
Context {X G : Type}.
Context (rel_l1 : G → G → Qc) (tadd tsub : X → X → X) (blocks : Pass → X → X).
Implicit Types (s : TeaCache X G) (b : BranchCache X G).
Local Abbreviation wan_forward := (wan_forward rel_l1 tadd tsub blocks).

(** The inputs of a pass. *)
Record Input := mk_input {
  in_pass : Pass;
  in_proj : G;
  in_temb : G;
  in_hidden : X;
}.
Definition forward_on s (i : Input) : res (X * TeaCache X G) :=
  wan_forward s (in_pass i) (in_proj i) (in_temb i) (in_hidden i).

(** A model's passes, one after the other. *)
Fixpoint passes s (l : list Input) : res (list X * TeaCache X G) :=
  match l with
  | [] => Ok ([], s)
  | i :: l => r ← forward_on s i; rs ← passes r.2 l; Ok (r.1 :: rs.1, rs.2)
  end.

(** ** A replayed residual exists, and is the branch's latest *)

(** The residual of the latest computed pass of a branch in a trace of passes, each with the
    branch it is on and the residual it computed, if any. *)
Definition latest_residual (neg : bool) (tr : list (bool * option X)) : option X :=
  foldl (λ o e, if Bool.eqb e.1 neg then match e.2 with Some r => Some r | None => o end else o) None tr.

Lemma latest_residual_snoc neg tr e :
  latest_residual neg (tr ++ [e]) =
  if Bool.eqb e.1 neg then match e.2 with Some r => Some r | None => latest_residual neg tr end else latest_residual neg tr.
Proof. unfold latest_residual. by rewrite foldl_app. Qed.

Definition the_branch s (neg : bool) : option (BranchCache X G) := if neg then negative s else Some (positive s).

(** A branch with a previous input has a residual, and a residual is the latest one. *)
Definition good s (tr : list (bool * option X)) : Prop :=
  ∀ neg, ∃ b, the_branch s neg = Some b ∧
    (is_Some (previous_modulated_input b) → is_Some (previous_residual b)) ∧
    (∀ r, previous_residual b = Some r → latest_residual neg tr = Some r).

Definition uses_cache (p : Pass) : bool :=
  batch_enable_teacache p && bool_decide (is_Some (teacache_params p)).

(** The state a pass that uses the cache decides from. *)
Definition prepared s (p : Pass) : TeaCache X G :=
  set_negative_flag (pass_is_cfg_negative p) (get_teacache_context (set_enable (batch_enable_teacache p) s) p).2.

Lemma good_reset s tr : good s tr → good (reset_teacache_state s) tr.
Proof.
  intros H neg. destruct (H true) as (b & Hb & _). simpl in Hb. exists no_branch.
  split; [destruct neg; simpl; [by rewrite Hb|done]|]. split; [by intros [? ?]|done].
Qed.

Lemma good_ext s s' tr : positive s' = positive s → negative s' = negative s → good s tr → good s' tr.
Proof. intros Hp Hn H neg. destruct (H neg) as (b & Hb & ?). exists b. split; [|done]. destruct neg; simpl in *; congruence. Qed.

Lemma good_prepared s p tr : good s tr → good (prepared s p) tr.
Proof.
  intros H. unfold prepared, get_teacache_context.
  apply (good_ext (match batch_enable_teacache p, teacache_params p with
    | true, Some _ => if (current_timestep p =? 0) && negb (is_cfg_negative s) then reset_teacache_state s else s | _, _ => s end)).
  1,2: simpl; by destruct (batch_enable_teacache p), (teacache_params p), (current_timestep p =? 0), (is_cfg_negative s).
  repeat case_match; try done; by apply good_reset.
Qed.

(** A pass that computes: the branch's cache has the new residual. *)
Lemma good_compute s tr neg b r :
  good s tr → is_cfg_negative s = neg →
  good (set_branch (mk_branch (previous_modulated_input b) (Some r) (accumulated_rel_l1_distance b)) s) (tr ++ [(neg, Some r)]).
Proof.
  intros H Hn neg'. rewrite latest_residual_snoc. simpl. destruct (H neg') as (b' & Hb & H1 & H2).
  unfold set_branch. rewrite Hn. destruct (Bool.eqb_spec neg neg') as [->|Hne].
  - eexists. split; [destruct neg'; simpl in *; [by rewrite Hb|done]|]. simpl. split; [eauto|done].
  - exists b'. split_and!; [destruct neg, neg'; done|done|done].
Qed.

Lemma branch_of_good s tr : good s tr → ∃ b, branch_of s = Ok b ∧ the_branch s (is_cfg_negative s) = Some b.
Proof.
  intros H. destruct (H (is_cfg_negative s)) as (b & Hb & _). exists b. split; [|done].
  unfold branch_of. destruct (is_cfg_negative s); simpl in Hb; [by rewrite Hb|congruence].
Qed.

Lemma maybe_cache_set_branch b s h o :
  is_Some (negative s) →
  maybe_cache_states tsub (set_branch b s) h o =
  set_branch (mk_branch (previous_modulated_input b) (Some (tsub h o)) (accumulated_rel_l1_distance b)) s.
Proof.
  intros [n Hn]. unfold maybe_cache_states, set_branch. destruct (is_cfg_negative s); simpl; [|done].
  by rewrite Hn.
Qed.

(** Moving the baseline of a branch that has a residual. *)
Lemma good_replay s tr b g acc :
  good s tr → the_branch s (is_cfg_negative s) = Some b → is_Some (previous_residual b) →
  good (set_branch (mk_branch (Some g) (previous_residual b) acc) s) (tr ++ [(is_cfg_negative s, None)]).
Proof.
  intros H Hb Hr neg'. rewrite latest_residual_snoc. simpl. destruct (H neg') as (b' & Hb' & H1 & H2).
  unfold set_branch. destruct (is_cfg_negative s) eqn:En, neg'; simpl in *; simplify_eq.
  - eexists. split; [by rewrite Hb|]. simpl. auto.
  - eexists. split; [done|]. auto.
  - eexists. split; [done|]. auto.
  - eexists. split; [done|]. simpl. auto.
Qed.

(** The decision of a pass that uses the cache: compute, or replay a residual that is there. *)
Lemma decision_cases s tr g bd cs th :
  good s tr → enable_teacache s = true →
  ∃ b d s', compute_teacache_decision rel_l1 s g bd cs th = Ok (d, s') ∧
    the_branch s (is_cfg_negative s) = Some b ∧ (∃ acc, s' = set_branch (mk_branch (Some g) (previous_residual b) acc) s) ∧
    (d = false → is_Some (previous_residual b)).
Proof.
  intros H He. destruct (branch_of_good s tr H) as (b & Eb & Hb). exists b.
  unfold compute_teacache_decision, compute_l1_and_decide. rewrite He, Eb. simpl.
  destruct (H (is_cfg_negative s)) as (b' & Hb' & H1 & _). rewrite Hb in Hb'. injection Hb' as <-.
  destruct bd; simpl; [by eexists _, _; split_and!; eauto|].
  destruct (previous_modulated_input b) eqn:Ep; simpl; [|by eexists _, _; split_and!; eauto].
  case_bool_decide; simpl; eexists _, _; split_and!; eauto; done.
Qed.

(** A pass that uses the cache decides from the prepared state. *)
Lemma wan_forward_uses s p ps tp te h :
  batch_enable_teacache p = true → teacache_params p = Some ps →
  wan_forward s p tp te h =
  d ← compute_teacache_decision rel_l1 (prepared s p) (modulated_of ps tp te)
        (is_boundary ps p (cnt (prepared s p))) (get_coefficients ps) (teacache_thresh ps);
  if d.1 : bool
  then let s' := if enable_teacache d.2 then maybe_cache_states tsub d.2 (blocks p h) h else d.2 in
       Ok (blocks p h, set_cnt (cnt s' + 1) s')
  else out ← retrieve_cached_states tadd d.2 h; Ok (out, set_cnt (cnt d.2 + 1) d.2).
Proof.
  intros Hb Hp. unfold TeaCacheMixin.wan_forward, should_skip_forward_for_cached_states, prepared, get_teacache_context.
  rewrite Hb, Hp. cbn [enable_teacache set_enable negb snd cnt set_negative_flag is_cfg_negative].
  destruct (compute_teacache_decision _ _ _ _ _ _) as [[d s']|]; [|done]. simpl. by destruct d.
Qed.

Lemma prepared_flag s p : is_cfg_negative (prepared s p) = pass_is_cfg_negative p.
Proof. done. Qed.

Lemma prepared_enabled s p : uses_cache p = true → enable_teacache (prepared s p) = true.
Proof.
  unfold uses_cache, prepared, get_teacache_context. intros H. bool_to_prop. rewrite H. destruct H0 as [ps ->].
  simpl. by case_match.
Qed.

Lemma set_branch_frame b s :
  cnt (set_branch b s) = cnt s ∧ is_cfg_negative (set_branch b s) = is_cfg_negative s ∧
  enable_teacache (set_branch b s) = enable_teacache s.
Proof. unfold set_branch. by destruct (is_cfg_negative s). Qed.

Lemma branch_of_set_branch b s : is_Some (negative s) → branch_of (set_branch b s) = Ok b.
Proof.
  intros [n Hn]. unfold branch_of, set_branch. destruct (is_cfg_negative s) eqn:E; simpl; rewrite ?E; [by rewrite Hn|done].
Qed.

Lemma good_negative s tr : good s tr → is_Some (negative s).
Proof. intros H. destruct (H true) as (b & Hb & _). simpl in Hb. eauto. Qed.

(** A pass that uses the cache returns; it runs the blocks and stores their residual, or adds
    the latest residual of its branch. *)
Lemma wan_forward_cached s p tp te h tr :
  good s tr → uses_cache p = true →
  ∃ out s' o, wan_forward s p tp te h = Ok (out, s') ∧
    cnt s' = cnt (prepared s p) + 1 ∧ is_cfg_negative s' = pass_is_cfg_negative p ∧
    good s' (tr ++ [(pass_is_cfg_negative p, o)]) ∧
    match o with
    | Some r => out = blocks p h ∧ r = tsub out h
    | None => ∃ r, latest_residual (pass_is_cfg_negative p) tr = Some r ∧ out = tadd h r
    end.
Proof.
  intros Hg Hu. pose proof (prepared_enabled s p Hu) as Hen. pose proof (good_prepared s p tr Hg) as Hgp.
  unfold uses_cache in Hu. bool_to_prop. destruct H0 as [ps Hps]. rewrite (wan_forward_uses s p ps) by done.
  destruct (decision_cases (prepared s p) tr (modulated_of ps tp te) (is_boundary ps p (cnt (prepared s p)))
    (get_coefficients ps) (teacache_thresh ps) Hgp Hen) as (b & d & s' & -> & Hb & (acc & ->) & Hd).
  cbn [mbind res_bind fst snd]. destruct (set_branch_frame (mk_branch (Some (modulated_of ps tp te)) (previous_residual b) acc) (prepared s p))
    as (Hf1 & Hf2 & Hf3). pose proof (good_negative _ _ Hgp) as Hneg. destruct d.
  - rewrite Hf3, Hen, maybe_cache_set_branch by done. cbn [previous_modulated_input accumulated_rel_l1_distance].
    eexists _, _, (Some _). split; [done|].
    destruct (set_branch_frame (mk_branch (Some (modulated_of ps tp te)) (Some (tsub (blocks p h) h)) acc) (prepared s p)) as (Hg1 & Hg2 & _).
    split_and!; [by simpl; rewrite Hg1|by simpl; rewrite Hg2| |done|done].
    eapply good_ext; [..|exact (good_compute _ _ _ (mk_branch (Some (modulated_of ps tp te)) None acc) _ Hgp (prepared_flag s p))]; done.
  - destruct (Hd eq_refl) as [r Hr]. unfold retrieve_cached_states. rewrite branch_of_set_branch by done.
    cbn [mbind res_bind previous_residual]. rewrite Hr. cbn [mbind res_bind]. rewrite <-Hr.
    eexists _, _, None. split; [done|]. split_and!; [by simpl; rewrite Hf1|by simpl; rewrite Hf2| |].
    + eapply good_ext; [..|apply (good_replay _ _ b (modulated_of ps tp te) acc Hgp Hb); by rewrite Hr]; done.
    + exists r. split; [|done]. destruct (Hgp (pass_is_cfg_negative p)) as (b' & Hb' & _ & H2).
      rewrite prepared_flag in Hb. simplify_eq. auto.
Qed.

(** A pass that does not use the cache runs the blocks. *)
Lemma wan_forward_plain s p tp te h tr :
  good s tr → uses_cache p = false →
  ∃ s' neg o, wan_forward s p tp te h = Ok (blocks p h, s') ∧ good s' (tr ++ [(neg, o)]) ∧
    match o with Some r => r = tsub (blocks p h) h | None => True end.
Proof.
  intros Hg Hu. unfold TeaCacheMixin.wan_forward, should_skip_forward_for_cached_states, get_teacache_context, uses_cache in *.
  destruct (batch_enable_teacache p) eqn:Eb; simpl in *.
  - destruct (teacache_params p) eqn:Ep; [done|]. simpl. eexists _, (is_cfg_negative s), (Some (tsub (blocks p h) h)). split; [done|]. split; [|done].
    eapply good_ext; [..|by eapply (good_compute _ _ _ (default no_branch (the_branch s (is_cfg_negative s))))];
      unfold maybe_cache_states, set_branch; simpl; by destruct (is_cfg_negative s).
  - eexists _, true, None. split; [done|]. split; [|done]. intros neg'. destruct (Hg neg') as (b & Hb & H1 & H2). exists b.
    split; [by destruct neg'|]. split; [done|]. rewrite latest_residual_snoc. simpl. by destruct neg'.
Qed.

(** What one pass returned, after the passes [tr] before it. *)
Definition pass_sound (tr : list (bool * option X)) (i : Input) (out : X) (e : bool * option X) : Prop :=
  (uses_cache (in_pass i) = true → e.1 = pass_is_cfg_negative (in_pass i)) ∧
  match e.2 with
  | Some r => out = blocks (in_pass i) (in_hidden i) ∧ r = tsub out (in_hidden i)
  | None => if uses_cache (in_pass i)
            then ∃ r, latest_residual e.1 tr = Some r ∧ out = tadd (in_hidden i) r
            else out = blocks (in_pass i) (in_hidden i)
  end.

Lemma passes_sound s l tr :
  good s tr →
  ∃ outs s' new, passes s l = Ok (outs, s') ∧ good s' (tr ++ new) ∧ length outs = length l ∧ length new = length l ∧
    ∀ n i out e, l !! n = Some i → outs !! n = Some out → new !! n = Some e → pass_sound (tr ++ take n new) i out e.
Proof.
  revert s tr. induction l as [|i l IH]; intros s tr Hg.
  { exists [], s, []. rewrite app_nil_r. by split_and!. }
  assert (∃ out s1 e, forward_on s i = Ok (out, s1) ∧ good s1 (tr ++ [e]) ∧ pass_sound tr i out e)
    as (out & s1 & e & E & Hg1 & Hp).
  { unfold forward_on, pass_sound. destruct (uses_cache (in_pass i)) eqn:Hu.
    - destruct (wan_forward_cached s (in_pass i) (in_proj i) (in_temb i) (in_hidden i) tr Hg Hu)
        as (out & s1 & o & E & _ & _ & Hg1 & Ho). exists out, s1, (pass_is_cfg_negative (in_pass i), o).
      split_and!; [done|done|done|]. by destruct o.
    - destruct (wan_forward_plain s (in_pass i) (in_proj i) (in_temb i) (in_hidden i) tr Hg Hu)
        as (s1 & neg & o & E & Hg1 & Ho). exists (blocks (in_pass i) (in_hidden i)), s1, (neg, o).
      split_and!; [done|done|done|]. by destruct o. }
  destruct (IH s1 (tr ++ [e]) Hg1) as (outs & s' & new & E' & Hg' & Ho & Hn & HP).
  exists (out :: outs), s', (e :: new). simpl. rewrite E. simpl. rewrite E'. simpl.
  split_and!; [done|by rewrite <-app_assoc in Hg'|congruence|congruence|].
  intros [|n] i' out' e' Hi Hou He; simplify_eq/=; [by rewrite app_nil_r|].
  specialize (HP n i' out' e' Hi Hou He). by rewrite <-app_assoc in HP.
Qed.

Lemma good_init prefix : lower prefix = "wan"%string → good (init_teacache_state prefix) [].
Proof.
  intros Hw neg. exists no_branch. split; [destruct neg; simpl; [by rewrite Hw|done]|]. split; [by intros [? ?]|done].
Qed.

(** A Wan transformer with TeaCache never fails for want of a cached residual, for any
    sequence of passes, requests, settings and inputs: every pass returns; it runs the blocks,
    or adds to its input the residual of the latest computed pass of its own guidance
    branch. *)
Theorem wan_passes_return (l : list Input) :
  ∃ outs s' tr, passes (init_teacache_state "Wan") l = Ok (outs, s') ∧ length outs = length l ∧ length tr = length l ∧
    ∀ n i out e, l !! n = Some i → outs !! n = Some out → tr !! n = Some e → pass_sound (take n tr) i out e.
Proof.
  destruct (passes_sound _ l [] (good_init "Wan" eq_refl)) as (outs & s' & new & E & _ & Ho & Hn & HP).
  exists outs, s', new. auto.
Qed.

(** ** The counter of passes *)

(** The counter a pass compares with the boundaries. *)
Definition counter_of s (p : Pass) : Z := cnt (prepared s p).

Lemma counter_of_eq s p :
  uses_cache p = true →
  counter_of s p = if (current_timestep p =? 0) && negb (is_cfg_negative s) then 0 else cnt s.
Proof.
  unfold uses_cache, counter_of, prepared, get_teacache_context. intros H. bool_to_prop. rewrite H. destruct H0 as [ps ->].
  simpl. by case_match.
Qed.

(** The counters the passes of a sequence use. *)
Fixpoint counters s (l : list Input) : res (list Z) :=
  match l with
  | [] => Ok []
  | i :: l => r ← forward_on s i; ns ← counters r.2 l; Ok (counter_of s (in_pass i) :: ns)
  end.

Lemma counters_cons s i l tr :
  good s tr → uses_cache (in_pass i) = true →
  ∃ s', is_cfg_negative s' = pass_is_cfg_negative (in_pass i) ∧ cnt s' = counter_of s (in_pass i) + 1 ∧
    (∃ e, good s' (tr ++ [e])) ∧ counters s (i :: l) = ns ← counters s' l; Ok (counter_of s (in_pass i) :: ns).
Proof.
  intros Hg Hu. destruct (wan_forward_cached s (in_pass i) (in_proj i) (in_temb i) (in_hidden i) tr Hg Hu)
    as (out & s1 & o & E & Hc & Hf & Hg1 & _). exists s1. split_and!; [done|done|eauto|].
  cbn [counters]. unfold forward_on. by rewrite E.
Qed.

(** No pass of the sequence resets: one at step 0 finds the negative flag set by the pass before. *)
Fixpoint no_reset (flag : bool) (l : list Input) : Prop :=
  match l with
  | [] => True
  | i :: l => uses_cache (in_pass i) = true ∧ (current_timestep (in_pass i) = 0 → flag = true) ∧
              no_reset (pass_is_cfg_negative (in_pass i)) l
  end.

Lemma counters_no_reset s l tr :
  good s tr → no_reset (is_cfg_negative s) l → counters s l = Ok (seqZ (cnt s) (length l)).
Proof.
  revert s tr. induction l as [|i l IH]; intros s tr Hg Hl; [done|]. destruct Hl as (Hu & Hr & Hl).
  destruct (counters_cons s i l tr Hg Hu) as (s' & Hf & Hc & (e & Hg') & ->). rewrite <-Hf in Hl.
  rewrite (IH s' _ Hg' Hl), Hc, counter_of_eq by done.
  assert (Hz : (current_timestep (in_pass i) =? 0) && negb (is_cfg_negative s) = false).
  { destruct (Z.eqb_spec (current_timestep (in_pass i)) 0) as [E|]; [|done]. by rewrite (Hr E). }
  rewrite Hz. simpl. f_equal. rewrite (seqZ_cons (cnt s)) by lia. f_equal. f_equal; lia.
Qed.

(** A pass that resets starts the count. *)
Lemma counters_reset s i l tr :
  good s tr → uses_cache (in_pass i) = true → current_timestep (in_pass i) = 0 → is_cfg_negative s = false →
  no_reset (pass_is_cfg_negative (in_pass i)) l → counters s (i :: l) = Ok (seqZ 0 (S (length l))).
Proof.
  intros Hg Hu H0 Hf Hl. destruct (counters_cons s i l tr Hg Hu) as (s' & Hf' & Hc & (e & Hg') & ->).
  rewrite <-Hf' in Hl. rewrite (counters_no_reset s' l _ Hg' Hl), Hc, counter_of_eq, H0, Hf by done. simpl.
  f_equal. rewrite (seqZ_cons 0) by lia. f_equal. f_equal; lia.
Qed.

(** The passes of the steps [m], [m + 1], ...: a step has one per branch. *)
Definition step_passes (branches : list bool) (m n : nat) : list (nat * bool) :=
  mbind (M:=list) (λ k, (λ neg : bool, (k, neg)) <$> branches) (seq m n).
Definition pass_of (sb : nat * bool) (i : Input) : Prop :=
  uses_cache (in_pass i) = true ∧ current_timestep (in_pass i) = Z.of_nat sb.1 ∧
  pass_is_cfg_negative (in_pass i) = sb.2.
Definition request_passes (branches : list bool) (n : nat) (l : list Input) : Prop :=
  Forall2 pass_of (step_passes branches 0 n) l.

Lemma no_reset_later flag (sbs : list (nat * bool)) l :
  Forall (λ sb, sb.1 ≠ 0%nat) sbs → Forall2 pass_of sbs l → no_reset flag l.
Proof.
  intros Hne HF. revert flag. induction HF as [|sb i sbs l (Hu & Hc & Hn) HF IH]; intros flag; [done|].
  apply Forall_cons_1 in Hne as [H1 Hne]. simpl. split_and!; [done|lia|auto].
Qed.

Lemma later_steps branches m n : (1 ≤ m)%nat → Forall (λ sb : nat * bool, sb.1 ≠ 0%nat) (step_passes branches m n).
Proof.
  intros Hm. apply Forall_forall. intros [k b] Hin. apply list_elem_of_bind in Hin as (k' & Hin & Hk).
  apply list_elem_of_fmap in Hin as (b' & [= -> ->] & _). apply elem_of_seq in Hk. simpl. lia.
Qed.

Lemma length_step_passes branches m n : length (step_passes branches m n) = (n * length branches)%nat.
Proof.
  revert m. induction n as [|n IH]; intros m; [done|]. unfold step_passes in *. simpl.
  by rewrite length_app, length_fmap, IH.
Qed.

(** Without guidance: the counter is the index of the step. *)
Lemma counters_single s tr n l :
  good s tr → is_cfg_negative s = false → request_passes [false] n l → counters s l = Ok (seqZ 0 n).
Proof.
  intros Hg Hf HF. unfold request_passes in HF. pose proof (Forall2_length _ _ _ HF) as Hlen.
  rewrite length_step_passes in Hlen. simpl in Hlen.
  destruct n as [|n]; simpl in HF; [by apply Forall2_nil_inv_l in HF as ->|].
  apply Forall2_cons_inv_l in HF as (i & l' & (Hu & Hc & Hn) & HF & ->).
  rewrite (counters_reset s i l' tr) by first [done|eapply no_reset_later; [|exact HF]; by apply later_steps].
  simpl in Hlen. do 2 f_equal. lia.
Qed.

(** With guidance, both branches on one rank: the counter is reset by the negative pass of the
    first step, behind the positive one. *)
Lemma counters_serial s tr n l :
  good s tr → (1 ≤ n)%nat → request_passes [false; true] n l →
  ∃ c0, counters s l = Ok (c0 :: seqZ 0 (2 * n - 1)).
Proof.
  intros Hg Hn HF. unfold request_passes in HF. pose proof (Forall2_length _ _ _ HF) as Hlen.
  rewrite length_step_passes in Hlen. simpl in Hlen.
  destruct n as [|n]; [lia|]. simpl in HF.
  apply Forall2_cons_inv_l in HF as (i & l1 & (Hu & Hc & Hb) & HF & ->).
  apply Forall2_cons_inv_l in HF as (j & l2 & (Hu2 & Hc2 & Hb2) & HF & ->).
  destruct (counters_cons s i (j :: l2) tr Hg Hu) as (s' & Hf & _ & (e & Hg') & ->).
  rewrite Hb in Hf. simpl in Hf.
  rewrite (counters_reset s' j l2 _ Hg') by first [done|eapply no_reset_later; [|exact HF]; by apply later_steps].
  eexists. simpl. do 3 f_equal. simpl in Hlen. lia.
Qed.

(** The state after a history of passes, with the trace of what they computed. *)
Lemma history_good hist outs s :
  passes (init_teacache_state "Wan") hist = Ok (outs, s) → ∃ tr, good s tr.
Proof.
  intros H. destruct (passes_sound _ hist [] (good_init "Wan" eq_refl)) as (outs' & s' & new & E & Hg & _).
  rewrite E in H. injection H as <- <-. eauto.
Qed.

Lemma boundary_default ps p k n :
  start_skipping ps = LInt k → end_skipping ps = LInt (-1) → 0 ≤ k → do_cfg p = true → num_inference_steps p = n →
  ∀ c, is_boundary ps p c = (c <? 2 * k) || (2 * (n - 1) <=? c).
Proof.
  intros Hs He Hk Hd Hn c. unfold is_boundary, get_skip_boundaries, resolve_boundary. rewrite Hs, He, Hd, Hn.
  cbn [fst snd]. rewrite (proj2 (Z.ltb_ge k 0) Hk). cbn [Z.ltb Z.compare]. do 2 f_equal; lia.
Qed.

(** With guidance, both branches on one rank, after any history: the counter that decides
    which passes are always computed is reset by the negative pass of step 0, behind the
    positive pass of step 0, so every later pass is counted one too low; with the default
    end of skipping (the last step) the positive pass of the last step is not a boundary
    pass, and may be skipped, while its negative pass is one. *)
Theorem wan_guided_counters hist outs s (n : nat) l ps k :
  passes (init_teacache_state "Wan") hist = Ok (outs, s) → (2 ≤ n)%nat → request_passes [false; true] n l →
  start_skipping ps = LInt k → end_skipping ps = LInt (-1) → 0 ≤ k ≤ n - 2 →
  ∃ ns, counters s l = Ok ns ∧ length ns = (2 * n)%nat ∧
    (∀ j : nat, (1 ≤ j < 2 * n)%nat → ns !! j = Some (Z.of_nat j - 1)) ∧
    ∀ p c, do_cfg p = true → num_inference_steps p = Z.of_nat n →
      (ns !! (2 * n - 2)%nat = Some c → is_boundary ps p c = false) ∧
      (ns !! (2 * n - 1)%nat = Some c → is_boundary ps p c = true).
Proof.
  intros Hh Hn Hl Hs He Hk. destruct (history_good _ _ _ Hh) as [tr Hg].
  destruct (counters_serial s tr n l Hg ltac:(lia) Hl) as [c0 Hc].
  assert (Hns : ∀ j : nat, (1 ≤ j < 2 * n)%nat → (c0 :: seqZ 0 (2 * n - 1)) !! j = Some (Z.of_nat j - 1)).
  { intros [|j] Hj; [lia|]. simpl. apply lookup_seqZ. lia. }
  eexists. split_and!; [done|simpl; rewrite length_seqZ; lia|done|]. intros p c Hd Hp.
  rewrite (boundary_default ps p k n) by (done || lia). rewrite !Hns by lia.
  split; intros [= <-]; [apply orb_false_iff; split; [apply Z.ltb_ge|apply Z.leb_gt]|apply orb_true_iff; right; apply Z.leb_le]; lia.
Qed.

(** A request is missed by the reset when the pass before it was a negative one, and its
    own step-0 pass is the only one of its step: the unguided request after a guided one, and
    every later request on a rank that runs the negative branch only. Its passes go on
    counting from the request before; and its first pass, if the counter is between the
    boundaries and the distance small, adds the residual of the earlier request. *)
Theorem wan_reset_missed hist outs s n l neg :
  passes (init_teacache_state "Wan") hist = Ok (outs, s) → is_cfg_negative s = true → request_passes [neg] n l →
  counters s l = Ok (seqZ (cnt s) n) ∧
  ∃ tr, good s tr ∧ ∀ i l' ps b g, l = i :: l' → teacache_params (in_pass i) = Some ps →
    the_branch s neg = Some b → previous_modulated_input b = Some g →
    is_boundary ps (in_pass i) (cnt s) = false →
    (accumulated_rel_l1_distance b + poly1d (get_coefficients ps) (rel_l1 (modulated_of ps (in_proj i) (in_temb i)) g)
       < teacache_thresh ps)%Qc →
    ∃ r s', latest_residual neg tr = Some r ∧ forward_on s i = Ok (tadd (in_hidden i) r, s').
Proof.
  intros Hh Hf HF. destruct (history_good _ _ _ Hh) as [tr Hg]. unfold request_passes in HF.
  pose proof (Forall2_length _ _ _ HF) as Hlen. rewrite length_step_passes in Hlen. simpl in Hlen. split.
  - rewrite (counters_no_reset s l tr Hg); [do 2 f_equal; lia|]. rewrite Hf.
    destruct n as [|n]; simpl in HF; [by apply Forall2_nil_inv_l in HF as ->|].
    apply Forall2_cons_inv_l in HF as (i & l' & (Hu & Hc & Hb) & HF & ->). simpl. split_and!; [done|done|].
    eapply no_reset_later; [|exact HF]. by apply later_steps.
  - exists tr. split; [done|]. intros i l' ps b g -> Hps Hb Hg' Hbd Hlt.
    destruct n as [|n]; simpl in HF; [by inversion HF|].
    apply Forall2_cons_inv_l in HF as (i' & l2 & (Hu & Hc & Hneg) & _ & [= <- <-]).
    destruct (Hg neg) as (b' & Hb' & H1 & H2). rewrite Hb in Hb'. injection Hb' as <-.
    destruct (H1 ltac:(rewrite Hg'; eauto)) as [r Hr]. exists r.
    assert (Hpr : prepared s (in_pass i) = set_negative_flag neg (set_enable true s)).
    { unfold prepared, get_teacache_context. unfold uses_cache in Hu. bool_to_prop. rewrite H, Hps. simpl.
      rewrite Hf, Hneg. by destruct (_ =? 0). }
    unfold forward_on. unfold uses_cache in Hu. bool_to_prop. rewrite (wan_forward_uses s _ ps) by done. rewrite Hpr.
    unfold compute_teacache_decision, compute_l1_and_decide. simpl. rewrite Hbd.
    assert (Hbo : branch_of (set_negative_flag neg (set_enable true s)) = Ok b).
    { unfold branch_of. simpl. destruct neg; simpl in Hb; [by rewrite Hb|congruence]. }
    rewrite Hbo. simpl. rewrite Hg'. rewrite bool_decide_false by (by apply Qclt_not_le). simpl.
    unfold retrieve_cached_states. rewrite branch_of_set_branch by (simpl; by eapply good_negative). simpl. rewrite Hr.
    eexists. split; [by apply H2|done].
Qed.
End Props.

(** ** Witnesses: states are numbers, the blocks double them, all timesteps look alike *)

Definition demo_params : TeaCacheParams := mk_tcparams 1%Qc (LInt 0) (LInt (-1)) [1%Qc; 0%Qc] None None.
Definition demo_input (n k : Z) (neg : bool) (h : Z) : Input (X:=Z) (G:=Z) :=
  mk_input (mk_pass k true (Some demo_params) n true neg) 0 0 h.
Local Abbreviation demo_forward := (forward_on (X:=Z) (G:=Z) (λ _ _, 0%Qc) Z.add Z.sub (λ _ x, 2 * x)).
Local Abbreviation demo_passes := (passes (X:=Z) (G:=Z) (λ _ _, 0%Qc) Z.add Z.sub (λ _ x, 2 * x)).
Local Abbreviation demo_counters := (counters (X:=Z) (G:=Z) (λ _ _, 0%Qc) Z.add Z.sub (λ _ x, 2 * x)).

Definition guided_request : list (Input (X:=Z) (G:=Z)) :=
  [demo_input 3 0 false 1; demo_input 3 0 true 2; demo_input 3 1 false 3; demo_input 3 1 true 4;
   demo_input 3 2 false 5; demo_input 3 2 true 6].

(** The positive pass of the last of three steps has the counter 3 and is no boundary pass. *)
Lemma wan_guided_counters_witness :
  ∃ ns, demo_counters (init_teacache_state "Wan") guided_request = Ok ns ∧ ns !! 4%nat = Some 3 ∧
    is_boundary demo_params (mk_pass 2 true (Some demo_params) 3 true false) 3 = false.
Proof.
  destruct (wan_guided_counters (λ _ _, 0%Qc) Z.add Z.sub (λ _ x, 2 * x) [] [] (init_teacache_state "Wan") 3 guided_request
    demo_params 0 eq_refl ltac:(lia) ltac:(repeat constructor) eq_refl eq_refl ltac:(lia)) as (ns & H1 & _ & H2 & H3).
  exists ns. assert (H4 : ns !! 4%nat = Some 3) by (apply (H2 4%nat); lia). split_and!; [exact H1|exact H4|].
  exact (proj1 (H3 (mk_pass 2 true (Some demo_params) 3 true false) 3 eq_refl eq_refl) H4).
Defined.

(** A rank that runs the negative branch: the second request of four steps begins with the
    counter 4, and its first pass returns 1010, the residual 10 of the first request added
    to 1000, where the blocks would return 2000. *)
Definition negative_request (h : Z) : list (Input (X:=Z) (G:=Z)) :=
  [demo_input 4 0 true h; demo_input 4 1 true h; demo_input 4 2 true h; demo_input 4 3 true h].

Lemma wan_reset_missed_witness :
  ∃ outs s, demo_passes (init_teacache_state "Wan") (negative_request 10) = Ok (outs, s) ∧
    demo_counters s (negative_request 1000) = Ok [4; 5; 6; 7] ∧
    ∃ s', demo_forward s (demo_input 4 0 true 1000) = Ok (1010, s').
Proof.
  destruct (demo_passes (init_teacache_state "Wan") (negative_request 10)) as [[outs s]|] eqn:E; [|by vm_compute in E].
  assert (Hf : is_cfg_negative s = true ∧ cnt s = 4 ∧
    (∃ s', demo_forward s (demo_input 4 0 true 1000) = Ok (1010, s'))).
  { vm_compute in E. injection E as _ <-. split_and!; [done|done|]. eexists. vm_compute. reflexivity. }
  destruct Hf as (Hf & Hc & Hr). exists outs, s.
  assert (Hq : request_passes [true] 4 (negative_request 1000)) by (repeat constructor).
  pose proof (proj1 (wan_reset_missed _ _ _ _ _ _ _ _ _ _ E Hf Hq)) as H.
  split_and!; [done| |exact Hr]. rewrite H, Hc. reflexivity.
Defined.
