(* ===== verification/RadixKey.v ===== *)
(** * Keys of the radix cache

    Models [RadixKey] of [srt/mem_cache/radix_cache.py]: token ids with a namespace, read
    either as tokens or, for speculative decoding, as overlapping pairs of tokens (bigrams).
    The tree only deals with the units of a key (its tokens, or its bigrams, in the key's
    namespace); the facts below say what each operation does to the units. *)

From S2P Require Import Prelude.
Local Open Scope Z_scope.

Record RadixKey := mk_key {
  token_ids : list Z;
  extra_key : option string;
  is_bigram : bool;
}.

(** [len(key)] *)
Definition key_len (k : RadixKey) : nat :=
  if is_bigram k then pred (length (token_ids k)) else length (token_ids k).

(** [l[a:b]] with nonnegative bounds *)
Definition py_sub {A} (l : list A) (a b : nat) : list A := drop a (take b l).

(** [key[a:b]]: bigrams [a, b) are the tokens [a, b + 1). *)
Definition key_slice (k : RadixKey) (a b : nat) : RadixKey :=
  let start := Nat.min a (key_len k) in
  let stop := Nat.min b (key_len k) in
  if is_bigram k
  then mk_key (if (start <? stop)%nat then py_sub (token_ids k) start (stop + 1) else []) (extra_key k) true
  else mk_key (py_sub (token_ids k) start stop) (extra_key k) false.
Definition key_take (n : nat) (k : RadixKey) : RadixKey := key_slice k 0 n.
Definition key_drop (n : nat) (k : RadixKey) : RadixKey := key_slice k n (key_len k).

(** [key[i]]: an index from the end is allowed, one out of range raises. *)
Definition key_index (k : RadixKey) (i : Z) : res RadixKey :=
  let j := if i <? 0 then i + key_len k else i in
  if (j <? 0) || (Z.of_nat (key_len k) <=? j) then Raise IndexError
  else Ok (key_slice k (Z.to_nat j) (S (Z.to_nat j))).

Definition page_aligned (page_size : nat) (k : RadixKey) : RadixKey :=
  if (page_size =? 1)%nat then k else key_take (key_len k / page_size * page_size) k.

(** The key becomes a bigram view; values, one per token, lose the last one. *)
Definition maybe_to_bigram_view {V} (is_eagle : bool) (k : RadixKey) (value : option (list V)) :
    RadixKey * option (list V) :=
  if is_eagle && negb (is_bigram k)
  then let k' := mk_key (token_ids k) (extra_key k) true in (k', take (key_len k') <$> value)
  else (k, value).

(** The number of leading elements two lists share. *)
Fixpoint common_len {A} `{EqDecision A} (l1 l2 : list A) : nat :=
  match l1, l2 with
  | a :: l1, b :: l2 => if decide (a = b) then S (common_len l1 l2) else O
  | _, _ => O
  end.

(** Pages are compared one after the other; [fuel] bounds their number. *)
Fixpoint match_pages (fuel page_size : nat) (t0 t1 : list Z) (i min_len : nat) : nat :=
  match fuel with
  | O => i
  | S fuel =>
      if (i <? min_len)%nat then
        if decide (py_sub t0 i (i + page_size) = py_sub t1 i (i + page_size))
        then match_pages fuel page_size t0 t1 (i + page_size) min_len
        else i
      else i
  end.

Definition round_down (page_size n : nat) : nat := (n / page_size * page_size)%nat.

Definition key_match (k other : RadixKey) (page_size : nat) : res nat :=
  if negb (bool_decide (extra_key k = extra_key other)) then Raise ValueError
  else
    let t0 := token_ids k in
    let t1 := token_ids other in
    Ok (if is_bigram k then
          let matched := Nat.min (pred (common_len t0 t1)) (Nat.min (key_len k) (key_len other)) in
          if (1 <? page_size)%nat then round_down page_size matched else matched
        else if (page_size =? 1)%nat then common_len t0 t1
        else match_pages (S (length t0)) page_size t0 t1 0 (Nat.min (key_len k) (key_len other))).

(** A unit of a key: its namespace and its token or pair of tokens. *)
Definition unit_of : Type := option string * (Z * option Z).

Fixpoint bigrams (l : list Z) : list (Z * option Z) :=
  match l with
  | a :: l' => match l' with b :: _ => (a, Some b) :: bigrams l' | [] => [] end
  | [] => []
  end.
Definition plain_units (k : RadixKey) : list (Z * option Z) :=
  if is_bigram k then bigrams (token_ids k) else (λ t, (t, None)) <$> token_ids k.
Definition units (k : RadixKey) : list unit_of := (λ u, (extra_key k, u)) <$> plain_units k.

(** [child_key]: the first page of the key, in its namespace; [IndexError] where a bigram
    key or a key of single tokens is too short. *)
Definition ChildKey : Type := option string * list (Z * option Z).
Definition child_key (page_size : nat) (k : RadixKey) : res ChildKey :=
  let short := if is_bigram k then (key_len k <? page_size)%nat
               else (page_size =? 1)%nat && (key_len k <? 1)%nat in
  if short then Raise IndexError else Ok (extra_key k, take page_size (plain_units k)).

(** ** Facts *)

Lemma length_bigrams l : length (bigrams l) = pred (length l).
Proof. induction l as [|a [|b l] IH]; simpl in *; [done|done|]. by rewrite IH. Qed.

Lemma length_plain_units k : length (plain_units k) = key_len k.
Proof. unfold plain_units, key_len. destruct (is_bigram k); [apply length_bigrams|apply length_fmap]. Qed.

Lemma length_units k : length (units k) = key_len k.
Proof. unfold units. by rewrite length_fmap, length_plain_units. Qed.

Lemma units_nil k : key_len k = 0%nat → units k = [].
Proof. intros H. apply nil_length_inv. by rewrite length_units. Qed.

Lemma bigrams_drop n l : bigrams (drop n l) = drop n (bigrams l).
Proof.
  revert l. induction n as [|n IH]; intros l; [done|]. destruct l as [|a l]; [done|]. simpl drop at 1. rewrite IH.
  destruct l as [|b l]; [by destruct n|done].
Qed.

Lemma bigrams_take n l : bigrams (take (S n) l) = take n (bigrams l).
Proof.
  revert l. induction n as [|n IH]; intros l; [by destruct l as [|a [|b l]]|]. destruct l as [|a l]; [done|].
  destruct l as [|b l]; [done|]. change (take (S (S n)) (a :: b :: l)) with (a :: take (S n) (b :: l)).
  simpl. f_equal. apply (IH (b :: l)).
Qed.

Lemma plain_units_slice k a b :
  (a ≤ b)%nat → (b ≤ key_len k)%nat → plain_units (key_slice k a b) = drop a (take b (plain_units k)).
Proof.
  intros Hab Hb. unfold key_slice. rewrite !Nat.min_l by lia. unfold plain_units, key_len, py_sub in *.
  destruct (is_bigram k); simpl.
  - destruct (Nat.ltb_spec a b).
    + rewrite Nat.add_1_r, bigrams_drop, bigrams_take. done.
    + replace b with a by lia. rewrite drop_ge; [done|]. rewrite length_take. lia.
  - by rewrite fmap_drop, fmap_take.
Qed.

Lemma key_slice_namespace k a b : extra_key (key_slice k a b) = extra_key k ∧ is_bigram (key_slice k a b) = is_bigram k.
Proof. unfold key_slice. by destruct (is_bigram k). Qed.

Lemma units_take n k : (n ≤ key_len k)%nat → units (key_take n k) = take n (units k).
Proof.
  intros Hn. unfold units, key_take. rewrite plain_units_slice by lia. rewrite (proj1 (key_slice_namespace k 0 n)).
  by rewrite drop_0, fmap_take.
Qed.

Lemma units_drop n k : (n ≤ key_len k)%nat → units (key_drop n k) = drop n (units k).
Proof.
  intros Hn. unfold units, key_drop. rewrite plain_units_slice by lia.
  rewrite (proj1 (key_slice_namespace k n (key_len k))).
  rewrite take_ge by (rewrite length_plain_units; lia). by rewrite fmap_drop.
Qed.

Lemma key_len_take n k : (n ≤ key_len k)%nat → key_len (key_take n k) = n.
Proof. intros Hn. rewrite <-length_units, units_take, length_take, length_units by done. lia. Qed.

Lemma key_len_drop n k : (n ≤ key_len k)%nat → key_len (key_drop n k) = (key_len k - n)%nat.
Proof. intros Hn. by rewrite <-length_units, units_drop, length_drop, length_units by done. Qed.

(** ** Matching *)

Section CommonPrefix.
Context {A : Type} `{EqDecision A}.
Implicit Types l : list A.

Lemma common_len_take l1 l2 n : (n ≤ common_len l1 l2)%nat → take n l1 = take n l2.
Proof.
  revert l2 n. induction l1 as [|a l1 IH]; intros [|b l2] n; simpl; try (intros; by replace n with 0%nat by lia).
  case_decide as E; [|intros; by replace n with 0%nat by lia]. intros Hn. destruct n as [|n]; [done|].
  simpl. f_equal; [done|]. apply IH. lia.
Qed.

Lemma common_len_max l1 l2 n :
  (n ≤ length l1)%nat → (n ≤ length l2)%nat → take n l1 = take n l2 → (n ≤ common_len l1 l2)%nat.
Proof.
  revert l2 n. induction l1 as [|a l1 IH]; intros [|b l2] n; simpl; try lia.
  destruct n as [|n]; [lia|]. intros H1 H2 [= -> E]. rewrite decide_True by done. specialize (IH l2 n ltac:(lia) ltac:(lia) E). lia.
Qed.

Lemma common_len_le l1 l2 : (common_len l1 l2 ≤ length l1)%nat ∧ (common_len l1 l2 ≤ length l2)%nat.
Proof.
  revert l2. induction l1 as [|a l1 IH]; intros [|b l2]; simpl; try lia. case_decide; [|lia]. specialize (IH l2). lia.
Qed.

Lemma common_len_iff l1 l2 n :
  (n ≤ length l1)%nat → (n ≤ length l2)%nat → take n l1 = take n l2 ↔ (n ≤ common_len l1 l2)%nat.
Proof. intros H1 H2. split; [by apply common_len_max|apply common_len_take]. Qed.
End CommonPrefix.

Lemma common_len_fmap {A B} `{EqDecision A, EqDecision B} (f : A → B) `{!Inj (=) (=) f} l1 l2 :
  common_len (f <$> l1) (f <$> l2) = common_len l1 l2.
Proof.
  revert l2. induction l1 as [|a l1 IH]; intros [|b l2]; simpl; try done.
  destruct (decide (a = b)) as [->|Hne]; [rewrite decide_True by done; f_equal; apply IH|].
  rewrite decide_False; [done|]. intros E. by apply Hne, (inj f).
Qed.

Lemma common_len_bigrams l1 l2 : common_len (bigrams l1) (bigrams l2) = pred (common_len l1 l2).
Proof.
  revert l2. induction l1 as [|a l1 IH]; intros [|b l2]; [done|done|by destruct l1|].
  destruct l1 as [|a' l1], l2 as [|b' l2]; simpl; repeat case_decide; simplify_eq; try done.
  - specialize (IH (b' :: l2)). simpl in IH. rewrite decide_True in IH by done. by rewrite IH.
Qed.

Lemma page_step ps (t0 t1 : list Z) i :
  (i ≤ common_len t0 t1)%nat → (i + ps ≤ length t0)%nat → (i + ps ≤ length t1)%nat →
  py_sub t0 i (i + ps) = py_sub t1 i (i + ps) ↔ (i + ps ≤ common_len t0 t1)%nat.
Proof.
  intros Hi H0 H1. rewrite <-(common_len_iff t0 t1) by done. unfold py_sub. split; [|by intros ->].
  intros E. rewrite <-(take_drop i (take (i + ps) t0)), <-(take_drop i (take (i + ps) t1)), E.
  f_equal. rewrite !take_take, !Nat.min_l by lia. by apply common_len_take.
Qed.

Lemma round_down_between ps i c :
  (0 < ps)%nat → Nat.divide ps i → (i ≤ c < i + ps)%nat → round_down ps c = i.
Proof.
  intros Hps [m ->] Hc. unfold round_down. f_equal.
  symmetry. apply (Nat.div_unique c ps m (c - m * ps)); lia.
Qed.

Lemma round_down_le ps c : (round_down ps c ≤ c)%nat.
Proof. unfold round_down. destruct ps; [simpl; lia|]. rewrite Nat.mul_comm. apply Nat.Div0.mul_div_le. Qed.

Lemma round_down_ge ps n c : (0 < ps)%nat → Nat.divide ps n → (n ≤ c)%nat → (n ≤ round_down ps c)%nat.
Proof.
  intros Hps [m ->] Hc. unfold round_down. apply Nat.mul_le_mono_r, Nat.div_le_lower_bound; lia.
Qed.

Lemma round_down_divide ps c : Nat.divide ps (round_down ps c).
Proof. by exists (c / ps)%nat. Qed.

Lemma divide_lt ps i n : (0 < ps)%nat → Nat.divide ps i → Nat.divide ps n → (i < n)%nat → (i + ps ≤ n)%nat.
Proof. intros Hps [a ->] [b ->] H. assert (a < b)%nat by nia. nia. Qed.

(** Page by page: the shared prefix, rounded down to pages. *)
Lemma match_pages_spec ps fuel t0 t1 i n :
  (0 < ps)%nat → (n < fuel + i)%nat → Nat.divide ps i → Nat.divide ps n →
  (n ≤ length t0)%nat → (n ≤ length t1)%nat → (i ≤ n)%nat → (i ≤ common_len t0 t1)%nat →
  match_pages fuel ps t0 t1 i n = Nat.min n (round_down ps (common_len t0 t1)).
Proof.
  intros Hps. revert i. induction fuel as [|fuel IH]; intros i Hf Hi Hn H0 H1 Hin Hic; [lia|]. simpl.
  destruct (Nat.ltb_spec i n) as [Hlt|Hge].
  - pose proof (divide_lt ps i n Hps Hi Hn Hlt) as Hle. case_decide as E.
    + apply page_step in E; [|lia..]. apply IH; try lia; try done. apply Nat.divide_add_r; [done|]. apply Nat.divide_refl.
    + rewrite page_step in E by lia. rewrite (round_down_between ps i) by (done || lia). lia.
  - assert (i = n) as -> by lia. pose proof (round_down_ge ps n _ Hps Hn Hic). lia.
Qed.

(** Keys as the tree holds them: of whole pages, all read the same way. *)
Definition aligned (ps : nat) (k : RadixKey) : Prop := Nat.divide ps (key_len k).

Lemma units_common k1 k2 :
  is_bigram k1 = is_bigram k2 → extra_key k1 = extra_key k2 →
  common_len (units k1) (units k2) =
  if is_bigram k1 then pred (common_len (token_ids k1) (token_ids k2)) else common_len (token_ids k1) (token_ids k2).
Proof.
  intros Hb He. unfold units, plain_units. rewrite He, <-Hb.
  rewrite (common_len_fmap (λ u : Z * option Z, (extra_key k2, u))).
  destruct (is_bigram k1); [apply common_len_bigrams|].
  apply (common_len_fmap (λ t : Z, (t, @None Z))).
Qed.

(** [match] on two keys of the tree: the units they share, rounded down to pages. *)
Lemma key_match_spec ps k1 k2 :
  (0 < ps)%nat → aligned ps k1 → aligned ps k2 → is_bigram k1 = is_bigram k2 → extra_key k1 = extra_key k2 →
  key_match k1 k2 ps = Ok (round_down ps (common_len (units k1) (units k2))).
Proof.
  intros Hps H1 H2 Hb He. unfold key_match. rewrite bool_decide_true by done. cbn [negb]. f_equal.
  rewrite (units_common k1 k2) by done. pose proof (common_len_le (token_ids k1) (token_ids k2)) as [L1 L2].
  unfold aligned, key_len in *. rewrite <-Hb in H2. destruct (is_bigram k1) eqn:Ek; rewrite ?Hb in *.
  - rewrite <-Hb. rewrite (Nat.min_l (pred _)) by (apply Nat.min_glb; lia).
    destruct (Nat.ltb_spec 1 ps); [done|]. assert (ps = 1%nat) as -> by lia. unfold round_down. by rewrite Nat.div_1_r, Nat.mul_1_r.
  - rewrite <-Hb. destruct (Nat.eqb_spec ps 1) as [->|Hne].
    { unfold round_down. by rewrite Nat.div_1_r, Nat.mul_1_r. }
    rewrite (match_pages_spec ps); try done; try lia.
    + apply Nat.min_r. apply Nat.min_glb; (etrans; [apply round_down_le|lia]).
    + apply Nat.divide_0_r.
    + destruct (Nat.min_spec (length (token_ids k1)) (length (token_ids k2))) as [[_ ->]|[_ ->]]; done.
Qed.

(** [child_key] of a key with at least one page: its first page. *)
Lemma child_key_Ok ps k :
  (0 < ps)%nat → (ps ≤ key_len k)%nat → child_key ps k = Ok (extra_key k, take ps (plain_units k)).
Proof.
  intros Hps Hk. unfold child_key. destruct (is_bigram k).
  - by rewrite (proj2 (Nat.ltb_ge _ _) Hk).
  - rewrite (proj2 (Nat.ltb_ge (key_len k) 1)) by lia. by rewrite andb_false_r.
Qed.

(** Equal child keys are equal first pages. *)
Lemma child_key_units ps k1 k2 c :
  (0 < ps)%nat → (ps ≤ key_len k1)%nat → (ps ≤ key_len k2)%nat → child_key ps k1 = Ok c →
  child_key ps k2 = Ok c ↔ take ps (units k1) = take ps (units k2).
Proof.
  intros Hps H1 H2. rewrite !child_key_Ok by done. intros [= <-]. unfold units. rewrite <-!fmap_take. split.
  - intros [= He Ep]. by rewrite He, Ep.
  - intros E. f_equal. assert (Hn : take ps (plain_units k1) ≠ []).
    { intros Z0. apply (f_equal length) in Z0. rewrite length_take, length_plain_units in Z0. simpl in Z0. lia. }
    destruct (take ps (plain_units k1)) as [|u us]; [done|].
    destruct (take ps (plain_units k2)) as [|u' us']; [done|]. simpl in E. injection E as E1 E2 E3. subst u'.
    rewrite E1. f_equal. f_equal. rewrite E1 in E3. apply (list_fmap_eq_inj (λ u, (extra_key k2, u))) in E3; [done|].
    by intros ? ? [=].
Qed.
