(* ===== verification/RadixCache.v ===== *)
(** * The radix cache of the language-model runtime

    Models [RadixCache] and [TreeNode] of [srt/mem_cache/radix_cache.py] and the strategies of
    [srt/mem_cache/evict_policy.py]: a tree of key segments in which every node holds the KV
    indices of its segment, with reference counts that protect the paths running requests
    use, the sizes of the protected and of the evictable part, and the set of leaves that may
    be evicted. Nodes are objects of a store, with pointers to their parent and children;
    an object the tree no longer refers to is dropped from the store. Times are read from a
    clock that is a parameter. KV indices given back to the allocator are appended to a log.
    Values of nodes are always present (only the hierarchical caches of other modules set
    them to [None]); event recording and metrics are off; host copies and page hashes, which
    those caches use, are not modelled. *)

From S2P Require Import Prelude RadixKey.
Local Open Scope Z_scope.

Record TreeNode := mk_node {
  children : gmap ChildKey nat;
  parent : option nat;
  key : RadixKey;
  value : list Z;
  lock_ref : Z;
  last_access_time : Z;
  creation_time : Z;
  hit_count : Z;
  priority : Z;
}.

Definition set_children f (n : TreeNode) : TreeNode :=
  mk_node (f (children n)) (parent n) (key n) (value n) (lock_ref n) (last_access_time n) (creation_time n)
    (hit_count n) (priority n).
Definition set_lock_ref f (n : TreeNode) : TreeNode :=
  mk_node (children n) (parent n) (key n) (value n) (f (lock_ref n)) (last_access_time n) (creation_time n)
    (hit_count n) (priority n).
Definition set_access_time t (n : TreeNode) : TreeNode :=
  mk_node (children n) (parent n) (key n) (value n) (lock_ref n) t (creation_time n) (hit_count n) (priority n).
Definition set_hit_count f (n : TreeNode) : TreeNode :=
  mk_node (children n) (parent n) (key n) (value n) (lock_ref n) (last_access_time n) (creation_time n)
    (f (hit_count n)) (priority n).
Definition set_priority f (n : TreeNode) : TreeNode :=
  mk_node (children n) (parent n) (key n) (value n) (lock_ref n) (last_access_time n) (creation_time n)
    (hit_count n) (f (priority n)).
(** The lower part of a split node. *)
Definition lower_part (new : nat) (split_len : nat) (n : TreeNode) : TreeNode :=
  mk_node (children n) (Some new) (key_drop split_len (key n)) (drop split_len (value n)) (lock_ref n)
    (last_access_time n) (creation_time n) (hit_count n) (priority n).

(** ** Eviction strategies: smaller is evicted earlier *)

Inductive EvictionPolicy := LRU | LFU | FIFO | MRU | FILO | PRIORITY | SLRU.

Definition policy_of_string (s : string) : res EvictionPolicy :=
  match dget (lower s) [("lru", LRU); ("lfu", LFU); ("fifo", FIFO); ("mru", MRU); ("filo", FILO);
                        ("priority", PRIORITY); ("slru", SLRU)]%string with
  | Some p => Ok p
  | None => Raise ValueError
  end.

Definition protected_threshold : Z := 2.

(** A single number is a pair with a constant second component. *)
Definition get_priority (p : EvictionPolicy) (n : TreeNode) : Z * Z :=
  match p with
  | LRU => (last_access_time n, 0)
  | LFU => (hit_count n, last_access_time n)
  | FIFO => (creation_time n, 0)
  | MRU => (- last_access_time n, 0)
  | FILO => (- creation_time n, 0)
  | PRIORITY => (priority n, last_access_time n)
  | SLRU => (if protected_threshold <=? hit_count n then 1 else 0, last_access_time n)
  end.

(** The entries of the eviction heap are compared by priority, then by last access. *)
Definition Rank : Type := Z * Z * Z.
Definition rank_of (p : EvictionPolicy) (n : TreeNode) : Rank := (get_priority p n, last_access_time n).
Definition rank_lt (r1 r2 : Rank) : bool :=
  let '(a1, b1, c1) := r1 in
  let '(a2, b2, c2) := r2 in
  (a1 <? a2) || ((a1 =? a2) && ((b1 <? b2) || ((b1 =? b2) && (c1 <? c2)))).

(** [heapq.heappop]: a smallest entry; among equals, the first of the list. *)
Fixpoint select_min (e : Rank * nat) (l : list (Rank * nat)) : (Rank * nat) * list (Rank * nat) :=
  match l with
  | [] => (e, [])
  | x :: l =>
      if rank_lt x.1 e.1 then let r := select_min x l in (r.1, e :: r.2)
      else let r := select_min e l in (r.1, x :: r.2)
  end.
Definition heappop (l : list (Rank * nat)) : option ((Rank * nat) * list (Rank * nat)) :=
  match l with [] => None | e :: l => Some (select_min e l) end.

(** ** The cache *)

Record CacheConfig := mk_cache_config {
  disable : bool;
  page_size : nat;
  is_eagle : bool;
  disable_finished_insert : bool;
  eviction_policy : EvictionPolicy;
}.

Record Cache := mk_cache {
  nodes : gmap nat TreeNode;
  node_counter : nat;
  root_node : nat;
  evictable_size_ : Z;
  protected_size_ : Z;
  evictable_leaves : gset nat;
  clock_reads : nat;
  free_calls : list (list Z);
}.

(** The indices given back to the allocator so far. *)
Definition freed (s : Cache) : list Z := concat (free_calls s).

Definition set_nodes f (s : Cache) : Cache :=
  mk_cache (f (nodes s)) (node_counter s) (root_node s) (evictable_size_ s) (protected_size_ s) (evictable_leaves s)
    (clock_reads s) (free_calls s).
Definition set_node_counter f (s : Cache) : Cache :=
  mk_cache (nodes s) (f (node_counter s)) (root_node s) (evictable_size_ s) (protected_size_ s) (evictable_leaves s)
    (clock_reads s) (free_calls s).
Definition set_evictable_size f (s : Cache) : Cache :=
  mk_cache (nodes s) (node_counter s) (root_node s) (f (evictable_size_ s)) (protected_size_ s) (evictable_leaves s)
    (clock_reads s) (free_calls s).
Definition set_protected_size f (s : Cache) : Cache :=
  mk_cache (nodes s) (node_counter s) (root_node s) (evictable_size_ s) (f (protected_size_ s)) (evictable_leaves s)
    (clock_reads s) (free_calls s).
Definition set_leaves f (s : Cache) : Cache :=
  mk_cache (nodes s) (node_counter s) (root_node s) (evictable_size_ s) (protected_size_ s) (f (evictable_leaves s))
    (clock_reads s) (free_calls s).
Definition set_clock_reads f (s : Cache) : Cache :=
  mk_cache (nodes s) (node_counter s) (root_node s) (evictable_size_ s) (protected_size_ s) (evictable_leaves s)
    (f (clock_reads s)) (free_calls s).
Definition set_free_calls f (s : Cache) : Cache :=
  mk_cache (nodes s) (node_counter s) (root_node s) (evictable_size_ s) (protected_size_ s) (evictable_leaves s)
    (clock_reads s) (f (free_calls s)).

Lemma freed_call l s : freed (set_free_calls (λ f, f ++ [l]) s) = freed s ++ l.
Proof. unfold freed. simpl. by rewrite concat_app; simpl; rewrite app_nil_r. Qed.

Lemma same_calls s s' : free_calls s' = free_calls s → freed s' = freed s.
Proof. unfold freed. by intros ->. Qed.

Section Cache.
Context (cfg : CacheConfig) (ticks : nat → Z).
Local Abbreviation ps := (page_size cfg).
Local Abbreviation Mc := (M Cache).

(** [time.monotonic()] *)
Definition monotonic : Mc Z :=
  n ← gets clock_reads; modify (set_clock_reads S) ≫= λ _, mret (ticks n).

Definition node_of (n : nat) : Mc TreeNode :=
  o ← gets (λ s, nodes s !! n); lift_res (match o with Some nd => Ok nd | None => Raise AttributeError end).

Definition put_node (n : nat) (f : TreeNode → TreeNode) : Mc unit := modify (set_nodes (alter f n)).

(** [self.token_to_kv_pool_allocator.free(indices)] *)
Definition free (indices : list Z) : Mc unit := modify (set_free_calls (λ l, l ++ [indices])).

(** [TreeNode(priority=...)], with the fields that are assigned right behind it. *)
Definition new_node (prio : Z) (build : Z → Z → Z → TreeNode) : Mc nat :=
  t1 ← monotonic; t2 ← monotonic;
  id ← gets node_counter;
  modify (set_node_counter S) ≫= λ _,
  modify (set_nodes (<[id := build prio t1 t2]>)) ≫= λ _,
  mret id.

Definition sys_maxsize : Z := 2 ^ 63 - 1.

Definition root_of (t1 t2 : Z) : TreeNode :=
  mk_node ∅ None (mk_key [] None false) [] 1 t1 t2 0 (- sys_maxsize).

Definition reset : Mc unit :=
  t1 ← monotonic; t2 ← monotonic;
  modify (λ s, mk_cache {[node_counter s := root_of t1 t2]} (S (node_counter s)) (node_counter s) 0 0 ∅
                 (clock_reads s) (free_calls s)).

(** *** Leaves *)

Definition update_leaf_status (n : nat) : Mc unit :=
  nd ← node_of n;
  if (0 <? lock_ref nd) || negb (bool_decide (children nd = ∅))
  then modify (set_leaves (λ l, l ∖ {[n]}))
  else modify (set_leaves (λ l, {[n]} ∪ l)).

(** *** Splitting a node: [new -> child]

    The two child keys are computed first; computing them changes nothing. *)

Definition upper_part (cd : TreeNode) (ck : ChildKey) (child split_len : nat) (prio t1 t2 : Z) : TreeNode :=
  mk_node {[ck := child]} (parent cd) (key_take split_len (key cd)) (take split_len (value cd)) (lock_ref cd)
    t1 t2 (hit_count cd) prio.

Definition split_node (child : nat) (split_len : nat) : Mc nat :=
  cd ← node_of child;
  ck_low ← lift_res (child_key ps (key_drop split_len (key cd)));
  ck ← lift_res (child_key ps (key cd));
  new ← new_node (priority cd) (upper_part cd ck_low child split_len);
  put_node child (lower_part new split_len) ≫= λ _,
  p ← lift_res (match parent cd with Some p => Ok p | None => Raise AttributeError end);
  node_of p ≫= λ _,
  put_node p (set_children (<[ck := new]>)) ≫= λ _,
  mret new.

(** *** Matching *)

Fixpoint match_loop (fuel : nat) (node : nat) (k : RadixKey) (ck : ChildKey) (access_time : Z)
    (acc : list (list Z)) : Mc (list (list Z) * nat) :=
  match fuel with
  | O => raise RuntimeError
  | S fuel =>
      nd ← node_of node;
      match (if (0 <? key_len k)%nat then children nd !! ck else None) with
      | None => mret (acc, node)
      | Some child =>
          put_node child (set_access_time access_time) ≫= λ _,
          cd ← node_of child;
          prefix_len ← lift_res (key_match (key cd) k ps);
          if (prefix_len <? key_len (key cd))%nat then
            new ← split_node child prefix_len;
            nn ← node_of new;
            mret (acc ++ [value nn], new)
          else
            let k' := key_drop prefix_len k in
            ck' ← (if (0 <? key_len k')%nat then lift_res (child_key ps k') else mret ck);
            match_loop fuel child k' ck' access_time (acc ++ [value cd])
      end
  end.

Definition match_prefix_helper (node : nat) (k : RadixKey) : Mc (list (list Z) * nat) :=
  access_time ← monotonic;
  put_node node (set_access_time access_time) ≫= λ _,
  ck ← lift_res (child_key ps k);
  match_loop (S (key_len k)) node k ck access_time [].

(** The indices of the longest cached prefix, and the node it ends in. *)
Definition match_prefix (k0 : RadixKey) : Mc (list Z * nat) :=
  let k := (maybe_to_bigram_view (V:=Z) (is_eagle cfg) k0 None).1 in
  root ← gets root_node;
  if disable cfg || (key_len k =? 0)%nat then mret ([], root)
  else
    let k := page_aligned ps k in
    if (key_len k =? 0)%nat then mret ([], root)
    else r ← match_prefix_helper root k; mret (concat r.1, r.2).

(** *** Insertion *)

Definition inc_hit_count (n : nat) (chunked : bool) : Mc unit :=
  if chunked then mret tt else put_node n (set_hit_count (λ h, h + 1)).

Fixpoint insert_loop (fuel : nat) (node : nat) (k : RadixKey) (ck : ChildKey) (v : list Z) (total : nat)
    (access_time prio : Z) (chunked : bool) : Mc (nat * RadixKey * ChildKey * list Z * nat) :=
  match fuel with
  | O => raise RuntimeError
  | S fuel =>
      nd ← node_of node;
      match (if (0 <? key_len k)%nat then children nd !! ck else None) with
      | None => mret (node, k, ck, v, total)
      | Some child =>
          put_node child (set_access_time access_time) ≫= λ _,
          cd ← node_of child;
          prefix_len ← lift_res (key_match (key cd) k ps);
          let k' := key_drop prefix_len k in
          let v' := drop prefix_len v in
          node' ← (if (prefix_len <? key_len (key cd))%nat then split_node child prefix_len else mret child);
          put_node node' (set_priority (Z.max prio)) ≫= λ _,
          inc_hit_count node' chunked ≫= λ _,
          ck' ← (if (0 <? key_len k')%nat then lift_res (child_key ps k') else mret ck);
          insert_loop fuel node' k' ck' v' (total + prefix_len) access_time prio chunked
      end
  end.

Definition leaf_node (node : nat) (k : RadixKey) (v : list Z) (prio t1 t2 : Z) : TreeNode :=
  mk_node ∅ (Some node) k v 0 t1 t2 0 prio.

Definition insert_helper (node : nat) (k : RadixKey) (v : list Z) (prio : Z) (chunked : bool) : Mc nat :=
  access_time ← monotonic;
  put_node node (set_access_time access_time) ≫= λ _,
  put_node node (set_priority (Z.max prio)) ≫= λ _,
  if (key_len k =? 0)%nat then mret O
  else
    ck ← lift_res (child_key ps k);
    r ← insert_loop (S (key_len k)) node k ck v 0 access_time prio chunked;
    let '(node, k, ck, v, total) := r in
    if (key_len k =? 0)%nat then mret total
    else
      new ← new_node prio (leaf_node node k v);
      inc_hit_count new chunked ≫= λ _,
      put_node node (set_children (<[ck := new]>)) ≫= λ _,
      modify (set_evictable_size (λ z, z + key_len k)) ≫= λ _,
      update_leaf_status node ≫= λ _,
      update_leaf_status new ≫= λ _,
      mret total.

(** The number of leading units that were cached already. Without values, the tokens are
    used as values. *)
Definition insert (k0 : RadixKey) (v0 : option (list Z)) (prio : option Z) (chunked : bool) : Mc nat :=
  if disable cfg then mret O
  else
    let kv := maybe_to_bigram_view (is_eagle cfg) k0 v0 in
    let k := page_aligned ps kv.1 in
    let v := match kv.2 with
             | Some v => take (key_len k) v
             | None => take (key_len k) (token_ids k)
             end in
    root ← gets root_node;
    insert_helper root k v (default 0 prio) chunked.

(** *** Reference counts *)

(** The path from a node to the root. *)
Fixpoint inc_lock_loop (fuel : nat) (node : nat) (delta : Z) : Mc Z :=
  root ← gets root_node;
  if (node =? root)%nat then mret delta
  else
    match fuel with
    | O => raise RuntimeError
    | S fuel =>
        nd ← node_of node;
        let n := Z.of_nat (key_len (key nd)) in
        let unlocked := lock_ref nd =? 0 in
        when unlocked (modify (λ s, set_protected_size (λ z, z + n) (set_evictable_size (λ z, z - n) s))) ≫= λ _,
        put_node node (set_lock_ref (λ l, l + 1)) ≫= λ _,
        update_leaf_status node ≫= λ _,
        p ← lift_res (match parent nd with Some p => Ok p | None => Raise AttributeError end);
        inc_lock_loop fuel p (if unlocked then delta - n else delta)
    end.

Fixpoint dec_lock_loop (fuel : nat) (node : nat) (delta : Z) : Mc Z :=
  root ← gets root_node;
  if (node =? root)%nat then mret delta
  else
    match fuel with
    | O => raise RuntimeError
    | S fuel =>
        nd ← node_of node;
        let n := Z.of_nat (key_len (key nd)) in
        let last := lock_ref nd =? 1 in
        when last (modify (λ s, set_protected_size (λ z, z - n) (set_evictable_size (λ z, z + n) s))) ≫= λ _,
        put_node node (set_lock_ref (λ l, l - 1)) ≫= λ _,
        update_leaf_status node ≫= λ _,
        p ← lift_res (match parent nd with Some p => Ok p | None => Raise AssertionError end);
        dec_lock_loop fuel p (if last then delta + n else delta)
    end.

(** A path has no more nodes than the store. *)
Definition inc_lock_ref (node : nat) : Mc Z :=
  if disable cfg then mret 0 else n ← gets (λ s, size (nodes s)); inc_lock_loop n node 0.
Definition dec_lock_ref (node : nat) : Mc Z :=
  if disable cfg then mret 0 else n ← gets (λ s, size (nodes s)); dec_lock_loop n node 0.

(** *** Eviction *)

Definition delete_leaf (x : nat) : Mc unit :=
  nd ← node_of x;
  ck ← lift_res (child_key ps (key nd));
  p ← lift_res (match parent nd with Some p => Ok p | None => Raise AttributeError end);
  pd ← node_of p;
  put_node p (set_children (delete ck)) ≫= λ _,
  (if bool_decide (children pd !! ck = Some x) then mret tt else raise AssertionError) ≫= λ _,
  modify (set_evictable_size (λ z, z - key_len (key nd))) ≫= λ _,
  modify (set_leaves (λ l, l ∖ {[x]})) ≫= λ _,
  update_leaf_status p.

Fixpoint evict_loop (fuel : nat) (num_tokens num_evicted : Z) (heap : list (Rank * nat)) : Mc Z :=
  if negb (num_evicted <? num_tokens) then mret num_evicted
  else
    match heappop heap with
    | None => mret num_evicted
    | Some ((_, x), heap') =>
        match fuel with
        | O => raise RuntimeError
        | S fuel =>
            nd ← node_of x;
            free (value nd) ≫= λ _,
            delete_leaf x ≫= λ _,
            p ← lift_res (match parent nd with Some p => Ok p | None => Raise AttributeError end);
            pd ← node_of p;
            modify (set_nodes (delete x)) ≫= λ _,
            evict_loop fuel num_tokens (num_evicted + length (value nd))
              (if bool_decide (children pd = ∅) && (lock_ref pd =? 0)
               then (rank_of (eviction_policy cfg) pd, p) :: heap' else heap')
        end
    end.

(** The evictable leaves, in the order the set gives them, with their ranks. *)
Definition eviction_heap (s : Cache) : list (Rank * nat) :=
  omap (λ n, (λ nd, (rank_of (eviction_policy cfg) nd, n)) <$> nodes s !! n) (elements (evictable_leaves s)).

Definition evict (num_tokens : Z) : Mc Z :=
  if disable cfg then mret 0
  else
    heap ← gets eviction_heap;
    n ← gets (λ s, size (nodes s));
    evict_loop n num_tokens 0 heap.

Definition init_cache : Cache := (reset (mk_cache ∅ 0 0 0 0 ∅ 0 [])).2.
End Cache.
