(* ===== verification/RadixFacts.v ===== *)
(** * The structure of the radix tree

    The invariant of the store of nodes (parents and children agree, every node hangs below
    the root, keys are whole pages and as long as their values), the paths of the tree with
    the units and the KV indices they spell, and how splitting a node, adding a leaf and
    deleting one change them. *)

From S2P Require Import Prelude RadixKey RadixCache.
Local Open Scope Z_scope.


Section Tree.
(** Page size, bigram view and root of the tree. *)
Context (ps : nat) (bg : bool) (r : nat).
Implicit Types (H : gmap nat TreeNode) (n p c : nat) (nd pd cd : TreeNode).

(** The nodes from [n] up to the root, the root left out. *)
Inductive chain H : nat → list nat → Prop :=
  | chain_root : chain H r []
  | chain_up n nd p l : n ≠ r → H !! n = Some nd → parent nd = Some p → chain H p l → chain H n (n :: l).

(** A node's segment: whole pages, and one index per unit. *)
Definition segment nd : Prop :=
  is_bigram (key nd) = bg ∧ aligned ps (key nd) ∧ (0 < key_len (key nd))%nat ∧ length (value nd) = key_len (key nd).

Record tree H : Prop := mk_tree {
  t_root : ∃ rd, H !! r = Some rd ∧ parent rd = None ∧ value rd = [];
  t_up : ∀ n nd, H !! n = Some nd → n ≠ r →
    ∃ p pd ck, parent nd = Some p ∧ H !! p = Some pd ∧ child_key ps (key nd) = Ok ck ∧ children pd !! ck = Some n;
  t_down : ∀ p pd ck c, H !! p = Some pd → children pd !! ck = Some c →
    c ≠ r ∧ ∃ cd, H !! c = Some cd ∧ parent cd = Some p ∧ child_key ps (key cd) = Ok ck;
  t_segment : ∀ n nd, H !! n = Some nd → n ≠ r → segment nd;
  t_chain : ∀ n nd, H !! n = Some nd → ∃ l, chain H n l;
}.

(** A path down the tree, with the units and the indices along it. *)
Inductive down H : nat → list unit_of → list Z → nat → Prop :=
  | down_nil n : down H n [] [] n
  | down_cons n nd ck c cd s v m :
      H !! n = Some nd → children nd !! ck = Some c → H !! c = Some cd → down H c s v m →
      down H n (units (key cd) ++ s) (value cd ++ v) m.

(** ** Chains *)

Lemma chain_det H n l l' : chain H n l → chain H n l' → l = l'.
Proof.
  intros Hc. revert l'. induction Hc as [|n nd p l Hn E Hp Hc IH]; intros l' Hc'; inversion Hc'; simplify_eq; [done|].
  f_equal. auto.
Qed.

Lemma parent_ne H n nd p l : n ≠ r → H !! n = Some nd → parent nd = Some p → chain H p l → p ≠ n.
Proof.
  intros Hn E Hp Hc ->. assert (chain H n (n :: l)) as Hc' by (by eapply chain_up).
  pose proof (chain_det _ _ _ _ Hc Hc') as Hl. apply (f_equal length) in Hl. simpl in Hl. lia.
Qed.

Lemma chain_nodes H n l : chain H n l → Forall (λ m, m ≠ r ∧ is_Some (H !! m)) l.
Proof. induction 1; constructor; eauto. Qed.

(** The chain of a member is a part of the chain. *)
Lemma chain_member H n l m : chain H n l → m ∈ l → ∃ l1 l2, l = l1 ++ l2 ∧ chain H m l2.
Proof.
  intros Hc. induction Hc as [|n nd p l Hn E Hp Hc IH]; intros Hm; [by apply elem_of_nil in Hm|].
  apply elem_of_cons in Hm as [->|Hm].
  - exists [], (n :: l). split; [done|]. by eapply chain_up.
  - destruct (IH Hm) as (l1 & l2 & -> & Hc2). by exists (n :: l1), l2.
Qed.

Lemma chain_nodup H n l : chain H n l → NoDup l.
Proof.
  intros Hc. induction Hc as [|n nd p l Hn E Hp Hc IH]; [constructor|]. constructor; [|done]. intros Hin.
  destruct (chain_member _ _ _ _ Hc Hin) as (l1 & l2 & -> & Hc2).
  assert (Hc1 : chain H n (n :: l1 ++ l2)) by (by eapply chain_up).
  pose proof (chain_det _ _ _ _ Hc1 Hc2) as Hl. apply (f_equal length) in Hl. simpl in Hl. rewrite length_app in Hl. lia.
Qed.

Lemma chain_size H n l : chain H n l → (length l ≤ size H)%nat.
Proof.
  intros Hc. pose proof (chain_nodup _ _ _ Hc) as Hd. pose proof (chain_nodes _ _ _ Hc) as Hn.
  rewrite <-(size_dom H), <-(size_list_to_set (C:=gset nat) l) by done. apply subseteq_size. intros m Hm.
  apply elem_of_list_to_set in Hm. rewrite Forall_forall in Hn. apply elem_of_dom. by apply Hn.
Qed.

(** ** Only structure matters *)

Definition same_structure (o o' : option TreeNode) : Prop :=
  match o, o' with
  | Some nd, Some nd' => children nd' = children nd ∧ parent nd' = parent nd ∧ key nd' = key nd ∧ value nd' = value nd
  | None, None => True
  | _, _ => False
  end.
Definition same_tree H H' : Prop := ∀ n, same_structure (H !! n) (H' !! n).

Lemma same_tree_some H H' n nd :
  same_tree H H' → H !! n = Some nd →
  ∃ nd', H' !! n = Some nd' ∧ children nd' = children nd ∧ parent nd' = parent nd ∧ key nd' = key nd ∧ value nd' = value nd.
Proof. intros Hs E. specialize (Hs n). rewrite E in Hs. destruct (H' !! n); [eauto|done]. Qed.

Lemma same_tree_sym H H' : same_tree H H' → same_tree H' H.
Proof.
  intros Hs n. specialize (Hs n). destruct (H !! n), (H' !! n); simpl in *; try done.
  destruct Hs as (? & ? & ? & ?). by split_and!.
Qed.

Lemma same_tree_refl H : same_tree H H.
Proof. intros n. by destruct (H !! n). Qed.

Lemma same_tree_trans H1 H2 H3 : same_tree H1 H2 → same_tree H2 H3 → same_tree H1 H3.
Proof.
  intros Ha Hb n. specialize (Ha n). specialize (Hb n).
  destruct (H1 !! n), (H2 !! n), (H3 !! n); simpl in *; try done.
  destruct Ha as (A1 & A2 & A3 & A4), Hb as (-> & -> & -> & ->). done.
Qed.

Lemma chain_same H H' n l : same_tree H H' → chain H n l → chain H' n l.
Proof.
  intros Hs. induction 1 as [|n nd p l Hn E Hp Hc IH]; [constructor|].
  destruct (same_tree_some _ _ _ _ Hs E) as (nd' & E' & _ & Hp' & _). eapply chain_up; [done|exact E'|by rewrite Hp'|done].
Qed.

Lemma down_same H H' n s v m : same_tree H H' → down H n s v m → down H' n s v m.
Proof.
  intros Hs. induction 1 as [|n nd ck c cd s v m E Ec Ecd Hd IH]; [constructor|].
  destruct (same_tree_some _ _ _ _ Hs E) as (nd' & E' & Hch & _).
  destruct (same_tree_some _ _ _ _ Hs Ecd) as (cd' & Ecd' & _ & _ & Hk & Hv).
  rewrite <-Hk, <-Hv. eapply down_cons; [done|by rewrite Hch|done|done].
Qed.

Lemma tree_same H H' : same_tree H H' → tree H → tree H'.
Proof.
  intros Hs [Hr Hu Hd Hg Hc]. pose proof (same_tree_sym _ _ Hs) as Hs'. split.
  - destruct Hr as (rd & E & Hp & Hv). destruct (same_tree_some _ _ _ _ Hs E) as (rd' & E' & _ & Hp' & _ & Hv').
    exists rd'. split; [done|]. split; congruence.
  - intros n nd E Hn. destruct (same_tree_some _ _ _ _ Hs' E) as (nd0 & E0 & _ & Hp & Hk & _).
    destruct (Hu n nd0 E0 Hn) as (p & pd & ck & H1 & H2 & H3 & H4).
    destruct (same_tree_some _ _ _ _ Hs H2) as (pd' & H2' & Hch & _).
    exists p, pd', ck. split_and!; congruence.
  - intros p pd ck c E Ec. destruct (same_tree_some _ _ _ _ Hs' E) as (pd0 & E0 & Hch & _).
    destruct (Hd p pd0 ck c E0) as (Hne & cd & H1 & H2 & H3); [congruence|]. split; [done|].
    destruct (same_tree_some _ _ _ _ Hs H1) as (cd' & H1' & _ & Hp & Hk & _). exists cd'. split_and!; congruence.
  - intros n nd E Hn. destruct (same_tree_some _ _ _ _ Hs' E) as (nd0 & E0 & _ & _ & Hk & Hv).
    specialize (Hg n nd0 E0 Hn). unfold segment in *. by rewrite Hk, Hv in Hg.
  - intros n nd E. destruct (same_tree_some _ _ _ _ Hs' E) as (nd0 & E0 & _).
    destruct (Hc n nd0 E0) as [l Hl]. exists l. by eapply chain_same.
Qed.

(** Changing a node's counters, times or priority. *)
Lemma alter_same H n (f : TreeNode → TreeNode) :
  (∀ nd, same_structure (Some nd) (Some (f nd))) → same_tree H (alter f n H).
Proof.
  intros Hf m. destruct (decide (m = n)) as [->|Hne].
  - rewrite lookup_alter_eq. destruct (H !! n) as [nd|]; [apply Hf|done].
  - rewrite lookup_alter_ne by done. by destruct (H !! m).
Qed.

(** ** Paths *)

(** What the tree says of a child. *)
Lemma child_facts H n nd ck c cd :
  tree H → H !! n = Some nd → children nd !! ck = Some c → H !! c = Some cd →
  c ≠ r ∧ parent cd = Some n ∧ child_key ps (key cd) = Ok ck ∧ segment cd.
Proof.
  intros Ht E Ec Ecd. destruct (t_down H Ht _ _ _ _ E Ec) as (Hne & cd' & E' & Hp & Hk). simplify_eq.
  split_and!; [done..|]. by eapply (t_segment H Ht).
Qed.

Lemma segment_page nd : (0 < ps)%nat → segment nd → (ps ≤ key_len (key nd))%nat.
Proof.
  intros Hps (_ & Ha & Hl & _). pose proof (divide_lt ps 0 _ Hps (Nat.divide_0_r ps) Ha Hl). lia.
Qed.

Lemma segment_units nd : segment nd → length (units (key nd)) = length (value nd).
Proof. intros (_ & _ & _ & ->). apply length_units. Qed.

Lemma down_length H n s v m : tree H → down H n s v m → length s = length v.
Proof.
  intros Ht. induction 1 as [|n nd ck c cd s v m E Ec Ecd Hd IH]; [done|].
  destruct (child_facts _ _ _ _ _ _ Ht E Ec Ecd) as (_ & _ & _ & Hg). by rewrite !length_app, IH, (segment_units cd).
Qed.

Lemma down_aligned H n s v m : tree H → down H n s v m → Nat.divide ps (length s).
Proof.
  intros Ht. induction 1 as [|n nd ck c cd s v m E Ec Ecd Hd IH]; [apply Nat.divide_0_r|].
  destruct (child_facts _ _ _ _ _ _ Ht E Ec Ecd) as (_ & _ & _ & _ & Ha & _). rewrite length_app, length_units.
  by apply Nat.divide_add_r.
Qed.

Lemma down_app H n s v m s' v' q : down H n s v m → down H m s' v' q → down H n (s ++ s') (v ++ v') q.
Proof.
  induction 1 as [|n nd ck c cd s v m E Ec Ecd Hd IH]; [done|]. intros Hd'. rewrite <-!(assoc_L (++)).
  eapply down_cons; eauto.
Qed.

Lemma down_child H n nd ck c cd :
  H !! n = Some nd → children nd !! ck = Some c → H !! c = Some cd → down H n (units (key cd)) (value cd) c.
Proof.
  intros E Ec Ecd. rewrite <-(app_nil_r (units _)), <-(app_nil_r (value cd)). eapply down_cons; eauto. constructor.
Qed.

Lemma down_end H n s v m : is_Some (H !! n) → down H n s v m → is_Some (H !! m).
Proof. intros Hn Hd. induction Hd as [|n nd ck c cd s v m E Ec Ecd Hd IH]; eauto. Qed.

(** Two children of a node with the same first page are the same child. *)
Lemma same_child H n nd ck1 c1 cd1 ck2 c2 cd2 :
  (0 < ps)%nat → tree H → H !! n = Some nd →
  children nd !! ck1 = Some c1 → H !! c1 = Some cd1 → children nd !! ck2 = Some c2 → H !! c2 = Some cd2 →
  take ps (units (key cd1)) = take ps (units (key cd2)) → c1 = c2.
Proof.
  intros Hps Ht E Ec1 Ecd1 Ec2 Ecd2 Hu.
  destruct (child_facts _ _ _ _ _ _ Ht E Ec1 Ecd1) as (_ & _ & Hk1 & Hg1).
  destruct (child_facts _ _ _ _ _ _ Ht E Ec2 Ecd2) as (_ & _ & Hk2 & Hg2).
  apply segment_page in Hg1, Hg2; [|done..]. apply (child_key_units ps _ _ _ Hps Hg1 Hg2 Hk1) in Hu. congruence.
Qed.

Lemma take_page nd s : (0 < ps)%nat → segment nd → take ps (units (key nd) ++ s) = take ps (units (key nd)).
Proof. intros Hps Hg. apply take_app_le. rewrite length_units. by apply segment_page. Qed.

(** A longer path goes through the node a shorter one reaches. *)
Lemma down_inv H n s1 v1 m x v2 q :
  (0 < ps)%nat → tree H → down H n s1 v1 m → down H n (s1 ++ x) v2 q → ∃ v3, down H m x v3 q ∧ v2 = v1 ++ v3.
Proof.
  intros Hps Ht Hd. revert v2. induction Hd as [|n nd ck c cd s v m E Ec Ecd Hd IH]; intros v2 Hd2; [eauto|].
  destruct (child_facts _ _ _ _ _ _ Ht E Ec Ecd) as (_ & _ & _ & Hg). rewrite <-(assoc_L (++)) in Hd2.
  remember (units (key cd) ++ s ++ x) as u eqn:Hu.
  destruct Hd2 as [n|n nd' ck' c' cd' s' v' m' E' Ec' Ecd' Hd']; simplify_eq.
  { apply (f_equal length) in Hu. rewrite length_app, length_units in Hu. destruct Hg as (_ & _ & ? & _). simpl in *. lia. }
  destruct (child_facts _ _ _ _ _ _ Ht E Ec' Ecd') as (_ & _ & _ & Hg').
  assert (c' = c) as ->.
  { apply (same_child H n nd ck' c' cd' ck c cd); try done. apply (f_equal (take ps)) in Hu. by rewrite !take_page in Hu. }
  rewrite Ecd in Ecd'. injection Ecd' as <-. apply app_inv_head in Hu as ->. destruct (IH _ Hd') as (v3 & Hd3 & ->). exists v3. by rewrite (assoc_L (++)).
Qed.

(** The last step of a path. *)
Lemma down_last H n s v m :
  tree H → down H n s v m →
  (m = n ∧ s = [] ∧ v = []) ∨
  ∃ md p s' v', m ≠ r ∧ H !! m = Some md ∧ parent md = Some p ∧ down H n s' v' p ∧
    s = s' ++ units (key md) ∧ v = v' ++ value md.
Proof.
  intros Ht. induction 1 as [|n nd ck c cd s v m E Ec Ecd Hd IH]; [by left|]. right.
  destruct (child_facts _ _ _ _ _ _ Ht E Ec Ecd) as (Hne & Hp & _ & _).
  destruct IH as [(-> & -> & ->)|(md & p & s' & v' & Hm & Em & Hpm & Hd' & -> & ->)].
  - exists cd, n, [], []. rewrite !app_nil_r. by split_and!; try constructor.
  - exists md, p, (units (key cd) ++ s'), (value cd ++ v'). rewrite !(assoc_L (++)). split_and!; try done.
    by eapply down_cons.
Qed.

Lemma down_unique H s1 v1 s2 v2 m :
  tree H → is_Some (H !! m) → down H r s1 v1 m → down H r s2 v2 m → s1 = s2 ∧ v1 = v2.
Proof.
  intros Ht [md Em]. destruct (t_chain H Ht m md Em) as [l Hc]. clear Em md. revert s1 v1 s2 v2.
  induction Hc as [|n nd p l Hn E Hp Hc IH]; intros s1 v1 s2 v2 H1 H2.
  - apply (down_last _ _ _ _ _ Ht) in H1 as [(_ & -> & ->)|(? & ? & ? & ? & ? & _)]; [|done].
    by apply (down_last _ _ _ _ _ Ht) in H2 as [(_ & -> & ->)|(? & ? & ? & ? & ? & _)].
  - apply (down_last _ _ _ _ _ Ht) in H1 as [(? & _)|(md1 & p1 & s1' & v1' & _ & E1 & Hp1 & H1 & -> & ->)]; [done|].
    apply (down_last _ _ _ _ _ Ht) in H2 as [(? & _)|(md2 & p2 & s2' & v2' & _ & E2 & Hp2 & H2 & -> & ->)]; [done|].
    simplify_eq. destruct (IH _ _ _ _ H1 H2) as [-> ->]. done.
Qed.

Lemma down_from_root H m : tree H → is_Some (H !! m) → ∃ s v, down H r s v m.
Proof.
  intros Ht [md Em]. destruct (t_chain H Ht m md Em) as [l Hc]. clear Em md.
  induction Hc as [|n nd p l Hn E Hp Hc (s & v & IH)]; [exists [], []; constructor|].
  destruct (t_up H Ht n nd E Hn) as (p' & pd & ck & Hp' & Ep & _ & Ech). simplify_eq.
  exists (s ++ units (key nd)), (v ++ value nd). eapply down_app; [done|]. by eapply down_child.
Qed.

Lemma down_no_cycle H n s v : tree H → is_Some (H !! n) → down H n s v n → s = [].
Proof.
  intros Ht Hn Hd. destruct (down_from_root H n Ht Hn) as (s0 & v0 & H0).
  pose proof (down_app _ _ _ _ _ _ _ _ H0 Hd) as H1. destruct (down_unique _ _ _ _ _ _ Ht Hn H0 H1) as [E _].
  rewrite <-(app_nil_r s0) in E at 1. by apply app_inv_head in E.
Qed.

Lemma down_leaf H x xd s v q : H !! x = Some xd → children xd = ∅ → down H x s v q → q = x ∧ s = [] ∧ v = [].
Proof. intros E Hc Hd. destruct Hd as [|x nd ck c cd s v m E' Ec]; [done|]. simplify_eq. by rewrite Hc, lookup_empty in Ec. Qed.
End Tree.

(** ** What a radix tree holds

    The content of the tree as a partial map from strings of units to their KV indices:
    the prefixes, of whole pages, of the paths from the root. It is functional, and the
    child a lookup follows decides what is held below a node. *)

Section Content.
Context (ps : nat) (bg : bool) (r : nat).
Implicit Types (H : gmap nat TreeNode) (n p c : nat) (nd pd cd : TreeNode) (s : list unit_of) (v : list Z).
Local Abbreviation tree := (tree ps bg r).

(** Below [n], the units [s] are held with the indices [v]. *)
Definition holds H n s v : Prop :=
  ∃ s' v' m, down H n (s ++ s') v' m ∧ v = take (length s) v' ∧ Nat.divide ps (length s).

Lemma holds_nil H n : holds H n [] [].
Proof. exists [], [], n. split; [constructor|]. split; [done|]. apply Nat.divide_0_r. Qed.

Lemma holds_down H n s v m : tree H → down H n s v m → holds H n s v.
Proof.
  intros Ht Hd. exists [], v, m. rewrite app_nil_r. split_and!; [done| |by eapply down_aligned].
  by rewrite (down_length ps bg r H n s v m), firstn_all.
Qed.

Lemma holds_length H n s v : tree H → holds H n s v → length v = length s.
Proof.
  intros Ht (s' & v' & m & Hd & -> & _). pose proof (down_length ps bg r _ _ _ _ _ Ht Hd) as Hl. rewrite length_app in Hl.
  rewrite length_take. lia.
Qed.

(** Prefixes of whole pages are held too. *)
Lemma holds_prefix H n s s' v :
  holds H n (s ++ s') v → Nat.divide ps (length s) → holds H n s (take (length s) v).
Proof.
  intros (x & v' & m & Hd & -> & _) Ha. rewrite take_take, Nat.min_l by (rewrite length_app; lia).
  exists (s' ++ x), v', m. by rewrite (assoc_L (++)).
Qed.

Lemma holds_app H n s0 v0 m s v : tree H → down H n s0 v0 m → holds H m s v → holds H n (s0 ++ s) (v0 ++ v).
Proof.
  intros Ht Hd (s' & v' & q & Hd' & -> & Ha). exists s', (v0 ++ v'), q. split_and!.
  - rewrite <-(assoc_L (++)). by eapply down_app.
  - rewrite length_app, (down_length ps bg r H n s0 v0 m) by done. by rewrite take_app_add.
  - rewrite length_app. apply Nat.divide_add_r; [by eapply down_aligned|done].
Qed.

Lemma holds_inv H n s0 v0 m s v :
  (0 < ps)%nat → tree H → down H n s0 v0 m → holds H n (s0 ++ s) v → ∃ v1, v = v0 ++ v1 ∧ holds H m s v1.
Proof.
  intros Hps Ht Hd (s' & v' & q & Hd' & -> & Ha). rewrite <-(assoc_L (++)) in Hd'.
  destruct (down_inv ps bg r _ _ _ _ _ _ _ _ Hps Ht Hd Hd') as (v3 & Hd3 & ->).
  exists (take (length s) v3). split.
  - rewrite length_app, (down_length ps bg r H n s0 v0 m) by done. by rewrite take_app_add.
  - exists s', v3, q. split_and!; [done..|]. rewrite length_app in Ha.
    apply (Nat.divide_add_cancel_r _ (length s0)); [by eapply down_aligned|done].
Qed.

(** The first child on the way. *)
Lemma holds_child H n s v :
  (0 < ps)%nat → tree H → s ≠ [] → holds H n s v →
  ∃ nd ck c cd, H !! n = Some nd ∧ children nd !! ck = Some c ∧ H !! c = Some cd ∧
    take ps s = take ps (units (key cd)) ∧
    ((length s ≤ key_len (key cd))%nat ∧ s = take (length s) (units (key cd)) ∧ v = take (length s) (value cd) ∨
     ∃ s2 v2, s = units (key cd) ++ s2 ∧ v = value cd ++ v2 ∧ holds H c s2 v2).
Proof.
  intros Hps Ht Hs (s' & v' & m & Hd & -> & Ha). remember (s ++ s') as u eqn:Hu.
  destruct Hd as [n|n nd ck c cd s1 v1 m E Ec Ecd Hd].
  { by symmetry in Hu; apply app_nil in Hu as [? _]. }
  destruct (child_facts ps bg r _ _ _ _ _ _ Ht E Ec Ecd) as (_ & _ & _ & Hg).
  assert (ps ≤ length s)%nat as Hl.
  { destruct s; [done|]. pose proof (divide_lt ps 0 _ Hps (Nat.divide_0_r ps) Ha). simpl in *. lia. }
  exists nd, ck, c, cd. split_and!; try done.
  { apply (f_equal (take ps)) in Hu. rewrite (take_page ps bg), take_app_le in Hu by done. done. }
  pose proof (segment_units ps bg _ Hg) as Hlen. rewrite length_units in Hlen.
  destruct (Nat.le_gt_cases (length s) (key_len (key cd))) as [Hle|Hgt].
  - left. split; [done|]. split.
    + apply (f_equal (take (length s))) in Hu. rewrite !take_app_le, firstn_all in Hu; [done|lia|by rewrite length_units].
    + by rewrite take_app_le by lia.
  - right. assert (∃ s2, s = units (key cd) ++ s2) as [s2 ->].
    { exists (drop (key_len (key cd)) s). rewrite <-(take_drop (key_len (key cd)) s) at 1. f_equal.
      apply (f_equal (take (key_len (key cd)))) in Hu. rewrite take_app_le in Hu by (rewrite length_units; lia).
      rewrite take_app_le in Hu by lia. rewrite <-Hu. rewrite <-length_units. by rewrite firstn_all. }
    rewrite <-(assoc_L (++)) in Hu. apply app_inv_head in Hu as ->.
    exists s2, (take (length s2) v1). rewrite length_app, length_units, Hlen, take_app_add. split_and!; try done.
    exists s', v1, m. split_and!; [done..|]. rewrite length_app, length_units in Ha.
    apply (Nat.divide_add_cancel_r _ (key_len (key cd))); [apply Hg|done].
Qed.

(** The content is a function. *)
Lemma holds_det H n s v1 v2 : (0 < ps)%nat → tree H → holds H n s v1 → holds H n s v2 → v1 = v2.
Proof.
  intros Hps Ht. remember (length s) as k eqn:Hk. revert n s v1 v2 Hk.
  induction (lt_wf k) as [k _ IH]. intros n s v1 v2 Hk H1 H2.
  destruct (decide (s = [])) as [->|Hs].
  { destruct H1 as (? & ? & ? & _ & -> & _), H2 as (? & ? & ? & _ & -> & _). done. }
  destruct (holds_child _ _ _ _ Hps Ht Hs H1) as (nd & ck1 & c1 & cd1 & E & Ec1 & Ecd1 & Hu1 & C1).
  destruct (holds_child _ _ _ _ Hps Ht Hs H2) as (nd' & ck2 & c2 & cd2 & E' & Ec2 & Ecd2 & Hu2 & C2).
  rewrite E in E'. injection E' as <-.
  assert (c1 = c2) as <- by (apply (same_child ps bg r H n nd ck1 c1 cd1 ck2 c2 cd2); congruence).
  rewrite Ecd1 in Ecd2. injection Ecd2 as <-.
  destruct (child_facts ps bg r _ _ _ _ _ _ Ht E Ec1 Ecd1) as (_ & _ & _ & Hg).
  assert (Hsplit : ∀ s2 v2' v', s = units (key cd1) ++ s2 → v' = value cd1 ++ v2' → holds H c1 s2 v2' →
    (length s ≤ key_len (key cd1))%nat → v' = take (length s) (value cd1)).
  { intros s2 v2' v' -> -> (? & ? & ? & _ & -> & _) Hle. rewrite length_app, length_units in *.
    destruct s2; [|simpl in Hle; lia]. destruct Hg as (_ & _ & _ & Hlv). rewrite app_nil_r, Nat.add_0_r, <-Hlv. by rewrite firstn_all. }
  destruct C1 as [(Hl1 & _ & Hv1)|(s1' & v1' & Es1 & Ev1 & Hh1)], C2 as [(Hl2 & _ & Hv2)|(s2' & v2' & Es2 & Ev2 & Hh2)].
  - congruence.
  - rewrite Hv1. symmetry. by eapply Hsplit.
  - rewrite Hv2. by eapply Hsplit.
  - rewrite Es1 in Es2. apply app_inv_head in Es2 as <-. rewrite Ev1, Ev2. f_equal.
    apply (IH (length s1')) with (n := c1) (s := s1'); try done.
    rewrite Hk, Es1, length_app, length_units. destruct Hg as (_ & _ & ? & _). lia.
Qed.

(** ** Where a lookup stops *)

Section Stop.
Context (H : gmap nat TreeNode) (n : nat) (nd : TreeNode) (k : RadixKey) (ck : ChildKey).
Hypotheses (Hps : (0 < ps)%nat) (Ht : tree H) (E : H !! n = Some nd)
  (Hk : child_key ps k = Ok ck) (Hpos : (0 < key_len k)%nat) (Hal : aligned ps k).

Lemma key_page : (ps ≤ key_len k)%nat.
Proof. pose proof (divide_lt ps 0 _ Hps (Nat.divide_0_r ps) Hal Hpos). lia. Qed.

(** A child whose first page is that of the key is the child under the key's child key. *)
Lemma page_child c cd ck' :
  children nd !! ck' = Some c → H !! c = Some cd → take ps (units (key cd)) = take ps (units k) →
  children nd !! ck = Some c.
Proof.
  intros Ec Ecd Hu. destruct (child_facts ps bg r _ _ _ _ _ _ Ht E Ec Ecd) as (_ & _ & Hkc & Hg).
  apply (child_key_units ps (key cd) k ck' Hps) in Hu; [|by eapply segment_page|apply key_page|done]. congruence.
Qed.

Lemma holds_prefix_child s v :
  s `prefix_of` units k → s ≠ [] → holds H n s v →
  ∃ c cd, children nd !! ck = Some c ∧ H !! c = Some cd ∧
    ((length s ≤ key_len (key cd))%nat ∧ s = take (length s) (units (key cd)) ∧ v = take (length s) (value cd) ∨
     ∃ s2 v2, s = units (key cd) ++ s2 ∧ v = value cd ++ v2 ∧ holds H c s2 v2).
Proof.
  intros Hp Hs Hh. destruct (holds_child _ _ _ _ Hps Ht Hs Hh) as (nd' & ck' & c & cd & E' & Ec & Ecd & Hu & HC).
  rewrite E in E'. injection E' as <-. exists c, cd. split_and!; [|done..].
  apply (page_child c cd ck'); [done..|]. rewrite <-Hu. destruct Hp as [x ->]. symmetry. apply take_app_le.
  destruct Hh as (_ & _ & _ & _ & _ & Ha). destruct s as [|u s]; [done|].
  pose proof (divide_lt ps 0 _ Hps (Nat.divide_0_r ps) Ha). simpl in *. lia.
Qed.

Lemma no_child_nothing s v : children nd !! ck = None → s `prefix_of` units k → holds H n s v → s = [].
Proof.
  intros Hn Hp Hh. destruct (decide (s = [])) as [|Hs]; [done|].
  destruct (holds_prefix_child s v Hp Hs Hh) as (c & cd & Ec & _). congruence.
Qed.

Lemma child_limit c cd s v :
  children nd !! ck = Some c → H !! c = Some cd →
  (round_down ps (common_len (units (key cd)) (units k)) < key_len (key cd))%nat →
  s `prefix_of` units k → holds H n s v →
  (length s ≤ round_down ps (common_len (units (key cd)) (units k)))%nat.
Proof.
  intros Ec Ecd Hlt Hp Hh. destruct (decide (s = [])) as [->|Hs]; [simpl; lia|].
  destruct (holds_prefix_child s v Hp Hs Hh) as (c' & cd' & Ec' & Ecd' & HC).
  rewrite Ec in Ec'. injection Ec' as <-. rewrite Ecd in Ecd'. injection Ecd' as <-.
  destruct (child_facts ps bg r _ _ _ _ _ _ Ht E Ec Ecd) as (_ & _ & _ & Hg).
  destruct HC as [(Hl & Es & _)|(s2 & v2 & -> & _)].
  - destruct Hh as (_ & _ & _ & _ & _ & Ha). apply round_down_ge; [done..|].
    pose proof (prefix_length _ _ Hp) as Hlk.
    apply common_len_max; [by rewrite length_units|done|]. rewrite <-Es. destruct Hp as [x ->].
    by rewrite take_app_length.
  - exfalso. destruct Hg as (_ & Ha & _ & _). pose proof (prefix_length _ _ Hp) as Hlk. rewrite length_app in Hlk.
    assert (length (units (key cd)) ≤ round_down ps (common_len (units (key cd)) (units k)))%nat as Hle.
    { apply round_down_ge; [done|by rewrite length_units|]. apply common_len_max; [done|lia|].
      destruct Hp as [x ->]. rewrite <-(assoc_L (++)), take_app_length. apply firstn_all. }
    rewrite length_units in Hle. lia.
Qed.

(** The units a key shares with the child it leads to: at least a page. *)
Lemma child_match c cd :
  children nd !! ck = Some c → H !! c = Some cd → is_bigram k = bg →
  key_match (key cd) k ps = Ok (round_down ps (common_len (units (key cd)) (units k))) ∧
  (ps ≤ round_down ps (common_len (units (key cd)) (units k)))%nat ∧
  (round_down ps (common_len (units (key cd)) (units k)) ≤ key_len (key cd))%nat ∧
  (round_down ps (common_len (units (key cd)) (units k)) ≤ key_len k)%nat.
Proof.
  intros Ec Ecd Hb. destruct (child_facts ps bg r _ _ _ _ _ _ Ht E Ec Ecd) as (_ & _ & Hkc & Hg).
  pose proof (segment_page ps bg _ Hps Hg) as Hpg. pose proof Hg as (Hb' & Ha & _ & _).
  pose proof (common_len_le (units (key cd)) (units k)) as [L1 L2]. rewrite !length_units in L1, L2.
  pose proof (round_down_le ps (common_len (units (key cd)) (units k))). split_and!; try lia.
  - apply key_match_spec; [done..|congruence|]. rewrite (child_key_Ok ps) in Hkc, Hk by (done || apply key_page). congruence.
  - apply round_down_ge; [done|apply Nat.divide_refl|]. apply common_len_max; rewrite ?length_units; [done|apply key_page|].
    by apply (child_key_units ps (key cd) k ck Hps Hpg key_page Hkc).
Qed.
End Stop.
End Content.
