(* ===== verification/RadixSplit.v ===== *)
(** * Splitting, adding and deleting nodes of the radix tree

    [_split_node] puts a new node between a child and its parent: the new node gets the
    first part of the child's segment, the child keeps the rest. The result is a tree that
    holds exactly what the tree held before. *)

From S2P Require Import Prelude RadixKey RadixCache RadixFacts.
Local Open Scope Z_scope.


Section Split.
Context (ps : nat) (bg : bool) (r : nat).
Context (H : gmap nat TreeNode) (c p new : nat) (cd pd : TreeNode) (ck ck_low : ChildKey) (n : nat) (prio t1 t2 : Z).
Local Abbreviation tree := (tree ps bg r).
Local Abbreviation up := (upper_part cd ck_low c n prio t1 t2).
Local Abbreviation low := (lower_part new n cd).

Definition split_store : gmap nat TreeNode :=
  alter (set_children (<[ck := new]>)) p (alter (lower_part new n) c (<[new := up]> H)).
Local Abbreviation H' := split_store.

(** The new node follows the child in every chain. *)
Definition split_chain (l : list nat) : list nat := l ≫= λ m, if decide (m = c) then [c; new] else [m].

Lemma split_chain_member l m : m ∈ split_chain l ↔ m ∈ l ∨ (m = new ∧ c ∈ l).
Proof.
  unfold split_chain. rewrite list_elem_of_bind. split.
  - intros (x & Hx & Hl). case_decide; set_solver.
  - intros [Hm|[-> Hc]].
    + exists m. split; [|done]. case_decide; set_solver.
    + exists c. split; [|done]. rewrite decide_True by done. set_solver.
Qed.

Hypotheses (Hps : (0 < ps)%nat) (Ht : tree H) (Ec : H !! c = Some cd) (Hcr : c ≠ r) (Hp : parent cd = Some p)
  (Ep : H !! p = Some pd) (Hch : children pd !! ck = Some c) (Hck : child_key ps (key cd) = Ok ck)
  (Hn : (0 < n < key_len (key cd))%nat) (Hdiv : Nat.divide ps n) (Hnew : H !! new = None)
  (Hlow : child_key ps (key_drop n (key cd)) = Ok ck_low).

Lemma split_new_ne : new ≠ c ∧ new ≠ p ∧ new ≠ r.
Proof. split_and!; intros ->; try congruence. destruct (t_root _ _ _ _ Ht) as (? & ? & _). congruence. Qed.

Lemma split_p_ne : p ≠ c.
Proof. destruct (t_chain _ _ _ _ Ht p pd Ep) as [l Hl]. by eapply (parent_ne r H c cd p l). Qed.

Lemma split_at_new : H' !! new = Some up.
Proof.
  destruct split_new_ne as (? & ? & _). unfold split_store. by rewrite !lookup_alter_ne, lookup_insert_eq by done.
Qed.
Lemma split_at_c : H' !! c = Some low.
Proof.
  destruct split_new_ne as (? & ? & _). pose proof split_p_ne. unfold split_store.
  rewrite lookup_alter_ne, lookup_alter_eq, lookup_insert_ne, Ec by done. done.
Qed.
Lemma split_at_p : H' !! p = Some (set_children (<[ck := new]>) pd).
Proof.
  destruct split_new_ne as (? & ? & _). pose proof split_p_ne. unfold split_store.
  rewrite lookup_alter_eq, lookup_alter_ne, lookup_insert_ne, Ep by done. done.
Qed.
Lemma split_at_other m : m ≠ new → m ≠ c → m ≠ p → H' !! m = H !! m.
Proof. intros ???. unfold split_store. by rewrite !lookup_alter_ne, lookup_insert_ne by done. Qed.

(** A node of the new store is the new node, the child, or an old node with its old parent
    and segment; its children are the old ones but for the one slot of the parent. *)
Lemma split_old m md : H !! m = Some md → m ≠ c →
  ∃ md', H' !! m = Some md' ∧ parent md' = parent md ∧ key md' = key md ∧ value md' = value md ∧ lock_ref md' = lock_ref md ∧
    (m ≠ p → md' = md).
Proof.
  intros E Hm. assert (m ≠ new) by congruence. destruct (decide (m = p)) as [->|Hmp].
  - exists (set_children (<[ck := new]>) pd). rewrite split_at_p. by simplify_eq.
  - exists md. by rewrite split_at_other.
Qed.

Lemma split_cases m md' : H' !! m = Some md' →
  (m = new ∧ md' = up) ∨ (m = c ∧ md' = low) ∨
  (m ≠ new ∧ m ≠ c ∧ ∃ md, H !! m = Some md ∧ parent md' = parent md ∧ key md' = key md ∧ value md' = value md ∧
    lock_ref md' = lock_ref md ∧ (m ≠ p → md' = md)).
Proof.
  intros E'. destruct (decide (m = new)) as [->|Hm]; [left; by rewrite split_at_new in E'; simplify_eq|].
  destruct (decide (m = c)) as [->|Hmc]; [right; left; by rewrite split_at_c in E'; simplify_eq|]. right; right.
  split_and!; [done..|]. destruct (H !! m) as [md|] eqn:E.
  - destruct (split_old m md E Hmc) as (md1 & E1 & Hs). exists md. split; [done|]. congruence.
  - exfalso. assert (m ≠ p) by congruence. rewrite split_at_other in E' by done. congruence.
Qed.

Lemma split_page : (ps ≤ n)%nat ∧ (ps ≤ key_len (key cd) - n)%nat.
Proof.
  destruct (t_segment _ _ _ _ Ht c cd Ec Hcr) as (_ & Ha & _).
  pose proof (divide_lt ps 0 n Hps (Nat.divide_0_r ps) Hdiv). pose proof (divide_lt ps n _ Hps Hdiv Ha). lia.
Qed.

Lemma split_up_key : child_key ps (key up) = Ok ck.
Proof.
  pose proof split_page as [P1 P2]. simpl.
  apply (child_key_units ps (key cd)); [done|lia|rewrite key_len_take by lia; lia|done|].
  rewrite units_take by lia. by rewrite take_take, Nat.min_l by lia.
Qed.

Lemma split_segments : segment ps bg up ∧ segment ps bg low.
Proof.
  destruct (t_segment _ _ _ _ Ht c cd Ec Hcr) as (Hb & Ha & Hl & Hv). pose proof split_page as [P1 P2]. unfold segment. simpl.
  pose proof (key_slice_namespace (key cd) 0 n) as [_ B1].
  pose proof (key_slice_namespace (key cd) n (key_len (key cd))) as [_ B2].
  unfold aligned. rewrite key_len_take, key_len_drop by lia.
  unfold key_take, key_drop. rewrite B1, B2, length_take, length_drop, Hv. split_and!; try done; try lia.
  apply (Nat.divide_add_cancel_r _ n); [done|]. by replace (n + (key_len (key cd) - n))%nat with (key_len (key cd)) by lia.
Qed.

(** ** Chains *)

Lemma split_chain_ok m l : chain r H m l → chain r H' m (split_chain l).
Proof.
  induction 1 as [|m md q l Hm E Hq Hc IH]; [constructor|]. unfold split_chain. simpl. case_decide as Hmc.
  - subst m. simplify_eq. destruct split_new_ne as (? & ? & ?). simpl.
    eapply chain_up; [done|apply split_at_c|done|]. eapply chain_up; [done|apply split_at_new|done|apply IH].
  - simpl. destruct (split_old m md E Hmc) as (md' & E' & Hq' & _). eapply chain_up; [done|exact E'|by rewrite Hq'|apply IH].
Qed.

Lemma split_tree : tree H'.
Proof.
  destruct split_new_ne as (Nc & Np & Nr). pose proof split_p_ne as Hpc. destruct split_segments as [Su Sl].
  destruct Ht as [Hr Hu Hd Hg Hc]. split.
  - destruct Hr as (rd & E & H1 & H2). destruct (split_old r rd E) as (rd' & E' & H1' & _ & H2' & _); [done|].
    exists rd'. split_and!; congruence.
  - intros m md' E' Hm. destruct (split_cases m md' E') as [[-> ->]|[[-> ->]|(Hmn & Hmc & md & E & Hq & Hk & _)]].
    + exists p, (set_children (<[ck := new]>) pd), ck. split_and!; [done|apply split_at_p|apply split_up_key|].
      apply lookup_insert_eq.
    + exists new, up, ck_low. split_and!; [done|apply split_at_new|done|]. apply lookup_singleton_eq.
    + destruct (Hu m md E Hm) as (q & qd & ck' & H1 & H2 & H3 & H4). rewrite Hq, Hk.
      destruct (decide (q = c)) as [->|Hqc].
      { exists c, low, ck'. simplify_eq. split_and!; [done|apply split_at_c|done|done]. }
      destruct (decide (q = p)) as [->|Hqp].
      { simplify_eq. exists p, (set_children (<[ck := new]>) pd), ck'. split_and!; [done|apply split_at_p|done|]. simpl.
        rewrite lookup_insert_ne; [done|]. intros ->. congruence. }
      exists q, qd, ck'. split_and!; try done. rewrite split_at_other; congruence.
  - assert (Hold : ∀ q qd ck' m, H !! q = Some qd → children qd !! ck' = Some m → m ≠ c →
      m ≠ r ∧ ∃ md, H' !! m = Some md ∧ parent md = Some q ∧ child_key ps (key md) = Ok ck').
    { intros q qd ck' m Eq Hm Hmc. destruct (Hd q qd ck' m Eq Hm) as (Hmr & md & E & H1 & H2). split; [done|].
      destruct (split_old m md E Hmc) as (md' & E' & Hq & Hk & _). exists md'. split_and!; congruence. }
    intros q qd' ck' m E' Hm. destruct (split_cases q qd' E') as [[-> ->]|[[-> ->]|(Hqn & Hqc & qd & E & _ & _ & _ & _ & Hsame)]].
    + simpl in Hm. apply lookup_singleton_Some in Hm as [<- <-]. split; [done|]. exists low. split_and!; [apply split_at_c|done..].
    + simpl in Hm. eapply Hold; [exact Ec|exact Hm|]. intros ->. destruct (Hd _ _ _ _ Ec Hm) as (_ & ? & ? & ? & _). congruence.
    + destruct (decide (q = p)) as [->|Hqp].
      * rewrite split_at_p in E'. simplify_eq. simpl in Hm. apply lookup_insert_Some in Hm as [[<- <-]|[Hck' Hm]].
        -- split; [done|]. exists up. split_and!; [apply split_at_new|done|apply split_up_key].
        -- eapply Hold; [exact Ep|exact Hm|]. intros ->. destruct (Hd _ _ _ _ Ep Hm) as (_ & ? & ? & ? & ?). congruence.
      * rewrite (Hsame Hqp) in Hm. eapply Hold; [exact E|exact Hm|].
        intros ->. destruct (Hd _ _ _ _ E Hm) as (_ & ? & ? & ? & _). congruence.
  - intros m md' E' Hm. destruct (split_cases m md' E') as [[-> ->]|[[-> ->]|(_ & _ & md & E & _ & Hk & Hv & _)]]; [done..|].
    specialize (Hg m md E Hm). unfold segment in *. by rewrite Hk, Hv.
  - assert (Hnewc : ∃ l, chain r H' new l).
    { destruct (Hc p pd Ep) as [l Hl]. exists (new :: split_chain l). eapply chain_up; [done|apply split_at_new|done|].
      by apply split_chain_ok. }
    intros m md' E'. destruct (split_cases m md' E') as [[-> ->]|[[-> ->]|(_ & _ & md & E & _)]]; [done| |].
    + destruct (Hc c cd Ec) as [l Hl]. exists (split_chain l). by apply split_chain_ok.
    + destruct (Hc m md E) as [l Hl]. exists (split_chain l). by apply split_chain_ok.
Qed.

(** ** Content *)

Lemma split_units : units (key up) ++ units (key low) = units (key cd) ∧ value up ++ value low = value cd.
Proof. simpl. rewrite units_take, units_drop by lia. by rewrite !take_drop. Qed.

(** The child of the parent, in two steps. *)
Lemma split_two : down H' p (units (key cd)) (value cd) c.
Proof.
  destruct split_units as [<- <-]. eapply down_cons; [apply split_at_p|apply lookup_insert_eq|apply split_at_new|].
  eapply down_child; [apply split_at_new|apply lookup_singleton_eq|apply split_at_c].
Qed.

Lemma split_down m s v q : down H m s v q → down H' m s v q.
Proof.
  induction 1 as [|m md ck' x xd s v q E Ex Exd Hd IH]; [constructor|].
  destruct (child_facts ps bg r _ _ _ _ _ _ Ht E Ex Exd) as (_ & Hpx & Hkx & _).
  destruct (decide (x = c)) as [->|Hxc].
  { simplify_eq. by eapply down_app; [apply split_two|]. }
  destruct (split_old x xd Exd Hxc) as (xd' & Exd' & _ & Hk & Hv & _). rewrite <-Hk, <-Hv.
  destruct (decide (m = c)) as [->|Hmc].
  { simplify_eq. eapply down_cons; [apply split_at_c|exact Ex|exact Exd'|done]. }
  destruct (decide (m = p)) as [->|Hmp].
  { simplify_eq. eapply down_cons; [apply split_at_p| |exact Exd'|done]. simpl. rewrite lookup_insert_ne; [done|].
    intros <-. congruence. }
  eapply down_cons; [rewrite split_at_other; [exact E|congruence..]|exact Ex|exact Exd'|done].
Qed.

(** Every path of the new tree is a path of the old one, or ends in the new node. *)
Lemma split_back m s v q : down H' m s v q →
  if decide (m = new)
  then (q = new ∧ s = [] ∧ v = []) ∨
       ∃ s' v', s = units (key low) ++ s' ∧ v = value low ++ v' ∧ down H c s' v' q
  else down H m s v q ∨ (q = new ∧ down H m (s ++ units (key low)) (v ++ value low) c).
Proof.
  destruct split_new_ne as (Nc & Np & Nr).
  induction 1 as [m|m md ck' x xd s v q E Ex Exd Hd IH].
  { case_decide; left; [done|constructor]. }
  destruct (child_facts ps bg r _ _ _ _ _ _ split_tree E Ex Exd) as (_ & Hpx & Hkx & _).
  destruct (decide (m = new)) as [->|Hmn].
  - rewrite split_at_new in E. simplify_eq. simpl in Ex. apply lookup_singleton_Some in Ex as [<- <-].
    rewrite split_at_c in Exd. injection Exd as <-. rewrite decide_False in IH by done.
    right. destruct IH as [Hd1|[-> Hd1]]; [by exists s, v|].
    apply (down_no_cycle ps bg r) in Hd1; [|done|eauto]. apply app_nil in Hd1 as [_ Hd1].
    destruct split_segments as [_ (_ & _ & Hl & _)]. rewrite <-length_units, Hd1 in Hl. simpl in Hl. lia.
  - destruct (decide (x = new)) as [->|Hxn].
    + rewrite split_at_new in Exd. injection Exd as <-. simpl in Hpx. simplify_eq.
      assert (Hpc : down H p (units (key cd)) (value cd) c) by (by eapply down_child). destruct split_units as [Eu Ev].
      destruct IH as [(-> & -> & ->)|(s' & v' & -> & -> & Hd1)].
      * right. split; [done|]. rewrite !app_nil_r. by rewrite Eu, Ev.
      * left. rewrite !(assoc_L (++)), Eu, Ev. by eapply down_app.
    + assert (Hstep : down H m (units (key xd)) (value xd) x).
      { destruct (split_cases x xd Exd) as [[? _]|[[-> ->]|(_ & Hxc & xd0 & Exd0 & Hpx0 & Hk & Hv & _)]]; [done|by simpl in Hpx; congruence|].
        rewrite Hk, Hv. destruct (t_up _ _ _ _ Ht x xd0 Exd0) as (y & yd & cky & H1 & H2 & H3 & H4).
        { intros ->. destruct (t_down _ _ _ _ split_tree _ _ _ _ E Ex) as [? _]. done. }
        assert (y = m) as -> by congruence. by eapply down_child. }
      destruct IH as [Hd1|[-> Hd1]]; [left|right; split; [done|]; rewrite <-!(assoc_L (++))]; by eapply down_app.
Qed.

(** The tree holds what it held. *)
Lemma split_holds m s v : m ≠ new → holds ps H' m s v ↔ holds ps H m s v.
Proof.
  intros Hm. split; intros (s' & v' & q & Hd & -> & Ha).
  - apply split_back in Hd. rewrite decide_False in Hd by done. destruct Hd as [Hd|[_ Hd]]; [by exists s', v', q|].
    pose proof (down_length ps bg r _ _ _ _ _ Ht Hd) as Hl. rewrite !length_app in Hl.
    destruct split_segments as [_ Hg]. apply segment_units in Hg.
    exists (s' ++ units (key low)), (v' ++ value low), c. rewrite (assoc_L (++)). split_and!; [done| |done].
    rewrite take_app_le; [done|lia].
  - exists s', v', q. split_and!; [by apply split_down|done..].
Qed.

Lemma split_path : down H' p (take n (units (key cd))) (take n (value cd)) new.
Proof.
  pose proof (down_child H' p _ ck new up split_at_p (lookup_insert_eq _ _ _) split_at_new) as Hd. simpl in Hd.
  by rewrite units_take in Hd by lia.
Qed.
End Split.

(** ** Leaves of the radix tree

    Hanging a new leaf below a node, as insertion does, and taking a leaf away, as eviction
    does: the first adds the prefixes of the leaf's path to what the tree holds; the second
    undoes it. *)

Section Add.
Context (ps : nat) (bg : bool) (r : nat).
Context (H : gmap nat TreeNode) (p new : nat) (pd ld : TreeNode) (ck : ChildKey).
Local Abbreviation tree := (tree ps bg r).

Definition add_store : gmap nat TreeNode := alter (set_children (<[ck := new]>)) p (<[new := ld]> H).
Local Abbreviation H' := add_store.

Hypotheses (Hps : (0 < ps)%nat) (Ht : tree H) (Ep : H !! p = Some pd) (Hnew : H !! new = None)
  (Hfree : children pd !! ck = None) (Hck : child_key ps (key ld) = Ok ck)
  (Hlp : parent ld = Some p) (Hlc : children ld = ∅) (Hseg : segment ps bg ld).

Lemma add_new_ne : new ≠ p ∧ new ≠ r.
Proof. split; intros ->; [congruence|]. destruct (t_root _ _ _ _ Ht) as (? & ? & _). congruence. Qed.

Lemma add_at_new : H' !! new = Some ld.
Proof. destruct add_new_ne. unfold add_store. by rewrite lookup_alter_ne, lookup_insert_eq. Qed.
Lemma add_at_p : H' !! p = Some (set_children (<[ck := new]>) pd).
Proof. destruct add_new_ne. unfold add_store. by rewrite lookup_alter_eq, lookup_insert_ne, Ep. Qed.
Lemma add_at_other m : m ≠ new → m ≠ p → H' !! m = H !! m.
Proof. intros ??. unfold add_store. by rewrite lookup_alter_ne, lookup_insert_ne. Qed.

Lemma add_old m md : H !! m = Some md →
  ∃ md', H' !! m = Some md' ∧ parent md' = parent md ∧ key md' = key md ∧ value md' = value md ∧ lock_ref md' = lock_ref md ∧
    (∀ c k, children md !! k = Some c → children md' !! k = Some c) ∧ (m ≠ p → md' = md).
Proof.
  intros E. assert (m ≠ new) by congruence. destruct (decide (m = p)) as [->|Hmp].
  - exists (set_children (<[ck := new]>) pd). rewrite add_at_p. simplify_eq. split_and!; try done.
    intros c k Hk. simpl. rewrite lookup_insert_ne; congruence.
  - exists md. by rewrite add_at_other.
Qed.

Lemma add_cases m md' : H' !! m = Some md' →
  (m = new ∧ md' = ld) ∨
  (m ≠ new ∧ ∃ md, H !! m = Some md ∧ parent md' = parent md ∧ key md' = key md ∧ value md' = value md ∧
    lock_ref md' = lock_ref md ∧
    (∀ c k, children md' !! k = Some c → (m = p ∧ k = ck ∧ c = new) ∨ children md !! k = Some c) ∧ (m ≠ p → md' = md)).
Proof.
  intros E'. destruct (decide (m = new)) as [->|Hm]; [left; by rewrite add_at_new in E'; simplify_eq|]. right.
  split; [done|]. destruct (decide (m = p)) as [->|Hmp].
  - rewrite add_at_p in E'. simplify_eq. exists pd. split_and!; try done. simpl.
    intros c k [[<- <-]|[_ Hk]]%lookup_insert_Some; auto.
  - rewrite add_at_other in E' by done. exists md'. split_and!; auto.
Qed.

Lemma add_chain m l : chain r H m l → chain r H' m l.
Proof.
  induction 1 as [|m md q l Hm E Hq Hc IH]; [constructor|]. destruct (add_old m md E) as (md' & E' & Hq' & _).
  eapply chain_up; [done|exact E'|by rewrite Hq'|done].
Qed.

Lemma add_tree : tree H'.
Proof.
  destruct add_new_ne as [Np Nr]. destruct Ht as [Hr Hu Hd Hg Hc]. split.
  - destruct Hr as (rd & E & H1 & H2). destruct (add_old r rd E) as (rd' & E' & H1' & _ & H2' & _).
    exists rd'. split_and!; congruence.
  - intros m md' E' Hm. destruct (add_cases m md' E') as [[-> ->]|(Hmn & md & E & Hq & Hk & _)].
    + exists p, (set_children (<[ck := new]>) pd), ck. split_and!; [done|apply add_at_p|done|apply lookup_insert_eq].
    + destruct (Hu m md E Hm) as (q & qd & ck' & H1 & H2 & H3 & H4).
      destruct (add_old q qd H2) as (qd' & E2 & _ & _ & _ & _ & Hkeep & _).
      exists q, qd', ck'. split_and!; [congruence|done|congruence|auto].
  - intros q qd' ck' m E' Hm. destruct (add_cases q qd' E') as [[-> ->]|(Hqn & qd & E & _ & _ & _ & _ & Hkids & _)].
    { rewrite Hlc, lookup_empty in Hm. done. }
    destruct (Hkids m ck' Hm) as [(-> & -> & ->)|Hm0].
    + split; [done|]. exists ld. by rewrite add_at_new.
    + destruct (Hd q qd ck' m E Hm0) as (Hmr & md & E0 & H1 & H2). split; [done|].
      destruct (add_old m md E0) as (md' & Em' & Hq & Hk & _). exists md'. split_and!; congruence.
  - intros m md' E' Hm. destruct (add_cases m md' E') as [[-> ->]|(_ & md & E & _ & Hk & Hv & _)]; [done|].
    specialize (Hg m md E Hm). unfold segment in *. by rewrite Hk, Hv.
  - intros m md' E'. destruct (add_cases m md' E') as [[-> ->]|(_ & md & E & _)].
    + destruct (Hc p pd Ep) as [l Hl]. exists (new :: l). eapply chain_up; [done|apply add_at_new|done|by apply add_chain].
    + destruct (Hc m md E) as [l Hl]. exists l. by apply add_chain.
Qed.

Lemma add_down m s v q : down H m s v q → down H' m s v q.
Proof.
  induction 1 as [|m md ck' x xd s v q E Ex Exd Hd IH]; [constructor|].
  destruct (add_old m md E) as (md' & E' & _ & _ & _ & _ & Hkeep & _). destruct (add_old x xd Exd) as (xd' & Exd' & _ & Hk & Hv & _).
  rewrite <-Hk, <-Hv. eapply down_cons; eauto.
Qed.

Lemma add_down_new : down H' p (units (key ld)) (value ld) new.
Proof. eapply down_child; [apply add_at_p|apply lookup_insert_eq|apply add_at_new]. Qed.

Lemma add_back m s v q : m ≠ new → down H' m s v q →
  down H m s v q ∨ ∃ s' v', q = new ∧ s = s' ++ units (key ld) ∧ v = v' ++ value ld ∧ down H m s' v' p.
Proof.
  intros Hm Hd. revert Hm. induction Hd as [m|m md' ck' x xd' s v q E' Ex Exd' Hd IH]; intros Hm; [left; constructor|].
  destruct (add_cases m md' E') as [[? _]|(_ & md & E & _ & _ & _ & _ & Hkids & _)]; [done|].
  destruct (Hkids x ck' Ex) as [(-> & -> & ->)|Ex0].
  - rewrite add_at_new in Exd'. injection Exd' as <-. right. clear IH.
    destruct (down_leaf H' new ld s v q add_at_new Hlc Hd) as (-> & -> & ->).
    exists [], []. rewrite !app_nil_r. split_and!; [done..|constructor].
  - destruct (t_down _ _ _ _ Ht _ _ _ _ E Ex0) as (_ & xd & Exd & _).
    destruct (add_old x xd Exd) as (xd1 & Exd1 & _ & Hk & Hv & _). rewrite Exd1 in Exd'. injection Exd' as <-. rewrite Hk, Hv.
    destruct IH as [Hd0|(s' & v' & -> & -> & -> & Hd0)]; [congruence|left; by eapply down_cons|]. right.
    exists (units (key xd) ++ s'), (value xd ++ v'). rewrite !(assoc_L (++)). split_and!; [done..|]. by eapply down_cons.
Qed.

(** The prefixes of the leaf's path are added. *)
Lemma add_holds s0 v0 s v :
  down H r s0 v0 p →
  holds ps H' r s v ↔ holds ps H r s v ∨
    s `prefix_of` s0 ++ units (key ld) ∧ v = take (length s) (v0 ++ value ld) ∧ Nat.divide ps (length s).
Proof.
  intros H0. destruct add_new_ne as [Np Nr]. split.
  - intros (s' & v' & q & Hd & -> & Ha). apply add_back in Hd; [|done].
    destruct Hd as [Hd|(s1 & v1 & -> & Es & -> & Hd)]; [left; by exists s', v', q|]. right.
    destruct (down_unique ps bg r H s0 v0 s1 v1 p Ht) as [<- <-]; [eauto|done..|]. split_and!; [|done..]. by exists s'.
  - intros [(s' & v' & q & Hd & -> & Ha)|([s' Es] & -> & Ha)].
    + exists s', v', q. split_and!; [by apply add_down|done..].
    + exists s', (v0 ++ value ld), new. rewrite <-Es. split_and!; [|done..]. eapply down_app; [by apply add_down|apply add_down_new].
Qed.
End Add.

Section Delete.
Context (ps : nat) (bg : bool) (r : nat).
Context (H : gmap nat TreeNode) (p x : nat) (pd xd : TreeNode) (ck : ChildKey).
Local Abbreviation tree := (tree ps bg r).

Definition del_store : gmap nat TreeNode := delete x (alter (set_children (delete ck)) p H).
Local Abbreviation H' := del_store.

Hypotheses (Hps : (0 < ps)%nat) (Ht : tree H) (Ep : H !! p = Some pd) (Ex : H !! x = Some xd) (Hxr : x ≠ r)
  (Hxp : parent xd = Some p) (Hck : child_key ps (key xd) = Ok ck) (Hxc : children xd = ∅).

Lemma del_child : children pd !! ck = Some x.
Proof. destruct (t_up _ _ _ _ Ht x xd Ex Hxr) as (q & qd & ck' & H1 & H2 & H3 & H4). congruence. Qed.

Lemma del_p_ne : p ≠ x.
Proof. destruct (t_chain _ _ _ _ Ht p pd Ep) as [l Hl]. by eapply (parent_ne r H x xd p l). Qed.

Lemma del_at_x : H' !! x = None.
Proof. apply lookup_delete_eq. Qed.
Lemma del_at_p : H' !! p = Some (set_children (delete ck) pd).
Proof. pose proof del_p_ne. unfold del_store. by rewrite lookup_delete_ne, lookup_alter_eq, Ep. Qed.
Lemma del_at_other m : m ≠ x → m ≠ p → H' !! m = H !! m.
Proof. intros ??. unfold del_store. by rewrite lookup_delete_ne, lookup_alter_ne. Qed.

Lemma del_old m md : H !! m = Some md → m ≠ x →
  ∃ md', H' !! m = Some md' ∧ parent md' = parent md ∧ key md' = key md ∧ value md' = value md ∧ lock_ref md' = lock_ref md ∧
    (∀ c k, children md !! k = Some c → c ≠ x → children md' !! k = Some c) ∧ (m ≠ p → md' = md).
Proof.
  intros E Hm. destruct (decide (m = p)) as [->|Hmp].
  - exists (set_children (delete ck) pd). rewrite del_at_p. simplify_eq. split_and!; try done.
    intros c k Hk Hc. simpl. rewrite lookup_delete_ne; [done|]. intros <-. rewrite del_child in Hk. congruence.
  - exists md. by rewrite del_at_other.
Qed.

Lemma del_cases m md' : H' !! m = Some md' →
  m ≠ x ∧ ∃ md, H !! m = Some md ∧ parent md' = parent md ∧ key md' = key md ∧ value md' = value md ∧
    lock_ref md' = lock_ref md ∧ (∀ c k, children md' !! k = Some c → children md !! k = Some c) ∧ (m ≠ p → md' = md).
Proof.
  intros E'. assert (m ≠ x) as Hm by (intros ->; by rewrite del_at_x in E'). split; [done|].
  destruct (decide (m = p)) as [->|Hmp].
  - rewrite del_at_p in E'. simplify_eq. exists pd. split_and!; try done. simpl. by intros c k [_ Hk]%lookup_delete_Some.
  - rewrite del_at_other in E' by done. by exists md'.
Qed.

(** No chain but the leaf's own runs through the leaf. *)
Lemma del_chain m l : chain r H m l → m ≠ x → chain r H' m l ∧ x ∉ l.
Proof.
  induction 1 as [|m md q l Hm E Hq Hc IH]; intros Hmx; [split; [constructor|set_solver]|].
  destruct (del_old m md E Hmx) as (md' & E' & Hq' & _).
  destruct IH as [IH Hx].
  { intros ->. destruct (t_up _ _ _ _ Ht m md E Hm) as (q & qd & ck' & H1 & H2 & _ & H4). simplify_eq.
    by rewrite Hxc, lookup_empty in H4. }
  split; [|set_solver]. eapply chain_up; [done|exact E'|by rewrite Hq'|done].
Qed.

Lemma del_tree : tree H'.
Proof.
  pose proof del_p_ne as Hpx. pose proof Ht as [Hr Hu Hd Hg Hc]. split.
  - destruct Hr as (rd & E & H1 & H2). destruct (del_old r rd E) as (rd' & E' & H1' & _ & H2' & _); [done|].
    exists rd'. split_and!; congruence.
  - intros m md' E' Hm. destruct (del_cases m md' E') as (Hmx & md & E & Hq & Hk & _).
    destruct (Hu m md E Hm) as (q & qd & ck' & H1 & H2 & H3 & H4).
    assert (q ≠ x) as Hqx by (intros ->; simplify_eq; by rewrite Hxc, lookup_empty in H4).
    destruct (del_old q qd H2 Hqx) as (qd' & E2 & _ & _ & _ & _ & Hkeep & _).
    exists q, qd', ck'. split_and!; [congruence|done|congruence|auto].
  - intros q qd' ck' m E' Hm. destruct (del_cases q qd' E') as (Hqx & qd & E & _ & _ & _ & _ & Hkids & Hsame).
    destruct (Hd q qd ck' m E (Hkids _ _ Hm)) as (Hmr & md & E0 & H1 & H2). split; [done|].
    assert (m ≠ x) as Hmx.
    { intros ->. assert (md = xd) as -> by congruence. assert (ck' = ck) as -> by congruence.
      assert (q = p) as -> by congruence. rewrite del_at_p in E'. injection E' as <-. simpl in Hm.
      by rewrite lookup_delete_eq in Hm. }
    destruct (del_old m md E0 Hmx) as (md' & Em' & Hq & Hk & _). exists md'. split_and!; congruence.
  - intros m md' E' Hm. destruct (del_cases m md' E') as (_ & md & E & _ & Hk & Hv & _).
    specialize (Hg m md E Hm). unfold segment in *. by rewrite Hk, Hv.
  - intros m md' E'. destruct (del_cases m md' E') as (Hmx & md & E & _).
    destruct (Hc m md E) as [l Hl]. exists l. by apply del_chain.
Qed.

(** Hanging the leaf back gives the old tree. *)
Lemma del_add : add_store H' p x xd ck = H.
Proof.
  apply map_eq. intros m. pose proof del_p_ne. pose proof del_child as Hcx. unfold add_store. destruct (decide (m = p)) as [->|Hmp].
  - rewrite lookup_alter_eq, lookup_insert_ne, del_at_p, Ep by done. simpl. f_equal.
    unfold set_children. simpl. rewrite insert_delete_id by done. by destruct pd.
  - rewrite lookup_alter_ne by done. destruct (decide (m = x)) as [->|Hmx]; [by rewrite lookup_insert_eq|].
    by rewrite lookup_insert_ne, del_at_other.
Qed.

Lemma del_holds s0 v0 s v :
  down H r s0 v0 p →
  holds ps H r s v ↔ holds ps H' r s v ∨
    s `prefix_of` s0 ++ units (key xd) ∧ v = take (length s) (v0 ++ value xd) ∧ Nat.divide ps (length s).
Proof.
  intros H0. rewrite <-del_add at 1.
  assert (Hfree : children (set_children (delete ck) pd) !! ck = None) by apply lookup_delete_eq.
  pose proof (t_segment _ _ _ _ Ht x xd Ex Hxr) as Hg.
  rewrite (add_holds ps bg r H' p x _ xd ck del_tree del_at_p del_at_x Hfree Hck Hxp Hxc Hg s0 v0); [done|].
  rewrite <-del_add in H0.
  apply (add_back ps bg r H' p x _ xd ck del_tree del_at_p del_at_x Hfree Hck Hxp Hxc) in H0; [|done..].
  destruct H0 as [?|(? & ? & ? & _)]; [done|]. by pose proof del_p_ne.
Qed.
End Delete.
