(* ===== verification/RadixInv.v ===== *)
(** * The invariant of the radix cache

    The tree is well formed; identities of nodes are fresh; a node's reference count is the
    number of locked paths through it; the two sizes are the sums of the locked and of the
    unlocked segments; and the leaves that may be evicted are exactly the unlocked nodes
    without children. Each change of the store preserves it. *)

From stdpp Require Import gmultiset.
From S2P Require Import Prelude RadixKey RadixCache RadixFacts RadixSplit.
Local Open Scope Z_scope.

(** ** Sums over the nodes *)

Section Sum.
Context (f : nat → TreeNode → Z).
Implicit Types (H : gmap nat TreeNode) (n : nat) (nd : TreeNode).

Definition msum H : Z := map_fold (λ n nd acc, f n nd + acc) 0 H.

Lemma msum_insert H n nd : H !! n = None → msum (<[n := nd]> H) = f n nd + msum H.
Proof. intros E. unfold msum. apply (map_fold_insert_L (λ n nd acc, f n nd + acc)); [lia|done]. Qed.

Lemma msum_delete H n nd : H !! n = Some nd → msum (delete n H) = msum H - f n nd.
Proof.
  intros E. rewrite <-(insert_delete_id H n nd) at 2 by done. rewrite msum_insert by apply lookup_delete_eq. lia.
Qed.

Lemma msum_alter H n nd g : H !! n = Some nd → msum (alter g n H) = msum H - f n nd + f n (g nd).
Proof.
  intros E. assert (alter g n H = <[n := g nd]> (delete n H)) as ->.
  { rewrite insert_delete_eq. apply map_eq. intros m. destruct (decide (m = n)) as [->|Hm].
    - by rewrite lookup_alter_eq, lookup_insert_eq, E.
    - by rewrite lookup_alter_ne, lookup_insert_ne. }
  rewrite msum_insert by apply lookup_delete_eq. rewrite (msum_delete H n nd) by done. lia.
Qed.

Lemma msum_nonneg H : (∀ n nd, H !! n = Some nd → 0 ≤ f n nd) → 0 ≤ msum H.
Proof.
  unfold msum. revert H. refine (map_fold_weak_ind (λ z H, (∀ n nd, H !! n = Some nd → 0 ≤ f n nd) → 0 ≤ z) _ 0 _ _); [done|].
  intros n nd H z E IH Hf. pose proof (Hf n nd (lookup_insert_eq _ _ _)).
  assert (0 ≤ z); [|lia]. apply IH. intros m md Em. apply Hf. rewrite lookup_insert_ne; congruence.
Qed.

Lemma msum_member H n nd : (∀ m md, H !! m = Some md → 0 ≤ f m md) → H !! n = Some nd → f n nd ≤ msum H.
Proof.
  intros Hf E. pose proof (msum_delete H n nd E). assert (0 ≤ msum (delete n H)); [|lia].
  apply msum_nonneg. intros m md [_ Em]%lookup_delete_Some. eauto.
Qed.
End Sum.

(** ** The indices in the tree *)

Section Indices.
Implicit Types (H : gmap nat TreeNode) (n : nat) (nd : TreeNode).

Definition seg_indices nd : gmultiset Z := list_to_set_disj (value nd).
Definition indices H : gmultiset Z := map_fold (λ _ nd acc, seg_indices nd ⊎ acc) ∅ H.

Lemma indices_insert H n nd : H !! n = None → indices (<[n := nd]> H) = seg_indices nd ⊎ indices H.
Proof. intros E. unfold indices. apply (map_fold_insert_L (λ _ nd acc, seg_indices nd ⊎ acc)); [intros; multiset_solver|done]. Qed.

Lemma indices_delete H n nd : H !! n = Some nd → indices H = seg_indices nd ⊎ indices (delete n H).
Proof. intros E. rewrite <-(insert_delete_id H n nd) at 1 by done. apply indices_insert, lookup_delete_eq. Qed.

Lemma indices_alter H n nd g :
  H !! n = Some nd → indices (alter g n H) ⊎ seg_indices nd = indices H ⊎ seg_indices (g nd).
Proof.
  intros E. assert (Eg : alter g n H !! n = Some (g nd)) by (by rewrite lookup_alter_eq, E).
  rewrite (indices_delete _ n _ Eg), (indices_delete H n nd E).
  assert (delete n (alter g n H) = delete n H) as ->; [|multiset_solver].
  apply map_eq. intros m. destruct (decide (m = n)) as [->|Hm]; [by rewrite !lookup_delete_eq|].
  by rewrite !lookup_delete_ne, lookup_alter_ne.
Qed.

Lemma indices_light H n g : (∀ nd, value (g nd) = value nd) → indices (alter g n H) = indices H.
Proof.
  intros Hg. destruct (H !! n) as [nd|] eqn:E.
  - pose proof (indices_alter H n nd g E) as Ha. unfold seg_indices in Ha. rewrite Hg in Ha. multiset_solver.
  - f_equal. apply map_eq. intros m. destruct (decide (m = n)) as [->|Hm]; [by rewrite lookup_alter_eq, E|by rewrite lookup_alter_ne].
Qed.

Lemma indices_split H c p new cd ck ck_low n prio t1 t2 :
  H !! c = Some cd → H !! new = None → new ≠ c → indices (split_store H c p new cd ck ck_low n prio t1 t2) = indices H.
Proof.
  intros Ec En Hne. unfold split_store. rewrite indices_light by done.
  pose proof (indices_alter (<[new := upper_part cd ck_low c n prio t1 t2]> H) c cd (lower_part new n)) as Ha.
  rewrite indices_insert in Ha by done. specialize (Ha ltac:(by rewrite lookup_insert_ne)).
  unfold seg_indices in Ha. simpl in Ha. rewrite <-(take_drop n (value cd)) in Ha at 1. rewrite list_to_set_disj_app in Ha.
  multiset_solver.
Qed.

Lemma indices_add H p new ld ck : H !! new = None → indices (add_store H p new ld ck) = seg_indices ld ⊎ indices H.
Proof. intros En. unfold add_store. rewrite indices_light by done. by apply indices_insert. Qed.

Lemma indices_del H p x xd ck : H !! x = Some xd → p ≠ x → indices H = seg_indices xd ⊎ indices (del_store H p x ck).
Proof.
  intros E Hne. unfold del_store. rewrite <-(indices_light H p (set_children (delete ck))) by done.
  apply indices_delete. by rewrite lookup_alter_ne.
Qed.
End Indices.

(** A node's share of the evictable and of the protected size. *)
Definition evictable_of (r n : nat) (nd : TreeNode) : Z :=
  if (n =? r)%nat || (0 <? lock_ref nd) then 0 else key_len (key nd).
Definition protected_of (r n : nat) (nd : TreeNode) : Z :=
  if (n =? r)%nat || negb (0 <? lock_ref nd) then 0 else key_len (key nd).

(** ** Holders of a node *)

Definition holders (ls : list (list nat)) (n : nat) : nat := length (filter (λ l, n ∈ l) ls).

Lemma holders_cons l ls n : holders (l :: ls) n = ((if decide (n ∈ l) then 1 else 0) + holders ls n)%nat.
Proof. unfold holders. rewrite filter_cons. by case_decide. Qed.

Lemma holders_zero ls n : holders ls n = 0%nat ↔ ∀ l, l ∈ ls → n ∉ l.
Proof.
  induction ls as [|l ls IH]; [split; [set_solver|done]|]. rewrite holders_cons. case_decide as E.
  - split; [lia|]. intros Hn. exfalso. by apply (Hn l); [left|].
  - rewrite Nat.add_0_l, IH. split; [set_solver|]. intros Hn l' Hl'. apply Hn. by right.
Qed.

Lemma holders_ext ls ls' n : Forall2 (λ l l', n ∈ l ↔ n ∈ l') ls ls' → holders ls n = holders ls' n.
Proof.
  induction 1 as [|l l' ls ls' Hl Hls IH]; [done|]. rewrite !holders_cons, IH. f_equal.
  by rewrite (decide_ext (n ∈ l) (n ∈ l')) by done.
Qed.

(** The leaves behind [_update_leaf_status]. *)
Definition leaf_status (n : nat) (nd : TreeNode) (lv : gset nat) : gset nat :=
  if (0 <? lock_ref nd) || negb (bool_decide (children nd = ∅)) then lv ∖ {[n]} else {[n]} ∪ lv.

Lemma leaf_status_member n nd lv m :
  0 ≤ lock_ref nd →
  m ∈ leaf_status n nd lv ↔ if decide (m = n) then lock_ref nd = 0 ∧ children nd = ∅ else m ∈ lv.
Proof.
  intros Hl. unfold leaf_status. destruct (Z.ltb_spec 0 (lock_ref nd)) as [Hlt|Hge]; simpl.
  - case_decide; [|set_solver]. split; [set_solver|]. intros [? _]. lia.
  - destruct (bool_decide_reflect (children nd = ∅)); simpl; case_decide; try set_solver. split; [|set_solver]. intros _. by split; [lia|].
Qed.

(** ** The invariant *)

Section Inv.
Context (ps : nat) (bg : bool).

Record parts (r : nat) (H : gmap nat TreeNode) (cnt : nat) (ev pr : Z) (lv : gset nat) (ls : list (list nat)) : Prop :=
  mk_parts {
    p_tree : tree ps bg r H;
    p_fresh : ∀ n, (cnt ≤ n)%nat → H !! n = None;
    p_root : ∀ rd, H !! r = Some rd → lock_ref rd = 1;
    p_members : ∀ l n, l ∈ ls → n ∈ l → n ≠ r ∧ is_Some (H !! n);
    p_locks : ∀ n nd, H !! n = Some nd → n ≠ r → lock_ref nd = Z.of_nat (holders ls n);
    p_evictable : ev = msum (evictable_of r) H;
    p_protected : pr = msum (protected_of r) H;
    p_leaves : ∀ n, n ∈ lv ↔ ∃ nd, H !! n = Some nd ∧ lock_ref nd = 0 ∧ children nd = ∅;
  }.

Implicit Types (H : gmap nat TreeNode) (r n c p cnt : nat) (lv : gset nat) (ls : list (list nat)).

Lemma parts_nonneg r H cnt ev pr lv ls n nd :
  parts r H cnt ev pr lv ls → H !! n = Some nd → 0 ≤ lock_ref nd.
Proof.
  intros Hi E. destruct (decide (n = r)) as [->|Hn]; [rewrite (p_root _ _ _ _ _ _ _ Hi nd E); lia|].
  rewrite (p_locks _ _ _ _ _ _ _ Hi n nd E Hn). lia.
Qed.

Lemma parts_leaf_ne r H cnt ev pr lv ls n nd :
  parts r H cnt ev pr lv ls → H !! n = Some nd → lock_ref nd = 0 → n ≠ r.
Proof. intros Hi E Hl ->. rewrite (p_root _ _ _ _ _ _ _ Hi nd E) in Hl. lia. Qed.

(** Times, hit counts and priorities do not matter. *)
Lemma parts_alter r H cnt ev pr lv ls n (f : TreeNode → TreeNode) :
  (∀ nd, same_structure (Some nd) (Some (f nd)) ∧ lock_ref (f nd) = lock_ref nd) →
  parts r H cnt ev pr lv ls → parts r (alter f n H) cnt ev pr lv ls.
Proof.
  intros Hf [Ht Hfr Hr Hm Hl He Hp Hv].
  assert (Hlook : ∀ m md, alter f n H !! m = Some md ↔ ∃ md0, H !! m = Some md0 ∧ md = if decide (m = n) then f md0 else md0).
  { intros m md. destruct (decide (m = n)) as [->|Hne]; [rewrite lookup_alter_eq|rewrite lookup_alter_ne by done; naive_solver].
    destruct (H !! n) as [nd|]; simpl; naive_solver. }
  assert (Hlock : ∀ m md, lock_ref (if decide (m = n) then f md else md) = lock_ref md).
  { intros m md. case_decide; [apply Hf|done]. }
  assert (Hsum : ∀ g, (∀ nd, g n (f nd) = g n nd) → msum g (alter f n H) = msum g H).
  { intros g Hg. destruct (H !! n) as [nd|] eqn:E.
    - rewrite (msum_alter g H n nd) by done. rewrite Hg. lia.
    - f_equal. apply map_eq. intros m. destruct (decide (m = n)) as [->|Hne]; [by rewrite lookup_alter_eq, E|by rewrite lookup_alter_ne]. }
  split.
  - eapply tree_same; [|done]. apply alter_same. apply Hf.
  - intros m Hcm. destruct (decide (m = n)) as [->|Hne]; [rewrite lookup_alter_eq|rewrite lookup_alter_ne by done; auto].
    by rewrite (Hfr n Hcm).
  - intros rd (rd0 & E & ->)%Hlook. rewrite Hlock. auto.
  - intros l m Hl' Hm'. destruct (Hm l m Hl' Hm') as [? [md E]]. split; [done|].
    exists (if decide (m = n) then f md else md). apply Hlook. eauto.
  - intros m md (md0 & E & ->)%Hlook Hmr. rewrite Hlock. auto.
  - rewrite Hsum; [done|]. intros nd. unfold evictable_of. destruct (Hf nd) as [(_ & _ & -> & _) ->]. done.
  - rewrite Hsum; [done|]. intros nd. unfold protected_of. destruct (Hf nd) as [(_ & _ & -> & _) ->]. done.
  - intros m. rewrite Hv. split.
    + intros (md & E & Hl0 & Hc). exists (if decide (m = n) then f md else md). rewrite Hlock. split_and!; [apply Hlook; eauto|done|].
      case_decide; [|done]. destruct (Hf md) as [(-> & _) _]. done.
    + intros (md & (md0 & E & ->)%Hlook & Hl0 & Hc). rewrite Hlock in Hl0. exists md0. split_and!; try done.
      case_decide; [|done]. destruct (Hf md0) as [(E1 & _) _]. congruence.
Qed.

(** *** Splitting *)
Lemma holders_split_other ls c cnt m : m ≠ cnt → holders (split_chain c cnt <$> ls) m = holders ls m.
Proof.
  intros Hmc. symmetry. apply holders_ext. apply Forall2_fmap_r, Forall_Forall2_diag, Forall_true. intros l.
  simpl. rewrite split_chain_member. naive_solver.
Qed.

Lemma holders_split_new ls c cnt : (∀ l, l ∈ ls → cnt ∉ l) → holders (split_chain c cnt <$> ls) cnt = holders ls c.
Proof.
  intros Hni. induction ls as [|l ls IH]; [done|]. rewrite fmap_cons, !holders_cons, IH by set_solver. f_equal.
  rewrite (decide_ext (cnt ∈ split_chain c cnt l) (c ∈ l)); [done|]. rewrite split_chain_member. set_solver.
Qed.

Lemma parts_split r H cnt ev pr lv ls c p cd pd ck ck_low n prio t1 t2 :
  (0 < ps)%nat → parts r H cnt ev pr lv ls →
  H !! c = Some cd → c ≠ r → parent cd = Some p → H !! p = Some pd → children pd !! ck = Some c →
  child_key ps (key cd) = Ok ck → (0 < n < key_len (key cd))%nat → Nat.divide ps n →
  child_key ps (key_drop n (key cd)) = Ok ck_low →
  parts r (split_store H c p cnt cd ck ck_low n prio t1 t2) (S cnt) ev pr lv (split_chain c cnt <$> ls).
Proof.
  intros Hps [Ht Hfr Hr Hm Hl He Hp Hv] Ec Hcr Hpc Ep Hch Hck Hn Hdiv Hlow.
  pose proof (Hfr cnt ltac:(lia)) as Hnew. set (H' := split_store H c p cnt cd ck ck_low n prio t1 t2).
  pose proof (split_new_ne ps bg r H c p cnt cd pd Ht Ec Ep Hnew) as (Nc & Np & Nr).
  pose proof (split_p_ne ps bg r H c p cd pd Ht Ec Hcr Hpc Ep) as Npc.
  assert (Hat : H' !! cnt = Some (upper_part cd ck_low c n prio t1 t2)) by (by eapply split_at_new).
  assert (Hac : H' !! c = Some (lower_part cnt n cd)) by (by eapply split_at_c).
  assert (Hap : H' !! p = Some (set_children (<[ck := cnt]>) pd)) by (by eapply split_at_p).
  assert (Hao : ∀ m, m ≠ cnt → m ≠ c → m ≠ p → H' !! m = H !! m) by (by apply split_at_other).
  assert (Hsum : ∀ g, (∀ m md k, g m (set_children k md) = g m md) →
     g cnt (upper_part cd ck_low c n prio t1 t2) + g c (lower_part cnt n cd) = g c cd → msum g H' = msum g H).
  { intros g Hg1 Hg2. unfold H', split_store.
    rewrite (msum_alter g _ p pd), (msum_alter g _ c cd), msum_insert;
      [|done|by rewrite lookup_insert_ne|by rewrite lookup_alter_ne, lookup_insert_ne by done]. rewrite Hg1. lia. }
  assert (Hhnew : holders (split_chain c cnt <$> ls) cnt = holders ls c).
  { apply holders_split_new. intros l Hl0 Hc0. destruct (Hm l cnt Hl0 Hc0) as [_ [? ?]]. congruence. }
  assert (Hlens : Z.of_nat (key_len (key_take n (key cd))) + key_len (key_drop n (key cd)) = key_len (key cd)).
  { rewrite key_len_take, key_len_drop by lia. lia. }
  split.
  - by eapply split_tree.
  - intros m Hcm. destruct (decide (m = c)) as [->|]; [rewrite Hfr in Ec by lia; congruence|].
    destruct (decide (m = p)) as [->|]; [rewrite Hfr in Ep by lia; congruence|]. rewrite Hao by (done || lia). apply Hfr. lia.
  - intros rd E. destruct (decide (r = p)) as [->|Hrp].
    + rewrite Hap in E. injection E as <-. simpl. eauto.
    + rewrite Hao in E by congruence. eauto.
  - intros l m Hl' Hm'. apply list_elem_of_fmap in Hl' as (l0 & -> & Hl0). apply split_chain_member in Hm' as [Hm'|[-> Hc0]]; [|eauto].
    destruct (Hm l0 m Hl0 Hm') as [? [md E]]. split; [done|]. destruct (decide (m = c)) as [->|]; [eauto|].
    destruct (decide (m = p)) as [->|]; [eauto|]. rewrite Hao by congruence. eauto.
  - intros m md E Hmr. destruct (decide (m = cnt)) as [->|Hm1].
    { rewrite Hhnew. rewrite Hat in E. injection E as <-. simpl. eauto. }
    rewrite holders_split_other by done. destruct (decide (m = c)) as [->|]; [rewrite Hac in E; injection E as <-; simpl; eauto|].
    destruct (decide (m = p)) as [->|]; [rewrite Hap in E; injection E as <-; simpl; eauto|]. rewrite Hao in E by done. eauto.
  - rewrite Hsum; [done|done|]. unfold evictable_of. simpl. rewrite (proj2 (Nat.eqb_neq cnt r)), (proj2 (Nat.eqb_neq c r)) by done.
    simpl. destruct (0 <? lock_ref cd); lia.
  - rewrite Hsum; [done|done|]. unfold protected_of. simpl. rewrite (proj2 (Nat.eqb_neq cnt r)), (proj2 (Nat.eqb_neq c r)) by done.
    simpl. destruct (0 <? lock_ref cd); simpl; lia.
  - intros m. rewrite Hv. destruct (decide (m = cnt)) as [->|Hm1].
    { rewrite Hnew, Hat. split; [naive_solver|]. intros (? & [= <-] & _ & Hx). simpl in Hx.
      exfalso. eapply (insert_non_empty (M:=gmap ChildKey) ∅). exact Hx. }
    destruct (decide (m = c)) as [->|]; [rewrite Hac, Ec; naive_solver|].
    destruct (decide (m = p)) as [->|]; [|by rewrite Hao].
    rewrite Hap, Ep. split.
    + intros (? & [= <-] & _ & Hx). rewrite Hx, lookup_empty in Hch. done.
    + intros (? & [= <-] & _ & Hx). simpl in Hx. by apply insert_non_empty in Hx.
Qed.

(** *** Adding a leaf *)
Lemma parts_add r H cnt ev pr lv ls p pd ld ck :
  parts r H cnt ev pr lv ls → H !! p = Some pd → children pd !! ck = None →
  child_key ps (key ld) = Ok ck → parent ld = Some p → children ld = ∅ → segment ps bg ld → lock_ref ld = 0 →
  parts r (add_store H p cnt ld ck) (S cnt) (ev + key_len (key ld)) pr ({[cnt]} ∪ (lv ∖ {[p]})) ls.
Proof.
  intros [Ht Hfr Hr Hm Hl He Hp Hv] Ep Hfree Hck Hlp Hlc Hseg Hl0. pose proof (Hfr cnt ltac:(lia)) as Hnew.
  pose proof (add_new_ne ps bg r H p cnt pd Ht Ep Hnew) as [Np Nr]. set (H' := add_store H p cnt ld ck).
  assert (Hat : H' !! cnt = Some ld) by (by eapply add_at_new).
  assert (Hap : H' !! p = Some (set_children (<[ck := cnt]>) pd)) by (by eapply add_at_p).
  assert (Hao : ∀ m, m ≠ cnt → m ≠ p → H' !! m = H !! m) by (by apply add_at_other).
  assert (Hsum : ∀ g, (∀ m md k, g m (set_children k md) = g m md) → msum g H' = g cnt ld + msum g H).
  { intros g Hg. unfold H', add_store. rewrite (msum_alter g _ p pd), msum_insert by (done || by rewrite lookup_insert_ne).
    rewrite Hg. lia. }
  split.
  - by eapply add_tree.
  - intros m Hcm. destruct (decide (m = p)) as [->|]; [rewrite Hfr in Ep by lia; congruence|]. rewrite Hao by (done || lia). apply Hfr. lia.
  - intros rd E. destruct (decide (r = p)) as [->|Hrp]; [rewrite Hap in E; injection E as <-; simpl; eauto|]. rewrite Hao in E by congruence. eauto.
  - intros l m Hl' Hm'. destruct (Hm l m Hl' Hm') as [? [md E]]. split; [done|]. destruct (decide (m = p)) as [->|]; [eauto|].
    rewrite Hao by congruence. eauto.
  - intros m md E Hmr. destruct (decide (m = cnt)) as [->|Hm1].
    { rewrite Hat in E. injection E as <-. rewrite Hl0. symmetry. apply (f_equal Z.of_nat (y:=0%nat)), holders_zero.
      intros l Hl' Hm'. destruct (Hm l cnt Hl' Hm') as [_ [? ?]]. congruence. }
    destruct (decide (m = p)) as [->|]; [rewrite Hap in E; injection E as <-; simpl; eauto|]. rewrite Hao in E by done. eauto.
  - rewrite Hsum by done. unfold evictable_of at 1. rewrite (proj2 (Nat.eqb_neq cnt r)), Hl0 by done. simpl. lia.
  - rewrite Hsum by done. unfold protected_of at 1. rewrite (proj2 (Nat.eqb_neq cnt r)), Hl0 by done. simpl. lia.
  - intros m. destruct (decide (m = cnt)) as [->|Hm1]; [rewrite Hat; set_solver|].
    destruct (decide (m = p)) as [->|].
    + rewrite Hap. split; [set_solver|]. intros (? & [= <-] & _ & Hx). simpl in Hx. by apply insert_non_empty in Hx.
    + rewrite Hao by done. rewrite <-Hv. set_solver.
Qed.

(** *** Deleting an unlocked leaf *)
Lemma parts_del r H cnt ev pr lv ls p x pd xd ck :
  (0 < ps)%nat → parts r H cnt ev pr lv ls → H !! p = Some pd → H !! x = Some xd → lock_ref xd = 0 → children xd = ∅ →
  parent xd = Some p → child_key ps (key xd) = Ok ck →
  parts r (del_store H p x ck) cnt (ev - key_len (key xd)) pr
    (leaf_status p (set_children (delete ck) pd) (lv ∖ {[x]})) ls.
Proof.
  intros Hps Hi Ep Ex Hl0 Hxc Hxp Hck. pose proof (parts_leaf_ne _ _ _ _ _ _ _ _ _ Hi Ex Hl0) as Hxr.
  pose proof (parts_nonneg _ _ _ _ _ _ _ _ _ Hi Ep) as Hpl. destruct Hi as [Ht Hfr Hr Hm Hl He Hp Hv].
  pose proof (del_p_ne ps bg r H p x pd xd Ht Ep Ex Hxr Hxp) as Npx. set (H' := del_store H p x ck).
  assert (Hax : H' !! x = None) by apply del_at_x.
  assert (Hap : H' !! p = Some (set_children (delete ck) pd)) by (by eapply del_at_p).
  assert (Hao : ∀ m, m ≠ x → m ≠ p → H' !! m = H !! m) by (by apply del_at_other).
  assert (Hsum : ∀ g, (∀ m md k, g m (set_children k md) = g m md) → msum g H' = msum g H - g x xd).
  { intros g Hg. unfold H', del_store. rewrite (msum_delete g _ x xd), (msum_alter g _ p pd) by (done || by rewrite lookup_alter_ne).
    rewrite Hg. lia. }
  assert (Hfree : ∀ l, l ∈ ls → x ∉ l).
  { apply holders_zero. rewrite (Hl x xd Ex Hxr) in Hl0. lia. }
  split.
  - by apply (del_tree ps bg r H p x pd xd ck).
  - intros m Hcm. destruct (decide (m = x)) as [->|]; [done|].
    destruct (decide (m = p)) as [->|]; [rewrite Hfr in Ep by lia; congruence|]. rewrite Hao by done. apply Hfr. lia.
  - intros rd E. destruct (decide (r = p)) as [->|Hrp]; [rewrite Hap in E; injection E as <-; simpl; eauto|]. rewrite Hao in E by congruence. eauto.
  - intros l m Hl' Hm'. destruct (Hm l m Hl' Hm') as [? [md E]]. split; [done|]. destruct (decide (m = p)) as [->|]; [eauto|].
    rewrite Hao; [eauto| |done]. intros ->. exact (Hfree l Hl' Hm').
  - intros m md E Hmr. destruct (decide (m = x)) as [->|Hm1]; [congruence|].
    destruct (decide (m = p)) as [->|]; [rewrite Hap in E; injection E as <-; simpl; eauto|]. rewrite Hao in E by done. eauto.
  - rewrite Hsum by done. unfold evictable_of at 2. rewrite (proj2 (Nat.eqb_neq x r)), Hl0 by done. simpl. lia.
  - rewrite Hsum by done. unfold protected_of at 2. rewrite (proj2 (Nat.eqb_neq x r)), Hl0 by done. simpl. lia.
  - intros m. rewrite leaf_status_member by done. case_decide as Hmp.
    + subst m. rewrite Hap. naive_solver.
    + destruct (decide (m = x)) as [->|Hmx]; [rewrite Hax; set_solver|]. rewrite Hao by done. rewrite <-Hv. set_solver.
Qed.

(** *** Changing a reference count *)
Lemma parts_set_lock r H cnt ev pr lv ls ls' n nd (d : Z) :
  parts r H cnt ev pr lv ls → H !! n = Some nd → n ≠ r →
  (∀ l m, l ∈ ls' → m ∈ l → m ≠ r ∧ is_Some (H !! m)) →
  (∀ m, m ≠ n → holders ls' m = holders ls m) → Z.of_nat (holders ls' n) = lock_ref nd + d →
  let nd' := set_lock_ref (λ l, l + d) nd in
  parts r (alter (set_lock_ref (λ l, l + d)) n H) cnt
    (ev - evictable_of r n nd + evictable_of r n nd') (pr - protected_of r n nd + protected_of r n nd')
    (leaf_status n nd' lv) ls'.
Proof.
  intros Hi E Hnr Hm' Hoth Hcount. simpl. destruct Hi as [Ht Hfr Hr Hm Hl He Hp Hv].
  assert (Hlook : ∀ m, m ≠ n → alter (set_lock_ref (λ l, l + d)) n H !! m = H !! m) by (intros; by apply lookup_alter_ne).
  assert (Hat : alter (set_lock_ref (λ l, l + d)) n H !! n = Some (set_lock_ref (λ l, l + d) nd)) by (by rewrite lookup_alter_eq, E).
  split.
  - eapply tree_same; [|done]. by apply alter_same.
  - intros m Hcm. rewrite Hlook; [auto|]. intros ->. rewrite Hfr in E by done. done.
  - intros rd Er. rewrite Hlook in Er by done. eauto.
  - intros l m Hl' Hml. destruct (Hm' l m Hl' Hml) as [? [md Em]]. split; [done|].
    destruct (decide (m = n)) as [->|]; [eauto|]. rewrite Hlook; eauto.
  - intros m md Em Hmr. destruct (decide (m = n)) as [->|]; [rewrite Hat in Em; injection Em as <-; simpl; lia|].
    rewrite Hlook in Em by done. rewrite Hoth by done. eauto.
  - rewrite (msum_alter _ H n nd) by done. lia.
  - rewrite (msum_alter _ H n nd) by done. lia.
  - intros m. rewrite leaf_status_member by (simpl; lia). case_decide as Hmn; [subst m; rewrite Hat; naive_solver|].
    by rewrite Hlook, Hv by done.
Qed.

Lemma holders_more l ls n m : n ∉ l →
  holders ((n :: l) :: ls) m = ((if decide (m = n) then 1 else 0) + holders (l :: ls) m)%nat.
Proof.
  intros Hn. rewrite !holders_cons. destruct (decide (m = n)) as [->|Hm].
  - rewrite decide_True by set_solver. by rewrite decide_False.
  - by rewrite (decide_ext (m ∈ n :: l) (m ∈ l)) by set_solver.
Qed.
End Inv.
