(* ===== verification/RadixOps.v ===== *)
(** * Matching and inserting

    The loops of [_match_prefix_helper] and [_insert_helper] return, keep the invariant and
    the content of the cache, and stop where the longest cached prefix of the key ends. *)

From S2P Require Import Prelude RadixKey RadixCache RadixFacts RadixSplit RadixInv.
Local Open Scope Z_scope.

Section Ops.
Context (cfg : CacheConfig) (ticks : nat → Z).
Local Abbreviation ps := (page_size cfg).
Local Abbreviation bg := (is_eagle cfg).
Implicit Types (s : Cache) (hs : list nat) (n c p : nat) (k : RadixKey) (u : list unit_of) (v : list Z).

(** The invariant of a cache in which [hs] are the nodes whose paths are locked. *)
Definition inv s hs : Prop :=
  ∃ ls, Forall2 (chain (root_node s) (nodes s)) hs ls ∧
    parts ps bg (root_node s) (nodes s) (node_counter s) (evictable_size_ s) (protected_size_ s) (evictable_leaves s) ls.

(** The cache maps the units [u] to the indices [v]. *)
Definition content s u v : Prop := holds ps (nodes s) (root_node s) u v.

(** The units and indices on the path to a node. *)
Definition path s u v n : Prop := down (nodes s) (root_node s) u v n.

Lemma inv_tree s hs : inv s hs → tree ps bg (root_node s) (nodes s).
Proof. by intros (ls & _ & [? _ _ _ _ _ _ _]). Qed.

(** Changes that keep everything but times, counters and the cuts between segments. *)
Record tidy s s' : Prop := mk_tidy {
  td_root : root_node s' = root_node s;
  td_sizes : evictable_size_ s' = evictable_size_ s ∧ protected_size_ s' = protected_size_ s;
  td_freed : free_calls s' = free_calls s;
  td_indices : indices (nodes s') = indices (nodes s);
  td_inv : ∀ hs, inv s hs → inv s' hs;
  td_path : ∀ u v n, path s u v n → path s' u v n;
  td_content : ∀ u v, content s' u v ↔ content s u v;
}.

#[global] Instance tidy_preorder : PreOrder tidy.
Proof.
  split.
  - intros s. by split.
  - intros s1 s2 s3 [] []. split; try (etrans; eassumption); eauto.
    + split; etrans; [apply td_sizes1|apply td_sizes0|apply td_sizes1|apply td_sizes0].
    + intros u v. by rewrite td_content1.
Qed.

Lemma tidy_clock s f : tidy s (set_clock_reads f s).
Proof. by split. Qed.

(** Updates of times, counters and priorities. *)
Definition light (f : TreeNode → TreeNode) : Prop :=
  ∀ nd, same_structure (Some nd) (Some (f nd)) ∧ lock_ref (f nd) = lock_ref nd.

Lemma tidy_light s f n : light f → tidy s (set_nodes (alter f n) s).
Proof.
  intros Hf. assert (Hs : same_tree (nodes s) (alter f n (nodes s))) by (apply alter_same; apply Hf).
  pose proof (same_tree_sym _ _ Hs) as Hs'.
  assert (Hd : ∀ m u v q, down (alter f n (nodes s)) m u v q ↔ down (nodes s) m u v q).
  { intros m u v q. split; by apply down_same. }
  split; try done.
  - apply indices_light. intros nd. apply (Hf nd).
  - intros hs (ls & Hc & Hi). exists ls. split.
    + eapply Forall2_impl; [done|]. intros m l. by apply chain_same.
    + by apply parts_alter.
  - intros u v m. apply Hd.
  - intros u v. unfold content, holds. simpl. by setoid_rewrite Hd.
Qed.

Lemma node_of_ok s n nd : nodes s !! n = Some nd → node_of n s = (Ok nd, s).
Proof. intros E. unfold node_of, gets, lift_res, mbind, M_bind. by rewrite E. Qed.

Lemma new_node_ok s prio build :
  ∃ t1 t2, new_node ticks prio build s =
    (Ok (node_counter s),
     set_nodes (<[node_counter s := build prio t1 t2]>) (set_node_counter S (set_clock_reads (λ n, S (S n)) s))).
Proof. exists (ticks (clock_reads s)), (ticks (S (clock_reads s))). done. Qed.

(** ** Splitting *)

Lemma split_node_ok s hs c p cd pd ck n :
  (0 < ps)%nat → inv s hs → nodes s !! c = Some cd → nodes s !! p = Some pd → children pd !! ck = Some c →
  (0 < n < key_len (key cd))%nat → Nat.divide ps n →
  ∃ s' new nn, split_node cfg ticks c n s = (Ok new, s') ∧ tidy s s' ∧ nodes s' !! new = Some nn ∧
    value nn = take n (value cd) ∧
    (∀ u v, path s u v p → path s' (u ++ take n (units (key cd))) (v ++ take n (value cd)) new).
Proof.
  intros Hps Hinv Ec Ep Hch Hn Hdiv. pose proof (inv_tree _ _ Hinv) as Ht.
  destruct (child_facts ps bg _ _ _ _ _ _ _ Ht Ep Hch Ec) as (Hcr & Hpc & Hck & Hseg).
  assert (Hnew : nodes s !! node_counter s = None).
  { destruct Hinv as (ls & _ & Hi). by apply (p_fresh _ _ _ _ _ _ _ _ _ Hi). }
  assert (∃ ck_low, child_key ps (key_drop n (key cd)) = Ok ck_low) as [ck_low Hlow].
  { pose proof (split_page ps bg _ _ c cd n Hps Ht Ec Hcr Hn Hdiv) as [P1 P2].
    eexists. apply child_key_Ok; [done|]. rewrite key_len_drop by lia. lia. }
  pose proof (split_new_ne ps bg _ _ c p _ cd pd Ht Ec Ep Hnew) as (Nc & Np & Nr).
  pose proof (split_p_ne ps bg _ _ c p cd pd Ht Ec Hcr Hpc Ep) as Npc.
  destruct (new_node_ok s (priority cd) (upper_part cd ck_low c n)) as (t1 & t2 & Enew).
  set (s1 := set_nodes _ _) in Enew.
  assert (Ep2 : ∃ pd2, nodes (set_nodes (alter (lower_part (node_counter s) n) c) s1) !! p = Some pd2).
  { exists pd. simpl. by rewrite lookup_alter_ne, lookup_insert_ne. }
  destruct Ep2 as [pd2 Ep2].
  exists (set_nodes (λ _, split_store (nodes s) c p (node_counter s) cd ck ck_low n (priority cd) t1 t2) s1), (node_counter s).
  exists (upper_part cd ck_low c n (priority cd) t1 t2).
  assert (Erun : split_node cfg ticks c n s =
    (Ok (node_counter s), set_nodes (λ _, split_store (nodes s) c p (node_counter s) cd ck ck_low n (priority cd) t1 t2) s1)).
  { unfold split_node. rewrite (bind_Ok _ _ s cd s) by (by apply node_of_ok).
    rewrite (bind_Ok _ _ s ck_low s) by (unfold lift_res; by rewrite Hlow).
    rewrite (bind_Ok _ _ s ck s) by (unfold lift_res; by rewrite Hck).
    rewrite (bind_Ok _ _ s _ s1) by exact Enew.
    rewrite (bind_Ok _ _ s1 tt (set_nodes (alter (lower_part (node_counter s) n) c) s1)) by done.
    rewrite (bind_Ok _ _ _ p (set_nodes (alter (lower_part (node_counter s) n) c) s1)) by (unfold lift_res; by rewrite Hpc).
    rewrite (bind_Ok _ _ _ pd2 (set_nodes (alter (lower_part (node_counter s) n) c) s1)) by (by apply node_of_ok).
    done. }
  split; [exact Erun|]. split; [|split; [by apply (split_at_new ps bg (root_node s) (nodes s) c p _ cd pd)|split; [done|]]].
  - assert (Hholds := split_holds ps bg (root_node s) (nodes s) c p (node_counter s) cd pd ck ck_low n (priority cd) t1 t2
      Hps Ht Ec Hcr Hpc Ep Hch Hck Hn Hdiv Hnew Hlow).
    split; try done.
    + by apply indices_split.
    + intros hs' (ls & Hc & Hi). exists (split_chain c (node_counter s) <$> ls). split.
      * apply Forall2_fmap_r. eapply Forall2_impl; [exact Hc|]. intros m l Hl. simpl.
        by apply (split_chain_ok ps bg (root_node s) (nodes s) c p (node_counter s) cd pd).
      * simpl. by apply (parts_split ps bg (root_node s) (nodes s) _ _ _ _ ls c p cd pd).
    + intros u v m Hd. by apply (split_down ps bg (root_node s) (nodes s) c p (node_counter s) cd pd).
    + intros u v. unfold content. simpl. apply Hholds. congruence.
  - intros u v Hu. unfold path. simpl. eapply down_app.
    + by apply (split_down ps bg (root_node s) (nodes s) c p (node_counter s) cd pd).
    + by apply (split_path ps bg (root_node s) (nodes s) c p (node_counter s) cd pd).
Qed.

(** ** One step of a walk *)

(** A key of the walk: whole pages, read as the cache reads keys, with its child key. *)
Definition walk_key k (ck : ChildKey) : Prop :=
  is_bigram k = bg ∧ aligned ps k ∧ ((0 < key_len k)%nat → child_key ps k = Ok ck).

Lemma child_key_aligned k : (0 < ps)%nat → aligned ps k → (0 < key_len k)%nat → ∃ ck, child_key ps k = Ok ck.
Proof.
  intros Hps Ha Hl. eexists. apply child_key_Ok; [done|].
  pose proof (divide_lt ps 0 _ Hps (Nat.divide_0_r ps) Ha Hl). lia.
Qed.

(** The rest of the key behind whole pages. *)
Lemma walk_rest k ck m :
  (0 < ps)%nat → walk_key k ck → (m ≤ key_len k)%nat → Nat.divide ps m →
  ∃ ck', (∀ s, (if (0 <? key_len (key_drop m k))%nat then lift_res (child_key ps (key_drop m k)) else mret ck) s = (Ok ck', s)) ∧
    walk_key (key_drop m k) ck'.
Proof.
  intros Hps (Hb & Ha & Hk) Hm Hd. assert (Ha' : aligned ps (key_drop m k)).
  { unfold aligned. rewrite key_len_drop by done. apply (Nat.divide_add_cancel_r _ m); [done|].
    by replace (m + (key_len k - m))%nat with (key_len k) by lia. }
  assert (Hb' : is_bigram (key_drop m k) = bg) by (unfold key_drop; by rewrite (proj2 (key_slice_namespace k m (key_len k)))).
  destruct (Nat.ltb_spec 0 (key_len (key_drop m k))) as [Hl|Hl].
  - destruct (child_key_aligned (key_drop m k)) as [ck' E]; [done..|]. exists ck'. split; [intros s; unfold lift_res; by rewrite E|done].
  - exists ck. split; [done|]. split_and!; [done..|]. lia.
Qed.

(** Following the key to a child: the child is touched, and the pages shared with it are found. *)
Record visit s c (t : Z) (k : RadixKey) (node : nat) (s1 : Cache) (cd : TreeNode) (nd : TreeNode) (pl : nat) : Prop := mk_visit {
  vs_tidy : tidy s s1;
  vs_node : nodes s1 !! node = Some nd;
  vs_child : nodes s1 !! c = Some cd;
  vs_match : key_match (key cd) k ps = Ok pl;
  vs_page : (ps ≤ pl)%nat;
  vs_len : (pl ≤ key_len (key cd))%nat ∧ (pl ≤ key_len k)%nat;
  vs_div : Nat.divide ps pl;
  vs_common : pl = round_down ps (common_len (units (key cd)) (units k));
  vs_units : take pl (units (key cd)) = take pl (units k);
}.

Lemma visit_ok s hs node nd c k ck t :
  (0 < ps)%nat → inv s hs → nodes s !! node = Some nd → children nd !! ck = Some c → walk_key k ck → (0 < key_len k)%nat →
  ∃ cd nd1 pl, visit s c t k node (set_nodes (alter (set_access_time t) c) s) cd nd1 pl ∧ children nd1 !! ck = Some c.
Proof.
  intros Hps Hinv E Ec (Hb & Ha & Hk) Hl. specialize (Hk Hl). set (s1 := set_nodes _ s).
  assert (Htd : tidy s s1) by (by apply tidy_light).
  pose proof (inv_tree _ _ (td_inv _ _ Htd hs Hinv)) as Ht1.
  destruct (t_down _ _ _ _ (inv_tree _ _ Hinv) _ _ _ _ E Ec) as (Hcr & cd & Ecd & Hpc & _).
  assert (node ≠ c) as Hne.
  { destruct (t_chain _ _ _ _ (inv_tree _ _ Hinv) node nd E) as [l Hl']. by eapply (parent_ne _ _ c cd node l). }
  assert (E1 : nodes s1 !! node = Some nd) by (simpl; by rewrite lookup_alter_ne).
  assert (Ecd1 : nodes s1 !! c = Some (set_access_time t cd)) by (simpl; by rewrite lookup_alter_eq, Ecd).
  destruct (child_match ps bg _ _ node nd k ck Hps Ht1 E1 Hk Hl Ha c _ Ec Ecd1 Hb) as (M1 & M2 & M3 & M4).
  eexists _, nd, _. split; [|done]. split; try done.
  - apply round_down_divide.
  - apply common_len_take. apply round_down_le.
Qed.

(** What a node's path and the cache hold together. *)
Lemma content_below s hs u0 v0 node u v :
  (0 < ps)%nat → inv s hs → path s u0 v0 node → content s (u0 ++ u) v → ∃ v1, holds ps (nodes s) node u v1.
Proof.
  intros Hps Hinv Hp Hh. pose proof (inv_tree _ _ Hinv) as Ht.
  destruct (holds_inv ps bg _ _ _ _ _ _ _ _ Hps Ht Hp Hh) as (v1 & _ & ?). eauto.
Qed.

Lemma path_node s hs u v n : inv s hs → path s u v n → is_Some (nodes s !! n).
Proof.
  intros Hinv Hp. eapply down_end; [|done]. destruct (t_root _ _ _ _ (inv_tree _ _ Hinv)) as (? & ? & _). eauto.
Qed.

(** No cached prefix of the key [u0 ++ units k] is longer than [u0] and [m] units more. *)
Definition longest s u0 k m : Prop :=
  ∀ u v, u `prefix_of` units k → content s (u0 ++ u) v → (length u ≤ m)%nat.

Lemma longest_empty s u0 k : key_len k = 0%nat → longest s u0 k 0.
Proof. intros Hl u v Hu _. rewrite (units_nil k Hl) in Hu. apply prefix_length in Hu. done. Qed.

Lemma longest_none s hs u0 v0 node nd k ck :
  (0 < ps)%nat → inv s hs → path s u0 v0 node → nodes s !! node = Some nd → walk_key k ck → (0 < key_len k)%nat →
  children nd !! ck = None → longest s u0 k 0.
Proof.
  intros Hps Hinv Hp E (Hb & Ha & Hk) Hl Hn u v Hu Hc.
  destruct (content_below _ _ _ _ _ _ _ Hps Hinv Hp Hc) as [v1 Hh].
  rewrite (no_child_nothing ps bg _ _ node nd k ck Hps (inv_tree _ _ Hinv) E (Hk Hl) Hl Ha u v1 Hn Hu Hh). done.
Qed.

Lemma longest_partial s hs u0 v0 node c k ck t s1 cd nd pl :
  (0 < ps)%nat → inv s hs → path s u0 v0 node → visit s c t k node s1 cd nd pl → children nd !! ck = Some c →
  walk_key k ck → (0 < key_len k)%nat → (pl < key_len (key cd))%nat → longest s u0 k pl.
Proof.
  intros Hps Hinv Hp [Htd E Ecd Hm Hpg Hln Hdv Hcm Hun] Ec (Hb & Ha & Hk) Hl Hlt u v Hu Hc. specialize (Hk Hl).
  pose proof (td_inv _ _ Htd hs Hinv) as Hinv1. apply (td_content _ _ Htd) in Hc. apply (td_path _ _ Htd) in Hp.
  destruct (content_below _ _ _ _ _ _ _ Hps Hinv1 Hp Hc) as [v1 Hh]. rewrite Hcm in *.
  by eapply (child_limit ps bg _ _ node nd k ck Hps (inv_tree _ _ Hinv1) E Hk Hl Ha c cd).
Qed.

(** Past a child whose whole segment matches. *)
Lemma longest_past s s1 u0 k (cd : TreeNode) m :
  tidy s s1 → (key_len (key cd) ≤ key_len k)%nat → units (key cd) = take (key_len (key cd)) (units k) →
  longest s1 (u0 ++ units (key cd)) (key_drop (key_len (key cd)) k) m → longest s u0 k (key_len (key cd) + m).
Proof.
  intros Htd Hle Hu Hl u v Hp Hc. destruct (Nat.le_gt_cases (length u) (key_len (key cd))) as [?|Hgt]; [lia|].
  destruct Hp as [x Ex]. assert (∃ u', u = units (key cd) ++ u') as [u' ->].
  { exists (drop (key_len (key cd)) u). rewrite <-(take_drop (key_len (key cd)) u) at 1. f_equal.
    rewrite Hu, Ex. rewrite take_app_le by lia. done. }
  rewrite length_app, length_units. specialize (Hl u' v). rewrite <-Nat.add_le_mono_l. apply Hl.
  - exists x. rewrite units_drop by done. rewrite Ex, <-(assoc_L (++)). rewrite <-(length_units (key cd)). by rewrite drop_app_length.
  - apply (td_content _ _ Htd). by rewrite <-(assoc_L (++)).
Qed.

(** ** The loops *)

Lemma full_match s c t k node s1 cd nd pl :
  visit s c t k node s1 cd nd pl → (key_len (key cd) ≤ pl)%nat →
  pl = key_len (key cd) ∧ (key_len (key cd) ≤ key_len k)%nat ∧ units (key cd) = take (key_len (key cd)) (units k).
Proof.
  intros [_ _ _ _ _ [L1 L2] _ _ Hun] Hle. assert (pl = key_len (key cd)) as -> by lia. split_and!; [done..|].
  rewrite <-Hun. rewrite <-length_units. by rewrite firstn_all.
Qed.

Lemma match_loop_ok fuel s hs node k ck t acc u0 v0 :
  (0 < ps)%nat → inv s hs → walk_key k ck → (key_len k < fuel)%nat → path s u0 v0 node →
  ∃ vals q s' m, match_loop cfg ticks fuel node k ck t acc s = (Ok (acc ++ vals, q), s') ∧ tidy s s' ∧
    (m ≤ key_len k)%nat ∧ path s' (u0 ++ take m (units k)) (v0 ++ concat vals) q ∧ longest s u0 k m.
Proof.
  intros Hps. revert s node k ck acc u0 v0. induction fuel as [|fuel IH]; intros s node k ck acc u0 v0 Hinv Hwk Hf Hp; [lia|].
  destruct (path_node _ _ _ _ _ Hinv Hp) as [nd E]. simpl. rewrite (bind_Ok _ _ s nd s) by (by apply node_of_ok).
  assert (Hstop : longest s u0 k 0 → ∃ vals q s' m, (mret (acc, node) : M Cache _) s = (Ok (acc ++ vals, q), s') ∧ tidy s s' ∧
    (m ≤ key_len k)%nat ∧ path s' (u0 ++ take m (units k)) (v0 ++ concat vals) q ∧ longest s u0 k m).
  { intros Hlo. exists [], node, s, 0%nat. rewrite !take_0, !app_nil_r. split_and!; try done. lia. }
  destruct (Nat.ltb_spec 0 (key_len k)) as [Hl|Hl]; [|apply Hstop, longest_empty; lia].
  destruct (children nd !! ck) as [c|] eqn:Ec; [|by eapply Hstop, longest_none].
  destruct (visit_ok s hs node nd c k ck t Hps Hinv E Ec Hwk Hl) as (cd & nd1 & pl & Hv & Ec1).
  set (s1 := set_nodes (alter (set_access_time t) c) s) in *. rewrite (bind_Ok _ _ s tt s1) by done.
  rewrite (bind_Ok _ _ s1 cd s1) by (by apply node_of_ok, (vs_child _ _ _ _ _ _ _ _ _ Hv)).
  rewrite (bind_Ok _ _ s1 pl s1) by (unfold lift_res; by rewrite (vs_match _ _ _ _ _ _ _ _ _ Hv)).
  pose proof Hv as [Htd E1 Ecd Hm Hpg [L1 L2] Hdv Hcm Hun]. pose proof (td_inv _ _ Htd hs Hinv) as Hinv1.
  pose proof (td_path _ _ Htd _ _ _ Hp) as Hp1.
  destruct (Nat.ltb_spec pl (key_len (key cd))) as [Hlt|Hge].
  - destruct (split_node_ok s1 hs c node cd nd1 ck pl Hps Hinv1 Ecd E1 Ec1) as (s2 & new & nn & Es & Htd2 & En & Hvn & Hpath); [lia|done|].
    rewrite (bind_Ok _ _ s1 new s2) by exact Es. rewrite (bind_Ok _ _ s2 nn s2) by (by apply node_of_ok).
    exists [value nn], new, s2, pl. split_and!; [done|by etrans|done| |by eapply longest_partial].
    simpl. rewrite app_nil_r, Hvn, <-Hun. by apply Hpath.
  - destruct (full_match _ _ _ _ _ _ _ _ _ Hv Hge) as (-> & Hle & Hu).
    destruct (walk_rest k ck _ Hps Hwk Hle Hdv) as (ck' & Eck & Hwk'). rewrite (bind_Ok _ _ s1 ck' s1) by apply Eck.
    destruct (IH s1 c (key_drop (key_len (key cd)) k) ck' (acc ++ [value cd]) (u0 ++ units (key cd)) (v0 ++ value cd))
      as (vals & q & s2 & m & Er & Htd2 & Hmk & Hp2 & Hlo); [done|done|rewrite key_len_drop by done; lia| |].
    { eapply down_app; [exact Hp1|]. by eapply down_child. }
    exists (value cd :: vals), q, s2, (key_len (key cd) + m)%nat. rewrite key_len_drop in Hmk by done. split_and!.
    + rewrite Er. by rewrite <-(assoc_L (++)).
    + by etrans.
    + lia.
    + rewrite units_drop in Hp2 by done. rewrite <-!(assoc_L (++)) in Hp2. simpl.
      replace (take (key_len (key cd) + m) (units k)) with (units (key cd) ++ take m (drop (key_len (key cd)) (units k))); [done|].
      rewrite Hu at 1. by rewrite take_take_drop.
    + by apply (longest_past s s1).
Qed.

(** Where the insertion loop stops: at the node the longest cached prefix leads to, with the
    rest of the key, which leads to no child. *)
Record insert_stop s u0 v0 k s' (node : nat) (k' : RadixKey) (ck' : ChildKey) (m : nat) : Prop := mk_stop {
  st_tidy : tidy s s';
  st_le : (m ≤ key_len k)%nat;
  st_div : Nat.divide ps m;
  st_path : ∃ w, path s' (u0 ++ take m (units k)) (v0 ++ w) node;
  st_key : walk_key k' ck';
  st_len : key_len k' = (key_len k - m)%nat;
  st_units : units k' = drop m (units k);
  st_node : ∃ nd, nodes s' !! node = Some nd ∧ ((0 < key_len k')%nat → children nd !! ck' = None);
  st_longest : longest s u0 k m;
}.

Lemma insert_stop_here s hs node nd k ck u0 v0 :
  (0 < ps)%nat → inv s hs → walk_key k ck → path s u0 v0 node → nodes s !! node = Some nd →
  ((0 < key_len k)%nat → children nd !! ck = None) → insert_stop s u0 v0 k s node k ck 0.
Proof.
  intros Hps Hinv Hwk Hp E Hno. split; [done|lia|apply Nat.divide_0_r| |done|lia|done|eauto|].
  - exists []. by rewrite take_0, !app_nil_r.
  - destruct (Nat.lt_ge_cases 0 (key_len k)) as [Hl|Hl]; [eapply longest_none; eauto|apply longest_empty; lia].
Qed.

(** One step: the pages shared with the child, and a stop below the node they end in. *)
Lemma insert_stop_past s hs c t k ck node s1 cd nd pl s2 node2 s3 k' ck' m u0 v0 :
  (0 < ps)%nat → inv s hs → path s u0 v0 node → visit s c t k node s1 cd nd pl → children nd !! ck = Some c →
  walk_key k ck → (0 < key_len k)%nat → tidy s1 s2 →
  insert_stop s2 (u0 ++ take pl (units k)) (v0 ++ take pl (value cd)) (key_drop pl k) s3 node2 k' ck' m →
  insert_stop s u0 v0 k s3 node2 k' ck' (pl + m).
Proof.
  intros Hps Hinv Hp Hv Ec Hwk Hl Htd2 [Htd3 Hmk Hmd [w Hp3] Hwk2 Hlk Huk Hnd Hlo].
  pose proof Hv as [Htd E1 Ecd Hm Hpg [L1 L2] Hdv Hcm Hun].
  rewrite key_len_drop in Hmk, Hlk by done. rewrite units_drop in Huk, Hp3 by done.
  assert (Htd02 : tidy s s2) by (by etrans). split; try done.
  - by etrans.
  - lia.
  - by apply Nat.divide_add_r.
  - exists (take pl (value cd) ++ w). rewrite <-!(assoc_L (++)) in Hp3. by rewrite take_take_drop in Hp3.
  - rewrite Hlk. lia.
  - by rewrite Huk, drop_drop.
  - destruct (Nat.lt_ge_cases pl (key_len (key cd))) as [Hlt|Hge].
    + intros u w' Hu Hc. pose proof (longest_partial s hs u0 v0 node c k ck t s1 cd nd pl Hps Hinv Hp Hv Ec Hwk Hl Hlt u w' Hu Hc). lia.
    + destruct (full_match _ _ _ _ _ _ _ _ _ Hv Hge) as (-> & Hle & Hu). apply (longest_past s s2); [done..|]. by rewrite Hu.
Qed.

(** The node at the end of the pages shared with the child, split off where needed. *)
Lemma reach_node s hs c t k ck node s1 cd nd pl u0 v0 :
  (0 < ps)%nat → inv s hs → path s u0 v0 node → visit s c t k node s1 cd nd pl → children nd !! ck = Some c →
  ∃ node' s2, (if (pl <? key_len (key cd))%nat then split_node cfg ticks c pl else (mret c : M Cache nat)) s1 = (Ok node', s2) ∧
    tidy s1 s2 ∧ path s2 (u0 ++ take pl (units k)) (v0 ++ take pl (value cd)) node'.
Proof.
  intros Hps Hinv Hp Hv Ec. pose proof Hv as [Htd E1 Ecd Hm Hpg [L1 L2] Hdv Hcm Hun].
  pose proof (td_inv _ _ Htd hs Hinv) as Hinv1. pose proof (td_path _ _ Htd _ _ _ Hp) as Hp1.
  destruct (Nat.ltb_spec pl (key_len (key cd))) as [Hlt|Hge].
  - destruct (split_node_ok s1 hs c node cd nd ck pl Hps Hinv1 Ecd E1 Ec) as (s2 & new & nn & Es & Htd2 & En & Hvn & Hpath); [lia|done|].
    exists new, s2. split_and!; [done..|]. rewrite <-Hun. by apply Hpath.
  - destruct (full_match _ _ _ _ _ _ _ _ _ Hv Hge) as (-> & Hle & Hu). exists c, s1. split_and!; [done..|].
    destruct (child_facts ps bg _ _ _ _ _ _ _ (inv_tree _ _ Hinv1) E1 Ec Ecd) as (_ & _ & _ & _ & _ & _ & Hlv).
    rewrite <-Hlv, firstn_all, Hlv, <-Hu. eapply down_app; [exact Hp1|]. by eapply down_child.
Qed.

Lemma inc_hit_count_ok s n chunked : ∃ s', inc_hit_count n chunked s = (Ok tt, s') ∧ tidy s s'.
Proof. unfold inc_hit_count. destruct chunked; [by exists s|]. eexists. split; [done|]. by apply tidy_light. Qed.

Lemma insert_loop_ok fuel s hs node k ck v total t prio chunked u0 v0 :
  (0 < ps)%nat → inv s hs → walk_key k ck → (key_len k < fuel)%nat → path s u0 v0 node →
  ∃ node' k' ck' m s', insert_loop cfg ticks fuel node k ck v total t prio chunked s =
      (Ok (node', k', ck', drop m v, (total + m)%nat), s') ∧ insert_stop s u0 v0 k s' node' k' ck' m.
Proof.
  intros Hps. revert s node k ck v total u0 v0. induction fuel as [|fuel IH]; intros s node k ck v total u0 v0 Hinv Hwk Hf Hp; [lia|].
  destruct (path_node _ _ _ _ _ Hinv Hp) as [nd E]. simpl. rewrite (bind_Ok _ _ s nd s) by (by apply node_of_ok).
  destruct (if (0 <? key_len k)%nat then children nd !! ck else None) as [c|] eqn:Ec; cycle 1.
  { exists node, k, ck, 0%nat, s. rewrite drop_0, Nat.add_0_r. split; [done|]. eapply insert_stop_here; eauto.
    intros Hl. by rewrite (proj2 (Nat.ltb_lt _ _) Hl) in Ec. }
  destruct (Nat.ltb_spec 0 (key_len k)) as [Hl|Hl]; [|done].
  destruct (visit_ok s hs node nd c k ck t Hps Hinv E Ec Hwk Hl) as (cd & nd1 & pl & Hv & Ec1).
  set (s1 := set_nodes (alter (set_access_time t) c) s) in *. rewrite (bind_Ok _ _ s tt s1) by done.
  rewrite (bind_Ok _ _ s1 cd s1) by (by apply node_of_ok, (vs_child _ _ _ _ _ _ _ _ _ Hv)).
  rewrite (bind_Ok _ _ s1 pl s1) by (unfold lift_res; by rewrite (vs_match _ _ _ _ _ _ _ _ _ Hv)).
  destruct (reach_node s hs c t k ck node s1 cd nd1 pl u0 v0 Hps Hinv Hp Hv Ec1) as (node' & s2 & Es & Htd2 & Hp2).
  rewrite (bind_Ok _ _ s1 node' s2) by exact Es. pose proof Hv as [Htd _ _ _ Hpg [_ L2] Hdv _ _].
  set (s3 := set_nodes (alter (set_priority (Z.max prio)) node') s2). rewrite (bind_Ok _ _ s2 tt s3) by done.
  assert (Htd3 : tidy s2 s3) by (by apply tidy_light).
  destruct (inc_hit_count_ok s3 node' chunked) as (s4 & Eh & Htd4). rewrite (bind_Ok _ _ s3 tt s4) by done.
  assert (Htd14 : tidy s1 s4) by (etrans; [exact Htd2|]; by etrans).
  destruct (walk_rest k ck pl Hps Hwk L2 Hdv) as (ck' & Eck & Hwk'). rewrite (bind_Ok _ _ s4 ck' s4) by apply Eck.
  destruct (IH s4 node' (key_drop pl k) ck' (drop pl v) (total + pl)%nat (u0 ++ take pl (units k)) (v0 ++ take pl (value cd)))
    as (node2 & k2 & ck2 & m & s5 & Er & Hst);
    [by apply (td_inv _ _ Htd14), (td_inv _ _ Htd)|done|rewrite key_len_drop by done; lia|by apply (td_path _ _ Htd4), (td_path _ _ Htd3)|].
  exists node2, k2, ck2, (pl + m)%nat, s5. split; [rewrite Er; by rewrite drop_drop, Nat.add_assoc|].
  by eapply insert_stop_past.
Qed.
End Ops.
