(* ===== verification/RadixLocks.v ===== *)
(** * Reference counts and eviction

    [inc_lock_ref] and [dec_lock_ref] walk from a node to the root: they return, change only
    reference counts, move the segments of the path between the evictable and the protected
    part, and add or take away one locked path of the invariant. [evict] takes unlocked leaves
    from its heap as long as there are any. *)

From stdpp Require Import gmultiset.
From S2P Require Import Prelude RadixKey RadixCache RadixFacts RadixInv RadixOps RadixSplit.
Local Open Scope Z_scope.

Section Locks.
Context (cfg : CacheConfig).
Local Abbreviation ps := (page_size cfg).
Local Abbreviation bg := (is_eagle cfg).
Local Abbreviation inv := (inv cfg).
Implicit Types (s : Cache) (hs : list nat) (n c p : nat) (l : list nat) (ls : list (list nat)).

(** The invariant with the locked paths listed. *)
Definition sparts s ls : Prop :=
  parts ps bg (root_node s) (nodes s) (node_counter s) (evictable_size_ s) (protected_size_ s) (evictable_leaves s) ls.

(** Changes to reference counts only: nothing is freed, the total size stays. *)
Record relock s s' : Prop := mk_relock {
  rl_root : root_node s' = root_node s;
  rl_freed : free_calls s' = free_calls s;
  rl_indices : indices (nodes s') = indices (nodes s);
  rl_tree : same_tree (nodes s) (nodes s');
  rl_total : evictable_size_ s' + protected_size_ s' = evictable_size_ s + protected_size_ s;
}.

Lemma relock_trans s1 s2 s3 : relock s1 s2 → relock s2 s3 → relock s1 s3.
Proof.
  intros [R1 F1 I1 T1 Z1] [R2 F2 I2 T2 Z2]. split; [congruence..|by eapply same_tree_trans|lia].
Qed.

Lemma relock_content s s' u v : relock s s' → content cfg s' u v ↔ content cfg s u v.
Proof.
  intros [R F _ T _]. pose proof (same_tree_sym _ _ T) as T'. unfold content, holds. rewrite R.
  assert (Hd : ∀ m u v q, down (nodes s') m u v q ↔ down (nodes s) m u v q) by (intros; split; by apply down_same).
  by setoid_rewrite Hd.
Qed.

Lemma parts_holders r H cnt ev pr lv ls ls' :
  (∀ n, holders ls' n = holders ls n) → (∀ l n, l ∈ ls' → n ∈ l → ∃ l', l' ∈ ls ∧ n ∈ l') →
  parts ps bg r H cnt ev pr lv ls → parts ps bg r H cnt ev pr lv ls'.
Proof.
  intros Hh Hm [? ? ? Hmem Hl ? ? ?]. split; try done.
  - intros l n Hl' Hn. destruct (Hm l n Hl' Hn) as (l' & ? & ?). eauto.
  - intros n nd E Hn. rewrite Hh. eauto.
Qed.

Lemma update_leaf_status_ok s n nd :
  nodes s !! n = Some nd → update_leaf_status n s = (Ok tt, set_leaves (leaf_status n nd) s).
Proof.
  intros E. unfold update_leaf_status. rewrite (bind_Ok _ _ s nd s) by (by apply node_of_ok). unfold leaf_status.
  by destruct ((0 <? lock_ref nd) || negb (bool_decide (children nd = ∅))).
Qed.

(** One node of the walk, with [d] added to its count. *)
Definition lock_step (d : Z) n nd s : Cache :=
  let nd' := set_lock_ref (λ x, x + d) nd in
  mk_cache (alter (set_lock_ref (λ x, x + d)) n (nodes s)) (node_counter s) (root_node s)
    (evictable_size_ s - evictable_of (root_node s) n nd + evictable_of (root_node s) n nd')
    (protected_size_ s - protected_of (root_node s) n nd + protected_of (root_node s) n nd')
    (leaf_status n nd' (evictable_leaves s)) (clock_reads s) (free_calls s).

Lemma lock_step_relock d n nd s : n ≠ root_node s → relock s (lock_step d n nd s).
Proof.
  intros Hn. split; try done.
  - by apply indices_light.
  - by apply alter_same.
  - simpl. unfold evictable_of, protected_of. rewrite (proj2 (Nat.eqb_neq n (root_node s))) by done. simpl.
    destruct (0 <? lock_ref nd), (0 <? lock_ref nd + d); simpl; lia.
Qed.

Lemma lock_step_parts d n nd s ls ls' :
  sparts s ls → nodes s !! n = Some nd → n ≠ root_node s →
  (∀ l m, l ∈ ls' → m ∈ l → m ≠ root_node s ∧ is_Some (nodes s !! m)) →
  (∀ m, m ≠ n → holders ls' m = holders ls m) → Z.of_nat (holders ls' n) = lock_ref nd + d →
  sparts (lock_step d n nd s) ls'.
Proof. intros. by eapply parts_set_lock. Qed.

(** The body of the two loops. *)
Lemma inc_step s n nd p (f : nat → M Cache Z) :
  nodes s !! n = Some nd → n ≠ root_node s → 0 ≤ lock_ref nd → parent nd = Some p →
  let len := Z.of_nat (key_len (key nd)) in
  (when (lock_ref nd =? 0) (modify (λ s, set_protected_size (λ z, z + len) (set_evictable_size (λ z, z - len) s))) ≫= λ _,
   put_node n (set_lock_ref (λ x, x + 1)) ≫= λ _, update_leaf_status n ≫= λ _,
   p ← lift_res (match parent nd with Some p => Ok p | None => Raise AttributeError end); f p) s =
  f p (lock_step 1 n nd s).
Proof.
  intros E Hn Hl Hp len. unfold lock_step, evictable_of, protected_of. rewrite (proj2 (Nat.eqb_neq n (root_node s))), Hp by done.
  simpl. rewrite (proj2 (Z.ltb_lt 0 (lock_ref nd + 1))) by lia. simpl.
  assert (Hrun : ∀ s0, nodes s0 = nodes s →
    (put_node n (set_lock_ref (λ x, x + 1)) ≫= λ _, update_leaf_status n ≫= λ _, p ← lift_res (Ok p); f p) s0 =
    f p (set_leaves (leaf_status n (set_lock_ref (λ x, x + 1) nd)) (set_nodes (alter (set_lock_ref (λ x, x + 1)) n) s0))).
  { intros s0 E0. rewrite (bind_Ok _ _ s0 tt (set_nodes (alter (set_lock_ref (λ x, x + 1)) n) s0)) by done.
    erewrite bind_Ok; [|apply update_leaf_status_ok; simpl; by rewrite E0, lookup_alter_eq, E]. done. }
  destruct (Z.eqb_spec (lock_ref nd) 0) as [E0|E0].
  - rewrite (bind_Ok _ _ s tt (set_protected_size (λ z, z + len) (set_evictable_size (λ z, z - len) s))) by done.
    rewrite Hrun by done. f_equal. rewrite E0. simpl. unfold set_leaves, set_nodes, set_protected_size, set_evictable_size. simpl.
    f_equal; lia.
  - rewrite (bind_Ok _ _ s tt s) by done. rewrite Hrun by done. f_equal. rewrite (proj2 (Z.ltb_lt 0 (lock_ref nd))) by lia. simpl.
    unfold set_leaves, set_nodes. simpl. f_equal; lia.
Qed.

Lemma dec_step s n nd p (f : nat → M Cache Z) :
  nodes s !! n = Some nd → n ≠ root_node s → 0 < lock_ref nd → parent nd = Some p →
  let len := Z.of_nat (key_len (key nd)) in
  (when (lock_ref nd =? 1) (modify (λ s, set_protected_size (λ z, z - len) (set_evictable_size (λ z, z + len) s))) ≫= λ _,
   put_node n (set_lock_ref (λ x, x - 1)) ≫= λ _, update_leaf_status n ≫= λ _,
   p ← lift_res (match parent nd with Some p => Ok p | None => Raise AssertionError end); f p) s =
  f p (lock_step (-1) n nd s).
Proof.
  intros E Hn Hl Hp len. unfold lock_step, evictable_of, protected_of. rewrite (proj2 (Nat.eqb_neq n (root_node s))), Hp by done.
  simpl. rewrite (proj2 (Z.ltb_lt 0 (lock_ref nd))) by lia. simpl.
  assert (Hrun : ∀ s0, nodes s0 = nodes s →
    (put_node n (set_lock_ref (λ x, x - 1)) ≫= λ _, update_leaf_status n ≫= λ _, p ← lift_res (Ok p); f p) s0 =
    f p (set_leaves (leaf_status n (set_lock_ref (λ x, x + -1) nd)) (set_nodes (alter (set_lock_ref (λ x, x + -1)) n) s0))).
  { intros s0 E0. rewrite (bind_Ok _ _ s0 tt (set_nodes (alter (set_lock_ref (λ x, x + -1)) n) s0)) by done.
    erewrite bind_Ok; [|apply update_leaf_status_ok; simpl; by rewrite E0, lookup_alter_eq, E]. done. }
  destruct (Z.eqb_spec (lock_ref nd) 1) as [E0|E0].
  - rewrite (bind_Ok _ _ s tt (set_protected_size (λ z, z - len) (set_evictable_size (λ z, z + len) s))) by done.
    rewrite Hrun by done. f_equal. rewrite E0. simpl. unfold set_leaves, set_nodes, set_protected_size, set_evictable_size. simpl.
    f_equal; lia.
  - rewrite (bind_Ok _ _ s tt s) by done. rewrite Hrun by done. f_equal. rewrite (proj2 (Z.ltb_lt 0 (lock_ref nd + -1))) by lia. simpl.
    unfold set_leaves, set_nodes. simpl. f_equal; lia.
Qed.

(** ** The walks *)

Lemma chain_step s n l : chain (root_node s) (nodes s) n l → n ≠ root_node s →
  ∃ nd p l', nodes s !! n = Some nd ∧ parent nd = Some p ∧ l = n :: l' ∧ chain (root_node s) (nodes s) p l' ∧ n ∉ l'.
Proof.
  intros Hc Hn. pose proof (chain_nodup _ _ _ _ Hc) as Hd. destruct Hc as [|n nd p l _ E Hp Hc]; [done|].
  apply NoDup_cons in Hd as [Hni _]. eauto 10.
Qed.

Lemma inc_lock_loop_ok fuel s n l l1 ls δ :
  chain (root_node s) (nodes s) n l → (length l ≤ fuel)%nat → sparts s (l1 :: ls) → (∀ m, m ∈ l → m ∉ l1) →
  ∃ s', inc_lock_loop fuel n δ s = (Ok (δ + (evictable_size_ s' - evictable_size_ s)), s') ∧ relock s s' ∧
    sparts s' ((rev l ++ l1) :: ls).
Proof.
  revert s n l l1 δ. induction fuel as [|fuel IH]; intros s n l l1 δ Hc Hf Hi Hdis.
  all: destruct (decide (n = root_node s)) as [->|Hn].
  1,3: assert (l = []) as -> by (by inversion Hc); exists s; simpl; unfold gets, mbind, M_bind; rewrite Nat.eqb_refl;
    split; [unfold mret, M_ret; do 2 f_equal; lia|by split; [split; try done; apply same_tree_refl|]].
  - destruct (chain_step s n l Hc Hn) as (? & ? & ? & _ & _ & -> & _). simpl in Hf. lia.
  - destruct (chain_step s n l Hc Hn) as (nd & p & l' & E & Hp & -> & Hc' & Hnl).
    pose proof (parts_nonneg ps bg _ _ _ _ _ _ _ _ _ Hi E) as Hl0.
    simpl inc_lock_loop. rewrite (bind_Ok _ _ s (root_node s) s) by done. rewrite (proj2 (Nat.eqb_neq _ _) Hn).
    rewrite (bind_Ok _ _ s nd s) by (by apply node_of_ok). rewrite (inc_step s n nd p _ E Hn Hl0 Hp).
    assert (Hn1 : n ∉ l1) by (apply Hdis; set_solver).
    assert (Hi1 : sparts (lock_step 1 n nd s) ((n :: l1) :: ls)).
    { eapply lock_step_parts; [exact Hi|done..| | |].
      - intros l0 m [->|Hl]%elem_of_cons Hm; [|apply (p_members _ _ _ _ _ _ _ _ _ Hi l0); [by right|done]].
        apply elem_of_cons in Hm as [->|Hm]; [split; [done|eauto]|]. apply (p_members _ _ _ _ _ _ _ _ _ Hi l1); [by left|done].
      - intros m Hm. rewrite holders_more by done. by rewrite decide_False.
      - rewrite holders_more, decide_True by done. rewrite (p_locks _ _ _ _ _ _ _ _ _ Hi n nd E Hn). lia. }
    pose proof (lock_step_relock 1 n nd s Hn) as Hr.
    destruct (IH (lock_step 1 n nd s) p l' (n :: l1) (if lock_ref nd =? 0 then δ - key_len (key nd) else δ)) as (s' & Er & Hr' & Hi').
    + eapply chain_same; [apply Hr|]. done.
    + simpl in Hf. lia.
    + done.
    + intros m Hm. apply not_elem_of_cons. split; [by intros ->|]. apply Hdis. by right.
    + exists s'. split_and!; [|by eapply relock_trans|change (rev (n :: l')) with (rev l' ++ [n]); by rewrite <-(assoc_L (++))].
      rewrite Er. do 2 f_equal. simpl. unfold evictable_of. rewrite (proj2 (Nat.eqb_neq n (root_node s))) by done. simpl.
      rewrite (proj2 (Z.ltb_lt 0 (lock_ref nd + 1))) by lia.
      destruct (Z.eqb_spec (lock_ref nd) 0), (Z.ltb_spec 0 (lock_ref nd)); lia.
Qed.

Lemma dec_lock_loop_ok fuel s n l ls δ :
  chain (root_node s) (nodes s) n l → (length l ≤ fuel)%nat → sparts s (l :: ls) →
  ∃ s', dec_lock_loop fuel n δ s = (Ok (δ + (evictable_size_ s' - evictable_size_ s)), s') ∧ relock s s' ∧ sparts s' ([] :: ls).
Proof.
  revert s n l δ. induction fuel as [|fuel IH]; intros s n l δ Hc Hf Hi.
  all: destruct (decide (n = root_node s)) as [->|Hn].
  1,3: assert (l = []) as -> by (by inversion Hc); exists s; simpl; unfold gets, mbind, M_bind; rewrite Nat.eqb_refl;
    split; [unfold mret, M_ret; do 2 f_equal; lia|by split; [split; try done; apply same_tree_refl|]].
  - destruct (chain_step s n l Hc Hn) as (? & ? & ? & _ & _ & -> & _). simpl in Hf. lia.
  - destruct (chain_step s n l Hc Hn) as (nd & p & l' & E & Hp & -> & Hc' & Hnl).
    assert (Hlk : lock_ref nd = 1 + Z.of_nat (holders (l' :: ls) n)).
    { rewrite (p_locks _ _ _ _ _ _ _ _ _ Hi n nd E Hn), holders_more, decide_True by done. lia. }
    simpl dec_lock_loop. rewrite (bind_Ok _ _ s (root_node s) s) by done. rewrite (proj2 (Nat.eqb_neq _ _) Hn).
    rewrite (bind_Ok _ _ s nd s) by (by apply node_of_ok). rewrite (dec_step s n nd p _ E Hn ltac:(lia) Hp).
    assert (Hi1 : sparts (lock_step (-1) n nd s) (l' :: ls)).
    { eapply lock_step_parts; [exact Hi|done..| | |lia].
      - intros l0 m [->|Hl]%elem_of_cons Hm; [|apply (p_members _ _ _ _ _ _ _ _ _ Hi l0); [by right|done]].
        apply (p_members _ _ _ _ _ _ _ _ _ Hi (n :: l')); [by left|by right].
      - intros m Hm. by rewrite (holders_more l'), decide_False by done. }
    pose proof (lock_step_relock (-1) n nd s Hn) as Hr.
    destruct (IH (lock_step (-1) n nd s) p l' (if lock_ref nd =? 1 then δ + key_len (key nd) else δ)) as (s' & Er & Hr' & Hi').
    + eapply chain_same; [apply Hr|]. done.
    + simpl in Hf. lia.
    + done.
    + exists s'. split_and!; [|by eapply relock_trans|done].
      rewrite Er. do 2 f_equal. simpl. unfold evictable_of. rewrite (proj2 (Nat.eqb_neq n (root_node s))) by done. simpl.
      rewrite (proj2 (Z.ltb_lt 0 (lock_ref nd))) by lia.
      destruct (Z.eqb_spec (lock_ref nd) 1), (Z.ltb_spec 0 (lock_ref nd + -1)); lia.
Qed.

(** ** The operations *)

Lemma relock_chains s s' hs ls :
  relock s s' → Forall2 (chain (root_node s) (nodes s)) hs ls → Forall2 (chain (root_node s') (nodes s')) hs ls.
Proof. intros [R _ _ T _] Hc. eapply Forall2_impl; [exact Hc|]. intros m l. rewrite R. by apply chain_same. Qed.

Lemma elem_of_rev (m : nat) l : m ∈ rev l ↔ m ∈ l.
Proof. by rewrite !list_elem_of_In, <-in_rev. Qed.

Lemma inc_lock_ref_ok s hs n :
  disable cfg = false → inv s hs → is_Some (nodes s !! n) →
  ∃ s', inc_lock_ref cfg n s = (Ok (evictable_size_ s' - evictable_size_ s), s') ∧ relock s s' ∧ inv s' (n :: hs).
Proof.
  intros Hd (ls & Hc & Hi) [nd E]. destruct (t_chain _ _ _ _ (p_tree _ _ _ _ _ _ _ _ _ Hi) n nd E) as [l Hl].
  pose proof (chain_size _ _ _ _ Hl) as Hsz.
  assert (Hi0 : sparts s ([] :: ls)).
  { eapply parts_holders; [| |exact Hi]; [intros m; by rewrite holders_cons|]. intros l0 m [->|?]%elem_of_cons; set_solver. }
  destruct (inc_lock_loop_ok (size (nodes s)) s n l [] ls 0 Hl Hsz Hi0) as (s' & Er & Hr & Hi'); [set_solver|].
  exists s'. split_and!; [|done|].
  - unfold inc_lock_ref. rewrite Hd. rewrite (bind_Ok _ _ s (size (nodes s)) s) by done. by rewrite Er.
  - exists (l :: ls). split; [constructor; [|by eapply relock_chains]|].
    + rewrite (rl_root _ _ Hr). by eapply chain_same; [apply Hr|].
    + eapply parts_holders; [| |exact Hi']; rewrite app_nil_r.
      * intros m. apply holders_ext. constructor; [by rewrite elem_of_rev|].
        apply Forall_Forall2_diag, Forall_true. done.
      * intros l0 m [->|?]%elem_of_cons Hm; [|set_solver]. exists (rev l). split; [by left|].
        by rewrite elem_of_rev.
Qed.

Lemma dec_lock_ref_ok s hs n :
  disable cfg = false → inv s (n :: hs) →
  ∃ s', dec_lock_ref cfg n s = (Ok (evictable_size_ s' - evictable_size_ s), s') ∧ relock s s' ∧ inv s' hs.
Proof.
  intros Hd (ls0 & Hc & Hi). apply Forall2_cons_inv_l in Hc as (l & ls & Hl & Hc & ->).
  destruct (dec_lock_loop_ok (size (nodes s)) s n l ls 0 Hl (chain_size _ _ _ _ Hl) Hi) as (s' & Er & Hr & Hi').
  exists s'. split_and!; [|done|].
  - unfold dec_lock_ref. rewrite Hd. rewrite (bind_Ok _ _ s (size (nodes s)) s) by done. by rewrite Er.
  - exists ls. split; [by eapply relock_chains|]. eapply parts_holders; [| |exact Hi'].
    + intros m. by rewrite holders_cons.
    + intros l0 m ? ?. exists l0. split; [by right|done].
Qed.
End Locks.

(** ** Eviction

    [evict] pops leaves off a heap until enough tokens are freed. It is shown to be a
    sequence of abstract evictions, each of an unlocked leaf that is minimal for the
    eviction strategy, and to stop early only when nothing evictable is left. *)

(** ** The heap *)

Lemma rank_lt_spec a1 b1 c1 a2 b2 c2 :
  rank_lt (a1, b1, c1) (a2, b2, c2) = true ↔ a1 < a2 ∨ a1 = a2 ∧ (b1 < b2 ∨ b1 = b2 ∧ c1 < c2).
Proof. unfold rank_lt. rewrite !orb_true_iff, !andb_true_iff, !orb_true_iff, !andb_true_iff, !Z.ltb_lt, !Z.eqb_eq. lia. Qed.

(** No smaller: a total preorder. *)
Lemma rank_ge_trans r1 r2 r3 : rank_lt r2 r1 = false → rank_lt r3 r2 = false → rank_lt r3 r1 = false.
Proof.
  destruct r1 as [[a1 b1] c1], r2 as [[a2 b2] c2], r3 as [[a3 b3] c3]. rewrite <-!not_true_iff_false, !rank_lt_spec. lia.
Qed.
Lemma rank_lt_ge r1 r2 : rank_lt r1 r2 = true → rank_lt r2 r1 = false.
Proof. destruct r1 as [[a1 b1] c1], r2 as [[a2 b2] c2]. rewrite <-not_true_iff_false, !rank_lt_spec. lia. Qed.
Lemma rank_ge_refl r : rank_lt r r = false.
Proof. destruct r as [[a b] c]. rewrite <-not_true_iff_false, rank_lt_spec. lia. Qed.

(** The popped entry is minimal, and the others stay. *)
Lemma select_min_spec e l :
  (select_min e l).1 :: (select_min e l).2 ≡ₚ e :: l ∧
  ∀ x, x ∈ e :: l → rank_lt x.1 ((select_min e l).1).1 = false.
Proof.
  revert e. induction l as [|x l IH]; intros e; simpl.
  { split; [done|]. intros x ->%list_elem_of_singleton. apply rank_ge_refl. }
  destruct (rank_lt x.1 e.1) eqn:Hlt; simpl.
  - destruct (IH x) as [Hp Hm]. split; [rewrite Permutation_swap, Hp; by constructor|].
    intros y [->|Hy]%elem_of_cons; [|by apply Hm]. eapply rank_ge_trans; [apply Hm; by left|]. by apply rank_lt_ge.
  - destruct (IH e) as [Hp Hm]. split; [rewrite Permutation_swap, Hp; by apply Permutation_swap|].
    intros y [->|[->|Hy]%elem_of_cons]%elem_of_cons; [apply Hm; by left| |apply Hm; by right].
    eapply rank_ge_trans; [apply Hm; by left|done].
Qed.

(** ** Abstract eviction *)

Section Evict.
Context (cfg : CacheConfig).
Local Abbreviation ps := (page_size cfg).
Local Abbreviation bg := (is_eagle cfg).
Local Abbreviation pol := (eviction_policy cfg).
Local Abbreviation inv := (inv cfg).
Local Abbreviation sparts := (sparts cfg).
Implicit Types (s : Cache) (hs : list nat) (n c p x : nat) (H : gmap nat TreeNode) (ls : list (list nat)).

Definition free_leaf H x xd : Prop := H !! x = Some xd ∧ lock_ref xd = 0 ∧ children xd = ∅.

(** Unlocked leaves are removed, at each step one that no other precedes in the order of the
    strategy, and their indices are given back. *)
Inductive evictions : gmap nat TreeNode → list Z → gmap nat TreeNode → Prop :=
  | evictions_nil H : evictions H [] H
  | evictions_cons H x xd p pd ck fr H' :
      free_leaf H x xd → (∀ y yd, free_leaf H y yd → rank_lt (rank_of pol yd) (rank_of pol xd) = false) →
      parent xd = Some p → H !! p = Some pd → child_key ps (key xd) = Ok ck →
      evictions (del_store H p x ck) fr H' → evictions H (value xd ++ fr) H'.

(** ** Something is evictable as long as something is unlocked *)

Lemma parent_unlocked s hs ls n nd c cd ck :
  Forall2 (chain (root_node s) (nodes s)) hs ls → sparts s ls →
  nodes s !! n = Some nd → n ≠ root_node s → children nd !! ck = Some c → nodes s !! c = Some cd → lock_ref nd = 0 → lock_ref cd = 0.
Proof.
  intros Hc Hi E Hn Ec Ecd Hl. destruct (child_facts ps bg _ _ _ _ _ _ _ (p_tree _ _ _ _ _ _ _ _ _ Hi) E Ec Ecd) as (Hcr & Hpc & _).
  rewrite (p_locks _ _ _ _ _ _ _ _ _ Hi n nd E Hn) in Hl. rewrite (p_locks _ _ _ _ _ _ _ _ _ Hi c cd Ecd Hcr).
  assert (holders ls n = 0%nat) as H0 by lia. rewrite holders_zero in H0. apply (f_equal Z.of_nat (y:=0%nat)), holders_zero.
  intros l Hl' Hcl. apply (H0 l Hl'). apply list_elem_of_lookup in Hl' as [i Hi'].
  destruct (Forall2_lookup_r _ _ _ _ _ Hc Hi') as (h & _ & Hch).
  destruct (chain_member _ _ _ _ _ Hch Hcl) as (l1 & l2 & -> & Hc2).
  destruct (chain_step s c l2 Hc2 Hcr) as (cd' & p & l' & E' & Hp' & -> & Hc' & _). simplify_eq.
  destruct (chain_step s n l' Hc' Hn) as (? & ? & ? & _ & _ & -> & _). set_solver.
Qed.

Lemma unlocked_leaf s hs ls n nd :
  Forall2 (chain (root_node s) (nodes s)) hs ls → sparts s ls →
  nodes s !! n = Some nd → n ≠ root_node s → lock_ref nd = 0 → ∃ x xd, free_leaf (nodes s) x xd.
Proof.
  intros Hc Hi E Hn Hl. destruct (t_chain _ _ _ _ (p_tree _ _ _ _ _ _ _ _ _ Hi) n nd E) as [l Hch].
  remember (size (nodes s) - length l)%nat as k eqn:Hk. revert n nd l E Hn Hl Hch Hk.
  induction k as [|k IH]; intros n nd l E Hn Hl Hch Hk;
    (destruct (decide (children nd = ∅)) as [?|Hne]; [by exists n, nd|]);
    apply map_choose in Hne as (ck & c & Ec);
    destruct (t_down _ _ _ _ (p_tree _ _ _ _ _ _ _ _ _ Hi) _ _ _ _ E Ec) as (Hcr & cd & Ecd & Hpc & _);
    pose proof (chain_up _ _ _ _ _ _ Hcr Ecd Hpc Hch) as Hcc; pose proof (chain_size _ _ _ _ Hcc) as Hsz; simpl in Hsz; [lia|].
  eapply (IH c cd (c :: l)); [done..|by apply (parent_unlocked s hs ls n nd c cd ck)|done|simpl; lia].
Qed.

(** With no evictable leaf, the evictable size is zero. *)
Lemma no_leaf_no_size s hs ls :
  Forall2 (chain (root_node s) (nodes s)) hs ls → sparts s ls → evictable_leaves s = ∅ → evictable_size_ s = 0.
Proof.
  intros Hc Hi Hv. rewrite (p_evictable _ _ _ _ _ _ _ _ _ Hi).
  assert (Hz : ∀ n nd, nodes s !! n = Some nd → evictable_of (root_node s) n nd = 0).
  { intros n nd E. unfold evictable_of. destruct (Nat.eqb_spec n (root_node s)) as [|Hn]; [done|]. simpl.
    destruct (Z.ltb_spec 0 (lock_ref nd)) as [|Hl]; [done|]. exfalso.
    pose proof (parts_nonneg ps bg _ _ _ _ _ _ _ _ _ Hi E).
    destruct (unlocked_leaf s hs ls n nd Hc Hi E Hn ltac:(lia)) as (x & xd & Hx).
    assert (x ∈ evictable_leaves s) by (apply (p_leaves _ _ _ _ _ _ _ _ _ Hi); eauto). set_solver. }
  apply Z.le_antisymm; [|apply msum_nonneg; intros n nd E; by rewrite Hz].
  clear -Hz. unfold msum. revert Hz. generalize (nodes s) as H. refine (map_fold_weak_ind
    (λ z H, (∀ n nd, H !! n = Some nd → evictable_of (root_node s) n nd = 0) → z ≤ 0) _ 0 _ _); [done|].
  intros n nd H z E IH Hz. rewrite (Hz n nd) by apply lookup_insert_eq. apply IH. intros m md Em. apply Hz.
  rewrite lookup_insert_ne; congruence.
Qed.

(** ** One eviction *)

Section Step.
Context (s : Cache) (hs : list nat) (ls : list (list nat)) (x : nat) (xd : TreeNode).
Hypotheses (Hps : (0 < ps)%nat) (Hc : Forall2 (chain (root_node s) (nodes s)) hs ls) (Hi : sparts s ls)
  (Hx : free_leaf (nodes s) x xd).

Lemma victim_facts : ∃ p pd ck, x ≠ root_node s ∧ parent xd = Some p ∧ nodes s !! p = Some pd ∧
  child_key ps (key xd) = Ok ck ∧ children pd !! ck = Some x ∧ p ≠ x ∧ length (value xd) = key_len (key xd).
Proof.
  destruct Hx as (E & Hl & Hch). pose proof (parts_leaf_ne ps bg _ _ _ _ _ _ _ _ _ Hi E Hl) as Hxr.
  pose proof (p_tree _ _ _ _ _ _ _ _ _ Hi) as Ht.
  destruct (t_up _ _ _ _ Ht x xd E Hxr) as (p & pd & ck & H1 & H2 & H3 & H4).
  destruct (t_segment _ _ _ _ Ht x xd E Hxr) as (_ & _ & _ & Hlen).
  exists p, pd, ck. split_and!; try done. by apply (del_p_ne ps bg (root_node s) (nodes s) p x pd xd).
Qed.

Definition after_evict (p : nat) (pd : TreeNode) (ck : ChildKey) : Cache :=
  mk_cache (del_store (nodes s) p x ck) (node_counter s) (root_node s) (evictable_size_ s - key_len (key xd)) (protected_size_ s)
    (leaf_status p (set_children (delete ck) pd) (evictable_leaves s ∖ {[x]})) (clock_reads s) (free_calls s ++ [value xd]).

Context (p : nat) (pd : TreeNode) (ck : ChildKey).
Hypotheses (Hxr : x ≠ root_node s) (Hxp : parent xd = Some p) (Ep : nodes s !! p = Some pd)
  (Hck : child_key ps (key xd) = Ok ck) (Hch : children pd !! ck = Some x) (Hpx : p ≠ x).
Local Abbreviation s' := (after_evict p pd ck).

Lemma after_evict_parts : sparts s' ls.
Proof. destruct Hx as (E & Hl & Hcx). by apply (parts_del ps bg (root_node s) (nodes s) _ _ _ _ _ p x pd xd). Qed.

Lemma after_evict_chains : Forall2 (chain (root_node s') (nodes s')) hs ls.
Proof.
  pose proof Hx as (E & Hl & Hcx). apply Forall2_same_length_lookup. split; [by eapply Forall2_length|].
  intros i h l Eh El. pose proof (Forall2_lookup_lr _ _ _ _ _ _ Hc Eh El) as Hhl.
  pose proof (p_tree _ _ _ _ _ _ _ _ _ Hi) as Ht. unfold after_evict. simpl.
  apply (del_chain ps bg (root_node s) (nodes s) p x pd xd ck); try done.
  intros ->. destruct (chain_step s x l Hhl Hxr) as (_ & _ & l' & _ & _ & -> & _).
  rewrite (p_locks _ _ _ _ _ _ _ _ _ Hi x xd E Hxr) in Hl. assert (holders ls x = 0%nat) as H0 by lia.
  rewrite holders_zero in H0. apply (H0 (x :: l')); [by eapply list_elem_of_lookup_2|by left].
Qed.

Lemma evict_step_run (f : TreeNode → nat → TreeNode → M Cache Z) :
  (nd ← node_of x; free (value nd) ≫= λ _, delete_leaf cfg x ≫= λ _,
   p ← lift_res (match parent nd with Some p => Ok p | None => Raise AttributeError end);
   pd ← node_of p; modify (set_nodes (delete x)) ≫= λ _, f nd p pd) s = f xd p (set_children (delete ck) pd) s'.
Proof.
  pose proof Hx as (E & Hl & Hcx). rewrite (bind_Ok _ _ s xd s) by (by apply node_of_ok).
  set (s1 := set_free_calls (λ l, l ++ [value xd]) s). rewrite (bind_Ok _ _ s tt s1) by done.
  set (s2 := mk_cache (alter (set_children (delete ck)) p (nodes s)) (node_counter s) (root_node s)
    (evictable_size_ s - key_len (key xd)) (protected_size_ s)
    (leaf_status p (set_children (delete ck) pd) (evictable_leaves s ∖ {[x]})) (clock_reads s) (free_calls s ++ [value xd])).
  assert (Ep2 : nodes s2 !! p = Some (set_children (delete ck) pd)) by (simpl; by rewrite lookup_alter_eq, Ep).
  assert (Ed : delete_leaf cfg x s1 = (Ok tt, s2)).
  { unfold delete_leaf. rewrite (bind_Ok _ _ s1 xd s1) by (by apply node_of_ok).
    rewrite (bind_Ok _ _ s1 ck s1) by (unfold lift_res; by rewrite Hck).
    rewrite (bind_Ok _ _ s1 p s1) by (unfold lift_res; by rewrite Hxp).
    rewrite (bind_Ok _ _ s1 pd s1) by (by apply node_of_ok).
    rewrite (bind_Ok _ _ s1 tt (set_nodes (alter (set_children (delete ck)) p) s1)) by done.
    rewrite bool_decide_true by done. erewrite bind_Ok; [|done]. erewrite bind_Ok; [|done]. erewrite bind_Ok; [|done].
    rewrite (update_leaf_status_ok _ p (set_children (delete ck) pd)) by exact Ep2. done. }
  rewrite (bind_Ok _ _ s1 tt s2) by exact Ed. rewrite (bind_Ok _ _ s2 p s2) by (unfold lift_res; by rewrite Hxp).
  rewrite (bind_Ok _ _ s2 (set_children (delete ck) pd) s2) by (by apply node_of_ok). done.
Qed.

(** The heap entries of the unlocked leaves. *)
Definition heap_ok (t : Cache) (heap : list (Rank * nat)) : Prop :=
  NoDup heap.*2 ∧ ∀ rk n, (rk, n) ∈ heap ↔ ∃ nd, free_leaf (nodes t) n nd ∧ rk = rank_of pol nd.

Lemma after_evict_heap heap heap' rk :
  heap_ok s heap → (rk, x) :: heap' ≡ₚ heap →
  let pd' := set_children (delete ck) pd in
  heap_ok s' (if bool_decide (children pd' = ∅) && (lock_ref pd' =? 0) then (rank_of pol pd', p) :: heap' else heap').
Proof.
  intros [Hnd Hheap] Hperm pd'. pose proof Hx as (E & Hl & Hcx).
  assert (Hap : nodes s' !! p = Some pd') by (simpl; unfold del_store; by rewrite lookup_delete_ne, lookup_alter_eq, Ep by done).
  assert (Hao : ∀ n, n ≠ x → n ≠ p → nodes s' !! n = nodes s !! n) by (by apply del_at_other).
  assert (Hnp : p ∉ heap.*2).
  { intros ((rk' & n) & Hn & Hin)%list_elem_of_fmap. simpl in Hn. subst n. apply Hheap in Hin as (nd & (E' & _ & Hc0) & _).
    simplify_eq. by rewrite Hc0, lookup_empty in Hch. }
  rewrite <-Hperm in Hnp, Hnd. simpl in Hnp, Hnd. apply not_elem_of_cons in Hnp as [_ Hnp]. apply NoDup_cons in Hnd as [Hxh Hnd].
  assert (Hrest : ∀ rk n, (rk, n) ∈ heap' ↔ n ≠ p ∧ ∃ nd, free_leaf (nodes s') n nd ∧ rk = rank_of pol nd).
  { intros rk' n. transitivity (n ≠ x ∧ n ≠ p ∧ ∃ nd, free_leaf (nodes s) n nd ∧ rk' = rank_of pol nd).
    - rewrite <-Hheap, <-Hperm, elem_of_cons. split.
      + intros Hin. assert (n ∈ heap'.*2) by (apply list_elem_of_fmap; by exists (rk', n)). split_and!; [by intros ->|by intros ->|by right].
      + intros (Hnx & _ & [[= _ ->]|Hin]); done.
    - split.
      + intros (Hnx & Hnp' & nd & Hf & ->). split; [done|]. exists nd. unfold free_leaf in *. by rewrite Hao.
      + intros (Hnp' & nd & Hf & ->). assert (n ≠ x) as Hnx.
        { intros ->. destruct Hf as (E' & _). by rewrite (del_at_x (nodes s) p x ck : nodes s' !! x = None) in E'. }
        split_and!; [done..|]. exists nd. unfold free_leaf in *. by rewrite Hao in Hf. }
  destruct (bool_decide (children pd' = ∅) && (lock_ref pd' =? 0)) eqn:Hb.
  - apply andb_true_iff in Hb as [Hb1%bool_decide_eq_true Hb2%Z.eqb_eq]. split; [by constructor|]. intros rk' n. rewrite elem_of_cons, Hrest.
    split.
    + intros [[= -> ->]|[_ ?]]; [|done]. exists pd'. split; [|done]. by split_and!.
    + intros (nd & Hf & ->). destruct (decide (n = p)) as [->|Hne]; [left|right; eauto].
      destruct Hf as (E' & _). rewrite Hap in E'. by simplify_eq.
  - split; [done|]. intros rk' n. rewrite Hrest. split; [tauto|]. intros (nd & Hf & ->). split; [|eauto]. intros ->.
    destruct Hf as (E' & Hl' & Hc'). rewrite Hap in E'. injection E' as <-. rewrite (bool_decide_true _ Hc') in Hb.
    by rewrite Hl' in Hb.
Qed.
End Step.

(** ** The loop *)

Lemma heap_empty s hs ls : Forall2 (chain (root_node s) (nodes s)) hs ls → sparts s ls → heap_ok s [] → evictable_size_ s = 0.
Proof.
  intros Hc Hi [_ Hh]. eapply no_leaf_no_size; [exact Hc|exact Hi|]. apply set_eq. intros n. split; [|set_solver].
  intros (nd & Hf)%(p_leaves _ _ _ _ _ _ _ _ _ Hi). exfalso. apply (not_elem_of_nil (rank_of pol nd, n)), Hh. eauto.
Qed.

Lemma del_store_size H p x xd ck : H !! x = Some xd → p ≠ x → (size (del_store H p x ck) < size H)%nat.
Proof.
  intros E Hne. unfold del_store. rewrite <-!(size_dom (D:=gset nat)), dom_delete_L, dom_alter_L.
  apply subset_size. assert (x ∈ dom H) by (apply elem_of_dom; eauto). set_solver.
Qed.

(** The calls of [free] that gave [fr] back, one per evicted node. *)
Definition gave (s s' : Cache) (fr : list Z) : Prop :=
  ∃ cs, free_calls s' = free_calls s ++ cs ∧ concat cs = fr ∧
    Forall (λ v : list Z, ∃ n nd, nodes s !! n = Some nd ∧ value nd = v) cs.

Lemma gave_freed s s' fr : gave s s' fr → freed s' = freed s ++ fr.
Proof. intros (cs & Hc & <- & _). unfold freed. by rewrite Hc, concat_app. Qed.

Lemma gave_cons s s' x xd p pd ck fr :
  nodes s !! x = Some xd → nodes s !! p = Some pd → p ≠ x →
  gave (after_evict s x xd p pd ck) s' fr → gave s s' (value xd ++ fr).
Proof.
  intros Ex Ep Hne (cs & Hc & <- & Hcs). exists (value xd :: cs). split_and!; [|done|].
  - rewrite Hc. simpl. by rewrite <-app_assoc.
  - constructor; [by exists x, xd|]. eapply Forall_impl; [exact Hcs|]. intros v (n & nd & En & <-). simpl in En.
    unfold del_store in En. apply lookup_delete_Some in En as [Hn En].
    destruct (decide (n = p)) as [->|Hnp]; [|rewrite lookup_alter_ne in En by done; by exists n, nd].
    rewrite lookup_alter_eq, Ep in En. simplify_eq/=. by exists p, pd.
Qed.

Lemma evict_loop_ok fuel s hs ls num ne heap :
  (0 < ps)%nat → Forall2 (chain (root_node s) (nodes s)) hs ls → sparts s ls → heap_ok s heap → (size (nodes s) ≤ fuel)%nat →
  ∃ fr s', evict_loop cfg fuel num ne heap s = (Ok (ne + length fr), s') ∧ evictions (nodes s) fr (nodes s') ∧
    root_node s' = root_node s ∧ Forall2 (chain (root_node s') (nodes s')) hs ls ∧ sparts s' ls ∧ gave s s' fr ∧
    evictable_size_ s' = evictable_size_ s - length fr ∧ protected_size_ s' = protected_size_ s ∧
    (num ≤ ne + length fr ∨ evictable_size_ s' = 0).
Proof.
  intros Hps. revert s ne heap. induction fuel as [|fuel IH]; intros s ne heap Hc Hi Hh Hf.
  { destruct (t_root _ _ _ _ (p_tree _ _ _ _ _ _ _ _ _ Hi)) as (rd & E & _).
    assert (nodes s = ∅) as H0 by (apply map_size_empty_inv; lia). by rewrite H0, lookup_empty in E. }
  simpl. assert (Hstop : num ≤ ne ∨ evictable_size_ s = 0 →
    ∃ fr s', (mret ne : M Cache Z) s = (Ok (ne + length fr), s') ∧ evictions (nodes s) fr (nodes s') ∧
      root_node s' = root_node s ∧ Forall2 (chain (root_node s') (nodes s')) hs ls ∧ sparts s' ls ∧ gave s s' fr ∧
      evictable_size_ s' = evictable_size_ s - length fr ∧ protected_size_ s' = protected_size_ s ∧
      (num ≤ ne + length fr ∨ evictable_size_ s' = 0)).
  { intros Hdone. exists [], s. simpl. rewrite Z.add_0_r, Z.sub_0_r. split_and!; try done; [constructor|].
    exists []. split_and!; [by rewrite app_nil_r|done|constructor]. }
  destruct (Z.ltb_spec ne num) as [Hlt|Hge]; simpl; [|apply Hstop; lia].
  destruct heap as [|e heap]; simpl; [apply Hstop; right; by eapply heap_empty|].
  destruct (select_min_spec e heap) as [Hperm Hmin]. destruct (select_min e heap) as [[rk x] heap']. simpl in Hperm, Hmin.
  pose proof Hh as [Hnd Hheap]. destruct (proj1 (Hheap rk x)) as (xd & Hx & Erk); [rewrite <-Hperm; by left|].
  destruct (victim_facts s ls x xd Hi Hx) as (p & pd & ck & Hxr & Hxp & Ep & Hck & Hch & Hpx & Hlen).
  rewrite (evict_step_run s x xd Hx p pd ck Hxp Ep Hck Hch).
  pose proof Hx as (Exd & _).
  set (s1 := after_evict s x xd p pd ck).
  destruct (IH s1 (ne + length (value xd))
    (if bool_decide (children (set_children (delete ck) pd) = ∅) && (lock_ref (set_children (delete ck) pd) =? 0)
     then (rank_of pol (set_children (delete ck) pd), p) :: heap' else heap'))
    as (fr & s' & Er & Hev & Hroot & Hc' & Hi' & Hfreed & Hes & Hps' & Hdone).
  - by apply (after_evict_chains s hs ls x xd).
  - by apply (after_evict_parts s ls x xd).
  - by apply (after_evict_heap s x xd Hx p pd ck Ep Hch Hpx (e :: heap) heap' rk).
  - pose proof (del_store_size (nodes s) p x xd ck Exd Hpx). simpl. lia.
  - exists (value xd ++ fr), s'. rewrite length_app, Nat2Z.inj_add, Z.add_assoc. split_and!; try done.
    + eapply evictions_cons; [exact Hx| |exact Hxp|exact Ep|exact Hck|exact Hev].
      intros y yd Hy. rewrite <-Erk. apply (Hmin (rank_of pol yd, y)). apply Hheap. eauto.
    + by apply (gave_cons s s' x xd p pd ck).
    + rewrite Hes. simpl. lia.
Qed.

Lemma eviction_heap_ok s ls : sparts s ls → heap_ok s (eviction_heap cfg s).
Proof.
  intros Hi. unfold eviction_heap.
  assert (Hall : ∀ rk n (l : list nat), (rk, n) ∈ omap (λ n, (λ nd, (rank_of pol nd, n)) <$> nodes s !! n) l ↔
    n ∈ l ∧ ∃ nd, nodes s !! n = Some nd ∧ rk = rank_of pol nd).
  { intros rk n l. rewrite list_elem_of_omap. split.
    - intros (m & Hm & Em). destruct (nodes s !! m) as [nd|] eqn:E; simplify_eq/=. eauto.
    - intros (Hn & nd & E & ->). exists n. by rewrite E. }
  split.
  - assert (Hsub : ∀ l : list nat, NoDup l → NoDup (omap (λ n, (λ nd, (rank_of pol nd, n)) <$> nodes s !! n) l).*2).
    { induction 1 as [|n l Hn Hl IH]; [constructor|]. simpl. destruct (nodes s !! n); simpl; [|done]. constructor; [|done].
      intros ((rk & m) & Em & Hin)%list_elem_of_fmap. simpl in Em. subst m. by apply Hall in Hin as [? _]. }
    apply Hsub, NoDup_elements.
  - intros rk n. rewrite Hall, elem_of_elements, (p_leaves _ _ _ _ _ _ _ _ _ Hi). unfold free_leaf. naive_solver.
Qed.

Lemma evict_ok s hs num :
  (0 < ps)%nat → disable cfg = false → inv s hs →
  ∃ fr s', evict cfg num s = (Ok (length fr : Z), s') ∧ evictions (nodes s) fr (nodes s') ∧ root_node s' = root_node s ∧
    inv s' hs ∧ gave s s' fr ∧ evictable_size_ s' = evictable_size_ s - length fr ∧
    protected_size_ s' = protected_size_ s ∧ (num ≤ length fr ∨ evictable_size_ s' = 0).
Proof.
  intros Hps Hd (ls & Hc & Hi).
  destruct (evict_loop_ok (size (nodes s)) s hs ls num 0 (eviction_heap cfg s) Hps Hc Hi (eviction_heap_ok _ _ Hi) (le_n _))
    as (fr & s' & Er & Hev & Hroot & Hc' & Hi' & Hrest).
  exists fr, s'. split_and!; try apply Hrest; try done.
  - unfold evict. rewrite Hd. rewrite (bind_Ok _ _ s (eviction_heap cfg s) s) by done.
    rewrite (bind_Ok _ _ s (size (nodes s)) s) by done. by rewrite Er.
  - by exists ls.
Qed.

(** ** What evictions change *)

Section Effects.
Context (r : nat).
Local Abbreviation tree := (tree ps bg r).

(** The root is not a leaf that evictions take: its reference count is never zero. *)
Definition root_locked H : Prop := ∀ rd, H !! r = Some rd → lock_ref rd ≠ 0.

Lemma evictions_ind_tree (P : gmap nat TreeNode → list Z → gmap nat TreeNode → Prop) :
  (0 < ps)%nat → (∀ H, tree H → P H [] H) →
  (∀ H x xd p pd ck fr H', tree H → x ≠ r → free_leaf H x xd → parent xd = Some p → H !! p = Some pd →
     child_key ps (key xd) = Ok ck → p ≠ x → tree (del_store H p x ck) →
     evictions (del_store H p x ck) fr H' → P (del_store H p x ck) fr H' → P H (value xd ++ fr) H') →
  ∀ H fr H', tree H → root_locked H → evictions H fr H' → P H fr H'.
Proof.
  intros Hps Hnil Hcons H fr H' Ht Hrl Hev. revert Ht Hrl.
  induction Hev as [H|H x xd p pd ck fr H' Hx Hmin Hxp Ep Hck Hev IH]; intros Ht Hrl; [by apply Hnil|].
  pose proof Hx as (E & Hl & Hcx). assert (Hxr : x ≠ r) by (intros ->; by apply (Hrl xd)).
  assert (Hne : p ≠ x) by (by apply (del_p_ne ps bg r H p x pd xd)).
  assert (Ht' : tree (del_store H p x ck)) by (by apply (del_tree ps bg r H p x pd xd)).
  eapply (Hcons H x xd p pd ck); try done. apply IH; [done|].
  intros rd' Er. destruct (del_cases ps bg r H p x pd xd ck Ht Ep E Hxr Hxp r rd' Er) as (_ & rd & Er0 & _ & _ & _ & -> & _). by apply Hrl.
Qed.

(** Locked nodes stay, with their segments. *)
Lemma evictions_locked H fr H' n nd :
  (0 < ps)%nat → tree H → root_locked H → evictions H fr H' → H !! n = Some nd → lock_ref nd ≠ 0 →
  ∃ nd', H' !! n = Some nd' ∧ key nd' = key nd ∧ value nd' = value nd ∧ lock_ref nd' = lock_ref nd ∧ parent nd' = parent nd.
Proof.
  intros Hps Ht Hrl Hev. revert n nd.
  refine (evictions_ind_tree (λ H fr H', ∀ n nd, H !! n = Some nd → lock_ref nd ≠ 0 → _) Hps _ _ H fr H' Ht Hrl Hev).
  - clear. intros H _ n nd E _. by exists nd.
  - clear. intros H x xd p pd ck fr H' Ht Hxr (E & Hl & Hcx) Hxp Ep Hck Hne Ht' _ IH n nd En Hn.
    destruct (del_old ps bg r H p x pd xd ck Ht Ep E Hxr Hxp Hck n nd En) as (nd' & En' & Hp' & Hk' & Hv' & Hl' & _); [by intros ->; simplify_eq|].
    destruct (IH n nd' En') as (nd2 & E2 & Hk2 & Hv2 & Hl2 & Hp2); [congruence|]. exists nd2. split_and!; congruence.
Qed.

(** The paths of the nodes that stay stay; nothing new is held. *)
Lemma evictions_path H fr H' q u v :
  (0 < ps)%nat → tree H → root_locked H → evictions H fr H' → is_Some (H' !! q) → down H r u v q → down H' r u v q.
Proof.
  intros Hps Ht Hrl Hev. revert u v.
  refine (evictions_ind_tree (λ H fr H', ∀ u v, is_Some (H' !! q) → down H r u v q → down H' r u v q) Hps _ _ H fr H' Ht Hrl Hev); [done|].
  clear. intros H x xd p pd ck fr H' Ht Hxr (E & Hl & Hcx) Hxp Ep Hck Hne Ht' Hev IH u v Hq Hd. apply IH; [done|].
  rewrite <-(del_add ps bg r H p x pd xd ck Ht Ep E Hxr Hxp Hck) in Hd.
  apply (add_back ps bg r (del_store H p x ck) p x (set_children (delete ck) pd) xd ck) in Hd; try done.
  - destruct Hd as [?|(_ & _ & -> & _)]; [done|]. exfalso. clear -Hev Hq. destruct Hq as [qd Eq].
    assert (Hx : del_store H p x ck !! x = None) by apply del_at_x. revert Hx. generalize dependent (del_store H p x ck).
    intros H0 Hev Hx. induction Hev as [|H0 y yd p0 pd0 ck0 fr H' _ _ _ _ _ _ IH]; [congruence|]. apply IH; [done|].
    unfold del_store. apply lookup_delete_None. right. destruct (decide (x = p0)) as [->|Hn]; [by rewrite lookup_alter_eq, Hx|by rewrite lookup_alter_ne].
  - by apply (del_at_p ps bg r H p x pd xd).
  - apply del_at_x.
  - apply lookup_delete_eq.
  - by apply (t_segment _ _ _ _ Ht x).
Qed.

Lemma evictions_holds H fr H' u v :
  (0 < ps)%nat → tree H → root_locked H → evictions H fr H' → holds ps H' r u v → holds ps H r u v.
Proof.
  intros Hps Ht Hrl Hev.
  refine (evictions_ind_tree (λ H fr H', holds ps H' r u v → holds ps H r u v) Hps _ _ H fr H' Ht Hrl Hev); [done|].
  clear -Hps. intros H x xd p pd ck fr H' Ht Hxr (E & Hl & Hcx) Hxp Ep Hck Hne Ht' _ IH Hh.
  destruct (down_from_root ps bg r H p Ht) as (s0 & v0 & H0); [eauto|].
  apply (del_holds ps bg r H p x pd xd ck Hps Ht Ep E Hxr Hxp Hck Hcx s0 v0 u v H0). left. by apply IH.
Qed.

(** Indices are conserved: those of the tree are those left in it and those given back. *)
Lemma evictions_indices H fr H' :
  (0 < ps)%nat → tree H → root_locked H → evictions H fr H' → indices H = list_to_set_disj fr ⊎ indices H'.
Proof.
  intros Hps Ht Hrl Hev.
  refine (evictions_ind_tree (λ H fr H', indices H = list_to_set_disj fr ⊎ indices H') Hps _ _ H fr H' Ht Hrl Hev);
    [intros; multiset_solver|].
  clear. intros H x xd p pd ck fr H' _ _ (E & _) _ _ _ Hne _ _ IH. rewrite (indices_del H p x xd ck E Hne), IH, list_to_set_disj_app.
  unfold seg_indices. multiset_solver.
Qed.
End Effects.
End Evict.
