(* ===== verification/RadixApi.v ===== *)
(** * The operations of the radix cache, as a whole

    [match_prefix] and [insert] on any key, with the preparation of the key (bigram view,
    whole pages), and the empty cache. *)

From stdpp Require Import gmultiset.
From S2P Require Import Prelude RadixKey RadixCache RadixFacts RadixSplit RadixInv RadixOps RadixLocks.
Local Open Scope Z_scope.

Section Api.
Context (cfg : CacheConfig) (ticks : nat → Z).
Local Abbreviation ps := (page_size cfg).
Local Abbreviation bg := (is_eagle cfg).
Local Abbreviation inv := (inv cfg).
Local Abbreviation content := (content cfg).
Implicit Types (s : Cache) (hs : list nat) (k : RadixKey) (u : list unit_of) (v w : list Z).

(** The key an operation works with. *)
Definition prepared k : RadixKey := page_aligned ps (maybe_to_bigram_view (V:=Z) bg k None).1.

Lemma bigram_view_key {V} k (v : option (list V)) :
  (maybe_to_bigram_view bg k v).1 = (maybe_to_bigram_view (V:=Z) bg k None).1.
Proof. unfold maybe_to_bigram_view. by destruct (bg && negb (is_bigram k)). Qed.

Lemma page_aligned_facts k :
  (0 < ps)%nat → aligned ps (page_aligned ps k) ∧ is_bigram (page_aligned ps k) = is_bigram k ∧
    key_len (page_aligned ps k) = round_down ps (key_len k) ∧ units (page_aligned ps k) = take (round_down ps (key_len k)) (units k).
Proof.
  intros Hps. unfold page_aligned, aligned. pose proof (round_down_le ps (key_len k)) as Hle.
  destruct (Nat.eqb_spec ps 1) as [->|Hne].
  - unfold round_down in *. rewrite Nat.div_1_r, Nat.mul_1_r in *. split_and!; [apply Nat.divide_1_l|done..|].
    by rewrite <-length_units, firstn_all.
  - fold (round_down ps (key_len k)). rewrite key_len_take, units_take by done.
    split_and!; [apply round_down_divide| |done..]. apply key_slice_namespace.
Qed.

Lemma prepared_facts k :
  (0 < ps)%nat → (is_bigram k = true → bg = true) → is_bigram (prepared k) = bg ∧ aligned ps (prepared k).
Proof.
  intros Hps Hb. unfold prepared. destruct (page_aligned_facts (maybe_to_bigram_view (V:=Z) bg k None).1 Hps) as (Ha & -> & _).
  split; [|done]. unfold maybe_to_bigram_view. destruct bg, (is_bigram k) eqn:E; simpl; try done. by rewrite Hb.
Qed.

(** Preparing a prepared key changes no unit of it. *)
Lemma prepared_idem k :
  (0 < ps)%nat → is_bigram k = bg → aligned ps k → units (prepared k) = units k ∧ key_len (prepared k) = key_len k.
Proof.
  intros Hps Hb Ha. unfold prepared, maybe_to_bigram_view. rewrite Hb. destruct bg; simpl.
  all: destruct (page_aligned_facts k Hps) as (_ & _ & -> & ->); rewrite (round_down_between ps (key_len k)) by (done || lia);
    split; [by rewrite <-length_units, firstn_all|done].
Qed.

(** The longest cached prefix of [k]: [m] units, with their indices. *)
Definition longest_prefix s k (m : nat) v : Prop :=
  (m ≤ key_len k)%nat ∧ content s (take m (units k)) v ∧
  ∀ u w, u `prefix_of` units k → content s u w → (length u ≤ m)%nat.

Lemma longest_prefix_det s hs k m v m' v' :
  (0 < ps)%nat → inv s hs → longest_prefix s k m v → longest_prefix s k m' v' → m = m' ∧ v = v'.
Proof.
  intros Hps Hinv (Hm & Hc & Hmax) (Hm' & Hc' & Hmax').
  pose proof (Hmax _ _ (prefix_take (units k) m') Hc') as H1. pose proof (Hmax' _ _ (prefix_take (units k) m) Hc) as H2.
  rewrite length_take, length_units in H1, H2. assert (m = m') as <- by lia. split; [done|].
  by eapply (holds_det ps bg (root_node s) (nodes s) (root_node s)); [|eapply inv_tree|..].
Qed.

Lemma content_empty s u w m : (length u ≤ m)%nat → m = 0%nat → content s u w → u = [] ∧ w = [].
Proof.
  intros Hl -> (s' & v' & q & _ & -> & _). destruct u; [done|simpl in Hl; lia].
Qed.

Lemma match_prefix_ok s hs k0 :
  (0 < ps)%nat → disable cfg = false → inv s hs → (is_bigram k0 = true → bg = true) →
  ∃ v q s' m, match_prefix cfg ticks k0 s = (Ok (v, q), s') ∧ tidy cfg s s' ∧ longest_prefix s (prepared k0) m v ∧
    path s' (take m (units (prepared k0))) v q.
Proof.
  intros Hps Hd Hinv Hb. destruct (prepared_facts k0 Hps Hb) as [Hbk Hak]. pose proof (inv_tree _ _ _ Hinv) as Ht.
  assert (Hroot : path s [] [] (root_node s)) by constructor.
  assert (Hnone : key_len (prepared k0) = 0%nat →
    ∃ v q s' m, (mret ([], root_node s) : M Cache (list Z * nat)) s = (Ok (v, q), s') ∧ tidy cfg s s' ∧
      longest_prefix s (prepared k0) m v ∧ path s' (take m (units (prepared k0))) v q).
  { intros Hl. exists [], (root_node s), s, 0%nat. rewrite take_0. split_and!; [done..| |done]. split; [lia|]. rewrite take_0.
    split; [apply holds_nil|]. intros u w Hu _. rewrite (units_nil _ Hl) in Hu. by apply prefix_length in Hu. }
  unfold match_prefix. rewrite (bind_Ok _ _ s (root_node s) s) by done. rewrite Hd. cbn [orb].
  fold (prepared k0). set (k := prepared k0) in *.
  destruct (Nat.eqb_spec (key_len (maybe_to_bigram_view (V:=Z) bg k0 None).1) 0) as [E0|E0].
  { apply Hnone. unfold k, prepared. destruct (page_aligned_facts (maybe_to_bigram_view (V:=Z) bg k0 None).1 Hps) as (_ & _ & -> & _).
    rewrite E0. pose proof (round_down_le ps 0). lia. }
  destruct (Nat.eqb_spec (key_len k) 0) as [E1|E1]; [by apply Hnone|]. unfold match_prefix_helper.
  destruct (child_key_aligned cfg k Hps Hak ltac:(lia)) as [ck Hck].
  set (t := ticks (clock_reads s)). set (s1 := set_clock_reads S s).
  set (s2 := set_nodes (alter (set_access_time t) (root_node s)) s1).
  assert (Htd : tidy cfg s s2) by (etrans; [apply (tidy_clock cfg s S)|]; by apply tidy_light).
  destruct (match_loop_ok cfg ticks (S (key_len k)) s2 hs (root_node s) k ck t [] [] []) as (vals & q & s3 & m & Er & Htd3 & Hm & Hp & Hlo);
    [done|by apply (td_inv _ _ _ Htd)|done|lia|by apply (td_path _ _ _ Htd)|].
  assert (Ehelp : (access_time ← monotonic ticks; put_node (root_node s) (set_access_time access_time) ≫= λ _,
    ck0 ← lift_res (child_key ps k); match_loop cfg ticks (S (key_len k)) (root_node s) k ck0 access_time []) s = (Ok (vals, q), s3)).
  { rewrite (bind_Ok _ _ s t s1) by done. rewrite (bind_Ok _ _ s1 tt s2) by done.
    rewrite (bind_Ok _ _ s2 ck s2) by (unfold lift_res; by rewrite Hck). by rewrite Er. }
  rewrite (bind_Ok _ _ s (vals, q) s3) by exact Ehelp.
  exists (concat vals), q, s3, m. split_and!; [done|by etrans| |done].
  assert (Htd13 : tidy cfg s s3) by (by etrans). split; [done|]. split.
  - apply (td_content _ _ _ Htd13). apply (holds_down ps bg (root_node s3) _ _ _ _ q); [|exact Hp].
    by apply (inv_tree _ _ _ (td_inv _ _ _ Htd13 hs Hinv)).
  - intros u w Hu Hc. apply (Hlo u w Hu). by apply (td_content _ _ _ Htd).
Qed.

(** ** Insertion *)

(** The indices given for the prepared key: the values, or the tokens themselves. *)
Definition given k (v0 : option (list Z)) : list Z := take (key_len k) (default (token_ids k) v0).

(** A new leaf under a node that has no child for its key. *)
Definition leaf_state s (node cnt : nat) (ld : TreeNode) (ck : ChildKey) (reads : nat) : Cache :=
  mk_cache (add_store (nodes s) node cnt ld ck) (S cnt) (root_node s) (evictable_size_ s + key_len (key ld)) (protected_size_ s)
    ({[cnt]} ∪ (evictable_leaves s ∖ {[node]})) reads (free_calls s).

Lemma add_leaf_run s hs node nd k ck v prio chunked (total : nat) :
  inv s hs → nodes s !! node = Some nd →
  ∃ ld reads, (new ← new_node ticks prio (leaf_node node k v);
     inc_hit_count new chunked ≫= λ _, put_node node (set_children (<[ck := new]>)) ≫= λ _,
     modify (set_evictable_size (λ z, z + key_len k)) ≫= λ _, update_leaf_status node ≫= λ _,
     update_leaf_status new ≫= λ _, mret total) s = (Ok total, leaf_state s node (node_counter s) ld ck reads) ∧
    parent ld = Some node ∧ children ld = ∅ ∧ key ld = k ∧ value ld = v ∧ lock_ref ld = 0.
Proof.
  intros (ls & _ & Hi) E. pose proof (parts_nonneg ps bg _ _ _ _ _ _ _ _ _ Hi E) as Hl0.
  assert (node ≠ node_counter s) as Hne.
  { intros ->. by rewrite (p_fresh _ _ _ _ _ _ _ _ _ Hi) in E by lia. }
  destruct (new_node_ok ticks s prio (leaf_node node k v)) as (t1 & t2 & Enew).
  set (cnt := node_counter s) in *. set (ld0 := leaf_node node k v prio t1 t2).
  set (ld := if chunked then ld0 else set_hit_count (λ h, h + 1) ld0).
  set (s1 := set_node_counter S (set_clock_reads (λ n, S (S n)) s)) in *.
  set (s3 := set_nodes (<[cnt := ld]>) s1).
  assert (Hld : parent ld = Some node ∧ children ld = ∅ ∧ key ld = k ∧ value ld = v ∧ lock_ref ld = 0).
  { unfold ld, ld0. by destruct chunked. }
  exists ld, (S (S (clock_reads s))). split; [|done].
  rewrite (bind_Ok _ _ s cnt (set_nodes (<[cnt := ld0]>) s1)) by exact Enew.
  assert (Eh : inc_hit_count cnt chunked (set_nodes (<[cnt := ld0]>) s1) = (Ok tt, s3)).
  { unfold inc_hit_count, s3, ld. destruct chunked; [done|]. unfold put_node, modify, set_nodes. simpl. do 2 f_equal.
    apply map_eq. intros m. destruct (decide (m = cnt)) as [->|Hm]; [by rewrite lookup_alter_eq, !lookup_insert_eq|].
    by rewrite lookup_alter_ne, !lookup_insert_ne. }
  rewrite (bind_Ok _ _ _ tt s3) by exact Eh.
  set (s4 := set_nodes (alter (set_children (<[ck := cnt]>)) node) s3). rewrite (bind_Ok _ _ s3 tt s4) by done.
  set (s5 := set_evictable_size (λ z, z + key_len k) s4). rewrite (bind_Ok _ _ s4 tt s5) by done.
  assert (E5 : nodes s5 !! node = Some (set_children (<[ck := cnt]>) nd)).
  { simpl. by rewrite lookup_alter_eq, lookup_insert_ne, E. }
  rewrite (bind_Ok _ _ s5 tt _ (update_leaf_status_ok s5 node _ E5)). set (s6 := set_leaves _ s5).
  assert (E6 : nodes s6 !! cnt = Some ld) by (simpl; by rewrite lookup_alter_ne, lookup_insert_eq).
  rewrite (bind_Ok _ _ s6 tt _ (update_leaf_status_ok s6 cnt _ E6)). unfold mret, M_ret. f_equal.
  destruct Hld as (_ & Hc & Hk & _ & Hl). unfold leaf_state, set_leaves. simpl. f_equal; [by rewrite Hk|].
  unfold leaf_status at 1. rewrite Hl, Hc, bool_decide_true by done. simpl. f_equal.
  unfold leaf_status. simpl. rewrite (bool_decide_false (<[ck:=cnt]> (children nd) = ∅)) by apply insert_non_empty.
  by rewrite orb_true_r.
Qed.

(** What insertion promises: [m] units were cached, with the indices [vm]; the rest is added. *)
Record inserted s s' hs k v (m : nat) vm : Prop := mk_inserted {
  ins_longest : longest_prefix s k m vm;
  ins_inv : inv s' hs;
  ins_root : root_node s' = root_node s;
  ins_freed : free_calls s' = free_calls s;
  ins_indices : indices (nodes s') = indices (nodes s) ⊎ list_to_set_disj (drop m v);
  ins_sizes : evictable_size_ s' = evictable_size_ s + (key_len k - m) ∧ protected_size_ s' = protected_size_ s;
  ins_path : ∀ u w n, path s u w n → path s' u w n;
  ins_content : ∀ u w, content s' u w ↔ content s u w ∨
    u `prefix_of` units k ∧ w = take (length u) (vm ++ drop m v) ∧ Nat.divide ps (length u);
}.

Lemma tidy_inserted s s' hs k v m vm :
  inv s hs → tidy cfg s s' → longest_prefix s k m vm → key_len k = m → length v = key_len k → length vm = m →
  inserted s s' hs k v m vm.
Proof.
  intros Hinv Htd Hlp Hm Hv Hvm. split; try apply Htd; try done.
  - rewrite drop_ge by lia. rewrite (td_indices _ _ _ Htd). multiset_solver.
  - destruct (td_sizes _ _ _ Htd). split; [lia|done].
  - intros u w. rewrite (td_content _ _ _ Htd). split; [tauto|]. intros [?|(Hu & -> & Ha)]; [done|].
    rewrite drop_ge, app_nil_r by lia. destruct Hlp as (_ & Hc & _).
    rewrite take_ge in Hc by (rewrite length_units; lia). destruct Hu as [x Ex]. rewrite Ex in Hc. by eapply holds_prefix.
Qed.

Lemma longest_root s k m v : (m ≤ key_len k)%nat → content s (take m (units k)) v → longest cfg s [] k m → longest_prefix s k m v.
Proof. intros Hm Hc Hl. split_and!; [done..|]. intros u w Hu. by apply (Hl u w Hu). Qed.

Lemma stop_prefix s0 s hs k s' node k' ck' m :
  inv s0 hs → tidy cfg s0 s → insert_stop cfg s [] [] k s' node k' ck' m →
  ∃ vm, longest_prefix s0 k m vm ∧ path s' (take m (units k)) vm node ∧ tidy cfg s0 s' ∧ length vm = m.
Proof.
  intros Hinv Htd [Htd' Hm Hd [vm Hp] _ _ _ _ Hlo]. exists vm. simpl in Hp.
  assert (Htd2 : tidy cfg s0 s') by (by etrans). pose proof (inv_tree _ _ _ (td_inv _ _ _ Htd2 hs Hinv)) as Ht.
  split_and!; try done.
  - apply longest_root; [done| |].
    + apply (td_content _ _ _ Htd2). by apply (holds_down ps bg (root_node s') _ _ _ _ node).
    + intros u w Hu Hc. apply (Hlo u w Hu). by apply (td_content _ _ _ Htd).
  - pose proof (down_length ps bg _ _ _ _ _ _ Ht Hp) as Hl. rewrite length_take, length_units in Hl. lia.
Qed.

Lemma leaf_inserted s s1 hs k v m vm node nd k' ck' ld reads :
  inv s hs → tidy cfg s s1 → longest_prefix s k m vm → path s1 (take m (units k)) vm node → length vm = m →
  nodes s1 !! node = Some nd → walk_key cfg k' ck' → key_len k' = (key_len k - m)%nat → (0 < key_len k')%nat →
  units k' = drop m (units k) → children nd !! ck' = None → length v = key_len k →
  parent ld = Some node → children ld = ∅ → key ld = k' → value ld = drop m v → lock_ref ld = 0 →
  inserted s (leaf_state s1 node (node_counter s1) ld ck' reads) hs k v m vm.
Proof.
  intros Hinv Htd Hlp Hp Hvm E (Hb' & Ha' & Hk') Hlen Hpos Hu Hno Hv Hlp' Hlc Hlk Hlv Hl0. specialize (Hk' Hpos).
  pose proof (td_inv _ _ _ Htd hs Hinv) as Hinv1. pose proof Hinv1 as (ls & Hch & Hi).
  pose proof (p_tree _ _ _ _ _ _ _ _ _ Hi) as Ht. pose proof (p_fresh _ _ _ _ _ _ _ _ _ Hi _ (le_n _)) as Hnew.
  assert (Hseg : segment ps bg ld).
  { unfold segment. rewrite Hlk, Hlv, length_drop. split_and!; [done..|lia]. }
  assert (Hck : child_key ps (key ld) = Ok ck') by (by rewrite Hlk).
  split; try apply Htd; try done.
  - exists ls. split; [|by apply (parts_add ps bg _ _ _ _ _ _ _ _ nd)].
    eapply Forall2_impl; [exact Hch|]. intros n l Hl. by eapply add_chain.
  - simpl. rewrite indices_add by done. rewrite (td_indices _ _ _ Htd). unfold seg_indices. rewrite Hlv. multiset_solver.
  - destruct (td_sizes _ _ _ Htd). simpl. rewrite Hlk, Hlen. destruct Hlp as (? & _). split; [lia|done].
  - intros u w n Hn. apply (td_path _ _ _ Htd) in Hn. by eapply add_down.
  - intros u w. rewrite <-(td_content _ _ _ Htd).
    pose proof (add_holds ps bg (root_node s1) (nodes s1) node (node_counter s1) nd ld ck' Ht E Hnew Hno Hck Hlp' Hlc Hseg _ _ u w Hp) as Ha.
    rewrite Hlk, Hlv, Hu, take_drop in Ha. exact Ha.
Qed.

Lemma given_run k0 (v0 : option (list Z)) :
  (0 < ps)%nat →
  match (maybe_to_bigram_view bg k0 v0).2 with
  | Some v => take (key_len (prepared k0)) v
  | None => take (key_len (prepared k0)) (token_ids (prepared k0))
  end = given (prepared k0) v0.
Proof.
  intros Hps. unfold given. assert (Hle : (key_len (prepared k0) ≤ key_len (maybe_to_bigram_view (V:=Z) bg k0 None).1)%nat).
  { unfold prepared. destruct (page_aligned_facts (maybe_to_bigram_view (V:=Z) bg k0 None).1 Hps) as (_ & _ & -> & _). apply round_down_le. }
  unfold maybe_to_bigram_view in *. destruct (bg && negb (is_bigram k0)), v0 as [v|]; simpl in *; try done.
  by rewrite take_take, Nat.min_l.
Qed.

Lemma key_len_tokens k : (key_len k ≤ length (token_ids k))%nat.
Proof. unfold key_len. destruct (is_bigram k); lia. Qed.

(** As many values as the prepared key has units. *)
Definition enough k0 (v0 : option (list Z)) : Prop :=
  match v0 with Some v => (key_len (prepared k0) ≤ length v)%nat | None => True end.

Lemma given_length k0 (v0 : option (list Z)) : enough k0 v0 → length (given (prepared k0) v0) = key_len (prepared k0).
Proof.
  unfold enough, given. intros He. rewrite length_take. destruct v0 as [v|]; simpl; [lia|].
  pose proof (key_len_tokens (prepared k0)). lia.
Qed.

Lemma insert_ok s hs k0 (v0 : option (list Z)) prio chunked :
  (0 < ps)%nat → disable cfg = false → inv s hs → (is_bigram k0 = true → bg = true) → enough k0 v0 →
  ∃ s' m vm, insert cfg ticks k0 v0 prio chunked s = (Ok m, s') ∧ inserted s s' hs (prepared k0) (given (prepared k0) v0) m vm.
Proof.
  intros Hps Hd Hinv Hb Hen. destruct (prepared_facts k0 Hps Hb) as [Hbk Hak].
  pose proof (given_length k0 v0 Hen) as Hv. unfold insert. rewrite Hd.
  rewrite bigram_view_key. fold (prepared k0). rewrite given_run by done. rewrite (bind_Ok _ _ s (root_node s) s) by done.
  set (k := prepared k0) in *. set (v := given k v0) in *. set (p := default 0 prio). unfold insert_helper.
  set (t := ticks (clock_reads s)). set (s1 := set_clock_reads S s). rewrite (bind_Ok _ _ s t s1) by done.
  set (s2 := set_nodes (alter (set_access_time t) (root_node s)) s1). rewrite (bind_Ok _ _ s1 tt s2) by done.
  set (s3 := set_nodes (alter (set_priority (Z.max p)) (root_node s)) s2). rewrite (bind_Ok _ _ s2 tt s3) by done.
  assert (Htd : tidy cfg s s3).
  { etrans; [apply (tidy_clock cfg s S)|]. etrans; [|by apply tidy_light]. by apply tidy_light. }
  destruct (Nat.eqb_spec (key_len k) 0) as [E0|E0].
  { exists s3, 0%nat, []. split; [done|]. apply tidy_inserted; try done. split; [lia|]. rewrite take_0. split; [apply holds_nil|].
    intros u w Hu _. rewrite (units_nil _ E0) in Hu. by apply prefix_length in Hu. }
  destruct (child_key_aligned cfg k Hps Hak ltac:(lia)) as [ck Hck].
  rewrite (bind_Ok _ _ s3 ck s3) by (unfold lift_res; by rewrite Hck).
  destruct (insert_loop_ok cfg ticks (S (key_len k)) s3 hs (root_node s) k ck v 0 t p chunked [] [])
    as (node & k' & ck' & m & s4 & Er & Hst); [done|by apply (td_inv _ _ _ Htd)|done|lia|constructor|].
  rewrite (bind_Ok _ _ s3 _ s4) by exact Er. cbn beta iota. rewrite Nat.add_0_l.
  destruct (stop_prefix s s3 hs k s4 node k' ck' m Hinv Htd Hst) as (vm & Hlp & Hp & Htd4 & Hvm).
  destruct Hst as [_ Hm _ _ Hwk Hlen Hun (nd & En & Hno) _].
  destruct (Nat.eqb_spec (key_len k') 0) as [Ek|Ek].
  - exists s4, m, vm. split; [done|]. apply tidy_inserted; try done. lia.
  - destruct (add_leaf_run s4 hs node nd k' ck' (drop m v) p chunked m) as (ld & reads & Erun & H1 & H2 & H3 & H4 & H5);
      [by apply (td_inv _ _ _ Htd4)|done|].
    eexists _, m, vm. split; [exact Erun|]. eapply (leaf_inserted s s4 hs k v m vm node nd k' ck' ld); try done; [lia|]. apply Hno. lia.
Qed.

(** ** The empty cache *)

Lemma reset_inv s : ∃ s', reset ticks s = (Ok tt, s') ∧ inv s' [].
Proof.
  set (rd := root_of (ticks (clock_reads s)) (ticks (S (clock_reads s)))). set (r := node_counter s).
  assert (Hone : ∀ n nd, ({[r := rd]} : gmap nat TreeNode) !! n = Some nd → n = r ∧ nd = rd).
  { intros n nd [<- <-]%lookup_singleton_Some. done. }
  eexists. split; [reflexivity|]. exists []. split; [constructor|]. split; simpl; fold rd r; try done.
  - split.
    + exists rd. by rewrite lookup_singleton_eq.
    + intros n nd [-> ->]%Hone. done.
    + intros p pd ck c [-> ->]%Hone Hc. simpl in Hc; by rewrite lookup_empty in Hc.
    + intros n nd [-> ->]%Hone. done.
    + intros n nd [-> ->]%Hone. exists []. constructor.
  - intros n Hn. apply lookup_singleton_None. lia.
  - intros nd [_ ->]%Hone. done.
  - intros l n Hl. by apply elem_of_nil in Hl.
  - intros n nd [-> ->]%Hone. done.
  - unfold msum. rewrite map_fold_singleton. unfold evictable_of. by rewrite Nat.eqb_refl.
  - unfold msum. rewrite map_fold_singleton. unfold protected_of. by rewrite Nat.eqb_refl.
  - intros n. split; [set_solver|]. intros (nd & [-> ->]%Hone & Hl & _). done.
Qed.

Lemma init_cache_inv : inv (init_cache ticks) [].
Proof. unfold init_cache. by destruct (reset_inv (mk_cache ∅ 0 0 0 0 ∅ 0 [])) as (s' & -> & Hi). Qed.
End Api.
