(* ===== verification/RadixReq.v ===== *)
(** * Requests and the radix cache

    Models how a request of the language-model runtime uses the radix cache:
    [cache_finished_req] and [cache_unfinished_req] of [srt/mem_cache/radix_cache.py], the
    length bookkeeping of [Req] and the prefix lookup of [init_next_round_input] of
    [srt/managers/schedule_batch.py], [maybe_cache_unfinished_req] and [release_kv_cache] of
    [srt/mem_cache/common.py], and what a prefill in one chunk, a step of decoding and a
    retraction do to a single request.
    The request's row of the pool of token locations is part of the request. Diffusion
    language models, streaming sessions, hybrid and Mamba pools, and the host and branching
    fields of a match result are not modelled. *)

From S2P Require Import Prelude RadixKey RadixCache.
Local Open Scope Z_scope.

Record Req := mk_req {
  origin_input_ids : list Z;
  output_ids : list Z;
  fill_ids : list Z;
  req_extra_key : option string;
  req_priority : option Z;
  return_logprob : bool;
  logprob_start_len : Z;
  positional_embed_overrides : bool;
  skip_radix_cache_insert : bool;
  reasoning_tokens : Z;
  kv_committed_len : nat;
  kv_allocated_len : nat;
  kv_committed_freed : bool;
  kv_overallocated_freed : bool;
  cache_protected_len : nat;
  last_node : option nat;
  prefix_indices : list Z;
  req_pool_idx : option nat;
  req_row : list Z;
}.

(** The fields the cache writes. *)
Definition set_fill_ids x (q : Req) : Req :=
  mk_req (origin_input_ids q) (output_ids q) x (req_extra_key q) (req_priority q) (return_logprob q) (logprob_start_len q)
    (positional_embed_overrides q) (skip_radix_cache_insert q) (reasoning_tokens q) (kv_committed_len q) (kv_allocated_len q)
    (kv_committed_freed q) (kv_overallocated_freed q) (cache_protected_len q) (last_node q) (prefix_indices q) (req_pool_idx q) (req_row q).
Definition set_freed_flags c o (q : Req) : Req :=
  mk_req (origin_input_ids q) (output_ids q) (fill_ids q) (req_extra_key q) (req_priority q) (return_logprob q) (logprob_start_len q)
    (positional_embed_overrides q) (skip_radix_cache_insert q) (reasoning_tokens q) (kv_committed_len q) (kv_allocated_len q)
    c o (cache_protected_len q) (last_node q) (prefix_indices q) (req_pool_idx q) (req_row q).
Definition set_prefix (protected : nat) (node : option nat) (indices : list Z) (q : Req) : Req :=
  mk_req (origin_input_ids q) (output_ids q) (fill_ids q) (req_extra_key q) (req_priority q) (return_logprob q) (logprob_start_len q)
    (positional_embed_overrides q) (skip_radix_cache_insert q) (reasoning_tokens q) (kv_committed_len q) (kv_allocated_len q)
    (kv_committed_freed q) (kv_overallocated_freed q) protected node indices (req_pool_idx q) (req_row q).
Definition set_row x (q : Req) : Req :=
  mk_req (origin_input_ids q) (output_ids q) (fill_ids q) (req_extra_key q) (req_priority q) (return_logprob q) (logprob_start_len q)
    (positional_embed_overrides q) (skip_radix_cache_insert q) (reasoning_tokens q) (kv_committed_len q) (kv_allocated_len q)
    (kv_committed_freed q) (kv_overallocated_freed q) (cache_protected_len q) (last_node q) (prefix_indices q) (req_pool_idx q) x.
Definition set_pool_idx x (q : Req) : Req :=
  mk_req (origin_input_ids q) (output_ids q) (fill_ids q) (req_extra_key q) (req_priority q) (return_logprob q) (logprob_start_len q)
    (positional_embed_overrides q) (skip_radix_cache_insert q) (reasoning_tokens q) (kv_committed_len q) (kv_allocated_len q)
    (kv_committed_freed q) (kv_overallocated_freed q) (cache_protected_len q) (last_node q) (prefix_indices q) x (req_row q).

Definition set_kv_lens c a (q : Req) : Req :=
  mk_req (origin_input_ids q) (output_ids q) (fill_ids q) (req_extra_key q) (req_priority q) (return_logprob q) (logprob_start_len q)
    (positional_embed_overrides q) (skip_radix_cache_insert q) (reasoning_tokens q) c a
    (kv_committed_freed q) (kv_overallocated_freed q) (cache_protected_len q) (last_node q) (prefix_indices q) (req_pool_idx q) (req_row q).
Definition set_output x n (q : Req) : Req :=
  mk_req (origin_input_ids q) x (fill_ids q) (req_extra_key q) (req_priority q) (return_logprob q) (logprob_start_len q)
    (positional_embed_overrides q) (skip_radix_cache_insert q) n (kv_committed_len q) (kv_allocated_len q)
    (kv_committed_freed q) (kv_overallocated_freed q) (cache_protected_len q) (last_node q) (prefix_indices q) (req_pool_idx q) (req_row q).

(** [reset_for_retract], without input embeddings: the output and the count of its thinking
    tokens stay. *)
Definition reset_for_retract (q : Req) : Req :=
  set_freed_flags false false (set_kv_lens 0 0 (set_prefix 0 None [] q)).

(** A sampled token; [thinks] says whether it still belongs to the thinking part
    ([_maybe_update_reasoning_tokens]). *)
Record Sampled := mk_sampled { token : Z; thinks : bool }.
Definition append_output (t : Sampled) (q : Req) : Req :=
  set_output (output_ids q ++ [token t]) (reasoning_tokens q + (if thinks t then 1 else 0)) q.

(** The server arguments and the environment the code reads. *)
Record ReqConfig := mk_req_config {
  strip_thinking_cache : bool;
  speculative : bool;
  radix_force_miss : bool;
}.

Section Requests.
Context (cfg : CacheConfig) (rcfg : ReqConfig) (ticks : nat → Z).
Local Abbreviation ps := (page_size cfg).

(** The cache and the request. *)
Definition St : Type := Cache * Req.
Local Abbreviation Ms := (M St).

Definition on_cache {A} (m : M Cache A) : Ms A :=
  λ st, match m st.1 with (r, s') => (r, (s', st.2)) end.
Definition the_req : Ms Req := gets snd.
Definition update_req (f : Req → Req) : Ms unit := modify (λ st, (st.1, f st.2)).

Definition cache_commit_len (q : Req) : nat :=
  if strip_thinking_cache rcfg && (0 <? reasoning_tokens q)
  then Nat.min (kv_committed_len q) (length (origin_input_ids q)) else kv_committed_len q.

Definition pop_committed_kv_cache : Ms nat :=
  q ← the_req;
  if kv_committed_freed q then raise AssertionError
  else update_req (λ q, set_freed_flags true (kv_overallocated_freed q) q) ≫= λ _, mret (cache_commit_len q).

Definition pop_overallocated_kv_cache : Ms (nat * nat) :=
  q ← the_req;
  if kv_overallocated_freed q then raise AssertionError
  else update_req (λ q, set_freed_flags (kv_committed_freed q) true q) ≫= λ _, mret (cache_commit_len q, kv_allocated_len q).

(** The key of a request's tokens. *)
Definition req_key (tokens : list Z) (q : Req) : RadixKey :=
  page_aligned ps (mk_key tokens (req_extra_key q) (is_eagle cfg)).

Definition cache_finished_req (is_insert0 : bool) : Ms unit :=
  let is_insert := is_insert0 && negb (disable_finished_insert cfg) in
  committed ← pop_committed_kv_cache;
  q ← the_req;
  if disable cfg then on_cache (free (take committed (req_row q)))
  else
    let token_ids := take committed (origin_input_ids q ++ output_ids q) in
    let kv_indices := take (length token_ids) (req_row q) in
    let rk := req_key token_ids q in
    let values := take (key_len rk) kv_indices in
    (if is_insert
     then prefix_len ← on_cache (insert cfg ticks rk (Some values) (Some (default 0 (req_priority q))) false);
          on_cache (free (py_sub kv_indices (cache_protected_len q) prefix_len))
     else on_cache (free (py_sub kv_indices (cache_protected_len q) (key_len rk)))) ≫= λ _,
    on_cache (free (drop (key_len rk) kv_indices)) ≫= λ _,
    match last_node q with
    | Some n => on_cache (dec_lock_ref cfg n) ≫= λ _, mret tt
    | None => mret tt
    end.

(** [row[a:b] = values]: as many values as places, or one for all. *)
Definition write_row (row : list Z) (a b : nat) (values : list Z) : res (list Z) :=
  let places := length (py_sub row a b) in
  let done x := Ok (take a row ++ x ++ drop (a + places) row) in
  if (length values =? places)%nat then done values
  else match values with [v] => done (replicate places v) | _ => Raise RuntimeError end.

Definition cache_unfinished_req (chunked : bool) : Ms unit :=
  if disable cfg then mret tt
  else
    q ← the_req;
    let token_ids := fill_ids q in
    let kv_indices := take (length token_ids) (req_row q) in
    let rk := req_key token_ids q in
    let values := take (key_len rk) kv_indices in
    let protected := cache_protected_len q in
    new_prefix_len ← on_cache (insert cfg ticks rk (Some values) (Some (default 0 (req_priority q))) chunked);
    on_cache (free (py_sub kv_indices protected new_prefix_len)) ≫= λ _,
    mr ← on_cache (match_prefix cfg ticks rk);
    let '(new_indices, new_last_node) := mr in
    (if (length new_indices =? key_len rk)%nat then mret tt else raise AssertionError) ≫= λ _,
    row ← lift_res (write_row (req_row q) protected (length new_indices) (drop protected new_indices));
    update_req (set_row row) ≫= λ _,
    update_req (λ q, set_prefix (length new_indices) (last_node q) (prefix_indices q) q) ≫= λ _,
    last ← lift_res (match last_node q with Some n => Ok n | None => Raise AttributeError end);
    on_cache (dec_lock_ref cfg last) ≫= λ _,
    on_cache (inc_lock_ref cfg new_last_node) ≫= λ _,
    let prefix := if (length new_indices <? length kv_indices)%nat
                  then new_indices ++ drop (length new_indices) (take (length token_ids) row) else new_indices in
    update_req (set_prefix (length new_indices) (Some new_last_node) prefix).

(** *** Lookup of the prefix *)

Definition compute_max_prefix_len (q : Req) (input_len : Z) : Z :=
  let m := input_len - 1 in
  let m := if return_logprob q && (0 <=? logprob_start_len q) then Z.min m (logprob_start_len q) else m in
  Z.max m 0.

Definition init_next_round_input : Ms unit :=
  update_req (λ q, set_fill_ids (origin_input_ids q ++ output_ids q) q) ≫= λ _,
  q ← the_req;
  let n := compute_max_prefix_len q (length (fill_ids q)) in
  let tokens := if positional_embed_overrides q then [] else take (Z.to_nat n) (fill_ids q) in
  mr ← on_cache (match_prefix cfg ticks (mk_key tokens (req_extra_key q) false));
  root ← gets (λ st, root_node st.1);
  let '(indices, node) := if radix_force_miss rcfg then ([], root) else mr in
  update_req (set_prefix (length indices) (Some node) indices).

(** *** Release *)

Definition ceil_div (x y : nat) : nat := (x + y - 1) / y.
Definition ceil_align (x y : nat) : nat := ceil_div x y * y.

Definition release_kv_cache (is_insert : bool) : Ms unit :=
  q ← the_req;
  match req_pool_idx q with
  | None => raise AssertionError
  | Some _ =>
      cache_finished_req (is_insert && negb (skip_radix_cache_insert q)) ≫= λ _,
      p ← pop_overallocated_kv_cache;
      let '(start_p, end_p) := p in
      (if negb (speculative rcfg) && negb (strip_thinking_cache rcfg) && negb (start_p =? end_p)%nat
       then raise AssertionError else mret tt) ≫= λ _,
      let start_p := if (1 <? ps)%nat then ceil_align start_p ps else start_p in
      when (start_p <? end_p)%nat (on_cache (free (py_sub (req_row q) start_p end_p))) ≫= λ _,
      update_req (set_pool_idx None)
  end.

(** *** The life of a request in a batch *)

Definition maybe_cache_unfinished_req : Ms unit :=
  q ← the_req;
  if skip_radix_cache_insert q then mret tt else cache_unfinished_req false.

(** A request is looked up and locked ([add_one_req]), gets the row [idx] with the new indices
    behind its prefix ([alloc_for_extend]; [rest] is the row from there on), and its lengths
    ([prepare_for_extend]); the first token is sampled, the request goes on
    ([process_batch_result_prefill]). *)
Definition prefill (idx : nat) (rest : list Z) (t : Sampled) : Ms unit :=
  init_next_round_input ≫= λ _,
  q ← the_req;
  last ← lift_res (match last_node q with Some n => Ok n | None => Raise AttributeError end);
  on_cache (inc_lock_ref cfg last) ≫= λ _,
  update_req (λ q, set_row (prefix_indices q ++ rest) (set_pool_idx (Some idx) q)) ≫= λ _,
  update_req (λ q, set_kv_lens (length (fill_ids q)) (length (fill_ids q)) q) ≫= λ _,
  update_req (append_output t) ≫= λ _,
  maybe_cache_unfinished_req.

(** One step of decoding: [loc] is the index it got, at the place behind the row's last one
    ([alloc_for_decode]); the lengths grow ([prepare_for_decode]) and a token is sampled
    ([process_batch_result_decode]). *)
Definition decode (t : Sampled) (loc : Z) : Ms unit :=
  update_req (λ q, set_row (<[kv_committed_len q := loc]> (req_row q)) q) ≫= λ _,
  update_req (λ q, set_kv_lens (S (kv_committed_len q)) (S (kv_allocated_len q)) q) ≫= λ _,
  update_req (append_output t).
End Requests.
