(* ===== verification/RadixReqFacts.v ===== *)
(** * Requests keep their indices

    A request that holds the cached prefix it was matched with hands its other KV indices
    over, each exactly once: to the tree or back to the allocator. *)

From stdpp Require Import gmultiset.
From S2P Require Import Prelude RadixKey RadixCache RadixFacts RadixInv RadixOps RadixLocks RadixApi RadixReq.
Local Open Scope Z_scope.

Section ReqFacts.
Context (cfg : CacheConfig) (rcfg : ReqConfig) (ticks : nat → Z).
Local Abbreviation ps := (page_size cfg).
Local Abbreviation bg := (is_eagle cfg).
Local Abbreviation inv := (inv cfg).
Local Abbreviation content := (content cfg).
Implicit Types (s : Cache) (hs : list nat) (q : Req) (tokens row : list Z).

(** The indices the cache and the allocator account for. *)
Definition accounted s : gmultiset Z := indices (nodes s) ⊎ list_to_set_disj (freed s).

(** The first [cache_protected_len] places of a request's row are the cached prefix of its
    tokens that its last node stands for, and that node's path is locked for the request. *)
Definition req_holds s hs q tokens (last : nat) : Prop :=
  last_node q = Some last ∧ inv s (last :: hs) ∧ (cache_protected_len q ≤ key_len (req_key cfg tokens q))%nat ∧
  (length tokens ≤ length (req_row q))%nat ∧
  path s (take (cache_protected_len q) (units (req_key cfg tokens q))) (take (cache_protected_len q) (req_row q)) last.

Lemma on_cache_ok {A} (m : M Cache A) s q a s' : m s = (Ok a, s') → on_cache m (s, q) = (Ok a, (s', q)).
Proof. intros E. unfold on_cache. simpl. by rewrite E. Qed.

Lemma req_key_facts tokens q : (0 < ps)%nat →
  is_bigram (req_key cfg tokens q) = bg ∧ aligned ps (req_key cfg tokens q) ∧ (key_len (req_key cfg tokens q) ≤ length tokens)%nat.
Proof.
  intros Hps. unfold req_key. destruct (page_aligned_facts cfg (mk_key tokens (req_extra_key q) bg) Hps) as (Ha & -> & -> & _).
  split_and!; [done..|]. etrans; [apply round_down_le|]. apply (key_len_tokens (mk_key tokens (req_extra_key q) bg)).
Qed.

(** Inserting the key of a request with the indices of its row. *)
Lemma req_insert s hs tokens row q prio chunked :
  (0 < ps)%nat → disable cfg = false → inv s hs → (length tokens ≤ length row)%nat →
  let rk := req_key cfg tokens q in
  let values := take (key_len rk) (take (length tokens) row) in
  ∃ s' m vm, insert cfg ticks rk (Some values) prio chunked s = (Ok m, s') ∧
    inserted cfg s s' hs (prepared cfg rk) values m vm ∧ units (prepared cfg rk) = units rk ∧ key_len (prepared cfg rk) = key_len rk ∧
    length values = key_len rk.
Proof.
  intros Hps Hd Hinv Hrow rk values. destruct (req_key_facts tokens q Hps) as (Hb & Ha & Hl). fold rk in Hb, Ha, Hl.
  destruct (prepared_idem cfg rk Hps Hb Ha) as [Hu Hk].
  assert (Hv : length values = key_len rk) by (unfold values; rewrite !length_take; lia).
  destruct (insert_ok cfg ticks s hs rk (Some values) prio chunked Hps Hd Hinv) as (s' & m & vm & E & Hins).
  - intros E. by rewrite <-Hb.
  - simpl. lia.
  - exists s', m, vm. split_and!; try done. unfold given in Hins. simpl in Hins. rewrite Hk, take_ge in Hins by lia. done.
Qed.

(** The protected prefix is part of what the tree holds, so the insertion finds it. *)
Lemma protected_found s hs q tokens last k m vm :
  (0 < ps)%nat → req_holds s hs q tokens last → units k = units (req_key cfg tokens q) → longest_prefix cfg s k m vm →
  (cache_protected_len q ≤ m)%nat ∧ take (cache_protected_len q) vm = take (cache_protected_len q) (req_row q).
Proof.
  intros Hps (_ & Hinv & Hle & Hrow & Hp) Hu (Hm & Hc & Hmax). rewrite Hu in *.
  pose proof (inv_tree _ _ _ Hinv) as Ht. pose proof (holds_down ps bg _ _ _ _ _ _ Ht Hp) as Hc0.
  pose proof (Hmax _ _ (prefix_take _ _) Hc0) as Hlen. rewrite length_take, length_units in Hlen.
  assert (cache_protected_len q ≤ m)%nat as Hpm by lia. split; [done|].
  assert (Hd0 : Nat.divide ps (length (take (cache_protected_len q) (units (req_key cfg tokens q))))) by (by eapply (down_aligned ps bg (root_node s))).
  assert (Hsp : take m (units (req_key cfg tokens q)) =
    take (cache_protected_len q) (units (req_key cfg tokens q)) ++ drop (cache_protected_len q) (take m (units (req_key cfg tokens q)))).
  { rewrite <-(take_drop (cache_protected_len q) (take m _)) at 1. f_equal. by rewrite take_take, Nat.min_l. }
  rewrite Hsp in Hc. pose proof (holds_prefix ps _ _ _ _ _ Hc Hd0) as Hc1.
  rewrite length_take, length_units, Nat.min_l in Hc1 by done. by eapply (holds_det ps bg (root_node s)).
Qed.

(** [l[a:b]], [l[b:c]] and [l[c:]] make up [l[a:]]. *)
Lemma pieces {A} `{Countable A} (l : list A) (a b c : nat) :
  (a ≤ b)%nat → (b ≤ c)%nat →
  (list_to_set_disj (drop a l) : gmultiset A) =
  list_to_set_disj (py_sub l a b) ⊎ list_to_set_disj (drop b (take c l)) ⊎ list_to_set_disj (drop c l).
Proof.
  intros Hab Hbc. rewrite <-!list_to_set_disj_app. f_equal. unfold py_sub.
  rewrite <-(take_drop c l) at 1. rewrite drop_app. f_equal.
  - rewrite <-(take_drop b (take c l)) at 1. rewrite drop_app, take_take, (Nat.min_l b c) by lia. f_equal.
    replace (a - length (take b l))%nat with (a - Nat.min b (length l))%nat by (by rewrite length_take).
    destruct (Nat.le_gt_cases b (length l)) as [Hb|Hb]; [replace (a - _)%nat with 0%nat by lia; done|].
    rewrite (drop_ge (take c l) b) by (rewrite length_take; lia). by rewrite drop_nil.
  - replace (a - length (take c l))%nat with (a - Nat.min c (length l))%nat by (by rewrite length_take).
    destruct (Nat.le_gt_cases c (length l)) as [Hc|Hc]; [replace (a - _)%nat with 0%nat by lia; done|].
    rewrite (drop_ge l c) by lia. by rewrite drop_nil.
Qed.

Lemma shuffle (A B C D : gmultiset Z) : A ⊎ B ⊎ C ⊎ D = A ⊎ (C ⊎ B ⊎ D).
Proof. multiset_solver. Qed.

Lemma accounted_free s l : accounted (set_free_calls (λ f, f ++ [l]) s) = accounted s ⊎ list_to_set_disj l.
Proof. unfold accounted. rewrite freed_call, list_to_set_disj_app. simpl. multiset_solver. Qed.

Lemma accounted_inserted s s' hs k v m vm :
  inserted cfg s s' hs k v m vm → accounted s' = accounted s ⊎ list_to_set_disj (drop m v).
Proof. intros [_ _ _ Hf Hi _ _ _]. unfold accounted, freed. rewrite Hf, Hi. multiset_solver. Qed.

Lemma accounted_relock s s' : relock s s' → accounted s' = accounted s.
Proof. intros [_ Hf Hi _ _]. unfold accounted, freed. by rewrite Hf, Hi. Qed.

Lemma accounted_tidy s s' : tidy cfg s s' → accounted s' = accounted s.
Proof. intros Ht. unfold accounted, freed. by rewrite (td_freed _ _ _ Ht), (td_indices _ _ _ Ht). Qed.

Lemma free_inv s hs l : inv s hs → inv (set_free_calls (λ f, f ++ [l]) s) hs.
Proof. done. Qed.

(** ** A finished request *)

(** The tokens whose KV cache is committed. *)
Definition committed_tokens q : list Z := take (cache_commit_len rcfg q) (origin_input_ids q ++ output_ids q).

(** Handing over the part of the row behind the protected prefix, up to the key's length. *)
Lemma hand_over s hs q tokens last (is_insert : bool) prio :
  (0 < ps)%nat → disable cfg = false → req_holds s hs q tokens last →
  let rk := req_key cfg tokens q in
  let kv := take (length tokens) (req_row q) in
  ∃ s', (if is_insert
         then prefix_len ← on_cache (insert cfg ticks rk (Some (take (key_len rk) kv)) prio false);
              on_cache (free (py_sub kv (cache_protected_len q) prefix_len))
         else on_cache (free (py_sub kv (cache_protected_len q) (key_len rk)))) (s, q) = (Ok tt, (s', q)) ∧
    inv s' (last :: hs) ∧
    accounted s' ⊎ list_to_set_disj (drop (key_len rk) kv) = accounted s ⊎ list_to_set_disj (drop (cache_protected_len q) kv).
Proof.
  intros Hps Hd Hq rk kv. pose proof Hq as (_ & Hinv & Hle & Hrow & Hp). destruct is_insert.
  - destruct (req_insert s (last :: hs) tokens (req_row q) q prio false Hps Hd Hinv Hrow) as (s1 & m & vm & E & Hins & Hu & Hk & Hv).
    fold rk in E, Hins, Hu, Hk, Hv. fold kv in E, Hins, Hv.
    destruct (protected_found s hs q tokens last _ m vm Hps Hq Hu (ins_longest _ _ _ _ _ _ _ _ Hins)) as [Hpm _].
    assert (m ≤ key_len rk)%nat as Hmk by (rewrite <-Hk; apply (ins_longest _ _ _ _ _ _ _ _ Hins)).
    exists (set_free_calls (λ f, f ++ [py_sub kv (cache_protected_len q) m]) s1). split_and!.
    + rewrite (bind_Ok _ _ (s, q) m (s1, q)) by (by apply on_cache_ok). done.
    + apply free_inv, (ins_inv _ _ _ _ _ _ _ _ Hins).
    + rewrite accounted_free, (accounted_inserted _ _ _ _ _ _ _ Hins), (pieces kv (cache_protected_len q) m (key_len rk)) by done. multiset_solver.
  - exists (set_free_calls (λ f, f ++ [py_sub kv (cache_protected_len q) (key_len rk)]) s). split_and!; [done|by apply free_inv|].
    rewrite accounted_free, (pieces kv (cache_protected_len q) (key_len rk) (key_len rk)) by done.
    rewrite (drop_ge (take (key_len rk) kv)) by (rewrite length_take; lia). multiset_solver.
Qed.

Lemma cache_finished_ok s hs q last is_insert :
  (0 < ps)%nat → disable cfg = false → kv_committed_freed q = false → req_holds s hs q (committed_tokens q) last →
  ∃ s', cache_finished_req cfg rcfg ticks is_insert (s, q) = (Ok tt, (s', set_freed_flags true (kv_overallocated_freed q) q)) ∧
    inv s' hs ∧
    accounted s' = accounted s ⊎ list_to_set_disj (drop (cache_protected_len q) (take (length (committed_tokens q)) (req_row q))).
Proof.
  intros Hps Hd Hfl Hq. set (q1 := set_freed_flags true (kv_overallocated_freed q) q).
  assert (Hq1 : req_holds s hs q1 (committed_tokens q) last) by exact Hq.
  unfold cache_finished_req. rewrite (bind_Ok _ _ (s, q) (cache_commit_len rcfg q) (s, q1)).
  2:{ unfold pop_committed_kv_cache, the_req, update_req, gets, modify, mbind, M_bind. simpl. by rewrite Hfl. }
  rewrite (bind_Ok _ _ (s, q1) q1 (s, q1)) by done. rewrite Hd.
  change (take (cache_commit_len rcfg q) (origin_input_ids q1 ++ output_ids q1)) with (committed_tokens q).
  set (tokens := committed_tokens q) in *.
  destruct (hand_over s hs q1 tokens last (is_insert && negb (disable_finished_insert cfg)) (Some (default 0 (req_priority q1))) Hps Hd Hq1)
    as (s1 & E1 & Hinv1 & Hacc).
  rewrite (bind_Ok _ _ (s, q1) tt (s1, q1)) by exact E1.
  set (s2 := set_free_calls (λ f, f ++ [drop (key_len (req_key cfg tokens q1)) (take (length tokens) (req_row q1))]) s1).
  rewrite (bind_Ok _ _ (s1, q1) tt (s2, q1)) by done.
  destruct Hq1 as (-> & _). destruct (dec_lock_ref_ok cfg s2 hs last Hd (free_inv _ _ _ Hinv1)) as (s3 & E3 & Hr3 & Hinv3).
  rewrite (bind_Ok _ _ (s2, q1) _ (s3, q1)) by (by apply on_cache_ok).
  exists s3. split_and!; [done..|]. rewrite (accounted_relock _ _ Hr3). unfold s2. rewrite accounted_free. exact Hacc.
Qed.

(** With all committed tokens protected and nothing behind the key, nothing is given back. *)
Lemma finish_protected s hs q last is_insert :
  (0 < ps)%nat → disable cfg = false → kv_committed_freed q = false → last_node q = Some last → inv s (last :: hs) →
  (length (committed_tokens q) ≤ cache_protected_len q)%nat → (length (committed_tokens q) ≤ length (req_row q))%nat →
  key_len (req_key cfg (committed_tokens q) q) = length (committed_tokens q) →
  ∃ s', cache_finished_req cfg rcfg ticks is_insert (s, q) = (Ok tt, (s', set_freed_flags true (kv_overallocated_freed q) q)) ∧
    freed s' = freed s ∧ ∀ u v n, path s u v n → path s' u v n.
Proof.
  intros Hps Hd Hfl Hlast Hinv Hprot Hrow Hk. set (q1 := set_freed_flags true (kv_overallocated_freed q) q).
  unfold cache_finished_req. rewrite (bind_Ok _ _ (s, q) (cache_commit_len rcfg q) (s, q1)).
  2:{ unfold pop_committed_kv_cache, the_req, update_req, gets, modify, mbind, M_bind. simpl. by rewrite Hfl. }
  rewrite (bind_Ok _ _ (s, q1) q1 (s, q1)) by done. rewrite Hd.
  change (take (cache_commit_len rcfg q) (origin_input_ids q1 ++ output_ids q1)) with (committed_tokens q).
  change (req_key cfg (committed_tokens q) q1) with (req_key cfg (committed_tokens q) q). set (rk := req_key cfg (committed_tokens q) q) in *.
  set (tokens := committed_tokens q) in *. set (kv := take (length tokens) (req_row q1)).
  assert (Hkv : ∀ x, py_sub kv (cache_protected_len q1) x = []).
  { intros x. unfold py_sub. apply drop_ge. rewrite length_take. unfold kv. rewrite length_take. simpl. lia. }
  assert (∃ s1, (if is_insert && negb (disable_finished_insert cfg)
     then prefix_len ← on_cache (insert cfg ticks rk (Some (take (key_len rk) kv)) (Some (default 0 (req_priority q1))) false);
          on_cache (free (py_sub kv (cache_protected_len q1) prefix_len))
     else on_cache (free (py_sub kv (cache_protected_len q1) (key_len rk)))) (s, q1) = (Ok tt, (s1, q1)) ∧
     inv s1 (last :: hs) ∧ freed s1 = freed s ∧ ∀ u v n, path s u v n → path s1 u v n) as (s1 & E1 & Hinv1 & Hf1 & Hp1).
  { destruct (is_insert && negb (disable_finished_insert cfg)).
    - destruct (req_insert s (last :: hs) tokens (req_row q) q (Some (default 0 (req_priority q1))) false Hps Hd Hinv Hrow)
        as (s1 & m & vm & E & Hins & _). fold rk in E, Hins.
      exists (set_free_calls (λ f, f ++ [[]]) s1). split_and!.
      + rewrite (bind_Ok _ _ (s, q1) m (s1, q1)) by (by apply on_cache_ok). by rewrite Hkv.
      + apply free_inv, (ins_inv _ _ _ _ _ _ _ _ Hins).
      + rewrite freed_call, app_nil_r. unfold freed. by rewrite (ins_freed _ _ _ _ _ _ _ _ Hins).
      + apply Hins.
    - exists (set_free_calls (λ f, f ++ [[]]) s). rewrite Hkv. split_and!; [done|by apply free_inv|by rewrite freed_call, app_nil_r|done]. }
  rewrite (bind_Ok _ _ (s, q1) tt (s1, q1)) by exact E1.
  set (s2 := set_free_calls (λ f, f ++ [drop (key_len rk) kv]) s1). rewrite (bind_Ok _ _ (s1, q1) tt (s2, q1)) by done.
  change (last_node q1) with (last_node q). rewrite Hlast.
  destruct (dec_lock_ref_ok cfg s2 hs last Hd (free_inv _ _ _ Hinv1)) as (s3 & E3 & Hr3 & _).
  rewrite (bind_Ok _ _ (s2, q1) _ (s3, q1)) by (by apply on_cache_ok).
  exists s3. split_and!; [done| |].
  - unfold freed. rewrite (rl_freed _ _ Hr3). fold (freed s2). unfold s2. rewrite freed_call, (drop_ge kv), app_nil_r by (unfold kv; rewrite length_take; lia). done.
  - intros u v n Hp. destruct Hr3 as [R _ _ T _]. unfold path. rewrite R. eapply down_same; [exact T|]. by apply Hp1.
Qed.

(** ** An unfinished request *)

Lemma write_row_ok row (a : nat) values :
  (a ≤ length values)%nat → (length values ≤ length row)%nat →
  write_row row a (length values) (drop a values) = Ok (take a row ++ drop a values ++ drop (length values) row).
Proof.
  intros Ha Hl. unfold write_row, py_sub. rewrite !length_drop, length_take, Nat.min_l by done. rewrite Nat.eqb_refl.
  by replace (a + (length values - a))%nat with (length values) by lia.
Qed.

(** After the insertion, the whole key is cached. *)
Lemma inserted_whole s s' hs k v m vm :
  aligned ps k → length v = key_len k → length vm = m → inserted cfg s s' hs k v m vm → content s' (units k) (vm ++ drop m v).
Proof.
  intros Ha Hv Hvm [(Hm & _) _ _ _ _ _ _ Hct]. apply Hct. right. split_and!; [done| |by rewrite length_units].
  rewrite take_ge; [done|]. rewrite length_app, length_drop, length_units. lia.
Qed.

(** A lookup of a key that is cached as a whole. *)
Lemma match_whole s hs rk w :
  (0 < ps)%nat → disable cfg = false → is_bigram rk = bg → aligned ps rk → inv s hs → content s (units rk) w →
  ∃ n s', match_prefix cfg ticks rk s = (Ok (w, n), s') ∧ tidy cfg s s' ∧ path s' (units rk) w n ∧ length w = key_len rk.
Proof.
  intros Hps Hd Hb Ha Hinv Hfull. pose proof (inv_tree _ _ _ Hinv) as Ht.
  destruct (match_prefix_ok cfg ticks s hs rk Hps Hd Hinv) as (w' & n & s2 & m2 & E & Htd & (Hm2 & Hc2 & Hmax) & Hp2); [by rewrite Hb|].
  destruct (prepared_idem cfg rk Hps Hb Ha) as [Hpu Hpk]. rewrite Hpu, Hpk in *.
  pose proof (Hmax _ _ (reflexivity _) Hfull) as Hlen. rewrite length_units in Hlen.
  rewrite take_ge in Hc2, Hp2 by (rewrite length_units; lia).
  assert (w' = w) as -> by (by eapply (holds_det ps bg (root_node s) _ (root_node s))).
  exists n, s2. split_and!; try done. rewrite (holds_length ps bg _ _ _ _ _ Ht Hfull). apply length_units.
Qed.

Lemma longest_length s hs k m vm : inv s hs → longest_prefix cfg s k m vm → length vm = m.
Proof.
  intros Hinv (Hm & Hc & _). rewrite (holds_length ps bg _ _ _ _ _ (inv_tree _ _ _ Hinv) Hc), length_take, length_units. lia.
Qed.

Lemma relock_path s s' u v n : relock s s' → path s u v n → path s' u v n.
Proof. intros [R _ _ T _] Hp. unfold path. rewrite R. by eapply down_same. Qed.

(** The row behind the lookup: the tree's indices for the key, then the row's own tail. *)
Lemma new_row row w (a : nat) :
  (a ≤ length w)%nat → (length w ≤ length row)%nat → take a w = take a row →
  take (length w) (take a row ++ drop a w ++ drop (length w) row) = w ∧
  (∀ n, (length w ≤ n)%nat → drop (length w) (take n (take a row ++ drop a w ++ drop (length w) row)) = drop (length w) (take n row)) ∧
  length (take a row ++ drop a w ++ drop (length w) row) = length row.
Proof.
  intros Ha Hl Hw. rewrite <-Hw, (assoc_L (++)), take_drop. split_and!.
  - apply take_app_length.
  - intros n Hn. rewrite take_app_ge by done. rewrite drop_app_length. by rewrite take_drop_commute, Nat.add_comm, Nat.sub_add.
  - rewrite length_app, length_drop. lia.
Qed.

(** Caching a request, with all it changes. *)
Lemma cache_unfinished_all s hs q last chunked :
  (0 < ps)%nat → disable cfg = false → req_holds s hs q (fill_ids q) last →
  ∃ s' q' last', cache_unfinished_req cfg ticks chunked (s, q) = (Ok tt, (s', q')) ∧
    req_holds s' hs q' (fill_ids q) last' ∧ cache_protected_len q' = key_len (req_key cfg (fill_ids q) q) ∧
    prefix_indices q' = take (length (fill_ids q)) (req_row q') ∧
    accounted s' ⊎ list_to_set_disj (drop (cache_protected_len q') (take (length (fill_ids q)) (req_row q'))) =
    accounted s ⊎ list_to_set_disj (drop (cache_protected_len q) (take (length (fill_ids q)) (req_row q))) ∧
    (∃ row prefix, q' = set_prefix (key_len (req_key cfg (fill_ids q) q)) (Some last') prefix (set_row row q) ∧ length row = length (req_row q)) ∧
    ∃ dup, freed s' = freed s ++ dup.
Proof.
  intros Hps Hd Hq. pose proof Hq as (Hlast & Hinv & Hle & Hrow & Hp). set (tokens := fill_ids q) in *.
  destruct (req_key_facts tokens q Hps) as (Hb & Ha & Hkt). set (rk := req_key cfg tokens q) in *.
  unfold cache_unfinished_req. rewrite Hd, (bind_Ok _ _ (s, q) q (s, q)) by done. fold tokens. fold rk.
  set (kv := take (length tokens) (req_row q)). set (prot := cache_protected_len q) in *.
  destruct (req_insert s (last :: hs) tokens (req_row q) q (Some (default 0 (req_priority q))) chunked Hps Hd Hinv Hrow)
    as (s1 & m & vm & E1 & Hins & Hu & Hk & Hv). fold rk kv in E1, Hins, Hu, Hk, Hv.
  rewrite (bind_Ok _ _ (s, q) m (s1, q)) by (by apply on_cache_ok).
  destruct (protected_found s hs q tokens last _ m vm Hps Hq Hu (ins_longest _ _ _ _ _ _ _ _ Hins)) as [Hpm Hvp]. fold prot in Hpm, Hvp.
  pose proof (longest_length s _ _ m vm Hinv (ins_longest _ _ _ _ _ _ _ _ Hins)) as Hvm.
  assert (m ≤ key_len rk)%nat as Hmk by (rewrite <-Hk; apply (ins_longest _ _ _ _ _ _ _ _ Hins)).
  set (s2 := set_free_calls (λ f, f ++ [py_sub kv prot m]) s1). rewrite (bind_Ok _ _ (s1, q) tt (s2, q)) by done.
  set (w := vm ++ drop m (take (key_len rk) kv)).
  assert (Hw : content s2 (units rk) w).
  { rewrite <-Hu. apply (inserted_whole s s1 (last :: hs)); [|lia|done|done]. unfold aligned. by rewrite Hk. }
  assert (Hinv2 : inv s2 (last :: hs)) by apply free_inv, (ins_inv _ _ _ _ _ _ _ _ Hins).
  destruct (match_whole s2 (last :: hs) rk w Hps Hd Hb Ha Hinv2 Hw) as (n & s3 & E3 & Htd3 & Hp3 & Hlw).
  rewrite (bind_Ok _ _ (s2, q) (w, n) (s3, q)) by (by apply on_cache_ok). cbn beta iota.
  rewrite Hlw, Nat.eqb_refl. rewrite (bind_Ok _ _ (s3, q) tt (s3, q)) by done.
  assert (Hwp : take prot w = take prot (req_row q)) by (unfold w; rewrite take_app_le by lia; done).
  destruct (new_row (req_row q) w prot) as (Hr1 & Hr2 & Hr3); [lia|lia|done|].
  set (row := take prot (req_row q) ++ drop prot w ++ drop (length w) (req_row q)) in *.
  rewrite (bind_Ok _ _ (s3, q) row (s3, q)) by (unfold lift_res; rewrite <-Hlw; by rewrite write_row_ok by lia).
  rewrite (bind_Ok _ _ (s3, q) tt (s3, set_row row q)) by done. rewrite (bind_Ok _ _ _ tt (s3, set_prefix (key_len rk) (last_node q) (prefix_indices q) (set_row row q))) by done.
  set (q1 := set_prefix (key_len rk) (last_node q) (prefix_indices q) (set_row row q)).
  rewrite (bind_Ok _ _ (s3, q1) last (s3, q1)) by (unfold lift_res; by rewrite Hlast).
  destruct (dec_lock_ref_ok cfg s3 hs last Hd (td_inv _ _ _ Htd3 _ Hinv2)) as (s4 & E4 & Hrl4 & Hinv4).
  rewrite (bind_Ok _ _ (s3, q1) _ (s4, q1)) by (by apply on_cache_ok).
  pose proof (relock_path _ _ _ _ _ Hrl4 Hp3) as Hp4.
  destruct (inc_lock_ref_ok cfg s4 hs n Hd Hinv4) as (s5 & E5 & Hrl5 & Hinv5); [by eapply path_node|].
  rewrite (bind_Ok _ _ (s4, q1) _ (s5, q1)) by (by apply on_cache_ok).
  pose proof (relock_path _ _ _ _ _ Hrl5 Hp4) as Hp5.
  eexists s5, _, n. split; [done|]. simpl. fold tokens. rewrite Hlw in Hr1, Hr2. split_and!; try done.
  - unfold req_holds. simpl. change (req_key cfg tokens _) with rk. rewrite Hr1, (take_ge (units rk)) by (by rewrite length_units).
    split_and!; try done. by rewrite Hr3.
  - assert (Hsp : take (length tokens) row = w ++ drop (key_len rk) (take (length tokens) row)).
    { rewrite <-Hr1 at 1. rewrite <-(take_drop (key_len rk) (take (length tokens) row)) at 1. f_equal. rewrite take_take. f_equal. lia. }
    unfold kv. rewrite length_take, Nat.min_l by done. destruct (Nat.ltb_spec (key_len rk) (length tokens)); [done|].
    rewrite Hsp, drop_ge by (rewrite length_take; lia). by rewrite app_nil_r.
  - rewrite Hr2 by done. rewrite (accounted_relock _ _ Hrl5), (accounted_relock _ _ Hrl4), (accounted_tidy _ _ Htd3).
    unfold s2. rewrite accounted_free, (accounted_inserted _ _ _ _ _ _ _ Hins), (pieces kv prot m (key_len rk)) by done. apply shuffle.
  - by eexists row, _.
  - exists (py_sub kv prot m). unfold freed. rewrite (rl_freed _ _ Hrl5), (rl_freed _ _ Hrl4), (td_freed _ _ _ Htd3). fold (freed s2).
    unfold s2. rewrite freed_call. unfold freed. by rewrite (ins_freed _ _ _ _ _ _ _ _ Hins).
Qed.

Lemma cache_unfinished_ok s hs q last chunked :
  (0 < ps)%nat → disable cfg = false → req_holds s hs q (fill_ids q) last →
  ∃ s' q' last', cache_unfinished_req cfg ticks chunked (s, q) = (Ok tt, (s', q')) ∧
    req_holds s' hs q' (fill_ids q) last' ∧ cache_protected_len q' = key_len (req_key cfg (fill_ids q) q) ∧
    prefix_indices q' = take (length (fill_ids q)) (req_row q') ∧
    accounted s' ⊎ list_to_set_disj (drop (cache_protected_len q') (take (length (fill_ids q)) (req_row q'))) =
    accounted s ⊎ list_to_set_disj (drop (cache_protected_len q) (take (length (fill_ids q)) (req_row q))).
Proof.
  intros Hps Hd Hq. destruct (cache_unfinished_all s hs q last chunked Hps Hd Hq) as (s' & q' & last' & E & H1 & H2 & H3 & H4 & _).
  by exists s', q', last'.
Qed.

(** ** Longer token lists *)

Lemma bigrams_prefix (l l' : list Z) : bigrams l `prefix_of` bigrams (l ++ l').
Proof.
  induction l as [|a [|b l] IH]; [by exists (bigrams l')|exists (bigrams ([a] ++ l')); done|].
  simpl in *. by apply prefix_cons.
Qed.

Lemma units_prefix tokens more e b : units (mk_key tokens e b) `prefix_of` units (mk_key (tokens ++ more) e b).
Proof.
  unfold units, plain_units. simpl. destruct b.
  - destruct (bigrams_prefix tokens more) as [x ->]. rewrite fmap_app. by exists ((λ u, (e, u)) <$> x).
  - rewrite !fmap_app. by eexists.
Qed.

(** The whole pages of a token list are those of a longer one. *)
Lemma req_key_prefix tokens more q :
  (0 < ps)%nat → units (req_key cfg tokens q) `prefix_of` units (req_key cfg (tokens ++ more) q).
Proof.
  intros Hps. unfold req_key.
  destruct (page_aligned_facts cfg (mk_key tokens (req_extra_key q) bg) Hps) as (_ & _ & _ & ->).
  destruct (page_aligned_facts cfg (mk_key (tokens ++ more) (req_extra_key q) bg) Hps) as (_ & _ & _ & ->).
  destruct (units_prefix tokens more (req_extra_key q) bg) as [x Ex]. set (k1 := mk_key tokens _ _) in *. set (k2 := mk_key (tokens ++ more) _ _) in *.
  pose proof (length_units k1) as L1. pose proof (length_units k2) as L2. rewrite Ex, length_app in L2.
  pose proof (round_down_le ps (key_len k1)) as R1.
  pose proof (round_down_ge ps (round_down ps (key_len k1)) (key_len k2) Hps (round_down_divide _ _) ltac:(lia)) as R2.
  rewrite Ex. exists (drop (round_down ps (key_len k1)) (take (round_down ps (key_len k2)) (units k1 ++ x))).
  rewrite <-(take_drop (round_down ps (key_len k1)) (take (round_down ps (key_len k2)) (units k1 ++ x))) at 1. f_equal.
  rewrite take_take, Nat.min_l, take_app_le by lia. done.
Qed.

(** A request holds the same prefix of longer token lists. *)
Lemma req_holds_extend s hs q tokens more last :
  (0 < ps)%nat → req_holds s hs q tokens last → (length (tokens ++ more) ≤ length (req_row q))%nat →
  req_holds s hs q (tokens ++ more) last.
Proof.
  intros Hps (Hl & Hi & Hle & Hr & Hp) Hr'. destruct (req_key_prefix tokens more q Hps) as [x Ex].
  pose proof (f_equal length Ex) as Hlen. rewrite length_app, !length_units in Hlen. split_and!; try done; [lia|].
  rewrite Ex. by rewrite take_app_le by (rewrite length_units; lia).
Qed.

(** ** The lookup of a request *)

Lemma prepared_req_key tokens q : prepared cfg (mk_key tokens (req_extra_key q) false) = req_key cfg tokens q.
Proof. unfold prepared, req_key, maybe_to_bigram_view. by destruct bg. Qed.

(** The tokens that are looked up: all but the last one, and none behind the first token
    whose log probability is wanted. *)
Definition lookup_tokens q : list Z :=
  if positional_embed_overrides q then []
  else take (Z.to_nat (compute_max_prefix_len q (length (origin_input_ids q ++ output_ids q)))) (origin_input_ids q ++ output_ids q).

(** What the lookup finds: the longest cached prefix, or nothing when misses are forced. *)
Definition looks_up s q (m : nat) (w : list Z) : Prop :=
  if radix_force_miss rcfg then m = 0%nat ∧ w = [] else longest_prefix cfg s (req_key cfg (lookup_tokens q) q) m w.

Lemma lookup_ok s hs q :
  (0 < ps)%nat → disable cfg = false → inv s hs →
  ∃ s' last m w, init_next_round_input cfg rcfg ticks (s, q) =
      (Ok tt, (s', set_prefix m (Some last) w (set_fill_ids (origin_input_ids q ++ output_ids q) q))) ∧
    tidy cfg s s' ∧ looks_up s q m w ∧ length w = m ∧ (m ≤ key_len (req_key cfg (lookup_tokens q) q))%nat ∧
    path s' (take m (units (req_key cfg (lookup_tokens q) q))) w last.
Proof.
  intros Hps Hd Hinv. unfold init_next_round_input.
  set (q1 := set_fill_ids (origin_input_ids q ++ output_ids q) q). rewrite (bind_Ok _ _ (s, q) tt (s, q1)) by done.
  rewrite (bind_Ok _ _ (s, q1) q1 (s, q1)) by done. simpl fill_ids. simpl positional_embed_overrides. simpl req_extra_key.
  change (compute_max_prefix_len q1) with (compute_max_prefix_len q). fold (lookup_tokens q).
  destruct (match_prefix_ok cfg ticks s hs (mk_key (lookup_tokens q) (req_extra_key q) false) Hps Hd Hinv) as (w & n & s1 & m & E & Htd & Hlp & Hp); [done|].
  rewrite prepared_req_key in Hlp, Hp. rewrite (bind_Ok _ _ (s, q1) (w, n) (s1, q1)) by (by apply on_cache_ok).
  rewrite (bind_Ok _ _ (s1, q1) (root_node s1) (s1, q1)) by done. unfold looks_up. destruct (radix_force_miss rcfg).
  - exists s1, (root_node s1), 0%nat, []. split_and!; try done; [lia|]. constructor.
  - pose proof (longest_length _ _ _ _ _ Hinv Hlp) as Hw. exists s1, n, m, w. split_and!; try done; [by rewrite Hw|by destruct Hlp].
Qed.
End ReqFacts.
