(* ===== verification/RadixProps.v ===== *)
(** * Histories and properties of the radix cache

    The order of the locked paths does not matter; unlocking undoes locking; the two sizes
    count the indices of the tree; and the histories of a cache, as sequences of operations
    that return, with the indices that were handed to it. *)

From stdpp Require Import gmultiset.
From S2P Require Import Prelude RadixKey RadixCache RadixFacts RadixInv RadixOps RadixLocks RadixApi RadixReqFacts RadixReq.
Local Open Scope Z_scope.


Section Runs.
Context (cfg : CacheConfig) (ticks : nat → Z).
Local Abbreviation ps := (page_size cfg).
Local Abbreviation bg := (is_eagle cfg).
Local Abbreviation inv := (inv cfg).
Implicit Types (s : Cache) (hs : list nat) (G : gmultiset Z).

(** ** Locked paths *)

Lemma Forall2_perm {A B} (R : A → B → Prop) (l l' : list A) (k : list B) :
  l ≡ₚ l' → Forall2 R l k → ∃ k', k ≡ₚ k' ∧ Forall2 R l' k'.
Proof.
  intros Hp. revert k. induction Hp as [|x l l' Hp IH|x y l|l1 l2 l3 H1 IH1 H2 IH2]; intros k Hk.
  - by exists k.
  - apply Forall2_cons_inv_l in Hk as (b & k0 & Hb & Hk & ->). destruct (IH _ Hk) as (k' & ? & ?). exists (b :: k'). by split; constructor.
  - apply Forall2_cons_inv_l in Hk as (b & k0 & Hb & Hk & ->). apply Forall2_cons_inv_l in Hk as (b' & k1 & Hb' & Hk & ->).
    exists (b' :: b :: k1). split; [apply Permutation_swap|]. by repeat constructor.
  - destruct (IH1 _ Hk) as (k1 & P1 & Hk1). destruct (IH2 _ Hk1) as (k2 & P2 & Hk2). exists k2. split; [by etrans|done].
Qed.

Lemma inv_perm s hs hs' : hs ≡ₚ hs' → inv s hs → inv s hs'.
Proof.
  intros Hp (ls & Hc & Hi). destruct (Forall2_perm _ _ _ _ Hp Hc) as (ls' & Hpl & Hc'). exists ls'. split; [done|].
  eapply parts_holders; [| |exact Hi].
  - intros n. unfold holders. by rewrite Hpl.
  - intros l n Hl Hn. exists l. by rewrite Hpl.
Qed.

(** ** Sums *)

Lemma msum_ext (f : nat → TreeNode → Z) H H' : (∀ n, f n <$> H !! n = f n <$> H' !! n) → msum f H = msum f H'.
Proof.
  revert H'. induction H as [|n nd H En IH] using map_ind; intros H' Hf.
  - assert (H' = ∅) as ->; [|done]. apply map_empty. intros n. specialize (Hf n). rewrite lookup_empty in Hf. by destruct (H' !! n).
  - pose proof (Hf n) as Hn. rewrite lookup_insert_eq in Hn. destruct (H' !! n) as [nd'|] eqn:En'; [|done]. simpl in Hn. injection Hn as Hn.
    rewrite msum_insert by done. rewrite (IH (delete n H')).
    + rewrite (msum_delete f H' n nd') by done. lia.
    + intros m. specialize (Hf m). destruct (decide (m = n)) as [->|Hm]; [by rewrite En, lookup_delete_eq|].
      rewrite lookup_insert_ne in Hf by done. by rewrite lookup_delete_ne.
Qed.

(** Same tree, same locked paths: the same sizes. *)
Lemma inv_sizes s s' hs :
  inv s hs → inv s' hs → same_tree (nodes s) (nodes s') → root_node s' = root_node s →
  evictable_size_ s' = evictable_size_ s ∧ protected_size_ s' = protected_size_ s ∧
  ∀ n nd nd', nodes s !! n = Some nd → nodes s' !! n = Some nd' → lock_ref nd' = lock_ref nd.
Proof.
  intros (ls & Hc & Hi) (ls' & Hc' & Hi') Hst Hr. rewrite Hr in Hc', Hi'.
  assert (ls' = ls) as ->.
  { clear Hi Hi'. revert ls' Hc'. induction Hc as [|h l hs ls Hl Hc IH]; intros ls' Hc'.
    - by inversion Hc'.
    - apply Forall2_cons_inv_l in Hc' as (l' & ls0 & Hl' & Hc' & ->). f_equal; [|by apply IH].
      symmetry. eapply chain_det; [|exact Hl']. by eapply chain_same. }
  assert (Hlk : ∀ n nd nd', nodes s !! n = Some nd → nodes s' !! n = Some nd' → lock_ref nd' = lock_ref nd).
  { intros n nd nd' E E'. destruct (decide (n = root_node s)) as [->|Hn].
    - by rewrite (p_root _ _ _ _ _ _ _ _ _ Hi nd E), (p_root _ _ _ _ _ _ _ _ _ Hi' nd' E').
    - by rewrite (p_locks _ _ _ _ _ _ _ _ _ Hi n nd E Hn), (p_locks _ _ _ _ _ _ _ _ _ Hi' n nd' E' Hn). }
  split_and!; [| |done].
  all: rewrite ?(p_evictable _ _ _ _ _ _ _ _ _ Hi), ?(p_evictable _ _ _ _ _ _ _ _ _ Hi'),
    ?(p_protected _ _ _ _ _ _ _ _ _ Hi), ?(p_protected _ _ _ _ _ _ _ _ _ Hi'); apply msum_ext; intros n; specialize (Hst n);
    destruct (nodes s !! n) as [nd|] eqn:E, (nodes s' !! n) as [nd'|] eqn:E'; try done; simpl in *; f_equal;
    unfold evictable_of, protected_of; destruct Hst as (_ & _ & -> & _); by rewrite (Hlk n nd nd' E E').
Qed.

Lemma size_of_list (l : list Z) : size (list_to_set_disj l : gmultiset Z) = length l.
Proof. induction l as [|x l IH]; [done|]. simpl. by rewrite gmultiset_size_disj_union, gmultiset_size_singleton, IH. Qed.

(** The two sizes count the indices in the tree. *)
Lemma sizes_count s hs : inv s hs → evictable_size_ s + protected_size_ s = size (indices (nodes s)).
Proof.
  intros (ls & _ & Hi). rewrite (p_evictable _ _ _ _ _ _ _ _ _ Hi), (p_protected _ _ _ _ _ _ _ _ _ Hi).
  pose proof (p_tree _ _ _ _ _ _ _ _ _ Hi) as Ht.
  assert (Hlen : ∀ n nd, nodes s !! n = Some nd → evictable_of (root_node s) n nd + protected_of (root_node s) n nd = length (value nd)).
  { intros n nd E. unfold evictable_of, protected_of. destruct (Nat.eqb_spec n (root_node s)) as [->|Hn]; simpl.
    - destruct (t_root _ _ _ _ Ht) as (rd & E' & _ & Hv). simplify_eq. by rewrite Hv.
    - destruct (t_segment _ _ _ _ Ht n nd E Hn) as (_ & _ & _ & ->). destruct (0 <? lock_ref nd); simpl; lia. }
  clear Hi Ht. revert Hlen. generalize (root_node s) as r. induction (nodes s) as [|n nd H En IH] using map_ind; intros r Hlen; [done|].
  rewrite !msum_insert, indices_insert, gmultiset_size_disj_union by done. unfold seg_indices. rewrite size_of_list.
  rewrite Nat2Z.inj_add, <-(IH r), <-(Hlen n nd) by (apply lookup_insert_eq || (intros m md Em; apply Hlen; rewrite lookup_insert_ne; congruence)). lia.
Qed.

(** ** Histories *)

(** A state of a cache that started empty and on which operations ran and returned: [hs] are
    the nodes whose paths are locked, [G] the indices the insertions added. A node is locked
    when it is in the tree, and unlocked as often as it was locked. *)
Inductive reach : Cache → list nat → gmultiset Z → Prop :=
  | reach_init : reach (init_cache ticks) [] ∅
  | reach_match s hs G k r s' :
      reach s hs G → (is_bigram k = true → bg = true) → match_prefix cfg ticks k s = (Ok r, s') → reach s' hs G
  | reach_insert s hs G k v prio chunked m s' :
      reach s hs G → (is_bigram k = true → bg = true) → enough cfg k v → insert cfg ticks k v prio chunked s = (Ok m, s') →
      reach s' hs (G ⊎ list_to_set_disj (drop m (given (prepared cfg k) v)))
  | reach_lock s hs G n z s' :
      reach s hs G → is_Some (nodes s !! n) → inc_lock_ref cfg n s = (Ok z, s') → reach s' (n :: hs) G
  | reach_unlock s hs hs' G n z s' :
      reach s hs G → hs ≡ₚ n :: hs' → dec_lock_ref cfg n s = (Ok z, s') → reach s' hs' G
  | reach_evict s hs G num z s' : reach s hs G → evict cfg num s = (Ok z, s') → reach s' hs G.

Lemma inv_root_locked s hs : inv s hs → root_locked (root_node s) (nodes s).
Proof. intros (ls & _ & Hi) rd E. rewrite (p_root _ _ _ _ _ _ _ _ _ Hi rd E). lia. Qed.

Lemma accounted_evict s s' hs fr :
  (0 < ps)%nat → inv s hs → evictions cfg (nodes s) fr (nodes s') → freed s' = freed s ++ fr → accounted s' = accounted s.
Proof.
  intros Hps Hinv Hev Hf. unfold accounted. rewrite Hf, list_to_set_disj_app.
  rewrite (evictions_indices cfg (root_node s) (nodes s) fr (nodes s') Hps (inv_tree _ _ _ Hinv) (inv_root_locked _ _ Hinv) Hev).
  multiset_solver.
Qed.

Lemma reach_inv s hs G : (0 < ps)%nat → disable cfg = false → reach s hs G → inv s hs ∧ accounted s = G.
Proof.
  intros Hps Hd. induction 1 as [|s hs G k r s' _ [IH HG] Hb E|s hs G k v prio chunked m s' _ [IH HG] Hb He E
    |s hs G n z s' _ [IH HG] Hn E|s hs hs' G n z s' _ [IH HG] Hp E|s hs G num z s' _ [IH HG] E].
  - split; [apply init_cache_inv|]. unfold accounted, init_cache, reset. simpl. unfold indices. rewrite map_fold_singleton. simpl. multiset_solver.
  - destruct (match_prefix_ok cfg ticks s hs k Hps Hd IH Hb) as (v & q & s1 & m & E' & Htd & _). rewrite E in E'. injection E' as -> ->.
    split; [by apply (td_inv _ _ _ Htd)|]. by rewrite (accounted_tidy _ _ _ Htd).
  - destruct (insert_ok cfg ticks s hs k v prio chunked Hps Hd IH Hb He) as (s1 & m1 & vm & E' & Hins). rewrite E in E'. injection E' as -> ->.
    split; [apply Hins|]. by rewrite (accounted_inserted cfg ticks s s1 hs (prepared cfg k) (given (prepared cfg k) v) m1 vm Hins), HG.
  - destruct (inc_lock_ref_ok cfg s hs n Hd IH Hn) as (s1 & E' & Hr & Hi). rewrite E in E'. injection E' as -> ->.
    split; [done|]. by rewrite (accounted_relock _ _ Hr).
  - destruct (dec_lock_ref_ok cfg s hs' n Hd (inv_perm _ _ _ Hp IH)) as (s1 & E' & Hr & Hi). rewrite E in E'. injection E' as -> ->.
    split; [done|]. by rewrite (accounted_relock _ _ Hr).
  - destruct (evict_ok cfg s hs num Hps Hd IH) as (fr & s1 & E' & Hev & _ & Hi & Hf%gave_freed & _). rewrite E in E'. injection E' as -> ->.
    split; [done|]. by rewrite (accounted_evict s s1 hs fr).
Qed.
End Runs.

(** ** What the radix cache guarantees

    The properties of the cache of the language-model runtime: every history keeps its
    invariant and loses no index, a lookup finds the longest cached prefix, an insertion adds
    exactly the rest, eviction spares what is locked and follows its strategy, unlocking
    undoes locking, and requests hand their indices over exactly once. *)

(** ** A small cache: one key of three tokens, whose path is locked once *)

Local Abbreviation cfg0 := (mk_cache_config false 1 false false LRU).
Local Abbreviation key0 := (mk_key [1; 2; 3] None false).
Local Abbreviation clock0 := Z.of_nat.
Local Abbreviation demo := (insert cfg0 clock0 key0 (Some [10; 11; 12]) None false (init_cache clock0)).2.
Local Abbreviation locked := (inc_lock_ref cfg0 1 demo).2.

Lemma demo_reach : reach cfg0 clock0 demo [] (∅ ⊎ list_to_set_disj (drop 0 (given (prepared cfg0 key0) (Some [10; 11; 12])))).
Proof.
  eapply (reach_insert cfg0 clock0 (init_cache clock0) [] ∅ key0 (Some [10; 11; 12]) None false 0).
  - apply reach_init.
  - done.
  - apply Nat.leb_le. by vm_compute.
  - by vm_compute.
Qed.

Lemma demo_inv : inv cfg0 demo [].
Proof. by apply (reach_inv cfg0 clock0 demo [] _ (le_n 1) eq_refl demo_reach). Qed.

Lemma demo_node : is_Some (nodes demo !! 1%nat).
Proof. eexists. by vm_compute. Qed.

Lemma locked_inv : inv cfg0 locked [1%nat].
Proof. destruct (inc_lock_ref_ok cfg0 demo [] 1 eq_refl demo_inv demo_node) as (s' & E & _ & Hi). by rewrite E. Qed.

Lemma inv_handle cfg s hs h : inv cfg s hs → h ∈ hs → is_Some (nodes s !! h).
Proof.
  intros (ls & Hc & Hi) Hh. apply list_elem_of_lookup in Hh as [i Ei]. destruct (Forall2_lookup_l _ _ _ _ _ Hc Ei) as (l & _ & Hl).
  destruct Hl as [|n nd p l _ E _ _]; [|eauto]. destruct (t_root _ _ _ _ (p_tree _ _ _ _ _ _ _ _ _ Hi)) as (rd & E & _). eauto.
Qed.

(** ** Histories *)

(** C16 - Whatever operations run on a cache that starts empty, and whatever is locked: the
    cache keeps its invariant (the tree is well formed, a node's reference count is the number
    of locked paths through it, the evictable leaves are the unlocked nodes without
    children), the evictable and the protected size together count the KV indices in the
    tree, and every index that insertions added is in the tree or was given back, exactly
    once. *)
Theorem radix_history cfg ticks s hs G :
  (0 < page_size cfg)%nat → disable cfg = false → reach cfg ticks s hs G →
  inv cfg s hs ∧ evictable_size_ s + protected_size_ s = size (indices (nodes s)) ∧
  indices (nodes s) ⊎ list_to_set_disj (freed s) = G.
Proof.
  intros Hps Hd Hr. destruct (reach_inv cfg ticks s hs G Hps Hd Hr) as [Hi HG]. split_and!; [done| |done].
  by apply (sizes_count cfg s hs).
Qed.

Lemma radix_history_witness :
  inv cfg0 demo [] ∧ evictable_size_ demo + protected_size_ demo = size (indices (nodes demo)) ∧
  indices (nodes demo) ⊎ list_to_set_disj (freed demo) = ∅ ⊎ list_to_set_disj (drop 0 (given (prepared cfg0 key0) (Some [10; 11; 12]))).
Proof. apply (radix_history cfg0 clock0 demo [] _ (le_n 1) eq_refl demo_reach). Defined.

(** ** Lookup *)

(** C17 - A lookup always returns; it returns the indices of the longest prefix of whole pages
    of the key that the cache holds, and a node whose path spells exactly that prefix; it
    gives nothing back, and changes neither what the cache holds nor its sizes and locks,
    though it may split a node. *)
Theorem match_prefix_longest cfg ticks s hs k :
  (0 < page_size cfg)%nat → disable cfg = false → inv cfg s hs → (is_bigram k = true → is_eagle cfg = true) →
  ∃ v n s' m, match_prefix cfg ticks k s = (Ok (v, n), s') ∧ longest_prefix cfg s (prepared cfg k) m v ∧
    path s' (take m (units (prepared cfg k))) v n ∧ inv cfg s' hs ∧ freed s' = freed s ∧
    evictable_size_ s' = evictable_size_ s ∧ protected_size_ s' = protected_size_ s ∧
    ∀ u w, content cfg s' u w ↔ content cfg s u w.
Proof.
  intros Hps Hd Hi Hb. destruct (match_prefix_ok cfg ticks s hs k Hps Hd Hi Hb) as (v & n & s' & m & E & Htd & Hlp & Hp).
  exists v, n, s', m. split_and!; try done; [by apply (td_inv _ _ _ Htd)|first [apply Htd|apply same_calls, Htd]..].
Qed.

Lemma match_prefix_longest_witness :
  ∃ v n s' m, match_prefix cfg0 clock0 (mk_key [1; 2; 9] None false) demo = (Ok (v, n), s') ∧
    longest_prefix cfg0 demo (prepared cfg0 (mk_key [1; 2; 9] None false)) m v ∧
    path s' (take m (units (prepared cfg0 (mk_key [1; 2; 9] None false)))) v n ∧ inv cfg0 s' [] ∧ freed s' = freed demo ∧
    evictable_size_ s' = evictable_size_ demo ∧ protected_size_ s' = protected_size_ demo ∧
    ∀ u w, content cfg0 s' u w ↔ content cfg0 demo u w.
Proof.
  apply (match_prefix_longest cfg0 clock0 demo [] (mk_key [1; 2; 9] None false) (le_n 1) eq_refl demo_inv). discriminate.
Defined.

(** ** Insertion *)

(** C18 - An insertion returns the length [m] of the longest cached prefix of the key, and adds
    exactly the rest: afterwards the cache holds what it held and the prefixes, of whole
    pages, of the key, with the old indices for the first [m] units and the given ones
    behind them; only those new indices enter the tree and the evictable size; nothing is
    given back, and the locks stay. *)
Theorem insert_extends cfg ticks s hs k v prio chunked :
  (0 < page_size cfg)%nat → disable cfg = false → inv cfg s hs → (is_bigram k = true → is_eagle cfg = true) → enough cfg k v →
  let k' := prepared cfg k in
  let new := given k' v in
  ∃ s' m vm, insert cfg ticks k v prio chunked s = (Ok m, s') ∧ longest_prefix cfg s k' m vm ∧ inv cfg s' hs ∧ freed s' = freed s ∧
    indices (nodes s') = indices (nodes s) ⊎ list_to_set_disj (drop m new) ∧
    evictable_size_ s' = evictable_size_ s + (key_len k' - m) ∧ protected_size_ s' = protected_size_ s ∧
    ∀ u w, content cfg s' u w ↔ content cfg s u w ∨
      u `prefix_of` units k' ∧ w = take (length u) (vm ++ drop m new) ∧ Nat.divide (page_size cfg) (length u).
Proof.
  intros Hps Hd Hi Hb He k' new. destruct (insert_ok cfg ticks s hs k v prio chunked Hps Hd Hi Hb He) as (s' & m & vm & E & Hins).
  exists s', m, vm. split_and!; try done; first [apply Hins|apply same_calls, Hins].
Qed.

Lemma insert_extends_witness :
  let k' := prepared cfg0 (mk_key [1; 2; 9] None false) in
  let new := given k' (Some [10; 11; 20]) in
  ∃ s' m vm, insert cfg0 clock0 (mk_key [1; 2; 9] None false) (Some [10; 11; 20]) None false demo = (Ok m, s') ∧
    longest_prefix cfg0 demo k' m vm ∧ inv cfg0 s' [] ∧ freed s' = freed demo ∧
    indices (nodes s') = indices (nodes demo) ⊎ list_to_set_disj (drop m new) ∧
    evictable_size_ s' = evictable_size_ demo + (key_len k' - m) ∧ protected_size_ s' = protected_size_ demo ∧
    ∀ u w, content cfg0 s' u w ↔ content cfg0 demo u w ∨
      u `prefix_of` units k' ∧ w = take (length u) (vm ++ drop m new) ∧ Nat.divide (page_size cfg0) (length u).
Proof.
  apply (insert_extends cfg0 clock0 demo [] (mk_key [1; 2; 9] None false) (Some [10; 11; 20]) None false (le_n 1) eq_refl demo_inv).
  - discriminate.
  - apply Nat.leb_le. vm_compute. reflexivity.
Defined.

(** ** Eviction *)

(** C19 - Eviction returns the number of tokens it gave back: at least the number asked for,
    or all that is evictable. It removes unlocked leaves one by one, each time one that no
    other unlocked leaf precedes in the order of the strategy. Locked paths stay as they
    are, nothing new is held, and the indices given back are those that left the tree. *)
Theorem evict_sound cfg s hs num :
  (0 < page_size cfg)%nat → disable cfg = false → inv cfg s hs →
  ∃ fr s', evict cfg num s = (Ok (length fr : Z), s') ∧ inv cfg s' hs ∧ (num ≤ length fr ∨ evictable_size_ s' = 0) ∧
    evictions cfg (nodes s) fr (nodes s') ∧ freed s' = freed s ++ fr ∧ indices (nodes s) = list_to_set_disj fr ⊎ indices (nodes s') ∧
    evictable_size_ s' = evictable_size_ s - length fr ∧ protected_size_ s' = protected_size_ s ∧
    (∀ h u v, h ∈ hs → path s u v h → path s' u v h) ∧ ∀ u v, content cfg s' u v → content cfg s u v.
Proof.
  intros Hps Hd Hi. destruct (evict_ok cfg s hs num Hps Hd Hi) as (fr & s' & E & Hev & Hr & Hi' & Hf%gave_freed & Hes & Hp & Hdone).
  pose proof (inv_tree _ _ _ Hi) as Ht. pose proof (inv_root_locked _ _ _ Hi) as Hrl.
  exists fr, s'. split_and!; try done.
  - by apply (evictions_indices cfg (root_node s)).
  - intros h u v Hh Hpath. unfold path. rewrite Hr. eapply (evictions_path cfg (root_node s)); try done. by eapply inv_handle.
  - intros u v. unfold content. rewrite Hr. by apply (evictions_holds cfg (root_node s) (nodes s) fr).
Qed.

Lemma evict_sound_witness :
  ∃ fr s', evict cfg0 2 locked = (Ok (length fr : Z), s') ∧ inv cfg0 s' [1%nat] ∧ (2 ≤ length fr ∨ evictable_size_ s' = 0) ∧
    evictions cfg0 (nodes locked) fr (nodes s') ∧ freed s' = freed locked ++ fr ∧
    indices (nodes locked) = list_to_set_disj fr ⊎ indices (nodes s') ∧
    evictable_size_ s' = evictable_size_ locked - length fr ∧ protected_size_ s' = protected_size_ locked ∧
    (∀ h u v, h ∈ [1%nat] → path locked u v h → path s' u v h) ∧ ∀ u v, content cfg0 s' u v → content cfg0 locked u v.
Proof. apply (evict_sound cfg0 locked [1%nat] 2 (le_n 1) eq_refl locked_inv). Defined.

(** ** Locks *)

(** Locking a node's path and unlocking it again restores every reference count and both
    sizes; in between, the cache holds the same, and the change of the evictable size is what
    each call returns. *)
Theorem unlock_restores cfg s hs n :
  disable cfg = false → inv cfg s hs → is_Some (nodes s !! n) →
  ∃ s1 s2, inc_lock_ref cfg n s = (Ok (evictable_size_ s1 - evictable_size_ s), s1) ∧
    dec_lock_ref cfg n s1 = (Ok (evictable_size_ s - evictable_size_ s1), s2) ∧
    inv cfg s1 (n :: hs) ∧ inv cfg s2 hs ∧ (∀ u v, content cfg s1 u v ↔ content cfg s u v) ∧
    evictable_size_ s2 = evictable_size_ s ∧ protected_size_ s2 = protected_size_ s ∧
    ∀ m md md', nodes s !! m = Some md → nodes s2 !! m = Some md' → lock_ref md' = lock_ref md.
Proof.
  intros Hd Hi Hn. destruct (inc_lock_ref_ok cfg s hs n Hd Hi Hn) as (s1 & E1 & R1 & I1).
  destruct (dec_lock_ref_ok cfg s1 hs n Hd I1) as (s2 & E2 & R2 & I2). pose proof (relock_trans _ _ _ R1 R2) as R.
  destruct (inv_sizes cfg s s2 hs Hi I2 (rl_tree _ _ R) (rl_root _ _ R)) as (H1 & H2 & H3).
  exists s1, s2. split_and!; try done; [by rewrite <-H1|]. intros u v. by apply relock_content.
Qed.

Lemma unlock_restores_witness :
  ∃ s1 s2, inc_lock_ref cfg0 1 demo = (Ok (evictable_size_ s1 - evictable_size_ demo), s1) ∧
    dec_lock_ref cfg0 1 s1 = (Ok (evictable_size_ demo - evictable_size_ s1), s2) ∧
    inv cfg0 s1 [1%nat] ∧ inv cfg0 s2 [] ∧ (∀ u v, content cfg0 s1 u v ↔ content cfg0 demo u v) ∧
    evictable_size_ s2 = evictable_size_ demo ∧ protected_size_ s2 = protected_size_ demo ∧
    ∀ m md md', nodes demo !! m = Some md → nodes s2 !! m = Some md' → lock_ref md' = lock_ref md.
Proof. apply (unlock_restores cfg0 demo [] 1 eq_refl demo_inv demo_node). Defined.
