(* ===== verification/RadixReqProps.v ===== *)
(** * What requests guarantee of the radix cache

    A request looks its prefix up, caches its tokens while it runs and gives its KV indices up
    when it finishes; each of its own indices goes to the tree or back to the allocator
    exactly once. With the thinking part stripped, a request that was retracted does not
    keep to it. *)

From stdpp Require Import gmultiset.
From S2P Require Import Prelude RadixKey RadixCache RadixFacts RadixInv RadixOps RadixLocks RadixApi RadixReq RadixReqFacts RadixProps.
Local Open Scope Z_scope.

(** ** A request on the small cache *)

Local Abbreviation cfg0 := (mk_cache_config false 1 false false LRU).
Local Abbreviation rcfg0 := (mk_req_config false false false).
Local Abbreviation clock0 := Z.of_nat.
Local Abbreviation key0 := (mk_key [1; 2; 3] None false).
Local Abbreviation demo := (insert cfg0 clock0 key0 (Some [10; 11; 12]) None false (init_cache clock0)).2.
Local Abbreviation locked := (inc_lock_ref cfg0 1 demo).2.
Local Abbreviation q0 :=
  (mk_req [1; 2; 3; 4] [] [1; 2; 3; 4] None None false 0 false false 0 4 4 false false 3 (Some 1%nat) [10; 11; 12] (Some 1%nat) [10; 11; 12; 13]).

Lemma locked_path : path locked [(None, (1, None)); (None, (2, None)); (None, (3, None))] [10; 11; 12] 1.
Proof.
  assert (E0 : ∃ rd, nodes locked !! root_node locked = Some rd ∧ children rd !! (None, [(1, None)]) = Some 1%nat).
  { eexists. by vm_compute. }
  destruct E0 as (rd & E0 & Ec).
  apply (down_child (nodes locked) (root_node locked) rd (None, [(1, None)]) 1 (mk_node ∅ (Some 0%nat) key0 [10; 11; 12] 1 3 4 1 0) E0 Ec).
  by vm_compute.
Qed.

Lemma q0_holds : req_holds cfg0 locked [] q0 [1; 2; 3; 4] 1.
Proof.
  split; [done|]. split; [apply locked_inv|]. split; [apply Nat.leb_le; by vm_compute|].
  split; [apply Nat.leb_le; by vm_compute|]. exact locked_path.
Qed.

(** ** Finishing *)

(** C27 - A finished request whose last node stands for the protected part of its row hands over
    the rest of its committed indices: the indices in the tree and those given back grow by
    exactly those, whether its tokens are inserted or not; the lock of the request is
    released, the invariant stays. *)
Theorem finished_conserves cfg rcfg ticks s hs q last is_insert :
  (0 < page_size cfg)%nat → disable cfg = false → kv_committed_freed q = false →
  req_holds cfg s hs q (committed_tokens rcfg q) last →
  ∃ s', cache_finished_req cfg rcfg ticks is_insert (s, q) = (Ok tt, (s', set_freed_flags true (kv_overallocated_freed q) q)) ∧
    inv cfg s' hs ∧
    accounted s' = accounted s ⊎ list_to_set_disj (drop (cache_protected_len q) (take (length (committed_tokens rcfg q)) (req_row q))).
Proof. intros Hps Hd Hf Hq. by apply (cache_finished_ok cfg rcfg ticks s hs q last). Qed.

Lemma finished_conserves_witness :
  ∃ s', cache_finished_req cfg0 rcfg0 clock0 true (locked, q0) = (Ok tt, (s', set_freed_flags true false q0)) ∧ inv cfg0 s' [] ∧
    accounted s' = accounted locked ⊎ list_to_set_disj (drop 3 (take 4 [10; 11; 12; 13])).
Proof. apply (finished_conserves cfg0 rcfg0 clock0 locked [] q0 1 true (le_n 1) eq_refl eq_refl q0_holds). Defined.

(** ** Caching while running *)

(** C26 - Caching a running request never fails on its checks: afterwards the request holds the
    whole pages of its tokens, its row and its prefix carry the tree's indices for them, its
    lock has moved to their last node, and of its own indices exactly the duplicates were
    given back and the new ones entered the tree. *)
Theorem unfinished_conserves cfg ticks s hs q last chunked :
  (0 < page_size cfg)%nat → disable cfg = false → req_holds cfg s hs q (fill_ids q) last →
  ∃ s' q' last', cache_unfinished_req cfg ticks chunked (s, q) = (Ok tt, (s', q')) ∧
    req_holds cfg s' hs q' (fill_ids q) last' ∧ cache_protected_len q' = key_len (req_key cfg (fill_ids q) q) ∧
    prefix_indices q' = take (length (fill_ids q)) (req_row q') ∧
    accounted s' ⊎ list_to_set_disj (drop (cache_protected_len q') (take (length (fill_ids q)) (req_row q'))) =
    accounted s ⊎ list_to_set_disj (drop (cache_protected_len q) (take (length (fill_ids q)) (req_row q))).
Proof. intros Hps Hd Hq. by apply (cache_unfinished_ok cfg ticks s hs q last). Qed.

Lemma unfinished_conserves_witness :
  ∃ s' q' last', cache_unfinished_req cfg0 clock0 true (locked, q0) = (Ok tt, (s', q')) ∧
    req_holds cfg0 s' [] q' (fill_ids q0) last' ∧ cache_protected_len q' = key_len (req_key cfg0 (fill_ids q0) q0) ∧
    prefix_indices q' = take (length (fill_ids q0)) (req_row q') ∧
    accounted s' ⊎ list_to_set_disj (drop (cache_protected_len q') (take (length (fill_ids q0)) (req_row q'))) =
    accounted locked ⊎ list_to_set_disj (drop (cache_protected_len q0) (take (length (fill_ids q0)) (req_row q0))).
Proof. apply (unfinished_conserves cfg0 clock0 locked [] q0 1 true (le_n 1) eq_refl q0_holds). Defined.

(** ** Lookup *)

Lemma lookup_tokens_prefix q more : ∃ x, origin_input_ids q ++ output_ids q ++ more = lookup_tokens q ++ x.
Proof.
  unfold lookup_tokens. destruct (positional_embed_overrides q); [by eexists|]. rewrite (assoc_L (++)). eexists.
  rewrite <-(take_drop (Z.to_nat (compute_max_prefix_len q (length (origin_input_ids q ++ output_ids q)))) (origin_input_ids q ++ output_ids q)) at 1.
  by rewrite <-(assoc_L (++)).
Qed.

(** A request with the indices found at the start of its row holds them. *)
Lemma lookup_req_holds cfg s hs q m w last rest more :
  (0 < page_size cfg)%nat → inv cfg s (last :: hs) → length w = m → (m ≤ key_len (req_key cfg (lookup_tokens q) q))%nat →
  path s (take m (units (req_key cfg (lookup_tokens q) q))) w last →
  let q1 := set_prefix m (Some last) w (set_fill_ids (origin_input_ids q ++ output_ids q) q) in
  (length ((origin_input_ids q ++ output_ids q) ++ more) ≤ length (w ++ rest))%nat →
  req_holds cfg s hs (set_row (w ++ rest) q1) ((origin_input_ids q ++ output_ids q) ++ more) last.
Proof.
  intros Hps Hi Hw Hm Hp q1 Hlen. set (q2 := set_row (w ++ rest) q1).
  destruct (lookup_tokens_prefix q more) as [x Hx]. rewrite <-(assoc_L (++)) in Hlen |- *. rewrite Hx in Hlen |- *.
  apply req_holds_extend; [done| |done]. split_and!; try done.
  - rewrite length_app in Hlen. simpl. lia.
  - simpl. change (req_key cfg (lookup_tokens q) q2) with (req_key cfg (lookup_tokens q) q). by rewrite take_app_le, (take_ge w) by lia.
Qed.

(** C28 - The lookup of a request may use no token when there are positional embedding
    overrides, and otherwise its tokens but the last, no more than [logprob_start_len] of
    them when log-probabilities are asked for from there on. It finds the longest cached
    prefix of these (nothing when misses are forced); once that node's path is locked, a row
    that starts with the indices found, whatever follows, makes the request hold its prefix,
    for the tokens it has and any that follow. *)
Theorem lookup_holds cfg rcfg ticks s hs q :
  (0 < page_size cfg)%nat → disable cfg = false → inv cfg s hs →
  ∃ s1 q1 last z s2, init_next_round_input cfg rcfg ticks (s, q) = (Ok tt, (s1, q1)) ∧
    fill_ids q1 = origin_input_ids q ++ output_ids q ∧
    (let n := Z.of_nat (length (origin_input_ids q ++ output_ids q)) - 1 in
     lookup_tokens q =
       if positional_embed_overrides q then []
       else take (Z.to_nat (if return_logprob q && (0 <=? logprob_start_len q) then Z.min n (logprob_start_len q) else n))
              (origin_input_ids q ++ output_ids q)) ∧
    (if radix_force_miss rcfg then prefix_indices q1 = []
     else longest_prefix cfg s (req_key cfg (lookup_tokens q) q) (cache_protected_len q1) (prefix_indices q1)) ∧
    length (prefix_indices q1) = cache_protected_len q1 ∧
    inc_lock_ref cfg last s1 = (Ok z, s2) ∧
    ∀ rest more, (length (fill_ids q1 ++ more) ≤ length (prefix_indices q1 ++ rest))%nat →
      req_holds cfg s2 hs (set_row (prefix_indices q1 ++ rest) q1) (fill_ids q1 ++ more) last.
Proof.
  intros Hps Hd Hi. destruct (lookup_ok cfg rcfg ticks s hs q Hps Hd Hi) as (s1 & last & m & w & E & Htd & Hlp & Hw & Hm & Hp).
  set (q1 := set_prefix m (Some last) w (set_fill_ids (origin_input_ids q ++ output_ids q) q)) in *.
  pose proof (td_inv _ _ _ Htd hs Hi) as Hi1.
  destruct (inc_lock_ref_ok cfg s1 hs last Hd Hi1 (path_node _ _ _ _ _ _ Hi1 Hp)) as (s2 & E2 & Hr & Hi2).
  exists s1, q1, last, (evictable_size_ s2 - evictable_size_ s1), s2. split_and!; try done.
  - unfold lookup_tokens, compute_max_prefix_len. destruct (positional_embed_overrides q); [done|]. f_equal. destruct (_ && _); lia.
  - unfold looks_up in Hlp. by destruct (radix_force_miss rcfg); [destruct Hlp|].
  - intros rest more Hlen. apply lookup_req_holds; try done. by eapply relock_path.
Qed.

Lemma lookup_holds_witness :
  ∃ s1 q1 last z s2, init_next_round_input cfg0 rcfg0 clock0 (demo, q0) = (Ok tt, (s1, q1)) ∧
    fill_ids q1 = origin_input_ids q0 ++ output_ids q0 ∧
    longest_prefix cfg0 demo (req_key cfg0 (lookup_tokens q0) q0) (cache_protected_len q1) (prefix_indices q1) ∧
    inc_lock_ref cfg0 last s1 = (Ok z, s2) ∧
    ∀ rest more, (length (fill_ids q1 ++ more) ≤ length (prefix_indices q1 ++ rest))%nat →
      req_holds cfg0 s2 [] (set_row (prefix_indices q1 ++ rest) q1) (fill_ids q1 ++ more) last.
Proof.
  destruct (lookup_holds cfg0 rcfg0 clock0 demo [] q0 (le_n 1) eq_refl demo_inv) as (s1 & q1 & last & z & s2 & H1 & H2 & _ & H3 & _ & H4 & H5).
  exact (ex_intro _ s1 (ex_intro _ q1 (ex_intro _ last (ex_intro _ z (ex_intro _ s2 (conj H1 (conj H2 (conj H3 (conj H4 H5))))))))).
Defined.

(** ** Retracted requests with the thinking part stripped *)

Lemma update_req_bind {A} f (m : M St A) s q : (update_req f ≫= λ _, m) (s, q) = m (s, f q).
Proof. done. Qed.

(** A prefill in one chunk leaves the request with the whole pages of its tokens. *)
Lemma prefill_holds cfg rcfg ticks s hs q idx rest t :
  (0 < page_size cfg)%nat → disable cfg = false → inv cfg s hs → skip_radix_cache_insert q = false →
  let F := origin_input_ids q ++ output_ids q in
  (length F ≤ length rest)%nat →
  ∃ s1 last row prefix, let K := key_len (req_key cfg F q) in
    let q1 := set_prefix K (Some last) prefix
      (set_row row (append_output t (set_kv_lens (length F) (length F) (set_pool_idx (Some idx) (set_fill_ids F q))))) in
    prefill cfg rcfg ticks idx rest t (s, q) = (Ok tt, (s1, q1)) ∧ req_holds cfg s1 hs q1 F last ∧
    (length rest ≤ length row)%nat ∧ ∃ dup, freed s1 = freed s ++ dup.
Proof.
  intros Hps Hd Hi Hskip F Hrest. destruct (lookup_ok cfg rcfg ticks s hs q Hps Hd Hi) as (s1 & last & m & w & E & Htd & _ & Hw & Hm & Hp). fold F in E.
  pose proof (td_inv _ _ _ Htd hs Hi) as Hi1.
  destruct (inc_lock_ref_ok cfg s1 hs last Hd Hi1 (path_node _ _ _ _ _ _ Hi1 Hp)) as (s2 & E2 & Hr & Hi2).
  set (q1 := set_prefix m (Some last) w (set_fill_ids F q)) in *.
  set (q2 := append_output t (set_kv_lens (length F) (length F) (set_row (w ++ rest) (set_pool_idx (Some idx) q1)))).
  assert (req_holds cfg s2 hs q2 (fill_ids q2) last) as Hq.
  { pose proof (lookup_req_holds cfg s2 hs q m w last rest [] Hps Hi2 Hw Hm (relock_path _ _ _ _ _ Hr Hp)) as H. rewrite app_nil_r in H.
    apply H. rewrite (length_app w). fold F. lia. }
  destruct (cache_unfinished_all cfg ticks s2 hs q2 last false Hps Hd Hq) as (s3 & q3 & last3 & E3 & Hq3 & _ & _ & _ & (row & prefix & -> & Hlen) & dup & Hf).
  exists s3, last3, row, prefix. split; [|split; [exact Hq3|split]].
  - unfold prefill. rewrite (bind_Ok _ _ (s, q) tt (s1, q1)) by exact E. rewrite (bind_Ok _ _ (s1, q1) q1 (s1, q1)) by done.
    rewrite (bind_Ok _ _ (s1, q1) last (s1, q1)) by done. rewrite (bind_Ok _ _ (s1, q1) _ (s2, q1)) by (by apply on_cache_ok).
    rewrite !update_req_bind. unfold maybe_cache_unfinished_req. rewrite (bind_Ok the_req _ (s2, q2) q2 (s2, q2)) by done.
    change (skip_radix_cache_insert q2) with (skip_radix_cache_insert q). rewrite Hskip. exact E3.
  - rewrite Hlen. simpl. rewrite length_app. lia.
  - exists dup. rewrite Hf. unfold freed. by rewrite (rl_freed _ _ Hr), (td_freed _ _ _ Htd).
Qed.

(** Decoding appends to the row and to the output, and leaves the tree alone. *)
Lemma decode_run steps s : ∀ q, ∃ row r,
  for_each steps (λ p, decode p.1 p.2) (s, q) =
    (Ok tt, (s, set_output (output_ids q ++ (token <$> steps.*1)) r
      (set_kv_lens (kv_committed_len q + length steps) (kv_allocated_len q + length steps) (set_row row q)))) ∧
  reasoning_tokens q ≤ r ∧
  ((kv_committed_len q + length steps ≤ length (req_row q))%nat →
   length row = length (req_row q) ∧ take (kv_committed_len q + length steps) row = take (kv_committed_len q) (req_row q) ++ steps.*2).
Proof.
  induction steps as [|[t loc] steps IH]; intros q.
  { exists (req_row q), (reasoning_tokens q). cbn [fmap list_fmap length]. rewrite !Nat.add_0_r, !app_nil_r. split; [by destruct q|done]. }
  set (q1 := append_output t (set_kv_lens (S (kv_committed_len q)) (S (kv_allocated_len q)) (set_row (<[kv_committed_len q := loc]> (req_row q)) q))).
  destruct (IH q1) as (row & r & E & Hr & Hrow). exists row, r. split_and!.
  - cbn [for_each]. rewrite (bind_Ok _ _ (s, q) tt (s, q1)) by done. rewrite E. cbn [fmap list_fmap length fst]. simpl.
    rewrite <- (assoc_L (++)), !Nat.add_succ_r. done.
  - simpl in Hr. destruct (thinks t); lia.
  - cbn [fmap list_fmap length snd] in *. intros Hlen. simpl in Hrow. rewrite length_insert in Hrow. destruct Hrow as [H1 H2]; [lia|]. split; [done|].
    rewrite Nat.add_succ_r. rewrite H2. rewrite (take_S_r _ _ loc) by (apply list_lookup_insert_eq; lia). rewrite take_insert_ge by done.
    by rewrite <- (assoc_L (++)).
Qed.

(** With a page per token a key is as long as its tokens. *)
Lemma req_key_full cfg tokens q : page_size cfg = 1%nat → is_eagle cfg = false → key_len (req_key cfg tokens q) = length tokens.
Proof.
  intros Hps He. unfold req_key. destruct (page_aligned_facts cfg (mk_key tokens (req_extra_key q) (is_eagle cfg)) ltac:(lia)) as (_ & _ & -> & _).
  unfold round_down, key_len. by rewrite Hps, He, Nat.div_1_r, Nat.mul_1_r.
Qed.

(** The release of a request that protects more than its prompt, with the thinking part
    stripped: everything behind the prompt is given back. *)
Lemma release_stripped cfg rcfg ticks s hs q last is_insert :
  page_size cfg = 1%nat → is_eagle cfg = false → disable cfg = false → strip_thinking_cache rcfg = true →
  0 < reasoning_tokens q → is_Some (req_pool_idx q) → kv_committed_freed q = false → kv_overallocated_freed q = false →
  let n := length (origin_input_ids q) in
  last_node q = Some last → inv cfg s (last :: hs) → (n ≤ cache_protected_len q)%nat → (n ≤ length (req_row q))%nat →
  (n ≤ kv_committed_len q)%nat → (n < kv_allocated_len q)%nat →
  ∃ s' q', release_kv_cache cfg rcfg ticks is_insert (s, q) = (Ok tt, (s', q')) ∧
    freed s' = freed s ++ py_sub (req_row q) n (kv_allocated_len q) ∧ ∀ u v m, path s u v m → path s' u v m.
Proof.
  intros Hps He Hd Hst Hre [idx Hidx] Hcf Hof n Hlast Hinv Hprot Hrow Hcom Hall. assert (Hps0 : (0 < page_size cfg)%nat) by lia.
  assert (Hcl : cache_commit_len rcfg q = n).
  { unfold cache_commit_len. rewrite Hst, (proj2 (Z.ltb_lt 0 (reasoning_tokens q)) Hre). simpl. fold n. lia. }
  set (q1 := set_freed_flags true (kv_overallocated_freed q) q).
  assert (Hct : committed_tokens rcfg q = origin_input_ids q) by (unfold committed_tokens; rewrite Hcl; apply take_app_length).
  destruct (finish_protected cfg rcfg ticks s hs q last (is_insert && negb (skip_radix_cache_insert q))) as (s1 & E1 & Hf1 & Hp1);
    try done; rewrite ?Hct; [done|done|by apply req_key_full|].
  unfold release_kv_cache. rewrite (bind_Ok _ _ (s, q) q (s, q)) by done. rewrite Hidx.
  rewrite (bind_Ok _ _ (s, q) tt (s1, q1)) by exact E1. set (q2 := set_freed_flags true true q).
  rewrite (bind_Ok _ _ (s1, q1) (n, kv_allocated_len q) (s1, q2)).
  2:{ unfold pop_overallocated_kv_cache, the_req, update_req, gets, modify, mbind, M_bind. simpl. rewrite Hof. simpl.
      change (cache_commit_len rcfg q1) with (cache_commit_len rcfg q). by rewrite Hcl. }
  cbn beta iota. rewrite Hst. cbn [negb andb]. rewrite andb_false_r. rewrite (bind_Ok _ _ (s1, q2) tt (s1, q2)) by done.
  rewrite Hps. change (1 <? 1)%nat with false. cbn beta iota. rewrite (proj2 (Nat.ltb_lt n (kv_allocated_len q))) by lia.
  set (s2 := set_free_calls (λ f, f ++ [py_sub (req_row q) n (kv_allocated_len q)]) s1).
  rewrite (bind_Ok _ _ (s1, q2) tt (s2, q2)) by done. exists s2, (set_pool_idx None q2). split_and!; [done|unfold s2; by rewrite freed_call, Hf1|exact Hp1].
Qed.

(** A request from its prefill, by any steps of decoding, each with the index it gets, to its
    release. *)
Definition run_to_end cfg rcfg ticks (idx : nat) (rest : list Z) (t : Sampled) (steps : list (Sampled * Z)) (is_insert : bool) : M St unit :=
  prefill cfg rcfg ticks idx rest t ≫= λ _,
  for_each steps (λ p, decode p.1 p.2) ≫= λ _,
  release_kv_cache cfg rcfg ticks is_insert.

(** C40 - A request that has thought and has an output, is retracted, prefilled again (in one
    chunk) and decoded for any number of steps runs to its end without error. When the
    thinking part is stripped from the cache, its release gives back the indices of its old
    output, which the second prefill entered into the tree: the tree still holds them, on the
    path of the request's tokens. (One token a page; besides them [dup], what the tree held
    already, and the indices of the decoded tokens are given back.) *)
Theorem stripped_output_freed cfg rcfg ticks s hs q idx rest t steps is_insert :
  page_size cfg = 1%nat → is_eagle cfg = false → disable cfg = false → inv cfg s hs →
  strip_thinking_cache rcfg = true → 0 < reasoning_tokens q → skip_radix_cache_insert q = false →
  (0 < length (output_ids q))%nat →
  let tokens := origin_input_ids q ++ output_ids q in
  (length tokens + length steps ≤ length rest)%nat →
  ∃ s' q' dup w last,
    run_to_end cfg rcfg ticks idx rest t steps is_insert (s, reset_for_retract q) = (Ok tt, (s', q')) ∧
    freed s' = freed s ++ dup ++ drop (length (origin_input_ids q)) w ++ steps.*2 ∧
    path s' (units (req_key cfg tokens q)) w last ∧ length w = length tokens.
Proof.
  intros Hps He Hd Hi Hst Hre Hskip Hout tokens Hrest. assert (Hps0 : (0 < page_size cfg)%nat) by lia. set (q0 := reset_for_retract q).
  destruct (prefill_holds cfg rcfg ticks s hs q0 idx rest t Hps0 Hd Hi Hskip) as (s1 & last & row & prefix & E1 & Hq1 & Hrow & dup & Hf); [simpl; fold tokens; lia|].
  change (origin_input_ids q0 ++ output_ids q0) with tokens in *. change (req_key cfg tokens q0) with (req_key cfg tokens q) in *.
  rewrite req_key_full in E1, Hq1 by done. set (q1 := set_prefix _ _ _ _) in E1, Hq1.
  assert (Hlen : length tokens = (length (origin_input_ids q) + length (output_ids q))%nat) by apply length_app.
  destruct (decode_run steps s1 q1) as (row2 & r & E2 & Hr & Hrow2). cbn in Hr, Hrow2. destruct Hrow2 as [Hl2 Ht2]; [lia|].
  set (q2 := set_output _ _ _) in E2. destruct Hq1 as (Hlast & Hi1 & _ & _ & Hp). cbn in Hlast, Hp.
  destruct (release_stripped cfg rcfg ticks s1 hs q2 last is_insert) as (s3 & q3 & E3 & Hf3 & Hp3); try done; cbn;
    [destruct (thinks t); lia|lia..|].
  exists s3, q3, dup, (take (length tokens) row), last. split_and!.
  - unfold run_to_end. rewrite (bind_Ok _ _ _ _ _ E1), (bind_Ok _ _ _ _ _ E2). exact E3.
  - rewrite Hf3, Hf, <- (assoc_L (++)). do 2 f_equal. cbn. unfold py_sub. rewrite Ht2. by rewrite drop_app_le by (rewrite length_take; lia).
  - apply Hp3. rewrite take_ge in Hp; [exact Hp|]. rewrite length_units, req_key_full by done. done.
  - rewrite length_take. lia.
Qed.

Local Abbreviation rcfg1 := (mk_req_config true false false).
Local Abbreviation thinker :=
  (mk_req [1; 2] [3] [1; 2] None None false 0 false false 1 3 3 true true 2 (Some 1%nat) [10; 11] None [10; 11; 12]).

(** An output of one token: its index is given back and still in the tree. *)
Lemma stripped_output_freed_witness :
  ∃ s' q' dup w last,
    run_to_end cfg0 rcfg1 clock0 1 [30; 31; 32; 33] (mk_sampled 4 false) [(mk_sampled 5 false, 33)] true (init_cache clock0, reset_for_retract thinker) =
      (Ok tt, (s', q')) ∧
    freed s' = freed (init_cache clock0) ++ dup ++ drop 2 w ++ [33] ∧ path s' (units (req_key cfg0 [1; 2; 3] thinker)) w last ∧ length w = 3%nat.
Proof.
  apply (stripped_output_freed cfg0 rcfg1 clock0 (init_cache clock0) [] thinker 1 [30; 31; 32; 33] (mk_sampled 4 false) [(mk_sampled 5 false, 33)] true);
    try reflexivity.
  - apply init_cache_inv.
  - apply Nat.ltb_lt. reflexivity.
Defined.
