(* ===== verification/KvPool.v ===== *)
(** * The pools of KV indices

    Models [srt/mem_cache/allocator.py] (the allocators of single tokens and of pages, and the
    two kernels that place the new tokens of a batch), [get_num_new_pages] of
    [srt/utils/common.py] and [ReqToTokenPool] of [srt/mem_cache/memory_pool.py]. A tensor
    that is filled piece by piece is a map from positions to values; [torch.empty] is a
    parameter, as is what a kernel reads behind the end of the free pages. The programs of a
    kernel run one after the other; a masked load gives zero where the mask is off. Copies
    of the cache to the host are not modelled. *)

From stdpp Require Import sorting.
From S2P Require Import Prelude.
Local Open Scope Z_scope.

(** One request of a batch: the tokens it has, the tokens it shall have, and the place of its
    last token. *)
Record Extend := mk_extend { pre_len : Z; seq_len : Z; last_loc : Z }.

Section Kernels.
Context (page_size : Z).
(** What lies behind the end of the free pages. *)
Context (beyond : Z → Z).
Implicit Types (r : Extend) (rs : list Extend) (m : gmap Z Z) (free_pages : list Z).

Definition load free_pages (i : Z) : Z := default (beyond i) (free_pages !! Z.to_nat i).

Definition pages_of (len : Z) : Z := (len + page_size - 1) / page_size.
Definition extend_len r : Z := seq_len r - pre_len r.
Definition num_new_pages r : Z := pages_of (seq_len r) - pages_of (pre_len r).

(** [tl.store(base + offset, value, mask)] for the offsets below [n]. *)
Definition masked_store (base n : Z) (mask : Z → bool) (value : Z → Z) m : gmap Z Z :=
  foldl (λ m o, if mask o then <[base + o := value o]> m else m) m (seqZ 0 n).

(** *** [alloc_extend_kernel] *)

Definition BLOCK_EXTEND : Z := 4096.

Definition extend_program free_pages rs (pid : nat) r m : gmap Z Z :=
  let output_start_loc := Zsum (extend_len <$> take (S pid) rs) - extend_len r in
  let new_page_start_loc := Zsum (num_new_pages <$> take (S pid) rs) - num_new_pages r in
  let num_part1 := Z.min (seq_len r) (pages_of (pre_len r) * page_size) - pre_len r in
  let m := masked_store output_start_loc page_size (λ o, o <? num_part1) (λ o, last_loc r + 1 + o) m in
  if pre_len r + num_part1 =? seq_len r then m
  else
    let num_part2 := seq_len r / page_size * page_size - pages_of (pre_len r) * page_size in
    let num_blocks := (num_part2 + BLOCK_EXTEND - 1) / BLOCK_EXTEND in
    let m := foldl (λ m block_id,
      let offset o := block_id * BLOCK_EXTEND + o in
      masked_store (output_start_loc + num_part1 + block_id * BLOCK_EXTEND) BLOCK_EXTEND (λ o, offset o <? num_part2)
        (λ o, load free_pages (new_page_start_loc + offset o / page_size) * page_size + offset o mod page_size) m)
      m (seqZ 0 num_blocks) in
    if pre_len r + num_part1 + num_part2 =? seq_len r then m
    else
      let num_part3 := seq_len r - seq_len r / page_size * page_size in
      let start_loc := load free_pages (new_page_start_loc + num_new_pages r - 1) in
      masked_store (output_start_loc + num_part1 + num_part2) page_size (λ o, o <? num_part3)
        (λ o, start_loc * page_size + o) m.

(** [kernel[(bs,)](...)] *)
Fixpoint launch {A} (program : nat → A → gmap Z Z → gmap Z Z) (pid : nat) (l : list A) m : gmap Z Z :=
  match l with
  | [] => m
  | r :: l => launch program (S pid) l (program pid r m)
  end.

Definition alloc_extend_kernel free_pages rs m : gmap Z Z := launch (extend_program free_pages rs) 0 rs m.

(** *** [alloc_extend_naive] *)

(** [out[base:base + n] = values] inside [out]: as many values as places, or one value for
    all of them. *)
Definition assign (base n : Z) (values : list Z) m : res (gmap Z Z) :=
  if Z.of_nat (length values) =? n
  then Ok (masked_store base n (λ _, true) (λ o, default 0 (values !! Z.to_nat o)) m)
  else match values with
       | [v] => Ok (masked_store base n (λ _, true) (λ _, v) m)
       | _ => Raise RuntimeError
       end.

Definition naive_step free_pages rs (i : nat) r m : res (gmap Z Z) :=
  let end_pos := Zsum (extend_len <$> take (S i) rs) in
  let start_pos := end_pos - extend_len r in
  let num_full_new_pages := seq_len r / page_size - pages_of (pre_len r) in
  let need_page := num_new_pages r - num_full_new_pages in
  let end_new_pages := Zsum (num_new_pages <$> take (S i) rs) in
  let start_new_pages := end_new_pages - num_new_pages r in
  let pos_in_page := seqZ 0 page_size in
  let num1 := Z.min (seq_len r) (pages_of (pre_len r) * page_size) - pre_len r in
  m ← (if num1 =? 0 then Ok m
       else assign start_pos num1 ((λ o, last_loc r + 1 + o) <$> take (Z.to_nat num1) pos_in_page) m);
  if pre_len r + num1 =? seq_len r then Ok m
  else
    let num2 := (seq_len r / page_size - pages_of (pre_len r)) * page_size in
    m ← (if num2 =? 0 then Ok m
         else
           let pages := (λ p, p * page_size) <$>
             drop (Z.to_nat start_new_pages) (take (Z.to_nat (end_new_pages - need_page)) free_pages) in
           assign (start_pos + num1) num2 (pages ≫= λ p, (λ o, p + o) <$> pos_in_page) m);
    if pre_len r + num1 + num2 =? seq_len r then Ok m
    else
      let num3 := seq_len r - seq_len r / page_size * page_size in
      if num3 =? 0 then Ok m
      else
        match free_pages !! Z.to_nat (end_new_pages - 1) with
        | None => Raise IndexError
        | Some p => assign (end_pos - num3) num3 ((λ o, p * page_size + o) <$> take (Z.to_nat num3) pos_in_page) m
        end.

Fixpoint naive_loop free_pages rs (i : nat) (l : list Extend) m : res (gmap Z Z) :=
  match l with
  | [] => Ok m
  | r :: l => m ← naive_step free_pages rs i r m; naive_loop free_pages rs (S i) l m
  end.
Definition alloc_extend_naive free_pages rs m : res (gmap Z Z) := naive_loop free_pages rs 0 rs m.

(** *** [alloc_decode_kernel]: one new token per request *)

Definition decode_request (seq last : Z) : Extend := mk_extend (seq - 1) seq last.

Definition decode_program free_pages rs (pid : nat) r m : gmap Z Z :=
  let new_page_start_loc := Zsum (num_new_pages <$> take (S pid) rs) - num_new_pages r in
  if num_new_pages r =? 0 then <[Z.of_nat pid := last_loc r + 1]> m
  else <[Z.of_nat pid := load free_pages new_page_start_loc * page_size]> m.

Definition alloc_decode_kernel free_pages (seqs lasts : list Z) m : gmap Z Z :=
  let rs := zip_with decode_request seqs lasts in
  launch (decode_program free_pages rs) 0 rs m.

(** *** [get_num_new_pages] *)

Definition get_num_new_pages rs : Z := Zsum (num_new_pages <$> rs).
Definition get_num_new_pages_decode (seqs : list Z) : Z :=
  Zsum ((λ s, if s mod page_size =? 1 then 1 else 0) <$> seqs).
End Kernels.

(** ** The allocators *)

Record PoolConfig := mk_pool_config {
  pool_size : Z;
  pool_page_size : Z;
  need_sort : bool;
  debug_mode : bool;
}.

Record Pool := mk_pool {
  free_pages : list Z;
  release_pages : list Z;
  is_not_in_free_group : bool;
  free_group : list (list Z);
}.

Definition set_free_pages f (p : Pool) : Pool := mk_pool (f (free_pages p)) (release_pages p) (is_not_in_free_group p) (free_group p).
Definition set_release_pages f (p : Pool) : Pool := mk_pool (free_pages p) (f (release_pages p)) (is_not_in_free_group p) (free_group p).
Definition set_group flag group (p : Pool) : Pool := mk_pool (free_pages p) (release_pages p) flag group.

(** [torch.sort], [torch.unique] *)
Definition sorted (l : list Z) : list Z := merge_sort Z.le l.
Definition unique (l : list Z) : list Z := sorted (remove_dups l).

Section Allocators.
Context (cfg : PoolConfig).
Local Abbreviation ps := (pool_page_size cfg).
Local Abbreviation Mp := (M Pool).

Definition available_size (p : Pool) : Z := (length (free_pages p) + length (release_pages p)) * ps.
Definition free_group_begin : Mp unit := modify (set_group false []).
Definition merge_and_sort_free : Mp unit :=
  modify (λ p, if bool_decide (release_pages p = []) then p
               else set_release_pages (λ _, []) (set_free_pages (λ f, sorted (f ++ release_pages p)) p)).

Definition backup_state (p : Pool) : list Z * list Z := (free_pages p, release_pages p).
Definition restore_state (state : list Z * list Z) : Mp unit :=
  modify (λ p, set_release_pages (λ _, state.2) (set_free_pages (λ _, state.1) p)).

Definition fresh (n : Z) : Pool := mk_pool (seqZ 1 n) [] true [].

(** *** Single tokens *)

Definition token_clear : Mp unit := modify (λ _, fresh (pool_size cfg)).
Definition init_token_pool : Pool := fresh (pool_size cfg).

Definition token_alloc (need_size : Z) : Mp (option (list Z)) :=
  p ← get;
  when (need_sort cfg && (length (free_pages p) <? need_size)) merge_and_sort_free ≫= λ _,
  p ← get;
  if length (free_pages p) <? need_size then mret None
  else
    modify (set_free_pages (drop (Z.to_nat need_size))) ≫= λ _,
    mret (Some (take (Z.to_nat need_size) (free_pages p))).

Definition token_free (free_index : list Z) : Mp unit :=
  if bool_decide (free_index = []) then mret tt
  else
    p ← get;
    if is_not_in_free_group p then
      if need_sort cfg then modify (set_release_pages (λ l, l ++ free_index))
      else modify (set_free_pages (λ l, l ++ free_index))
    else modify (set_group false (free_group p ++ [free_index])).

Definition token_free_group_end : Mp unit :=
  p ← get;
  modify (λ p, set_group true (free_group p) p) ≫= λ _,
  when (negb (bool_decide (free_group p = []))) (token_free (concat (free_group p))).

(** *** Pages *)

Definition num_pages : Z := pool_size cfg / ps.
Definition paged_clear : Mp unit := modify (λ _, fresh num_pages).
Definition init_paged_pool : Pool := fresh num_pages.

Definition assert_that (b : bool) : Mp unit := if b then mret tt else raise AssertionError.
Definition in_debug (b : Pool → bool) : Mp unit :=
  p ← get; when (debug_mode cfg) (assert_that (b p)).
Definition no_dups (l : list Z) : bool := (length (unique l) =? length l)%nat.

Definition indices_of_pages (pages : list Z) : list Z := pages ≫= λ p, (λ o, p * ps + o) <$> seqZ 0 ps.

Definition paged_alloc (need_size : Z) : Mp (option (list Z)) :=
  in_debug (λ _, need_size mod ps =? 0) ≫= λ _,
  let n := need_size / ps in
  p ← get;
  when (need_sort cfg && (length (free_pages p) <? n)) merge_and_sort_free ≫= λ _,
  p ← get;
  if length (free_pages p) <? n then mret None
  else
    modify (set_free_pages (drop (Z.to_nat n))) ≫= λ _,
    mret (Some (indices_of_pages (take (Z.to_nat n) (free_pages p)))).

(** The content of a new tensor, and what lies behind the free pages. *)
Context (uninit beyond : Z → Z).

Definition read (m : gmap Z Z) (n : Z) : list Z := (λ j, default (uninit j) (m !! j)) <$> seqZ 0 n.

(** The pages are taken only when there are enough of them. *)
Definition take_pages (out : list Z) (n : Z) : Mp (option (list Z)) :=
  p ← get;
  if length (free_pages p) <? n then mret None
  else modify (set_free_pages (drop (Z.to_nat n))) ≫= λ _, mret (Some out).

Definition alloc_extend (rs : list Extend) (extend_num_tokens : Z) (new_pages : option Z) : Mp (option (list Z)) :=
  in_debug (λ _, forallb (λ r, (last_loc r + 1) mod ps =? pre_len r mod ps) rs) ≫= λ _,
  p ← get;
  when (need_sort cfg && (length (free_pages p) <? extend_num_tokens / ps + length rs + 1)) merge_and_sort_free ≫= λ _,
  p ← get;
  let out := read (alloc_extend_kernel ps beyond (free_pages p) rs ∅) extend_num_tokens in
  in_debug (λ _, no_dups out) ≫= λ _,
  take_pages out (default (get_num_new_pages ps rs) new_pages).

Definition alloc_decode (seqs lasts : list Z) : Mp (option (list Z)) :=
  in_debug (λ _, forallb (λ '(s, l), (l + 2) mod ps =? s mod ps) (zip seqs lasts)) ≫= λ _,
  p ← get;
  when (need_sort cfg && (length (free_pages p) <? length seqs)) merge_and_sort_free ≫= λ _,
  p ← get;
  let out := read (alloc_decode_kernel ps beyond (free_pages p) seqs lasts ∅) (length seqs) in
  in_debug (λ _, no_dups out) ≫= λ _,
  take_pages out (get_num_new_pages_decode ps seqs).

Definition paged_free (free_index : list Z) : Mp unit :=
  if bool_decide (free_index = []) then mret tt
  else
    p ← get;
    (if is_not_in_free_group p then
       let pages := unique ((λ i, i / ps) <$> free_index) in
       if need_sort cfg then modify (set_release_pages (λ l, pages ++ l))
       else modify (set_free_pages (λ l, pages ++ l))
     else modify (set_group false (free_group p ++ [free_index]))) ≫= λ _,
    in_debug (λ p, no_dups (free_pages p)).

Definition paged_free_group_end : Mp unit :=
  p ← get;
  modify (λ p, set_group true (free_group p) p) ≫= λ _,
  when (negb (bool_decide (free_group p = []))) (paged_free (concat (free_group p))).
End Allocators.

(** ** Rows of the pool of token locations *)

Record SlotPool := mk_slots { max_slots : Z; free_slots : list Z }.

(** What the pool reads of a request. *)
Record SlotReq := mk_slot_req {
  slot_of : option Z;
  inflight_middle_chunks : Z;
  slot_kv_committed_len : Z;
}.

Definition init_slots (size : Z) : SlotPool := mk_slots size (seqZ 1 size).
Definition slots_available (p : SlotPool) : nat := length (free_slots p).
Definition slots_clear (p : SlotPool) : SlotPool := mk_slots (max_slots p) (seqZ 1 (max_slots p)).

(** New requests get the selected slots in order. *)
Fixpoint give_slots (reqs : list SlotReq) (select : list Z) : list SlotReq :=
  match reqs with
  | [] => []
  | r :: reqs =>
      match slot_of r, select with
      | None, s :: select => mk_slot_req (Some s) (inflight_middle_chunks r) (slot_kv_committed_len r) :: give_slots reqs select
      | _, _ => r :: give_slots reqs select
      end
  end.

Definition slots_alloc (reqs : list SlotReq) : M SlotPool (option (list SlotReq)) :=
  let reusing := filter (λ r, is_Some (slot_of r)) reqs in
  if negb (forallb (λ r, (0 <? inflight_middle_chunks r) || (0 <? slot_kv_committed_len r)) reusing) then raise AssertionError
  else
    p ← get;
    let need_size := (length reqs - length reusing)%nat in
    if (length (free_slots p) <? need_size)%nat then mret None
    else
      modify (λ p, mk_slots (max_slots p) (drop need_size (free_slots p))) ≫= λ _,
      mret (Some (give_slots reqs (take need_size (free_slots p)))).

Definition slots_free (r : SlotReq) : M SlotPool SlotReq :=
  match slot_of r with
  | None => raise AssertionError
  | Some s =>
      modify (λ p, mk_slots (max_slots p) (free_slots p ++ [s])) ≫= λ _,
      mret (mk_slot_req None (inflight_middle_chunks r) (slot_kv_committed_len r))
  end.
