(* ===== verification/KvKernelFacts.v ===== *)
(** * The placement of new tokens

    The kernels of [KvPool] write, request after request, the list of places that
    [batch_locs] names: a new token whose page is already the request's follows the last
    token, every other token lies in the next free page at its position in the page. *)

From S2P Require Import Prelude KvPool.
Local Open Scope Z_scope.


(** ** Writing a list into a tensor *)

Definition write (base : Z) (l : list Z) (m : gmap Z Z) : gmap Z Z :=
  masked_store base (length l) (λ _, true) (λ o, default 0 (l !! Z.to_nat o)) m.

Lemma masked_store_lookup base n mask value (m : gmap Z Z) j :
  masked_store base n mask value m !! j =
  if bool_decide (0 ≤ j - base < n) && mask (j - base) then Some (value (j - base)) else m !! j.
Proof.
  unfold masked_store. destruct (decide (0 ≤ n)) as [Hn|Hn]; last first.
  { rewrite (bool_decide_eq_false_2 (0 ≤ j - base < n)) by lia. simpl.
    unfold seqZ. by replace (Z.to_nat n) with 0%nat by lia. }
  rewrite <- (Z2Nat.id n) by done. clear Hn. generalize (Z.to_nat n) as k. clear n.
  induction k as [|k IH]; intros.
  { rewrite bool_decide_eq_false_2 by lia. done. }
  rewrite seqZ_S, foldl_app. simpl. rewrite Z.add_0_l.
  destruct (decide (j = base + k)) as [->|Hj].
  - replace (base + k - base) with (Z.of_nat k) in * by lia.
    rewrite (bool_decide_eq_true_2 (0 ≤ Z.of_nat k < Z.of_nat (S k))) by lia.
    rewrite (bool_decide_eq_false_2 (0 ≤ Z.of_nat k < Z.of_nat k)) in IH by lia. simpl in *.
    destruct (mask (Z.of_nat k)) eqn:E; [by rewrite lookup_insert_eq|done].
  - assert (bool_decide (0 ≤ j - base < S k) = bool_decide (0 ≤ j - base < k)) as Hb
      by (apply bool_decide_ext; lia).
    rewrite Hb, <- IH.
    destruct (mask (Z.of_nat k)); [by rewrite lookup_insert_ne by lia|done].
Qed.

Lemma write_lookup base l m j :
  write base l m !! j =
  if bool_decide (0 ≤ j - base < length l) then l !! Z.to_nat (j - base) else m !! j.
Proof.
  unfold write. rewrite masked_store_lookup, andb_true_r. case_bool_decide; [|done].
  destruct (lookup_lt_is_Some_2 l (Z.to_nat (j - base))) as [x Hx]; [lia|]. by rewrite Hx.
Qed.

Lemma write_nil base m : write base [] m = m.
Proof. done. Qed.

Lemma write_app base l1 l2 m : write base (l1 ++ l2) m = write (base + length l1) l2 (write base l1 m).
Proof.
  apply map_eq. intros j. rewrite !write_lookup, length_app.
  repeat case_bool_decide; try lia; try done.
  - rewrite lookup_app_r by lia. f_equal. lia.
  - rewrite lookup_app_l by lia. done.
Qed.

Lemma masked_store_write base n k mask value m :
  0 ≤ k ≤ n → (∀ o, 0 ≤ o < n → mask o = (o <? k)) →
  masked_store base n mask value m = write base (value <$> seqZ 0 k) m.
Proof.
  intros Hk Hmask. apply map_eq. intros j. rewrite masked_store_lookup, write_lookup.
  rewrite length_fmap, length_seqZ.
  case_bool_decide; simpl.
  - rewrite Hmask by done. case_bool_decide.
    + rewrite (proj2 (Z.ltb_lt _ _)) by lia. rewrite list_lookup_fmap, lookup_seqZ_lt by lia. simpl.
      do 2 f_equal. lia.
    + by rewrite (proj2 (Z.ltb_ge _ _)) by lia.
  - rewrite bool_decide_eq_false_2 by lia. done.
Qed.

Lemma assign_write base n values m :
  Z.of_nat (length values) = n → assign base n values m = Ok (write base values m).
Proof. intros <-. unfold assign. by rewrite Z.eqb_refl. Qed.

Lemma seqZ_shift {A} (f : Z → A) a n : (λ o, f (a + o)) <$> seqZ 0 n = f <$> seqZ a n.
Proof.
  assert (seqZ a n = Z.add a <$> seqZ 0 n) as -> by (rewrite fmap_add_seqZ; f_equal; lia).
  by rewrite <- list_fmap_compose.
Qed.

Lemma Zsum_cons x l : Zsum (x :: l) = x + Zsum l.
Proof. done. Qed.

(** Blocks that together cover [n] places, each masked to them, write the [n] values. *)
Lemma blocks_write base n B value m :
  0 < B → 0 ≤ n →
  foldl (λ m b, masked_store (base + b * B) B (λ o, b * B + o <? n) (λ o, value (b * B + o)) m)
    m (seqZ 0 ((n + B - 1) / B)) = write base (value <$> seqZ 0 n) m.
Proof.
  intros HB Hn.
  assert (∀ k : nat, k * B - B < n →
    foldl (λ m b, masked_store (base + b * B) B (λ o, b * B + o <? n) (λ o, value (b * B + o)) m)
      m (seqZ 0 k) = write base (value <$> seqZ 0 (Z.min n (k * B))) m) as Hk.
  { induction k as [|k IH]; intros Hlt; [by rewrite Z.min_r by lia|].
    rewrite seqZ_S, foldl_app, IH by lia. simpl. rewrite Z.add_0_l.
    rewrite (masked_store_write _ B (Z.min n (S k * B) - k * B)).
    - replace (value <$> seqZ 0 (Z.min n (S k * B)))
        with ((value <$> seqZ 0 (Z.min n (k * B)))
              ++ ((λ o, value (k * B + o)) <$> seqZ 0 (Z.min n (S k * B) - k * B))).
      { rewrite write_app, length_fmap, length_seqZ. f_equal. lia. }
      rewrite (Z.min_r n (k * B)) by lia.
      replace (Z.min n (S k * B)) with (k * B + (Z.min n (S k * B) - k * B)) at 2 by lia.
      rewrite seqZ_app, fmap_app by lia. f_equal.
      rewrite Z.add_0_l. apply seqZ_shift.
    - lia.
    - intros o Ho. destruct (Z.ltb_spec (k * B + o) n), (Z.ltb_spec o (Z.min n (S k * B) - k * B)); try done; lia. }
  pose proof (Z_div_mod_eq_full (n + B - 1) B). pose proof (Z.mod_pos_bound (n + B - 1) B HB).
  rewrite <- (Z2Nat.id ((n + B - 1) / B)) by (apply Z.div_pos; lia).
  rewrite Hk; rewrite Z2Nat.id by (apply Z.div_pos; lia).
  - rewrite Z.min_l by nia. done.
  - nia.
Qed.

(** ** The places of a request *)

Section Locs.
Context (page_size : Z) (beyond : Z → Z) (Hps : 0 < page_size).
Implicit Types (r : Extend) (rs : list Extend) (m : gmap Z Z) (free : list Z).
Local Abbreviation pages := (pages_of page_size).
Local Abbreviation news := (num_new_pages page_size).

(** The place of the token at position [p], with [np] free pages taken before. *)
Definition loc free (np : Z) r (p : Z) : Z :=
  if p <? pages (pre_len r) * page_size then last_loc r + 1 + (p - pre_len r)
  else load beyond free (np + p / page_size - pages (pre_len r)) * page_size + p mod page_size.

Definition request_locs free np r : list Z := loc free np r <$> seqZ (pre_len r) (extend_len r).

Fixpoint batch_locs free (np : Z) rs : list Z :=
  match rs with
  | [] => []
  | r :: rs => request_locs free np r ++ batch_locs free (np + news r) rs
  end.

Definition valid_request r : Prop := 0 ≤ pre_len r ≤ seq_len r.

(** A request's tokens in three parts: the old page, full new pages, the last new page. *)
Definition part1 r : Z := Z.min (seq_len r) (pages (pre_len r) * page_size) - pre_len r.
Definition part2 r : Z := (seq_len r / page_size - pages (pre_len r)) * page_size.
Definition part3 r : Z := seq_len r - seq_len r / page_size * page_size.

Lemma pages_of_bounds n : n ≤ pages n * page_size < n + page_size.
Proof.
  unfold pages_of. pose proof (Z_div_mod_eq_full (n + page_size - 1) page_size).
  pose proof (Z.mod_pos_bound (n + page_size - 1) page_size Hps). nia.
Qed.

Lemma div_bounds n : n / page_size * page_size ≤ n < n / page_size * page_size + page_size.
Proof.
  pose proof (Z_div_mod_eq_full n page_size). pose proof (Z.mod_pos_bound n page_size Hps). nia.
Qed.

Lemma pages_of_mono a b : a ≤ b → pages a ≤ pages b.
Proof. intros. apply Z.div_le_mono; lia. Qed.

Lemma news_nonneg r : valid_request r → 0 ≤ news r.
Proof. intros [_ H]. unfold num_new_pages. pose proof (pages_of_mono _ _ H). lia. Qed.

Lemma parts_bounds r :
  valid_request r →
  0 ≤ part1 r < page_size ∧ 0 ≤ part3 r < page_size ∧
  (seq_len r ≤ pages (pre_len r) * page_size ∧ part1 r = extend_len r ∨
   pages (pre_len r) * page_size < seq_len r ∧ part1 r = pages (pre_len r) * page_size - pre_len r ∧
   0 ≤ part2 r ∧ part1 r + part2 r + part3 r = extend_len r).
Proof.
  intros [H1 H2]. unfold part1, part2, part3, extend_len.
  pose proof (pages_of_bounds (pre_len r)). pose proof (div_bounds (seq_len r)).
  split; [lia|]. split; [lia|]. destruct (decide (seq_len r ≤ pages (pre_len r) * page_size)); [left; lia|right].
  assert (pages (pre_len r) ≤ seq_len r / page_size) by (apply Z.div_le_lower_bound; lia).
  split; [lia|]. split; [lia|]. split; [nia|lia].
Qed.

(** The three lists of places. *)
Definition locs1 r : list Z := (λ o, last_loc r + 1 + o) <$> seqZ 0 (part1 r).
Definition locs2 free np r : list Z :=
  (λ o, load beyond free (np + o / page_size) * page_size + o mod page_size) <$> seqZ 0 (part2 r).
Definition locs3 free np r : list Z :=
  (λ o, load beyond free (np + news r - 1) * page_size + o) <$> seqZ 0 (part3 r).

Lemma seqZ_fmap_ext {A} (f g : Z → A) a b n :
  (∀ o, 0 ≤ o < n → f (a + o) = g (b + o)) → f <$> seqZ a n = g <$> seqZ b n.
Proof.
  intros H. rewrite <- (seqZ_shift f a), <- (seqZ_shift g b). apply list_fmap_ext.
  intros i o Ho%lookup_seqZ. apply H. lia.
Qed.

Lemma request_locs_old free np r :
  valid_request r → seq_len r ≤ pages (pre_len r) * page_size → request_locs free np r = locs1 r.
Proof.
  intros Hv Hle. unfold request_locs, locs1.
  destruct (parts_bounds r Hv) as (?&?&[[_ ->]|[? _]]); [|lia].
  apply seqZ_fmap_ext. intros o Ho. unfold loc, extend_len in *.
  rewrite (proj2 (Z.ltb_lt _ _)) by lia. lia.
Qed.

Lemma request_locs_new free np r :
  valid_request r → pages (pre_len r) * page_size < seq_len r →
  request_locs free np r = locs1 r ++ locs2 free np r ++ locs3 free np r.
Proof.
  intros Hv Hlt. destruct (parts_bounds r Hv) as (?&?&[[? _]|(_&H1&H2&Hsum)]); [lia|].
  unfold request_locs, locs1, locs2, locs3. rewrite <- Hsum.
  rewrite <- Z.add_assoc, seqZ_app, seqZ_app, !fmap_app by lia.
  f_equal; [|f_equal]; apply seqZ_fmap_ext; intros o Ho; unfold loc.
  - rewrite (proj2 (Z.ltb_lt _ _)) by lia. lia.
  - rewrite (proj2 (Z.ltb_ge _ _)) by lia.
    replace (pre_len r + part1 r + o) with (o + pages (pre_len r) * page_size) by lia.
    rewrite Z.div_add, Z.mod_add, Z.add_0_l by lia. do 3 f_equal. lia.
  - rewrite (proj2 (Z.ltb_ge _ _)) by lia. rewrite Z.add_0_l.
    replace (pre_len r + part1 r + part2 r + o) with (o + seq_len r / page_size * page_size)
      by (unfold part2 in *; lia).
    rewrite Z.div_add, Z.mod_add, Z.div_small, Z.mod_small by lia. do 3 f_equal.
    unfold num_new_pages, part3 in *. pose proof (pages_of_bounds (seq_len r)). pose proof (div_bounds (seq_len r)). nia.
Qed.

Lemma length_request_locs free np r : Z.of_nat (length (request_locs free np r)) = Z.max 0 (extend_len r).
Proof. unfold request_locs. rewrite length_fmap, length_seqZ. lia. Qed.

(** Every program of the kernel writes its request's places at its request's window. *)
Lemma extend_program_write free rs (pid : nat) r m :
  valid_request r →
  extend_program page_size beyond free rs pid r m =
  write (Zsum (extend_len <$> take (S pid) rs) - extend_len r)
    (request_locs free (Zsum (news <$> take (S pid) rs) - news r) r) m.
Proof.
  intros Hv. unfold extend_program. fold (part1 r).
  generalize (Zsum (extend_len <$> take (S pid) rs) - extend_len r) as base.
  generalize (Zsum (news <$> take (S pid) rs) - news r) as np. intros np base.
  replace (seq_len r / page_size * page_size - pages (pre_len r) * page_size) with (part2 r)
    by (unfold part2; lia).
  fold (part3 r). destruct (parts_bounds r Hv) as (B1&B3&Hparts).
  rewrite (masked_store_write _ _ (part1 r)) by (done || lia). fold (locs1 r).
  destruct Hparts as [[Hle E]|(Hlt&E&B2&Esum)]; unfold extend_len in *.
  - rewrite (proj2 (Z.eqb_eq _ _)) by lia. by rewrite (request_locs_old free np r).
  - rewrite (proj2 (Z.eqb_neq _ _)) by lia. rewrite request_locs_new by done.
    rewrite (blocks_write (base + part1 r) (part2 r) BLOCK_EXTEND
      (λ o, load beyond free (np + o / page_size) * page_size + o mod page_size)) by done.
    fold (locs2 free np r). rewrite !write_app.
    replace (Z.of_nat (length (locs1 r))) with (part1 r) by (unfold locs1; rewrite length_fmap, length_seqZ; lia).
    replace (Z.of_nat (length (locs2 free np r))) with (part2 r)
      by (unfold locs2; rewrite length_fmap, length_seqZ; lia).
    destruct (Z.eqb_spec (pre_len r + part1 r + part2 r) (seq_len r)) as [E3|E3].
    + unfold locs3. replace (part3 r) with 0 by lia. done.
    + rewrite (masked_store_write _ _ (part3 r)) by (done || lia). done.
Qed.

(** Programs that write one after the other write the concatenation. *)
Lemma launch_write {A} (program : nat → A → gmap Z Z → gmap Z Z) (len : A → Z) (out : nat → A → list Z) l :
  ∀ pid base,
  (∀ i x m, l !! i = Some x → program (pid + i)%nat x m = write (base + Zsum (len <$> take i l)) (out (pid + i)%nat x) m) →
  (∀ i x, l !! i = Some x → Z.of_nat (length (out (pid + i)%nat x)) = len x) →
  ∀ m, launch program pid l m = write base (concat (imap (λ i, out (pid + i)%nat) l)) m.
Proof.
  induction l as [|x l IH]; intros pid base Hp Hlen m; [done|]. simpl.
  specialize (Hp 0%nat x) as Hp0. specialize (Hlen 0%nat x eq_refl) as Hl0.
  rewrite Nat.add_0_r in Hp0, Hl0. rewrite (Hp0 m eq_refl). simpl. rewrite Z.add_0_r, Nat.add_0_r, write_app, Hl0.
  rewrite (IH (S pid) (base + len x)).
  - do 2 f_equal. apply imap_ext. intros. simpl. f_equal. lia.
  - intros i y m' Hy. specialize (Hp (S i) y m' Hy). rewrite <- Nat.add_succ_comm in Hp. rewrite Hp.
    rewrite firstn_cons, fmap_cons, Zsum_cons. f_equal. lia.
  - intros i y Hy. rewrite Nat.add_succ_comm. by apply Hlen.
Qed.

Lemma batch_locs_concat free rs :
  ∀ np, batch_locs free np rs =
    concat (imap (λ i r, request_locs free (np + Zsum (news <$> take (S i) rs) - news r) r) rs).
Proof.
  induction rs as [|r rs IH]; intros np; [done|]. rewrite imap_cons. cbn [batch_locs concat]. f_equal.
  - f_equal. simpl. lia.
  - rewrite IH. f_equal. apply imap_ext. intros i x Hx. unfold compose.
    rewrite (firstn_cons (S i)), fmap_cons, Zsum_cons. f_equal. lia.
Qed.

Lemma take_S_sum (f : Extend → Z) rs i r :
  rs !! i = Some r → Zsum (f <$> take (S i) rs) = Zsum (f <$> take i rs) + f r.
Proof. intros H. rewrite (take_S_r _ _ _ H), fmap_app, Zsum_app. simpl. lia. Qed.

(** The kernel writes the places of the batch. *)
Lemma extend_kernel_write free rs m :
  Forall valid_request rs →
  alloc_extend_kernel page_size beyond free rs m = write 0 (batch_locs free 0 rs) m.
Proof.
  intros Hv. rewrite Forall_lookup in Hv. unfold alloc_extend_kernel.
  rewrite (launch_write _ extend_len
    (λ i r, request_locs free (Zsum (news <$> take (S i) rs) - news r) r) rs 0 0).
  - rewrite batch_locs_concat. do 2 f_equal.
  - intros i r m' Hr. simpl. rewrite extend_program_write by eauto. f_equal. rewrite (take_S_sum _ _ _ _ Hr). lia.
  - intros i r Hr. rewrite length_request_locs. pose proof (Hv i r Hr) as [_ ?]. unfold extend_len. lia.
Qed.

(** *** The loop over the requests *)

(** The indices of a list of pages, page after page. *)
Lemma pages_places (l : list Z) :
  l ≫= (λ p, (λ o, p + o) <$> seqZ 0 page_size) =
  (λ o, default 0 (l !! Z.to_nat (o / page_size)) + o mod page_size) <$> seqZ 0 (length l * page_size).
Proof.
  induction l as [|p l IH] using rev_ind; [done|].
  rewrite bind_app, IH, length_app, Nat2Z.inj_add, Z.mul_add_distr_r, seqZ_app, fmap_app by lia.
  simpl. rewrite app_nil_r, Z.mul_1_l, Z.add_0_l. f_equal; apply seqZ_fmap_ext; intros o Ho; rewrite ?Z.add_0_l.
  - assert (0 ≤ o / page_size < length l)
      by (split; [apply Z.div_pos; lia|apply Z.div_lt_upper_bound; lia]).
    rewrite lookup_app_l by lia. done.
  - rewrite (Z.add_comm (length l * page_size) o), Z.div_add, Z.mod_add, Z.div_small, Z.mod_small by lia.
    rewrite Z.add_0_l, Nat2Z.id. by rewrite list_lookup_middle.
Qed.

Lemma slice_lookup free (a k i : nat) : (i < k)%nat → drop a (take (a + k) free) !! i = free !! (a + i)%nat.
Proof. intros. rewrite lookup_drop, lookup_take_lt by lia. done. Qed.

Lemma naive_part2 free np r :
  0 ≤ np → 0 ≤ part2 r → np + news r ≤ length free →
  ((λ p, p * page_size) <$> drop (Z.to_nat np) (take (Z.to_nat (np + (seq_len r / page_size - pages (pre_len r)))) free))
    ≫= (λ p, (λ o, p + o) <$> seqZ 0 page_size) = locs2 free np r.
Proof.
  intros Hnp H2 Hlen.
  set (k := seq_len r / page_size - pages (pre_len r)).
  assert (0 ≤ k) as Hk by (unfold part2 in H2; subst k; nia).
  assert (k ≤ news r) as Hkn.
  { subst k. unfold num_new_pages. pose proof (pages_of_bounds (seq_len r)). pose proof (div_bounds (seq_len r)). nia. }
  rewrite pages_places, length_fmap, length_drop, length_take.
  replace (Z.of_nat (Z.to_nat (np + k) `min` length free - Z.to_nat np) * page_size) with (part2 r)
    by (unfold part2; fold k; f_equal; lia).
  apply seqZ_fmap_ext. intros o Ho. rewrite Z.add_0_l.
  assert (0 ≤ o / page_size < k)
    by (split; [apply Z.div_pos; lia|apply Z.div_lt_upper_bound; [lia|]; unfold part2 in Ho; fold k in Ho; lia]).
  rewrite list_lookup_fmap, Z2Nat.inj_add, slice_lookup by lia. unfold load.
  rewrite <- Z2Nat.inj_add by lia.
  destruct (lookup_lt_is_Some_2 free (Z.to_nat (np + o / page_size))) as [x Hx]; [lia|].
  by rewrite Hx.
Qed.

Lemma take_seqZ n k : 0 ≤ k ≤ n → take (Z.to_nat k) (seqZ 0 n) = seqZ 0 k.
Proof.
  intros. replace n with (k + (n - k)) by lia. rewrite seqZ_app by lia. apply take_app_length'.
  rewrite length_seqZ. done.
Qed.

Lemma length_locs1 r : 0 ≤ part1 r → Z.of_nat (length (locs1 r)) = part1 r.
Proof. intros. unfold locs1. rewrite length_fmap, length_seqZ. lia. Qed.

Lemma length_locs2 free np r : 0 ≤ part2 r → Z.of_nat (length (locs2 free np r)) = part2 r.
Proof. intros. unfold locs2. rewrite length_fmap, length_seqZ. lia. Qed.

Lemma news_pos r : pages (pre_len r) * page_size < seq_len r → 0 < news r.
Proof. intros. unfold num_new_pages. pose proof (pages_of_bounds (seq_len r)). nia. Qed.

(** The slice assignment that is skipped when there is nothing to assign. *)
Lemma assign_unless_0 base n l m :
  Z.of_nat (length l) = n → (if n =? 0 then Ok m else assign base n l m) = Ok (write base l m).
Proof.
  intros Hn. destruct (Z.eqb_spec n 0) as [->|_]; [|by apply assign_write].
  by rewrite (nil_length_inv l) by lia.
Qed.

Lemma naive_step_write free rs (i : nat) r m :
  valid_request r → 0 ≤ Zsum (news <$> take (S i) rs) - news r → Zsum (news <$> take (S i) rs) ≤ length free →
  naive_step page_size free rs i r m =
  Ok (write (Zsum (extend_len <$> take (S i) rs) - extend_len r)
    (request_locs free (Zsum (news <$> take (S i) rs) - news r) r) m).
Proof.
  intros Hv Hnp Hlen. unfold naive_step. fold (part1 r) (part2 r) (part3 r).
  revert Hnp Hlen. generalize (Zsum (extend_len <$> take (S i) rs)) as end_pos.
  generalize (Zsum (news <$> take (S i) rs)) as end_pages. intros end_pages end_pos Hnp Hlen.
  set (np := end_pages - news r) in *.
  destruct (parts_bounds r Hv) as (B1&B3&Hparts).
  rewrite (take_seqZ page_size (part1 r)) by lia. fold (locs1 r). rewrite assign_unless_0 by (apply length_locs1; lia). simpl.
  destruct Hparts as [[Hle E]|(Hlt&E&B2&Esum)]; unfold extend_len in *.
  { rewrite (proj2 (Z.eqb_eq _ _)) by lia. by rewrite (request_locs_old free np r). }
  rewrite (proj2 (Z.eqb_neq _ _)) by lia. rewrite request_locs_new by done.
  replace (end_pages - (news r - (seq_len r / page_size - pages (pre_len r))))
    with (np + (seq_len r / page_size - pages (pre_len r))) by lia.
  rewrite naive_part2, assign_unless_0 by (lia || by apply length_locs2). simpl.
  rewrite !write_app, length_locs1, length_locs2 by lia.
  destruct (Z.eqb_spec (pre_len r + part1 r + part2 r) (seq_len r)) as [E3|E3].
  { unfold locs3. by replace (part3 r) with 0 by lia. }
  rewrite (proj2 (Z.eqb_neq (part3 r) 0)), (take_seqZ page_size (part3 r)) by lia. pose proof (news_pos r Hlt).
  destruct (lookup_lt_is_Some_2 free (Z.to_nat (end_pages - 1))) as [x Hx]; [lia|]. rewrite Hx.
  rewrite assign_write by (rewrite length_fmap, length_seqZ; lia).
  unfold locs3, load. replace (np + news r - 1) with (end_pages - 1) by lia. rewrite Hx.
  do 2 f_equal. lia.
Qed.

Lemma naive_loop_write free rs l :
  ∀ i, rs = take i rs ++ l → Forall valid_request rs → get_num_new_pages page_size rs ≤ length free →
  ∀ m, naive_loop page_size free rs i l m = Ok (launch (extend_program page_size beyond free rs) i l m).
Proof.
  induction l as [|r l IH]; intros i Hrs Hv Hlen m; [done|]. simpl.
  assert (rs !! i = Some r) as Hr.
  { assert (length (take i rs) = i) as Hi.
    { apply (f_equal length) in Hrs. rewrite length_app in Hrs. simpl in Hrs. rewrite length_take in *. lia. }
    rewrite Hrs, lookup_app_r, Hi, Nat.sub_diag by lia. done. }
  assert (∀ k, 0 ≤ Zsum (news <$> take k rs) ≤ Zsum (news <$> rs)) as Hsum.
  { intros k. assert (∀ l', Forall valid_request l' → 0 ≤ Zsum (news <$> l')) as Hpos.
    { intros l' Hl'. apply Zsum_nonneg, Forall_fmap. eapply Forall_impl; [exact Hl'|apply news_nonneg]. }
    rewrite <- (take_drop k rs) at 3. rewrite fmap_app, Zsum_app.
    pose proof (Hpos _ (Forall_take _ k _ Hv)). pose proof (Hpos _ (Forall_drop _ k _ Hv)). lia. }
  assert (valid_request r) as Hvr by (rewrite Forall_lookup in Hv; eauto).
  rewrite naive_step_write, extend_program_write; try done.
  - simpl. apply IH; try done. rewrite (take_S_r _ _ _ Hr), <- app_assoc. done.
  - rewrite (take_S_sum _ _ _ _ Hr). pose proof (Hsum i). lia.
  - pose proof (Hsum (S i)). unfold get_num_new_pages in Hlen. lia.
Qed.

(** *** One new token per request *)

Lemma decode_program_extend free rs (pid : nat) seq last m :
  1 ≤ seq → Zsum (extend_len <$> take (S pid) rs) = pid + 1 →
  decode_program page_size beyond free rs pid (decode_request seq last) m =
  extend_program page_size beyond free rs pid (decode_request seq last) m.
Proof.
  intros Hseq Hpos. set (r := decode_request seq last).
  assert (valid_request r) as Hv by (split; simpl; lia).
  rewrite extend_program_write by done. unfold decode_program.
  generalize (Zsum (news <$> take (S pid) rs) - news r) as np. intros np.
  replace (Zsum (extend_len <$> take (S pid) rs) - extend_len r) with (Z.of_nat pid)
    by (change (extend_len r) with (seq - (seq - 1)); lia).
  assert (request_locs free np r = [loc free np r (seq - 1)]) as ->.
  { unfold request_locs. change (extend_len r) with (seq - (seq - 1)).
    by replace (seq - (seq - 1)) with 1 by lia. }
  unfold write, masked_store. simpl. rewrite Z.add_0_r. unfold loc. simpl.
  pose proof (pages_of_bounds (seq - 1)) as Hb. pose proof (pages_of_bounds seq) as Hs.
  pose proof (pages_of_mono (seq - 1) seq) as Hm. unfold num_new_pages; simpl.
  destruct (Z.eqb_spec (pages seq - pages (seq - 1)) 0) as [E|E].
  - rewrite (proj2 (Z.ltb_lt _ _)) by nia. f_equal. lia.
  - assert (seq - 1 = pages (seq - 1) * page_size) as E' by nia.
    rewrite (proj2 (Z.ltb_ge _ _)) by lia.
    assert ((seq - 1) / page_size = pages (seq - 1)) as -> by (rewrite E' at 1; apply Z.div_mul; lia).
    assert ((seq - 1) mod page_size = 0) as -> by (rewrite E'; apply Z.mod_mul; lia).
    rewrite Z.add_0_r. do 3 f_equal. lia.
Qed.
End Locs.

(** ** The pages of the new tokens

    Which pages the places of a batch lie in, that they are all of the pages taken, and that
    no place is given twice. *)

(** ** The pages of the places *)

Section Pages.
Context (page_size : Z) (beyond : Z → Z) (Hps : 0 < page_size).
Implicit Types (r : Extend) (rs : list Extend) (free : list Z).
Local Abbreviation pages := (pages_of page_size).
Local Abbreviation news := (num_new_pages page_size).
Local Abbreviation locs := (request_locs page_size beyond).

(** The last token lies at its position's place in a page. *)
Definition aligned r : Prop := (last_loc r + 1) mod page_size = pre_len r mod page_size.

(** The page a request goes on to fill, where it has one. *)
Definition tail_page r : option Z :=
  if 0 <? part1 page_size r then Some (last_loc r / page_size) else None.

Lemma div_mod_page q o : 0 ≤ o < page_size → (q * page_size + o) / page_size = q ∧ (q * page_size + o) mod page_size = o.
Proof.
  intros. rewrite (Z.add_comm _ o), Z.div_add, Z.mod_add, Z.div_small, Z.mod_small by lia. lia.
Qed.

(** A token of the old page stays in it, next to the last token. *)
Lemma loc_old free np r p :
  aligned r → pre_len r ≤ p < pages (pre_len r) * page_size →
  loc page_size beyond free np r p = last_loc r / page_size * page_size + p mod page_size.
Proof.
  intros Ha Hp. unfold loc. rewrite (proj2 (Z.ltb_lt _ _)) by lia. unfold aligned in Ha.
  pose proof (pages_of_bounds page_size Hps (pre_len r)).
  pose proof (div_bounds page_size Hps (pre_len r)) as Hd.
  pose proof (Z_div_mod_eq_full (pre_len r) page_size) as Hm.
  assert (pages (pre_len r) = pre_len r / page_size + 1) as HP by nia. rewrite HP in *.
  assert (p = pre_len r / page_size * page_size + (p - pre_len r / page_size * page_size)) as Hpd by lia.
  destruct (div_mod_page (pre_len r / page_size) (p - pre_len r / page_size * page_size)) as [_ Hpm]; [lia|].
  rewrite <- Hpd in Hpm. rewrite Hpm.
  pose proof (Z_div_mod_eq_full (last_loc r + 1) page_size) as Hl. rewrite Ha in Hl.
  assert (last_loc r = (last_loc r + 1) / page_size * page_size + (pre_len r mod page_size - 1)) as Hlast by lia.
  destruct (div_mod_page ((last_loc r + 1) / page_size) (pre_len r mod page_size - 1)) as [Hq _]; [nia|].
  rewrite <- Hlast in Hq. rewrite Hq. lia.
Qed.

Lemma loc_new free np r p :
  pages (pre_len r) * page_size ≤ p →
  loc page_size beyond free np r p =
  load beyond free (np + p / page_size - pages (pre_len r)) * page_size + p mod page_size.
Proof. intros. unfold loc. by rewrite (proj2 (Z.ltb_ge _ _)) by lia. Qed.

Lemma elem_of_locs free np r v :
  v ∈ locs free np r ↔ ∃ p, pre_len r ≤ p < seq_len r ∧ v = loc page_size beyond free np r p.
Proof.
  unfold request_locs, extend_len. rewrite list_elem_of_fmap.
  split; intros (p&H1&H2); exists p; rewrite elem_of_seqZ in *; (split; [done || lia|done || lia]).
Qed.

(** The position of a new token in the free pages. *)
Lemma new_page_index r p :
  pages (pre_len r) * page_size ≤ p < seq_len r → 0 ≤ p / page_size - pages (pre_len r) < news r.
Proof.
  intros Hp. unfold num_new_pages. pose proof (pages_of_bounds page_size Hps (seq_len r)).
  pose proof (div_bounds page_size Hps p). nia.
Qed.

Lemma locs_page free np r v :
  aligned r → v ∈ locs free np r →
  tail_page r = Some (v / page_size) ∨ ∃ k, np ≤ k < np + news r ∧ v / page_size = load beyond free k.
Proof.
  intros Ha (p&Hp&->)%elem_of_locs. pose proof (Z.mod_pos_bound p page_size Hps).
  destruct (decide (p < pages (pre_len r) * page_size)) as [Hlt|Hge].
  - left. rewrite loc_old by (done || lia). rewrite (proj1 (div_mod_page _ _ H)).
    unfold tail_page. rewrite (proj2 (Z.ltb_lt _ _)); [done|]. unfold part1. lia.
  - right. rewrite loc_new, (proj1 (div_mod_page _ _ H)) by lia.
    pose proof (new_page_index r p ltac:(lia)). eexists. split; [|done]. lia.
Qed.

(** Every page taken for a request holds one of its tokens. *)
Lemma locs_covers free np r k :
  valid_request r → np ≤ k < np + news r → load beyond free k * page_size ∈ locs free np r.
Proof.
  intros [H0 Hle] Hk. apply elem_of_locs. exists ((pages (pre_len r) + (k - np)) * page_size).
  pose proof (pages_of_bounds page_size Hps (seq_len r)). pose proof (pages_of_bounds page_size Hps (pre_len r)).
  unfold num_new_pages in Hk. split; [nia|].
  rewrite loc_new, Z.div_mul, Z.mod_mul, Z.add_0_r by nia. do 2 f_equal. lia.
Qed.

Lemma tail_covers free np r q :
  valid_request r → aligned r → tail_page r = Some q → ∃ v, v ∈ locs free np r ∧ v / page_size = q.
Proof.
  intros [H0 Hle] Ha. unfold tail_page. destruct (Z.ltb_spec 0 (part1 page_size r)) as [H1|]; [|done].
  intros [= <-]. unfold part1 in H1. pose proof (Z.mod_pos_bound (pre_len r) page_size Hps) as Hm.
  eexists. split; [apply elem_of_locs; exists (pre_len r); split; [lia|done]|].
  rewrite loc_old, (proj1 (div_mod_page _ _ Hm)) by (done || lia). done.
Qed.

(** Only the first free pages matter, as many as there are new ones. *)
Lemma batch_locs_take free (n : nat) rs :
  ∀ np, Forall valid_request rs → 0 ≤ np → np + get_num_new_pages page_size rs ≤ n →
  batch_locs page_size beyond (take n free) np rs = batch_locs page_size beyond free np rs.
Proof.
  unfold get_num_new_pages. induction rs as [|r rs IH]; intros np Hv Hnp Hn; [done|]. apply Forall_cons in Hv as [Hr Hv].
  cbn [fmap list_fmap batch_locs] in *. rewrite Zsum_cons in Hn. pose proof (news_nonneg _ Hps r Hr) as H0.
  assert (0 ≤ Zsum (news <$> rs)) by (apply Zsum_nonneg, Forall_fmap; eapply Forall_impl; [exact Hv|apply (news_nonneg _ Hps)]).
  rewrite IH by (try done; unfold num_new_pages in *; lia). f_equal. unfold request_locs. apply list_fmap_ext. intros i p Hp%list_elem_of_lookup_2.
  apply elem_of_seqZ in Hp. unfold extend_len in Hp. unfold loc. destruct (Z.ltb_spec p (pages (pre_len r) * page_size)); [done|].
  pose proof (new_page_index r p ltac:(lia)). unfold load. by rewrite lookup_take_lt by lia.
Qed.

(** With pages of one token the places are the pages. *)
Lemma batch_locs_tokens free rs :
  ∀ np, page_size = 1 → Forall valid_request rs → 0 ≤ np → np + get_num_new_pages page_size rs ≤ length free →
  batch_locs page_size beyond free np rs = take (Z.to_nat (get_num_new_pages page_size rs)) (drop (Z.to_nat np) free).
Proof.
  intros np H1 Hv. revert np. unfold get_num_new_pages. induction Hv as [|r rs Hr Hv IH]; intros np Hnp Hlen; [done|].
  cbn [fmap list_fmap batch_locs] in *. rewrite Zsum_cons in *. pose proof (news_nonneg _ Hps r Hr) as H0.
  assert (0 ≤ Zsum (news <$> rs)) by (apply Zsum_nonneg, Forall_fmap; eapply Forall_impl; [exact Hv|apply (news_nonneg _ Hps)]).
  assert (∀ n, pages n = n) as Hpg by (intros n; unfold pages_of; rewrite H1, Z.div_1_r; lia).
  assert (news r = extend_len r) as Hn by (unfold num_new_pages, extend_len; by rewrite !Hpg).
  rewrite IH by lia. rewrite Z2Nat.inj_add by lia. rewrite Z2Nat.inj_add by lia. rewrite <- drop_drop.
  rewrite <- (take_drop (Z.to_nat (news r)) (take (Z.to_nat (news r) + _) _)), take_take, Nat.min_l, <- take_drop_commute by lia. f_equal.
  apply list_eq. intros i. unfold request_locs. rewrite list_lookup_fmap. destruct (decide (i < Z.to_nat (news r))%nat) as [Hi|Hi].
  - rewrite lookup_seqZ_lt, lookup_take_lt, lookup_drop by lia. cbn. unfold loc. rewrite Hpg, H1, Z.mul_1_r, (proj2 (Z.ltb_ge _ _)) by lia.
    rewrite Z.div_1_r, Z.mod_1_r, Z.mul_1_r, Z.add_0_r. unfold load. replace (Z.to_nat (np + (pre_len r + i) - pre_len r)) with (Z.to_nat np + i)%nat by lia.
    destruct (lookup_lt_is_Some_2 free (Z.to_nat np + i)) as [x Hx]; [lia|]. by rewrite Hx.
  - rewrite lookup_seqZ_ge, lookup_take_ge by lia. done.
Qed.

(** The pages of a batch: the old pages of its requests and the free pages taken. *)
Lemma batch_locs_page free rs v :
  ∀ np, Forall valid_request rs → Forall aligned rs → v ∈ batch_locs page_size beyond free np rs →
  (∃ r, r ∈ rs ∧ tail_page r = Some (v / page_size)) ∨
  ∃ k, np ≤ k < np + get_num_new_pages page_size rs ∧ v / page_size = load beyond free k.
Proof.
  induction rs as [|r rs IH]; intros np Hv Ha; simpl; [by intros ?%elem_of_nil|].
  apply Forall_cons in Hv as [Hr Hv], Ha as [Har Ha]. unfold get_num_new_pages in *. cbn [fmap list_fmap].
  rewrite Zsum_cons. intros [H|H]%elem_of_app.
  - destruct (locs_page _ _ _ _ Har H) as [H'|(k&Hk&H')].
    + left. exists r. split; [by left|done].
    + right. exists k. split; [|done].
      assert (0 ≤ Zsum (news <$> rs))
        by (apply Zsum_nonneg, Forall_fmap; eapply Forall_impl; [exact Hv|apply (news_nonneg _ Hps)]). lia.
  - pose proof (news_nonneg _ Hps r Hr).
    destruct (IH _ Hv Ha H) as [(r'&Hr'&H')|(k&Hk&H')].
    + left. exists r'. split; [by right|done].
    + right. exists k. split; [lia|done].
Qed.

Lemma batch_locs_covers free rs k :
  ∀ np, Forall valid_request rs → np ≤ k < np + get_num_new_pages page_size rs →
  load beyond free k * page_size ∈ batch_locs page_size beyond free np rs.
Proof.
  unfold get_num_new_pages. induction rs as [|r rs IH]; intros np Hv Hk; [simpl in Hk; lia|].
  apply Forall_cons in Hv as [Hr Hv]. cbn [fmap list_fmap batch_locs] in *. rewrite Zsum_cons in Hk.
  apply elem_of_app. destruct (decide (k < np + news r)) as [Hlt|Hge].
  - left. apply locs_covers; [done|lia].
  - right. apply IH; [done|]. unfold num_new_pages in *. lia.
Qed.

(** *** No place is given twice *)

(** What keeps the places of a batch apart: the free pages are distinct, no two requests
    fill the same old page, and no old page is free. *)
Record apart free rs : Prop := {
  apart_valid : Forall valid_request rs;
  apart_aligned : Forall aligned rs;
  apart_free : NoDup free;
  apart_tails : NoDup (omap tail_page rs);
  apart_disjoint : ∀ q, q ∈ omap tail_page rs → q ∉ free;
}.

Lemma load_inj free i j :
  NoDup free → 0 ≤ i < length free → 0 ≤ j < length free → load beyond free i = load beyond free j → i = j.
Proof.
  intros Hnd Hi Hj. unfold load.
  destruct (lookup_lt_is_Some_2 free (Z.to_nat i)) as [x Hx]; [lia|].
  destruct (lookup_lt_is_Some_2 free (Z.to_nat j)) as [y Hy]; [lia|].
  rewrite Hx, Hy. simpl. intros ->. pose proof (NoDup_lookup _ _ _ _ Hnd Hx Hy). lia.
Qed.

Lemma load_elem free i : 0 ≤ i < length free → load beyond free i ∈ free.
Proof.
  intros. unfold load. destruct (lookup_lt_is_Some_2 free (Z.to_nat i)) as [x Hx]; [lia|].
  rewrite Hx. by eapply list_elem_of_lookup_2.
Qed.

Lemma loc_inj free np r p1 p2 :
  aligned r → NoDup free → 0 ≤ np → np + news r ≤ length free →
  (∀ q, tail_page r = Some q → q ∉ free) →
  pre_len r ≤ p1 < seq_len r → pre_len r ≤ p2 < seq_len r →
  loc page_size beyond free np r p1 = loc page_size beyond free np r p2 → p1 = p2.
Proof.
  intros Ha Hnd Hnp Hlen Ht H1 H2 Heq.
  assert (∀ p, pre_len r ≤ p < seq_len r → p < pages (pre_len r) * page_size →
    tail_page r = Some (last_loc r / page_size)) as Htail.
  { intros p Hp Hlt. unfold tail_page. rewrite (proj2 (Z.ltb_lt _ _)); [done|]. unfold part1. lia. }
  pose proof (Z.mod_pos_bound p1 page_size Hps) as Hm1. pose proof (Z.mod_pos_bound p2 page_size Hps) as Hm2.
  pose proof (new_page_index r p1) as N1. pose proof (new_page_index r p2) as N2.
  destruct (decide (p1 < pages (pre_len r) * page_size)) as [L1|G1],
    (decide (p2 < pages (pre_len r) * page_size)) as [L2|G2].
  - unfold loc in Heq. rewrite !(proj2 (Z.ltb_lt _ _)) in Heq by lia. lia.
  - exfalso. apply (f_equal (λ v, v / page_size)) in Heq. rewrite loc_old, loc_new in Heq by (done || lia).
    rewrite (proj1 (div_mod_page _ _ Hm1)), (proj1 (div_mod_page _ _ Hm2)) in Heq.
    apply (Ht _ (Htail p1 H1 L1)). rewrite Heq. apply load_elem. lia.
  - exfalso. apply (f_equal (λ v, v / page_size)) in Heq. rewrite loc_new, loc_old in Heq by (done || lia).
    rewrite (proj1 (div_mod_page _ _ Hm1)), (proj1 (div_mod_page _ _ Hm2)) in Heq.
    apply (Ht _ (Htail p2 H2 L2)). rewrite <- Heq. apply load_elem. lia.
  - rewrite !loc_new in Heq by lia.
    pose proof (f_equal (λ v, v / page_size) Heq) as Hd. pose proof (f_equal (λ v, v mod page_size) Heq) as Hr.
    simpl in Hd, Hr. rewrite (proj1 (div_mod_page _ _ Hm1)), (proj1 (div_mod_page _ _ Hm2)) in Hd.
    rewrite (proj2 (div_mod_page _ _ Hm1)), (proj2 (div_mod_page _ _ Hm2)) in Hr.
    apply load_inj in Hd; [|done|lia..].
    pose proof (Z_div_mod_eq_full p1 page_size). pose proof (Z_div_mod_eq_full p2 page_size). nia.
Qed.

Lemma NoDup_request_locs free np r :
  aligned r → NoDup free → 0 ≤ np → np + news r ≤ length free →
  (∀ q, tail_page r = Some q → q ∉ free) → NoDup (locs free np r).
Proof.
  intros Ha Hnd Hnp Hlen Ht. unfold request_locs. apply NoDup_fmap_2_strong; [|apply NoDup_seqZ].
  intros p1 p2 H1 H2. rewrite elem_of_seqZ in *. unfold extend_len in *.
  apply loc_inj; (done || lia).
Qed.

Lemma NoDup_batch_locs free rs :
  ∀ np, apart free rs → 0 ≤ np → np + get_num_new_pages page_size rs ≤ length free →
  NoDup (batch_locs page_size beyond free np rs).
Proof.
  induction rs as [|r rs IH]; intros np Hap Hnp Hlen; [constructor|].
  destruct Hap as [Hv Ha Hnd Ht Hd]. apply Forall_cons in Hv as [Hr Hv], Ha as [Har Ha].
  assert (0 ≤ get_num_new_pages page_size rs) as Hpos
    by (apply Zsum_nonneg, Forall_fmap; eapply Forall_impl; [exact Hv|apply (news_nonneg _ Hps)]).
  pose proof (news_nonneg _ Hps r Hr) as Hn.
  unfold get_num_new_pages in *. cbn [fmap list_fmap batch_locs] in *. rewrite Zsum_cons in Hlen.
  assert (∀ q, tail_page r = Some q → (q ∉ free) ∧ (q ∉ omap tail_page rs)) as Hq.
  { intros q Eq. simpl in Ht, Hd. rewrite Eq in Ht, Hd. split; [apply Hd; by left|].
    by apply NoDup_cons in Ht as [? _]. }
  apply NoDup_app. split; [|split].
  - apply NoDup_request_locs; try done; [lia|]. intros q Eq. by apply Hq.
  - intros v H1 H2. destruct (locs_page _ _ _ _ Har H1) as [T1|(k1&K1&T1)],
      (batch_locs_page _ _ _ _ Hv Ha H2) as [(r'&Hr'&T2)|(k2&K2&T2)]; unfold get_num_new_pages in *.
    + apply (proj2 (Hq _ T1)). apply list_elem_of_omap. eauto.
    + apply (proj1 (Hq _ T1)). rewrite T2. apply load_elem. lia.
    + apply (Hd (v / page_size)); [apply list_elem_of_omap; exists r'; split; [by right|done]|].
      rewrite T1. apply load_elem. lia.
    + rewrite T1 in T2. apply load_inj in T2; [lia|done|lia..].
  - apply IH; [|lia|lia]. split; try done.
    + simpl in Ht. destruct (tail_page r); [by apply NoDup_cons in Ht as [_ ?]|done].
    + intros q Hq'. apply Hd. simpl. destruct (tail_page r); [by right|done].
Qed.
End Pages.
