(* ===== verification/KvPoolProps.v ===== *)
(** * Pages change hands, none is lost

    The pages of a pool are free, set aside until the free list is sorted again, waiting in
    an open group of frees, or live. Every operation keeps that partition; an allocation
    takes pages that were not live. *)

From stdpp Require Import sorting.
From S2P Require Import Prelude KvPool KvKernelFacts.
Local Open Scope Z_scope.

(** Pages leave the live ones for the free ones, or for the open group. *)
Lemma give_back (H P L X A : gset Z) :
  X ⊆ L ∪ P → L ## H ∪ P → P ## H → H ∪ P ∪ L = A →
  H ∪ (P ∪ X) ∪ (L ∖ X) = A ∧ (L ∖ X) ## H ∪ (P ∪ X) ∧ (P ∪ X) ## H ∧ (P = ∅ → X ## H).
Proof.
  intros HX HL HP <-. split; [|split; [|split]].
  - apply set_eq. intros q. destruct (decide (q ∈ X)); set_solver.
  - set_solver.
  - clear - HX HL HP. intros q [Hq|Hq]%elem_of_union Hh; [by apply (HP q)|].
    apply HX, elem_of_union in Hq as [Hq|Hq]; [apply (HL q Hq), elem_of_union; by left|by apply (HP q)].
  - intros ->. clear - HX HL. set_solver.
Qed.

Section Pool.
Context (cfg : PoolConfig) (uninit beyond : Z → Z).
Local Abbreviation ps := (pool_page_size cfg).
Hypothesis Hps : 0 < ps.
Hypothesis Hdebug : debug_mode cfg = false.
Implicit Types (p : Pool) (live : gset Z) (idx : list Z).

Definition pages_in idx : gset Z := list_to_set ((λ i, i / ps) <$> idx).
Definition pending p : gset Z := if is_not_in_free_group p then ∅ else pages_in (concat (free_group p)).
Definition held p : list Z := free_pages p ++ release_pages p.
Definition all_pages : gset Z := list_to_set (seqZ 1 (num_pages cfg)).

Record paged_inv p live : Prop := mk_paged_inv {
  inv_nodup : NoDup (held p);
  inv_all : list_to_set (held p) ∪ pending p ∪ live = all_pages;
  inv_live : live ## list_to_set (held p) ∪ pending p;
  inv_pending : pending p ## list_to_set (held p);
  inv_release : need_sort cfg = false → release_pages p = [];
}.

Lemma pool_init_inv : paged_inv (init_paged_pool cfg) ∅.
Proof.
  clear uninit beyond Hps Hdebug.
  unfold init_paged_pool, fresh, all_pages. split; unfold held, pending; simpl; rewrite ?app_nil_r.
  - apply NoDup_seqZ.
  - set_solver.
  - set_solver.
  - set_solver.
  - done.
Qed.

(** ** The free list *)

Lemma pool_inv_perm p p' live :
  held p' ≡ₚ held p → pending p' = pending p → (release_pages p = [] → release_pages p' = []) →
  paged_inv p live → paged_inv p' live.
Proof.
  intros Hh Hp Hr [H1 H2 H3 H4 H5]. assert (list_to_set (held p') = (list_to_set (held p) : gset Z)) as E
    by (by rewrite Hh).
  split; rewrite ?E, ?Hp; try done; [by rewrite Hh|auto].
Qed.

Lemma pool_merge_inv p live :
  paged_inv p live → ∃ p', merge_and_sort_free p = (Ok tt, p') ∧ paged_inv p' live ∧
    held p' ≡ₚ held p ∧ is_not_in_free_group p' = is_not_in_free_group p ∧ free_group p' = free_group p ∧
    release_pages p' = [].
Proof.
  intros Hinv. unfold merge_and_sort_free, modify. eexists. split; [done|].
  case_bool_decide as Hr; [done|].
  assert (held (set_release_pages (λ _, []) (set_free_pages (λ f, sorted (f ++ release_pages p)) p)) ≡ₚ held p) as Hh.
  { unfold held, sorted. simpl. rewrite app_nil_r. apply merge_sort_Permutation. }
  split; [|done]. by apply (pool_inv_perm p).
Qed.

(** What the allocations begin with. *)
Definition refill (need : Z) : M Pool unit :=
  p ← get; when (need_sort cfg && (length (free_pages p) <? need)) merge_and_sort_free.

Lemma refill_when need p x :
  refill need p = x → when (need_sort cfg && (length (free_pages p) <? need)) merge_and_sort_free p = x.
Proof. done. Qed.

Lemma refill_inv need p live :
  paged_inv p live → ∃ p', refill need p = (Ok tt, p') ∧ paged_inv p' live ∧
    held p' ≡ₚ held p ∧ (need ≤ length (free_pages p') ∨ release_pages p' = []).
Proof.
  clear uninit beyond Hps Hdebug.
  intros Hinv. unfold refill, when. simpl. unfold mbind, M_bind, get.
  destruct (need_sort cfg) eqn:Es; simpl; [|exists p; pose proof (inv_release _ _ Hinv Es); naive_solver].
  destruct (Z.ltb_spec (length (free_pages p)) need) as [Hlt|Hge].
  - destruct (pool_merge_inv p live Hinv) as (p'&->&?&?&?&?&?). exists p'. naive_solver.
  - exists p. split; [done|]. split; [done|]. split; [done|]. by left.
Qed.

(** The pages taken from the front were free, and become live. *)
Lemma pool_take_inv p live (n : nat) :
  (n ≤ length (free_pages p))%nat → paged_inv p live →
  paged_inv (set_free_pages (drop n) p) (live ∪ list_to_set (take n (free_pages p))) ∧
  live ## list_to_set (take n (free_pages p)).
Proof.
  clear uninit beyond Hps Hdebug.
  intros Hn [H1 H2 H3 H4 H5]. unfold held in *.
  rewrite <- (take_drop n (free_pages p)) in H1, H2, H3, H4.
  rewrite !list_to_set_app_L in H2, H3, H4. rewrite <- app_assoc in H1.
  apply NoDup_app in H1 as (N1&N2&N3).
  assert (∀ q, q ∈ take n (free_pages p) → (q ∉ drop n (free_pages p)) ∧ (q ∉ release_pages p)) as Hd
    by (intros q Hq; specialize (N2 q Hq); rewrite elem_of_app in N2; tauto).
  split; [|set_solver].
  split; unfold held, pending in *; simpl; rewrite ?list_to_set_app_L; [done|set_solver| |set_solver|done].
  assert (list_to_set (take n (free_pages p)) ## (list_to_set (drop n (free_pages p)) : gset Z)
    ∧ list_to_set (take n (free_pages p)) ## (list_to_set (release_pages p) : gset Z)) as [D1 D2] by set_solver.
  set_solver.
Qed.

(** ** Allocation *)

Lemma pages_in_indices (l : list Z) : pages_in (indices_of_pages cfg l) = list_to_set l.
Proof.
  apply set_eq. intros q. unfold pages_in, indices_of_pages.
  rewrite !elem_of_list_to_set, list_elem_of_fmap. split.
  - intros (i&->&(x&Hx&Hl)%list_elem_of_bind). apply list_elem_of_fmap in Hx as (o&->&Ho%elem_of_seqZ).
    by rewrite (proj1 (div_mod_page _ Hps x o ltac:(lia))).
  - intros Hq. exists (q * ps + 0). split; [by rewrite (proj1 (div_mod_page _ Hps q 0 ltac:(lia)))|].
    apply list_elem_of_bind. exists q. split; [|done]. apply list_elem_of_fmap. exists 0.
    split; [done|]. apply elem_of_seqZ. lia.
Qed.

Lemma length_indices (l : list Z) : Z.of_nat (length (indices_of_pages cfg l)) = length l * ps.
Proof.
  induction l as [|x l IH]; [done|]. unfold indices_of_pages in *.
  rewrite bind_cons, length_app, length_fmap, length_seqZ, length_cons. lia.
Qed.

Lemma NoDup_indices (l : list Z) : NoDup l → NoDup (indices_of_pages cfg l).
Proof.
  intros Hl. unfold indices_of_pages. apply NoDup_bind; [|intros; apply NoDup_fmap_2; [intros ???; lia|apply NoDup_seqZ]|done].
  intros x1 x2 y _ _ (o1&->&H1%elem_of_seqZ)%list_elem_of_fmap (o2&E&H2%elem_of_seqZ)%list_elem_of_fmap.
  apply (f_equal (λ v, v / ps)) in E.
  by rewrite (proj1 (div_mod_page _ Hps x1 o1 ltac:(lia))), (proj1 (div_mod_page _ Hps x2 o2 ltac:(lia))) in E.
Qed.

(** What the caller of an allocation sees: [new] pages that nobody held, or no change and
    fewer free pages than were needed. *)
Definition granted p live (need : Z) (out : option (list Z)) p' : Prop :=
  match out with
  | Some idx => ∃ new : list Z, NoDup new ∧ Z.of_nat (length new) = need ∧ live ## list_to_set new ∧
      live ∪ pages_in idx = live ∪ list_to_set new ∧ paged_inv p' (live ∪ pages_in idx) ∧
      held p ≡ₚ new ++ held p'
  | None => paged_inv p' live ∧ held p' ≡ₚ held p ∧ length (held p) < need
  end.

Lemma in_debug_skip b p : in_debug cfg b p = (Ok tt, p).
Proof. unfold in_debug. unfold mbind, M_bind, get. by rewrite Hdebug. Qed.

(** Taking [need] pages after the free list was refilled for at least as many. *)
Lemma take_granted need want out p p1 live :
  0 ≤ need ≤ want → paged_inv p1 live → held p1 ≡ₚ held p →
  (want ≤ length (free_pages p1) ∨ release_pages p1 = []) →
  (need ≤ length (free_pages p1) → live ∪ pages_in out = live ∪ list_to_set (take (Z.to_nat need) (free_pages p1))) →
  ∃ o p', take_pages out need p1 = (Ok o, p') ∧ granted p live need o p' ∧ (is_Some o → o = Some out).
Proof.
  intros Hneed Hinv Hh Hs Hout. unfold take_pages, mbind, M_bind, get, modify, mret, M_ret.
  destruct (Z.ltb_spec (length (free_pages p1)) need) as [Hlt|Hge].
  - exists None, p1. split; [done|]. split; [|by intros []]. split; [done|]. split; [done|].
    destruct Hs as [?|Hr]; [lia|].
    rewrite <- Hh. unfold held. rewrite Hr, app_nil_r. lia.
  - eexists (Some out), _. split; [done|]. split; [|done].
    destruct (pool_take_inv p1 live (Z.to_nat need)) as [Hi Hd]; [lia|done|].
    exists (take (Z.to_nat need) (free_pages p1)). rewrite Hout by done.
    pose proof (inv_nodup _ _ Hinv) as Hnd. unfold held in Hnd. apply NoDup_app in Hnd as (Hnd&_&_).
    split; [rewrite <- (take_drop (Z.to_nat need)) in Hnd; by apply NoDup_app in Hnd as (?&_&_)|].
    split; [rewrite length_take; lia|]. split; [done|]. split; [done|]. split; [done|].
    rewrite <- Hh. unfold held. simpl. by rewrite app_assoc, take_drop.
Qed.

Lemma paged_alloc_granted n p live :
  0 ≤ n → paged_inv p live →
  ∃ o p', paged_alloc cfg n p = (Ok o, p') ∧ granted p live (n / ps) o p' ∧
    ∀ idx, o = Some idx → NoDup idx ∧ Z.of_nat (length idx) = n / ps * ps.
Proof.
  intros Hn Hinv. assert (0 ≤ n / ps) as Hq by (apply Z.div_pos; lia).
  destruct (refill_inv (n / ps) p live Hinv) as (p1&Hr&Hinv1&Hh&Hs).
  destruct (take_granted (n / ps) (n / ps) (indices_of_pages cfg (take (Z.to_nat (n / ps)) (free_pages p1))) p p1 live)
    as (o&p'&Ht&Hg&Ho); try done; [by rewrite pages_in_indices|].
  exists o, p'. split; [|split; [done|]].
  - unfold paged_alloc. rewrite (bind_Ok _ _ _ _ _ (in_debug_skip _ p)). cbv zeta.
    rewrite (bind_Ok get _ p p p eq_refl), (bind_Ok _ _ p tt p1 (refill_when _ _ _ Hr)). exact Ht.
  - intros idx ->. injection (Ho ltac:(by eexists)) as ->. destruct Hg as (new&_&Hlen&_&_&_&_).
    revert Ht. unfold take_pages, mbind, M_bind, get, modify, mret, M_ret.
    destruct (Z.ltb_spec (length (free_pages p1)) (n / ps)) as [|Hge]; [done|]. intros _.
    pose proof (inv_nodup _ _ Hinv1) as Hnd. unfold held in Hnd. apply NoDup_app in Hnd as (Hnd&_&_).
    split.
    + apply NoDup_indices. rewrite <- (take_drop (Z.to_nat (n / ps))) in Hnd. by apply NoDup_app in Hnd as (?&_&_).
    + rewrite length_indices, length_take. f_equal. lia.
Qed.

(** *** A batch *)

Lemma length_batch_locs free rs :
  ∀ np, Forall valid_request rs →
  Z.of_nat (length (batch_locs ps beyond free np rs)) = Zsum (extend_len <$> rs).
Proof.
  induction rs as [|r rs IH]; intros np Hv; [done|]. apply Forall_cons in Hv as [[_ Hr] Hv].
  cbn [batch_locs fmap list_fmap]. rewrite Zsum_cons, length_app, Nat2Z.inj_add, IH by done.
  rewrite length_request_locs. unfold extend_len. lia.
Qed.

(** Reading back a tensor that was written from its start. *)
Lemma read_write (l : list Z) : read uninit (write 0 l ∅) (length l) = l.
Proof.
  apply list_eq. intros i. unfold read. rewrite list_lookup_fmap.
  destruct (decide (i < length l)%nat) as [Hi|Hi].
  - rewrite lookup_seqZ_lt by lia. simpl. rewrite write_lookup, bool_decide_eq_true_2 by lia.
    destruct (lookup_lt_is_Some_2 l i Hi) as [x Hx]. replace (Z.to_nat (0 + i - 0)) with i by lia. by rewrite Hx.
  - rewrite lookup_seqZ_ge, (lookup_ge_None_2 l) by lia. done.
Qed.

Lemma extend_out free rs :
  Forall valid_request rs →
  read uninit (alloc_extend_kernel ps beyond free rs ∅) (Zsum (extend_len <$> rs)) = batch_locs ps beyond free 0 rs.
Proof.
  intros Hv. rewrite (extend_kernel_write ps beyond Hps) by done.
  rewrite <- (length_batch_locs free rs 0 Hv). apply read_write.
Qed.

(** The estimate that decides whether the free list is sorted again is high enough. *)
Lemma pages_estimate rs :
  Forall valid_request rs → get_num_new_pages ps rs ≤ Zsum (extend_len <$> rs) / ps + length rs.
Proof.
  intros Hv. unfold get_num_new_pages.
  assert (Zsum (num_new_pages ps <$> rs) - length rs ≤ Zsum (extend_len <$> rs) / ps); [|lia].
  apply Z.div_le_lower_bound; [done|]. induction Hv as [|r rs [_ Hr] Hv IH]; [simpl; lia|].
  cbn [fmap list_fmap]. rewrite !Zsum_cons, length_cons. unfold num_new_pages at 1, extend_len at 1.
  pose proof (pages_of_bounds ps Hps (seq_len r)). pose proof (pages_of_bounds ps Hps (pre_len r)). nia.
Qed.

Lemma extend_pages free rs live :
  Forall valid_request rs → Forall (aligned ps) rs →
  (∀ r q, r ∈ rs → tail_page ps r = Some q → q ∈ live) →
  get_num_new_pages ps rs ≤ length free →
  live ∪ pages_in (batch_locs ps beyond free 0 rs) =
  live ∪ list_to_set (take (Z.to_nat (get_num_new_pages ps rs)) free).
Proof.
  intros Hv Ha Ht Hlen. set (n := get_num_new_pages ps rs) in *.
  assert (0 ≤ n) as Hn
    by (apply Zsum_nonneg, Forall_fmap; eapply Forall_impl; [exact Hv|apply (news_nonneg _ Hps)]).
  assert (∀ k, 0 ≤ k < n → take (Z.to_nat n) free !! Z.to_nat k = Some (load beyond free k)) as Hload.
  { intros k Hk. rewrite lookup_take_lt by lia. unfold load.
    destruct (lookup_lt_is_Some_2 free (Z.to_nat k)) as [x Hx]; [lia|]. by rewrite Hx. }
  apply set_eq. intros q. rewrite !elem_of_union. unfold pages_in.
  rewrite !elem_of_list_to_set, list_elem_of_fmap. split; (intros [H|H]; [by left|]).
  - destruct H as (v&->&Hv'). destruct (batch_locs_page ps beyond Hps free rs v 0 Hv Ha Hv') as [(r&Hr&Hq)|(k&Hk&->)].
    + left. by eapply Ht.
    + right. eapply list_elem_of_lookup_2, Hload. subst n. lia.
  - right. apply list_elem_of_lookup in H as [i Hi].
    assert (i < Z.to_nat n)%nat by (apply lookup_lt_Some in Hi; rewrite length_take in Hi; lia).
    specialize (Hload i). rewrite Nat2Z.id, Hi in Hload. injection (Hload ltac:(lia)) as ->.
    exists (load beyond free i * ps). split; [by rewrite Z.div_mul by lia|].
    apply (batch_locs_covers ps beyond Hps); [done|subst n; lia].
Qed.

(** What the scheduler promises of a batch of requests. *)
Record legal_batch live rs : Prop := {
  lb_valid : Forall valid_request rs;
  lb_aligned : Forall (aligned ps) rs;
  lb_tails : ∀ r q, r ∈ rs → tail_page ps r = Some q → q ∈ live;
}.

Lemma news_sum_nonneg rs : Forall valid_request rs → 0 ≤ get_num_new_pages ps rs.
Proof.
  intros Hv. apply Zsum_nonneg, Forall_fmap. eapply Forall_impl; [exact Hv|apply (news_nonneg _ Hps)].
Qed.

Lemma alloc_extend_granted rs p live :
  legal_batch live rs → paged_inv p live →
  ∃ o p' free, alloc_extend cfg uninit beyond rs (Zsum (extend_len <$> rs)) None p = (Ok o, p') ∧
    granted p live (get_num_new_pages ps rs) o p' ∧ (is_Some o → o = Some (batch_locs ps beyond free 0 rs)) ∧
    NoDup free ∧ (is_Some o → get_num_new_pages ps rs ≤ length free) ∧ ∀ q, q ∈ free → q ∉ live.
Proof.
  intros [Hv Ha Ht] Hinv.
  destruct (refill_inv (Zsum (extend_len <$> rs) / ps + length rs + 1) p live Hinv) as (p1&Hr&Hinv1&Hh&Hs).
  pose proof (pages_estimate rs Hv) as Hest. pose proof (news_sum_nonneg rs Hv) as Hpos.
  destruct (take_granted (get_num_new_pages ps rs) (Zsum (extend_len <$> rs) / ps + length rs + 1)
    (batch_locs ps beyond (free_pages p1) 0 rs) p p1 live) as (o&p'&Htk&Hg&Ho); try done; [lia|by apply extend_pages|].
  exists o, p', (free_pages p1). split; [|split; [done|split; [done|split; [|split]]]].
  - unfold alloc_extend. rewrite (bind_Ok _ _ _ _ _ (in_debug_skip _ p)).
    rewrite (bind_Ok get _ p p p eq_refl), (bind_Ok _ _ p tt p1 (refill_when _ _ _ Hr)), (bind_Ok get _ p1 p1 p1 eq_refl). cbv zeta.
    rewrite (bind_Ok _ _ _ _ _ (in_debug_skip _ p1)), extend_out by done. exact Htk.
  - pose proof (inv_nodup _ _ Hinv1) as Hnd. unfold held in Hnd. by apply NoDup_app in Hnd as (?&_&_).
  - intros Hsome. revert Htk. unfold take_pages, mbind, M_bind, get, mret, M_ret.
    destruct (Z.ltb_spec (length (free_pages p1)) (get_num_new_pages ps rs)); [|lia].
    intros [= <- _]. by destruct Hsome.
  - intros q Hq Hl. apply (inv_live _ _ Hinv1 q Hl). unfold held. set_solver.
Qed.

(** *** One token per request *)

Definition decode_batch (seqs lasts : list Z) : list Extend := zip_with decode_request seqs lasts.

Lemma decode_batch_lookup seqs lasts i r :
  decode_batch seqs lasts !! i = Some r → ∃ s l, r = decode_request s l ∧ s ∈ seqs.
Proof.
  intros (s&l&->&Hs&_)%lookup_zip_with_Some. exists s, l. split; [done|]. by eapply list_elem_of_lookup_2.
Qed.

Lemma decode_extend_len l : Forall (λ r, ∃ s x, r = decode_request s x) l → Zsum (extend_len <$> l) = length l.
Proof.
  induction 1 as [|r l (s&x&->) _ IH]; [done|]. cbn [fmap list_fmap].
  rewrite Zsum_cons, IH, length_cons. unfold extend_len. simpl. lia.
Qed.

Lemma decode_batch_shape seqs lasts : Forall (λ r, ∃ s x, r = decode_request s x) (decode_batch seqs lasts).
Proof. apply Forall_lookup. intros i r (s&l&->&_)%decode_batch_lookup. eauto. Qed.

Lemma launch_ext {A} (f g : nat → A → gmap Z Z → gmap Z Z) l :
  ∀ i m, (∀ k x m, l !! k = Some x → f (i + k)%nat x m = g (i + k)%nat x m) → launch f i l m = launch g i l m.
Proof.
  induction l as [|x l IH]; intros i m H; [done|]. simpl.
  specialize (H 0%nat x m eq_refl) as H0. rewrite Nat.add_0_r in H0. rewrite H0. apply IH.
  intros k y m' Hy. rewrite Nat.add_succ_comm. by apply H.
Qed.

(** The decode kernel is the extend kernel for one more token per request. *)
Lemma decode_kernel_extend free seqs lasts m :
  Forall (λ s, 1 ≤ s) seqs →
  alloc_decode_kernel ps beyond free seqs lasts m = alloc_extend_kernel ps beyond free (decode_batch seqs lasts) m.
Proof.
  intros Hseq. apply launch_ext. intros k r m' Hr. simpl.
  pose proof Hr as (s&l&->&Hs)%decode_batch_lookup.
  apply (decode_program_extend ps beyond Hps); [by rewrite Forall_forall in Hseq; apply Hseq|].
  rewrite decode_extend_len by apply Forall_take, decode_batch_shape.
  apply lookup_lt_Some in Hr. unfold decode_batch in *. rewrite length_take. lia.
Qed.

(** Counting the requests whose length is one past a page counts the new pages, for pages of
    at least two tokens. *)
Lemma decode_news s x : 2 ≤ ps → num_new_pages ps (decode_request s x) = if s mod ps =? 1 then 1 else 0.
Proof.
  intros H2. unfold num_new_pages. simpl.
  pose proof (pages_of_bounds ps Hps s) as B1. pose proof (pages_of_bounds ps Hps (s - 1)) as B2.
  pose proof (Z_div_mod_eq_full s ps) as Hd. pose proof (Z.mod_pos_bound s ps Hps) as Hm.
  pose proof (pages_of_mono ps Hps (s - 1) s ltac:(lia)) as Hmono.
  destruct (Z.eqb_spec (s mod ps) 1) as [E|E].
  - rewrite E in Hd. assert (pages_of ps (s - 1) = s / ps) by nia. nia.
  - assert (¬ pages_of ps (s - 1) < pages_of ps s); [|lia]. intros Hlt. apply E.
    assert (s - 1 = pages_of ps (s - 1) * ps) as E1 by nia.
    replace s with (1 + pages_of ps (s - 1) * ps) by lia. rewrite Z.mod_add, Z.mod_small by lia. done.
Qed.

Lemma decode_count seqs lasts :
  2 ≤ ps → length seqs = length lasts →
  get_num_new_pages_decode ps seqs = get_num_new_pages ps (decode_batch seqs lasts).
Proof.
  intros H2. unfold get_num_new_pages_decode, get_num_new_pages, decode_batch.
  revert lasts. induction seqs as [|s seqs IH]; intros [|x lasts] Hlen; try done.
  cbn [fmap list_fmap zip_with]. rewrite !Zsum_cons, decode_news by done. by rewrite (IH lasts) by (simpl in Hlen; lia).
Qed.

Lemma decode_batch_valid seqs lasts : Forall (λ s, 1 ≤ s) seqs → Forall valid_request (decode_batch seqs lasts).
Proof.
  intros H. apply Forall_lookup. intros i r (s&x&->&Hs)%decode_batch_lookup.
  rewrite Forall_forall in H. specialize (H s Hs). unfold valid_request. simpl. lia.
Qed.

Lemma alloc_decode_granted seqs lasts p live :
  2 ≤ ps → Forall (λ s, 1 ≤ s) seqs → length seqs = length lasts →
  legal_batch live (decode_batch seqs lasts) → paged_inv p live →
  ∃ o p', alloc_decode cfg uninit beyond seqs lasts p = (Ok o, p') ∧
    granted p live (get_num_new_pages_decode ps seqs) o p'.
Proof.
  intros H2 Hseq Hlen [Hv Ha Ht] Hinv. set (rs := decode_batch seqs lasts) in *.
  destruct (refill_inv (length seqs) p live Hinv) as (p1&Hr&Hinv1&Hh&Hs).
  assert (Zsum (extend_len <$> rs) = length seqs) as Hext.
  { rewrite decode_extend_len by apply decode_batch_shape. unfold rs, decode_batch. rewrite length_zip_with. lia. }
  pose proof (news_sum_nonneg rs Hv) as Hpos. rewrite (decode_count seqs lasts) by done. fold rs.
  assert (get_num_new_pages ps rs ≤ length seqs) as Hle.
  { unfold rs. rewrite <- decode_count by done. unfold get_num_new_pages_decode. clear.
    induction seqs as [|s seqs IH]; [done|]. cbn [fmap list_fmap]. rewrite Zsum_cons, length_cons.
    destruct (_ =? _); lia. }
  destruct (take_granted (get_num_new_pages ps rs) (length seqs) (batch_locs ps beyond (free_pages p1) 0 rs) p p1 live)
    as (o&p'&Htk&Hg&_); try done; [by apply extend_pages|].
  exists o, p'. split; [|done].
  unfold alloc_decode. rewrite (bind_Ok _ _ _ _ _ (in_debug_skip _ p)).
  rewrite (bind_Ok get _ p p p eq_refl), (bind_Ok _ _ p tt p1 (refill_when _ _ _ Hr)), (bind_Ok get _ p1 p1 p1 eq_refl).
  cbv zeta. rewrite (bind_Ok _ _ _ _ _ (in_debug_skip _ p1)), decode_kernel_extend, <- Hext by done. fold rs.
  rewrite extend_out, (decode_count seqs lasts) by done. exact Htk.
Qed.

(** ** Giving back *)

Lemma pages_in_app (l1 l2 : list Z) : pages_in (l1 ++ l2) = pages_in l1 ∪ pages_in l2.
Proof. unfold pages_in. by rewrite fmap_app, list_to_set_app_L. Qed.

Lemma unique_pages idx :
  NoDup (unique ((λ i, i / ps) <$> idx)) ∧ list_to_set (unique ((λ i, i / ps) <$> idx)) = pages_in idx.
Proof.
  unfold unique, sorted. pose proof (merge_sort_Permutation Z.le (remove_dups ((λ i, i / ps) <$> idx))) as Hp. split.
  - rewrite Hp. apply NoDup_remove_dups.
  - rewrite Hp. unfold pages_in. apply set_eq. intros q. rewrite !elem_of_list_to_set. apply elem_of_remove_dups.
Qed.

Lemma paged_free_inv idx p live :
  pages_in idx ⊆ live ∪ pending p → paged_inv p live →
  ∃ p', paged_free cfg idx p = (Ok tt, p') ∧ paged_inv p' (live ∖ pages_in idx) ∧
    is_not_in_free_group p' = is_not_in_free_group p.
Proof.
  intros Hidx Hinv. unfold paged_free. case_bool_decide as Hnil.
  { subst idx. exists p. split; [done|]. unfold pages_in. simpl. by rewrite difference_empty_L. }
  rewrite (bind_Ok get _ p p p eq_refl). destruct Hinv as [H1 H2 H3 H4 H5].
  destruct (unique_pages idx) as [Hnd Hu]. unfold pending in *.
  destruct (give_back _ _ _ _ _ Hidx H3 H4 H2) as (G1&G2&G3&G4).
  destruct (is_not_in_free_group p) eqn:Eg.
  - assert (∀ p', held p' ≡ₚ unique ((λ i, i / ps) <$> idx) ++ held p → is_not_in_free_group p' = true →
      (need_sort cfg = false → release_pages p' = []) → paged_inv p' (live ∖ pages_in idx)) as Hstep.
    { intros p' Hh Hg' Hr'. assert (list_to_set (held p') = list_to_set (held p) ∪ (∅ ∪ pages_in idx)) as E
        by (rewrite Hh, list_to_set_app_L, Hu, union_empty_l_L; apply (comm_L _)).
      split; unfold pending; rewrite ?Hg', ?E, ?union_empty_r_L; try done.
      rewrite Hh. apply NoDup_app. split; [done|]. split; [|done].
      intros q Hq Hf. apply (elem_of_list_to_set (C:=gset Z)) in Hq, Hf. rewrite Hu in Hq.
      by apply (G4 eq_refl q). }
    destruct (need_sort cfg) eqn:Es; cbn zeta; (eexists; split;
      [unfold mbind, M_bind, modify; apply in_debug_skip|]); (split; [|by simpl]); apply Hstep; try done;
      unfold held; simpl; solve_Permutation.
  - eexists. split; [unfold mbind, M_bind, modify; apply in_debug_skip|]. split; [|by simpl].
    assert (pages_in (concat (free_group p ++ [idx])) = pages_in (concat (free_group p)) ∪ pages_in idx) as E
      by (rewrite concat_app, pages_in_app; simpl; by rewrite app_nil_r).
    split; unfold pending, held in *; simpl; rewrite ?E; done.
Qed.

(** ** Groups of frees *)

Lemma group_begin_inv p live :
  is_not_in_free_group p = true → paged_inv p live →
  ∃ p', free_group_begin p = (Ok tt, p') ∧ paged_inv p' live ∧ is_not_in_free_group p' = false.
Proof.
  intros Hg Hinv. eexists. split; [done|]. split; [|done]. apply (pool_inv_perm p); try done.
  unfold pending. simpl. by rewrite Hg.
Qed.

Lemma group_end_inv p live :
  is_not_in_free_group p = false → paged_inv p live →
  ∃ p', paged_free_group_end cfg p = (Ok tt, p') ∧ paged_inv p' live ∧ is_not_in_free_group p' = true.
Proof.
  intros Hg [H1 H2 H3 H4 H5]. set (p1 := set_group true (free_group p) p).
  assert (pending p = pages_in (concat (free_group p))) as Hp by (unfold pending; by rewrite Hg).
  assert (paged_inv p1 (live ∪ pending p)) as Hinv1.
  { assert (pending p1 = ∅) as E by done. split; rewrite ?E; [done| | |apply disjoint_empty_l|done].
    - rewrite <- H2. change (held p1) with (held p). clear. set_solver.
    - change (held p1) with (held p). clear - H3 H4. set_solver. }
  destruct (paged_free_inv (concat (free_group p)) p1 (live ∪ pending p)) as (p'&Hf&Hinv'&Hg'); [|done|].
  { rewrite <- Hp. clear. set_solver. }
  assert ((live ∪ pending p) ∖ pages_in (concat (free_group p)) = live) as Hlive
    by (rewrite <- Hp; clear - H3; set_solver).
  rewrite Hlive in Hinv'. unfold paged_free_group_end.
  rewrite (bind_Ok get _ p p p eq_refl). unfold mbind, M_bind, modify, when. fold p1.
  case_bool_decide as Hnil; simpl; [|by exists p'].
  exists p1. split; [done|]. split; [|done].
  rewrite Hnil in Hf. unfold paged_free in Hf. simpl in Hf. by injection Hf as ->.
Qed.
End Pool.

(** ** Single tokens and rows

    The allocator of single tokens keeps its indices apart like the allocator of pages, but
    takes what it is given as it is; the pool of rows gives every request of a batch a row
    of its own. *)

Section Tokens.
Context (cfg : PoolConfig).
Implicit Types (p : Pool) (live : gset Z) (idx : list Z).

(** Everything that is not live: the free list and what waits in the open group. *)
Definition stock p : list Z :=
  held p ++ (if is_not_in_free_group p then [] else concat (free_group p)).

Record token_inv p live : Prop := mk_token_inv {
  tok_nodup : NoDup (stock p);
  tok_all : list_to_set (stock p) ∪ live = list_to_set (seqZ 1 (pool_size cfg));
  tok_live : live ## list_to_set (stock p);
  tok_release : need_sort cfg = false → release_pages p = [];
}.

Lemma token_init_inv : token_inv (init_token_pool cfg) ∅.
Proof.
  split; unfold stock, held; simpl; rewrite ?app_nil_r; [apply NoDup_seqZ|set_solver|set_solver|done].
Qed.

Lemma token_perm p p' live :
  stock p' ≡ₚ stock p → (need_sort cfg = false → release_pages p' = []) → token_inv p live → token_inv p' live.
Proof.
  intros Hs Hr [H1 H2 H3 H4]. assert (list_to_set (stock p') = (list_to_set (stock p) : gset Z)) as E by (by rewrite Hs).
  split; rewrite ?E; try done. by rewrite Hs.
Qed.

(** Moving indices between the stock and the live ones. *)
Lemma token_take p p' live idx :
  stock p ≡ₚ idx ++ stock p' → (need_sort cfg = false → release_pages p' = []) → token_inv p live →
  NoDup idx ∧ live ## list_to_set idx ∧ token_inv p' (live ∪ list_to_set idx).
Proof.
  intros Hs Hr [H1 H2 H3 H4]. rewrite Hs in H1. apply NoDup_app in H1 as (N1&N2&N3).
  assert (list_to_set (stock p) = list_to_set idx ∪ (list_to_set (stock p') : gset Z)) as E
    by (by rewrite Hs, list_to_set_app_L).
  rewrite E in H2, H3. split; [done|]. split; [set_solver|].
  assert (list_to_set idx ## (list_to_set (stock p') : gset Z)) as Hd
    by (intros q; rewrite !elem_of_list_to_set; apply N2).
  split; try done; clear - H2 H3 Hd; set_solver.
Qed.

Lemma token_give p p' live idx :
  stock p' ≡ₚ idx ++ stock p → (need_sort cfg = false → release_pages p' = []) →
  NoDup idx → list_to_set idx ⊆ live → token_inv p live → token_inv p' (live ∖ list_to_set idx).
Proof.
  intros Hs Hr Hnd Hsub [H1 H2 H3 H4].
  assert (list_to_set (stock p') = list_to_set idx ∪ (list_to_set (stock p) : gset Z)) as E
    by (by rewrite Hs, list_to_set_app_L).
  split; rewrite ?E; try done.
  - rewrite Hs. apply NoDup_app. split; [done|]. split; [|done].
    intros q Hq Hf. apply (elem_of_list_to_set (C:=gset Z)) in Hq, Hf. clear - Hq Hf Hsub H3. set_solver.
  - rewrite <- H2. apply set_eq. intros q. destruct (decide (q ∈ (list_to_set idx : gset Z))) as [D|D]; clear - Hsub D; set_solver.
  - clear - H3. set_solver.
Qed.

(** An allocation of tokens returns as many as were asked for, all different and none of them
    live, or nothing, when the pool has fewer. *)
Lemma token_alloc_ok n p live :
  0 ≤ n → token_inv p live →
  ∃ out p', token_alloc cfg n p = (Ok out, p') ∧
    match out with
    | Some idx => Z.of_nat (length idx) = n ∧ NoDup idx ∧ live ## list_to_set idx ∧ token_inv p' (live ∪ list_to_set idx) ∧
        n ≤ length (held p)
    | None => token_inv p' live ∧ length (held p) < n
    end.
Proof.
  intros Hn Hinv. unfold token_alloc. rewrite (bind_Ok get _ p p p eq_refl).
  assert (∃ p1, when (need_sort cfg && (length (free_pages p) <? n)) merge_and_sort_free p = (Ok tt, p1) ∧
    stock p1 ≡ₚ stock p ∧ token_inv p1 live ∧ length (held p1) = length (held p) ∧
    (n ≤ length (free_pages p1) ∨ release_pages p1 = [])) as (p1&Hw&Hst&Hinv1&Hlen&Hs).
  { destruct (need_sort cfg) eqn:Es; simpl.
    2: { exists p. pose proof (tok_release _ _ Hinv Es). split_and!; try done. by right. }
    destruct (Z.ltb_spec (length (free_pages p)) n) as [Hlt|Hge]; simpl.
    - unfold merge_and_sort_free, modify. eexists. split; [done|]. case_bool_decide as Hr; [split_and!; auto|].
      set (p1 := set_release_pages _ _).
      assert (held p1 ≡ₚ held p) as Hh by (unfold held, p1, sorted; simpl; rewrite app_nil_r; apply merge_sort_Permutation).
      assert (stock p1 ≡ₚ stock p) as Hst by (unfold stock; by rewrite Hh).
      split_and!; [done| |by rewrite Hh|by right]. apply (token_perm p); [done|congruence|done].
    - exists p. split_and!; try done. by left. }
  rewrite (bind_Ok _ _ p tt p1 Hw), (bind_Ok get _ p1 p1 p1 eq_refl).
  destruct (Z.ltb_spec (length (free_pages p1)) n) as [Hlt|Hge].
  - exists None, p1. split; [done|]. split; [done|]. destruct Hs as [?|Hr]; [lia|].
    rewrite <- Hlen. unfold held. rewrite Hr, app_nil_r. lia.
  - eexists (Some _), _. split; [done|]. split; [rewrite length_take; lia|].
    destruct (token_take p1 (set_free_pages (drop (Z.to_nat n)) p1) live (take (Z.to_nat n) (free_pages p1)))
      as (?&?&?); [|by apply Hinv1|done|].
    { unfold stock, held. simpl. by rewrite !app_assoc, take_drop. }
    split_and!; try done. rewrite <- Hlen. unfold held. rewrite length_app. lia.
Qed.

(** Live tokens that are given back leave the live ones, at once or in the open group. *)
Lemma token_free_ok idx p live :
  NoDup idx → list_to_set idx ⊆ live → token_inv p live →
  ∃ p', token_free cfg idx p = (Ok tt, p') ∧ token_inv p' (live ∖ list_to_set idx) ∧
    is_not_in_free_group p' = is_not_in_free_group p.
Proof.
  intros Hnd Hsub Hinv. unfold token_free. case_bool_decide as Hnil.
  { subst idx. exists p. split; [done|]. simpl. by rewrite difference_empty_L. }
  rewrite (bind_Ok get _ p p p eq_refl). destruct (is_not_in_free_group p) eqn:Eg.
  - destruct (need_sort cfg) eqn:Es; (eexists; split; [done|]); (split; [|done]); apply (token_give p); try done;
      unfold stock, held; simpl; rewrite ?Eg; try solve_Permutation; intros; first [congruence|by apply (tok_release _ _ Hinv)].
  - eexists. split; [done|]. split; [|by simpl]. apply (token_give p); try done; [|by apply Hinv].
    unfold stock, held. simpl. rewrite Eg, concat_app. simpl. solve_Permutation.
Qed.

Lemma token_group_begin_ok p live :
  is_not_in_free_group p = true → token_inv p live →
  ∃ p', free_group_begin p = (Ok tt, p') ∧ token_inv p' live.
Proof.
  intros Hg Hinv. eexists. split; [done|]. apply (token_perm p); [|by apply Hinv|done].
  unfold stock. simpl. by rewrite Hg.
Qed.

(** Closing the group puts what waited in it into the free list. *)
Lemma token_group_end_ok p live :
  is_not_in_free_group p = false → token_inv p live →
  ∃ p', token_free_group_end cfg p = (Ok tt, p') ∧ token_inv p' live ∧ is_not_in_free_group p' = true.
Proof.
  intros Hg Hinv. unfold token_free_group_end. rewrite (bind_Ok get _ p p p eq_refl).
  unfold mbind, M_bind, modify, when. set (p1 := set_group true (free_group p) p).
  assert (∀ p', held p' ≡ₚ concat (free_group p) ++ held p → is_not_in_free_group p' = true →
    (need_sort cfg = false → release_pages p' = []) → token_inv p' live) as Hstep.
  { intros p' Hh Hg' Hr. apply (token_perm p); try done. unfold stock. rewrite Hg, Hg', Hh. solve_Permutation. }
  case_bool_decide as Hnil; simpl.
  { exists p1. split; [done|]. split; [|done]. apply Hstep; [by rewrite Hnil|done|by apply Hinv]. }
  unfold token_free. case_bool_decide as Hc.
  { exists p1. split; [done|]. split; [|done]. apply Hstep; [by rewrite Hc|done|by apply Hinv]. }
  simpl. destruct (need_sort cfg) eqn:Es; (eexists; split; [done|]); (split; [|done]); apply Hstep; try done;
    unfold held; simpl; try solve_Permutation; intros; first [congruence|by apply (tok_release _ _ Hinv)].
Qed.

(** Going back to a state of the free lists that was set aside, in no group, makes the indices
    handed out since then free again. *)
Lemma restore_backup p p' live :
  is_not_in_free_group p = true → is_not_in_free_group p' = true → token_inv p live →
  ∃ p2, restore_state (backup_state p) p' = (Ok tt, p2) ∧ token_inv p2 live.
Proof.
  intros Hg Hg' Hinv. eexists. split; [done|]. apply (token_perm p); [|by apply Hinv|done].
  unfold stock, held. simpl. by rewrite Hg, Hg'.
Qed.
End Tokens.

(** ** Rows *)

Lemma give_slots_rows reqs : ∀ sel,
  length sel = length (filter (λ r, slot_of r = None) reqs) →
  omap slot_of (give_slots reqs sel) ≡ₚ sel ++ omap slot_of reqs ∧
  Forall (λ r, is_Some (slot_of r)) (give_slots reqs sel) ∧
  Forall2 (λ r r', is_Some (slot_of r) → r' = r) reqs (give_slots reqs sel).
Proof.
  induction reqs as [|r reqs IH]; intros sel Hlen.
  { simpl in Hlen. rewrite (nil_length_inv sel) by done. split_and!; [done|constructor..]. }
  rewrite filter_cons in Hlen. simpl. destruct (slot_of r) as [x|] eqn:Er.
  - rewrite decide_False in Hlen by done. destruct (IH sel Hlen) as (H1&H2&H3).
    split_and!; [|by constructor; [rewrite Er|]|by constructor]. simpl. rewrite Er. cbn. rewrite H1. solve_Permutation.
  - rewrite decide_True in Hlen by done. destruct sel as [|x sel]; [done|]. simpl in Hlen.
    destruct (IH sel ltac:(lia)) as (H1&H2&H3).
    split_and!; [|by constructor; [|]|constructor; [by rewrite Er; intros []|done]]. cbn. by rewrite H1.
Qed.

(** The rows of a batch: every request has one, requests that had one keep it, and the rows
    handed out are exactly those that left the free list; with too few free rows nothing
    changes. *)
Theorem slots_alloc_rows reqs p :
  Forall (λ r, is_Some (slot_of r) → 0 < inflight_middle_chunks r ∨ 0 < slot_kv_committed_len r) reqs →
  ∃ out p', slots_alloc reqs p = (Ok out, p') ∧
    match out with
    | Some reqs' => Forall (λ r, is_Some (slot_of r)) reqs' ∧
        Forall2 (λ r r', is_Some (slot_of r) → r' = r) reqs reqs' ∧
        free_slots p' ++ omap slot_of reqs' ≡ₚ free_slots p ++ omap slot_of reqs
    | None => p' = p ∧ (length (free_slots p) < length (filter (λ r, slot_of r = None) reqs))%nat
    end.
Proof.
  intros Hc. unfold slots_alloc. set (reusing := filter (λ r, is_Some (slot_of r)) reqs).
  assert (forallb (λ r, (0 <? inflight_middle_chunks r) || (0 <? slot_kv_committed_len r)) reusing = true) as Hf.
  { apply forallb_forall. intros r Hr%list_elem_of_In. subst reusing. apply list_elem_of_filter in Hr as [Hs Hr].
    rewrite Forall_forall in Hc. apply orb_true_iff. rewrite !Z.ltb_lt. by apply Hc. }
  rewrite Hf. simpl. rewrite (bind_Ok get _ p p p eq_refl).
  assert (length reqs - length reusing = length (filter (λ r, slot_of r = None) reqs))%nat as Hneed.
  { subst reusing. clear. induction reqs as [|r reqs IH]; [done|]. rewrite !filter_cons.
    pose proof (length_filter (λ r, is_Some (slot_of r)) reqs).
    destruct (slot_of r) eqn:Er; repeat case_decide; try done; simpl; try lia; by destruct H0. }
  rewrite Hneed. destruct (Nat.ltb_spec (length (free_slots p)) (length (filter (λ r, slot_of r = None) reqs))) as [Hlt|Hge].
  - by exists None, p.
  - eexists (Some _), _. split; [done|].
    destruct (give_slots_rows reqs (take (length (filter (λ r, slot_of r = None) reqs)) (free_slots p))) as (H1&H2&H3);
      [rewrite length_take; lia|].
    split_and!; [done|done|]. simpl. rewrite H1, app_assoc, (Permutation_app_comm (drop _ _)), take_drop. done.
Qed.

(** A row given back is free again. *)
Theorem slots_free_row r s p :
  slot_of r = Some s →
  ∃ r' p', slots_free r p = (Ok r', p') ∧ slot_of r' = None ∧ free_slots p' = free_slots p ++ [s].
Proof. intros Hr. unfold slots_free. rewrite Hr. by eexists _, _. Qed.

(** ** Properties of the pools of KV indices

    The kernel and the loop place the new tokens of a batch alike, no two tokens get the same
    place; whatever a scheduler does with the pool, no page is lost, and no page that is in
    use is given out again. *)

(** ** The pool under any sequence of operations *)

Section History.
Context (cfg : PoolConfig) (uninit beyond : Z → Z).
Local Abbreviation ps := (pool_page_size cfg).
Implicit Types (p : Pool) (live : gset Z) (idx : list Z).

(** What a scheduler may do: allocate pages, extend a batch whose old pages are live, free
    pages that are live (or wait in the open group), open and close a group of frees. The
    pages of the answer become live. *)
Inductive pool_step : Pool * gset Z → Pool * gset Z → Prop :=
| step_alloc n p p' live out :
    0 ≤ n → paged_alloc cfg n p = (Ok out, p') →
    pool_step (p, live) (p', live ∪ pages_in cfg (default [] out))
| step_extend rs p p' live out :
    legal_batch cfg live rs →
    alloc_extend cfg uninit beyond rs (Zsum (extend_len <$> rs)) None p = (Ok out, p') →
    pool_step (p, live) (p', live ∪ pages_in cfg (default [] out))
| step_decode seqs lasts p p' live out :
    2 ≤ ps → Forall (λ s, 1 ≤ s) seqs → length seqs = length lasts →
    legal_batch cfg live (decode_batch seqs lasts) →
    alloc_decode cfg uninit beyond seqs lasts p = (Ok out, p') →
    pool_step (p, live) (p', live ∪ pages_in cfg (default [] out))
| step_free idx p p' live :
    pages_in cfg idx ⊆ live ∪ pending cfg p → paged_free cfg idx p = (Ok tt, p') →
    pool_step (p, live) (p', live ∖ pages_in cfg idx)
| step_begin p p' live :
    is_not_in_free_group p = true → free_group_begin p = (Ok tt, p') → pool_step (p, live) (p', live)
| step_end p p' live :
    is_not_in_free_group p = false → paged_free_group_end cfg p = (Ok tt, p') → pool_step (p, live) (p', live).

Lemma granted_inv p live need out p' :
  granted cfg p live need out p' → paged_inv cfg p' (live ∪ pages_in cfg (default [] out)).
Proof.
  destruct out as [idx|]; simpl.
  - intros (new&_&_&_&_&H&_). exact H.
  - intros [H _]. unfold pages_in. simpl. by rewrite union_empty_r_L.
Qed.

Lemma pool_step_inv s s' :
  0 < ps → debug_mode cfg = false → pool_step s s' → paged_inv cfg s.1 s.2 → paged_inv cfg s'.1 s'.2.
Proof.
  intros Hps Hd Hs Hinv. destruct Hs as [n p p' live out Hn H|rs p p' live out Hl H|
    seqs lasts p p' live out H2 Hq Hlen Hl H|idx p p' live Hidx H|p p' live Hg H|p p' live Hg H]; simpl in *.
  - destruct (paged_alloc_granted cfg Hps Hd n p live Hn Hinv) as (o&p1&E&Hgr&_).
    rewrite E in H. simplify_eq. by eapply granted_inv.
  - destruct (alloc_extend_granted cfg uninit beyond Hps Hd rs p live Hl Hinv) as (o&p1&f&E&Hgr&_).
    rewrite E in H. simplify_eq. by eapply granted_inv.
  - destruct (alloc_decode_granted cfg uninit beyond Hps Hd seqs lasts p live H2 Hq Hlen Hl Hinv) as (o&p1&E&Hgr).
    rewrite E in H. simplify_eq. by eapply granted_inv.
  - destruct (paged_free_inv cfg Hd idx p live Hidx Hinv) as (p1&E&?&_). rewrite E in H. by simplify_eq.
  - destruct (group_begin_inv cfg p live Hg Hinv) as (p1&E&?&_). rewrite E in H. by simplify_eq.
  - destruct (group_end_inv cfg Hd p live Hg Hinv) as (p1&E&?&_). rewrite E in H. by simplify_eq.
Qed.

Lemma pool_reach_inv s s' :
  0 < ps → debug_mode cfg = false → rtc pool_step s s' → paged_inv cfg s.1 s.2 → paged_inv cfg s'.1 s'.2.
Proof. intros Hps Hd. induction 1; [done|]. intros. by eapply IHrtc, pool_step_inv. Qed.

Lemma size_all_pages : 0 ≤ num_pages cfg → Z.of_nat (size (all_pages cfg)) = num_pages cfg.
Proof. intros. unfold all_pages. rewrite size_list_to_set by apply NoDup_seqZ. rewrite length_seqZ. lia. Qed.

(** The free size is what is neither live nor waiting. *)
Lemma available_exact p live :
  0 ≤ num_pages cfg → paged_inv cfg p live →
  available_size cfg p = (num_pages cfg - size live - size (pending cfg p)) * ps.
Proof.
  intros Hn [H1 H2 H3 H4 _]. unfold available_size. rewrite <- size_all_pages, <- H2 by done.
  rewrite !size_union by (clear - H3 H4; set_solver). rewrite size_list_to_set by done.
  unfold held. rewrite length_app. nia.
Qed.
End History.

(** Two requests with pages of four tokens: one fills its old page and a half new one, the
    other takes two pages. *)
Definition demo_pool : PoolConfig := mk_pool_config 20 4 true false.
Definition demo_batch : list Extend := [mk_extend 2 6 5; mk_extend 4 11 11].

(** ** Placement *)

(** C20 - For every batch of requests whose new tokens fit in the free pages, the kernel and the
    loop without kernels write the same indices: each request's tokens first fill the page
    it already has, behind its last token, and then the free pages in order, each token at
    its position in the page. One token per request is the same as the decode kernel. When
    the free pages are distinct and every request fills an old page of its own, no index
    occurs twice. *)
Theorem placement_exact page_size beyond uninit free rs m :
  0 < page_size → Forall valid_request rs → get_num_new_pages page_size rs ≤ length free →
  alloc_extend_naive page_size free rs m = Ok (alloc_extend_kernel page_size beyond free rs m) ∧
  read uninit (alloc_extend_kernel page_size beyond free rs ∅) (Zsum (extend_len <$> rs)) =
    batch_locs page_size beyond free 0 rs ∧
  (∀ seqs lasts, rs = decode_batch seqs lasts → Forall (λ s, 1 ≤ s) seqs →
     alloc_decode_kernel page_size beyond free seqs lasts m = alloc_extend_kernel page_size beyond free rs m) ∧
  (apart page_size free rs → NoDup (batch_locs page_size beyond free 0 rs)).
Proof.
  intros Hps Hv Hlen. split_and!.
  - by apply (naive_loop_write page_size beyond Hps free rs rs 0).
  - by apply (extend_out (mk_pool_config 0 page_size false false)).
  - intros seqs lasts -> Hs. by apply (decode_kernel_extend (mk_pool_config 0 page_size false false)).
  - intros Ha. by apply NoDup_batch_locs.
Qed.

Lemma placement_exact_witness :
  alloc_extend_naive 4 [7; 9; 8] demo_batch ∅ = Ok (alloc_extend_kernel 4 (λ _, 0) [7; 9; 8] demo_batch ∅) ∧
  read (λ _, 0) (alloc_extend_kernel 4 (λ _, 0) [7; 9; 8] demo_batch ∅) (Zsum (extend_len <$> demo_batch)) =
    [6; 7; 28; 29; 36; 37; 38; 39; 32; 33; 34].
Proof.
  destruct (placement_exact 4 (λ _, 0) (λ _, 0) [7; 9; 8] demo_batch ∅) as (H1 & H2 & _).
  - reflexivity.
  - repeat constructor; simpl; lia.
  - vm_compute. discriminate.
  - split; [exact H1|]. rewrite H2. reflexivity.
Defined.

(** ** Conservation *)

(** C21 - Whatever a scheduler does with a pool of pages that starts full (allocations, extended
    batches, decode steps, frees, groups of frees): every page is free, set aside, waiting in the
    open group or live, and in one of these only; the reported size is exact. An allocation
    then always returns: it gives the pages asked for, distinct and none of them live, or
    nothing, when fewer are left; and so does the extension of a batch, which gives no index
    twice. *)
Theorem pool_history cfg uninit beyond p live :
  0 < pool_page_size cfg → 0 ≤ pool_size cfg → debug_mode cfg = false →
  rtc (pool_step cfg uninit beyond) (init_paged_pool cfg, ∅) (p, live) →
  paged_inv cfg p live ∧
  available_size cfg p = (num_pages cfg - size live - size (pending cfg p)) * pool_page_size cfg ∧
  (∀ n, 0 ≤ n → ∃ out p', paged_alloc cfg n p = (Ok out, p') ∧ granted cfg p live (n / pool_page_size cfg) out p' ∧
     ∀ idx, out = Some idx → NoDup idx ∧ Z.of_nat (length idx) = n / pool_page_size cfg * pool_page_size cfg) ∧
  (∀ rs, legal_batch cfg live rs →
     ∃ out p', alloc_extend cfg uninit beyond rs (Zsum (extend_len <$> rs)) None p = (Ok out, p') ∧
       granted cfg p live (get_num_new_pages (pool_page_size cfg) rs) out p' ∧
       ∀ idx, out = Some idx → Z.of_nat (length idx) = Zsum (extend_len <$> rs) ∧
         (NoDup (omap (tail_page (pool_page_size cfg)) rs) → NoDup idx)).
Proof.
  intros Hps Hsz Hd Hr. pose proof (pool_reach_inv cfg uninit beyond _ _ Hps Hd Hr (pool_init_inv cfg)) as Hinv. simpl in Hinv.
  split_and!; [done| | |].
  - apply available_exact; [|done]. apply Z.div_pos; lia.
  - intros n Hn. by apply paged_alloc_granted.
  - intros rs Hl.
    destruct (alloc_extend_granted cfg uninit beyond Hps Hd rs p live Hl Hinv) as (o&p'&free&E&Hg&Ho&Hnd&Hle&Hdis).
    exists o, p'. split; [done|]. split; [done|]. intros idx ->. injection (Ho ltac:(by eexists)) as ->.
    destruct Hl as [Hv Ha Ht]. split; [by apply length_batch_locs|].
    intros Htails. apply (NoDup_batch_locs _ _ Hps); [|lia|apply Hle; by eexists].
    split; try done. intros q (r&Hr'&Hq)%list_elem_of_omap Hf. apply (Hdis q Hf). by apply (Ht r).
Qed.

Lemma demo_pool_reach :
  rtc (pool_step demo_pool (λ _, 0) (λ _, 0)) (init_paged_pool demo_pool, ∅)
    (mk_pool [3; 4; 5] [1] true [], {[2]}).
Proof.
  eapply rtc_l; [apply (step_alloc _ _ _ 8 _ (mk_pool [3; 4; 5] [] true []) _ (Some [4; 5; 6; 7; 8; 9; 10; 11])); [lia|by vm_compute]|].
  eapply rtc_l; [apply (step_free _ _ _ [4; 5; 6; 7] _ (mk_pool [3; 4; 5] [1] true [])); [by apply (bool_decide_unpack _)|by vm_compute]|].
  match goal with |- rtc _ (?p, ?l) (?p', ?l') => replace (p, l) with (p', l'); [apply rtc_refl|] end.
  by f_equal.
Qed.

Lemma pool_history_witness :
  paged_inv demo_pool (mk_pool [3; 4; 5] [1] true []) {[2]} ∧
  available_size demo_pool (mk_pool [3; 4; 5] [1] true []) = 16.
Proof.
  destruct (pool_history demo_pool (λ _, 0) (λ _, 0) (mk_pool [3; 4; 5] [1] true []) {[2]}) as (H1 & H2 & _).
  - reflexivity.
  - done.
  - reflexivity.
  - exact demo_pool_reach.
  - split; [exact H1|]. rewrite H2. reflexivity.
Defined.
