(* ===== verification/KvAlloc.v ===== *)
(** * Allocation for a batch

    Models the allocation of [srt/mem_cache/common.py]: making room by evicting from the
    radix cache, taking tokens or pages from the pool, rows from the pool of rows, and
    writing the indices of a batch into the table of token locations, by a kernel or by a
    loop. [TokenToKVPoolAllocator] serves pages of one token, [PagedTokenToKVPoolAllocator]
    all others, as [model_runner_kv_cache_mixin.py] builds them. The table is addressed as
    the kernels address it, by row times row length plus position. Sliding-window and hybrid
    pools are not modelled. *)

From S2P Require Import Prelude RadixKey RadixCache KvPool.
Local Open Scope Z_scope.

Record KvConfig := mk_kv_config {
  cache_cfg : CacheConfig;
  pool_cfg : PoolConfig;
  is_chunk_cache : bool;
  max_context_len : Z;
  supports_triton : bool;
}.

Record Kv := mk_kv {
  tree : Cache;
  pool : Pool;
  slots : SlotPool;
  req_to_token : gmap Z Z;
}.

Definition set_pool f (k : Kv) : Kv := mk_kv (tree k) (f (pool k)) (slots k) (req_to_token k).
Definition set_table f (k : Kv) : Kv := mk_kv (tree k) (pool k) (slots k) (f (req_to_token k)).

Definition on_pool {A} (m : M Pool A) : M Kv A :=
  λ k, let '(r, p) := m (pool k) in (r, mk_kv (tree k) p (slots k) (req_to_token k)).
Definition on_slots {A} (m : M SlotPool A) : M Kv A :=
  λ k, let '(r, s) := m (slots k) in (r, mk_kv (tree k) (pool k) s (req_to_token k)).
Definition on_table (f : gmap Z Z → res (gmap Z Z)) : M Kv unit :=
  λ k, match f (req_to_token k) with
       | Ok t => (Ok tt, mk_kv (tree k) (pool k) (slots k) t)
       | Raise e => (Raise e, k)
       end.

Section Alloc.
Context (cfg : KvConfig) (uninit beyond : Z → Z).
Local Abbreviation ps := (pool_page_size (pool_cfg cfg)).
Local Abbreviation stride := (max_context_len cfg).
Local Abbreviation Mk := (M Kv).

(** The allocator for the page size. *)
Definition allocator_free (idx : list Z) : M Pool unit :=
  if ps =? 1 then token_free (pool_cfg cfg) idx else paged_free (pool_cfg cfg) idx.
Definition allocator_alloc (need_size : Z) : M Pool (option (list Z)) :=
  if ps =? 1 then token_alloc (pool_cfg cfg) need_size else paged_alloc (pool_cfg cfg) need_size.

(** An operation of the tree; the indices it frees go to the allocator, call by call. *)
Definition on_tree {A} (m : M Cache A) : Mk A :=
  λ k, let '(r, s) := m (tree k) in
       let calls := drop (length (free_calls (tree k))) (free_calls s) in
       match for_each calls allocator_free (pool k) with
       | (Ok _, p) => (r, mk_kv s p (slots k) (req_to_token k))
       | (Raise e, p) => (Raise e, mk_kv s p (slots k) (req_to_token k))
       end.

(** ** Making room *)

Definition evict_from_tree_cache (num_tokens : Z) : Mk unit :=
  if is_chunk_cache cfg then mret tt
  else
    available ← gets (λ k, available_size (pool_cfg cfg) (pool k));
    if available <? num_tokens then on_tree (evict (cache_cfg cfg) num_tokens) ≫= λ _, mret tt
    else mret tt.

(** The state of the allocator, where the caller asked for it. *)
Definition backup (wanted : bool) : Mk (option (list Z * list Z)) :=
  if wanted then p ← gets pool; mret (Some (backup_state p)) else mret None.

Definition or_out_of_memory (o : option (list Z)) : Mk (list Z) :=
  match o with Some out => mret out | None => raise RuntimeError end.

Definition alloc_token_slots (num_tokens : Z) (wanted : bool) : Mk (list Z * option (list Z * list Z)) :=
  evict_from_tree_cache num_tokens ≫= λ _,
  state ← backup wanted;
  o ← on_pool (allocator_alloc num_tokens);
  out ← or_out_of_memory o;
  mret (out, state).

Definition alloc_paged_token_slots_extend (rs : list Extend) (extend_num_tokens : Z) (wanted : bool) :
    Mk (list Z * option (list Z * list Z)) :=
  evict_from_tree_cache (extend_num_tokens + length rs * ps) ≫= λ _,
  state ← backup wanted;
  o ← on_pool (alloc_extend (pool_cfg cfg) uninit beyond rs extend_num_tokens None);
  out ← or_out_of_memory o;
  mret (out, state).

Definition alloc_paged_token_slots_decode (seqs lasts : list Z) : Mk (list Z) :=
  evict_from_tree_cache (length seqs * ps) ≫= λ _,
  o ← on_pool (alloc_decode (pool_cfg cfg) uninit beyond seqs lasts);
  or_out_of_memory o.

Definition alloc_req_slots (reqs : list SlotReq) : Mk (list SlotReq) :=
  o ← on_slots (slots_alloc reqs);
  match o with Some reqs => mret reqs | None => raise RuntimeError end.

(** ** Writing the table *)

(** What is written for one request: its row, the indices of its prefix, and its lengths. *)
Record RowWrite := mk_row_write {
  row : Z;
  prefix_tensor : list Z;
  row_seq_len : Z;
  row_extend_len : Z;
}.
Definition row_pre_len (w : RowWrite) : Z := length (prefix_tensor w).

Definition at_row (w : RowWrite) (j : Z) : Z := row w * stride + j.

(** *** [write_req_to_token_pool_triton] *)

Definition BLOCK_SIZE : Z := 512.
Definition cdiv (a b : Z) : Z := (a + b - 1) / b.

(** [n] values in blocks, each masked to them. *)
Definition copy_blocks (base n : Z) (value : Z → Z) (m : gmap Z Z) : gmap Z Z :=
  foldl (λ m i, masked_store (base + i * BLOCK_SIZE) BLOCK_SIZE (λ o, i * BLOCK_SIZE + o <? n)
                  (λ o, value (i * BLOCK_SIZE + o)) m) m (seqZ 0 (cdiv n BLOCK_SIZE)).

Definition write_program (out : list Z) (ws : list RowWrite) (pid : nat) (w : RowWrite) (m : gmap Z Z) : gmap Z Z :=
  let m := copy_blocks (at_row w 0) (row_pre_len w) (λ o, load beyond (prefix_tensor w) o) m in
  let cumsum_start := Zsum (row_extend_len <$> take pid ws) in
  copy_blocks (at_row w (row_pre_len w)) (row_seq_len w - row_pre_len w) (λ o, load beyond out (cumsum_start + o)) m.

Definition write_req_to_token_pool_triton (out : list Z) (ws : list RowWrite) (m : gmap Z Z) : gmap Z Z :=
  launch (write_program out ws) 0 ws m.

(** *** The loop *)

Fixpoint write_loop (out : list Z) (pt : Z) (ws : list RowWrite) (m : gmap Z Z) : res (gmap Z Z) :=
  match ws with
  | [] => Ok m
  | w :: ws =>
      m ← assign (at_row w 0) (row_pre_len w) (prefix_tensor w) m;
      m ← assign (at_row w (row_pre_len w)) (row_seq_len w - row_pre_len w)
            (drop (Z.to_nat pt) (take (Z.to_nat (pt + row_extend_len w)) out)) m;
      write_loop out (pt + row_extend_len w) ws m
  end.

Definition write_cache_indices (out : list Z) (ws : list RowWrite) : Mk unit :=
  on_table (λ m, if supports_triton cfg then Ok (write_req_to_token_pool_triton out ws m) else write_loop out 0 ws m).

(** *** The places of the last tokens *)

Definition get_last_loc_torch (table : gmap Z Z) (rows prefix_lens : list Z) : list Z :=
  zip_with (λ r n, if 0 <? n then default (beyond (r * stride + (n - 1))) (table !! (r * stride + (n - 1))) else -1)
    rows prefix_lens.

Definition LAST_LOC_BLOCK : Z := 256.

Definition last_loc_program (in_range : bool) (table : gmap Z Z) (rows prefix_lens : list Z) (pid : Z) (m : gmap Z Z) : gmap Z Z :=
  let offset o := o + pid * LAST_LOC_BLOCK in
  let mask o := offset o <? length prefix_lens in
  let prefix_len o := if mask o then load beyond prefix_lens (offset o) else 0 in
  let req_pool_index o := if mask o then load beyond rows (offset o) else 0 in
  let token_mask o := (negb in_range || mask o) && (0 <? prefix_len o) in
  let token_index o := req_pool_index o * stride + (prefix_len o - 1) in
  let token o := if token_mask o then default (beyond (token_index o)) (table !! token_index o) else -1 in
  masked_store (pid * LAST_LOC_BLOCK) LAST_LOC_BLOCK mask token m.

(** [get_last_loc_triton] and, with the mask of the range in the load, [get_last_loc_triton_safe]. *)
Definition get_last_loc_triton (in_range : bool) (table : gmap Z Z) (rows prefix_lens : list Z) : list Z :=
  let n := Z.of_nat (length prefix_lens) in
  let m := foldl (λ m pid, last_loc_program in_range table rows prefix_lens pid m) ∅ (seqZ 0 (cdiv n LAST_LOC_BLOCK)) in
  read uninit m n.

Definition get_last_loc (attention_backend : string) (is_hip : bool) (table : gmap Z Z) (rows prefix_lens : list Z) : list Z :=
  let uses_triton_dispatch := negb (bool_decide (attention_backend = "ascend"%string) || bool_decide (attention_backend = "torch_native"%string)) in
  if is_hip && uses_triton_dispatch then get_last_loc_triton true table rows prefix_lens
  else if uses_triton_dispatch then get_last_loc_triton false table rows prefix_lens
  else get_last_loc_torch table rows prefix_lens.

(** ** The batches *)

(** What the allocation reads of a request of an extend batch: [fill_len] is the length of
    its [fill_ids]. *)
Record BatchReq := mk_batch_req {
  slot_req : SlotReq;
  prefix_indices : list Z;
  fill_len : Z;
  extend_input_len : Z;
}.

Definition prefix_len (r : BatchReq) : Z := length (prefix_indices r).
Definition extend_num_tokens (reqs : list BatchReq) : Z := Zsum ((λ r, Z.max 0 (fill_len r - prefix_len r)) <$> reqs).

(** [t[-1:] if len(t) > 0 else -1] *)
Definition batch_extend (r : BatchReq) : Extend :=
  mk_extend (prefix_len r) (fill_len r) (default (-1) (last (prefix_indices r))).

Definition batch_row (r : BatchReq) (s : SlotReq) : RowWrite :=
  mk_row_write (default 0 (slot_of s)) (prefix_indices r) (fill_len r) (extend_input_len r).

Definition alloc_for_extend (reqs : list BatchReq) : Mk (list Z * list SlotReq) :=
  rows ← alloc_req_slots (slot_req <$> reqs);
  r ← (if (page_size (cache_cfg cfg) =? 1)%nat then alloc_token_slots (extend_num_tokens reqs) false
       else alloc_paged_token_slots_extend (batch_extend <$> reqs) (extend_num_tokens reqs) false);
  write_cache_indices r.1 (zip_with batch_row reqs rows) ≫= λ _,
  mret (r.1, rows).

(** One step of decoding: rows and lengths of the requests; [encoder_lens] where the model has
    an encoder. *)
Definition alloc_for_decode (rows seq_lens : list Z) (encoder_lens : option (list Z)) (token_per_req : Z) : Mk (list Z) :=
  out ← (if (page_size (cache_cfg cfg) =? 1)%nat
         then r ← alloc_token_slots (length seq_lens * token_per_req) false; mret r.1
         else
           table ← gets req_to_token;
           let at_last r s := default (beyond (r * stride + (s - 1))) (table !! (r * stride + (s - 1))) in
           alloc_paged_token_slots_decode ((λ s, s + token_per_req) <$> seq_lens) (zip_with at_last rows seq_lens));
  let locs := match encoder_lens with Some es => zip_with Z.add es seq_lens | None => seq_lens end in
  on_table (λ m, if (length out =? length rows)%nat
                 then Ok (foldl (λ m '(r, l, o), <[r * stride + l := o]> m) m (zip (zip rows locs) out))
                 else Raise RuntimeError) ≫= λ _,
  mret out.
End Alloc.
