(* ===== verification/KvAllocFacts.v ===== *)
(** * Allocation for a batch: the table, the interface of the pool, making room

    The kernel and the loop write the same rows; the three ways to look up last tokens agree.
    [KvAllocator] is what the tree needs of an allocator; both allocators provide it.
    Eviction hands whole pages over and keeps tree and pool in step. *)

From stdpp Require Import gmultiset.
From S2P Require Import Prelude RadixKey RadixCache RadixFacts RadixSplit RadixInv RadixOps RadixLocks RadixProps.
From S2P Require Import KvPool KvKernelFacts KvPoolProps KvAlloc.
Local Open Scope Z_scope.

(** ** The table *)

Lemma masked_store_ext base n mask mask' value value' m :
  (∀ o, 0 ≤ o < n → mask o = mask' o) → (∀ o, 0 ≤ o < n → mask o = true → value o = value' o) →
  masked_store base n mask value m = masked_store base n mask' value' m.
Proof.
  intros Hm Hv. apply map_eq. intros j. rewrite !masked_store_lookup.
  case_bool_decide as Hj; [|done]. simpl. rewrite <- Hm by lia.
  destruct (mask (j - base)) eqn:E; [|done]. f_equal. apply Hv; [lia|done].
Qed.

Section Table.
Context (cfg : KvConfig) (uninit beyond : Z → Z).
Local Abbreviation stride := (max_context_len cfg).
Implicit Types (w : RowWrite) (ws : list RowWrite) (out : list Z) (m : gmap Z Z).

Lemma copy_blocks_write base n value m :
  0 ≤ n → copy_blocks base n value m = write base (value <$> seqZ 0 n) m.
Proof. intros. unfold copy_blocks, cdiv. by apply (blocks_write base n BLOCK_SIZE value). Qed.

(** A row as it is to be: the prefix and the request's part of the new indices. *)
Definition row_content out (pt : Z) w : list Z :=
  prefix_tensor w ++ take (Z.to_nat (row_extend_len w)) (drop (Z.to_nat pt) out).

Definition row_ok w : Prop := 0 ≤ row_extend_len w ∧ row_seq_len w = row_pre_len w + row_extend_len w.

Fixpoint write_rows out (pt : Z) ws m : gmap Z Z :=
  match ws with
  | [] => m
  | w :: ws => write_rows out (pt + row_extend_len w) ws (write (at_row cfg w 0) (row_content out pt w) m)
  end.

Lemma load_slice (l : list Z) (a n : Z) :
  0 ≤ a → 0 ≤ n → a + n ≤ length l → (λ o, load beyond l (a + o)) <$> seqZ 0 n = take (Z.to_nat n) (drop (Z.to_nat a) l).
Proof.
  intros Ha Hn Hlen. apply list_eq. intros i. rewrite list_lookup_fmap.
  destruct (decide (i < Z.to_nat n)%nat) as [Hi|Hi].
  - rewrite lookup_seqZ_lt, lookup_take_lt, lookup_drop by lia. simpl. unfold load.
    replace (Z.to_nat (a + (0 + i))) with (Z.to_nat a + i)%nat by lia.
    destruct (lookup_lt_is_Some_2 l (Z.to_nat a + i)) as [x Hx]; [lia|]. by rewrite Hx.
  - rewrite lookup_seqZ_ge, lookup_take_ge by lia. done.
Qed.

Lemma load_all (l : list Z) : (λ o, load beyond l (0 + o)) <$> seqZ 0 (length l) = l.
Proof. rewrite load_slice by lia. rewrite Nat2Z.id. apply firstn_all. Qed.

Lemma write_row_parts out pt w m :
  write (at_row cfg w (row_pre_len w)) (take (Z.to_nat (row_extend_len w)) (drop (Z.to_nat pt) out))
    (write (at_row cfg w 0) (prefix_tensor w) m) = write (at_row cfg w 0) (row_content out pt w) m.
Proof.
  unfold row_content. rewrite write_app. f_equal. unfold at_row, row_pre_len. lia.
Qed.

Lemma write_program_row out ws (pid : nat) w m :
  row_ok w → 0 ≤ Zsum (row_extend_len <$> take pid ws) →
  Zsum (row_extend_len <$> take pid ws) + row_extend_len w ≤ length out →
  write_program cfg beyond out ws pid w m =
  write (at_row cfg w 0) (row_content out (Zsum (row_extend_len <$> take pid ws)) w) m.
Proof.
  intros Hw Hpt Hlen. pose proof Hw as [He Hs]. unfold write_program. rewrite !copy_blocks_write by (unfold row_pre_len in *; lia).
  replace (row_seq_len w - row_pre_len w) with (row_extend_len w) by lia.
  rewrite load_slice by lia. rewrite <- write_row_parts. do 2 f_equal.
  unfold row_pre_len. etrans; [|apply (load_all (prefix_tensor w))]. apply list_fmap_ext. intros; f_equal; lia.
Qed.

Lemma write_loop_rows out ws :
  ∀ pt m, Forall row_ok ws → 0 ≤ pt → pt + Zsum (row_extend_len <$> ws) ≤ length out →
  write_loop cfg out pt ws m = Ok (write_rows out pt ws m).
Proof.
  induction ws as [|w ws IH]; intros pt m Hok Hpt Hlen; [done|].
  apply Forall_cons in Hok as [Hw Hok]. pose proof Hw as [He Hs]. cbn [fmap list_fmap] in Hlen. rewrite Zsum_cons in Hlen.
  assert (0 ≤ Zsum (row_extend_len <$> ws))
    by (apply Zsum_nonneg, Forall_fmap; eapply Forall_impl; [exact Hok|by intros ? [? _]]).
  cbn [write_loop write_rows]. rewrite assign_write by done. simpl.
  rewrite assign_write by (rewrite length_drop, length_take; lia). simpl.
  replace (drop (Z.to_nat pt) (take (Z.to_nat (pt + row_extend_len w)) out))
    with (take (Z.to_nat (row_extend_len w)) (drop (Z.to_nat pt) out)).
  - rewrite write_row_parts. apply IH; [done|lia|lia].
  - rewrite Z2Nat.inj_add, take_drop_commute by lia. done.
Qed.

Lemma write_kernel_rows out ws m :
  Forall row_ok ws → Zsum (row_extend_len <$> ws) ≤ length out →
  write_req_to_token_pool_triton cfg beyond out ws m = write_rows out 0 ws m.
Proof.
  intros Hok Hlen. unfold write_req_to_token_pool_triton.
  assert (∀ l i pt m, ws = take i ws ++ l → i = length (take i ws) → pt = Zsum (row_extend_len <$> take i ws) →
    launch (write_program cfg beyond out ws) i l m = write_rows out pt l m) as H.
  { induction l as [|w l IH]; intros i pt m0 Hws Hi ->; [done|]. cbn [launch write_rows].
    assert (ws !! i = Some w) as Hw by (rewrite Hws, lookup_app_r, <- Hi, Nat.sub_diag by lia; done).
    assert (Zsum (row_extend_len <$> take (S i) ws) = Zsum (row_extend_len <$> take i ws) + row_extend_len w) as Es
      by (rewrite (take_S_r _ _ _ Hw), fmap_app, Zsum_app; simpl; lia).
    assert (∀ l', Forall row_ok l' → 0 ≤ Zsum (row_extend_len <$> l')) as Hpos
      by (intros l' Hl'; apply Zsum_nonneg, Forall_fmap; eapply Forall_impl; [exact Hl'|by intros ? [? _]]).
    pose proof (Hpos _ (Forall_take _ i _ Hok)). pose proof (Hpos _ (Forall_drop _ (S i) _ Hok)) as Hd.
    rewrite <- (take_drop (S i) ws), fmap_app, Zsum_app, Es in Hlen.
    rewrite write_program_row; [|by eapply Forall_lookup_1|lia|lia].
    apply IH; [by rewrite (take_S_r _ _ _ Hw), <- app_assoc| |done].
    rewrite (take_S_r _ _ _ Hw), length_app. simpl. lia. }
  by apply (H ws 0%nat 0 m).
Qed.

(** Rows of different requests do not overlap. *)
Lemma write_rows_lookup_ne out ws :
  ∀ pt m r j, 0 ≤ j < stride → (∀ w, w ∈ ws → row w ≠ r) →
  (∀ w pt, w ∈ ws → Z.of_nat (length (row_content out pt w)) ≤ stride) →
  write_rows out pt ws m !! (r * stride + j) = m !! (r * stride + j).
Proof.
  induction ws as [|w ws IH]; intros pt m r j Hj Hr Hlen; [done|]. cbn [write_rows].
  rewrite IH; [|done|by intros; apply Hr; right|by intros; apply Hlen; right].
  rewrite write_lookup, bool_decide_eq_false_2; [done|]. unfold at_row. pose proof (Hr w ltac:(by left)).
  pose proof (Hlen w pt ltac:(by left)). nia.
Qed.

(** Every row then holds its request's prefix and new indices. *)
Lemma write_rows_lookup out ws :
  ∀ pt m i w, NoDup (row <$> ws) → (∀ w pt, w ∈ ws → Z.of_nat (length (row_content out pt w)) ≤ stride) →
  ws !! i = Some w →
  ∀ j, 0 ≤ j < length (row_content out (pt + Zsum (row_extend_len <$> take i ws)) w) →
  write_rows out pt ws m !! (row w * stride + j) =
  row_content out (pt + Zsum (row_extend_len <$> take i ws)) w !! Z.to_nat j.
Proof.
  induction ws as [|w0 ws IH]; intros pt m i w Hnd Hlen Hi j Hj; [done|]. cbn [write_rows].
  apply NoDup_cons in Hnd as [Hn Hnd]. destruct i as [|i]; simpl in Hi.
  - injection Hi as ->. simpl in *. rewrite Z.add_0_r in *. rewrite write_rows_lookup_ne.
    + rewrite write_lookup, bool_decide_eq_true_2 by (unfold at_row; lia). f_equal. unfold at_row. lia.
    + pose proof (Hlen w pt ltac:(by left)). lia.
    + intros w' Hw' E. apply Hn. apply list_elem_of_fmap. eauto.
    + intros. apply Hlen. by right.
  - rewrite firstn_cons, fmap_cons, Zsum_cons, Z.add_assoc in *. apply IH; try done. intros. apply Hlen. by right.
Qed.

(** ** The last tokens *)

Lemma last_loc_blocks in_range table rows lens :
  length rows = length lens →
  get_last_loc_triton cfg uninit beyond in_range table rows lens = get_last_loc_torch cfg beyond table rows lens.
Proof.
  intros Hlen. unfold get_last_loc_triton, cdiv.
  set (tok := λ i, let n := load beyond lens i in let r := load beyond rows i in
    if 0 <? n then default (beyond (r * stride + (n - 1))) (table !! (r * stride + (n - 1))) else -1).
  assert (∀ (l : list Z) m, foldl (λ m pid, last_loc_program cfg beyond in_range table rows lens pid m) m l =
    foldl (λ m b, masked_store (0 + b * LAST_LOC_BLOCK) LAST_LOC_BLOCK (λ o, b * LAST_LOC_BLOCK + o <? length lens)
      (λ o, tok (b * LAST_LOC_BLOCK + o)) m) m l) as Hfold.
  { induction l as [|b l IH]; intros m; [done|]. simpl foldl. rewrite IH. f_equal. unfold last_loc_program.
    apply masked_store_ext.
    - intros o _. by rewrite (Z.add_comm o).
    - intros o _ Ho. unfold tok. rewrite (Z.add_comm o) in *. rewrite Ho, orb_true_r. done. }
  rewrite Hfold, blocks_write by (done || lia).
  replace (Z.of_nat (length lens)) with (Z.of_nat (length (tok <$> seqZ 0 (length lens)))) at 2
    by (rewrite length_fmap, length_seqZ; lia).
  rewrite read_write. apply list_eq. intros i. unfold get_last_loc_torch. rewrite list_lookup_fmap.
  destruct (decide (i < length lens)%nat) as [Hi|Hi].
  - destruct (lookup_lt_is_Some_2 lens i Hi) as [n En]. destruct (lookup_lt_is_Some_2 rows i ltac:(lia)) as [r Er].
    rewrite lookup_seqZ_lt by lia. symmetry. apply lookup_zip_with_Some. exists r, n.
    split_and!; [|done|done]. unfold tok, load. by rewrite Z.add_0_l, Nat2Z.id, En, Er.
  - rewrite lookup_seqZ_ge, (lookup_ge_None_2 (zip_with _ _ _)) by (rewrite ?length_zip_with; lia). done.
Qed.
End Table.

(** ** What the tree needs of an allocator

    It keeps an account of the live pages; its size is what is not live; whole live pages that
    are given back are live no more. *)
Class KvAllocator (pc : PoolConfig) (free : list Z → M Pool unit) := {
  ka_inv : Pool → gset Z → Prop;
  ka_pages : Z;
  ka_available p live :
    ka_inv p live → is_not_in_free_group p = true → available_size pc p = (ka_pages - size live) * pool_page_size pc;
  ka_free idx p live :
    NoDup idx → (∃ pgs, idx = indices_of_pages pc pgs) → pages_in pc idx ⊆ live → ka_inv p live →
    is_not_in_free_group p = true →
    ∃ p', free idx p = (Ok tt, p') ∧ ka_inv p' (live ∖ pages_in pc idx) ∧ is_not_in_free_group p' = true;
}.

Lemma pages_in_1 pc idx : pool_page_size pc = 1 → pages_in pc idx = list_to_set idx.
Proof.
  intros H1. unfold pages_in. rewrite H1. f_equal. rewrite <- (list_fmap_id idx) at 2.
  apply list_fmap_ext. intros. apply Z.div_1_r.
Qed.

Lemma token_available pc p live :
  pool_page_size pc = 1 → 0 ≤ pool_size pc → token_inv pc p live → is_not_in_free_group p = true →
  available_size pc p = (pool_size pc - size live) * pool_page_size pc.
Proof.
  intros H1 Hs [N1 N2 N3 _] Hg. unfold stock in *. rewrite Hg, app_nil_r in *.
  assert (Z.of_nat (size (list_to_set (seqZ 1 (pool_size pc)) : gset Z)) = pool_size pc) as Hall
    by (rewrite size_list_to_set by apply NoDup_seqZ; rewrite length_seqZ; lia).
  rewrite <- Hall, <- N2, size_union by (clear - N3; set_solver). rewrite size_list_to_set by done.
  unfold available_size, held. rewrite length_app, H1. lia.
Qed.

Definition token_allocator pc (H1 : pool_page_size pc = 1) (Hs : 0 ≤ pool_size pc) : KvAllocator pc (token_free pc).
Proof.
  refine {| ka_inv := token_inv pc; ka_pages := pool_size pc; ka_available := λ p live, token_available pc p live H1 Hs |}.
  intros idx p live Hnd _ Hsub Hinv Hg. rewrite (pages_in_1 pc idx H1) in *.
  destruct (token_free_ok pc idx p live Hnd Hsub Hinv) as (p'&?&?&E). exists p'. rewrite E. done.
Defined.

Definition paged_allocator pc (Hp : 0 ≤ num_pages pc) (Hd : debug_mode pc = false) : KvAllocator pc (paged_free pc).
Proof.
  refine {| ka_inv := paged_inv pc; ka_pages := num_pages pc |}.
  - intros p live Hinv Hg. rewrite (available_exact pc p live Hp Hinv). unfold pending. rewrite Hg, size_empty. lia.
  - intros idx p live _ _ Hsub Hinv Hg. destruct (paged_free_inv pc Hd idx p live) as (p'&?&?&E); [|done|].
    + clear - Hsub. set_solver.
    + exists p'. rewrite E. done.
Defined.

(** ** Whole pages *)

Section Whole.
Context (pc : PoolConfig) (Hps : 0 < pool_page_size pc).
Local Abbreviation ps := (pool_page_size pc).

Definition whole (idx : list Z) : Prop := ∃ pgs, idx = indices_of_pages pc pgs.

Lemma whole_concat cs : Forall whole cs → whole (concat cs).
Proof.
  induction 1 as [|c cs [pgs ->] _ [pgs' IH]]; [by exists []|]. exists (pgs ++ pgs'). simpl. rewrite IH.
  unfold indices_of_pages. by rewrite bind_app.
Qed.

Lemma elem_of_indices pgs x : x ∈ indices_of_pages pc pgs ↔ x / ps ∈ pgs.
Proof.
  unfold indices_of_pages. rewrite list_elem_of_bind. split.
  - intros (p&Hx&Hp). apply list_elem_of_fmap in Hx as (o&->&Ho%elem_of_seqZ).
    by rewrite (proj1 (div_mod_page ps Hps p o ltac:(lia))).
  - intros Hx. exists (x / ps). split; [|done]. apply list_elem_of_fmap. exists (x mod ps).
    pose proof (Z_div_mod_eq_full x ps). split; [lia|]. apply elem_of_seqZ. pose proof (Z.mod_pos_bound x ps Hps). lia.
Qed.

(** With one index, a whole list has the page's others. *)
Lemma whole_page idx x y : whole idx → x ∈ idx → y / ps = x / ps → y ∈ idx.
Proof. intros [pgs ->]. rewrite !elem_of_indices. by intros Hx ->. Qed.

Lemma NoDup_pages pgs : NoDup (indices_of_pages pc pgs) → NoDup pgs.
Proof.
  induction pgs as [|p pgs IH]; intros H; [constructor|]. unfold indices_of_pages in H. rewrite bind_cons in H.
  apply NoDup_app in H as (_&Hd&H). constructor; [|by apply IH]. intros Hp.
  apply (Hd (p * ps)).
  - apply list_elem_of_fmap. exists 0. split; [lia|]. apply elem_of_seqZ. lia.
  - apply (elem_of_indices pgs). by rewrite Z.div_mul by lia.
Qed.

Lemma whole_size idx : NoDup idx → whole idx → Z.of_nat (length idx) = size (pages_in pc idx) * ps.
Proof.
  intros Hnd [pgs ->]. rewrite (length_indices pc Hps), (pages_in_indices pc Hps).
  by rewrite size_list_to_set by (by apply NoDup_pages).
Qed.
End Whole.

(** ** Handing pages back, call by call *)

Section Frees.
Context (pc : PoolConfig) (free : list Z → M Pool unit) `{!KvAllocator pc free} (Hps : 0 < pool_page_size pc).
Local Abbreviation ps := (pool_page_size pc).

Lemma frees_ok cs : ∀ p live,
  Forall (whole pc) cs → NoDup (concat cs) → pages_in pc (concat cs) ⊆ live → ka_inv p live →
  is_not_in_free_group p = true →
  ∃ p', for_each cs free p = (Ok tt, p') ∧ ka_inv p' (live ∖ pages_in pc (concat cs)) ∧ is_not_in_free_group p' = true.
Proof.
  induction cs as [|c cs IH]; intros p live Hw Hnd Hsub Hinv Hg.
  { exists p. split; [done|]. unfold pages_in. simpl. by rewrite difference_empty_L. }
  apply Forall_cons in Hw as [Hc Hw]. simpl in *. apply NoDup_app in Hnd as (Hndc&Hd&Hnd).
  rewrite (pages_in_app pc) in *.
  destruct (ka_free c p live Hndc Hc) as (p1&E1&Hinv1&Hg1); [clear - Hsub; set_solver|done|done|].
  destruct (IH p1 (live ∖ pages_in pc c)) as (p'&E'&Hinv'&Hg'); try done.
  - intros q Hq. apply elem_of_difference. split; [clear - Hsub Hq; set_solver|]. intros Hqc.
    unfold pages_in in Hq, Hqc. rewrite elem_of_list_to_set, list_elem_of_fmap in Hq, Hqc.
    destruct Hq as (x&Ex&Hx), Hqc as (y&Ey&Hy). apply (Hd y Hy).
    apply (whole_page pc Hps (concat cs) x y); [by apply whole_concat|done|congruence].
  - exists p'. rewrite (bind_Ok (free c) _ p tt p1) by done. split; [done|]. split; [|done].
    by rewrite <- difference_difference_l_L.
Qed.
End Frees.

(** ** The indices of a tree *)

Lemma elem_of_tree_indices (H : gmap nat TreeNode) x :
  x ∈ indices H ↔ ∃ n nd, H !! n = Some nd ∧ x ∈ value nd.
Proof.
  induction H as [|n nd H En IH] using map_ind.
  - unfold indices. rewrite map_fold_empty. split; [multiset_solver|]. by intros (n & nd & E & _).
  - rewrite indices_insert by done. rewrite gmultiset_elem_of_disj_union. unfold seg_indices.
    rewrite elem_of_list_to_set_disj, IH. split.
    + intros [Hx|(m & md & Em & Hx)]; [exists n, nd; by rewrite lookup_insert_eq|].
      exists m, md. split; [|done]. rewrite lookup_insert_ne by (by intros ->; simplify_eq). done.
    + intros (m & md & Em & Hx). apply lookup_insert_Some in Em as [[<- <-]|[Hne Em]]; [by left|]. right. eauto.
Qed.

Lemma NoDup_once (l : list Z) :
  (∀ x, (multiplicity x (list_to_set_disj l : gmultiset Z) ≤ 1)%nat) → NoDup l.
Proof.
  induction l as [|y l IH]; intros H; [constructor|].
  change (list_to_set_disj (y :: l)) with ({[+ y +]} ⊎ list_to_set_disj l : gmultiset Z) in H. constructor.
  - intros Hy. specialize (H y). rewrite multiplicity_disj_union, multiplicity_singleton, decide_True in H by done.
    apply (elem_of_list_to_set_disj (A:=Z)) in Hy. unfold elem_of, gmultiset_elem_of in Hy. lia.
  - apply IH. intros x. specialize (H x). rewrite multiplicity_disj_union in H. lia.
Qed.

Lemma evictions_values cfg H fr H' n nd' :
  evictions cfg H fr H' → H' !! n = Some nd' → ∃ nd, H !! n = Some nd ∧ value nd = value nd'.
Proof.
  induction 1 as [H|H x xd p pd ck fr H' Hx _ Hxp Ep Hck Hev IH]; intros En; [by exists nd'|].
  destruct (IH En) as (nd & E & Hv). unfold del_store in E. apply lookup_delete_Some in E as [Hn E].
  destruct (decide (n = p)) as [->|Hnp]; [|rewrite lookup_alter_ne in E by done; by exists nd].
  rewrite lookup_alter_eq, Ep in E. simplify_eq/=. by exists pd.
Qed.

Lemma evictable_nonneg cfg s hs : inv cfg s hs → 0 ≤ evictable_size_ s.
Proof.
  intros (ls & _ & Hi). rewrite (p_evictable _ _ _ _ _ _ _ _ _ Hi). apply msum_nonneg.
  intros n nd _. unfold evictable_of. destruct (_ || _); lia.
Qed.

(** ** Tree and pool in step *)

Section Joint.
Context (cfg : KvConfig) (uninit beyond : Z → Z).
Local Abbreviation cc := (cache_cfg cfg).
Local Abbreviation pc := (pool_cfg cfg).
Local Abbreviation ps := (pool_page_size pc).
Context `{!KvAllocator pc (allocator_free cfg)}.
Implicit Types (k : Kv) (hs : list nat) (live : gset Z).

(** The tree holds whole live pages, each index once. *)
Record joint k hs live : Prop := mk_joint {
  j_tree : inv cc (tree k) hs;
  j_pool : ka_inv (pool k) live;
  j_group : is_not_in_free_group (pool k) = true;
  j_whole : ∀ n nd, nodes (tree k) !! n = Some nd → whole pc (value nd);
  j_once : ∀ x, (multiplicity x (indices (nodes (tree k))) ≤ 1)%nat;
  j_live : ∀ x, x ∈ indices (nodes (tree k)) → x / ps ∈ live;
}.

Definition evictable k : Z := if is_chunk_cache cfg then 0 else evictable_size_ (tree k).
Definition room k : Z := available_size pc (pool k) + evictable k.

Record config_ok : Prop := {
  ck_ps : 0 < ps;
  ck_same : Z.of_nat (page_size cc) = ps;
  ck_enabled : disable cc = false;
}.
Hypothesis Hok : config_ok.

Lemma joint_once_disjoint k hs live fr H' :
  joint k hs live → indices (nodes (tree k)) = list_to_set_disj fr ⊎ indices H' →
  NoDup fr ∧ ∀ x, x ∈ fr → x ∉ indices H'.
Proof.
  intros Hj Hi. pose proof (j_once _ _ _ Hj) as H1. rewrite Hi in H1. split.
  - apply NoDup_once. intros x. specialize (H1 x). rewrite multiplicity_disj_union in H1. lia.
  - intros x Hx Hx'. specialize (H1 x). rewrite multiplicity_disj_union in H1.
    apply (elem_of_list_to_set_disj (A:=Z)) in Hx. unfold elem_of, gmultiset_elem_of in Hx, Hx'. lia.
Qed.

Lemma NoDup_sub_size (live : gset Z) idx :
  NoDup idx → whole pc idx → pages_in pc idx ⊆ live →
  (size live - size (live ∖ pages_in pc idx)) * ps = length idx.
Proof.
  intros Hnd Hw Hsub. rewrite (whole_size pc (ck_ps Hok) idx Hnd Hw). f_equal.
  rewrite size_difference by done. pose proof (subseteq_size _ _ Hsub). lia.
Qed.

(** Tree and pool after an eviction. *)
Lemma joint_evicted k hs live fr s' p' :
  joint k hs live → evictions cc (nodes (tree k)) fr (nodes s') → inv cc s' hs → whole pc fr →
  ka_inv p' (live ∖ pages_in pc fr) → is_not_in_free_group p' = true →
  joint (mk_kv s' p' (slots k) (req_to_token k)) hs (live ∖ pages_in pc fr).
Proof.
  intros Hj Hev Hinv Hwf Hp Hg. pose proof Hok as [Hps Hsame Hen].
  assert (indices (nodes (tree k)) = list_to_set_disj fr ⊎ indices (nodes s')) as Hi.
  { apply (evictions_indices cc (root_node (tree k))); [lia|by eapply inv_tree, j_tree|by eapply inv_root_locked, j_tree|done]. }
  destruct (joint_once_disjoint k hs live fr (nodes s') Hj Hi) as [Hnd Hdis].
  assert (∀ n nd, nodes s' !! n = Some nd → whole pc (value nd)) as Hw'.
  { intros n nd En. destruct (evictions_values cc _ _ _ n nd Hev En) as (nd0 & E0 & <-). by apply (j_whole _ _ _ Hj n). }
  split; simpl; try done.
  - intros x. pose proof (j_once _ _ _ Hj x) as H1. rewrite Hi, multiplicity_disj_union in H1. lia.
  - intros x Hx. apply elem_of_difference. split.
    { apply (j_live _ _ _ Hj). rewrite Hi. apply gmultiset_elem_of_disj_union. by right. }
    intros Hq. unfold pages_in in Hq. rewrite elem_of_list_to_set, list_elem_of_fmap in Hq. destruct Hq as (y & Ey & Hy).
    apply (Hdis y Hy). apply elem_of_tree_indices in Hx as (n & nd & En & Hx). apply elem_of_tree_indices.
    exists n, nd. split; [done|]. by apply (whole_page pc Hps (value nd) x y (Hw' n nd En)).
Qed.

(** What an eviction gives up: the tree holds [fr] no longer, and all else it held; the paths
    of locked nodes stay. *)
Record gave_up (c c' : Cache) hs (fr : list Z) : Prop := {
  gu_indices : indices (nodes c) = list_to_set_disj fr ⊎ indices (nodes c');
  gu_paths : ∀ h u v, h ∈ hs → path c u v h → path c' u v h;
}.

Lemma gave_up_nothing c hs : gave_up c c hs [].
Proof. split; [|done]. simpl. multiset_solver. Qed.

Lemma gave_up_pages c c' hs fr :
  gave_up c c' hs fr → ∀ q, q ∈ pages_in pc fr → ∃ x, x ∈ indices (nodes c) ∧ x / ps = q.
Proof.
  intros [Hi _] q Hq. unfold pages_in in Hq. rewrite elem_of_list_to_set, list_elem_of_fmap in Hq. destruct Hq as (x & -> & Hx).
  exists x. split; [|done]. rewrite Hi. apply gmultiset_elem_of_disj_union. left. by apply elem_of_list_to_set_disj.
Qed.

(** What the tree gives back reaches the pool. *)
Lemma evict_hands_over n k hs live :
  joint k hs live →
  ∃ k' fr, on_tree cfg (evict cc n) k = (Ok (length fr : Z), k') ∧ joint k' hs (live ∖ pages_in pc fr) ∧
    available_size pc (pool k') = available_size pc (pool k) + length fr ∧
    evictable_size_ (tree k') = evictable_size_ (tree k) - length fr ∧
    (n ≤ length fr ∨ evictable_size_ (tree k') = 0) ∧
    gave_up (tree k) (tree k') hs fr ∧ slots k' = slots k ∧ req_to_token k' = req_to_token k.
Proof.
  intros Hj. pose proof Hok as [Hps Hsame Hen].
  destruct (evict_ok cc (tree k) hs n) as (fr & s' & E & Hev & Hroot & Hinv & (cs & Hcs & Hfr & Hcv) & Hes & _ & Hdone);
    [lia|done|apply Hj|].
  assert (Forall (whole pc) cs) as Hwc.
  { eapply Forall_impl; [exact Hcv|]. intros v (m & nd & Em & <-). by apply (j_whole _ _ _ Hj m). }
  assert (indices (nodes (tree k)) = list_to_set_disj fr ⊎ indices (nodes s')) as Hi.
  { apply (evictions_indices cc (root_node (tree k))); [lia|by eapply inv_tree, j_tree|by eapply inv_root_locked, j_tree|done]. }
  destruct (joint_once_disjoint k hs live fr (nodes s') Hj Hi) as [Hnd _].
  assert (∀ x, x ∈ fr → x ∈ indices (nodes (tree k))) as Hin.
  { intros x Hx. rewrite Hi. apply gmultiset_elem_of_disj_union. left. by apply elem_of_list_to_set_disj. }
  assert (pages_in pc fr ⊆ live) as Hsub.
  { intros q Hq. unfold pages_in in Hq. rewrite elem_of_list_to_set, list_elem_of_fmap in Hq. destruct Hq as (x & -> & Hx).
    by apply (j_live _ _ _ Hj), Hin. }
  destruct (frees_ok pc (allocator_free cfg) Hps cs (pool k) live) as (p' & Ep & Hp & Hg);
    [done|by rewrite Hfr|by rewrite Hfr|apply Hj|apply Hj|]. rewrite Hfr in Hp.
  assert (whole pc fr) as Hwf by (rewrite <- Hfr; by apply whole_concat).
  exists (mk_kv s' p' (slots k) (req_to_token k)), fr. split_and!; try done.
  - unfold on_tree. rewrite E, Hcs, drop_app_length. by rewrite Ep.
  - by apply joint_evicted.
  - simpl. rewrite (ka_available p' _ Hp Hg), (ka_available (pool k) live (j_pool _ _ _ Hj) (j_group _ _ _ Hj)).
    pose proof (NoDup_sub_size live fr Hnd Hwf Hsub). lia.
  - split; [done|]. intros h u v Hh Hp0. unfold path in *. cbn [tree]. rewrite Hroot.
    eapply (evictions_path cc (root_node (tree k))); try done; [lia|by eapply inv_tree, j_tree|by eapply inv_root_locked, j_tree|].
    by eapply inv_handle.
Qed.

(** Eviction makes the room that was asked for, or there is nothing left to evict; together
    the free and the evictable tokens stay the same. *)
Lemma evict_room n k hs live :
  joint k hs live →
  ∃ k' fr, evict_from_tree_cache cfg n k = (Ok tt, k') ∧ joint k' hs (live ∖ pages_in pc fr) ∧
    room k' = room k ∧ (n ≤ available_size pc (pool k') ∨ evictable k' = 0) ∧ 0 ≤ evictable k' ∧
    gave_up (tree k) (tree k') hs fr ∧ slots k' = slots k ∧ req_to_token k' = req_to_token k.
Proof.
  intros Hj. assert (∀ k live, joint k hs live → 0 ≤ evictable k) as Hpos.
  { intros k0 live0 Hj0. unfold evictable. destruct (is_chunk_cache cfg); [done|]. by eapply evictable_nonneg, j_tree. }
  unfold evict_from_tree_cache.
  assert (n ≤ available_size pc (pool k) ∨ is_chunk_cache cfg = true ∨
    is_chunk_cache cfg = false ∧ available_size pc (pool k) < n) as [Hn|[Hc|[Hc Hn]]] by (destruct (is_chunk_cache cfg); lia).
  1,2: exists k, []; split_and!; try done; [|by unfold pages_in; simpl; rewrite difference_empty_L| |by eapply Hpos|by apply gave_up_nothing].
  - destruct (is_chunk_cache cfg); [done|]. rewrite (bind_Ok (gets _) _ k (available_size pc (pool k)) k) by done.
    by rewrite (proj2 (Z.ltb_ge _ _)) by lia.
  - by left.
  - by rewrite Hc.
  - right. unfold evictable. by rewrite Hc.
  - destruct (evict_hands_over n k hs live Hj) as (k' & fr & E & Hj' & Hav & Hes & Hdone & Hin & Hs & Ht).
    rewrite Hc, (bind_Ok (gets _) _ k (available_size pc (pool k)) k) by done.
    rewrite (proj2 (Z.ltb_lt _ _)) by done. rewrite (bind_Ok _ _ _ _ _ E).
    exists k', fr. pose proof (Hpos k' _ Hj') as Hp'. unfold room, evictable in *. rewrite Hc in *.
    split_and!; try done; [lia|]. destruct Hdone as [?|?]; [|by right]. left.
    rewrite Hav, (ka_available (pool k) live (j_pool _ _ _ Hj) (j_group _ _ _ Hj)) in *.
    pose proof (ka_available (pool k) live (j_pool _ _ _ Hj) (j_group _ _ _ Hj)) as Hk.
    unfold available_size in Hk. pose proof (ck_ps Hok). nia.
Qed.
End Joint.
