(* ===== verification/KvAllocProps.v ===== *)
(** * Batches get their memory

    Allocation for an extend batch succeeds exactly when the new pages fit into what is free
    or evictable; it then gives fresh pages, keeps tree and pool in step, and leaves every
    request's row with its prefix followed by its new indices. *)

From stdpp Require Import gmultiset.
From S2P Require Import Prelude RadixKey RadixCache RadixInv RadixOps RadixApi RadixProps.
From S2P Require Import KvPool KvKernelFacts KvPoolProps KvAlloc KvAllocFacts.
Local Open Scope Z_scope.

(** ** The allocator that is built for the page size *)

Record pool_ok (pc : PoolConfig) : Prop := {
  po_ps : 0 < pool_page_size pc;
  po_size : 0 ≤ pool_size pc;
  po_debug : debug_mode pc = false;
}.

Definition pool_inv (pc : PoolConfig) (p : Pool) (live : gset Z) : Prop :=
  if pool_page_size pc =? 1 then token_inv pc p live else paged_inv pc p live.

Lemma pool_inv_available pc p live :
  pool_ok pc → pool_inv pc p live → is_not_in_free_group p = true →
  available_size pc p = (num_pages pc - size live) * pool_page_size pc.
Proof.
  intros [Hps Hsz Hd] Hinv Hg. unfold pool_inv in Hinv. destruct (Z.eqb_spec (pool_page_size pc) 1) as [H1|H1].
  - unfold num_pages. rewrite H1, Z.div_1_r, <- H1. by apply token_available.
  - refine (ka_available (KvAllocator:=paged_allocator pc _ Hd) p live Hinv Hg). apply Z.div_pos; lia.
Qed.

Lemma pool_inv_free cfg idx p live :
  pool_ok (pool_cfg cfg) → NoDup idx → (∃ pgs, idx = indices_of_pages (pool_cfg cfg) pgs) → pages_in (pool_cfg cfg) idx ⊆ live →
  pool_inv (pool_cfg cfg) p live → is_not_in_free_group p = true →
  ∃ p', allocator_free cfg idx p = (Ok tt, p') ∧ pool_inv (pool_cfg cfg) p' (live ∖ pages_in (pool_cfg cfg) idx) ∧
    is_not_in_free_group p' = true.
Proof.
  intros [Hps Hsz Hd] Hnd Hw Hsub Hinv Hg. unfold allocator_free, pool_inv in *.
  destruct (Z.eqb_spec (pool_page_size (pool_cfg cfg)) 1) as [H1|H1].
  - by apply (ka_free (KvAllocator:=token_allocator (pool_cfg cfg) H1 Hsz)).
  - assert (0 ≤ num_pages (pool_cfg cfg)) as Hn by (apply Z.div_pos; lia).
    by apply (ka_free (KvAllocator:=paged_allocator (pool_cfg cfg) Hn Hd)).
Qed.

Definition kv_allocator (cfg : KvConfig) (Hpo : pool_ok (pool_cfg cfg)) : KvAllocator (pool_cfg cfg) (allocator_free cfg) := {|
  ka_inv := pool_inv (pool_cfg cfg);
  ka_pages := num_pages (pool_cfg cfg);
  ka_available p live := pool_inv_available (pool_cfg cfg) p live Hpo;
  ka_free idx p live := pool_inv_free cfg idx p live Hpo;
|}.

Section Extend.
Context (cfg : KvConfig) (uninit beyond : Z → Z).
Local Abbreviation cc := (cache_cfg cfg).
Local Abbreviation pc := (pool_cfg cfg).
Local Abbreviation ps := (pool_page_size pc).
Context (Hpo : pool_ok pc) (Hok : config_ok cfg).
#[local] Instance the_allocator : KvAllocator pc (allocator_free cfg) := kv_allocator cfg Hpo.
Local Abbreviation joint := (joint cfg).
Local Abbreviation room := (room cfg).
Implicit Types (k : Kv) (hs : list nat) (live : gset Z) (reqs : list BatchReq).

(** What the scheduler promises of a batch: lengths that add up, prefixes that end where
    their pages say, and old pages that are live and not the tree's. *)
Record batch_ok k live reqs : Prop := {
  bo_lens : Forall (λ r, 0 ≤ extend_input_len r ∧ fill_len r = prefix_len r + extend_input_len r) reqs;
  bo_aligned : Forall (λ r, aligned ps (batch_extend r)) reqs;
  bo_tails : ∀ r q, r ∈ reqs → tail_page ps (batch_extend r) = Some q →
    q ∈ live ∧ ∀ x, x ∈ indices (nodes (tree k)) → x / ps ≠ q;
}.

Definition new_pages reqs : Z := get_num_new_pages ps (batch_extend <$> reqs).

Lemma batch_valid k live reqs : batch_ok k live reqs → Forall valid_request (batch_extend <$> reqs).
Proof.
  intros [Hl _ _]. apply Forall_fmap. eapply Forall_impl; [exact Hl|]. intros r [H1 H2].
  unfold valid_request. simpl. unfold prefix_len in *. lia.
Qed.

Lemma batch_tokens k live reqs :
  batch_ok k live reqs → extend_num_tokens reqs = Zsum (extend_len <$> (batch_extend <$> reqs)).
Proof.
  intros [Hl _ _]. unfold extend_num_tokens. rewrite <- list_fmap_compose. f_equal. apply list_fmap_ext.
  intros i r Hr. rewrite Forall_lookup in Hl. destruct (Hl i r Hr). unfold extend_len. simpl. lia.
Qed.

Lemma room_le k k' hs live need :
  joint k' hs live → room k' = room k → 0 ≤ evictable cfg k' →
  need ≤ available_size pc (pool k') → need ≤ room k.
Proof. unfold KvAllocFacts.room. lia. Qed.

(** What an allocation for a batch does: the tree gave up [fr], nothing on the paths that are
    locked; [pages], none of them live, are taken, and the batch's indices are the places of
    its tokens: behind the last token of each request in its old page, then in its share of
    the new pages. *)
Record allocated (c : Cache) hs hs' live reqs (fr pages out : list Z) k' : Prop := {
  al_given : gave_up c (tree k') hs fr;
  al_pages : NoDup pages;
  al_count : Z.of_nat (length pages) = new_pages reqs;
  al_fresh : (live ∖ pages_in pc fr) ## list_to_set pages;
  al_places : out = batch_locs ps beyond pages 0 (batch_extend <$> reqs);
  al_length : Z.of_nat (length out) = extend_num_tokens reqs;
  al_once : NoDup (omap (tail_page ps) (batch_extend <$> reqs)) → NoDup out;
  al_joint : joint k' hs' ((live ∖ pages_in pc fr) ∪ list_to_set pages);
}.

Lemma batch_apart k live live' reqs pages :
  batch_ok k live reqs → (∀ q, q ∈ live → (∀ x, x ∈ indices (nodes (tree k)) → x / ps ≠ q) → q ∈ live') →
  NoDup pages → live' ## list_to_set pages → NoDup (omap (tail_page ps) (batch_extend <$> reqs)) →
  apart ps pages (batch_extend <$> reqs).
Proof.
  intros Hb Hsub Hnd Hd Ht. split; [by eapply batch_valid|by apply Forall_fmap, Hb|done|done|].
  intros q (e & (r & -> & Hr)%list_elem_of_fmap & Eq)%list_elem_of_omap Hq. destruct (bo_tails _ _ _ Hb r q Hr Eq) as [Hl Hi].
  apply (Hd q); [by apply Hsub|by apply elem_of_list_to_set].
Qed.

(** The places follow from the pages. *)
Lemma allocated_intro k hs live reqs fr pages out k' :
  batch_ok k live reqs → gave_up (tree k) (tree k') hs fr → NoDup pages → Z.of_nat (length pages) = new_pages reqs →
  (live ∖ pages_in pc fr) ## list_to_set pages → out = batch_locs ps beyond pages 0 (batch_extend <$> reqs) →
  joint k' hs ((live ∖ pages_in pc fr) ∪ list_to_set pages) → allocated (tree k) hs hs live reqs fr pages out k'.
Proof.
  intros Hb Hgu Hnd Hlen Hd -> Hj. pose proof (po_ps _ Hpo) as Hps. split; try done.
  - rewrite (batch_tokens k live reqs Hb). apply length_batch_locs. by eapply batch_valid.
  - intros Ht. apply (NoDup_batch_locs ps beyond Hps pages); [|done|unfold new_pages in Hlen; lia].
    apply (batch_apart k live (live ∖ pages_in pc fr)); try done. intros q Hq Hi. apply elem_of_difference. split; [done|].
    intros Hf. destruct (gave_up_pages cfg _ _ _ _ Hgu q Hf) as (x & Hx & Ex). by apply (Hi x).
Qed.

(** The outcome of an allocation: fresh pages, or out of memory. *)
Definition outcome k hs live reqs (r : res (list Z * option (list Z * list Z)) * Kv) : Prop :=
  (new_pages reqs * ps ≤ room k ∧ ∃ out k' (fr pages : list Z),
     r = (Ok (out, None), k') ∧ allocated (tree k) hs hs live reqs fr pages out k' ∧
     slots k' = slots k ∧ req_to_token k' = req_to_token k) ∨
  (room k < new_pages reqs * ps ∧ ∃ k', r = (Raise RuntimeError, k')).

Lemma joint_pool k hs live live' p' :
  joint k hs live → pool_inv pc p' live' → live ⊆ live' → is_not_in_free_group p' = true →
  joint (mk_kv (tree k) p' (slots k) (req_to_token k)) hs live'.
Proof.
  intros Hj Hp Hsub Hg. split; simpl; try done; try apply Hj. intros x Hx. apply Hsub. by apply (j_live _ _ _ _ Hj).
Qed.

Lemma held_available (p : Pool) : available_size pc p = length (held p) * ps.
Proof. unfold available_size, held. rewrite length_app. lia. Qed.

Lemma token_alloc_group n : steps (frames is_not_in_free_group) (token_alloc pc n).
Proof.
  unfold token_alloc, merge_and_sort_free. step_auto; try apply _; apply steps_modify; intros p; unfold frames; simpl;
    try case_bool_decide; done.
Qed.

Lemma alloc_extend_group rs n : steps (frames is_not_in_free_group) (alloc_extend pc uninit beyond rs n None).
Proof.
  unfold alloc_extend, take_pages, in_debug, assert_that, merge_and_sort_free.
  step_auto; try apply _; apply steps_modify; intros p; unfold frames; simpl; try case_bool_decide; done.
Qed.

(** After making room, an allocation that fails only for lack of pages fails only when free
    and evictable pages together are too few. *)
Lemma lacks_room n k k1 need :
  room k1 = room k → (n ≤ available_size pc (pool k1) ∨ evictable cfg k1 = 0) → need * ps ≤ n →
  Z.of_nat (length (held (pool k1))) < need → room k < need * ps.
Proof.
  intros Hr Hn Hneed Hlt. pose proof (held_available (pool k1)) as Ha. pose proof (po_ps _ Hpo).
  rewrite <- Hr. unfold KvAllocFacts.room in *. destruct Hn as [Hn|He]; [|nia]. exfalso. nia.
Qed.

Lemma has_room k k1 need :
  room k1 = room k → 0 ≤ evictable cfg k1 → need ≤ Z.of_nat (length (held (pool k1))) → need * ps ≤ room k.
Proof.
  intros Hr He Hle. pose proof (held_available (pool k1)). pose proof (po_ps _ Hpo).
  rewrite <- Hr. unfold KvAllocFacts.room. nia.
Qed.

Lemma new_pages_1 reqs : ps = 1 → new_pages reqs = Zsum (extend_len <$> (batch_extend <$> reqs)).
Proof.
  intros H1. unfold new_pages, get_num_new_pages. rewrite H1. f_equal. apply list_fmap_ext. intros i r _.
  unfold num_new_pages, pages_of, extend_len. rewrite !Z.div_1_r. lia.
Qed.

Lemma tokens_outcome reqs k hs live :
  ps = 1 → batch_ok k live reqs → joint k hs live →
  outcome k hs live reqs (alloc_token_slots cfg (extend_num_tokens reqs) false k).
Proof.
  intros H1 Hb Hj. pose proof (batch_valid k live reqs Hb) as Hv. pose proof (po_ps _ Hpo) as Hps.
  assert (extend_num_tokens reqs = new_pages reqs) as -> by by rewrite (new_pages_1 reqs H1), (batch_tokens k live reqs Hb).
  set (n := new_pages reqs). assert (0 ≤ n) as Hn by (by apply (news_sum_nonneg pc Hps)).
  destruct (evict_room cfg Hok n k hs live Hj) as (k1 & fr & E & Hj1 & Hr & Hdone & He & Hgu & Hsl & Ht).
  unfold alloc_token_slots. rewrite (bind_Ok _ _ k tt k1 E), (bind_Ok (backup false) _ k1 None k1) by done.
  assert (token_inv pc (pool k1) (live ∖ pages_in pc fr)) as Hti
    by (pose proof (j_pool _ _ _ _ Hj1) as Hp; simpl in Hp; unfold pool_inv in Hp; by rewrite H1 in Hp).
  destruct (token_alloc_ok pc n (pool k1) _ Hn Hti) as (out & p' & Ea & Hout).
  pose proof (token_alloc_group n (pool k1)) as Hg. unfold frames in Hg. rewrite Ea in Hg. simpl in Hg.
  assert (on_pool (allocator_alloc cfg n) k1 = (Ok out, mk_kv (tree k1) p' (slots k1) (req_to_token k1))) as Ep
    by (unfold on_pool, allocator_alloc; rewrite H1; simpl; by rewrite Ea).
  rewrite (bind_Ok _ _ _ _ _ Ep). destruct out as [idx|].
  - destruct Hout as (Hlen & Hnd & Hdis & Hinv' & Hheld). left. split; [by apply (has_room k k1)|].
    exists idx. eexists. exists fr, idx. split; [done|]. split; [|done]. apply allocated_intro; try done.
    + rewrite (batch_locs_tokens ps beyond Hps idx); try done; fold (new_pages reqs); fold n; [|lia]. change (drop (Z.to_nat 0) idx) with idx. by rewrite take_ge by lia.
    + apply (joint_pool k1 hs (live ∖ pages_in pc fr)); [done|unfold pool_inv; by rewrite H1|apply union_subseteq_l|].
      rewrite <- Hg. apply Hj1.
  - right. destruct Hout as [_ Hlt]. split; [|by eexists].
    apply (lacks_room n k k1 n Hr Hdone); [rewrite H1; lia|done].
Qed.

Lemma pages_outcome reqs k hs live :
  ps ≠ 1 → batch_ok k live reqs → joint k hs live →
  outcome k hs live reqs
    (alloc_paged_token_slots_extend cfg uninit beyond (batch_extend <$> reqs) (extend_num_tokens reqs) false k).
Proof.
  intros H1 Hb Hj. set (n := extend_num_tokens reqs + length (batch_extend <$> reqs) * ps).
  destruct (evict_room cfg Hok n k hs live Hj) as (k1 & fr & E & Hj1 & Hr & Hdone & He & Hgu & Hsl & Ht).
  pose proof (batch_valid k live reqs Hb) as Hv. pose proof (po_ps _ Hpo) as Hps. pose proof (news_sum_nonneg pc Hps _ Hv) as Hpos.
  unfold alloc_paged_token_slots_extend. fold n. rewrite (bind_Ok _ _ k tt k1 E), (bind_Ok (backup false) _ k1 None k1) by done.
  set (live1 := live ∖ pages_in pc fr) in *.
  assert (paged_inv pc (pool k1) live1) as Hpi
    by (pose proof (j_pool _ _ _ _ Hj1) as Hp; simpl in Hp; unfold pool_inv in Hp; by rewrite (proj2 (Z.eqb_neq _ _) H1) in Hp).
  assert (legal_batch pc live1 (batch_extend <$> reqs)) as Hl.
  { split; [done|by apply Forall_fmap, Hb|]. intros r q (r0 & -> & Hr0)%list_elem_of_fmap Hq.
    destruct (bo_tails _ _ _ Hb r0 q Hr0 Hq) as [Hql Hqt]. apply elem_of_difference. split; [done|].
    intros (x & Hx & Ex)%(gave_up_pages cfg _ _ _ _ Hgu). by apply (Hqt x). }
  destruct (alloc_extend_granted pc uninit beyond Hps (po_debug _ Hpo) _ (pool k1) live1 Hl Hpi)
    as (out & p' & free & Ea & Hg & Hout & Hndf & Hlenf & Hfree).
  pose proof (alloc_extend_group (batch_extend <$> reqs) (extend_num_tokens reqs) (pool k1)) as Hf. unfold frames in Hf.
  rewrite <- (batch_tokens k live reqs Hb) in Ea. rewrite Ea in Hf. simpl in Hf.
  assert (on_pool (alloc_extend pc uninit beyond (batch_extend <$> reqs) (extend_num_tokens reqs) None) k1 =
    (Ok out, mk_kv (tree k1) p' (slots k1) (req_to_token k1))) as Ep by (unfold on_pool; by rewrite Ea).
  rewrite (bind_Ok _ _ _ _ _ Ep). destruct out as [idx|].
  - destruct Hg as (new & _ & Hlen & _ & _ & Hinv' & Hheld). specialize (Hlenf ltac:(by eexists)). injection (Hout ltac:(by eexists)) as ->.
    set (pages := take (Z.to_nat (new_pages reqs)) free). unfold new_pages in pages, Hlen, Hlenf. left.
    assert (batch_locs ps beyond free 0 (batch_extend <$> reqs) = batch_locs ps beyond pages 0 (batch_extend <$> reqs)) as Epl
      by (symmetry; apply (batch_locs_take ps beyond Hps); [done|done|lia]).
    split; [apply (has_room k k1); try done; rewrite Hheld, length_app; unfold new_pages; lia|].
    exists (batch_locs ps beyond free 0 (batch_extend <$> reqs)). eexists. exists fr, pages. split; [done|]. split; [|done].
    apply allocated_intro; try done.
    + unfold pages. rewrite <- (take_drop (Z.to_nat (get_num_new_pages ps (batch_extend <$> reqs)))) in Hndf. by apply NoDup_app in Hndf as (? & _).
    + unfold pages, new_pages. rewrite length_take. lia.
    + fold live1. intros q Hq (i & Hi & _)%elem_of_list_to_set%elem_of_take. apply (Hfree q); [by eapply list_elem_of_lookup_2|done].
    + fold live1. unfold pages. rewrite <- (extend_pages pc beyond Hps free (batch_extend <$> reqs) live1); try done; try apply Hl.
        apply (joint_pool k1 hs live1); [done|unfold pool_inv; by rewrite (proj2 (Z.eqb_neq _ _) H1)|apply union_subseteq_l|].
        rewrite <- Hf. apply Hj1.
  - right. destruct Hg as (_ & _ & Hlt). split; [|by eexists].
    apply (lacks_room n k k1 (new_pages reqs) Hr Hdone); [|done].
    pose proof (pages_estimate pc Hps _ Hv) as Hest. unfold n, new_pages. rewrite (batch_tokens k live reqs Hb).
    pose proof (div_bounds ps Hps (Zsum (extend_len <$> (batch_extend <$> reqs)))). nia.
Qed.

(** *** The rows *)

Definition start_of reqs (i : nat) : Z := Zsum (extend_input_len <$> take i reqs).
Definition share reqs (out : list Z) (i : nat) (r : BatchReq) : list Z :=
  take (Z.to_nat (extend_input_len r)) (drop (Z.to_nat (start_of reqs i)) out).

(** Request [i]'s row reads its prefix and then its share of the new indices. *)
Definition rows_hold reqs (rows : list SlotReq) (out : list Z) (table : gmap Z Z) : Prop :=
  ∀ i r s, reqs !! i = Some r → rows !! i = Some s →
  ∃ row, slot_of s = Some row ∧ ∀ j, 0 ≤ j < fill_len r →
    table !! (row * max_context_len cfg + j) = (prefix_indices r ++ share reqs out i r) !! Z.to_nat j.

Lemma rows_of_slots (rows : list SlotReq) :
  Forall (λ r, is_Some (slot_of r)) rows → (λ s, default 0 (slot_of s)) <$> rows = omap slot_of rows.
Proof. induction 1 as [|s rows [x Hx] _ IH]; [done|]. csimpl. rewrite Hx, IH. done. Qed.

Lemma batch_rows_proj {A} (f : RowWrite → A) (g : BatchReq → A) reqs (rows : list SlotReq) :
  length rows = length reqs → (∀ r s, f (batch_row r s) = g r) → f <$> zip_with batch_row reqs rows = g <$> reqs.
Proof.
  intros Hlen Hf. revert rows Hlen. induction reqs as [|r reqs IH]; intros [|s rows] Hlen; try done.
  csimpl. rewrite Hf, IH by (simpl in Hlen; lia). done.
Qed.

Lemma batch_rows_slots reqs (rows : list SlotReq) :
  length rows = length reqs → row <$> zip_with batch_row reqs rows = (λ s, default 0 (slot_of s)) <$> rows.
Proof.
  revert rows. induction reqs as [|r reqs IH]; intros [|s rows] Hlen; try done.
  csimpl. by rewrite IH by (simpl in Hlen; lia).
Qed.

Lemma start_bounds reqs i r :
  reqs !! i = Some r → Forall (λ r, 0 ≤ extend_input_len r) reqs →
  0 ≤ start_of reqs i ∧ start_of reqs i + extend_input_len r ≤ Zsum (extend_input_len <$> reqs).
Proof.
  intros Hr He. unfold start_of. rewrite <- (take_drop_middle reqs i r Hr) at 3.
  rewrite fmap_app, Zsum_app, fmap_cons, Zsum_cons.
  assert (∀ l, Forall (λ r, 0 ≤ extend_input_len r) l → 0 ≤ Zsum (extend_input_len <$> l)) as Hp
    by (intros l Hl; by apply Zsum_nonneg, Forall_fmap).
  pose proof (Hp _ (Forall_take _ i _ He)). pose proof (Hp _ (Forall_drop _ (S i) _ He)). lia.
Qed.

Lemma rows_written reqs rows out k :
  length rows = length reqs → Forall (λ r, is_Some (slot_of r)) rows → NoDup (omap slot_of rows) →
  Forall (λ r, 0 ≤ extend_input_len r ∧ fill_len r = prefix_len r + extend_input_len r ∧ fill_len r ≤ max_context_len cfg) reqs →
  Z.of_nat (length out) = Zsum (extend_input_len <$> reqs) →
  ∃ t, write_cache_indices cfg beyond out (zip_with batch_row reqs rows) k =
    (Ok tt, mk_kv (tree k) (pool k) (slots k) t) ∧ rows_hold reqs rows out t.
Proof.
  intros Hlen Hs Hnd Hr Hout. set (ws := zip_with batch_row reqs rows).
  assert (∀ i w, ws !! i = Some w → ∃ r s, reqs !! i = Some r ∧ rows !! i = Some s ∧ w = batch_row r s) as Hws
    by (intros i w (r & s & -> & ? & ?)%lookup_zip_with_Some; eauto).
  assert (Forall row_ok ws) as Hok'.
  { apply Forall_lookup. intros i w (r & s & Er & _ & ->)%Hws. rewrite Forall_lookup in Hr.
    destruct (Hr i r Er) as (? & ? & _). split; simpl; [done|]. unfold row_pre_len, prefix_len in *. simpl. lia. }
  assert (row_extend_len <$> ws = extend_input_len <$> reqs) as Hext by (by apply batch_rows_proj).
  exists (write_rows cfg out 0 ws (req_to_token k)). split.
  - unfold write_cache_indices, on_table. destruct (supports_triton cfg).
    + rewrite write_kernel_rows by (try done; rewrite Hext; lia). done.
    + rewrite write_loop_rows by (try done; rewrite ?Hext; lia). done.
  - intros i r s Er Es. rewrite Forall_lookup in Hs. destruct (Hs i s Es) as [x Hx]. exists x. split; [done|].
    intros j Hj. rewrite Forall_lookup in Hr. destruct (Hr i r Er) as (He & Hf & Hmax).
    assert (ws !! i = Some (batch_row r s)) as Hw by (apply lookup_zip_with_Some; eauto).
    assert (0 + Zsum (row_extend_len <$> take i ws) = start_of reqs i) as Hpt
      by (unfold start_of; rewrite fmap_take, Hext, <- fmap_take; lia).
    pose proof (write_rows_lookup cfg out ws 0 (req_to_token k) i (batch_row r s)) as Hl.
    rewrite Hpt in Hl. simpl in Hl. rewrite Hx in Hl. simpl in Hl. unfold share. rewrite Hl; [done| | |done|].
    + unfold ws. rewrite batch_rows_slots by done. rewrite rows_of_slots; [done|by apply Forall_lookup].
    + intros w pt (i' & Hw')%list_elem_of_lookup. destruct (Hws i' w Hw') as (r' & s' & Er' & _ & ->).
      destruct (Hr i' r' Er') as (? & ? & ?). unfold row_content, prefix_len in *. simpl. rewrite length_app, length_take. lia.
    + unfold row_content. simpl. rewrite length_app, length_take, length_drop. unfold prefix_len in Hf.
      destruct (start_bounds reqs i r Er) as [? ?]; [by apply Forall_lookup; intros ? ? (?&_)%Hr|]. lia.
Qed.

(** What the scheduler promises of the rows: requests that come with a row are chunked or have
    committed tokens, there are rows for the others, no row is shared, no request is longer
    than a row. *)
Record rows_ok k reqs : Prop := {
  ro_reuse : Forall (λ r, is_Some (slot_of r) → 0 < inflight_middle_chunks r ∨ 0 < slot_kv_committed_len r) (slot_req <$> reqs);
  ro_free : (length (filter (λ r, slot_of r = None) (slot_req <$> reqs)) ≤ length (free_slots (slots k)))%nat;
  ro_once : NoDup (free_slots (slots k) ++ omap slot_of (slot_req <$> reqs));
  ro_len : Forall (λ r, fill_len r ≤ max_context_len cfg) reqs;
}.

Lemma joint_frame k hs live sl t :
  joint k hs live → joint (mk_kv (tree k) (pool k) sl t) hs live.
Proof. intros Hj. by split; simpl; try apply Hj. Qed.

(** The indices of a batch, by the allocator for the page size. *)
Lemma batch_outcome reqs k hs live :
  batch_ok k live reqs → joint k hs live →
  outcome k hs live reqs
    ((if (page_size cc =? 1)%nat then alloc_token_slots cfg (extend_num_tokens reqs) false
      else alloc_paged_token_slots_extend cfg uninit beyond (batch_extend <$> reqs) (extend_num_tokens reqs) false) k).
Proof.
  intros Hb Hj. pose proof (ck_same _ Hok) as Hsame. destruct (Nat.eqb_spec (page_size cc) 1) as [H1|H1].
  - apply tokens_outcome; [lia|done|done].
  - apply pages_outcome; [lia|done|done].
Qed.

Lemma slots_granted k reqs :
  rows_ok k reqs →
  ∃ rows sl, alloc_req_slots (slot_req <$> reqs) k = (Ok rows, mk_kv (tree k) (pool k) sl (req_to_token k)) ∧
    length rows = length reqs ∧ Forall (λ r, is_Some (slot_of r)) rows ∧ NoDup (free_slots sl ++ omap slot_of rows).
Proof.
  intros [Hre Hfr Hnd _]. destruct (slots_alloc_rows (slot_req <$> reqs) (slots k) Hre) as (o & sl & E & Ho).
  assert (on_slots (slots_alloc (slot_req <$> reqs)) k = (Ok o, mk_kv (tree k) (pool k) sl (req_to_token k))) as Eo
    by (unfold on_slots; by rewrite E).
  unfold alloc_req_slots. rewrite (bind_Ok _ _ _ _ _ Eo). destruct o as [rows|]; [|lia].
  destruct Ho as (Hs & H2 & Hp). exists rows, sl. split_and!; [done| |done|by rewrite Hp].
  apply Forall2_length in H2. by rewrite length_fmap in H2.
Qed.

Lemma extend_outcome reqs k hs live :
  batch_ok k live reqs → rows_ok k reqs → joint k hs live →
  (new_pages reqs * ps ≤ room k ∧ ∃ out rows k' (fr pages : list Z),
     alloc_for_extend cfg uninit beyond reqs k = (Ok (out, rows), k') ∧ allocated (tree k) hs hs live reqs fr pages out k' ∧
     rows_hold reqs rows out (req_to_token k') ∧ NoDup (free_slots (slots k') ++ omap slot_of rows)) ∨
  (room k < new_pages reqs * ps ∧ ∃ k', alloc_for_extend cfg uninit beyond reqs k = (Raise RuntimeError, k')).
Proof.
  intros Hb Hro Hj. destruct (slots_granted k reqs Hro) as (rows & sl & Es & Hlen & Hs & Hnd).
  set (k1 := mk_kv (tree k) (pool k) sl (req_to_token k)) in *.
  assert (batch_ok k1 live reqs) as Hb1 by (destruct Hb; by split).
  unfold alloc_for_extend. rewrite (bind_Ok _ _ _ _ _ Es).
  destruct (batch_outcome reqs k1 hs live Hb1 (joint_frame _ _ _ _ _ Hj))
    as [(Hroom & out & k2 & fr & pages & E & Hal & Hsl & Ht)|(Hroom & k2 & E)].
  - left. split; [exact Hroom|]. rewrite (bind_Ok _ _ _ _ _ E). cbn [fst].
    destruct (rows_written reqs rows out k2) as (t & Et & Hrows); try done.
    + by apply NoDup_app in Hnd as (_&_&?).
    + pose proof (bo_lens _ _ _ Hb) as H1. pose proof (ro_len _ _ Hro) as H2. rewrite !Forall_lookup in *.
      intros i r Hr. destruct (H1 i r Hr) as [? ?]. split_and!; [done|done|by apply (H2 i)].
    + rewrite (al_length _ _ _ _ _ _ _ _ _ Hal). unfold extend_num_tokens. f_equal. apply list_fmap_ext. intros i r Hr.
      pose proof (bo_lens _ _ _ Hb) as H1. rewrite Forall_lookup in H1. destruct (H1 i r Hr). lia.
    + rewrite (bind_Ok _ _ _ _ _ Et). eexists out, rows, _, fr, pages. split; [done|]. split; [|split; [done|cbn [slots]; by rewrite Hsl]].
      destruct Hal. split; try done. by apply joint_frame.
  - right. split; [exact Hroom|]. exists k2. unfold mbind, M_bind. by rewrite E.
Qed.
End Extend.

(** ** The beginning *)

Definition init_pool (pc : PoolConfig) : Pool := if pool_page_size pc =? 1 then init_token_pool pc else init_paged_pool pc.
Definition init_kv (cfg : KvConfig) (ticks : nat → Z) (rows : Z) : Kv :=
  mk_kv (init_cache ticks) (init_pool (pool_cfg cfg)) (init_slots rows) ∅.

Lemma joint_init cfg ticks rows (Hpo : pool_ok (pool_cfg cfg)) :
  joint cfg (KvAllocator0:=kv_allocator cfg Hpo) (init_kv cfg ticks rows) [] ∅.
Proof.
  assert (indices (nodes (init_cache ticks)) = ∅) as Hi.
  { unfold init_cache, reset. simpl. unfold indices. rewrite map_fold_singleton. simpl. multiset_solver. }
  split; cbn [tree pool init_kv].
  - apply init_cache_inv.
  - change (pool_inv (pool_cfg cfg) (init_pool (pool_cfg cfg)) ∅). unfold pool_inv, init_pool. destruct (_ =? 1); [apply token_init_inv|apply pool_init_inv].
  - unfold init_pool. by destruct (_ =? 1).
  - intros n nd Hn. unfold init_cache, reset in Hn. simpl in Hn. apply lookup_singleton_Some in Hn as [_ <-]. by exists [].
  - intros x. rewrite Hi. multiset_solver.
  - intros x. rewrite Hi. multiset_solver.
Qed.

(** ** Properties *)

(** C22 - The kernel and the loop that write a batch into the table of token locations leave the
    same table, in which every request's row (rows are distinct and long enough) reads its
    prefix followed by its share of the new indices; the three ways to look up the places of
    last tokens give the same answer. *)
Theorem table_written cfg uninit beyond out ws m :
  Forall row_ok ws → Zsum (row_extend_len <$> ws) ≤ length out → NoDup (row <$> ws) →
  Forall (λ w, row_seq_len w ≤ max_context_len cfg) ws →
  write_loop cfg out 0 ws m = Ok (write_req_to_token_pool_triton cfg beyond out ws m) ∧
  (∀ i w j, ws !! i = Some w → 0 ≤ j < row_seq_len w →
     write_req_to_token_pool_triton cfg beyond out ws m !! (row w * max_context_len cfg + j) =
     (prefix_tensor w ++ take (Z.to_nat (row_extend_len w)) (drop (Z.to_nat (Zsum (row_extend_len <$> take i ws))) out)) !! Z.to_nat j) ∧
  (∀ backend is_hip table rows lens, length rows = length lens →
     get_last_loc cfg uninit beyond backend is_hip table rows lens = get_last_loc_torch cfg beyond table rows lens).
Proof.
  intros Hok Hlen Hnd Hmax. assert (∀ l, Forall row_ok l → 0 ≤ Zsum (row_extend_len <$> l)) as Hp
    by (intros l Hl; apply Zsum_nonneg, Forall_fmap; eapply Forall_impl; [exact Hl|by intros ? [? _]]).
  rewrite write_kernel_rows by done. split; [by apply write_loop_rows|]. split.
  - intros i w j Hw Hj. rewrite !Forall_lookup in *. destruct (Hok i w Hw) as [He Hs].
    rewrite (write_rows_lookup cfg out ws 0 m i w Hnd); try done.
    + intros w' pt (i' & Hw')%list_elem_of_lookup. destruct (Hok i' w' Hw'). specialize (Hmax i' w' Hw'). simpl in Hmax.
      unfold row_content, row_pre_len in *. rewrite length_app, length_take. lia.
    + unfold row_content. rewrite length_app, length_take, length_drop. unfold row_pre_len in Hs.
      rewrite <- (take_drop_middle ws i w Hw), fmap_app, Zsum_app, fmap_cons, Zsum_cons in Hlen.
      assert (Forall row_ok ws) as Ha by (by apply Forall_lookup).
      pose proof (Hp _ (Forall_take _ i _ Ha)). pose proof (Hp _ (Forall_drop _ (S i) _ Ha)). lia.
  - intros backend is_hip table rows lens Hl. unfold get_last_loc. destruct (is_hip && _); [by apply last_loc_blocks|].
    destruct (negb _); [by apply last_loc_blocks|done].
Qed.

Definition demo_kv : KvConfig := mk_kv_config (mk_cache_config false 2 false false LRU) (mk_pool_config 8 2 false false) false 4 true.
Definition demo_writes : list RowWrite := [mk_row_write 2 [7] 3 2; mk_row_write 1 [] 1 1].

Lemma table_written_witness :
  write_loop demo_kv [4; 5; 6] 0 demo_writes ∅ = Ok (write_req_to_token_pool_triton demo_kv (λ _, 0) [4; 5; 6] demo_writes ∅) ∧
  get_last_loc demo_kv (λ _, 0) (λ _, 0) "fa3" false {[9 := 4]} [2; 1] [2; 0] = [4; -1].
Proof.
  destruct (table_written demo_kv (λ _, 0) (λ _, 0) [4; 5; 6] demo_writes ∅) as (H1 & _ & H3).
  - repeat constructor; simpl; lia.
  - done.
  - by apply (bool_decide_unpack _).
  - repeat constructor; simpl; lia.
  - split; [exact H1|]. rewrite (H3 "fa3" false {[9 := 4]} [2; 1] [2; 0] eq_refl). reflexivity.
Defined.

(** C23 - Allocation for an extend batch (lengths add up, the pages that requests go on to fill are
    live and not the tree's, there are rows) succeeds exactly when its new pages fit into what
    is free or evictable; otherwise it raises [RuntimeError]. When it succeeds, the new pages
    are distinct, as many as the lengths ask for and none of them was live. Each new index is
    the place of its token: behind the last token of its request in the request's old page,
    and from there on in the request's share of the new pages; no index comes twice unless
    two requests fill the same old page. For them the tree gave up [fr] and nothing else, and
    nothing on a path that is locked. Tree and pool stay in step, and each request's row reads
    its prefix followed by its new indices, in a row nobody else has. *)
Theorem extend_allocates cfg uninit beyond (Hpo : pool_ok (pool_cfg cfg)) reqs k hs live :
  config_ok cfg → batch_ok cfg k live reqs → rows_ok cfg k reqs → joint cfg (KvAllocator0:=kv_allocator cfg Hpo) k hs live →
  (new_pages cfg reqs * pool_page_size (pool_cfg cfg) ≤ room cfg k ∧ ∃ out rows k' (fr pages : list Z),
     alloc_for_extend cfg uninit beyond reqs k = (Ok (out, rows), k') ∧
     allocated cfg beyond Hpo (tree k) hs hs live reqs fr pages out k' ∧
     rows_hold cfg reqs rows out (req_to_token k') ∧ NoDup (free_slots (slots k') ++ omap slot_of rows)) ∨
  (room cfg k < new_pages cfg reqs * pool_page_size (pool_cfg cfg) ∧
   ∃ k', alloc_for_extend cfg uninit beyond reqs k = (Raise RuntimeError, k')).
Proof. intros Hok Hb Hr Hj. by apply extend_outcome. Qed.

Definition demo_req : BatchReq := mk_batch_req (mk_slot_req None 0 0) [] 3 3.
Lemma demo_pool_ok : pool_ok (pool_cfg demo_kv).
Proof. by split. Qed.

Lemma extend_allocates_witness :
  ∃ out rows k' fr pages, alloc_for_extend demo_kv (λ _, 0) (λ _, 0) [demo_req] (init_kv demo_kv (λ _, 0) 2) = (Ok (out, rows), k') ∧
    allocated demo_kv (λ _, 0) demo_pool_ok (init_cache (λ _, 0)) [] [] ∅ [demo_req] fr pages out k' ∧ out = [2; 3; 4].
Proof.
  destruct (extend_allocates demo_kv (λ _, 0) (λ _, 0) demo_pool_ok [demo_req] (init_kv demo_kv (λ _, 0) 2) [] ∅)
    as [(_ & out & rows & k' & fr & pages & E & Hal & _)|[H _]].
  - by split.
  - split; [repeat constructor; simpl; lia|repeat constructor|]. intros r q ->%list_elem_of_singleton. discriminate.
  - split; [constructor; [intros []; discriminate|constructor]|simpl; lia|by apply (bool_decide_unpack _)|repeat constructor; simpl; lia].
  - apply joint_init.
  - assert (match (alloc_for_extend demo_kv (λ _, 0) (λ _, 0) [demo_req] (init_kv demo_kv (λ _, 0) 2)).1 with
            | Ok (out, _) => out | Raise _ => [] end = [2; 3; 4]) as H by (vm_compute; reflexivity).
    rewrite E in H. exists out, rows, k', fr, pages. split; [exact E|]. split; [exact Hal|exact H].
  - exfalso. vm_compute in H. discriminate.
Defined.
