(* ===== verification/SchedulePolicy.v ===== *)
(** * The order of the waiting queue

    Models [SchedulePolicy] of [srt/managers/schedule_policy.py]: the policies that order the
    waiting queue before a prefill batch is taken from it, with the prefix lookups of the
    cache-aware ones and the simulated radix tree that finds prefixes shared inside the queue;
    and the fields of a request that ordering and admission read. [list.sort] is a stable
    sort by a key. The order in which a node's children are listed is a parameter (the store
    of nodes does not keep the order of insertion), as are the draws of [random]. *)

From Stdlib Require Import QArith.
From S2P Require Import Prelude RadixKey RadixCache RadixReq KvPool KvAlloc.
Local Open Scope Z_scope.

Definition Qlt_bool (x y : Q) : bool := negb (Qle_bool y x).

(** ** The requests *)

(** A request of the queue: what the prefix lookup knows of it, and what admission reads and
    writes besides. [object] tells requests apart. *)
Record AReq := mk_areq {
  object : nat;
  req : Req;
  req_extend_input_len : Z;
  extend_logprob_start_len : Z;
  max_new_tokens : Z;
  ignore_eos : bool;
  host_hit_length : Z;
  req_slot : SlotReq;
  rid : string;
  wait_queue_entry_time : Q;
  routing_key : option string;
}.

Definition set_req f (q : AReq) : AReq :=
  mk_areq (object q) (f (req q)) (req_extend_input_len q) (extend_logprob_start_len q) (max_new_tokens q) (ignore_eos q)
    (host_hit_length q) (req_slot q) (rid q) (wait_queue_entry_time q) (routing_key q).
Definition set_req_slot f (q : AReq) : AReq :=
  mk_areq (object q) (req q) (req_extend_input_len q) (extend_logprob_start_len q) (max_new_tokens q) (ignore_eos q)
    (host_hit_length q) (f (req_slot q)) (rid q) (wait_queue_entry_time q) (routing_key q).
Definition set_host_hit_length n (q : AReq) : AReq :=
  mk_areq (object q) (req q) (req_extend_input_len q) (extend_logprob_start_len q) (max_new_tokens q) (ignore_eos q)
    n (req_slot q) (rid q) (wait_queue_entry_time q) (routing_key q).
(** The assignment of the field alone, which [_add_dllm_req] makes. *)
Definition put_extend_input_len (n : Z) (q : AReq) : AReq :=
  mk_areq (object q) (req q) n (extend_logprob_start_len q) (max_new_tokens q) (ignore_eos q) (host_hit_length q) (req_slot q)
    (rid q) (wait_queue_entry_time q) (routing_key q).

Definition prefix_length (q : AReq) : Z := length (RadixReq.prefix_indices (req q)).
Definition fill_length (q : AReq) : Z := length (fill_ids (req q)).

Definition set_extend_input_len (n : Z) (q : AReq) : AReq :=
  let start := if logprob_start_len (req q) =? -1 then fill_length q else Z.max (logprob_start_len (req q)) (prefix_length q) in
  mk_areq (object q) (req q) n (Z.min (start - prefix_length q) n) (max_new_tokens q) (ignore_eos q) (host_hit_length q) (req_slot q)
    (rid q) (wait_queue_entry_time q) (routing_key q).

(** [fill_ids[:n]]; a negative bound counts from the end. *)
Definition cut_fill_ids (n : Z) : AReq → AReq :=
  set_req (λ r, set_fill_ids (take (Z.to_nat (if n <? 0 then Z.max 0 (length (fill_ids r) + n) else n)) (fill_ids r)) r).

Definition batch_req (q : AReq) : BatchReq :=
  mk_batch_req (req_slot q) (RadixReq.prefix_indices (req q)) (fill_length q) (req_extend_input_len q).

(** ** Sorting *)

Section Sort.
Context {A : Type} (lt : A → A → bool).

Fixpoint insert_stable (x : A) (l : list A) : list A :=
  match l with
  | [] => [x]
  | y :: l' => if lt y x then y :: insert_stable x l' else x :: l
  end.
Definition stable_sort (l : list A) : list A := foldr insert_stable [] l.
End Sort.

(** [l.sort(key=key)], where computing a key may raise. *)
Definition sort_by_key {A K} (key : A → res K) (lt : K → K → bool) (l : list A) : res (list A) :=
  ks ← mapM key l; Ok (snd <$> stable_sort (λ a b, lt a.1 b.1) (zip ks l)).

Definition lex_lt {K L} (ltK : K → K → bool) (eqK : K → K → bool) (ltL : L → L → bool) (a b : K * L) : bool :=
  ltK a.1 b.1 || (eqK a.1 b.1 && ltL a.2 b.2).

(** [random.shuffle]: from the end, each element changes places with a drawn one at or before it. *)
Definition swap {A} (i j : nat) (l : list A) : list A :=
  match l !! i, l !! j with
  | Some a, Some b => <[i := b]> (<[j := a]> l)
  | _, _ => l
  end.
Definition shuffle {A} (draw : nat → nat) (l : list A) : list A :=
  foldl (λ l i, swap i (draw i mod S i) l) l (reverse (seq 1 (length l - 1))).

(** ** Policies *)

Inductive Policy := LPM | DFS_WEIGHT | FCFS | LOF | RANDOM | ROUTING_KEY.
#[global] Instance Policy_eq_dec : EqDecision Policy.
Proof. solve_decision. Defined.

Definition is_cache_aware (p : Policy) : bool := bool_decide (p = LPM) || bool_decide (p = DFS_WEIGHT).

Definition policy_of_name (s : string) : option Policy :=
  dget s [("lpm", LPM); ("dfs-weight", DFS_WEIGHT); ("fcfs", FCFS); ("lof", LOF); ("random", RANDOM);
          ("routing-key", ROUTING_KEY)]%string.

(** [disabled]: the tree cache has no prefix matching. *)
Definition validate_and_adjust_policy (policy : string) (disabled : bool) : res Policy :=
  match policy_of_name policy with
  | Some p => Ok (if is_cache_aware p && disabled then FCFS else p)
  | None => Raise ValueError
  end.

Record PolicyConfig := mk_policy_config {
  policy : Policy;
  enable_priority_scheduling : bool;
  priority_sign : Z;
  CHECK_THRESHOLD : Z;
  DEPRIORITIZE_THRESHOLD : Z;
}.

Definition determine_active_policy (pcfg : PolicyConfig) (queue : list AReq) : Policy :=
  if bool_decide (policy pcfg = LPM) && (128 <? length queue)%nat then FCFS else policy pcfg.

(** *** Orders that do not look at the cache *)

(** [x.priority * priority_sign] *)
Definition signed_priority (pcfg : PolicyConfig) (q : AReq) : res Z :=
  match req_priority (req q) with Some p => Ok (p * priority_sign pcfg) | None => Raise TypeError end.

Definition sort_by_priority_and_fcfs (pcfg : PolicyConfig) : list AReq → res (list AReq) :=
  sort_by_key (λ q, p ← signed_priority pcfg q; Ok (p, wait_queue_entry_time q)) (lex_lt Z.ltb Z.eqb Qlt_bool).

Definition sort_by_longest_output (pcfg : PolicyConfig) (l : list AReq) : res (list AReq) :=
  if enable_priority_scheduling pcfg
  then sort_by_key (λ q, p ← signed_priority pcfg q; Ok (p, - max_new_tokens q)) (lex_lt Z.ltb Z.eqb Z.ltb) l
  else sort_by_key (λ q, Ok (- max_new_tokens q)) Z.ltb l.

Definition truthy (k : option string) : bool :=
  match k with Some s => negb (bool_decide (s = ""%string)) | None => false end.

Definition routing_key_count (running : list AReq) (k : option string) : Z :=
  length (filter (λ r, truthy (routing_key r) ∧ routing_key r = k) running).

Definition routing_sort_key (running : list AReq) (q : AReq) : Z * (Z * string) :=
  let k := routing_key q in
  let count := routing_key_count running k in
  if truthy k && (0 <? count) then (0, (- count, default ""%string k)) else (1, (0, default ""%string k)).

Definition sort_by_routing_key (running : list AReq) (l : list AReq) : res (list AReq) :=
  if forallb (λ r, negb (truthy (routing_key r))) running then Ok l
  else sort_by_key (λ q, Ok (routing_sort_key running q)) (lex_lt Z.ltb Z.eqb (lex_lt Z.ltb Z.eqb String.ltb)) l.

(** *** Longest prefix *)

(** Deprioritized requests go last ([float("inf")]). *)
Definition sort_by_longest_prefix (deprioritized : list string) : list AReq → res (list AReq) :=
  sort_by_key (λ q, Ok (if bool_decide (rid q ∈ deprioritized) then None else Some (- prefix_length q)))
    (λ a b, match a, b with Some x, Some y => x <? y | Some _, None => true | None, _ => false end).

(** *** Depth first, heavier children first *)

Section Dfs.
Context (child_list : TreeNode → list nat) (H : gmap nat TreeNode).

Definition weight (w : gmap nat Z) (n : nat) : Z := default 0 (w !! n).

Fixpoint calc_weight (fuel : nat) (node : nat) (w : gmap nat Z) : res (gmap nat Z) :=
  match fuel with
  | O => Raise RuntimeError
  | S fuel =>
      match H !! node with
      | None => Raise AttributeError
      | Some nd =>
          foldl (λ rw c, w ← rw; w ← calc_weight fuel c w; Ok (<[node := weight w node + weight w c]> w)) (Ok w) (child_list nd)
      end
  end.

Fixpoint get_dfs_priority (fuel : nat) (node : nat) (w : gmap nat Z) (reqs_of : nat → list AReq) (q : list AReq) : res (list AReq) :=
  match fuel with
  | O => Raise RuntimeError
  | S fuel =>
      match H !! node with
      | None => Raise AttributeError
      | Some nd =>
          q ← foldl (λ rq c, q ← rq; get_dfs_priority fuel c w reqs_of q) (Ok q)
                (stable_sort (λ a b, weight w b <? weight w a) (child_list nd));
          Ok (q ++ reqs_of node)
      end
  end.

(** The requests of a node, in the order of the queue. *)
Definition last_node_to_reqs (queue : list AReq) (n : nat) : list AReq := filter (λ q, last_node (req q) = Some n) queue.

Definition sort_by_dfs_weight (root : nat) (queue : list AReq) : res (list AReq) :=
  let w := foldl (λ w q, match last_node (req q) with Some n => <[n := weight w n + 1]> w | None => w end) ∅ queue in
  w ← calc_weight (S (size H)) root w;
  get_dfs_priority (S (size H)) root w (last_node_to_reqs queue) [].
End Dfs.

(** ** Ordering the queue *)

(** The memory the scheduler works on, and the tree over the queue itself. *)
Record Order := mk_order { real : Kv; waiting_queue_radix_tree : Cache }.

Definition on_real {A} (m : M Kv A) : M Order A := λ s, let '(r, k) := m (real s) in (r, mk_order k (waiting_queue_radix_tree s)).
Definition on_simulated {A} (m : M Cache A) : M Order A :=
  λ s, let '(r, c) := m (waiting_queue_radix_tree s) in (r, mk_order (real s) c).

(** [RadixCache.create_simulated()] *)
Definition simulated_config : CacheConfig := mk_cache_config false 1 false false LRU.

Section Policy.
Context (cfg : KvConfig) (rcfg : ReqConfig) (ticks sim_ticks : nat → Z).
Context (child_list : TreeNode → list nat) (draw : nat → nat) (pcfg : PolicyConfig).
Local Abbreviation cc := (cache_cfg cfg).

Definition queue_key (q : AReq) : RadixKey :=
  mk_key (origin_input_ids (req q) ++ output_ids (req q)) (req_extra_key (req q)) false.

Definition match_prefix_for_req (q : AReq) : M Kv AReq :=
  let put indices node := set_host_hit_length 0 (set_req (λ r, set_prefix (cache_protected_len r) node indices r) q) in
  if is_chunk_cache cfg then mret (put [] None)
  else
    mr ← on_tree cfg (match_prefix cc ticks (queue_key q));
    root ← gets (λ k, root_node (tree k));
    let '(indices, node) := if radix_force_miss rcfg then ([], root) else mr in
    mret (put indices (Some node)).

(** Whether a request shares a long prefix with one before it; if not, it is entered. *)
Definition in_batch_match (q : AReq) : M Cache bool :=
  mr ← match_prefix simulated_config sim_ticks (queue_key q);
  let found := if radix_force_miss rcfg then 0 else Z.of_nat (length mr.1) in
  if DEPRIORITIZE_THRESHOLD pcfg <=? found then mret true
  else
    insert simulated_config sim_ticks (queue_key q) (Some (replicate (length (token_ids (queue_key q))) 0)) None false ≫= λ _,
    mret false.

Fixpoint prefix_matches_loop (queue : list AReq) : M Order (list AReq * list string) :=
  match queue with
  | [] => mret ([], [])
  | q :: queue =>
      q ← on_real (match_prefix_for_req q);
      shared ← (if prefix_length q <=? CHECK_THRESHOLD pcfg then on_simulated (in_batch_match q) else mret false);
      rest ← prefix_matches_loop queue;
      mret (q :: rest.1, if (shared : bool) then rid q :: rest.2 else rest.2)
  end.

Definition compute_prefix_matches (queue : list AReq) : M Order (list AReq * list string) :=
  on_simulated (reset sim_ticks) ≫= λ _, prefix_matches_loop queue.

(** [calc_priority]: the queue in its new order. *)
Definition calc_priority (running : option (list AReq)) (queue : list AReq) : M Order (list AReq) :=
  if bool_decide (policy pcfg = FCFS) then
    if enable_priority_scheduling pcfg then lift_res (sort_by_priority_and_fcfs pcfg queue) else mret queue
  else
    match determine_active_policy pcfg queue with
    | LPM =>
        m ← compute_prefix_matches queue;
        lift_res (sort_by_longest_prefix m.2 m.1)
    | DFS_WEIGHT =>
        m ← compute_prefix_matches queue;
        t ← gets (λ s, tree (real s));
        lift_res (sort_by_dfs_weight child_list (nodes t) (root_node t) m.1)
    | FCFS => mret queue
    | LOF => lift_res (sort_by_longest_output pcfg queue)
    | RANDOM => mret (shuffle draw queue)
    | ROUTING_KEY => lift_res (from_option (λ rs, sort_by_routing_key rs queue) (Ok queue) running)
    end.
End Policy.
