(* ===== verification/SchedulePolicyProps.v ===== *)
(** * Ordering loses no request

    Sorting and shuffling permute; the depth-first order visits every node of the tree once;
    so every policy gives the queue back in another order, and leaves the memory in step. *)

From Stdlib Require Import QArith.
From stdpp Require Import gmultiset sorting.
From S2P Require Import Prelude RadixKey RadixCache RadixFacts RadixInv RadixOps RadixLocks RadixApi RadixProps.
From S2P Require Import RadixReq RadixReqFacts KvPool KvKernelFacts KvPoolProps KvAlloc KvAllocFacts KvAllocProps SchedulePolicy.
Local Open Scope Z_scope.

(** ** Sorting *)

Section Sort.
Context {A : Type} (lt : A → A → bool).

Lemma insert_stable_perm x l : insert_stable lt x l ≡ₚ x :: l.
Proof. induction l as [|y l IH]; [done|]. simpl. destruct (lt y x); [|done]. rewrite IH. constructor. Qed.

Lemma stable_sort_perm l : stable_sort lt l ≡ₚ l.
Proof. induction l as [|x l IH]; [done|]. simpl. by rewrite insert_stable_perm, IH. Qed.

(** [lt] orders up to ties. *)
Class WeakOrder : Prop := {
  lt_asym : ∀ x y, lt x y = true → lt y x = false;
  lt_ntrans : ∀ x y z, lt y x = false → lt z y = false → lt z x = false;
}.

(** Nothing that comes later is smaller. *)
Lemma stable_sort_sorted `{!WeakOrder} l : StronglySorted (λ x y, lt y x = false) (stable_sort lt l).
Proof.
  induction l as [|x l IH]; [constructor|]. simpl. generalize dependent (stable_sort lt l). intros s Hs.
  induction Hs as [|y s Hs IHs Hy]; [repeat constructor|]. simpl. destruct (lt y x) eqn:E.
  - constructor; [done|]. rewrite insert_stable_perm. constructor; [|done]. by apply lt_asym.
  - constructor; [by constructor|]. constructor; [done|]. eapply Forall_impl; [exact Hy|]. intros z Hz. by apply (lt_ntrans x y z).
Qed.
End Sort.

#[export] Instance Zltb_order : WeakOrder Z.ltb.
Proof. split; intros *; lia. Qed.

#[export] Instance Qltb_order : WeakOrder Qlt_bool.
Proof.
  split; unfold Qlt_bool; intros *; rewrite ?negb_true_iff, ?negb_false_iff, ?Qle_bool_iff.
  - intros Hn. apply Qnot_lt_le. intros Hl%Qlt_le_weak. by apply Qle_bool_iff in Hl; rewrite Hl in Hn.
  - intros. by eapply Qle_trans.
Qed.

(** The order of strings, by the codes of their characters. *)
Lemma string_ltb_cons a x b y :
  let code c := Z.of_N (Ascii.N_of_ascii c) in
  String.ltb (String a x) (String b y) = (code a <? code b) || ((code a =? code b) && String.ltb x y).
Proof.
  unfold String.ltb. simpl. unfold Ascii.compare.
  destruct (N.compare_spec (Ascii.N_of_ascii a) (Ascii.N_of_ascii b)) as [E|E|E].
  - by rewrite E, Z.ltb_irrefl, Z.eqb_refl.
  - symmetry. apply orb_true_intro. left. lia.
  - rewrite (proj2 (Z.ltb_ge _ _)), (proj2 (Z.eqb_neq _ _)) by lia. done.
Qed.

#[export] Instance string_ltb_order : WeakOrder String.ltb.
Proof.
  split; intros x; induction x as [|a x IH].
  - by intros [|b y].
  - intros [|b y]; [done|]. rewrite !string_ltb_cons. pose proof (IH y). destruct (String.ltb x y), (String.ltb y x); intuition lia.
  - by intros [|b y] [|c z].
  - intros [|b y] [|c z]; try done. rewrite !string_ltb_cons. pose proof (IH y z).
    destruct (String.ltb y x), (String.ltb z y), (String.ltb z x); intuition lia.
Qed.

#[export] Instance lex_order {K L} (ltK eqK : K → K → bool) (ltL : L → L → bool) `{!WeakOrder ltK, !WeakOrder ltL}
  (Heq : ∀ x y, eqK x y = negb (ltK x y) && negb (ltK y x)) : WeakOrder (lex_lt ltK eqK ltL).
Proof.
  unfold lex_lt. split.
  - intros [x1 x2] [y1 y2]. simpl. rewrite !Heq. pose proof (lt_asym ltK x1 y1). pose proof (lt_asym ltL x2 y2).
    destruct (ltK x1 y1), (ltK y1 x1), (ltL x2 y2), (ltL y2 x2); naive_solver.
  - intros [x1 x2] [y1 y2] [z1 z2]. simpl. rewrite !Heq.
    pose proof (lt_ntrans ltK x1 y1 z1). pose proof (lt_ntrans ltL x2 y2 z2). pose proof (lt_ntrans ltK y1 z1 x1). pose proof (lt_ntrans ltK z1 x1 y1).
    destruct (ltK x1 y1), (ltK y1 x1), (ltK y1 z1), (ltK z1 y1), (ltK x1 z1), (ltK z1 x1), (ltL y2 x2), (ltL z2 y2), (ltL z2 x2); naive_solver.
Qed.

Lemma Zeqb_ltb x y : (x =? y) = negb (x <? y) && negb (y <? x).
Proof. lia. Qed.

(** Sorting by a key that can be computed permutes; elements come in the order of their keys. *)
Lemma sort_by_key_ok {A K} (key : A → res K) (lt : K → K → bool) (R : A → A → Prop) l :
  WeakOrder lt → Forall (λ x, ∃ k, key x = Ok k) l →
  (∀ x y kx ky, key x = Ok kx → key y = Ok ky → lt ky kx = false → R x y) →
  ∃ l', sort_by_key key lt l = Ok l' ∧ l' ≡ₚ l ∧ StronglySorted R l'.
Proof.
  intros Hlt Hl HR. destruct (mapM_Forall2 key (λ x k, key x = Ok k) l) as (ks & Eks & H2).
  { intros x Hx. rewrite Forall_forall in Hl. destruct (Hl x Hx) as [k Hk]. by exists k. }
  unfold sort_by_key. rewrite Eks. eexists. split; [reflexivity|]. set (z := zip ks l).
  assert (snd <$> z = l) as Hz by (apply snd_zip; apply Forall2_length in H2; lia).
  split; [by rewrite stable_sort_perm, Hz|].
  assert (Forall (λ p, key p.2 = Ok p.1) (stable_sort (λ a b, lt a.1 b.1) z)) as Hkeys.
  { rewrite stable_sort_perm. unfold z. clear -H2. induction H2; [constructor|]. simpl. by constructor. }
  assert (WeakOrder (λ a b : K * A, lt a.1 b.1)) as Hlt'.
  { split; intros *; [apply lt_asym|apply lt_ntrans]; done. }
  pose proof (stable_sort_sorted (λ a b : K * A, lt a.1 b.1) z) as Hs.
  induction Hs as [|p s Hs IH Hp]; [constructor|]. apply Forall_cons in Hkeys as [Hk Hkeys]. simpl. constructor; [by apply IH|].
  apply Forall_fmap. rewrite Forall_forall in Hp, Hkeys |- *. intros p' Hp'. apply (HR _ _ p.1 p'.1); [done|by apply Hkeys|by apply Hp].
Qed.

Lemma swap_perm {A} i j (l : list A) : swap i j l ≡ₚ l.
Proof.
  unfold swap. destruct (l !! i) as [a|] eqn:Ei; [|done]. destruct (l !! j) as [b|] eqn:Ej; [|done].
  by apply Permutation_insert_swap.
Qed.

Lemma shuffle_perm {A} draw (l : list A) : shuffle draw l ≡ₚ l.
Proof.
  unfold shuffle. generalize (reverse (seq 1 (length l - 1))). intros js. revert l. induction js as [|i js IH]; intros l; [done|].
  simpl. by rewrite IH, swap_perm.
Qed.

(** Grouping by a function and listing the groups permutes. *)
Lemma groups_perm {A B} `{EqDecision B} (f : A → option B) (vs : list B) (l : list A) :
  NoDup vs → Forall (λ x, ∃ n, f x = Some n ∧ n ∈ vs) l → vs ≫= (λ n, filter (λ x, f x = Some n) l) ≡ₚ l.
Proof.
  intros Hvs Hl. induction Hl as [|x l (n & En & Hn) _ IH].
  - clear Hvs. induction vs as [|n vs IH]; [done|]. rewrite bind_cons, IH. done.
  - apply list_elem_of_split in Hn as (v1 & v2 & ->). apply NoDup_app in Hvs as (_ & Hd & Hnd). apply NoDup_cons in Hnd as [Hn2 _].
    assert (n ∉ v1) as Hn1 by (intros Hn1; apply (Hd n Hn1); by left).
    assert (∀ vs, n ∉ vs → (vs ≫= λ m, filter (λ y, f y = Some m) (x :: l)) = vs ≫= λ m, filter (λ y, f y = Some m) l) as Hskip.
    { intros vs Hvs. induction vs as [|m vs IHv]; [done|]. apply not_elem_of_cons in Hvs as [Hm Hvs].
      rewrite !bind_cons, IHv by done. rewrite filter_cons_False by congruence. done. }
    rewrite bind_app, bind_cons, !Hskip, filter_cons_True by done. rewrite bind_app, bind_cons in IH.
    rewrite <- app_comm_cons, <- Permutation_middle. by constructor.
Qed.

(** ** Depth first *)

Section Dfs.
Context (ps : nat) (bg : bool) (r : nat) (H : gmap nat TreeNode) (Ht : RadixFacts.tree ps bg r H).
Context (child_list : TreeNode → list nat) (Hlist : ∀ nd, child_list nd ≡ₚ (map_to_list (children nd)).*2).
Local Abbreviation chain := (chain r H).
Implicit Types (n c m p : nat) (w : gmap nat Z).

Lemma child_list_spec nd c : c ∈ child_list nd ↔ ∃ ck, children nd !! ck = Some c.
Proof.
  rewrite Hlist, list_elem_of_fmap. split.
  - intros ([ck c'] & -> & Hin%elem_of_map_to_list). eauto.
  - intros [ck Hck]. exists (ck, c). split; [done|]. by apply elem_of_map_to_list.
Qed.

Lemma child_of n nd c : H !! n = Some nd → c ∈ child_list nd → c ≠ r ∧ ∃ cd, H !! c = Some cd ∧ parent cd = Some n.
Proof.
  intros En [ck Hck]%child_list_spec. destruct (t_down _ _ _ _ Ht n nd ck c En Hck) as (Hr & cd & Ec & Hp & _). eauto.
Qed.

Lemma child_list_nodup n nd : H !! n = Some nd → NoDup (child_list nd).
Proof.
  intros En. rewrite Hlist. apply NoDup_fmap_2_strong; [|apply NoDup_map_to_list].
  intros [k1 c1] [k2 c2] H1%elem_of_map_to_list H2%elem_of_map_to_list E. simpl in E. subst c2.
  destruct (t_down _ _ _ _ Ht n nd k1 c1 En H1) as (_ & cd1 & E1 & _ & K1).
  destruct (t_down _ _ _ _ Ht n nd k2 c1 En H2) as (_ & cd2 & E2 & _ & K2). simplify_eq. congruence.
Qed.

(** [m] is [n] or below it. *)
Definition below n m : Prop := ∃ l, chain m l ∧ n ∈ l ++ [r].

Lemma chain_below c n l cd : H !! c = Some cd → c ≠ r → parent cd = Some n → chain n l → chain c (c :: l).
Proof. intros. by eapply chain_up. Qed.

Lemma below_self n l : chain n l → below n n.
Proof. intros Hc. exists l. split; [done|]. apply elem_of_app. destruct Hc; [right|left]; by left. Qed.

Lemma below_child n nd m : H !! n = Some nd → (below n m ↔ m = n ∨ ∃ c, c ∈ child_list nd ∧ below c m).
Proof.
  intros En. split.
  - intros (l & Hc & Hn). induction Hc as [|m md p l Hm Em Hp Hc IH].
    { apply list_elem_of_singleton in Hn. by left. }
    apply elem_of_cons in Hn as [->|Hn]; [by left|right]. destruct (IH Hn) as [-> |(c & Hin & l' & Hc' & Hcl)].
    + exists m. split.
      * destruct (t_up _ _ _ _ Ht m md Em Hm) as (p' & pd & ck & Hp' & Ep & _ & Hck). simplify_eq. apply child_list_spec. eauto.
      * apply (below_self m (m :: l)). by eapply chain_up.
    + exists c. split; [done|]. exists (m :: l). split; [by eapply chain_up|]. assert (l' = l) as -> by (by eapply chain_det). by right.
  - intros [-> |(c & Hin & l & Hc & Hcl)].
    + destruct (t_chain _ _ _ _ Ht n nd En) as [l Hl]. by eapply below_self.
    + destruct (child_of n nd c En Hin) as (Hcr & cd & Ec & Hp). exists l. split; [done|].
      apply elem_of_app in Hcl as [Hcl| ->%list_elem_of_singleton]; [|done].
      destruct (chain_member _ _ _ _ _ Hc Hcl) as (l1 & l2 & -> & Hc2). inversion Hc2 as [|c' cd' p l3 _ Ec' Hp' Hc3]; simplify_eq.
      inversion Hc3; simplify_eq; rewrite !elem_of_app; [by right; left|left; right; right; left].
Qed.

Lemma siblings_apart n nd c c' m : H !! n = Some nd → c ∈ child_list nd → c' ∈ child_list nd → below c m → below c' m → c = c'.
Proof.
  intros En Hc Hc' (l & Hl & H1) (l' & Hl' & H2). assert (l' = l) as -> by (by eapply chain_det).
  destruct (child_of n nd c En Hc) as (Hr & cd & Ec & Hp). destruct (child_of n nd c' En Hc') as (Hr' & cd' & Ec' & Hp').
  apply elem_of_app in H1 as [H1| ->%list_elem_of_singleton]; [|done]. apply elem_of_app in H2 as [H2| ->%list_elem_of_singleton]; [|done].
  destruct (chain_member _ _ _ _ _ Hl H1) as (a1 & b1 & E1 & Hb1). destruct (chain_member _ _ _ _ _ Hl H2) as (a2 & b2 & E2 & Hb2).
  inversion Hb1 as [|? ? ? l1 _ ? ? Hn1]; simplify_eq. inversion Hb2 as [|? ? ? l2 _ ? ? Hn2]; simplify_eq.
  assert (l2 = l1) as -> by (by eapply chain_det). apply app_inj_2 in E2 as [_ E2]; [by injection E2|done].
Qed.

(** Children are one further from the root, so the fuel lasts. *)
Lemma child_fuel n nd c l (fuel : nat) :
  H !! n = Some nd → chain n l → (size H < S fuel + length l)%nat → c ∈ child_list nd →
  is_Some (H !! c) ∧ ∃ l', chain c l' ∧ (size H < fuel + length l')%nat.
Proof.
  intros En Hl Hf Hc. destruct (child_of n nd c En Hc) as (Hr & cd & Ec & Hp). split; [eauto|].
  exists (c :: l). split; [by eapply chain_up|]. simpl. lia.
Qed.

Lemma no_fuel n l : chain n l → ¬ (size H < 0 + length l)%nat.
Proof. intros Hl%chain_size. lia. Qed.

Lemma calc_weight_ok fuel : ∀ n l w, is_Some (H !! n) → chain n l → (size H < fuel + length l)%nat →
  ∃ w', calc_weight child_list H fuel n w = Ok w'.
Proof.
  induction fuel as [|fuel IH]; intros n l w [nd En] Hl Hf; [by apply no_fuel in Hl|]. cbn [calc_weight]. rewrite En.
  assert (∀ c, c ∈ child_list nd → ∀ w, ∃ w', calc_weight child_list H fuel c w = Ok w') as Hch.
  { intros c Hc w0. destruct (child_fuel n nd c l fuel En Hl Hf Hc) as (Hs & l' & Hl' & Hf'). by apply (IH c l'). }
  revert w. induction (child_list nd) as [|c cs IHc]; intros w; [by exists w|]. cbn [foldl].
  destruct (Hch c ltac:(by left) w) as [w' Ew]. destruct (IHc ltac:(intros; apply Hch; by right) (<[n := weight w' n + weight w' c]> w')) as [w2 E2].
  exists w2. etrans; [|exact E2]. f_equal. unfold mbind, res_bind. by rewrite Ew.
Qed.

(** The walk lists the requests of every node below, each node once. *)
Lemma dfs_ok (reqs_of : nat → list AReq) w fuel : ∀ n l q, is_Some (H !! n) → chain n l → (size H < fuel + length l)%nat →
  ∃ vs, get_dfs_priority child_list H fuel n w reqs_of q = Ok (q ++ (vs ≫= reqs_of)) ∧ NoDup vs ∧ ∀ m, m ∈ vs ↔ below n m.
Proof.
  induction fuel as [|fuel IH]; intros n l q [nd En] Hl Hf; [by apply no_fuel in Hl|]. cbn [get_dfs_priority]. rewrite En.
  set (cs := stable_sort _ (child_list nd)). assert (cs ≡ₚ child_list nd) as Hcs by apply stable_sort_perm.
  assert (∃ vs, foldl (λ rq c, q ← rq; get_dfs_priority child_list H fuel c w reqs_of q) (Ok q) cs = Ok (q ++ (vs ≫= reqs_of)) ∧
    NoDup vs ∧ ∀ m, m ∈ vs ↔ ∃ c, c ∈ cs ∧ below c m) as (vs & E & Hnd & Hvs).
  { assert (∀ c, c ∈ cs → c ∈ child_list nd) as Hin by (intros c; by rewrite Hcs).
    assert (NoDup cs) as Hcn by (rewrite Hcs; by eapply child_list_nodup). clearbody cs. clear Hcs.
    revert q. induction cs as [|c cs IHc]; intros q.
    - exists []. split; [cbn; by rewrite app_nil_r|]. split; [constructor|]. intros m. split; [by intros ?%elem_of_nil|].
      by intros (c & Hc%elem_of_nil & _).
    - apply NoDup_cons in Hcn as [Hc Hcn]. cbn [foldl].
      destruct (child_fuel n nd c l fuel En Hl Hf ltac:(apply Hin; by left)) as (Hs & l' & Hl' & Hf').
      destruct (IH c l' q Hs Hl' Hf') as (v1 & E1 & Hn1 & H1).
      destruct (IHc ltac:(intros; apply Hin; by right) Hcn (q ++ (v1 ≫= reqs_of))) as (v2 & E2 & Hn2 & H2).
      exists (v1 ++ v2). split_and!.
      + rewrite bind_app, (assoc_L (++)). etrans; [|exact E2]. f_equal. unfold mbind, res_bind. by rewrite E1.
      + apply NoDup_app. split; [done|]. split; [|done]. intros m Hm1%H1 Hm2%H2. destruct Hm2 as (c' & Hc' & Hb').
        assert (c = c') as <- by (eapply (siblings_apart n nd); [done|apply Hin; by left|apply Hin; by right|done|done]). done.
      + intros m. rewrite elem_of_app, H1, H2. split.
        * intros [Hb|(c' & ? & ?)]; [exists c; split; [by left|done]|exists c'; split; [by right|done]].
        * intros (c' & [->|Hc']%elem_of_cons & Hb); [by left|right; eauto]. }
  assert (∀ c, c ∈ cs ↔ c ∈ child_list nd) as Hcs' by (intros c; by rewrite Hcs).
  exists (vs ++ [n]). split_and!.
  - rewrite E. unfold mbind at 1, res_bind. rewrite bind_app, (assoc_L (++)). cbn. by rewrite app_nil_r.
  - apply NoDup_app. split; [done|]. split; [|apply NoDup_singleton]. intros m (c & Hc%Hcs' & Hb)%Hvs ->%list_elem_of_singleton.
    destruct Hb as (l0 & Hl0 & Hcl). destruct (child_of n nd c En Hc) as (Hr & cd & Ec & Hp).
    assert (l0 = l) as -> by (by eapply chain_det). apply elem_of_app in Hcl as [Hcl| ->%list_elem_of_singleton]; [|done].
    destruct (chain_member _ _ _ _ _ Hl Hcl) as (l1 & l2 & -> & Hc2). assert (l2 = c :: l1 ++ l2) as E2 by (eapply chain_det; [exact Hc2|by eapply chain_up]).
    apply (f_equal length) in E2. simpl in E2. rewrite length_app in E2. lia.
  - intros m. rewrite elem_of_app, list_elem_of_singleton, Hvs, (below_child n nd m En). setoid_rewrite Hcs'. tauto.
Qed.

(** So the order permutes a queue whose requests all end in the tree. *)
Lemma sort_by_dfs_weight_ok queue :
  Forall (λ q, ∃ n, last_node (req q) = Some n ∧ is_Some (H !! n)) queue →
  ∃ queue', sort_by_dfs_weight child_list H r queue = Ok queue' ∧ queue' ≡ₚ queue.
Proof.
  intros Hq. destruct (t_root _ _ _ _ Ht) as (rd & Er & _). unfold sort_by_dfs_weight.
  assert (chain r []) as Hr by constructor.
  destruct (calc_weight_ok (S (size H)) r [] (foldl (λ w q, match last_node (req q) with Some n => <[n := weight w n + 1]> w | None => w end) ∅ queue))
    as [w Ew]; [eauto|done|simpl; lia|]. rewrite Ew. unfold mbind at 1, res_bind.
  destruct (dfs_ok (last_node_to_reqs queue) w (S (size H)) r [] []) as (vs & E & Hnd & Hvs); [eauto|done|simpl; lia|].
  exists (vs ≫= last_node_to_reqs queue). split; [exact E|]. apply groups_perm; [done|].
  eapply Forall_impl; [exact Hq|]. intros q (n & En & nd & Hn). exists n. split; [done|]. apply Hvs.
  destruct (t_chain _ _ _ _ Ht n nd Hn) as [l Hl]. exists l. split; [done|]. apply elem_of_app. right. by left.
Qed.
End Dfs.

(** ** Whole pages of a path *)

Section Whole.
Context (pc : PoolConfig) (Hps : 0 < pool_page_size pc).
Local Abbreviation ps := (pool_page_size pc).
Local Abbreviation whole := (whole pc).

Lemma whole_nil : whole [].
Proof. by exists []. Qed.

Lemma whole_app l1 l2 : whole l1 → whole l2 → whole (l1 ++ l2).
Proof. intros [p1 ->] [p2 ->]. exists (p1 ++ p2). unfold indices_of_pages. by rewrite bind_app. Qed.

Lemma whole_length l : whole l → Z.of_nat (length l) mod ps = 0.
Proof. intros [p ->]. rewrite (length_indices pc Hps). by rewrite Z.mod_mul by lia. Qed.

(** A list of whole pages, cut at a page. *)
Lemma whole_cut l (n : nat) : whole l → Z.of_nat n mod ps = 0 → whole (take n l) ∧ whole (drop n l).
Proof.
  intros [p ->] Hn. assert (∃ m : nat, Z.of_nat n = m * ps) as [m Hm].
  { exists (Z.to_nat (n / ps)). pose proof (Z_div_mod_eq_full n ps). pose proof (Z.div_pos n ps ltac:(lia) Hps). lia. }
  destruct (Nat.le_gt_cases (length p) m) as [Hle|Hlt].
  - assert (length (indices_of_pages pc p) ≤ n)%nat as Hl by (apply Nat2Z.inj_le; rewrite (length_indices pc Hps); nia).
    rewrite take_ge, drop_ge by done. split; [by exists p|apply whole_nil].
  - assert (n = length (indices_of_pages pc (take m p))) as ->
      by (apply Nat2Z.inj; rewrite (length_indices pc Hps), length_take; lia).
    assert (indices_of_pages pc p = indices_of_pages pc (take m p) ++ indices_of_pages pc (drop m p)) as ->
      by (unfold indices_of_pages; rewrite <-bind_app, take_drop; done).
    rewrite take_app_length, drop_app_length. split; by eexists.
Qed.

Lemma whole_last l : whole l → (default (-1) (last l) + 1) mod ps = 0.
Proof.
  intros [p ->]. destruct p as [|x p _] using rev_ind; [done|].
  unfold indices_of_pages. rewrite bind_app. cbn [mbind list_bind]. rewrite app_nil_r.
  assert (seqZ 0 ps = seqZ 0 (ps - 1) ++ [ps - 1]) as ->.
  { replace ps with ((ps - 1) + 1) at 1 by lia. rewrite seqZ_app by lia. done. }
  rewrite fmap_app, app_assoc. cbn [fmap list_fmap]. rewrite last_snoc. cbn [default].
  rewrite <- (Z.mod_mul (x + 1) ps) by lia. f_equal. simpl. lia.
Qed.
End Whole.

(** ** The memory during a pass *)

Section Memory.
Context (cfg : KvConfig).
Local Abbreviation cc := (cache_cfg cfg).
Local Abbreviation pc := (pool_cfg cfg).
Local Abbreviation ps := (pool_page_size pc).
Context `{!KvAllocator pc (allocator_free cfg)} (Hok : config_ok cfg).
Local Abbreviation joint := (joint cfg).
Local Abbreviation room := (room cfg).
Implicit Types (k : Kv) (hs : list nat) (live : gset Z) (s : Cache) (q : AReq).

(** Changes of a pass: the tree keeps its indices and the paths of its nodes, everything else
    stays. *)
Record calm k k' : Prop := mk_calm {
  ca_indices : indices (nodes (tree k')) = indices (nodes (tree k));
  ca_path : ∀ u v n, path (tree k) u v n → path (tree k') u v n;
  ca_pool : pool k' = pool k;
  ca_slots : slots k' = slots k;
  ca_table : req_to_token k' = req_to_token k;
}.

#[export] Instance calm_preorder : PreOrder calm.
Proof. split; [by intros k; split|]. intros k1 k2 k3 [] []. split; [congruence|eauto|congruence..]. Qed.

Lemma values_whole k hs live n u v m : joint k hs live → down (nodes (tree k)) n u v m → whole pc v.
Proof.
  intros Hj. induction 1 as [|n nd ck c cd u v m E Ec Ecd Hd IH]; [apply whole_nil|].
  apply whole_app; [|done]. by apply (j_whole _ _ _ _ Hj c).
Qed.

Lemma divide_mod (n : nat) : Nat.divide (page_size cc) n → Z.of_nat n mod ps = 0.
Proof.
  intros [m ->]. pose proof Hok as [Hps Hsame _]. rewrite <- Hsame, Nat2Z.inj_mul. by rewrite Z.mod_mul by lia.
Qed.

Lemma content_whole k hs live u v : joint k hs live → content cc (tree k) u v → whole pc v.
Proof.
  intros Hj (u' & v' & m & Hd & -> & Hdiv). apply (whole_cut pc (ck_ps _ Hok)); [by eapply values_whole|by apply divide_mod].
Qed.

(** A tree with the same content holds whole pages again. *)
Lemma whole_values k hs hs' live s n nd :
  joint k hs live → inv cc s hs' → (∀ u v, content cc s u v → content cc (tree k) u v) →
  nodes s !! n = Some nd → whole pc (value nd).
Proof.
  intros Hj Hi Hc E. pose proof (inv_tree _ _ _ Hi) as Ht.
  destruct (down_from_root _ _ _ _ n Ht ltac:(eauto)) as (u & v & Hd).
  assert (∀ u v m, down (nodes s) (root_node s) u v m → whole pc v) as Hw.
  { intros u1 v1 m1 Hd1. apply (content_whole k hs live u1); [done|]. apply Hc. by eapply holds_down. }
  destruct (down_last _ _ _ _ _ _ _ _ Ht Hd) as [(-> & _)|(md & p & u' & v' & _ & Em & _ & Hp & _ & ->)].
  - destruct (t_root _ _ _ _ Ht) as (rd & Er & _ & Hv). simplify_eq. rewrite Hv. apply whole_nil.
  - simplify_eq. pose proof (Hw _ _ _ Hd) as Hall. pose proof (Hw _ _ _ Hp) as Hup.
    destruct (whole_cut pc (ck_ps _ Hok) _ (length v') Hall) as [_ Hd']; [by apply whole_length; [apply Hok|]|].
    by rewrite drop_app_length in Hd'.
Qed.

Lemma joint_calm k hs hs' live s :
  joint k hs live → inv cc s hs' → (∀ u v, content cc s u v → content cc (tree k) u v) →
  indices (nodes s) = indices (nodes (tree k)) → (∀ u v n, path (tree k) u v n → path s u v n) →
  joint (mk_kv s (pool k) (slots k) (req_to_token k)) hs' live ∧ calm k (mk_kv s (pool k) (slots k) (req_to_token k)).
Proof.
  intros Hj Hi Hc He Hp. split; [|by split]. split; simpl; try done; try apply Hj; [| |].
  - intros n nd. by apply (whole_values k hs hs' live).
  - intros x. rewrite He. apply (j_once _ _ _ _ Hj).
  - intros x. rewrite He. apply (j_live _ _ _ _ Hj).
Qed.

Lemma on_tree_calm {A} (m : M Cache A) k a s :
  m (tree k) = (Ok a, s) → free_calls s = free_calls (tree k) →
  on_tree cfg m k = (Ok a, mk_kv s (pool k) (slots k) (req_to_token k)).
Proof. intros E Hf. unfold on_tree. by rewrite E, Hf, drop_all. Qed.
End Memory.

(** ** Ordering the queue *)

Section Order.
Context (cfg : KvConfig).
Local Abbreviation cc := (cache_cfg cfg).
Local Abbreviation pc := (pool_cfg cfg).
Context `{!KvAllocator pc (allocator_free cfg)} (Hok : config_ok cfg).
Context (rcfg : ReqConfig) (ticks sim_ticks : nat → Z) (child_list : TreeNode → list nat) (draw : nat → nat) (pcfg : PolicyConfig).
Context (Hlist : ∀ nd, child_list nd ≡ₚ (map_to_list (children nd)).*2).
Local Abbreviation joint := (joint cfg).
Local Abbreviation room := (room cfg).
Local Abbreviation sim_inv s := (inv simulated_config s []).
Implicit Types (k : Kv) (hs : list nat) (live : gset Z) (q : AReq) (o : Order).

(** A request, perhaps with a new prefix. *)
Definition looked_up q q' : Prop :=
  q' = q ∨ ∃ n v, q' = set_host_hit_length 0 (set_req (λ r, set_prefix (cache_protected_len r) n v r) q).

(** The memory after lookups. *)
Record looked hs live k k' : Prop := mk_looked {
  lo_joint : joint k' hs live;
  lo_calm : calm k k';
  lo_room : room k' = room k;
  lo_content : ∀ u v, content cc (tree k') u v ↔ content cc (tree k) u v;
}.

Lemma lo_path hs live k k' : looked hs live k k' → ∀ u v n, path (tree k) u v n → path (tree k') u v n.
Proof. intros Hlo. apply (ca_path _ _ (lo_calm _ _ _ _ Hlo)). Qed.

Lemma looked_refl hs live k : joint k hs live → looked hs live k k.
Proof. by split. Qed.

Lemma looked_trans hs live k1 k2 k3 : looked hs live k1 k2 → looked hs live k2 k3 → looked hs live k1 k3.
Proof. intros [] []. split; [done|by etrans|congruence|]. intros u v. rewrite lo_content1. apply lo_content0. Qed.

Lemma tidy_looked hs live k s :
  joint k hs live → tidy cc (tree k) s → looked hs live k (mk_kv s (pool k) (slots k) (req_to_token k)).
Proof.
  intros Hj Ht. destruct (joint_calm cfg Hok k hs hs live s Hj (td_inv _ _ _ Ht hs (j_tree _ _ _ _ Hj))) as [Hj' Hc];
    [by intros u v; apply (td_content _ _ _ Ht)|apply Ht|apply (td_path _ _ _ Ht)|].
  split; [done|done| |intros u v; apply (td_content _ _ _ Ht)]. unfold KvAllocFacts.room, evictable. destruct (is_chunk_cache cfg); [done|]. simpl.
  by destruct (td_sizes _ _ _ Ht) as [-> _].
Qed.

(** The prefix of a request is the longest cached one. *)
Definition longest k q : Prop :=
  if radix_force_miss rcfg then RadixReq.prefix_indices (req q) = []
  else ∃ m, longest_prefix cc (tree k) (prepared cc (queue_key q)) m (RadixReq.prefix_indices (req q)).

Lemma longest_looked hs live k k' q : looked hs live k k' → longest k' q → longest k q.
Proof.
  intros Hlo. unfold longest. destruct (radix_force_miss rcfg); [done|]. intros (m & Hm & Hc & Hmax). exists m. split; [done|].
  setoid_rewrite (lo_content _ _ _ _ Hlo) in Hc. split; [done|]. intros u w Hu Hw. apply (Hmax u w Hu). by apply (lo_content _ _ _ _ Hlo).
Qed.

Lemma match_prefix_for_req_ok q k hs live :
  is_chunk_cache cfg = false → joint k hs live →
  ∃ q' k' n u v, match_prefix_for_req cfg rcfg ticks q k = (Ok q', k') ∧ looked hs live k k' ∧ looked_up q q' ∧
    last_node (req q') = Some n ∧ path (tree k') u v n ∧ longest k q'.
Proof.
  intros Hchunk Hj. pose proof (ck_ps _ Hok). pose proof (ck_same _ Hok).
  destruct (match_prefix_ok cc ticks (tree k) hs (queue_key q) ltac:(lia) (ck_enabled _ Hok) (j_tree _ _ _ _ Hj)) as (v & n & s & m & E & Ht & Hl & Hp); [done|].
  pose proof (tidy_looked hs live k s Hj Ht) as Hlo. set (k' := mk_kv s (pool k) (slots k) (req_to_token k)) in *.
  unfold match_prefix_for_req. rewrite Hchunk, (bind_Ok _ _ _ _ _ (on_tree_calm cfg _ k _ s E (td_freed _ _ _ Ht))).
  rewrite (bind_Ok _ _ k' (root_node s) k') by done. unfold longest. destruct (radix_force_miss rcfg).
  - eexists _, k', (root_node s), [], []. split; [reflexivity|]. split; [done|]. split; [right; eauto|]. split; [done|]. split; [constructor|done].
  - eexists _, k', n, _, v. split; [reflexivity|]. split; [done|]. split; [right; eauto|]. split; [done|]. split; [exact Hp|]. by exists m.
Qed.

(** *** Prefixes shared inside the queue *)

(** How many tokens, with the same extra key, two requests have in common at their start. *)
Definition common_tokens e q : nat := length (max_prefix (units (queue_key e)) (units (queue_key q))).2.

(** The most tokens a request shares with one of [entered]; none when misses are forced. *)
Definition shared_with (entered : list AReq) q : nat :=
  if radix_force_miss rcfg then 0 else foldr (λ e n, Nat.max (common_tokens e q) n) 0%nat entered.

(** The requests that wait, by their names: of those with a short cached prefix, in the order
    of the queue, each that shares enough tokens with one before it that does not wait. *)
Fixpoint deprioritized_after (entered queue : list AReq) : list string :=
  match queue with
  | [] => []
  | q :: queue =>
      if CHECK_THRESHOLD pcfg <? prefix_length q then deprioritized_after entered queue
      else if DEPRIORITIZE_THRESHOLD pcfg <=? shared_with entered q then rid q :: deprioritized_after entered queue
      else deprioritized_after (q :: entered) queue
  end.
Definition deprioritized (queue : list AReq) : list string := deprioritized_after [] queue.

Lemma common_tokens_spec e q n :
  (n ≤ common_tokens e q)%nat ↔ ∃ u, u `prefix_of` units (queue_key e) ∧ u `prefix_of` units (queue_key q) ∧ length u = n.
Proof.
  unfold common_tokens. set (u0 := (max_prefix (units (queue_key e)) (units (queue_key q))).2). split.
  - intros Hn. exists (take n u0). split_and!; [| |by rewrite length_take_le].
    + etrans; [apply prefix_take|apply max_prefix_fst_prefix].
    + etrans; [apply prefix_take|apply max_prefix_snd_prefix].
  - intros (u & H1 & H2 & <-). destruct (max_prefix_max _ _ u H1 H2) as [x Hx]. unfold u0. rewrite Hx, length_app. lia.
Qed.

(** The simulated tree holds the starts of the requests entered into it. *)
Definition holds_entered s (entered : list AReq) : Prop :=
  sim_inv s ∧ ∀ u, (∃ w, content simulated_config s u w) ↔ u = [] ∨ ∃ e, e ∈ entered ∧ u `prefix_of` units (queue_key e).

Lemma reset_holds_nothing s s' : reset sim_ticks s = (Ok tt, s') → sim_inv s' → holds_entered s' [].
Proof.
  intros E Hi. split; [done|]. intros u. split.
  - intros (w & u' & v' & n & Hd & _ & _). left. injection E as <-. unfold path in Hd. cbn [nodes root_node] in Hd.
    inversion Hd as [|n0 nd ck c cd s0 v0 m0 En Ec]; [by destruct u|]. apply lookup_singleton_Some in En as [_ <-]. done.
  - intros [-> |(e & He & _)]; [exists []; apply holds_nil|by apply not_elem_of_nil in He].
Qed.

Lemma sim_key q : units (prepared simulated_config (queue_key q)) = units (queue_key q) ∧ key_len (prepared simulated_config (queue_key q)) = length (units (queue_key q)).
Proof. rewrite length_units. apply prepared_idem; [simpl; lia|done|apply Nat.divide_1_l]. Qed.

(** The lookup finds as many tokens as are shared with an entered request. *)
Lemma longest_shared s entered q m w :
  holds_entered s entered → longest_prefix simulated_config s (prepared simulated_config (queue_key q)) m w →
  m = foldr (λ e n, Nat.max (common_tokens e q) n) 0%nat entered.
Proof.
  intros [Hi Hs] (Hm & Hc & Hmax). destruct (sim_key q) as [Eu Ek]. rewrite Eu in *. apply Nat.le_antisymm.
  - destruct (proj1 (Hs _) (ex_intro _ w Hc)) as [Hn|(e & He & Hp)].
    + apply (f_equal length) in Hn. rewrite length_take in Hn. simpl in Hn. lia.
    + trans (common_tokens e q).
      * apply common_tokens_spec. exists (take m (units (queue_key q))). split; [done|]. split; [apply prefix_take|]. rewrite length_take. lia.
      * clear -He. induction entered as [|e' l IH]; [by apply not_elem_of_nil in He|]. simpl. apply elem_of_cons in He as [->|He]; [lia|]. specialize (IH He). lia.
  - assert (∀ e, e ∈ entered → (common_tokens e q ≤ m)%nat) as H.
    { intros e He. destruct (proj1 (common_tokens_spec e q _) (le_n _)) as (u & H1 & H2 & <-).
      destruct (proj2 (Hs u)) as [w' Hw']; [right; eauto|]. by apply (Hmax u w'). }
    clear -H. induction entered as [|e l IH]; simpl; [lia|]. pose proof (H e ltac:(left)). specialize (IH ltac:(intros; apply H; by right)). lia.
Qed.

Lemma in_batch_match_ok q s entered :
  holds_entered s entered →
  let b := DEPRIORITIZE_THRESHOLD pcfg <=? shared_with entered q in
  ∃ s', in_batch_match rcfg sim_ticks pcfg q s = (Ok b, s') ∧ holds_entered s' (if b then entered else q :: entered).
Proof.
  intros Hs b. pose proof Hs as [Hi Hc].
  destruct (match_prefix_ok simulated_config sim_ticks s [] (queue_key q) ltac:(simpl; lia) eq_refl Hi) as (v & n & s1 & m & E & Ht & Hl & _); [done|].
  pose proof (longest_shared s entered q m v Hs Hl) as Hm. pose proof (longest_length _ _ _ _ _ _ Hi Hl) as Hv.
  pose proof (td_inv _ _ _ Ht [] Hi) as Hi1. unfold in_batch_match. rewrite (bind_Ok _ _ _ _ _ E). cbn [fst].
  assert ((DEPRIORITIZE_THRESHOLD pcfg <=? (if radix_force_miss rcfg then 0 else Z.of_nat (length v))) = b) as Eb.
  { unfold b, shared_with. rewrite Hv, Hm. by destruct (radix_force_miss rcfg). }
  assert (holds_entered s1 entered) as Hs1.
  { split; [done|]. intros u. rewrite <- Hc. split; intros [w Hw]; exists w; by apply (td_content _ _ _ Ht). }
  rewrite Eb. destruct b; [by exists s1|]. set (vs := replicate _ 0).
  destruct (insert_ok simulated_config sim_ticks s1 [] (queue_key q) (Some vs) None false ltac:(simpl; lia) eq_refl Hi1) as (s2 & m2 & vm & E2 & Hins).
  - done.
  - unfold enough, vs, prepared. rewrite length_replicate.
    destruct (page_aligned_facts simulated_config (maybe_to_bigram_view (V:=Z) (is_eagle simulated_config) (queue_key q) None).1 ltac:(simpl; lia)) as (_ & _ & -> & _).
    etrans; [apply round_down_le|]. apply (key_len_tokens (queue_key q)).
  - exists s2. rewrite (bind_Ok _ _ _ _ _ E2). split; [done|]. split; [apply (ins_inv _ _ _ _ _ _ _ _ Hins)|]. intros u.
    pose proof (ins_content _ _ _ _ _ _ _ _ Hins) as Hci. destruct (sim_key q) as [Eu _]. rewrite Eu in Hci. setoid_rewrite elem_of_cons. split.
    + intros [w [Hw|(Hp & _)]%Hci]; [|right; exists q; auto]. destruct (proj1 (proj2 Hs1 u) (ex_intro _ w Hw)) as [?|(e & He & Hp)]; [by left|right; eauto].
    + intros Hu. assert (u `prefix_of` units (queue_key q) ∨ u = [] ∨ ∃ e, e ∈ entered ∧ u `prefix_of` units (queue_key e)) as [Hp|[w Hw]%(proj2 Hs1 u)] by naive_solver.
      * eexists. apply Hci. right. split; [done|]. split; [done|]. apply Nat.divide_1_l.
      * exists w. apply Hci. by left.
Qed.

Lemma prefix_matches_loop_ok queue : ∀ o hs live entered,
  is_chunk_cache cfg = false → joint (real o) hs live → holds_entered (waiting_queue_radix_tree o) entered →
  ∃ queue' o', prefix_matches_loop cfg rcfg ticks sim_ticks pcfg queue o = (Ok (queue', deprioritized_after entered queue'), o') ∧ looked hs live (real o) (real o') ∧
    Forall2 looked_up queue queue' ∧ Forall (λ q, ∃ n u v, last_node (req q) = Some n ∧ path (tree (real o')) u v n) queue' ∧ Forall (longest (real o)) queue'.
Proof.
  induction queue as [|q queue IH]; intros o hs live entered Hchunk Hj Hs.
  { exists [], o. split; [done|]. split; [by apply looked_refl|]. by split. }
  destruct (match_prefix_for_req_ok q (real o) hs live Hchunk Hj) as (q' & k' & n & u & v & E & Hlo & Hq & Hn & Hp & Hl).
  cbn [prefix_matches_loop]. set (o1 := mk_order k' (waiting_queue_radix_tree o)).
  rewrite (bind_Ok _ _ o q' o1) by (unfold on_real; by rewrite E).
  assert (∃ b o2 entered', (if prefix_length q' <=? CHECK_THRESHOLD pcfg then on_simulated (in_batch_match rcfg sim_ticks pcfg q') else mret false) o1 =
    (Ok b, o2) ∧ real o2 = k' ∧ holds_entered (waiting_queue_radix_tree o2) entered' ∧
    ∀ l, deprioritized_after entered (q' :: l) = if b then rid q' :: deprioritized_after entered' l else deprioritized_after entered' l)
    as (b & o2 & entered' & E2 & Hr2 & Hs2 & Hd).
  { cbn [deprioritized_after]. rewrite Z.ltb_antisym. destruct (_ <=? _); [|by exists false, o1, entered].
    destruct (in_batch_match_ok q' (waiting_queue_radix_tree o) entered Hs) as (s' & E2 & Hs'). revert E2 Hs'.
    destruct (DEPRIORITIZE_THRESHOLD pcfg <=? shared_with entered q') eqn:Ed; intros E2 Hs'; eexists _, (mk_order k' s'), _;
      (split; [unfold on_simulated; cbn [waiting_queue_radix_tree o1]; by rewrite E2|]); (split; [done|]); (split; [exact Hs'|]); intros l; simpl; by rewrite ?Ed. }
  rewrite (bind_Ok _ _ _ _ _ E2).
  destruct (IH o2 hs live entered' Hchunk ltac:(rewrite Hr2; apply Hlo) Hs2) as (queue' & o3 & E3 & Hlo3 & Hq3 & Hn3 & Hl3). rewrite Hr2 in Hlo3, Hl3.
  rewrite (bind_Ok _ _ _ _ _ E3). exists (q' :: queue'), o3. split; [by rewrite Hd|].
  split; [by eapply looked_trans|]. split; [by constructor|]. split.
  - constructor; [|done]. exists n, u, v. split; [done|]. by apply (lo_path _ _ _ _ Hlo3).
  - constructor; [done|]. eapply Forall_impl; [exact Hl3|]. intros q3. by apply (longest_looked hs live).
Qed.

Lemma compute_prefix_matches_ok queue o hs live :
  is_chunk_cache cfg = false → joint (real o) hs live →
  ∃ queue' o', compute_prefix_matches cfg rcfg ticks sim_ticks pcfg queue o = (Ok (queue', deprioritized queue'), o') ∧ looked hs live (real o) (real o') ∧
    Forall2 looked_up queue queue' ∧ Forall (λ q, ∃ n u v, last_node (req q) = Some n ∧ path (tree (real o')) u v n) queue' ∧ Forall (longest (real o)) queue'.
Proof.
  intros Hchunk Hj. destruct (reset_inv simulated_config sim_ticks (waiting_queue_radix_tree o)) as (s' & E & Hs).
  unfold compute_prefix_matches. rewrite (bind_Ok _ _ o tt (mk_order (real o) s')) by (unfold on_simulated; by rewrite E).
  apply (prefix_matches_loop_ok queue (mk_order (real o) s') hs live []); try done. by apply (reset_holds_nothing (waiting_queue_radix_tree o)).
Qed.

(** *** The order of each policy *)

Implicit Types (x y : AReq).

(** Equal or better priority; ties by a second order. *)
Definition by_priority (ties : AReq → AReq → Prop) x y : Prop :=
  ∃ a b, signed_priority pcfg x = Ok a ∧ signed_priority pcfg y = Ok b ∧ (a < b ∨ a = b ∧ ties x y).
Definition longer_output x y : Prop := max_new_tokens y ≤ max_new_tokens x.
(** How many running requests have the routing key of a request. *)
Definition key_frequency (running : list AReq) x : Z := if truthy (routing_key x) then routing_key_count running (routing_key x) else 0.

Definition may_precede (running : option (list AReq)) (deprioritized : list string) (p : Policy) x y : Prop :=
  match p with
  | LPM => (rid x ∈ deprioritized → rid y ∈ deprioritized) ∧ (rid y ∉ deprioritized → prefix_length y ≤ prefix_length x)
  | FCFS =>
      policy pcfg = FCFS → enable_priority_scheduling pcfg = true →
      by_priority (λ x y, (wait_queue_entry_time x <= wait_queue_entry_time y)%Q) x y
  | LOF => if enable_priority_scheduling pcfg then by_priority longer_output x y else longer_output x y
  | ROUTING_KEY => from_option (λ rs, key_frequency rs y ≤ key_frequency rs x) True running
  | DFS_WEIGHT | RANDOM => True
  end.

(** What a policy needs: prefixes to match, priorities to compare. *)
Definition policy_ready (queue : list AReq) : Prop :=
  (is_cache_aware (policy pcfg) = true → is_chunk_cache cfg = false) ∧
  (enable_priority_scheduling pcfg = true → Forall (λ q, is_Some (req_priority (req q))) queue).

Lemma priorities_defined {K} (f : AReq → K) queue :
  Forall (λ q, is_Some (req_priority (req q))) queue →
  Forall (λ q, ∃ pk : Z * K, (p ← signed_priority pcfg q; Ok (p, f q)) = Ok pk) queue.
Proof. intros Hq. eapply Forall_impl; [exact Hq|]. intros q [p Ep]. unfold signed_priority. rewrite Ep. eexists. reflexivity. Qed.

Lemma by_priority_intro {K} (f : AReq → K) (ltK : K → K → bool) (ties : AReq → AReq → Prop) x y kx ky :
  (ltK (f y) (f x) = false → ties x y) →
  (p ← signed_priority pcfg x; Ok (p, f x)) = Ok kx → (p ← signed_priority pcfg y; Ok (p, f y)) = Ok ky →
  lex_lt Z.ltb Z.eqb ltK ky kx = false → by_priority ties x y.
Proof.
  intros Ht Ex Ey El. apply res_bind_inv in Ex as (a & Ea & Ex). apply res_bind_inv in Ey as (b & Eb & Ey). injection Ex as <-. injection Ey as <-.
  exists a, b. split; [done|]. split; [done|]. unfold lex_lt in El. simpl in El. apply orb_false_iff in El as [E1 E2].
  destruct (Z.lt_trichotomy a b) as [?|[->|?]]; [by left| |lia]. right. split; [done|]. apply Ht. by rewrite Z.eqb_refl in E2.
Qed.

Lemma sorted_any {A} (R : A → A → Prop) (l : list A) : (∀ a b, R a b) → StronglySorted R l.
Proof. intros HR. induction l; constructor; [done|]. apply Forall_forall. auto. Qed.

Lemma sort_by_longest_prefix_ok running ds queue :
  ∃ queue', sort_by_longest_prefix ds queue = Ok queue' ∧ queue' ≡ₚ queue ∧ StronglySorted (may_precede running ds LPM) queue'.
Proof.
  apply sort_by_key_ok.
  - split; [intros [] []|intros [] [] []]; try done; lia.
  - apply Forall_forall. eauto.
  - intros x y kx ky [= <-] [= <-] Hlt. revert Hlt. simpl. destruct (bool_decide_reflect (rid y ∈ ds)), (bool_decide_reflect (rid x ∈ ds)); naive_solver lia.
Qed.

Lemma sort_by_longest_output_ok running ds queue :
  (enable_priority_scheduling pcfg = true → Forall (λ q, is_Some (req_priority (req q))) queue) →
  ∃ queue', sort_by_longest_output pcfg queue = Ok queue' ∧ queue' ≡ₚ queue ∧ StronglySorted (may_precede running ds LOF) queue'.
Proof.
  intros Hp. unfold sort_by_longest_output, may_precede. destruct (enable_priority_scheduling pcfg).
  - apply sort_by_key_ok; [apply lex_order; [apply _..|apply Zeqb_ltb]|by apply priorities_defined; auto|].
    intros x y kx ky. apply (by_priority_intro (λ q, - max_new_tokens q) Z.ltb). unfold longer_output. lia.
  - apply sort_by_key_ok; [apply _|apply Forall_forall; eauto|]. intros x y kx ky [= <-] [= <-]. unfold longer_output. lia.
Qed.

Lemma sort_by_routing_key_ok rs ds queue :
  ∃ queue', sort_by_routing_key rs queue = Ok queue' ∧ queue' ≡ₚ queue ∧ StronglySorted (may_precede (Some rs) ds ROUTING_KEY) queue'.
Proof.
  assert (∀ key, 0 ≤ routing_key_count rs key) as Hpos by (intros key; unfold routing_key_count; lia).
  unfold sort_by_routing_key. destruct (forallb _ rs) eqn:Eall.
  - exists queue. split; [done|]. split; [done|]. assert (∀ x, key_frequency rs x = 0) as Hz.
    { intros x. unfold key_frequency, routing_key_count. destruct (truthy (routing_key x)); [|done]. 
      destruct (filter _ rs) as [|r l] eqn:Ef; [done|]. assert (r ∈ filter (λ r, truthy (routing_key r) ∧ routing_key r = routing_key x) rs) as Hr by (rewrite Ef; left).
      apply list_elem_of_filter in Hr as [[Ht _] Hr]. rewrite forallb_forall in Eall. specialize (Eall r ltac:(by apply list_elem_of_In)). by destruct (truthy _). }
    apply sorted_any. intros x y. change (key_frequency rs y ≤ key_frequency rs x). by rewrite (Hz x), (Hz y).
  - apply sort_by_key_ok.
    + apply lex_order; [apply _|apply lex_order; [apply _..|apply Zeqb_ltb]|apply Zeqb_ltb].
    + apply Forall_forall. eauto.
    + intros x y kx ky [= <-] [= <-]. unfold routing_sort_key, lex_lt, may_precede, key_frequency. simpl.
      generalize (Hpos (routing_key x)), (Hpos (routing_key y)). generalize (routing_key_count rs (routing_key x)), (routing_key_count rs (routing_key y)).
      intros cx cy Hx Hy. destruct (truthy (routing_key x)), (truthy (routing_key y)), (Z.ltb_spec 0 cx), (Z.ltb_spec 0 cy); simpl; intros Hlt; lia.
Qed.

Lemma sort_by_priority_ok running ds queue :
  Forall (λ q, is_Some (req_priority (req q))) queue →
  ∃ queue', sort_by_priority_and_fcfs pcfg queue = Ok queue' ∧ queue' ≡ₚ queue ∧ StronglySorted (may_precede running ds FCFS) queue'.
Proof.
  intros Hp. apply sort_by_key_ok; [apply lex_order; [apply _..|apply Zeqb_ltb]|by apply priorities_defined|].
  intros x y kx ky Ex Ey El _ _. revert Ex Ey El. apply (by_priority_intro wait_queue_entry_time Qlt_bool).
  unfold Qlt_bool. intros Hq%negb_false_iff. by apply Qle_bool_iff.
Qed.

(** Whether the policy leaves the queue alone: the fallback of a long queue, first come first
    served without priorities, and routing keys without a running batch. *)
Definition keeps_queue (running : option (list AReq)) (p : Policy) : bool :=
  match p with
  | FCFS => negb (bool_decide (policy pcfg = FCFS) && enable_priority_scheduling pcfg)
  | ROUTING_KEY => bool_decide (running = None)
  | _ => false
  end.

(** What ordering leaves: the same requests, in the order of the policy [p]. *)
Definition reordered hs live running p queue o queue' o' : Prop :=
  looked hs live (real o) (real o') ∧ (is_cache_aware p = true → Forall (longest (real o)) queue') ∧
  (keeps_queue running p = true → queue' = queue) ∧
  ∃ found, Forall2 looked_up queue found ∧ queue' ≡ₚ found ∧ StronglySorted (may_precede running (deprioritized found) p) queue'.

Lemma reordered_plain hs live running p queue queue' o :
  is_cache_aware p = false → joint (real o) hs live → queue' ≡ₚ queue → (keeps_queue running p = true → queue' = queue) →
  StronglySorted (may_precede running (deprioritized queue) p) queue' → reordered hs live running p queue o queue' o.
Proof.
  intros Ha Hj Hq Hk Hs. split; [by apply looked_refl|]. split; [by rewrite Ha|]. split; [done|]. exists queue. split; [|done]. apply Forall_Forall2_diag, Forall_forall. by left.
Qed.

Lemma is_cache_aware_active queue :
  is_cache_aware (determine_active_policy pcfg queue) = true → is_cache_aware (policy pcfg) = true.
Proof. unfold determine_active_policy. by destruct (bool_decide _ && _). Qed.

(** The cache-aware policies. *)
Lemma calc_priority_aware running queue o hs live :
  is_cache_aware (determine_active_policy pcfg queue) = true → joint (real o) hs live → policy_ready queue →
  ∃ queue' o', calc_priority cfg rcfg ticks sim_ticks child_list draw pcfg running queue o = (Ok queue', o') ∧
    reordered hs live running (determine_active_policy pcfg queue) queue o queue' o'.
Proof.
  intros Ha Hj [Hchunk _]. pose proof (is_cache_aware_active _ Ha) as Hp. unfold calc_priority. rewrite bool_decide_eq_false_2 by (by intros E; rewrite E in Hp).
  destruct (compute_prefix_matches_ok queue o hs live (Hchunk Hp) Hj) as (found & o' & E & Hlo & Hq & Hn & Hl).
  destruct (determine_active_policy pcfg queue); try done; rewrite (bind_Ok _ _ _ _ _ E).
  - destruct (sort_by_longest_prefix_ok running (deprioritized found) found) as (queue' & E2 & Hperm & Hs).
    exists queue', o'. cbn [fst snd]. rewrite E2. split; [done|]. split; [done|]. split; [by rewrite Hperm|]. split; [done|]. by exists found.
  - rewrite (bind_Ok _ _ o' (tree (real o')) o') by done. pose proof (j_tree _ _ _ _ (lo_joint _ _ _ _ Hlo)) as Hi.
    destruct (sort_by_dfs_weight_ok _ _ _ _ (inv_tree _ _ _ Hi) child_list Hlist found) as (queue' & E2 & Hperm).
    { eapply Forall_impl; [exact Hn|]. intros q (n & u & v & En & Hpath). exists n. split; [done|]. by eapply path_node. }
    exists queue', o'. cbn [fst snd]. rewrite E2. split; [done|]. split; [done|]. split; [by rewrite Hperm|]. split; [done|]. exists found. split; [done|]. split; [done|]. by apply sorted_any.
Qed.

(** Every policy gives the queue back. *)
Lemma calc_priority_ok running queue o hs live :
  joint (real o) hs live → policy_ready queue →
  ∃ queue' o', calc_priority cfg rcfg ticks sim_ticks child_list draw pcfg running queue o = (Ok queue', o') ∧
    reordered hs live running (determine_active_policy pcfg queue) queue o queue' o'.
Proof.
  intros Hj Hready. destruct (is_cache_aware (determine_active_policy pcfg queue)) eqn:Ha; [by apply calc_priority_aware|].
  assert (∀ m : M Order (list AReq), (∃ queue', m o = (Ok queue', o) ∧ queue' ≡ₚ queue ∧
      (keeps_queue running (determine_active_policy pcfg queue) = true → queue' = queue) ∧
      StronglySorted (may_precede running (deprioritized queue) (determine_active_policy pcfg queue)) queue') →
    ∃ queue' o', m o = (Ok queue', o') ∧ reordered hs live running (determine_active_policy pcfg queue) queue o queue' o') as Hplain.
  { intros m (queue' & E & Hp & Hk & Hs). exists queue', o. split; [done|]. by apply reordered_plain. }
  destruct Hready as [_ Hprio]. apply Hplain. clear Hplain. unfold calc_priority. case_bool_decide as Hf.
  - assert (determine_active_policy pcfg queue = FCFS) as -> by (unfold determine_active_policy; by rewrite Hf).
    cbn [keeps_queue]. rewrite bool_decide_eq_true_2 by done. destruct (enable_priority_scheduling pcfg) eqn:Ep.
    + destruct (sort_by_priority_ok running (deprioritized queue) queue (Hprio eq_refl)) as (queue' & -> & ? & ?). by exists queue'.
    + exists queue. split; [done|]. split; [done|]. split; [done|]. apply sorted_any. intros x y _. simpl. by rewrite Ep.
  - destruct (determine_active_policy pcfg queue) eqn:Ea; try done.
    + exists queue. split; [done|]. split; [done|]. split; [done|]. apply sorted_any. intros x y Hfc. by rewrite Hfc in Hf.
    + destruct (sort_by_longest_output_ok running (deprioritized queue) queue Hprio) as (queue' & -> & ? & ?). by exists queue'.
    + eexists. split; [reflexivity|]. split; [apply shuffle_perm|]. split; [done|]. by apply sorted_any.
    + destruct running as [rs|].
      * destruct (sort_by_routing_key_ok rs (deprioritized queue) queue) as (queue' & E & ? & ?). exists queue'. simpl. by rewrite E.
      * exists queue. split; [done|]. split; [done|]. split; [done|]. by apply sorted_any.
Qed.
End Order.

(** ** Properties *)

(** C25 - Ordering the waiting queue always returns, whatever the policy, when a cache-aware policy
    has a cache and scheduling by priority has priorities: the result is a permutation of the
    queue, in which at most the looked-up prefix of a request has changed (and is then the
    longest cached one, or empty when misses are forced). By longest prefix, the deprioritized requests come last and longer
    cached prefixes first among the others; deprioritized are exactly those whose own prefix
    is no longer than the check threshold and that share at least the threshold of tokens with
    an earlier checked request that is not deprioritized (forced misses share none). Otherwise higher priorities come
    first, then earlier arrivals; longer outputs first; routing keys that run more often
    first. A policy without an order of its own keeps the queue (long queues fall back to
    it); of the depth-first and the random order only the permutation is stated. Tree and
    pool stay in step and nothing becomes locked or free. *)
Theorem queue_reordered cfg (Hpo : pool_ok (pool_cfg cfg)) rcfg ticks sim_ticks child_list draw pcfg running queue o hs live :
  config_ok cfg → (∀ nd, child_list nd ≡ₚ (map_to_list (children nd)).*2) → joint cfg (KvAllocator0:=kv_allocator cfg Hpo) (real o) hs live → policy_ready cfg pcfg queue →
  ∃ queue' o', calc_priority cfg rcfg ticks sim_ticks child_list draw pcfg running queue o = (Ok queue', o') ∧
    reordered cfg (KvAllocator0:=kv_allocator cfg Hpo) rcfg pcfg hs live running (determine_active_policy pcfg queue) queue o queue' o'.
Proof. intros Hok Hlist Hj Hr. by apply calc_priority_ok. Qed.

Definition demo_queue_req (o : nat) (name : string) (tokens : list Z) : AReq :=
  mk_areq o (mk_req tokens [] [] None None false (-1) false false 0 0 0 false false 0 None [] None []) 0 0 2 false 0 (mk_slot_req None 0 0) name 0 None.
Definition demo_queue : list AReq := [demo_queue_req 1 "a" [5; 6; 7]; demo_queue_req 2 "b" [5; 6; 7]; demo_queue_req 3 "c" [9]].

(** The second request waits for the first to fill the cache. *)
Lemma queue_reordered_witness :
  let pcfg := mk_policy_config LPM false (-1) 32 2 in
  let children nd := (map_to_list (children nd)).*2 in
  let o := mk_order (init_kv demo_kv Z.of_nat 2) (init_cache Z.of_nat) in
  ∃ queue' o', calc_priority demo_kv (mk_req_config false false false) Z.of_nat Z.of_nat children id pcfg None demo_queue o = (Ok queue', o') ∧
    object <$> queue' = [1; 3; 2]%nat ∧ reordered demo_kv (KvAllocator0:=kv_allocator demo_kv demo_pool_ok) (mk_req_config false false false) pcfg [] ∅ None LPM demo_queue o queue' o'.
Proof.
  intros pcfg children o.
  destruct (queue_reordered demo_kv demo_pool_ok (mk_req_config false false false) Z.of_nat Z.of_nat children id pcfg None demo_queue o [] ∅)
    as (queue' & o' & E & Hr).
  - by split.
  - done.
  - apply joint_init.
  - done.
  - exists queue', o'. split; [exact E|]. split; [|exact Hr].
    assert (match (calc_priority demo_kv (mk_req_config false false false) Z.of_nat Z.of_nat children id pcfg None demo_queue o).1 with
            | Ok q => object <$> q | _ => [] end = [1; 3; 2]%nat) as H by (vm_compute; reflexivity).
    by rewrite E in H.
Defined.

(** A request that shares exactly as many tokens as the threshold waits. *)
Lemma threshold_deprioritizes :
  let pcfg := mk_policy_config LPM false (-1) 32 3 in
  let rcfg := mk_req_config false false false in
  let s := (in_batch_match rcfg Z.of_nat pcfg (demo_queue_req 1 "a" [5; 6; 7]) (init_cache Z.of_nat)).2 in
  (in_batch_match rcfg Z.of_nat pcfg (demo_queue_req 2 "b" [5; 6; 7; 8]) s).1 = Ok true.
Proof. by vm_compute. Qed.
