(* ===== verification/Adder.v ===== *)
(** * Admission of a prefill batch

    Models [PrefillAdder] of [srt/managers/schedule_policy.py], which decides what requests the
    next prefill batch takes, the [PrefillDelayer] it asks ([srt/managers/prefill_delayer.py])
    and the part of [_get_new_batch_prefill_raw] of [srt/managers/scheduler.py] that feeds the
    waiting queue to it and allocates for the result, for first-come-first-served order. The
    tree, the pools and the table are the ones allocation works on. Token ratios, usages and times
    are exact rationals. Preemption, LoRA, host caches, sliding windows, state-space
    models, dynamic chunk sizes and mixing with a decode batch are not modelled. *)

From Stdlib Require Import QArith.
From S2P Require Import Prelude RadixKey RadixCache RadixReq KvPool KvAlloc SchedulePolicy.
Local Open Scope Z_scope.

(** [int(x)] *)
Definition Qtrunc (x : Q) : Z := Z.quot (Qnum x) (Z.pos (Qden x)).

(** ** Delaying a prefill *)

Record DelayState := mk_delay_state { delayed_count : Z; start_time : Q }.

Record DelayerConfig := mk_delayer_config {
  max_delay_passes : Z;
  token_usage_low_watermark : option Q;
  queue_min_ratio : option Q;
  max_delay_ms : Q;
  delayer_dp_size : Z;
  enable_dp_attention : bool;
}.

Record PrefillDelayer := mk_delayer { curr_state : option DelayState; skip_first_delayer : bool }.

(** What each rank contributes to the decision. *)
Record LocalInfo := mk_local_info {
  prefillable : bool;
  watermark_force_allow : bool;
  li_running_batch : Z;
  li_max_prefill_bs : Z;
  li_waiting_queue_len : Z;
}.

Definition bump_delayed_count (s : DelayState) : DelayState := mk_delay_state (delayed_count s + 1) (start_time s).
Definition Zmaximum (l : list Z) : Z := foldr Z.max 0 l.

Section Delayer.
Context (dcfg : DelayerConfig) (gather : LocalInfo → list LocalInfo) (now : Q).

Definition queue_condition (prev_state : option DelayState) (running max_bs waiting : Z) : bool :=
  match queue_min_ratio dcfg with
  | Some ratio =>
      (0 <? running) &&
      (let queue_min_effective := Z.min (Qtrunc (inject_Z running * ratio)%Q) max_bs in
       (0 <? queue_min_effective) && (waiting <? queue_min_effective) &&
       match prev_state with
       | Some p => Qlt_bool ((now - start_time p) * 1000)%Q (max_delay_ms dcfg)
       | None => true
       end)
  | None => false
  end.

(** The state for the next pass, and whether prefill is allowed. *)
Definition negotiate_should_allow_prefill_pure (skip_first : bool) (prev_state : option DelayState) (local_prefillable : bool)
    (token_usage : Q) (running_batch max_prefill_bs max_running_requests waiting_queue_len : Z) :
    option DelayState * bool * bool :=
  let force := local_prefillable && match token_usage_low_watermark dcfg with Some x => Qlt_bool token_usage x | None => false end in
  let infos := gather (mk_local_info local_prefillable force running_batch max_prefill_bs waiting_queue_len) in
  let forced := existsb watermark_force_allow infos in
  let delayed := Some (bump_delayed_count (default (mk_delay_state 0 now) prev_state)) in
  if forallb prefillable infos then
    if forced then (None, true, skip_first)
    else
      let max_running := if enable_dp_attention dcfg then max_running_requests
                         else (max_running_requests + delayer_dp_size dcfg - 1) / delayer_dp_size dcfg in
      let running := Zmaximum (li_running_batch <$> infos) in
      let max_bs := Zmaximum (li_max_prefill_bs <$> infos) in
      let slot_condition := max_running - running <? max_bs in
      if slot_condition || queue_condition prev_state running max_bs (Zmaximum (li_waiting_queue_len <$> infos)) then
        if skip_first then (None, true, false) else (delayed, false, skip_first)
      else (None, true, skip_first)
  else if negb (existsb prefillable infos) then (None, true, skip_first)
  else if forced then (None, true, skip_first)
  else if from_option delayed_count 0 prev_state <? max_delay_passes dcfg - 1 then (delayed, false, skip_first)
  else (None, true, skip_first).

(** [PrefillDelayerSinglePassExecutor]: one answer for the whole pass. *)
Record Executor := mk_executor { delayer : PrefillDelayer; token_usage : Q; result : option bool }.

Definition negotiate_should_allow_prefill (x : Executor) (local_prefillable : bool)
    (running_batch max_prefill_bs max_running_requests waiting_queue_len : Z) : bool * Executor :=
  match result x with
  | Some allow => (allow, x)
  | None =>
      let '(next, allow, skip) := negotiate_should_allow_prefill_pure (skip_first_delayer (delayer x)) (curr_state (delayer x))
        local_prefillable (token_usage x) running_batch max_prefill_bs max_running_requests waiting_queue_len in
      (allow, mk_executor (mk_delayer next skip) (token_usage x) (Some allow))
  end.

Definition finalize (x : Executor) : PrefillDelayer := delayer (negotiate_should_allow_prefill x false 0 0 0 0).2.
End Delayer.

(** ** The adder *)

Inductive AddReqResult := CONTINUE | NO_TOKEN | OTHER.
#[global] Instance AddReqResult_eq_dec : EqDecision AddReqResult.
Proof. solve_decision. Defined.

(** What the adder is given; [dllm_config] is a block size and a number of requests. *)
Record AdderConfig := mk_adder_config {
  running_batch : option (list AReq);
  new_token_ratio : Q;
  max_prefill_bs : Z;
  max_running_requests : Z;
  prefill_max_requests : option Z;
  context_parallel : bool;
  dllm_config : option (Z * Z);
  waiting_queue_len : Z;
  CLIP_MAX_NEW_TOKENS : Z;
}.

Record Adder := mk_adder {
  rem_input_tokens : Z;
  rem_chunk_tokens : option Z;
  rem_dllm_tokens : Z;
  rem_total_token_offset : Q;
  cur_rem_token_offset : Z;
  req_states : option (list (Q * Z));
  can_run_list : list AReq;
  new_chunked_req : option AReq;
  log_hit_tokens : Z;
  log_input_tokens : Z;
  prefill_delayer_single_pass : option Executor;
}.

Definition set_req_states x (a : Adder) : Adder :=
  mk_adder (rem_input_tokens a) (rem_chunk_tokens a) (rem_dllm_tokens a) (rem_total_token_offset a) (cur_rem_token_offset a)
    x (can_run_list a) (new_chunked_req a) (log_hit_tokens a) (log_input_tokens a) (prefill_delayer_single_pass a).
Definition set_can_run_list f (a : Adder) : Adder :=
  mk_adder (rem_input_tokens a) (rem_chunk_tokens a) (rem_dllm_tokens a) (rem_total_token_offset a) (cur_rem_token_offset a)
    (req_states a) (f (can_run_list a)) (new_chunked_req a) (log_hit_tokens a) (log_input_tokens a) (prefill_delayer_single_pass a).
Definition set_new_chunked_req x (a : Adder) : Adder :=
  mk_adder (rem_input_tokens a) (rem_chunk_tokens a) (rem_dllm_tokens a) (rem_total_token_offset a) (cur_rem_token_offset a)
    (req_states a) (can_run_list a) x (log_hit_tokens a) (log_input_tokens a) (prefill_delayer_single_pass a).
Definition set_executor x (a : Adder) : Adder :=
  mk_adder (rem_input_tokens a) (rem_chunk_tokens a) (rem_dllm_tokens a) (rem_total_token_offset a) (cur_rem_token_offset a)
    (req_states a) (can_run_list a) (new_chunked_req a) (log_hit_tokens a) (log_input_tokens a) x.

(** The adder, the memory, and the flag of the running batch that the scheduler keeps. *)
Record Pass := mk_pass { adder : Adder; memory : Kv; batch_is_full : bool }.

Definition update_adder (f : Adder → Adder) : M Pass unit := modify (λ s, mk_pass (f (adder s)) (memory s) (batch_is_full s)).
Definition set_full (b : bool) : M Pass unit := modify (λ s, mk_pass (adder s) (memory s) b).
Definition on_memory {A} (m : M Kv A) : M Pass A :=
  λ s, let '(r, k) := m (memory s) in (r, mk_pass (adder s) k (batch_is_full s)).

Section Adder.
Context (cfg : KvConfig) (rcfg : ReqConfig) (ticks : nat → Z) (uninit beyond : Z → Z).
Context (dcfg : DelayerConfig) (gather : LocalInfo → list LocalInfo) (now : Q).
Context (acfg : AdderConfig).
Local Abbreviation cc := (cache_cfg cfg).
Local Abbreviation ps := (pool_page_size (pool_cfg cfg)).
Local Abbreviation Mp := (M Pass).
Local Abbreviation clip n := (Z.min n (CLIP_MAX_NEW_TOKENS acfg)).

Definition output_len (q : AReq) : Z := length (output_ids (req q)).

Definition get_running_request_total_token_offset (q : AReq) : Q :=
  (inject_Z (clip (max_new_tokens q - output_len q)) * new_token_ratio acfg)%Q.

Definition Qsum (l : list Q) : Q := foldr Qplus 0%Q l.

Definition init_adder (rem_input : Z) (rem_chunk : option Z) (num_mixed_decode_tokens : Z) (x : option Executor) : Adder :=
  mk_adder (rem_input - num_mixed_decode_tokens)
    ((λ c, c - num_mixed_decode_tokens) <$> rem_chunk)
    (from_option (λ '(block, reqs), reqs * block) 0 (dllm_config acfg))
    (inject_Z num_mixed_decode_tokens + from_option (λ rs, Qsum (get_running_request_total_token_offset <$> rs)) 0%Q (running_batch acfg))%Q
    num_mixed_decode_tokens None [] None 0 0 x.

(** *** Budgets *)

Definition evictable_size (k : Kv) : Z := if is_chunk_cache cfg then 0 else evictable_size_ (tree k).
Definition available_and_evictable (k : Kv) : Z := available_size (pool_cfg cfg) (pool k) + evictable_size k.

Definition rem_total_tokens (s : Pass) : Q := (inject_Z (available_and_evictable (memory s)) - rem_total_token_offset (adder s))%Q.
Definition cur_rem_tokens (s : Pass) : Z := available_and_evictable (memory s) - cur_rem_token_offset (adder s).

Definition ceil_paged_tokens (tokens : Z) : Z := - (- tokens / ps) * ps.

Definition budget_state (s : Pass) : AddReqResult :=
  let a := adder s in
  if Qle_bool (rem_total_tokens s) 0 || (cur_rem_tokens s <=? 0) then NO_TOKEN
  else if rem_input_tokens a <=? 0 then OTHER
  else if (match dllm_config acfg with
           | Some _ => rem_dllm_tokens a <=? 0
           | None => from_option (λ c, c <=? 0) false (rem_chunk_tokens a)
           end) then OTHER
  else CONTINUE.

Definition update_prefill_budget (prefix_len extend_len max_new : Z) : Mp unit :=
  let n := ceil_paged_tokens extend_len in
  update_adder (λ a,
    mk_adder (rem_input_tokens a - n)
      (match dllm_config acfg with Some _ => rem_chunk_tokens a | None => (λ c, c - n) <$> rem_chunk_tokens a end)
      (match dllm_config acfg with Some _ => rem_dllm_tokens a - n | None => rem_dllm_tokens a end)
      (rem_total_token_offset a + inject_Z (n + max_new + ps))%Q
      (cur_rem_token_offset a + (n + ps))
      (req_states a) (can_run_list a) (new_chunked_req a)
      (log_hit_tokens a + prefix_len) (log_input_tokens a + n) (prefill_delayer_single_pass a)).

Definition append_can_run (q : AReq) : Mp unit := update_adder (set_can_run_list (λ l, l ++ [q])).

(** *** Diffusion language models *)

Definition dllm_block_size : Z := from_option fst 0 (dllm_config acfg).

Definition get_dllm_remain_tokens (s : Pass) : Z :=
  let n := Z.min (Z.min (rem_dllm_tokens (adder s)) dllm_block_size) (Qtrunc (rem_total_tokens s)) in
  if n <=? 0 then rem_dllm_tokens (adder s) else n.

Definition add_dllm_req (q : AReq) (prefix_len : Z) : Mp AReq :=
  a ← gets adder;
  let trunc_len := Z.min (rem_dllm_tokens a) dllm_block_size / ps * ps in
  let q := cut_fill_ids (prefix_len + trunc_len) (put_extend_input_len trunc_len q) in
  append_can_run q ≫= λ _,
  update_prefill_budget prefix_len trunc_len 0 ≫= λ _,
  mret q.

Definition add_dllm_staging_req (q : AReq) : Mp (AddReqResult * AReq) :=
  match dllm_config acfg with
  | None => raise AssertionError
  | Some _ =>
      n ← gets get_dllm_remain_tokens;
      if n <=? 0 then mret (NO_TOKEN, q)
      else
        let truncated := n <? req_extend_input_len q in
        let q := put_extend_input_len (Z.min (req_extend_input_len q) n) q in
        let q := cut_fill_ids (prefix_length q + req_extend_input_len q) q in
        append_can_run q ≫= λ _,
        update_prefill_budget 0 (req_extend_input_len q) (if truncated then 0 else clip (max_new_tokens q)) ≫= λ _,
        left ← gets get_dllm_remain_tokens;
        mret (if left <=? 0 then NO_TOKEN else CONTINUE, q)
  end.

(** *** The request whose chunks are under way *)

(** The request again, if it is not finished with this chunk. *)
Definition add_chunked_req (q : AReq) : Mp (option AReq) :=
  n ← (match dllm_config acfg with
       | Some _ => gets get_dllm_remain_tokens
       | None =>
           a ← gets adder;
           match rem_chunk_tokens a with
           | None => raise TypeError
           | Some c =>
               total ← gets rem_total_tokens;
               let n := Z.min c (Qtrunc total) in
               mret (if n <=? 0 then c else n)
           end
       end);
  let truncated := n <? req_extend_input_len q in
  let q := set_extend_input_len (Z.min (req_extend_input_len q) n) q in
  let q := cut_fill_ids (prefix_length q + req_extend_input_len q) q in
  append_can_run q ≫= λ _,
  update_prefill_budget 0 (req_extend_input_len q) (if truncated then 0 else clip (max_new_tokens q)) ≫= λ _,
  mret (if truncated then Some q else None).

(** *** Locks *)

Definition lock_with (f : nat → M Cache Z) (n : option nat) : M Kv Z :=
  if is_chunk_cache cfg then mret 0
  else on_tree cfg (match n with Some n => f n | None => if disable cc then mret 0 else raise AttributeError end).
Definition inc_lock (n : option nat) : Mp Z := on_memory (lock_with (inc_lock_ref cc) n).
Definition dec_lock (n : option nat) : Mp Z := on_memory (lock_with (dec_lock_ref cc) n).

(** [with self._lock_node(last_node): body]; the lock is released whatever happens. *)
Definition lock_node {A} (n : option nat) (body : Mp A) : Mp A :=
  λ s, let '(r, s1) := (inc_lock n ≫= λ _, body) s in
       match dec_lock n s1 with
       | (Ok _, s2) => (r, s2)
       | (Raise e, s2) => (Raise e, s2)
       end.

(** *** Requests that ignore the end of sequence, without a prefix cache *)

Definition IGNORE_EOS_RESERVE_TOKENS : Z := 1.

(** Tokens left to generate and tokens occupied; [None] where nothing is left. *)
Definition state_of (q : AReq) : option (Q * Z) :=
  let ratio := if ignore_eos q then 1%Q else new_token_ratio acfg in
  let tokens_left := (inject_Z (max_new_tokens q) * ratio - inject_Z (output_len q))%Q in
  if Qle_bool tokens_left 0 then None else Some (tokens_left, length (origin_input_ids (req q)) + output_len q).

(** [i] after [for i in range(len(l)): if x <= l[i]: break]. *)
Fixpoint insert_place (x : Q) (l : list (Q * Z)) : nat :=
  match l with
  | [] | [_] => O
  | (y, _) :: l => if Qle_bool x y then O else S (insert_place x l)
  end.
Definition insert_state (e : Q * Z) (l : list (Q * Z)) : list (Q * Z) :=
  let i := insert_place e.1 l in take i l ++ e :: drop i l.

(** [sort(key=lambda x: x[0])] *)
Definition sort_states (l : list (Q * Z)) : list (Q * Z) := stable_sort (λ e f, Qlt_bool e.1 f.1) l.

Definition update_req_states (q : AReq) (a : Adder) : list (Q * Z) :=
  match req_states a with
  | None => sort_states (omap state_of (q :: default [] (running_batch acfg) ++ can_run_list a))
  | Some l => match state_of q with Some e => insert_state e l | None => l end
  end.

(** Whether tokens run out before the requests end, in the order they end. *)
Fixpoint runs_out (cur_rem : Z) (freed : Z) (states : list (Q * Z)) : bool :=
  match states with
  | [] => false
  | (tokens_left, occupied) :: rest =>
      let bs := Z.of_nat (length states) in
      let min_free_tokens := (inject_Z (cur_rem + freed) - tokens_left * inject_Z bs)%Q in
      Qle_bool min_free_tokens (inject_Z (IGNORE_EOS_RESERVE_TOKENS * bs)) || runs_out cur_rem (freed + occupied) rest
  end.

Definition negotiate (running max_bs max_running waiting : Z) : Mp bool :=
  a ← gets adder;
  match prefill_delayer_single_pass a with
  | None => mret true
  | Some x =>
      let '(allow, x) := negotiate_should_allow_prefill dcfg gather now x true running max_bs max_running waiting in
      update_adder (set_executor (Some x)) ≫= λ _, mret allow
  end.

Definition with_budget_state (q : AReq) : Mp (AddReqResult * AReq) := gets (λ s, (budget_state s, q)).

Definition add_one_req_ignore_eos (q : AReq) : Mp (AddReqResult * AReq) :=
  let paged_input := ceil_paged_tokens (req_extend_input_len q) in
  cur ← gets cur_rem_tokens;
  total ← gets rem_total_tokens;
  if (cur <? paged_input) || Qlt_bool total (inject_Z paged_input) then mret (NO_TOKEN, q)
  else
    update_adder (λ a, set_req_states (Some (update_req_states q a)) a) ≫= λ _,
    a ← gets adder;
    if runs_out (cur - paged_input) 0 (default [] (req_states a)) then mret (NO_TOKEN, q)
    else
      allow ← negotiate 0 0 0 0;
      if negb allow then mret (OTHER, q)
      else
        match dllm_config acfg with
        | Some _ =>
            if rem_dllm_tokens a <=? 0 then mret (OTHER, q) else add_dllm_req q 0 ≫= with_budget_state
        | None =>
            if from_option (λ c, req_extend_input_len q <=? c) true (rem_chunk_tokens a) then
              append_can_run q ≫= λ _,
              update_prefill_budget 0 (req_extend_input_len q) (clip (max_new_tokens q)) ≫= λ _,
              with_budget_state q
            else
              let c := default 0 (rem_chunk_tokens a) in
              if c <=? 0 then mret (OTHER, q)
              else
                let q := cut_fill_ids c (set_extend_input_len c q) in
                append_can_run q ≫= λ _,
                update_adder (set_new_chunked_req (Some q)) ≫= λ _,
                update_prefill_budget 0 c 0 ≫= λ _,
                with_budget_state q
        end.

(** *** A request of the waiting queue *)

(** The chunk a request is cut to, if there is one. *)
Definition truncated_len (q : AReq) (chunk : Z) (truncation_align_size : option Z) : option Z :=
  let trunc_len := chunk / ps * ps in
  if trunc_len <=? 0 then None
  else
    let align n := (n + prefix_length q) / ps * ps - prefix_length q in
    let checked n := if n <=? 0 then None else Some n in
    match truncation_align_size with
    | None => checked (align trunc_len)
    | Some size => if trunc_len <? size then None else checked (align (size * (trunc_len / size)))
    end.

(** Without chunked prefill, only the first request may exceed the input budget. *)
Definition input_exceeded (a : Adder) (input_tokens : Z) : bool :=
  bool_decide (rem_chunk_tokens a = None) && negb (bool_decide (can_run_list a = [])) && (rem_input_tokens a <=? input_tokens).

(** The part under the lock of the last node. *)
Definition add_locked (q : AReq) (truncation_align_size : option Z) (total_tokens : Z) : Mp (option AddReqResult * AReq) :=
  total ← gets rem_total_tokens;
  if Qle_bool total (inject_Z total_tokens) then mret (Some NO_TOKEN, q)
  else if 0 <? host_hit_length q then raise RuntimeError (* [init_load_back]: [NotImplementedError] *)
  else
    a ← gets adder;
    let input_tokens := ceil_paged_tokens (req_extend_input_len q) in
    if input_exceeded a input_tokens then mret (Some OTHER, q)
    else
      match dllm_config acfg with
      | Some _ =>
          if rem_dllm_tokens a <=? 0 then mret (Some OTHER, q)
          else if bool_decide (is_Some truncation_align_size) then raise AssertionError
          else
            q ← add_dllm_req q (prefix_length q);
            inc_lock (last_node (req q)) ≫= λ _,
            mret (None, q)
      | None =>
          if from_option (λ c, input_tokens <=? c) true (rem_chunk_tokens a) then
            append_can_run q ≫= λ _,
            inc_lock (last_node (req q)) ≫= λ _,
            update_prefill_budget (prefix_length q) input_tokens (clip (max_new_tokens q)) ≫= λ _,
            mret (None, q)
          else
            match truncated_len q (default 0 (rem_chunk_tokens a)) truncation_align_size with
            | None => mret (Some OTHER, q)
            | Some trunc_len =>
                let q := cut_fill_ids (prefix_length q + trunc_len) (set_extend_input_len trunc_len q) in
                append_can_run q ≫= λ _,
                update_adder (set_new_chunked_req (Some q)) ≫= λ _,
                inc_lock (last_node (req q)) ≫= λ _,
                update_prefill_budget (prefix_length q) trunc_len 0 ≫= λ _,
                mret (None, q)
            end
      end.

Definition add_one_req (q : AReq) (truncation_align_size : option Z) : Mp (AddReqResult * AReq) :=
  a ← gets adder;
  running ← lift_res (match prefill_delayer_single_pass a, running_batch acfg with
                      | Some _, None => Raise AttributeError
                      | _, rs => Ok (Z.of_nat (length (default [] rs)))
                      end);
  allow ← negotiate running (max_prefill_bs acfg) (max_running_requests acfg) (waiting_queue_len acfg);
  let count := Z.of_nat (length (can_run_list a)) in
  if negb allow then mret (OTHER, q)
  else if context_parallel acfg && (1 <=? count) then mret (OTHER, q)
  else if from_option (λ x, x <=? count) false (prefill_max_requests acfg) then mret (OTHER, q)
  else if ignore_eos q && (is_chunk_cache cfg || disable cc) then add_one_req_ignore_eos q
  else
    let max_new := clip (Z.max (max_new_tokens q - output_len q) 0) in
    let total_tokens := req_extend_input_len q + max_new + ps in
    total ← gets rem_total_tokens;
    if Qle_bool total (inject_Z total_tokens) then mret (NO_TOKEN, q)
    else if input_exceeded a (ceil_paged_tokens (req_extend_input_len q - host_hit_length q)) then mret (OTHER, q)
    else
      r ← lock_node (last_node (req q)) (add_locked q truncation_align_size total_tokens);
      match r.1 with
      | Some result => mret (result, r.2)
      | None => with_budget_state r.2
      end.

(** ** Feeding the waiting queue *)

(** [init_next_round_input], with the tree or ([chunked]) without. *)
Definition init_next_round (chunked : bool) (q : AReq) : Mp AReq :=
  let finish r := let q := set_req (λ _, r) q in set_extend_input_len (fill_length q - prefix_length q) q in
  let filled := set_fill_ids (origin_input_ids (req q) ++ output_ids (req q)) (req q) in
  let matched r := set_host_hit_length 0 (finish r) in
  if chunked then mret (finish filled)
  else if is_chunk_cache cfg then mret (matched (set_prefix 0 None [] filled))
  else
    r ← on_memory (on_tree cfg (λ s, let '(r, (s', r')) := init_next_round_input cc rcfg ticks (s, req q) in (r ≫= λ _, Ok r', s')));
    mret (matched r).
End Adder.

Record SchedConfig := mk_sched_config {
  pp_max_micro_batch_size : Z;
  is_prefill_instance : bool;
  max_prefill_tokens : Z;
  chunked_prefill_size : option Z;
  is_mixed_chunk : bool;
  truncation_align : option Z;
  sched_max_running_requests : Z;
  sched_prefill_max_requests : option Z;
  sched_context_parallel : bool;
  sched_dllm : option (Z * Z);
  sched_clip : Z;
  sched_policy : PolicyConfig;
}.

(** The scheduler's state as far as prefill batches go. *)
Record Sched := mk_sched {
  running_reqs : list AReq;
  running_full : bool;
  waiting_queue : list AReq;
  chunked_req : option AReq;
  ratio_tracker : Q;
  sched_max_prefill_bs : Z;
  sched_delayer : option PrefillDelayer;
  sched_memory : Kv;
  policy_tree : Cache;
}.

Section Feed.
Context (cfg : KvConfig) (rcfg : ReqConfig) (ticks : nat → Z) (uninit beyond : Z → Z).
Context (dcfg : DelayerConfig) (gather : LocalInfo → list LocalInfo) (now : Q) (usage : Q).
Context (scfg : SchedConfig) (sim_ticks : nat → Z) (child_list : TreeNode → list nat) (draw : nat → nat).
Local Abbreviation Mp := (M Pass).

Definition get_num_allocatable_reqs (running_bs : Z) (k : Kv) : Z :=
  Z.min (pp_max_micro_batch_size scfg - running_bs) (slots_available (slots k)).

(** The batch is full: no row or place for one more. *)
Definition no_place (running_bs : Z) (s : Pass) : bool :=
  let count := Z.of_nat (length (can_run_list (adder s))) in
  (get_num_allocatable_reqs running_bs (memory s) <=? count) ||
  (is_prefill_instance scfg && (slots_available (slots (memory s)) <=? count)).

(** The loop over the waiting queue; it gives back the queue, whose requests it writes to. *)
Fixpoint feed (acfg : AdderConfig) (queue : list AReq) : Mp (list AReq) :=
  match queue with
  | [] => mret []
  | q :: queue =>
      full ← (gets (no_place (length (default [] (running_batch acfg)))) : Mp bool);
      when full (set_full true) ≫= λ _,
      stop ← (gets batch_is_full : Mp bool);
      if (stop : bool) then mret (q :: queue)
      else
        q ← init_next_round cfg rcfg ticks false q;
        r ← add_one_req cfg dcfg gather now acfg q (truncation_align scfg);
        if bool_decide (r.1 = CONTINUE) then rest ← feed acfg queue; mret (r.2 :: rest)
        else when (bool_decide (r.1 = NO_TOKEN)) (set_full true) ≫= λ _, mret (r.2 :: queue)
  end.

Definition remaining (can_run queue : list AReq) : list AReq :=
  filter (λ q, object q ∉ object <$> can_run) queue.

(** The same object in the list, changed. *)
Definition update_object (o : nat) (f : AReq → AReq) (l : list AReq) : list AReq :=
  (λ q, if (object q =? o)%nat then f q else q) <$> l.
Definition one_more_chunk : AReq → AReq :=
  set_req_slot (λ s, mk_slot_req (slot_of s) (inflight_middle_chunks s + 1) (slot_kv_committed_len s)).

(** What is left of the chunked request and of the queue, after [chunked] was added. *)
Definition fill_adder (acfg : AdderConfig) (chunked : option AReq) (queue : list AReq) : Mp (option AReq * list AReq) :=
  c ← (match chunked with
       | Some q => q ← init_next_round cfg rcfg ticks true q; add_chunked_req cfg acfg q
       | None => mret None
       end);
  queue ← feed acfg queue;
  mret (c, queue).

Definition adder_config (s : Sched) : AdderConfig :=
  mk_adder_config (Some (running_reqs s)) (ratio_tracker s) (sched_max_prefill_bs s) (sched_max_running_requests scfg)
    (sched_prefill_max_requests scfg) (sched_context_parallel scfg) (sched_dllm scfg) (length (waiting_queue s)) (sched_clip scfg).

(** [self.policy.calc_priority(self.waiting_queue, self.running_batch)] *)
Definition order_queue : M Sched unit :=
  λ s, let '(r, o) := calc_priority cfg rcfg ticks sim_ticks child_list draw (sched_policy scfg) (Some (running_reqs s)) (waiting_queue s)
                        (mk_order (sched_memory s) (policy_tree s)) in
       let put queue := mk_sched (running_reqs s) (running_full s) queue (chunked_req s) (ratio_tracker s) (sched_max_prefill_bs s)
                          (sched_delayer s) (real o) (waiting_queue_radix_tree o) in
       match r with
       | Ok queue => (Ok tt, put queue)
       | Raise e => (Raise e, put (waiting_queue s))
       end.

Definition put_batch full queue chunked bs k : M Sched unit :=
  modify (λ s, mk_sched (running_reqs s) full queue chunked (ratio_tracker s) bs (sched_delayer s) k (policy_tree s)).

(** The batch from the ordered queue: its requests, their new KV indices and their rows. *)
Definition take_batch (x : option Executor) : M Sched (option (list AReq * list Z * list SlotReq) * option Executor) :=
  s ← get;
  let running_bs := Z.of_nat (length (running_reqs s)) in
  let acfg := adder_config s in
  let a := init_adder acfg (max_prefill_tokens scfg) (chunked_prefill_size scfg) (if is_mixed_chunk scfg then running_bs else 0) x in
  let '(r, p) := fill_adder acfg (chunked_req s) (waiting_queue s) (mk_pass a (sched_memory s) (running_full s)) in
  match r with
  | Raise e => put_batch (batch_is_full p) (waiting_queue s) (chunked_req s) (sched_max_prefill_bs s) (memory p) ≫= λ _, raise e
  | Ok (chunked, queue) =>
      let x := prefill_delayer_single_pass (adder p) in
      let can_run := can_run_list (adder p) in
      let queue := remaining can_run queue in
      put_batch (batch_is_full p) queue chunked (sched_max_prefill_bs s) (memory p) ≫= λ _,
      if bool_decide (can_run = []) then mret (None, x)
      else
        chunked ← lift_res (match new_chunked_req (adder p), chunked with
                            | Some _, Some _ => Raise AssertionError
                            | Some q, None => Ok (Some q)
                            | None, c => Ok c
                            end);
        let can_run := from_option (λ c, update_object (object c) one_more_chunk) id chunked can_run in
        let bs := Z.max (sched_max_prefill_bs s) (length can_run) in
        let '(r, k) := alloc_for_extend cfg uninit beyond (batch_req <$> can_run) (memory p) in
        put_batch (batch_is_full p) queue (one_more_chunk <$> chunked) bs k ≫= λ _,
        out ← lift_res r;
        mret (Some (can_run, out.1, out.2), x)
  end.

Definition get_new_batch_prefill_raw (x : option Executor) : M Sched (option (list AReq * list Z * list SlotReq) * option Executor) :=
  s ← get;
  let no_chunk := bool_decide (chunked_req s = None) in
  if (running_full s || bool_decide (waiting_queue s = [])) && no_chunk then mret (None, x)
  else if (get_num_allocatable_reqs (length (running_reqs s)) (sched_memory s) <=? 0) && no_chunk then
    put_batch true (waiting_queue s) (chunked_req s) (sched_max_prefill_bs s) (sched_memory s) ≫= λ _, mret (None, x)
  else order_queue ≫= λ _, take_batch x.

Definition get_new_batch_prefill : M Sched (option (list AReq * list Z * list SlotReq)) :=
  d ← gets sched_delayer;
  r ← get_new_batch_prefill_raw ((λ d, mk_executor d usage None) <$> d);
  modify (λ s, mk_sched (running_reqs s) (running_full s) (waiting_queue s) (chunked_req s) (ratio_tracker s) (sched_max_prefill_bs s)
                 (finalize dcfg gather now <$> r.2) (sched_memory s) (policy_tree s)) ≫= λ _,
  mret r.1.
End Feed.
