(* ===== verification/AdderProps.v ===== *)
(** * Admitted batches get their memory

    A pass over the waiting queue keeps tree and pool in step, locks what it admits and
    nothing else, and admits no more than fits: the allocation for the batch succeeds. *)

From Stdlib Require Import QArith Qround Lqa.
From stdpp Require Import gmultiset.
From S2P Require Import Prelude RadixKey RadixCache RadixFacts RadixInv RadixOps RadixLocks RadixApi RadixProps.
From S2P Require Import RadixReq RadixReqFacts KvPool KvKernelFacts KvPoolProps KvAlloc KvAllocFacts KvAllocProps SchedulePolicy SchedulePolicyProps Adder.
Local Open Scope Z_scope.

(** ** Locks and the lookup *)

Section Lookup.
Context (cfg : KvConfig).
Local Abbreviation cc := (cache_cfg cfg).
Local Abbreviation pc := (pool_cfg cfg).
Local Abbreviation ps := (pool_page_size pc).
Context `{!KvAllocator pc (allocator_free cfg)} (Hok : config_ok cfg).
Local Abbreviation joint := (joint cfg).
Local Abbreviation room := (room cfg).
Implicit Types (k : Kv) (hs : list nat) (live : gset Z) (s : Cache) (q : AReq).

(** *** Locks *)

(** The nodes that are locked, after a request locked its own. *)
Definition push (n : option nat) hs : list nat :=
  if is_chunk_cache cfg then hs else match n with Some n => n :: hs | None => hs end.

(** Without a prefix cache there is no node to lock. *)
Definition node_ok k (n : option nat) : Prop :=
  is_chunk_cache cfg = true ∨ ∃ m, n = Some m ∧ is_Some (nodes (tree k) !! m).

(** The tree is the same but for reference counts. *)
Definition same_shape k k' : Prop := same_tree (nodes (tree k)) (nodes (tree k')) ∧ root_node (tree k') = root_node (tree k).

Lemma same_shape_refl k : same_shape k k.
Proof. split; [apply same_tree_refl|done]. Qed.

Lemma same_shape_trans k1 k2 k3 : same_shape k1 k2 → same_shape k2 k3 → same_shape k1 k3.
Proof. intros [] []. split; [by eapply same_tree_trans|congruence]. Qed.

Lemma same_shape_node k k' n : same_shape k k' → node_ok k n → node_ok k' n.
Proof.
  intros [Hs _] [?|(m & -> & nd & E)]; [by left|]. right. exists m. split; [done|].
  destruct (same_tree_some _ _ _ _ Hs E) as (nd' & E' & _). eauto.
Qed.

Lemma shape_room k k' hs live : joint k hs live → joint k' hs live → calm k k' → same_shape k k' → room k' = room k.
Proof.
  intros Hj Hj' Hc [Hs Hr]. unfold KvAllocFacts.room, evictable. rewrite (ca_pool _ _ Hc). destruct (is_chunk_cache cfg); [done|].
  by destruct (inv_sizes cc (tree k) (tree k') hs (j_tree _ _ _ _ Hj) (j_tree _ _ _ _ Hj') Hs Hr) as [-> _].
Qed.

Lemma relock_joint k hs hs' live s :
  joint k hs live → inv cc s hs' → relock (tree k) s →
  let k' := mk_kv s (pool k) (slots k) (req_to_token k) in joint k' hs' live ∧ calm k k' ∧ same_shape k k'.
Proof.
  intros Hj Hi Hr k'. destruct (joint_calm cfg Hok k hs hs' live s Hj Hi) as [? ?]; [by intros u v; apply (relock_content cc (tree k) s u v Hr)|by apply (rl_indices _ _ Hr)|by intros u v n; apply (relock_path (tree k) s)|].
  split; [done|]. split; [done|]. split; apply Hr.
Qed.

Lemma inc_lock_ok k hs live n :
  joint k hs live → node_ok k n →
  ∃ z k', lock_with cfg (inc_lock_ref cc) n k = (Ok z, k') ∧ joint k' (push n hs) live ∧ calm k k' ∧ same_shape k k'.
Proof.
  intros Hj Hn. unfold lock_with, push. destruct (is_chunk_cache cfg) eqn:Hchunk.
  { exists 0, k. split; [done|]. split; [done|]. split; [done|apply same_shape_refl]. }
  destruct Hn as [?|(m & -> & Hm)]; [congruence|].
  destruct (inc_lock_ref_ok cc (tree k) hs m (ck_enabled _ Hok) (j_tree _ _ _ _ Hj) Hm) as (s & E & Hr & Hi).
  destruct (relock_joint k hs (m :: hs) live s Hj Hi Hr) as (? & ? & ?).
  eexists _, _. split; [by apply (on_tree_calm cfg); [exact E|apply Hr]|done].
Qed.

Lemma dec_lock_ok k hs live n :
  joint k (push n hs) live → node_ok k n →
  ∃ z k', lock_with cfg (dec_lock_ref cc) n k = (Ok z, k') ∧ joint k' hs live ∧ calm k k' ∧ same_shape k k'.
Proof.
  intros Hj Hn. unfold lock_with, push in *. destruct (is_chunk_cache cfg) eqn:Hchunk.
  { exists 0, k. split; [done|]. split; [done|]. split; [done|apply same_shape_refl]. }
  destruct Hn as [?|(m & -> & Hm)]; [congruence|].
  destruct (dec_lock_ref_ok cc (tree k) hs m (ck_enabled _ Hok) (j_tree _ _ _ _ Hj)) as (s & E & Hr & Hi).
  destruct (relock_joint k (m :: hs) hs live s Hj Hi Hr) as (? & ? & ?).
  eexists _, _. split; [by apply (on_tree_calm cfg); [exact E|apply Hr]|done].
Qed.

Lemma push_perm n hs hs' : hs ≡ₚ hs' → push n hs ≡ₚ push n hs'.
Proof. intros ?. unfold push. destruct (is_chunk_cache cfg), n; by try constructor. Qed.

(** *** The lookup *)

(** What holds of a request of the waiting queue. *)
Record waiting_ok q : Prop := {
  wo_slot : slot_of (req_slot q) = None;
  wo_new : 0 ≤ max_new_tokens q;
  wo_len : Z.of_nat (length (origin_input_ids (req q) ++ output_ids (req q))) ≤ max_context_len cfg;
}.

(** Lengths that add up, and a prefix of whole pages. *)
Record sized q : Prop := {
  so_slot : slot_of (req_slot q) = None;
  so_extend : 0 ≤ req_extend_input_len q;
  so_fill : fill_length q = prefix_length q + req_extend_input_len q;
  so_whole : whole pc (RadixReq.prefix_indices (req q));
  so_max : fill_length q ≤ max_context_len cfg;
}.

(** A request that was looked up. *)
Record queued_ok k q : Prop := {
  qo_waiting : waiting_ok q;
  qo_sized : sized q;
  qo_host : host_hit_length q = 0;
  qo_node : node_ok k (last_node (req q));
  qo_chunk : is_chunk_cache cfg = true → RadixReq.prefix_indices (req q) = [];
}.

Lemma lookup_tokens_length r : (length (lookup_tokens r) ≤ length (origin_input_ids r ++ output_ids r))%nat.
Proof. unfold lookup_tokens. destruct (positional_embed_overrides r); [simpl; lia|]. rewrite length_take. lia. Qed.

Lemma finish_sized q r :
  waiting_ok q → fill_ids r = origin_input_ids (req q) ++ output_ids (req q) → whole pc (RadixReq.prefix_indices r) →
  (length (RadixReq.prefix_indices r) ≤ length (fill_ids r))%nat →
  let q' := set_req (λ _, r) q in sized (set_extend_input_len (fill_length q' - prefix_length q') q').
Proof.
  intros [] Hf Hw Hl q'. unfold fill_length, prefix_length in *. split; simpl; unfold fill_length, prefix_length; simpl; rewrite ?Hf in *; try done; lia.
Qed.

Lemma host_sized q n : sized q → sized (set_host_hit_length n q).
Proof. by intros []; split. Qed.

Context (rcfg : ReqConfig) (ticks : nat → Z).

Lemma init_next_round_ok (s : Pass) q hs live :
  joint (memory s) hs live → waiting_ok q →
  ∃ q' k', init_next_round cfg rcfg ticks false q s = (Ok q', mk_pass (adder s) k' (batch_is_full s)) ∧
    joint k' hs live ∧ calm (memory s) k' ∧ room k' = room (memory s) ∧ queued_ok k' q' ∧ object q' = object q.
Proof.
  intros Hj Hq. unfold init_next_round. destruct (is_chunk_cache cfg) eqn:Hchunk.
  - eexists _, (memory s). split; [by destruct s|]. split_and!; [done..|by split| |done]. split; [by destruct Hq| |done|by left|done].
    apply host_sized, finish_sized; [done|done|apply whole_nil|simpl; lia].
  - pose proof (ck_ps _ Hok) as Hps. pose proof (ck_same _ Hok) as Hsame.
    destruct (lookup_ok cc rcfg ticks (tree (memory s)) hs (req q) ltac:(lia) (ck_enabled _ Hok) (j_tree _ _ _ _ Hj))
      as (s1 & last & m & w & E & Htd & _ & Hw & Hm & Hp).
    pose proof (td_inv _ _ _ Htd hs (j_tree _ _ _ _ Hj)) as Hi.
    destruct (joint_calm cfg Hok (memory s) hs hs live s1 Hj Hi) as [Hj1 Hc1]; [by intros u v; apply (td_content _ _ _ Htd)|apply Htd|apply (td_path _ _ _ Htd)|].
    set (k1 := mk_kv s1 (pool (memory s)) (slots (memory s)) (req_to_token (memory s))) in *.
    assert (∀ r' (m' : M Cache Req), m' (tree (memory s)) = (Ok r', s1) →
      on_memory (on_tree cfg m') s = (Ok r', mk_pass (adder s) k1 (batch_is_full s))) as Hmem.
    { intros r' m' E'. unfold on_memory. by rewrite (on_tree_calm cfg m' (memory s) r' s1) by (try apply Htd; done). }
    eexists _, k1. split; [|split; [done|split; [done|]]].
    + erewrite bind_Ok; [reflexivity|]. apply Hmem. by rewrite E.
    + split; [unfold KvAllocFacts.room, evictable; rewrite Hchunk; simpl; by destruct (td_sizes _ _ _ Htd) as [-> _]|].
      split; [|done]. split; [by destruct Hq| |done| |congruence].
      * apply host_sized, finish_sized; [done|done| |]; simpl.
        -- refine (content_whole cfg Hok k1 hs live _ _ Hj1 _). eapply holds_down; [exact (inv_tree _ _ _ Hi)|exact Hp].
        -- rewrite Hw. etrans; [exact Hm|]. etrans; [|apply lookup_tokens_length].
           apply (req_key_facts cc (lookup_tokens (req q)) (req q)). lia.
      * right. exists last. split; [done|]. by eapply path_node.
Qed.
End Lookup.

(** ** Admission *)

(** Only what the delayer and the estimates remember changes. *)
Record same_budget (a a' : Adder) : Prop := mk_same_budget {
  sb_list : can_run_list a' = can_run_list a;
  sb_chunk : rem_chunk_tokens a' = rem_chunk_tokens a;
  sb_total : rem_total_token_offset a' = rem_total_token_offset a;
  sb_cur : cur_rem_token_offset a' = cur_rem_token_offset a;
  sb_new : new_chunked_req a' = new_chunked_req a;
}.

#[global] Instance same_budget_preorder : PreOrder same_budget.
Proof. split; [by split|]. intros a1 a2 a3 [] []. split; congruence. Qed.

Section Admission.
Context (cfg : KvConfig).
Local Abbreviation cc := (cache_cfg cfg).
Local Abbreviation pc := (pool_cfg cfg).
Local Abbreviation ps := (pool_page_size pc).
Context `{!KvAllocator pc (allocator_free cfg)} (Hok : config_ok cfg).
Context (rcfg : ReqConfig) (ticks : nat → Z) (dcfg : DelayerConfig) (gather : LocalInfo → list LocalInfo) (now : Q).
Context (acfg : AdderConfig) (Hdllm : dllm_config acfg = None) (Hclip : 0 ≤ CLIP_MAX_NEW_TOKENS acfg).
Local Abbreviation joint := (joint cfg).
Local Abbreviation room := (room cfg).
Local Abbreviation push := (push cfg).
Local Abbreviation ceil := (ceil_paged_tokens cfg).
Implicit Types (s : Pass) (a : Adder) (q : AReq) (hs : list nat) (live : gset Z) (ck added : list AReq).

(** *** Tokens in whole pages *)

Definition paged q : Z := ceil (req_extend_input_len q).
Definition need (l : list AReq) : Z := Zsum (paged <$> l).

Lemma ceil_bounds n : n ≤ ceil n < n + ps ∧ ceil n mod ps = 0.
Proof.
  pose proof (ck_ps _ Hok). unfold ceil_paged_tokens. pose proof (Z_div_mod_eq_full (- n) ps).
  pose proof (Z.mod_pos_bound (- n) ps ltac:(lia)). split; [nia|]. by apply Z.mod_mul; lia.
Qed.

Lemma ceil_le n m : n ≤ m → m mod ps = 0 → ceil n ≤ m.
Proof.
  intros Hn Hm. pose proof (ck_ps _ Hok). destruct (ceil_bounds n) as [? Hc].
  pose proof (Z_div_mod_eq_full m ps). pose proof (Z_div_mod_eq_full (ceil n) ps).
  assert (ceil n / ps < m / ps + 1) by nia. nia.
Qed.

Lemma ceil_mono n m : n ≤ m → ceil n ≤ ceil m.
Proof. intros. destruct (ceil_bounds m). apply ceil_le; [lia|done]. Qed.

Lemma ceil_ceil n : ceil (ceil n) = ceil n.
Proof. destruct (ceil_bounds n) as [? Hm]. pose proof (ceil_bounds (ceil n)). pose proof (ceil_le (ceil n) (ceil n) ltac:(lia) Hm). lia. Qed.

Lemma need_snoc l q : need (l ++ [q]) = need l + paged q.
Proof. unfold need. rewrite fmap_app, Zsum_app. simpl. lia. Qed.

(** *** The invariant of a pass *)

(** The nodes locked after [added] were admitted. *)
Definition locked hs added : list nat := foldl (λ hs q, push (last_node (req q)) hs) hs added.

Lemma locked_snoc hs added q : locked hs (added ++ [q]) = push (last_node (req q)) (locked hs added).
Proof. unfold locked. by rewrite foldl_app. Qed.

Record pass_inv (k0 : Kv) hs live ck s added : Prop := {
  pi_list : can_run_list (adder s) = ck ++ added;
  pi_joint : joint (memory s) (locked hs added) live;
  pi_calm : calm k0 (memory s);
  pi_cur : need (ck ++ added) ≤ cur_rem_token_offset (adder s);
  pi_total : (inject_Z (need (ck ++ added)) <= rem_total_token_offset (adder s))%Q;
  pi_room : need (ck ++ added) ≤ room (memory s);
  pi_sized : Forall (sized cfg) added;
}.

Lemma available_room k : available_and_evictable cfg k = room k.
Proof. done. Qed.

(** [q] is appended, and at least its pages are taken off the budgets. *)
Record grown a a' q : Prop := mk_grown {
  gr_list : can_run_list a' = can_run_list a ++ [q];
  gr_cur : cur_rem_token_offset a + paged q ≤ cur_rem_token_offset a';
  gr_total : (rem_total_token_offset a + inject_Z (paged q) <= rem_total_token_offset a')%Q;
}.

Lemma pass_grown k0 hs live ck s s' added q :
  pass_inv k0 hs live ck s added → grown (adder s) (adder s') q → calm (memory s) (memory s') → sized cfg q →
  joint (memory s') (push (last_node (req q)) (locked hs added)) live → need (ck ++ added) + paged q ≤ room (memory s') →
  pass_inv k0 hs live ck s' (added ++ [q]).
Proof.
  intros [] [] Hc Hq Hj Hr. split; rewrite ?(assoc_L (++)), ?need_snoc, ?locked_snoc; try done; try lia.
  - congruence.
  - by etrans.
  - rewrite inject_Z_plus. lra.
  - apply Forall_app. by split; [|constructor].
Qed.

Lemma pass_same k0 hs live ck s s' added :
  pass_inv k0 hs live ck s added → same_budget (adder s) (adder s') → calm (memory s) (memory s') →
  joint (memory s') (locked hs added) live → room (memory s') = room (memory s) → pass_inv k0 hs live ck s' added.
Proof.
  intros [] [Hl _ Ht Hcu _] Hc Hj Hr. split; rewrite ?Hl, ?Ht, ?Hcu, ?Hr; try done. by etrans.
Qed.

(** Nothing that goes on in this pass is possible any more. *)
Definition blocked s : Prop :=
  (∃ c, rem_chunk_tokens (adder s) = Some c ∧ c ≤ 0) ∨ (rem_total_tokens cfg s <= 0)%Q.

Lemma blocked_stops s : blocked s → budget_state cfg acfg s ≠ CONTINUE.
Proof.
  unfold budget_state. intros [(c & Hc & Hle)|Hle].
  - rewrite Hdllm, Hc. simpl. rewrite (proj2 (Z.leb_le c 0)) by done. by repeat case_match.
  - by rewrite (proj2 (Qle_bool_iff _ _)).
Qed.

Lemma negotiate_ok s n1 n2 n3 n4 :
  ∃ b a', negotiate dcfg gather now n1 n2 n3 n4 s = (Ok b, mk_pass a' (memory s) (batch_is_full s)) ∧ same_budget (adder s) a'.
Proof.
  unfold negotiate. rewrite (bind_Ok _ _ s (adder s) s) by done. destruct (prefill_delayer_single_pass (adder s)) as [x|] eqn:E.
  - destruct (negotiate_should_allow_prefill _ _ _ _ _ _ _ _ _) as [b x']. exists b, (set_executor (Some x') (adder s)). by split.
  - exists true, (adder s). split; [by destruct s|done].
Qed.

(** *** Cutting a request to a chunk *)

Lemma cut_sized q t :
  sized cfg q → 0 ≤ t ≤ req_extend_input_len q →
  sized cfg (cut_fill_ids (prefix_length q + t) (set_extend_input_len t q)).
Proof.
  intros [Hs He Hf Hw Hm] Ht.
  assert (fill_length (cut_fill_ids (prefix_length q + t) (set_extend_input_len t q)) = prefix_length q + t) as Hl.
  { unfold fill_length, prefix_length in *. simpl. rewrite (proj2 (Z.ltb_ge _ _)), length_take by lia. lia. }
  split; simpl; try done; rewrite ?Hl; try lia.
Qed.

Context (align : option Z) (Halign : from_option (λ n, 0 < n) True align).

Lemma truncated_ok q c t :
  sized cfg q → truncated_len cfg q c align = Some t → c < ceil (req_extend_input_len q) →
  0 < c ∧ 0 < t ≤ req_extend_input_len q ∧ ceil t ≤ paged q.
Proof.
  intros [_ He _ Hw _] E Hc. pose proof (ck_ps _ Hok) as Hps. destruct (ceil_bounds (req_extend_input_len q)) as [Hb Hm].
  pose proof (whole_length pc Hps _ Hw) as Hp. fold (prefix_length q) in Hp.
  set (p := prefix_length q) in *. set (round n := (n + p) / ps * ps - p).
  assert (∀ n, round n ≤ n ∧ round n mod ps = 0) as Hround.
  { intros n. unfold round. pose proof (Z_div_mod_eq_full (n + p) ps). pose proof (Z.mod_pos_bound (n + p) ps Hps). split; [lia|].
    pose proof (Z_div_mod_eq_full p ps). replace ((n + p) / ps * ps - p) with (((n + p) / ps - p / ps) * ps) by nia. by apply Z.mod_mul; lia. }
  assert (∃ n, n ≤ c ∧ t = round n ∧ 0 < t ∧ 0 < c) as (n & Hn & -> & Ht & Hc0).
  { unfold truncated_len in E. fold p in E. pose proof (Z_div_mod_eq_full c ps). pose proof (Z.mod_pos_bound c ps Hps).
    destruct (Z.leb_spec (c / ps * ps) 0); [done|]. destruct align as [size|].
    - destruct (Z.ltb_spec (c / ps * ps) size); [done|]. fold (round (size * (c / ps * ps / size))) in E.
      destruct (Z.leb_spec (round (size * (c / ps * ps / size))) 0); [done|]. injection E as <-.
      eexists. split; [|split; [done|split; [done|lia]]]. pose proof (Z.mul_div_le (c / ps * ps) size Halign). lia.
    - fold (round (c / ps * ps)) in E. destruct (Z.leb_spec (round (c / ps * ps)) 0); [done|]. injection E as <-.
      eexists. split; [|split; [done|split; [done|lia]]]. lia. }
  destruct (Hround n) as [Hr Hrm]. assert (round n ≤ ceil (req_extend_input_len q) - ps) as Hle.
  { pose proof (Z_div_mod_eq_full (round n) ps). pose proof (Z_div_mod_eq_full (ceil (req_extend_input_len q)) ps).
    assert (round n / ps < ceil (req_extend_input_len q) / ps) by nia. nia. }
  split; [done|]. split; [lia|]. apply ceil_le; [unfold paged; lia|done].
Qed.

(** *** A request that is let in *)

(** [q], as [q'], was appended, and its last node locked once more. *)
Record admitted hs live s q q' s' : Prop := mk_admitted {
  ad_sized : sized cfg q';
  ad_object : object q' = object q;
  ad_node : last_node (req q') = last_node (req q);
  ad_paged : paged q' ≤ paged q;
  ad_grown : grown (adder s) (adder s') q';
  ad_joint : joint (memory s') (push (last_node (req q)) hs) live;
  ad_calm : calm (memory s) (memory s');
  ad_shape : same_shape (memory s) (memory s');
  ad_full : batch_is_full s' = batch_is_full s;
  ad_new : new_chunked_req (adder s') = new_chunked_req (adder s) ∨ new_chunked_req (adder s') = Some q';
  ad_chunk : ∀ c, rem_chunk_tokens (adder s) = Some c → c ≤ 0 →
    new_chunked_req (adder s') = new_chunked_req (adder s) ∧ ∃ c', rem_chunk_tokens (adder s') = Some c' ∧ c' ≤ 0;
}.

(** The writes of an admission: the request, perhaps as the new chunked request, and the
    budget; [k'] is the memory with the lock. *)
Definition let_in q' (chunk : bool) (prefix n m : Z) s k' : Pass :=
  (update_prefill_budget cfg acfg prefix n m
     (mk_pass ((if chunk then set_new_chunked_req (Some q') else id) (set_can_run_list (λ l, l ++ [q']) (adder s))) k' (batch_is_full s))).2.

Lemma let_in_admitted hs live s q q' chunk prefix n m k' :
  sized cfg q → (q' = q ∧ chunk = false ∨ ∃ t, q' = cut_fill_ids (prefix_length q + t) (set_extend_input_len t q) ∧ 0 ≤ t ≤ req_extend_input_len q) →
  ceil n = paged q' → 0 ≤ m → joint k' (push (last_node (req q)) hs) live → calm (memory s) k' → same_shape (memory s) k' →
  (chunk = true → ∀ c, rem_chunk_tokens (adder s) = Some c → 0 < c) →
  admitted hs live s q q' (let_in q' chunk prefix n m s k').
Proof.
  intros Hq Hq' Hn Hm Hj Hc Hs Hchunk. pose proof (ck_ps _ Hok) as Hps.
  assert (sized cfg q' ∧ object q' = object q ∧ last_node (req q') = last_node (req q) ∧ paged q' ≤ paged q) as (Hsz & Ho & Hl & Hp).
  { destruct Hq' as [[-> _]|(t & -> & Ht)]; [done|]. split; [by apply cut_sized|]. split; [done|]. split; [done|]. apply ceil_mono. simpl. lia. }
  assert (0 ≤ paged q') as Hpos by (destruct (ceil_bounds (req_extend_input_len q')), Hsz; unfold paged; lia).
  unfold let_in, update_prefill_budget, update_adder, modify. rewrite Hn. rewrite Hdllm.
  split; cbn [adder memory batch_is_full rem_chunk_tokens new_chunked_req]; try done.
  - split; cbn [can_run_list cur_rem_token_offset rem_total_token_offset]; destruct chunk; cbn; try done; try lia.
    all: rewrite !inject_Z_plus; assert (0 <= inject_Z m)%Q by (change 0%Q with (inject_Z 0); by rewrite <- Zle_Qle);
      assert (0 <= inject_Z ps)%Q by (change 0%Q with (inject_Z 0); rewrite <- Zle_Qle; lia); lra.
  - destruct chunk; cbn; [by right|by left].
  - intros c Ec Hle. destruct chunk; [specialize (Hchunk eq_refl c Ec); lia|]. split; [done|].
    cbn. rewrite Ec. cbn. eexists. split; [done|]. lia.
Qed.

Lemma inc_memory s n z k' :
  lock_with cfg (inc_lock_ref cc) n (memory s) = (Ok z, k') → inc_lock cfg n s = (Ok z, mk_pass (adder s) k' (batch_is_full s)).
Proof. intros E. unfold inc_lock, on_memory. by rewrite E. Qed.
Lemma dec_memory s n z k' :
  lock_with cfg (dec_lock_ref cc) n (memory s) = (Ok z, k') → dec_lock cfg n s = (Ok z, mk_pass (adder s) k' (batch_is_full s)).
Proof. intros E. unfold dec_lock, on_memory. by rewrite E. Qed.

Lemma Qle_bool_false x y : Qle_bool x y = false → (y < x)%Q.
Proof. intros E. apply Qnot_le_lt. intros H%Qle_bool_iff. congruence. Qed.

(** Under the lock: turned away, or let in and locked once more. *)
Lemma add_locked_ok s q total hs live :
  joint (memory s) hs live → queued_ok cfg (memory s) q →
  (∃ r, r ≠ CONTINUE ∧ add_locked cfg acfg q align total s = (Ok (Some r, q), s)) ∨
  (∃ q' s', add_locked cfg acfg q align total s = (Ok (None, q'), s') ∧ (inject_Z total < rem_total_tokens cfg s)%Q ∧
     admitted hs live s q q' s').
Proof.
  intros Hj [[Hws Hwn Hwl] Hsz Hwh Hnode _]. unfold add_locked. rewrite (bind_Ok _ _ s (rem_total_tokens cfg s) s) by done.
  destruct (Qle_bool (rem_total_tokens cfg s) (inject_Z total)) eqn:Et; [left; by exists NO_TOKEN|].
  apply Qle_bool_false in Et. rewrite Hwh. cbn [Z.ltb Z.compare]. rewrite (bind_Ok _ _ s (adder s) s) by done.
  destruct (input_exceeded (adder s) _); [left; by exists OTHER|]. rewrite Hdllm.
  assert (0 ≤ Z.min (max_new_tokens q) (CLIP_MAX_NEW_TOKENS acfg)) as Hnew by lia.
  destruct (inc_lock_ok cfg Hok (memory s) hs live (last_node (req q)) Hj Hnode) as (z & k' & Ei & Hj' & Hc & Hs).
  destruct (from_option _ true (rem_chunk_tokens (adder s))) eqn:Ec.
  - right. exists q, (let_in q false (prefix_length q) (ceil (req_extend_input_len q)) (Z.min (max_new_tokens q) (CLIP_MAX_NEW_TOKENS acfg)) s k').
    split; [|split; [done|apply let_in_admitted; try done; [left; done|apply ceil_ceil]]].
    rewrite (bind_Ok _ _ s tt (mk_pass (set_can_run_list (λ l, l ++ [q]) (adder s)) (memory s) (batch_is_full s))) by done.
    by rewrite (bind_Ok _ _ _ _ _ (inc_memory (mk_pass (set_can_run_list (λ l, l ++ [q]) (adder s)) (memory s) (batch_is_full s)) _ _ _ Ei)).
  - destruct (rem_chunk_tokens (adder s)) as [c|] eqn:Erc; [|done]. cbn in Ec. apply Z.leb_gt in Ec. change (default 0 (Some c)) with c.
    destruct (truncated_len cfg q c align) as [t|] eqn:Etr; [|left; by exists OTHER].
    destruct (truncated_ok q c t Hsz Etr Ec) as (Hc0 & Ht & Hp).
    set (q' := cut_fill_ids (prefix_length q + t) (set_extend_input_len t q)).
    right. exists q', (let_in q' true (prefix_length q) t 0 s k'). split; [|split; [done|]].
    + rewrite (bind_Ok _ _ s tt (mk_pass (set_can_run_list (λ l, l ++ [q']) (adder s)) (memory s) (batch_is_full s))) by done.
      set (s1 := mk_pass (set_new_chunked_req (Some q') (set_can_run_list (λ l, l ++ [q']) (adder s))) (memory s) (batch_is_full s)).
      rewrite (bind_Ok _ _ _ tt s1) by done.
      by rewrite (bind_Ok _ _ _ _ _ (inc_memory s1 (last_node (req q')) z k' Ei)).
    + apply let_in_admitted; try done; [right; exists t; split; [done|lia]|].
      intros _ c' E'. by simplify_eq.
Qed.

(** *** The outcomes of [add_one_req] *)

Record turned_away hs live s s' : Prop := mk_turned_away {
  ta_budget : same_budget (adder s) (adder s');
  ta_joint : joint (memory s') hs live;
  ta_calm : calm (memory s) (memory s');
  ta_room : room (memory s') = room (memory s);
  ta_full : batch_is_full s' = batch_is_full s;
}.

(** What is let in fits into what is neither used nor promised to others. *)
Definition fits s q' s' : Prop :=
  (inject_Z (paged q') <= inject_Z (room (memory s')) - rem_total_token_offset (adder s))%Q.

Definition add_outcome hs live s q (r : AddReqResult) q' s' : Prop :=
  (r ≠ CONTINUE ∧ q' = q ∧ turned_away hs live s s' ∨
   admitted hs live s q q' s' ∧ fits s q' s') ∧
  (blocked s → r ≠ CONTINUE ∧ new_chunked_req (adder s') = new_chunked_req (adder s)).

Lemma away hs live s q r s' : r ≠ CONTINUE → turned_away hs live s s' → add_outcome hs live s q r q s'.
Proof. intros Hr Ht. split; [by left|]. intros _. split; [done|]. apply (sb_new _ _ (ta_budget _ _ _ _ Ht)). Qed.

Lemma away_budget hs live s a' : joint (memory s) hs live → same_budget (adder s) a' → turned_away hs live s (mk_pass a' (memory s) (batch_is_full s)).
Proof. intros Hj Ha. by split. Qed.

Lemma admitted_from hs live s a1 q q' s' :
  same_budget (adder s) a1 → admitted hs live (mk_pass a1 (memory s) (batch_is_full s)) q q' s' → admitted hs live s q q' s'.
Proof.
  intros [Hl Hc Ht Hcu Hn] [? ? ? ? [Gl Gc Gt] ? ? ? ? Hnew Hchunk].
  cbn [adder memory batch_is_full] in *. rewrite Hl, Hcu, Ht, Hn, Hc in *. by repeat (split; try done).
Qed.

Lemma blocked_from s a1 : same_budget (adder s) a1 → blocked s ↔ blocked (mk_pass a1 (memory s) (batch_is_full s)).
Proof. intros [_ Hc Ht _ _]. unfold blocked, rem_total_tokens. cbn [adder memory]. by rewrite Hc, Ht. Qed.

Lemma inject_nonneg n : 0 ≤ n → (0 <= inject_Z n)%Q.
Proof. intros. change 0%Q with (inject_Z 0). by rewrite <- Zle_Qle. Qed.

(** Where the pass was blocked, what is still let in, if anything, is the last. *)
Lemma in_outcome hs live s a1 q q' s' :
  same_budget (adder s) a1 → admitted hs live (mk_pass a1 (memory s) (batch_is_full s)) q q' s' → fits s q' s' →
  ((rem_total_tokens cfg s <= 0)%Q → room (memory s') = room (memory s) ∧ new_chunked_req (adder s') = new_chunked_req (adder s)) →
  add_outcome hs live s q (budget_state cfg acfg s') q' s'.
Proof.
  intros Hb Ha%admitted_from Hfit Htot; [|done]. split; [by right|]. intros [(c & Hc & Hle)|Hle].
  - destruct (ad_chunk _ _ _ _ _ _ Ha c Hc Hle) as [Hn Hc']. split; [|done]. apply blocked_stops. by left.
  - destruct (Htot Hle) as [Hr Hn]. split; [|done]. apply blocked_stops. right. revert Hle. unfold rem_total_tokens.
    rewrite (available_room (memory s)), (available_room (memory s')), Hr. pose proof (gr_total _ _ _ (ad_grown _ _ _ _ _ _ Ha)).
    assert (0 ≤ paged q') as Hp%inject_nonneg by (pose proof (ceil_bounds (req_extend_input_len q')); pose proof (so_extend _ _ (ad_sized _ _ _ _ _ _ Ha)); unfold paged; lia).
    lra.
Qed.

Lemma let_in_steps q' (chunk : bool) n m s :
  (append_can_run q' ≫= λ _, (if chunk then update_adder (set_new_chunked_req (Some q')) else mret tt) ≫= λ _,
   update_prefill_budget cfg acfg 0 n m ≫= λ _, with_budget_state cfg acfg q') s =
  (Ok (budget_state cfg acfg (let_in q' chunk 0 n m s (memory s)), q'), let_in q' chunk 0 n m s (memory s)).
Proof. by destruct chunk. Qed.

(** Without a prefix cache. *)
Lemma ignore_eos_ok s q hs live :
  is_chunk_cache cfg = true → joint (memory s) hs live → queued_ok cfg (memory s) q →
  ∃ r q' s', add_one_req_ignore_eos cfg dcfg gather now acfg q s = (Ok (r, q'), s') ∧ add_outcome hs live s q r q' s'.
Proof.
  intros Hchunk Hj [[Hws Hwn Hwl] Hsz Hwh Hnode Hnil]. specialize (Hnil Hchunk).
  assert (turned_away hs live s s) as Hsame by by split.
  unfold add_one_req_ignore_eos. rewrite (bind_Ok _ _ s (cur_rem_tokens cfg s) s), (bind_Ok _ _ s (rem_total_tokens cfg s) s) by done.
  fold (paged q). destruct (_ || _) eqn:Eb; [exists NO_TOKEN, q, s; split; [done|by apply away]|].
  apply orb_false_iff in Eb as [Ecur Etot]. apply negb_false_iff, Qle_bool_iff in Etot.
  set (a1 := set_req_states (Some (update_req_states acfg q (adder s))) (adder s)).
  set (s1 := mk_pass a1 (memory s) (batch_is_full s)). rewrite (bind_Ok _ _ s tt s1) by done. rewrite (bind_Ok _ _ s1 a1 s1) by done.
  assert (same_budget (adder s) a1) as H1 by done.
  destruct (runs_out _ _ _); [exists NO_TOKEN, q, s1; split; [done|by apply away, away_budget]|].
  destruct (negotiate_ok s1 0 0 0 0) as (b & a2 & En & H2). rewrite (bind_Ok _ _ _ _ _ En). cbn [memory batch_is_full].
  assert (same_budget (adder s) a2) as H12 by (by etrans). set (s2 := mk_pass a2 (memory s) (batch_is_full s)).
  destruct b; [|exists OTHER, q, s2; split; [done|by apply away, away_budget]]. cbn [negb]. rewrite Hdllm.
  change (rem_chunk_tokens a1) with (rem_chunk_tokens (adder s)).
  assert (joint (memory s) (push (last_node (req q)) hs) live) as Hjp by (unfold KvAllocProps.the_allocator, AdderProps.push; by rewrite Hchunk).
  assert (0 ≤ paged q) as Hp0 by (pose proof (ceil_bounds (req_extend_input_len q)); pose proof (so_extend _ _ Hsz); unfold paged; lia).
  destruct (from_option _ true _) eqn:Ec.
  - eexists _, q, _. split; [exact (let_in_steps q false (req_extend_input_len q) _ s2)|].
    apply (in_outcome hs live s a2); [done| |exact Etot|by intros _; split; [|exact (sb_new _ _ H12)]].
    apply let_in_admitted; try done; [by left|lia|apply same_shape_refl].
  - destruct (rem_chunk_tokens (adder s)) as [c|] eqn:Erc; [|done]. cbn in Ec. apply Z.leb_gt in Ec. change (default 0 (Some c)) with c.
    destruct (Z.leb_spec c 0) as [Hc|Hc]; [exists OTHER, q, s2; split; [done|by apply away, away_budget]|].
    set (q' := cut_fill_ids c (set_extend_input_len c q)).
    assert (q' = cut_fill_ids (prefix_length q + c) (set_extend_input_len c q)) as Hq' by (unfold prefix_length; by rewrite Hnil).
    eexists _, q', _. split; [exact (let_in_steps q' true c _ s2)|].
    assert (paged q' ≤ paged q) as Hle by (apply ceil_mono; simpl; lia).
    apply (in_outcome hs live s a2); [done| | |].
    + apply let_in_admitted; try done; [right; exists c; split; [done|lia]|apply same_shape_refl|].
      intros _ c'. cbn [adder s2]. rewrite (sb_chunk _ _ H12), Erc. intros [= <-]. lia.
    + rewrite Zle_Qle in Hle. change (inject_Z (paged q') <= rem_total_tokens cfg s)%Q. by eapply Qle_trans.
    + intros Ht. exfalso. pose proof (ceil_bounds (req_extend_input_len q)).
      assert (1 ≤ paged q) as Hp1 by (unfold paged; lia). rewrite Zle_Qle in Hp1. change (inject_Z 1) with 1%Q in Hp1. lra.
Qed.

Lemma outcome_from hs live s a1 q r q' s' :
  same_budget (adder s) a1 → add_outcome hs live (mk_pass a1 (memory s) (batch_is_full s)) q r q' s' → add_outcome hs live s q r q' s'.
Proof.
  intros Ha [Ho Hbl]. pose proof (proj1 (blocked_from s a1 Ha)) as Hb. destruct Ha as [Hl Hc Ht Hcu Hn] eqn:EHa. split.
  - destruct Ho as [(Hr & -> & [Hb1 ? ? ? ?])|[Had Hfit]]; [left; split; [done|split; [done|]]|right].
    + split; try done. by etrans; [|exact Hb1].
    + split; [by eapply admitted_from|]. unfold fits in *. cbn [adder] in Hfit. by rewrite Ht in Hfit.
  - intros [Hr Hnew]%Hb%Hbl. split; [done|]. cbn [adder] in Hnew. congruence.
Qed.

(** A body under a lock that ends where it began, but for the lock. *)
Lemma lock_node_ok {A} s q hs live (body : M Pass A) :
  joint (memory s) hs live → node_ok cfg (memory s) (last_node (req q)) →
  ∃ k1, joint k1 (push (last_node (req q)) hs) live ∧ calm (memory s) k1 ∧ same_shape (memory s) k1 ∧
    let s1 := mk_pass (adder s) k1 (batch_is_full s) in
    ∀ r s2 hs', body s1 = (r, s2) → joint (memory s2) (push (last_node (req q)) hs') live → same_shape k1 (memory s2) →
      ∃ k2, lock_node cfg (last_node (req q)) body s = (r, mk_pass (adder s2) k2 (batch_is_full s2)) ∧
        joint k2 hs' live ∧ calm (memory s2) k2 ∧ same_shape (memory s2) k2.
Proof.
  intros Hj Hn. destruct (inc_lock_ok cfg Hok (memory s) hs live _ Hj Hn) as (z & k1 & Ei & Hj1 & Hc1 & Hs1).
  exists k1. split_and!; [done|done|exact Hs1|]. intros s1 r s2 hs' Eb Hj2 Hs2.
  destruct (dec_lock_ok cfg Hok (memory s2) hs' live _ Hj2) as (z' & k2 & Ed & Hj' & Hc2 & Hs2');
    [by eapply same_shape_node, same_shape_node|].
  exists k2. split; [|done]. unfold lock_node. rewrite (bind_Ok _ _ _ _ _ (inc_memory s _ _ _ Ei)). fold s1. rewrite Eb.
  by rewrite (dec_memory s2 _ _ _ Ed).
Qed.

Context (Hrun : is_Some (running_batch acfg)).

Lemma add_one_req_ok s q hs live :
  joint (memory s) hs live → queued_ok cfg (memory s) q →
  ∃ r q' s', add_one_req cfg dcfg gather now acfg q align s = (Ok (r, q'), s') ∧ add_outcome hs live s q r q' s'.
Proof.
  intros Hj Hq. pose proof Hq as [[Hws Hwn Hwl] Hsz Hwh Hnode Hnil]. destruct Hrun as [rs Hrs].
  unfold add_one_req. rewrite (bind_Ok _ _ s (adder s) s) by done.
  rewrite (bind_Ok _ _ s (Z.of_nat (length rs)) s) by (rewrite Hrs; by destruct (prefill_delayer_single_pass (adder s))).
  destruct (negotiate_ok s (length rs) (max_prefill_bs acfg) (max_running_requests acfg) (waiting_queue_len acfg)) as (b & a1 & En & H1).
  rewrite (bind_Ok _ _ _ _ _ En). set (s1 := mk_pass a1 (memory s) (batch_is_full s)).
  assert (∀ r, r ≠ CONTINUE → ∃ r' q' s', (mret (r, q) : M Pass (AddReqResult * AReq)) s1 = (Ok (r', q'), s') ∧ add_outcome hs live s q r' q' s') as Haway.
  { intros r Hr. exists r, q, s1. split; [done|]. by apply away, away_budget. }
  destruct b; [|by apply Haway]. cbn [negb]. destruct (context_parallel acfg && _); [by apply Haway|].
  destruct (from_option _ false _); [by apply Haway|]. destruct (ignore_eos q && _) eqn:Eeos.
  { apply andb_true_iff in Eeos as [_ Hch]. rewrite (ck_enabled _ Hok), orb_false_r in Hch.
    destruct (ignore_eos_ok s1 q hs live Hch Hj Hq) as (r & q' & s' & E & Ho). exists r, q', s'. split; [done|]. by eapply outcome_from. }
  rewrite (bind_Ok _ _ s1 (rem_total_tokens cfg s1) s1) by done. set (T := req_extend_input_len q + _ + ps).
  destruct (Qle_bool _ (inject_Z T)) eqn:Et; [by apply Haway|]. destruct (input_exceeded (adder s) _); [by apply Haway|].
  assert (paged q ≤ T ∧ 0 ≤ T) as [HpT HT].
  { pose proof (ceil_bounds (req_extend_input_len q)). pose proof (so_extend _ _ Hsz). pose proof (ck_ps _ Hok). unfold T, paged. lia. }
  destruct (lock_node_ok s1 q hs live (add_locked cfg acfg q align T) Hj Hnode) as (k2 & Hj2 & Hc2 & Hs2 & Hlock).
  set (s2 := mk_pass a1 k2 (batch_is_full s)) in *.
  assert (queued_ok cfg (memory s2) q) as Hq2 by (destruct Hq; split; try done; by eapply same_shape_node).
  destruct (add_locked_ok s2 q T _ live Hj2 Hq2) as [(r & Hr & El)|(q' & s3 & El & Hlt & Had)].
  - destruct (Hlock _ s2 hs El Hj2 (same_shape_refl _)) as (k3 & E3 & Hj3 & Hc3 & Hs3).
    rewrite (bind_Ok _ _ _ _ _ E3). exists r, q. eexists. split; [done|]. apply away; [done|]. split; try done.
    + by etrans.
    + apply (shape_room cfg _ _ hs live Hj Hj3); [by etrans|by eapply same_shape_trans].
  - destruct (Hlock _ s3 (push (last_node (req q)) hs) El) as (k4 & E4 & Hj4 & Hc4 & Hs4); [apply Had|apply Had|].
    rewrite (bind_Ok _ _ _ _ _ E4). set (s4 := mk_pass (adder s3) k4 (batch_is_full s3)) in *.
    exists (budget_state cfg acfg s4), q', s4. split; [done|]. apply (in_outcome hs live s a1); [done| | |].
    + destruct Had. split; try done; [|by eapply same_shape_trans, same_shape_trans].
      etrans; [exact Hc2|]. by etrans.
    + assert (room k4 = room k2) as Hr.
      { apply (shape_room cfg _ _ _ live Hj2 Hj4); [by etrans; [apply Had|]|by eapply same_shape_trans; [apply Had|]]. }
      unfold fits. cbn [memory s4]. rewrite Hr. pose proof (ad_paged _ _ _ _ _ _ Had) as Hp.
      assert (paged q' ≤ T) as HpT' by lia. rewrite Zle_Qle in HpT'. revert Hlt. unfold rem_total_tokens. rewrite available_room.
      cbn [memory adder s2]. rewrite (sb_total _ _ H1). lra.
    + intros Hle. exfalso. apply Qle_bool_false in Et. apply inject_nonneg in HT. revert Et Hle. unfold rem_total_tokens.
      cbn [memory adder s1]. rewrite (sb_total _ _ H1). lra.
Qed.

(** *** The loop over the waiting queue *)

Context (scfg : SchedConfig) (Hal : truncation_align scfg = align).
Local Abbreviation objects l := (object <$> l).

(** There is a row for every request of the batch, once the queue added to it. *)
Definition has_rows ck s added : Prop :=
  added = [] ∨ (length (ck ++ added) ≤ slots_available (slots (memory s)))%nat.

(** The new requests [new], and the queue with the requests as they are now. *)
Record fed k0 hs live ck s added queue queue' s' new : Prop := mk_fed {
  fd_inv : pass_inv k0 hs live ck s' (added ++ new);
  fd_rows : has_rows ck s' (added ++ new);
  fd_queue : objects queue' = objects queue;
  fd_new : objects new `sublist_of` objects queue;
  fd_left : Forall (λ q, waiting_ok cfg q ∨ object q ∈ objects new) queue';
  fd_chunk : blocked s → new_chunked_req (adder s') = new_chunked_req (adder s);
}.

Lemma fed_nothing k0 hs live ck s s' added queue queue' :
  pass_inv k0 hs live ck s' added → has_rows ck s' added → objects queue' = objects queue → Forall (waiting_ok cfg) queue' →
  new_chunked_req (adder s') = new_chunked_req (adder s) → fed k0 hs live ck s added queue queue' s' [].
Proof.
  intros Hi Hr Hq Hw Hn. split; rewrite ?app_nil_r; try done; [apply sublist_nil_l|].
  eapply Forall_impl; [exact Hw|]. by left.
Qed.

Lemma blocked_calm s k' full : room k' = room (memory s) → blocked s ↔ blocked (mk_pass (adder s) k' full).
Proof. intros Hr. unfold blocked, rem_total_tokens. cbn [adder memory]. by rewrite (available_room (memory s)), (available_room k'), Hr. Qed.

(** One request of the queue is looked up and offered: it stays, or it is let in. *)
Record offered k0 hs live ck s added q r q' s' new : Prop := mk_offered {
  of_inv : pass_inv k0 hs live ck s' (added ++ new);
  of_rows : has_rows ck s' (added ++ new);
  of_object : object q' = object q;
  of_new : new = [] ∧ waiting_ok cfg q' ∧ r ≠ CONTINUE ∨ new = [q'];
  of_chunk : blocked s → r ≠ CONTINUE ∧ new_chunked_req (adder s') = new_chunked_req (adder s);
}.

Lemma offer_ok k0 hs live ck s added q :
  pass_inv k0 hs live ck s added → (length (ck ++ added) < slots_available (slots (memory s)))%nat → has_rows ck s added → waiting_ok cfg q →
  ∃ q1 s1 r q' s' new, init_next_round cfg rcfg ticks false q s = (Ok q1, s1) ∧
    add_one_req cfg dcfg gather now acfg q1 (truncation_align scfg) s1 = (Ok (r, q'), s') ∧ offered k0 hs live ck s added q r q' s' new.
Proof.
  intros Hi Hplace Hr Hq.
  destruct (init_next_round_ok cfg Hok rcfg ticks s q _ _ (pi_joint _ _ _ _ _ _ Hi) Hq) as (q1 & k1 & Ei & Hj1 & Hc1 & Hr1 & Hq1 & Ho1).
  set (s1 := mk_pass (adder s) k1 (batch_is_full s)). assert (pass_inv k0 hs live ck s1 added) as Hi1 by (by apply (pass_same k0 hs live ck s)).
  destruct (add_one_req_ok s1 q1 _ _ Hj1 Hq1) as (r & q2 & s2 & E2 & Ho & Hb). rewrite Hal.
  assert (slots (memory s1) = slots (memory s)) as Hsl by apply (ca_slots _ _ Hc1).
  assert (blocked s → r ≠ CONTINUE ∧ new_chunked_req (adder s2) = new_chunked_req (adder s)) as Hb'.
  { intros Hbl. apply Hb. by apply (blocked_calm s). }
  destruct Ho as [(Hne & -> & Ht)|[Had Hfit]].
  - exists q1, s1, r, q1, s2, []. split; [done|]. split; [done|]. split; rewrite ?app_nil_r; try done.
    + eapply pass_same; [exact Hi1|apply Ht..].
    + destruct Hr as [?|?]; [by left|right]. by rewrite (ca_slots _ _ (ta_calm _ _ _ _ Ht)), Hsl.
    + left. by destruct Hq1.
  - exists q1, s1, r, q2, s2, [q2]. split; [done|]. split; [done|]. split; [|right| |by right|done].
    + eapply pass_grown; [exact Hi1|apply Had..| |].
      * rewrite (ad_node _ _ _ _ _ _ Had). apply Had.
      * pose proof (pi_total _ _ _ _ _ _ Hi1) as Ht. unfold fits in Hfit. rewrite Zle_Qle, inject_Z_plus. lra.
    + rewrite (ca_slots _ _ (ad_calm _ _ _ _ _ _ Had)), Hsl, (assoc_L (++)), length_app. simpl. lia.
    + by rewrite (ad_object _ _ _ _ _ _ Had).
Qed.

Lemma place_left k0 hs live ck s added :
  pass_inv k0 hs live ck s added → no_place scfg (length (default [] (running_batch acfg))) s = false →
  (length (ck ++ added) < slots_available (slots (memory s)))%nat.
Proof.
  intros Hi E. unfold no_place in E. apply orb_false_iff in E as [E _]. apply Z.leb_gt in E. unfold get_num_allocatable_reqs in E.
  rewrite (pi_list _ _ _ _ _ _ Hi) in E. lia.
Qed.

Lemma feed_ok k0 hs live ck queue : ∀ s added,
  pass_inv k0 hs live ck s added → has_rows ck s added → Forall (waiting_ok cfg) queue →
  ∃ queue' s' new, feed cfg rcfg ticks dcfg gather now scfg acfg queue s = (Ok queue', s') ∧
    fed k0 hs live ck s added queue queue' s' new.
Proof.
  induction queue as [|q queue IH]; intros s added Hi Hr Hw.
  { exists [], s, []. split; [done|]. by apply fed_nothing. }
  cbn [feed]. set (full := no_place scfg (length (default [] (running_batch acfg))) s). rewrite (bind_Ok _ _ s full s) by done.
  set (s1 := mk_pass (adder s) (memory s) (full || batch_is_full s)).
  rewrite (bind_Ok _ _ s tt s1) by (unfold s1; destruct s; by destruct full). rewrite (bind_Ok _ _ s1 (full || batch_is_full s) s1) by done.
  assert (pass_inv k0 hs live ck s1 added) as Hi1 by (destruct Hi; by split).
  destruct (full || batch_is_full s) eqn:Efull.
  { exists (q :: queue), s1, []. split; [done|]. by apply fed_nothing. }
  apply orb_false_iff in Efull as [Efull _]. apply Forall_cons in Hw as [Hq Hw].
  destruct (offer_ok k0 hs live ck s1 added q Hi1 (place_left k0 hs live ck s added Hi Efull) Hr Hq)
    as (q1 & s2 & r & q2 & s3 & new0 & Ei & E3 & [Hi3 Hr3 Ho2 Hnew0 Hb]).
  rewrite (bind_Ok _ _ _ _ _ Ei), (bind_Ok _ _ _ _ _ E3). cbn [fst snd].
  assert (blocked s → new_chunked_req (adder s3) = new_chunked_req (adder s)) as Hb3 by (by intros [_ ?]%Hb).
  destruct (bool_decide_reflect (r = CONTINUE)) as [->|Hne].
  - destruct Hnew0 as [(_ & _ & ?)| ->]; [done|]. destruct (IH s3 (added ++ [q2]) Hi3 Hr3 Hw) as (queue' & s4 & new & E4 & [F1 F2 F3 F4 F5 F6]).
    rewrite (bind_Ok _ _ _ _ _ E4). exists (q2 :: queue'), s4, (q2 :: new). split; [done|].
    rewrite <- (assoc_L (++)) in F1, F2. split; try done; cbn [fmap list_fmap].
    + by rewrite F3, Ho2.
    + rewrite Ho2. by apply sublist_skip.
    + constructor; [right; left|]. eapply Forall_impl; [exact F5|]. intros x [?|?]; [by left|right; by right].
    + by intros [? _]%Hb.
  - set (s4 := mk_pass (adder s3) (memory s3) (bool_decide (r = NO_TOKEN) || batch_is_full s3)).
    rewrite (bind_Ok _ _ s3 tt s4) by (unfold s4; destruct s3; by case_bool_decide).
    exists (q2 :: queue), s4, new0. split; [done|]. split; cbn [fmap list_fmap]; try done.
    + destruct Hi3; by split.
    + by rewrite Ho2.
    + destruct Hnew0 as [(-> & _)| ->]; [apply sublist_nil_l|]. simpl. rewrite Ho2. apply sublist_skip, sublist_nil_l.
    + constructor; [destruct Hnew0 as [(_ & ? & _)| ->]; [by left|right; by left]|]. eapply Forall_impl; [exact Hw|]. by left.
Qed.

(** *** The request whose chunks are under way *)

Lemma Qtrunc_bounds t : 0 < Qtrunc t → (inject_Z (Qtrunc t) <= t)%Q ∧ (t < inject_Z (Qtrunc t) + 1)%Q.
Proof.
  intros Hpos. assert (Qtrunc t = Qfloor t) as ->.
  { destruct t as [n d]. unfold Qtrunc, Qfloor in *. cbn [Qnum Qden] in *. destruct (Z.lt_ge_cases n 0) as [Hn|Hn].
    - pose proof (Z.quot_opp_l n (Z.pos d) ltac:(lia)) as Ho. pose proof (Z.quot_pos (- n) (Z.pos d) ltac:(lia) ltac:(lia)). lia.
    - by rewrite Z.quot_div_nonneg by lia. }
  split; [apply Qfloor_le|]. pose proof (Qlt_floor t) as H. by rewrite inject_Z_plus in H.
Qed.

(** What holds of the chunked request: its row is its own, its prefix ends where its pages
    say, in an old page that is not the tree's. *)
Record chunk_ok k live q : Prop := {
  co_slot : is_Some (slot_of (req_slot q)) ∧ (0 < inflight_middle_chunks (req_slot q) ∨ 0 < slot_kv_committed_len (req_slot q));
  co_row : NoDup (free_slots (slots k) ++ option_list (slot_of (req_slot q)));
  co_new : 0 ≤ max_new_tokens q;
  co_prefix : prefix_length q ≤ length (origin_input_ids (req q) ++ output_ids (req q));
  co_len : Z.of_nat (length (origin_input_ids (req q) ++ output_ids (req q))) ≤ max_context_len cfg;
  co_aligned : (default (-1) (last (RadixReq.prefix_indices (req q))) + 1) mod ps = prefix_length q mod ps;
  co_tail : prefix_length q mod ps ≠ 0 →
    let page := default (-1) (last (RadixReq.prefix_indices (req q))) / ps in
    page ∈ live ∧ ∀ x, x ∈ indices (nodes (tree k)) → x / ps ≠ page;
}.

(** The request with a chunk of [n] tokens to go. *)
Definition with_chunk q (n : Z) : AReq :=
  let q := set_req (λ r, set_fill_ids (origin_input_ids r ++ output_ids r) r) q in
  let q := set_extend_input_len (fill_length q - prefix_length q) q in
  cut_fill_ids (prefix_length q + n) (set_extend_input_len n q).

Definition left_of q : Z := length (origin_input_ids (req q) ++ output_ids (req q)) - prefix_length q.

Lemma with_chunk_fill q n : prefix_length q + left_of q = length (origin_input_ids (req q) ++ output_ids (req q)) →
  0 ≤ n ≤ left_of q → fill_length (with_chunk q n) = prefix_length q + n.
Proof.
  intros Hl Hn. unfold fill_length, with_chunk, prefix_length in *. simpl. rewrite (proj2 (Z.ltb_ge _ _)), length_take by lia. lia.
Qed.

Lemma chunk_ok_run s q c hs live :
  can_run_list (adder s) = [] → rem_chunk_tokens (adder s) = Some c → 0 < c → new_chunked_req (adder s) = None →
  0 ≤ cur_rem_token_offset (adder s) → (0 <= rem_total_token_offset (adder s))%Q →
  joint (memory s) hs live → chunk_ok (memory s) live q → ceil (Z.min (left_of q) c) ≤ room (memory s) →
  ∃ n o s', (q ← init_next_round cfg rcfg ticks true q; add_chunked_req cfg acfg q) s = (Ok o, s') ∧
    0 ≤ n ≤ left_of q ∧ (o = Some (with_chunk q n) ∧ blocked s' ∨ o = None) ∧ memory s' = memory s ∧ batch_is_full s' = batch_is_full s ∧
    new_chunked_req (adder s') = None ∧ pass_inv (memory s) hs live [with_chunk q n] s' [].
Proof.
  intros Hcan Hchunk Hc Hnew Hcur Htot Hj Hq Hroom. pose proof (ck_ps _ Hok) as Hps.
  set (q1 := set_extend_input_len (left_of q) (set_req (λ r, set_fill_ids (origin_input_ids r ++ output_ids r) r) q)).
  set (t := rem_total_tokens cfg s). set (n0 := if Z.min c (Qtrunc t) <=? 0 then c else Z.min c (Qtrunc t)).
  assert (0 < n0 ≤ c ∧ (n0 = c ∨ n0 = Qtrunc t)) as [Hn0 Hcase] by (unfold n0; destruct (Z.leb_spec (Z.min c (Qtrunc t)) 0); lia).
  assert (0 ≤ left_of q) as Hl by (pose proof (co_prefix _ _ _ Hq); unfold left_of; lia).
  set (n := Z.min (left_of q) n0). set (q' := with_chunk q n). set (m := if n0 <? left_of q then 0 else Z.min (max_new_tokens q) (CLIP_MAX_NEW_TOKENS acfg)).
  assert (0 ≤ m) as Hm by (pose proof (co_new _ _ _ Hq); unfold m; destruct (n0 <? left_of q); lia).
  set (s' := let_in q' false 0 n m s (memory s)).
  exists n, (if n0 <? left_of q then Some q' else None), s'.
  assert (0 ≤ paged q') as Hp by (pose proof (ceil_bounds n); unfold paged, q'; simpl; lia).
  assert (paged q' ≤ room (memory s)) as Hfit by (etrans; [apply (ceil_mono _ (Z.min (left_of q) c)); simpl; lia|done]).
  assert (pass_inv (memory s) hs live [q'] s' []) as Hinv.
  { assert (0 <= inject_Z (m + ps))%Q as H1 by (apply inject_nonneg; lia).
    split; unfold s', let_in, update_prefill_budget, update_adder, modify; cbn; rewrite ?Hcan; try done.
    - unfold need. cbn. unfold paged. cbn. change (ceil n + 0 ≤ cur_rem_token_offset (adder s) + (ceil n + ps)). lia.
    - unfold need. cbn. change (inject_Z (ceil n + 0) <= rem_total_token_offset (adder s) + inject_Z (ceil n + m + ps))%Q.
      rewrite !inject_Z_plus in *. change (inject_Z 0) with 0%Q. lra.
    - unfold need. cbn. lia. }
  split_and!; try done; try lia.
  - unfold init_next_round. cbn [negb]. rewrite (bind_Ok _ _ s q1 s) by done. unfold add_chunked_req. rewrite Hdllm.
    rewrite (bind_Ok _ _ s n0 s); [by unfold s', m, q', n; destruct (n0 <? left_of q) eqn:E; unfold q1; cbn; rewrite E|].
    rewrite (bind_Ok _ _ s (adder s) s) by done. by rewrite Hchunk.
  - destruct (Z.ltb_spec n0 (left_of q)) as [Hlt|]; [left|by right]. split; [done|]. assert (n = n0) as Hn by lia.
    destruct Hcase as [He|He].
    + left. exists (c - ceil n). split; [unfold s', let_in, update_prefill_budget, update_adder, modify; cbn; by rewrite Hdllm, Hchunk|].
      pose proof (ceil_bounds n). lia.
    + right. destruct (Qtrunc_bounds t) as [_ Hb]; [lia|]. rewrite <- He, <- Hn in Hb. unfold rem_total_tokens.
      change (inject_Z (room (memory s)) - (rem_total_token_offset (adder s) + inject_Z (ceil n + m + ps)) <= 0)%Q.
      change t with (inject_Z (room (memory s)) - rem_total_token_offset (adder s))%Q in Hb.
      pose proof (ceil_bounds n) as [Hb1 _]. assert (n + 1 ≤ ceil n + m + ps) as Hle by lia. rewrite Zle_Qle, inject_Z_plus in Hle.
      change (inject_Z 1) with 1%Q in Hle. lra.
Qed.
End Admission.

(** ** From the pass to the allocation *)

Section Batch.
Context (cfg : KvConfig) (Hpo : pool_ok (pool_cfg cfg)) (Hok : config_ok cfg).
Local Abbreviation cc := (cache_cfg cfg).
Local Abbreviation pc := (pool_cfg cfg).
Local Abbreviation ps := (pool_page_size pc).
#[local] Instance batch_allocator : KvAllocator pc (allocator_free cfg) := kv_allocator cfg Hpo.
Implicit Types (k : Kv) (hs : list nat) (live : gset Z) (q : AReq).

(** What the allocation asks of a request. *)
Record item_ok k live q : Prop := {
  it_extend : 0 ≤ req_extend_input_len q;
  it_fill : fill_length q = prefix_length q + req_extend_input_len q;
  it_len : fill_length q ≤ max_context_len cfg;
  it_aligned : KvKernelFacts.aligned ps (batch_extend (batch_req q));
  it_tail : ∀ p, tail_page ps (batch_extend (batch_req q)) = Some p →
    p ∈ live ∧ ∀ x, x ∈ indices (nodes (tree k)) → x / ps ≠ p;
  it_slot : is_Some (slot_of (req_slot q)) → 0 < inflight_middle_chunks (req_slot q) ∨ 0 < slot_kv_committed_len (req_slot q);
}.

Lemma tail_inside r p : tail_page ps r = Some p → pre_len r mod ps ≠ 0 ∧ p = last_loc r / ps.
Proof.
  pose proof (ck_ps _ Hok) as Hps. unfold tail_page, part1, pages_of. destruct (Z.ltb_spec 0 (Z.min (seq_len r) ((pre_len r + ps - 1) / ps * ps) - pre_len r)) as [H|]; [|done].
  intros [= <-]. split; [|done]. intros H0. pose proof (Z_div_mod_eq_full (pre_len r) ps).
  pose proof (Z_div_mod_eq_full (pre_len r + ps - 1) ps). pose proof (Z.mod_pos_bound (pre_len r + ps - 1) ps Hps).
  assert ((pre_len r + ps - 1) / ps < pre_len r / ps + 1) by nia. nia.
Qed.

Lemma sized_item k live q : sized cfg q → item_ok k live q.
Proof.
  intros [Hs He Hf Hw Hm]. pose proof (whole_length pc (ck_ps _ Hok) _ Hw) as Hp. split; try done.
  - unfold KvKernelFacts.aligned, batch_extend, batch_req. cbn. rewrite (whole_last pc (ck_ps _ Hok) _ Hw). unfold prefix_len. cbn. by rewrite Hp.
  - intros p [Hn _]%tail_inside. by destruct Hn.
  - rewrite Hs. by intros [? ?].
Qed.

Lemma sized_no_tail q : sized cfg q → tail_page ps (batch_extend (batch_req q)) = None.
Proof.
  intros Hq. destruct (tail_page ps (batch_extend (batch_req q))) as [p|] eqn:E; [|done]. destruct (tail_inside _ _ E) as [Hn _].
  destruct Hn. apply (whole_length pc (ck_ps _ Hok)), (so_whole _ _ Hq).
Qed.

Lemma chunk_item k live q n : chunk_ok cfg k live q → 0 ≤ n ≤ left_of q → item_ok k live (with_chunk q n).
Proof.
  intros Hq Hn. assert (prefix_length q + left_of q = length (origin_input_ids (req q) ++ output_ids (req q))) as Hl by (unfold left_of; lia).
  pose proof (with_chunk_fill q n Hl Hn) as Hf. split; try done.
  - simpl. lia.
  - rewrite Hf. pose proof (co_len _ _ _ _ Hq). lia.
  - apply (co_aligned _ _ _ _ Hq).
  - intros p [H0 ->]%tail_inside. by apply (co_tail _ _ _ _ Hq).
  - intros _. apply (co_slot _ _ _ _ Hq).
Qed.

Lemma item_more k live q : item_ok k live q → item_ok k live (one_more_chunk q).
Proof. intros [? ? ? ? ? Hs]. split; try done. intros Hq. destruct (Hs Hq); simpl; [left; lia|by right]. Qed.

Lemma item_calm k k' live q : calm k k' → item_ok k live q → item_ok k' live q.
Proof. intros Hc [? ? ? ? Ht ?]. split; try done. intros p. rewrite (ca_indices _ _ Hc). apply Ht. Qed.

(** The pages of the batch are within the tokens that were promised. *)
Lemma new_pages_need k live l : Forall (item_ok k live) l → new_pages cfg (batch_req <$> l) * ps ≤ need cfg l.
Proof.
  pose proof (ck_ps _ Hok) as Hps. unfold new_pages, get_num_new_pages, need. induction 1 as [|q l [He Hf _ _ _ _] _ IH]; [done|].
  rewrite !fmap_cons, !Zsum_cons. enough (num_new_pages ps (batch_extend (batch_req q)) * ps ≤ paged cfg q) by lia.
  unfold num_new_pages, pages_of, batch_extend, batch_req, prefix_len. cbn. change (Z.of_nat (length (RadixReq.prefix_indices (req q)))) with (prefix_length q).
  rewrite Hf. set (p := prefix_length q) in *. set (e := req_extend_input_len q) in *.
  assert (e ≤ paged cfg q < e + ps ∧ paged cfg q mod ps = 0) as [Hb Hm] by exact (ceil_bounds cfg Hok e).
  pose proof (Z_div_mod_eq_full (paged cfg q) ps) as Hd.
  assert ((p + e + ps - 1) / ps ≤ (p + ps - 1) / ps + paged cfg q / ps) as Hle.
  { rewrite <- Z.div_add by lia. apply Z.div_le_mono; nia. }
  nia.
Qed.

Lemma items_batch k live l : Forall (item_ok k live) l → batch_ok cfg k live (batch_req <$> l).
Proof.
  intros Hl. split.
  - apply Forall_fmap. eapply Forall_impl; [exact Hl|]. intros q [? ? _ _ _ _]. by split.
  - apply Forall_fmap. eapply Forall_impl; [exact Hl|]. by intros q [].
  - intros r p (q & -> & Hq)%list_elem_of_fmap. rewrite Forall_forall in Hl. apply (it_tail _ _ _ (Hl q Hq)).
Qed.

(** Counting another chunk changes nothing the allocation depends on. *)
Definition more_of (g : AReq → AReq) : Prop := ∀ q, g q = q ∨ g q = one_more_chunk q.

Lemma more_map (chunked : option AReq) :
  ∃ g, more_of g ∧ ∀ l, from_option (λ c, update_object (object c) one_more_chunk) id chunked l = g <$> l.
Proof.
  destruct chunked as [c|]; [|exists id; split; [by left|intros l; by rewrite list_fmap_id]].
  exists (λ q, if (object q =? object c)%nat then one_more_chunk q else q). split; [|done]. intros q. case_match; auto.
Qed.

Lemma more_same {B} (f : AReq → B) g (l : list AReq) : more_of g → (∀ q, f (one_more_chunk q) = f q) → f <$> (g <$> l) = f <$> l.
Proof. intros Hg Hf. rewrite <- list_fmap_compose. apply list_fmap_ext. intros i q _. simpl. by destruct (Hg q) as [-> | ->]. Qed.

Lemma slots_more g (l : list AReq) : more_of g → omap slot_of (req_slot <$> (g <$> l)) = omap slot_of (req_slot <$> l).
Proof.
  intros Hg. assert (slot_of <$> (req_slot <$> (g <$> l)) = slot_of <$> (req_slot <$> l)) as He.
  { rewrite <- !(list_fmap_compose req_slot slot_of). by apply more_same. }
  assert (∀ l1 l2 : list SlotReq, slot_of <$> l1 = slot_of <$> l2 → omap slot_of l1 = omap slot_of l2) as H; [|by apply H].
  induction l1 as [|x l1 IH]; intros [|y l2] E; try done. injection E as E1 E2. csimpl. by rewrite E1, (IH l2 E2).
Qed.

Lemma sized_slots l : Forall (sized cfg) l → omap slot_of (req_slot <$> l) = [].
Proof. induction 1 as [|q l Hq _ IH]; [done|]. csimpl. by rewrite (so_slot _ _ Hq). Qed.

Lemma need_more g (l : list AReq) : more_of g → need cfg (g <$> l) = need cfg l.
Proof. intros Hg. unfold need. by rewrite more_same. Qed.

(** ** The scheduler *)

Context (rcfg : ReqConfig) (ticks : nat → Z) (uninit beyond : Z → Z).
Context (dcfg : DelayerConfig) (gather : LocalInfo → list LocalInfo) (now : Q) (scfg : SchedConfig).
Context (sim_ticks : nat → Z) (child_list : TreeNode → list nat) (draw : nat → nat).
Context (Hlist : ∀ nd, child_list nd ≡ₚ (map_to_list (children nd)).*2).
Local Abbreviation objects l := (object <$> l).

Record settings_ok : Prop := {
  st_dllm : sched_dllm scfg = None;
  st_clip : 0 ≤ sched_clip scfg;
  st_align : from_option (λ n, 0 < n) True (truncation_align scfg);
}.

Definition mixed_tokens (s : Sched) : Z := if is_mixed_chunk scfg then length (running_reqs s) else 0.

(** Tree and pool are in step, free rows are distinct, no request is there twice, the running
    ones have not exceeded their tokens, and the chunk that is due fits into memory. *)
Record sched_ok (s : Sched) hs live : Prop := {
  sc_joint : joint cfg (sched_memory s) hs live;
  sc_rows : NoDup (free_slots (slots (sched_memory s)));
  sc_waiting : Forall (waiting_ok cfg) (waiting_queue s);
  sc_policy : policy_ready cfg (sched_policy scfg) (waiting_queue s);
  sc_objects : NoDup (objects (option_list (chunked_req s) ++ waiting_queue s));
  sc_running : Forall (λ r, 0 ≤ max_new_tokens r - output_len r) (running_reqs s);
  sc_ratio : (0 <= ratio_tracker s)%Q;
  sc_chunk : ∀ c, chunked_req s = Some c → chunk_ok cfg (sched_memory s) live c ∧
    ∃ n, chunked_prefill_size scfg = Some n ∧ mixed_tokens s < n ∧
      ceil_paged_tokens cfg (Z.min (left_of c) (n - mixed_tokens s)) ≤ room cfg (sched_memory s);
}.

Lemma room_nonneg k hs live : joint cfg k hs live → 0 ≤ room cfg k.
Proof.
  intros Hj. unfold KvAllocFacts.room, evictable, available_size. pose proof (ck_ps _ Hok).
  pose proof (evictable_nonneg cc (tree k) hs (j_tree _ _ _ _ Hj)). destruct (is_chunk_cache cfg); nia.
Qed.

Lemma Qsum_nonneg l : Forall (λ x, (0 <= x)%Q) l → (0 <= Qsum l)%Q.
Proof. induction 1 as [|x l Hx _ IH]; [done|]. simpl. lra. Qed.

Lemma init_offsets s hs live x :
  settings_ok → sched_ok s hs live →
  let a := init_adder (adder_config scfg s) (max_prefill_tokens scfg) (chunked_prefill_size scfg) (mixed_tokens s) x in
  0 ≤ cur_rem_token_offset a ∧ (0 <= rem_total_token_offset a)%Q.
Proof.
  intros Hst Hs a. assert (0 ≤ mixed_tokens s) as Hm by (unfold mixed_tokens; case_match; lia). split; [done|].
  cbn [a init_adder rem_total_token_offset adder_config running_batch from_option].
  enough (0 <= Qsum (get_running_request_total_token_offset (adder_config scfg s) <$> running_reqs s))%Q by (apply inject_nonneg in Hm; cbn; lra).
  apply Qsum_nonneg, Forall_fmap. eapply Forall_impl; [apply (sc_running _ _ _ Hs)|]. intros r Hr. simpl.
  unfold get_running_request_total_token_offset. apply Qmult_le_0_compat; [|apply (sc_ratio _ _ _ Hs)]. apply inject_nonneg.
  pose proof (st_clip Hst). apply Z.min_glb; [exact Hr|done].
Qed.

(** After the pass: the chunked request [ck] and those from the queue [new]; at most one of
    them goes on in chunks. *)
Record filled s hs live (p : Pass) (chunked : option AReq) (queue ck new : list AReq) : Prop := {
  fi_inv : pass_inv cfg (sched_memory s) hs live ck p new;
  fi_rows : has_rows ck p new;
  fi_ck : ck = [] ∧ chunked_req s = None ∨ ∃ c n, chunked_req s = Some c ∧ ck = [with_chunk c n] ∧ 0 ≤ n ≤ left_of c;
  fi_queue : objects queue = objects (waiting_queue s);
  fi_new : objects new `sublist_of` objects (waiting_queue s);
  fi_left : Forall (λ q, waiting_ok cfg q ∨ object q ∈ objects new) queue;
  fi_one : chunked = None ∨ new_chunked_req (adder p) = None;
}.

Lemma fill_ok s hs live x :
  settings_ok → sched_ok s hs live →
  let acfg := adder_config scfg s in
  let a := init_adder acfg (max_prefill_tokens scfg) (chunked_prefill_size scfg) (mixed_tokens s) x in
  ∃ chunked queue p ck new,
    fill_adder cfg rcfg ticks dcfg gather now scfg acfg (chunked_req s) (waiting_queue s) (mk_pass a (sched_memory s) (running_full s)) =
      (Ok (chunked, queue), p) ∧ filled s hs live p chunked queue ck new.
Proof.
  intros Hst Hs acfg a. destruct (init_offsets s hs live x Hst Hs) as [Hcur Htot]. fold acfg a in Hcur, Htot.
  set (p0 := mk_pass a (sched_memory s) (running_full s)). pose proof (sc_joint _ _ _ Hs) as Hj. pose proof (room_nonneg _ _ _ Hj) as Hr0.
  assert (∀ ck p1, pass_inv cfg (sched_memory s) hs live ck p1 [] →
    ∃ queue p new, feed cfg rcfg ticks dcfg gather now scfg acfg (waiting_queue s) p1 = (Ok queue, p) ∧
      fed cfg (sched_memory s) hs live ck p1 [] (waiting_queue s) queue p new) as Hfeed.
  { intros ck p1 Hp1. apply (feed_ok cfg Hok rcfg ticks dcfg gather now acfg (st_dllm Hst) (st_clip Hst) _ (st_align Hst) ltac:(eauto) scfg eq_refl);
      [done|by left|apply Hs]. }
  unfold fill_adder. destruct (chunked_req s) as [c|] eqn:Ec.
  - destruct (sc_chunk _ _ _ Hs c Ec) as (Hc & size & Hsize & Hlt & Hfit).
    destruct (chunk_ok_run cfg Hok rcfg ticks acfg (st_dllm Hst) (st_clip Hst) p0 c (size - mixed_tokens s) hs live)
      as (n & o & p1 & E1 & Hn & Ho & Hm & Hfull & Hnew & Hp1); try done; [by cbn; rewrite Hsize|lia|].
    destruct (Hfeed _ p1 Hp1) as (queue & p & new & E2 & [F1 F2 F3 F4 F5 F6]).
    exists o, queue, p, [with_chunk c n], new. split.
    + rewrite (bind_Ok _ _ _ _ _ E1), (bind_Ok _ _ _ _ _ E2). done.
    + split; try done; [right; by exists c, n|]. destruct Ho as [[-> Hb]| ->]; [right|by left]. by rewrite F6.
  - assert (pass_inv cfg (sched_memory s) hs live [] p0 []) as Hp0 by by split.
    destruct (Hfeed _ p0 Hp0) as (queue & p & new & E2 & [F1 F2 F3 F4 F5 F6]).
    exists None, queue, p, [], new. split.
    + rewrite (bind_Ok _ _ p0 None p0) by done. by rewrite (bind_Ok _ _ _ _ _ E2).
    + split; try done; by left.
Qed.

Lemma locked_more g l hs : more_of g → locked cfg hs (g <$> l) = locked cfg hs l.
Proof.
  intros Hg. revert hs. induction l as [|q l IH]; intros hs; [done|]. unfold locked in *. cbn [fmap list_fmap foldl].
  assert (last_node (req (g q)) = last_node (req q)) as -> by (by destruct (Hg q) as [-> | ->]). apply IH.
Qed.

Lemma filled_items s hs live p chunked queue ck new :
  sched_ok s hs live → filled s hs live p chunked queue ck new →
  Forall (item_ok (memory p) live) (ck ++ new) ∧ NoDup (free_slots (slots (memory p)) ++ omap slot_of (req_slot <$> (ck ++ new))) ∧
  (length (filter (λ r, slot_of r = None) (req_slot <$> (ck ++ new))) ≤ length (free_slots (slots (memory p))))%nat.
Proof.
  intros Hs Hf. pose proof (fi_inv _ _ _ _ _ _ _ _ Hf) as Hi. pose proof (pi_calm _ _ _ _ _ _ _ Hi) as Hc.
  pose proof (pi_sized _ _ _ _ _ _ _ Hi) as Hn. rewrite !fmap_app, omap_app, (sized_slots new Hn), app_nil_r.
  assert (Forall (item_ok (memory p) live) ck ∧ NoDup (free_slots (slots (memory p)) ++ omap slot_of (req_slot <$> ck)) ∧
    filter (λ r, slot_of r = None) (req_slot <$> ck) = []) as (Hck & Hnd & Hnone).
  { rewrite (ca_slots _ _ Hc). destruct (fi_ck _ _ _ _ _ _ _ _ Hf) as [[-> _]|(c & n & Ec & -> & Hn0)].
    - simpl. rewrite app_nil_r. split; [done|]. split; [apply Hs|done].
    - destruct (sc_chunk _ _ _ Hs c Ec) as [Hco _]. destruct (co_slot _ _ _ _ Hco) as [[row Hrow] _].
      pose proof (co_row _ _ _ _ Hco) as Hnd. cbn. rewrite Hrow in *. split; [|by split].
      constructor; [|done]. eapply item_calm; [exact Hc|]. by apply chunk_item. }
  split; [|split; [done|]].
  - apply Forall_app. split; [done|]. eapply Forall_impl; [exact Hn|]. intros q. apply sized_item.
  - rewrite filter_app, Hnone. simpl. etrans; [apply length_filter|]. rewrite length_fmap.
    destruct (fi_rows _ _ _ _ _ _ _ _ Hf) as [->|Hr]; [simpl; lia|]. rewrite length_app in Hr. unfold slots_available in Hr. lia.
Qed.

Lemma remaining_objects can l : objects (remaining can l) = filter (λ o, o ∉ objects can) (objects l).
Proof.
  unfold remaining. induction l as [|q l IH]; [done|]. cbn [fmap list_fmap]. rewrite !filter_cons.
  repeat case_decide; try done. cbn [fmap list_fmap]. by rewrite IH.
Qed.

Lemma remaining_nil l : remaining [] l = l.
Proof. unfold remaining. induction l as [|q l IH]; [done|]. by rewrite filter_cons_True, IH by (simpl; apply not_elem_of_nil). Qed.

(** What is left in the queue, with the batch, is what was there. *)
Lemma filled_objects s hs live p chunked queue ck new :
  sched_ok s hs live → filled s hs live p chunked queue ck new →
  objects (ck ++ new) ++ objects (remaining (ck ++ new) queue) ≡ₚ objects (option_list (chunked_req s) ++ waiting_queue s) ∧
  Forall (waiting_ok cfg) (remaining (ck ++ new) queue).
Proof.
  intros Hs Hf. pose proof (sc_objects _ _ _ Hs) as Hnd. rewrite fmap_app in *. apply NoDup_app in Hnd as (Hnd1 & Hd & Hnd2).
  assert (objects ck = objects (option_list (chunked_req s))) as Eck.
  { by destruct (fi_ck _ _ _ _ _ _ _ _ Hf) as [[-> ->]|(c & n & -> & -> & _)]. }
  pose proof (fi_queue _ _ _ _ _ _ _ _ Hf) as Eq. pose proof (fi_new _ _ _ _ _ _ _ _ Hf) as Hsub. split.
  - rewrite fmap_app, Eck, <- (assoc_L (++)). f_equiv. rewrite <- Eq in *.
    assert (objects (remaining (ck ++ new) queue) = filter (λ o, o ∉ objects (ck ++ new)) (objects queue)) as ->.
    { apply remaining_objects. }
    apply NoDup_Permutation; [|done|].
    + apply NoDup_app. split; [by eapply sublist_NoDup|]. split; [|by apply NoDup_filter].
      intros o Ho (Hn & _)%list_elem_of_filter. apply Hn. rewrite fmap_app. apply elem_of_app. by right.
    + intros o. rewrite elem_of_app, list_elem_of_filter, fmap_app, elem_of_app. split.
      * intros [Ho|[_ Ho]]; [by eapply elem_of_sublist|done].
      * intros Ho. destruct (decide (o ∈ objects new)); [by left|right]. split; [|done]. intros [Hck|?]; [|done].
        rewrite Eck in Hck. by apply (Hd o Hck).
  - unfold remaining. apply Forall_forall. intros q [Hn Hq]%list_elem_of_filter.
    pose proof (fi_left _ _ _ _ _ _ _ _ Hf) as Hl. rewrite Forall_forall in Hl. destruct (Hl q Hq) as [?|Ho]; [done|].
    destruct Hn. rewrite fmap_app. apply elem_of_app. by right.
Qed.

(** The requests of the batch that come from the queue. *)
Definition from_queue (s : Sched) (reqs : list AReq) : list AReq := drop (length (option_list (chunked_req s))) reqs.

(** What the next batch is: none, or requests with a row and new indices each, and no
    request lost. *)
Definition batch_made (s : Sched) hs live (o : option (list AReq * list Z * list SlotReq)) (s' : Sched) : Prop :=
  Forall (waiting_ok cfg) (waiting_queue s') ∧
  match o with
  | None => joint cfg (sched_memory s') hs live ∧ objects (waiting_queue s') ≡ₚ objects (waiting_queue s)
  | Some (reqs, out, rows) => ∃ fr pages : list Z,
      allocated cfg beyond Hpo (tree (sched_memory s)) hs (locked cfg hs (from_queue s reqs)) live (batch_req <$> reqs)
        fr pages out (sched_memory s') ∧ NoDup out ∧
      rows_hold cfg (batch_req <$> reqs) rows out (req_to_token (sched_memory s')) ∧
      NoDup (free_slots (slots (sched_memory s')) ++ omap slot_of rows) ∧
      objects reqs ++ objects (waiting_queue s') ≡ₚ objects (option_list (chunked_req s) ++ waiting_queue s)
  end.

(** An allocation, seen from before the lookups of the pass. *)
Lemma allocated_calm k k1 hs1 hs hs' live reqs fr pages out k' :
  calm k k1 → hs1 ⊆ hs → allocated cfg beyond Hpo (tree k1) hs hs' live reqs fr pages out k' →
  allocated cfg beyond Hpo (tree k) hs1 hs' live reqs fr pages out k'.
Proof.
  intros Hc Hsub [[Hi Hp] ? ? ? ? ? ? ?]. split; try done. split; [by rewrite <- (ca_indices _ _ Hc)|].
  intros h u v Hh Hu. apply Hp; [by apply Hsub|]. by apply (ca_path _ _ Hc).
Qed.

Lemma locked_sub hs l : hs ⊆ locked cfg hs l.
Proof.
  revert hs. induction l as [|q l IH]; intros hs; [done|]. etrans; [|apply IH]. unfold push. destruct (is_chunk_cache cfg); [done|].
  destruct (last_node (req q)); [|done]. apply list_subseteq_cons. done.
Qed.

(** Only the chunked request may go on to fill an old page. *)
Lemma filled_tails s hs live p chunked queue ck new g :
  filled s hs live p chunked queue ck new → more_of g → NoDup (omap (tail_page ps) (batch_extend <$> (batch_req <$> (g <$> (ck ++ new))))).
Proof.
  intros Hf Hg. rewrite !fmap_app, omap_app.
  assert (omap (tail_page ps) (batch_extend <$> (batch_req <$> (g <$> new))) = []) as ->.
  { pose proof (pi_sized _ _ _ _ _ _ _ (fi_inv _ _ _ _ _ _ _ _ Hf)) as Hs. clear Hf. induction Hs as [|q l Hq _ IH]; [done|]. csimpl.
    assert (batch_extend (batch_req (g q)) = batch_extend (batch_req q)) as -> by by destruct (Hg q) as [-> | ->].
    by rewrite (sized_no_tail q Hq). }
  rewrite app_nil_r. destruct (fi_ck _ _ _ _ _ _ _ _ Hf) as [[-> _]|(c & n & _ & -> & _)]; [constructor|]. csimpl.
  destruct (tail_page _ _); repeat constructor. apply not_elem_of_nil.
Qed.

(** The allocation for the requests of a pass. *)
Lemma filled_allocates s hs live p chunked queue ck new g :
  sched_ok s hs live → filled s hs live p chunked queue ck new → more_of g →
  ∃ out rows k' (fr pages : list Z), alloc_for_extend cfg uninit beyond (batch_req <$> (g <$> (ck ++ new))) (memory p) = (Ok (out, rows), k') ∧
    allocated cfg beyond Hpo (tree (sched_memory s)) hs (locked cfg hs new) live (batch_req <$> (g <$> (ck ++ new))) fr pages out k' ∧ NoDup out ∧
    rows_hold cfg (batch_req <$> (g <$> (ck ++ new))) rows out (req_to_token k') ∧ NoDup (free_slots (slots k') ++ omap slot_of rows).
Proof.
  intros Hs Hf Hg. pose proof (fi_inv _ _ _ _ _ _ _ _ Hf) as Hi. destruct (filled_items _ _ _ _ _ _ _ _ Hs Hf) as (Hit & Hnd & Hfree).
  set (l := ck ++ new) in *. assert (Forall (item_ok (memory p) live) (g <$> l)) as Hit'.
  { apply Forall_fmap. eapply Forall_impl; [exact Hit|]. intros q Hq. simpl. destruct (Hg q) as [-> | ->]; [done|by apply item_more]. }
  assert (slot_req <$> (batch_req <$> (g <$> l)) = req_slot <$> (g <$> l)) as Esl by (rewrite <- list_fmap_compose; by apply list_fmap_ext).
  assert (rows_ok cfg (memory p) (batch_req <$> (g <$> l))) as Hrows.
  { split; rewrite ?Esl.
    - apply Forall_fmap. eapply Forall_impl; [exact Hit'|]. intros q Hq. exact (it_slot _ _ _ Hq).
    - etrans; [|exact Hfree]. apply Nat.eq_le_incl. clear -Hg. generalize l. intros l'. induction l' as [|q l' IH]; [done|]. cbn [fmap list_fmap].
      rewrite !filter_cons. assert (slot_of (req_slot (g q)) = slot_of (req_slot q)) as E by (by destruct (Hg q) as [-> | ->]).
      repeat case_decide; simpl; congruence.
    - by rewrite slots_more.
    - apply Forall_fmap. eapply Forall_impl; [exact Hit'|]. intros q Hq. exact (it_len _ _ _ Hq). }
  destruct (extend_outcome cfg uninit beyond Hpo Hok (batch_req <$> (g <$> l)) (memory p) (locked cfg hs new) live (items_batch _ _ _ Hit') Hrows (pi_joint _ _ _ _ _ _ _ Hi))
    as [(_ & out & rows & k' & fr & pages & E & Hal & Hh & Hn)|[Hlt _]].
  - exists out, rows, k', fr, pages. split; [done|]. split.
    { eapply allocated_calm; [apply (pi_calm _ _ _ _ _ _ _ Hi)|apply locked_sub|exact Hal]. }
    split; [|done]. apply (al_once _ _ _ _ _ _ _ _ _ _ _ _ Hal). by eapply filled_tails.
  - exfalso. pose proof (new_pages_need _ _ _ Hit') as Hle. rewrite need_more in Hle by done.
    assert (need cfg l ≤ room cfg (memory p)) as Hroom by exact (pi_room _ _ _ _ _ _ _ Hi). lia.
Qed.

Lemma take_batch_ok s hs live x :
  settings_ok → sched_ok s hs live →
  ∃ o x' s', take_batch cfg rcfg ticks uninit beyond dcfg gather now scfg x s = (Ok (o, x'), s') ∧ batch_made s hs live o s'.
Proof.
  intros Hst Hs. unfold take_batch. rewrite (bind_Ok get _ s s s) by done.
  destruct (fill_ok s hs live x Hst Hs) as (chunked & queue & p & ck & new & E & Hf). unfold mixed_tokens in E. rewrite E.
  pose proof (fi_inv _ _ _ _ _ _ _ _ Hf) as Hi. pose proof (pi_list _ _ _ _ _ _ _ Hi) as El.
  destruct (filled_objects _ _ _ _ _ _ _ _ Hs Hf) as [Hobj Hleft]. rewrite El. erewrite bind_Ok by reflexivity.
  destruct (bool_decide_reflect (ck ++ new = [])) as [Hnil|Hne].
  { eexists None, _, _. split; [reflexivity|]. split; [done|]. cbn [sched_memory waiting_queue].
    apply app_nil in Hnil as [-> ->]. split; [apply Hi|]. cbn [app]. by rewrite remaining_nil, (fi_queue _ _ _ _ _ _ _ _ Hf). }
  assert (∃ c, match new_chunked_req (adder p), chunked with Some _, Some _ => Raise AssertionError | Some q, None => Ok (Some q) | None, c => Ok c end
    = Ok c) as [c Ec].
  { destruct (fi_one _ _ _ _ _ _ _ _ Hf) as [->| ->]; [destruct (new_chunked_req (adder p))|]; eauto. }
  rewrite Ec. erewrite (bind_Ok (lift_res _)) by reflexivity. destruct (more_map c) as (g & Hg & Hmore). rewrite Hmore.
  destruct (filled_allocates s hs live p chunked queue ck new g Hs Hf Hg) as (out & rows & k' & fr & pages & Ea & Hal & Hndo & Hh & Hn).
  rewrite Ea. erewrite bind_Ok by reflexivity. eexists (Some (g <$> (ck ++ new), out, rows)), _, _. split; [reflexivity|].
  split; [exact Hleft|]. exists fr, pages. cbn [sched_memory waiting_queue fst snd].
  assert (from_queue s (g <$> (ck ++ new)) = g <$> new) as ->.
  { unfold from_queue. destruct (fi_ck _ _ _ _ _ _ _ _ Hf) as [[-> ->]|(c0 & n & -> & -> & _)]; [done|]. done. }
  rewrite locked_more by done. split_and!; try done. rewrite (more_same object) by done. exact Hobj.
Qed.

(** *** The order comes first *)

Lemma looked_up_same q q' :
  looked_up q q' → object q' = object q ∧ req_priority (req q') = req_priority (req q) ∧ (waiting_ok cfg q → waiting_ok cfg q').
Proof. intros [-> |(n & v & ->)]; [done|]. split; [done|]. split; [done|]. by intros []; split. Qed.

Lemma looked_up_all queue found :
  Forall2 looked_up queue found →
  objects found = objects queue ∧ (Forall (waiting_ok cfg) queue → Forall (waiting_ok cfg) found) ∧
  (Forall (λ q, is_Some (req_priority (req q))) queue → Forall (λ q, is_Some (req_priority (req q))) found).
Proof.
  induction 1 as [|q q' queue found Hq _ (Ho & Hw & Hp)]; [done|]. destruct (looked_up_same _ _ Hq) as (Eo & Ep & Hwq).
  cbn [fmap list_fmap]. rewrite Ho, Eo. split; [done|]. split; intros [H1 H2]%Forall_cons; constructor; auto. by rewrite Ep.
Qed.

Lemma chunk_calm k k' live q : calm k k' → chunk_ok cfg k live q → chunk_ok cfg k' live q.
Proof. intros [Hi _ Hp Hs Ht] []. split; try done; [by rewrite Hs|by rewrite Hi]. Qed.

(** Ordering the queue keeps the state consistent, and the requests. *)
Lemma order_queue_ok s hs live :
  sched_ok s hs live →
  ∃ s', order_queue cfg rcfg ticks scfg sim_ticks child_list draw s = (Ok tt, s') ∧ sched_ok s' hs live ∧
    chunked_req s' = chunked_req s ∧ objects (waiting_queue s') ≡ₚ objects (waiting_queue s) ∧ calm (sched_memory s) (sched_memory s').
Proof.
  intros Hs. unfold order_queue.
  destruct (calc_priority_ok cfg Hok rcfg ticks sim_ticks child_list draw (sched_policy scfg) Hlist (Some (running_reqs s)) (waiting_queue s)
    (mk_order (sched_memory s) (policy_tree s)) hs live (sc_joint _ _ _ Hs) (sc_policy _ _ _ Hs)) as (queue & o & E & Hlo & _ & _ & found & Hf & Hp & _).
  rewrite E. eexists. split; [reflexivity|]. destruct (looked_up_all _ _ Hf) as (Ho & Hw & Hprio).
  assert (objects queue ≡ₚ objects (waiting_queue s)) as Hobj by by rewrite <- Ho, Hp.
  pose proof Hlo as [Hj Hc Hroom _]. split; [|by split_and!]. cbn [real] in Hc, Hroom. destruct Hs. split; cbn [sched_memory waiting_queue chunked_req running_reqs ratio_tracker]; try done.
  - by rewrite (ca_slots _ _ Hc).
  - rewrite Hp. auto.
  - destruct sc_policy0 as [H1 H2]. split; [done|]. intros Hen. rewrite Hp. auto.
  - rewrite fmap_app in *. by rewrite Hobj.
  - intros c Ec. destruct (sc_chunk0 c Ec) as (Hck & n & Hn & Hlt & Hfit). split; [by eapply chunk_calm|]. exists n. split; [done|]. split; [done|].
    by rewrite Hroom.
Qed.

Lemma prefill_outcome s hs live x :
  settings_ok → sched_ok s hs live →
  ∃ o x' s', get_new_batch_prefill_raw cfg rcfg ticks uninit beyond dcfg gather now scfg sim_ticks child_list draw x s = (Ok (o, x'), s') ∧
    batch_made s hs live o s'.
Proof.
  intros Hst Hs. unfold get_new_batch_prefill_raw. rewrite (bind_Ok get _ s s s) by done.
  destruct (_ && bool_decide (chunked_req s = None)).
  { exists None, x, s. split; [done|]. split; [apply Hs|]. by split; [apply Hs|]. }
  destruct (_ && bool_decide (chunked_req s = None)).
  { eexists None, x, _. split; [done|]. split; [apply Hs|]. by split; [apply Hs|]. }
  destruct (order_queue_ok s hs live Hs) as (s1 & E1 & Hs1 & Hck & Hobj & Hcalm). rewrite (bind_Ok _ _ _ _ _ E1).
  destruct (take_batch_ok s1 hs live x Hst Hs1) as (o & x' & s' & E & Hleft & Hm). exists o, x', s'. split; [done|]. split; [done|].
  destruct o as [[[reqs out] rows]|]; [|by rewrite <- Hobj]. destruct Hm as (fr & pages & Hal & Hndo & Hr & Hn & Hp).
  exists fr, pages. unfold from_queue in *. rewrite Hck in Hal. split_and!; [|done|done|done|by rewrite Hp, Hck, !fmap_app, Hobj].
  by eapply allocated_calm.
Qed.
End Batch.

(** *** Delays *)

(** Passes in which some ranks can prefill and others cannot, and all are refused. *)
Inductive refused (dcfg : DelayerConfig) : nat → option DelayState → Prop :=
  | refused_none : refused dcfg 0 None
  | refused_pass n prev gather now skip usage running max_bs max_running waiting local next skip' :
      refused dcfg n prev →
      (∀ i, forallb prefillable (gather i) = false ∧ existsb prefillable (gather i) = true) →
      negotiate_should_allow_prefill_pure dcfg gather now skip prev local usage running max_bs max_running waiting = (next, false, skip') →
      refused dcfg (S n) next.

(** No more passes in a row are refused than the delay allows. *)
Theorem mixed_delays_bounded dcfg n next : refused dcfg n next → Z.of_nat n ≤ Z.max 0 (max_delay_passes dcfg - 1).
Proof.
  intros H. enough (from_option delayed_count 0 next = n ∧ Z.of_nat n ≤ Z.max 0 (max_delay_passes dcfg - 1)) by lia.
  induction H as [|n prev gather now skip usage running max_bs max_running waiting local next skip' H [IHc IHn] Hmix E]; [simpl; lia|].
  unfold negotiate_should_allow_prefill_pure in E. set (i := mk_local_info _ _ _ _ _) in E. destruct (Hmix i) as [E1 E2]. rewrite E1, E2 in E.
  cbn [negb] in E. destruct (existsb _ _); [done|]. rewrite IHc in E. destruct (Z.ltb_spec n (max_delay_passes dcfg - 1)); [|done].
  injection E as <- _. destruct prev as [d|]; cbn in *; lia.
Qed.

(** *** The estimates of requests that ignore the end of sequence *)

(** A request that lasts longest is inserted before the last one, not behind it. *)
Lemma insert_breaks_order : insert_state (3%Q, 0) [(1%Q, 0); (2%Q, 0)] = [(1%Q, 0); (3%Q, 0); (2%Q, 0)].
Proof. reflexivity. Qed.

Lemma sort_keeps_order : sort_states [(3%Q, 0); (1%Q, 0); (2%Q, 0)] = [(1%Q, 0); (2%Q, 0); (3%Q, 0)].
Proof. reflexivity. Qed.

(** ** Properties *)

(** C24 - From a consistent state, building the next prefill batch always returns: no running out
    of memory, no failed assertion. The state is consistent when tree and pool are in step,
    free rows are distinct, waiting requests have no row, fit into a row and are there once,
    the policy has the cache or the priorities it needs, running ones have not exceeded their
    tokens, and the chunk that is due, whose old page is live and not the tree's, has room: a
    positive share of the chunk size, whose pages are free or evictable. (Without that room
    the code admits the chunk all the same, and the allocation may fail.) It makes no batch,
    and no request is lost; or a batch with memory as an extend batch gets it: fresh distinct pages that were not in use, each new index the
    place of its token in its request's old page or share of them, no index twice; for them
    the tree gave up indices of its own, none on a path that was locked. Every request has a
    row of its own that reads its prefix followed by its new indices, exactly the last nodes
    of the requests taken from the queue are locked in addition, and batch and queue together
    hold the requests there were, none twice. *)
Theorem prefill_batch_allocates cfg (Hpo : pool_ok (pool_cfg cfg)) rcfg ticks uninit beyond dcfg gather now scfg sim_ticks child_list draw s hs live x :
  config_ok cfg → settings_ok scfg → (∀ nd, child_list nd ≡ₚ (map_to_list (children nd)).*2) → sched_ok cfg Hpo scfg s hs live →
  ∃ o x' s', get_new_batch_prefill_raw cfg rcfg ticks uninit beyond dcfg gather now scfg sim_ticks child_list draw x s = (Ok (o, x'), s') ∧
    batch_made cfg Hpo beyond s hs live o s'.
Proof. intros Hok Hst Hlist Hs. by apply prefill_outcome. Qed.

Definition demo_sched_cfg : SchedConfig :=
  mk_sched_config 4 false 16 (Some 8) true None 4 None false None 4096 (mk_policy_config LPM false (-1) 32 32).
Definition demo_rcfg : ReqConfig := mk_req_config false false false.
Definition demo_dcfg : DelayerConfig := mk_delayer_config 3 None None 5000 1 false.
Definition demo_areq (o : nat) (tokens : list Z) : AReq :=
  mk_areq o (mk_req tokens [] [] None None false (-1) false false 0 0 0 false false 0 None [] None []) 0 0 2 false 0 (mk_slot_req None 0 0) "r" 0 None.
Definition demo_sched : Sched :=
  mk_sched [] false [demo_areq 1 [5; 6; 7]; demo_areq 2 [5; 6]; demo_areq 3 [8]] None 1 0 None (init_kv demo_kv Z.of_nat 2)
    (init_cache Z.of_nat).
Definition demo_children (nd : TreeNode) : list nat := (map_to_list (children nd)).*2.

Lemma prefill_batch_allocates_witness :
  ∃ reqs out rows x' s', get_new_batch_prefill_raw demo_kv demo_rcfg Z.of_nat (λ _, 0) (λ _, 0) demo_dcfg (λ i, [i]) 0 demo_sched_cfg
      Z.of_nat demo_children id None demo_sched = (Ok (Some (reqs, out, rows), x'), s') ∧ object <$> reqs = [1%nat] ∧
    batch_made demo_kv demo_pool_ok (λ _, 0) demo_sched [] ∅ (Some (reqs, out, rows)) s'.
Proof.
  destruct (prefill_batch_allocates demo_kv demo_pool_ok demo_rcfg Z.of_nat (λ _, 0) (λ _, 0) demo_dcfg (λ i, [i]) 0 demo_sched_cfg
    Z.of_nat demo_children id demo_sched [] ∅ None) as (o & x' & s' & E & Hm).
  - by split.
  - by split.
  - done.
  - split; [apply joint_init|by apply (bool_decide_unpack _)|repeat constructor; simpl; lia|done|by apply (bool_decide_unpack _)|constructor|done|done].
  - assert (match (get_new_batch_prefill_raw demo_kv demo_rcfg Z.of_nat (λ _, 0) (λ _, 0) demo_dcfg (λ i, [i]) 0 demo_sched_cfg
              Z.of_nat demo_children id None demo_sched).1 with
            | Ok (Some (reqs, _, _), _) => object <$> reqs | _ => [] end = [1%nat]) as H by (vm_compute; reflexivity).
    rewrite E in H. destruct o as [[[reqs out] rows]|]; [|discriminate]. exists reqs, out, rows, x', s'.
    split; [exact E|]. split; [exact H|exact Hm].
Defined.
